(* ===== verification/_CoqProject ===== *)
-Q . S2P
Prelude.v
Codec.v
Keccak.v
Accumulator.v
Message.v
U256.v
Chain.v
MerkleSpec.v
MerkleCorrect.v
IncrementalCorrect.v
SparseCorrect.v
Relayer.v
RelayerCorrect.v
RelayerTheorems.v
Sealevel.v
AccountUtils.v
Interfaces.v
Mailbox.v
Multisig.v
MessageIdIsm.v
MessageIdIsmCorrect.v
Concrete.v
ConcreteIsm.v
MultisigTheorems.v
MailboxCorrect.v
MailboxTheorems.v
AccountTheorems.v
Igp.v
IgpCorrect.v
ConcreteIgp.v
IgpTheorems.v
ValidatorAnnounce.v
ValidatorAnnounceTheorems.v
ConnectionClient.v
Token.v
TokenPlugins.v
TokenCorrect.v
TokenPluginsCorrect.v
ConcreteToken.v
TokenTheorems.v
Database.v
DatabaseCorrect.v
DatabaseTheorems.v
MatchingList.v
GasPayment.v
GasPaymentTheorems.v
PendingOperation.v
PendingMessage.v
PendingMessageCorrect.v
SerialSubmitter.v
SubmitterTheorems.v
ProcessedOnce.v
PendingMessageTheorems.v
SubmitterScenario.v
MessageProcessor.v
MessageProcessorTheorems.v
CheckpointStorage.v
CheckpointStorageTheorems.v
CheckpointQuorum.v
QuorumTheorems.v
ConcreteStorage.v
Aggregation.v
Metadata.v
MetadataTheorems.v
Validator.v
ValidatorTheorems.v
ContractSync.v
ContractSyncTheorems.v
ContractSyncProgress.v
ContractSyncScenario.v
HelloWorld.v
HelloWorldTheorems.v
ApiServer.v
ApiServerTheorems.v
ApiServerAgent.v
ApiServerScenario.v
SealevelClient.v
SealevelClientTheorems.v
RpcProviders.v
RpcProvidersTheorems.v
