(* ===== verification/Prelude.v ===== *)
(** * Hyperlane's accumulators, agents and Sealevel programs, verified

    Hyperlane passes messages between chains. On a Solana-like (Sealevel) chain the mailbox
    program dispatches messages, committing each id to an incremental Merkle tree, and delivers
    incoming ones: it asks the recipient which security module to use, has that module verify
    the message against submitted metadata, records the delivery and calls the recipient. The
    multisig module verifies that enough validators of the origin signed a checkpoint that
    names the message. Gas for the delivery is paid to the paymaster program; the token programs
    are recipients that move tokens between chains; validators announce on chain where their
    signatures are. Off chain, validators sign checkpoints of the Merkle root (in this version
    only the code for it: the validator announces itself and starts nothing else); the relayer
    indexes messages, payments and insertions into a database, rebuilds the tree, and takes each
    message through its queues: prepared when it is paid for and provable, submitted, and
    confirmed. The API server promises metadata for messages that are about to be dispatched.
    The agents reach a Sealevel chain through a client of its RPC nodes, and Ethereum's nodes
    through providers that retry and fall back on one another.
    This library is a shallow embedding of those parts of the Rust code
    ([src/hyperlane-monorepo/rust]) with proofs.

    ** Files and the code they model

    Foundations:
    - [Prelude]: integers of fixed width ([uint n], also the byte arrays [H160], [H256],
      [Pubkey], by the number they spell), byte strings, slices, the outcome of a Rust call
      ([Ok], [Err] or [Panic]), the state monad [ST] used for readers and programs and the monad
      [eff] that keeps the state of a failed computation; the hint database [hyp] and the
      tactics [slices], [step_ok].
    - [Codec]: [hyperlane-core] [traits/encode.rs] and the records of [types/mod.rs]; the class
      [FixedCodec] states what a fixed-size codec promises.
    - [Keccak]: the hash as the parameter [Keccak256], and an executable Keccak-256 that the
      witnesses use. [U256]: the operations of the crate [uint].
    - [Message]: messages, insertions, domain hashes, checkpoints, announcements, logs.
      [Chain]: [chain.rs], the domains.

    Merkle trees:
    - [Accumulator]: [accumulator/]: [MerkleTree] (merkle.rs), [Incremental] (incremental.rs),
      [Sparse] (sparse.rs), the zero hashes. The mutable trees are passed and returned.
    - [MerkleSpec], [MerkleCorrect], [IncrementalCorrect], [SparseCorrect]: the complete
      zero-padded tree over a list of leaves as the specification, and the proofs that the three
      representations implement it.
    - [Relayer]: [agents/relayer] prover.rs ([Prover]), merkle_tree/builder.rs ([Builder]),
      merkle_tree/processor.rs ([tick], [ticks]); [RelayerCorrect], [RelayerTheorems].

    Sealevel programs:
    - [Sealevel]: the world a program observes (accounts, live mutable borrows, return data)
      and the calls into the runtime as the class [Solana]; [SolanaLaws] is the documented
      behaviour the theorems rely on. A program is a function of type [prog]; an error or a
      panic discards every change, as a failed transaction does.
    - [AccountUtils]: libraries account-utils (lib.rs as Module [AccountData], discriminator.rs)
      and access-control; [Interfaces]: the security-module and recipient interfaces and
      serializable-account-meta.
    - [Mailbox]: programs/mailbox, one definition per instruction handler, under the names of
      processor.rs ([mailbox_transfer_ownership] is its [transfer_ownership]); [inbox_process]
      is split after the verification call into [inbox_process_verify] and
      [inbox_process_deliver]. [MailboxCorrect], [MailboxTheorems].
    - [Multisig]: libraries ecdsa-signature and multisig-ism; [MessageIdIsm]:
      programs/ism/multisig-ism-message-id ([get_set] is [validators_and_threshold],
      [ism_transfer_ownership] is [transfer_ownership]); [MessageIdIsmCorrect],
      [MultisigTheorems].
    - [Igp]: programs/hyperlane-sealevel-igp; [IgpCorrect], [IgpTheorems].
    - [ValidatorAnnounce]: programs/validator-announce; [ValidatorAnnounceTheorems].
    - [ConnectionClient]: libraries/hyperlane-sealevel-connection-client, its traits as classes;
      [Token]: libraries/hyperlane-sealevel-token, over the class of plugins; [TokenPlugins]:
      the native, synthetic and collateral plugins and the processors of their programs;
      [TokenCorrect], [TokenPluginsCorrect]; [TokenTheorems], also of the token program calling
      the mailbox (the class [Callee] of [Sealevel]).
    - [Concrete], [ConcreteIsm], [ConcreteIgp], [ConcreteToken]: one instance
      of every parameter (Borsh formats and a small runtime with a working system program), with
      proofs of their laws, for the witnesses.
    - [AccountTheorems]: properties of the account utilities and of the account formats.

    Agents:
    - [Database]: [hyperlane-base/src/db/rocks], the tables as typed rows over RocksDB (the class
      [RocksDB]), an operation keeping what it wrote before an error. [DatabaseCorrect]: every
      row has a key of its own; [DatabaseTheorems].
    - [MatchingList]: [agents/relayer/src/settings/matching_list.rs]; [GasPayment]:
      [msg/gas_payment]; [GasPaymentTheorems].
    - [PendingOperation]: the trait of [msg/pending_operation.rs] and what the submitter relies
      on, as classes. [PendingMessage]: [msg/pending_message.rs] over the clients of the
      destination (the class [Destination]); [PendingMessageCorrect] proves that it has the laws
      of the class, with a logic for methods; [PendingMessageTheorems].
    - [SerialSubmitter]: the four tasks of [msg/serial_submitter.rs] as a step relation over
      queues and channels, for any operation of the class; [SubmitterTheorems];
      [ProcessedOnce]: the submitter over pending messages; [SubmitterScenario]: a run of it
      from end to end.
    - [MessageProcessor]: [msg/processor.rs]; [MessageProcessorTheorems].
    - [CheckpointStorage]: where validators publish, [hyperlane-base] traits/checkpoint_syncer.rs
      (the class [CheckpointSyncer]) and its local and S3 implementations over the file system
      and the S3 client (the class [StorageIO]), and the locations of settings;
      [CheckpointStorageTheorems]. [CheckpointQuorum]:
      types/multisig.rs, the search for a quorum; [QuorumTheorems]; [ConcreteStorage]: a storage
      in memory for the witnesses.
    - [Aggregation], [Metadata]: [msg/metadata], the builders of metadata and their recursion,
      over the class [Clients]; [MetadataTheorems].
    - [Validator]: [agents/validator] submit.rs and validator.rs, over the class of its chain;
      [ValidatorTheorems].
    - [ContractSync]: [hyperlane-base/src/contract_sync], the cursors and the loop, over the
      class [SyncEnv]; [ContractSyncTheorems], [ContractSyncProgress],
      [ContractSyncScenario].

    A client program and the server:
    - [HelloWorld]: programs/helloworld; [HelloWorldTheorems].
    - [ApiServer]: [agents/apiserver] api/ and the state of apiserver.rs, over the class
      [ApiClients], whose [others] is what other tasks do at every await;
      [ApiServerTheorems], [ApiServerAgent]; [ApiServerScenario]. The server's other modules are
      copies of the relayer's.

    Clients of the chains:
    - [SealevelClient]: [chains/hyperlane-sealevel], over the RPC client of the Solana libraries
      (the class [SolanaClient]) and the seeds, instructions and accounts of the programs above;
      [SealevelClientTheorems] relates it to the programs, for a node that answers as documented
      about the state it knows ([NodeLaws]).
    - [RpcProviders]: [chains/hyperlane-ethereum/src/rpc_clients] and [hyperlane-core]
      rpc_clients/fallback.rs, over the class [RpcNodes]; [RpcProvidersTheorems].

    Files are required in the order above, each group after the one before; a file of proofs
    comes after the file it is about.

    ** What is shown

    - Accumulators and relayer: the incremental tree computes the root of the full tree;
      pushing leaves is appending; generated proofs verify and accepted proofs are right; the
      relayer's two trees never disagree, and its proofs against an earlier root verify against
      the root the tree had then; the processor ingests every insertion once, in order.
    - Messages and signatures: wire formats round-trip and are total on arbitrary bytes; what
      is signed binds every field, up to a collision between the listed hashed inputs.
    - Mailbox: at-most-once, verified delivery; dispatch commits to every message; counters;
      initialisation once; owner-only administration; renouncing is final; the queries, one of
      which always panics.
    - Multisig module: the quorum check is exact; stored validator sets are valid in every
      reachable state (a step relation with arbitrary other activity on the ledger); a message
      is accepted only with a quorum of distinct validators on that very message.
    - Paymaster: quotes are exact, with the overflows spelt out; a payment transfers the quote
      and leaves a receipt; claims and administration.
    - Announcements: signed, never repeated, and the account always has the exact size.
    - Tokens: releasing needs a delivered message of the enrolled router; a transfer out is
      committed to by the mailbox the program calls; amounts; the account lists agree.
    - Accounts: stores and fetches agree, program-derived accounts, termination of the
      reallocation loop.
    - Database: rows never share a key, messages never dangle, payments are counted once, also
      when an operation fails half-way.
    - Relaying: which messages the processor sends; what a prepared message is and what is done
      with it; the submitter loses and duplicates nothing, never submits what is not prepared,
      and confirms everything in the end if the operations are healthy; a message is recorded
      as processed only after it was delivered; how much gas a quoting policy lets be spent on a
      message, for its fraction, if no attempt uses more than the limit the policy counts.
    - Checkpoints and metadata: announced locations are found again, when they can be parsed; a
      quorum that is found is one, and is found when it is there, unless one validator blocks
      it; the metadata that is built is accepted by the module program, a Merkle-root proof is
      of the message and against the hook's root, aggregated metadata is found where it is put,
      and the recursion ends.
    - Validator: what its two tasks publish, interleaved with each other (rely and guarantee),
      are checkpoints of its chain, all of them; a round ends, and when the database disagrees
      with the chain it has done nothing but wait; an announcement is on the chain when it
      returns.
    - Syncing: no cursor leaves a gap, restarts from the watermark skip nothing, and with a
      reliable indexer every event is stored and the syncing ends.
    - Hello world: totals are sums; when its account is large enough.
    - API server: which leaf a positive answer certifies, whatever other tasks add to the tree,
      and what the answers of a batch certify when none does; that a deliverable message is
      answered, or the signer's error is; what a refused request leaves behind and how the tree
      parts from the chain; the state it starts with; its bytes are the relayer's.
    - Clients: the Sealevel indexers return what the mailbox dispatched, checkpoints and counts
      are of it, and the mailbox takes apart the accounts that the client lists; what counts as
      delivered, and which payments are lost, is more than the programs mean. A retried request
      ends as configured, one with fallback within four rounds of all providers, but never
      without providers.

    ** Bounds and fuel

    Trees have depth 32 and at most [2^32 - 1] leaves, the limit the code asserts. Loops over a
    fixed range are structural. [AccountData.store_loop] runs on fuel one more than the bytes
    to write; each round adds 1024 bytes, so it is enough ([store_terminates]). [seek] runs as
    many rounds as validators are left. [ticks n] is [n] rounds of the endless processor loop,
    and so is [processor_ticks]; the inner loop of [try_get_unprocessed_message] needs one more
    round than there are messages after the present nonce ([processor_relays]). The rounds of the
    validator need fuel for the missing leaves and waits ([submit_until_ends]), the recursion of
    the builders fuel for the depth that is left ([metadata_depth]), the loops of the cursors
    fuel for the stored events that they read through ([sync_completes], [rewind_ends]). A
    retried request needs fuel for its attempts ([retry_spec]), one with fallback for four rounds
    ([fallback_ends]). Integers wrap as in a release build, unless the class [OverflowChecks]
    says otherwise: theorems that depend on it hold for both builds. [usize] has 64 bits.

    ** Parameters and what is not modelled

    Hashing, public-key recovery, the Solana runtime, the SPL programs, RocksDB, 256-bit and
    decimal arithmetic, the clients of other chains and Borsh's derived codecs are not code of
    the modelled parts: they are class parameters with named laws. Logging, metrics and [Debug]
    formatting are left out (the text of one log instruction is a parameter). The programs are
    the builds with their default features. A call of a method by a task of the submitter is one
    step. Not modelled: the settings and metrics of the agents, the start of their tasks and the
    web framework of the server; the estimate of the time to sync, which is only logged; the
    clients of the other chains, which wrap generated bindings of contracts; the command-line
    client, the end-to-end tests and the test programs. *)

From stdpp Require Import base gmap strings list fin_maps numbers.
From Stdlib Require Import ZArith Lia.

#[local] Open Scope Z_scope.

(** ** Fixed-width unsigned integers

    [uint n] is the type of unsigned integers of [n] bytes: [u8], [u32], [u64], [u128], the
    256-bit integers, and also the fixed-size byte arrays [H160], [H256], [H512], [Pubkey],
    which are identified with the number they spell in big-endian order. *)

Definition umax (n : nat) : Z := 2 ^ (8 * Z.of_nat n).

Record uint (n : nat) := UInt {
  uval :> Z;
  uwf : Is_true ((0 <=? uval) && (uval <? umax n))
}.
Arguments UInt {n} uval uwf.
Arguments uval {n} u.
Arguments uwf {n} u.
#[global] Arguments uval : simpl never.

Lemma umax_pos n : 0 < umax n.
Proof. unfold umax. apply Z.pow_pos_nonneg; lia. Qed.

Lemma umax_S n : umax (S n) = 256 * umax n.
Proof.
  unfold umax. replace (8 * Z.of_nat (S n)) with (8 + 8 * Z.of_nat n) by lia.
  rewrite Z.pow_add_r by lia. reflexivity.
Qed.

Lemma umax_add n m : umax (n + m) = umax n * umax m.
Proof.
  unfold umax. rewrite <- Z.pow_add_r by lia. f_equal. lia.
Qed.

Lemma uval_range {n} (x : uint n) : 0 <= x < umax n.
Proof.
  pose proof (uwf x) as H. apply Is_true_eq_true, andb_prop in H as [H1 H2]. lia.
Qed.

Lemma uint_eq {n} (x y : uint n) : uval x = uval y -> x = y.
Proof.
  destruct x as [x Hx], y as [y Hy]; unfold uval. intros ->. f_equal. apply proof_irrel.
Qed.

#[export] Instance uval_inj {n} : Inj (=) (=) (@uval n).
Proof. intros x y. apply uint_eq. Qed.

Lemma uwrap_wf n z : Is_true ((0 <=? z mod umax n) && (z mod umax n <? umax n)).
Proof.
  pose proof (Z.mod_pos_bound z (umax n) (umax_pos n)).
  apply Is_true_true, andb_true_intro. lia.
Qed.

(** [z as uN]: reduction modulo the width. *)
Definition uwrap (n : nat) (z : Z) : uint n := UInt (z mod umax n) (uwrap_wf n z).

#[global] Arguments uwrap : simpl never.

Lemma uval_uwrap n z : uval (uwrap n z) = z mod umax n.
Proof. reflexivity. Qed.

Lemma uval_uwrap_small n z : 0 <= z < umax n -> uval (uwrap n z) = z.
Proof. intros. rewrite uval_uwrap. apply Z.mod_small; lia. Qed.

Lemma uwrap_uval {n} (x : uint n) : uwrap n x = x.
Proof. apply uint_eq, uval_uwrap_small, uval_range. Qed.

Lemma uwrap_inj n a b :
  0 <= a < umax n -> 0 <= b < umax n -> uwrap n a = uwrap n b -> a = b.
Proof.
  intros Ha Hb H. apply (f_equal uval) in H. by rewrite !uval_uwrap_small in H.
Qed.

#[export] Instance uint_eq_dec n : EqDecision (uint n).
Proof.
  intros x y. destruct (decide (uval x = uval y)) as [E|E].
  - left. by apply uint_eq.
  - right. congruence.
Defined.

Lemma uint_inj_encode {n} (x : uint n) : Some (uwrap n (uval x)) = Some x.
Proof. f_equal. apply uwrap_uval. Qed.

#[export] Instance uint_countable n : Countable (uint n) :=
  inj_countable uval (λ z, Some (uwrap n z)) uint_inj_encode.

#[export] Instance uint_inhabited n : Inhabited (uint n) := populate (uwrap n 0).

Abbreviation u8 := (uint 1).
Abbreviation u32 := (uint 4).
Abbreviation u64 := (uint 8).
(** [usize] on the 64-bit targets the agents and the Sealevel programs are built for. *)
Abbreviation usize := (uint 8).
Abbreviation u128 := (uint 16).
Abbreviation H160 := (uint 20).
Abbreviation H256 := (uint 32).
Abbreviation H512 := (uint 64).

Definition u32_MAX : Z := 2 ^ 32 - 1.
Definition u64_MAX : Z := 2 ^ 64 - 1.

(** [urange x] adds the range of the integer [x] with its bound evaluated. *)
Ltac urange x :=
  let H := fresh "Hrange" in
  pose proof (uval_range x) as H;
  match type of H with
  | _ <= _ < ?b => let v := eval vm_compute in b in change b with v in H
  end.

(** ** Byte strings *)

Abbreviation bytes := (list u8).

Definition byte (z : Z) : u8 := uwrap 1 z.

#[global] Arguments byte : simpl never.

(** A byte-string literal. *)
Definition bstr (s : string) : bytes :=
  (λ c, byte (Z.of_nat (Ascii.nat_of_ascii c))) <$> String.list_ascii_of_string s.

(** A byte-array literal. *)
Definition blit (l : list Z) : bytes := byte <$> l.

Fixpoint le_bytes (n : nat) (z : Z) : bytes :=
  match n with
  | O => []
  | S n => byte z :: le_bytes n (z / 256)
  end.

Fixpoint le_val (l : bytes) : Z :=
  match l with
  | [] => 0
  | b :: l => uval b + 256 * le_val l
  end.

Definition be_bytes (n : nat) (z : Z) : bytes := rev (le_bytes n z).
Definition be_val (l : bytes) : Z := le_val (rev l).

(** [x.to_le_bytes()], [x.to_be_bytes()] (and [h.as_bytes()] of a hash), and their inverses. *)
Definition to_le {n} (x : uint n) : bytes := le_bytes n x.
Definition to_be {n} (x : uint n) : bytes := be_bytes n x.
Definition from_le (n : nat) (l : bytes) : uint n := uwrap n (le_val l).
Definition from_be (n : nat) (l : bytes) : uint n := uwrap n (be_val l).

#[global] Arguments to_le : simpl never.
#[global] Arguments to_be : simpl never.
#[global] Arguments from_le : simpl never.
#[global] Arguments from_be : simpl never.

Lemma length_le_bytes n z : length (le_bytes n z) = n.
Proof. revert z. induction n; intros; simpl; congruence. Qed.

Lemma length_be_bytes n z : length (be_bytes n z) = n.
Proof. unfold be_bytes. rewrite length_rev. apply length_le_bytes. Qed.

Lemma le_val_range l : 0 <= le_val l < umax (length l).
Proof.
  induction l as [|b l IH]; simpl.
  - pose proof (umax_pos 0). lia.
  - rewrite umax_S. urange b. lia.
Qed.

Lemma le_val_le_bytes n z : le_val (le_bytes n z) = z mod umax n.
Proof.
  revert z. induction n as [|n IH]; intros z; simpl.
  - unfold umax. by rewrite Z.mod_1_r.
  - rewrite IH, umax_S. unfold byte. rewrite uval_uwrap.
    change (umax 1) with 256. rewrite Z.rem_mul_r; [lia|lia|apply umax_pos].
Qed.

Lemma le_bytes_le_val l : le_bytes (length l) (le_val l) = l.
Proof.
  induction l as [|b l IH]; simpl; [done|]. urange b.
  assert (Hd : (uval b + 256 * le_val l) / 256 = le_val l).
  { rewrite (Z.mul_comm 256), Z.div_add, Z.div_small by lia. lia. }
  rewrite Hd, IH. f_equal. apply uint_eq. unfold byte.
  rewrite uval_uwrap. change (umax 1) with 256.
  rewrite (Z.mul_comm 256), Z.mod_add, Z.mod_small; lia.
Qed.

Lemma length_to_be {n} (x : uint n) : length (to_be x) = n.
Proof. apply length_be_bytes. Qed.

Lemma length_to_le {n} (x : uint n) : length (to_le x) = n.
Proof. apply length_le_bytes. Qed.

Lemma from_le_to_le {n} (x : uint n) : from_le n (to_le x) = x.
Proof.
  apply uint_eq. unfold from_le, to_le. rewrite le_val_le_bytes, uval_uwrap.
  rewrite Z.mod_mod by (pose proof (umax_pos n); lia).
  apply Z.mod_small, uval_range.
Qed.

Lemma from_be_to_be {n} (x : uint n) : from_be n (to_be x) = x.
Proof.
  rewrite <- (from_le_to_le x) at 2. unfold from_be, from_le, be_val, to_be, be_bytes, to_le.
  by rewrite rev_involutive.
Qed.

Lemma to_le_from_le n l : length l = n -> to_le (from_le n l) = l.
Proof.
  intros <-. unfold to_le, from_le. rewrite uval_uwrap_small by apply le_val_range.
  apply le_bytes_le_val.
Qed.

Lemma to_be_from_be n l : length l = n -> to_be (from_be n l) = l.
Proof.
  intros H. unfold to_be, from_be, be_val, be_bytes.
  rewrite uval_uwrap_small; rewrite <- H, <- (length_rev l).
  - rewrite le_bytes_le_val. apply rev_involutive.
  - apply le_val_range.
Qed.

Lemma to_be_inj {n} (x y : uint n) : to_be x = to_be y -> x = y.
Proof. intros H. by rewrite <- (from_be_to_be x), H, from_be_to_be. Qed.

Lemma to_le_inj {n} (x y : uint n) : to_le x = to_le y -> x = y.
Proof. intros H. by rewrite <- (from_le_to_le x), H, from_le_to_le. Qed.

(** Splitting an appended prefix of known length. *)
Lemma take_app_exact {A} (n : nat) (l k : list A) : length l = n -> take n (l ++ k) = l.
Proof. intros <-. apply take_app_length. Qed.

Lemma drop_app_exact {A} (n : nat) (l k : list A) : length l = n -> drop n (l ++ k) = k.
Proof. intros <-. apply drop_app_length. Qed.

Lemma some_bind {A B} (f : A -> option B) x : Some x ≫= f = f x.
Proof. reflexivity. Qed.

(** [l[a..b]] and [l[a..]]: [None] is the panic on a range out of bounds. *)
Definition slice {A} (l : list A) (a b : nat) : option (list A) :=
  if decide (a <= b /\ b <= length l)%nat then Some (take (b - a) (drop a l)) else None.

Definition slice_from {A} (l : list A) (a : nat) : option (list A) :=
  if decide (a <= length l)%nat then Some (drop a l) else None.

Lemma slice_in {A} (l : list A) a b :
  (a <= b)%nat -> (b <= length l)%nat -> slice l a b = Some (take (b - a) (drop a l)).
Proof. intros. unfold slice. by rewrite decide_True. Qed.

Lemma slice_out {A} (l : list A) a b : (length l < b)%nat -> slice l a b = None.
Proof. intros. unfold slice. rewrite decide_False; [done|lia]. Qed.

Lemma bind_none_r {A B} (m : option A) (f : A -> option B) :
  (forall x, f x = None) -> m ≫= f = None.
Proof. intros Hf. destruct m; simpl; auto. Qed.

(** Slices of an appended input, chunk by chunk. *)
Lemma slice_skip {A} k (p l : list A) a b :
  length p = k -> (k <= a)%nat -> (a <= b)%nat -> slice (p ++ l) a b = slice l (a - k) (b - k).
Proof.
  intros Hp Hk Hab. unfold slice. rewrite length_app. case_decide; case_decide; try lia; [|done].
  rewrite drop_app_ge by lia. rewrite Hp. f_equal. f_equal. lia.
Qed.

Lemma slice_first {A} (p l : list A) b : length p = b -> slice (p ++ l) 0 b = Some p.
Proof.
  intros Hp. rewrite slice_in by (rewrite ?length_app; lia).
  by rewrite drop_0, take_app_exact by lia.
Qed.

Lemma slice_from_skip {A} k (p l : list A) a :
  length p = k -> (k <= a)%nat -> slice_from (p ++ l) a = slice_from l (a - k).
Proof.
  intros Hp Hk. unfold slice_from. rewrite length_app. case_decide; case_decide; try lia; [|done].
  rewrite drop_app_ge by lia. by rewrite Hp.
Qed.

Lemma slice_from_0 {A} (l : list A) : slice_from l 0 = Some l.
Proof. unfold slice_from. rewrite decide_True by lia. by rewrite drop_0. Qed.

(** ** Outcomes: [Ok], [Err] or a panic *)

Inductive outcome (E A : Type) :=
  | Ok (a : A)
  | Err (e : E)
  | Panic.
Arguments Ok {E A} a.
Arguments Err {E A} e.
Arguments Panic {E A}.

#[export] Instance outcome_ret E : MRet (outcome E) := λ A a, Ok a.
#[export] Instance outcome_bind E : MBind (outcome E) := λ A B f m,
  match m with Ok a => f a | Err e => Err e | Panic => Panic end.

#[export] Instance Ok_inj {E A} : Inj (=) (=) (@Ok E A).
Proof. intros x y H. congruence. Qed.

Definition is_ok {E A} (m : outcome E A) : bool :=
  match m with Ok _ => true | _ => false end.

Definition map_err {E E' A} (f : E -> E') (m : outcome E A) : outcome E' A :=
  match m with Ok a => Ok a | Err e => Err (f e) | Panic => Panic end.

(** [o.ok_or(e)?] *)
Definition ok_or {E A} (o : option A) (e : E) : outcome E A :=
  match o with Some a => Ok a | None => Err e end.

(** An operation that panics where the model has [None]. *)
Definition or_panic {E A} (o : option A) : outcome E A :=
  match o with Some a => Ok a | None => Panic end.

(** [m.expect(..)] and [m.unwrap()]. *)
Definition expect {E E' A} (m : outcome E A) : outcome E' A :=
  match m with Ok a => Ok a | _ => Panic end.

Definition require_or {E} (b : bool) (e : E) : outcome E unit :=
  if b then Ok tt else Err e.

Lemma bind_ok {E A B} (m : outcome E A) (f : A -> outcome E B) b :
  m ≫= f = Ok b -> exists a, m = Ok a /\ f a = Ok b.
Proof. destruct m; simpl; intros H; try discriminate. eauto. Qed.

Lemma expect_ok {E E' A} (m : outcome E A) a : expect (E' := E') m = Ok a <-> m = Ok a.
Proof. destruct m; simpl; split; congruence. Qed.

Lemma or_panic_ok {E A} (o : option A) a : or_panic (E := E) o = Ok a <-> o = Some a.
Proof. destruct o; simpl; split; congruence. Qed.

(** ** State passing with errors and panics

    A computation over a state [S]: an error or a panic abandons the state, as a failing
    transaction, a failing reader or an unwound call does. *)

Definition ST (S E A : Type) := S -> outcome E (A * S).

#[export] Instance ST_ret S E : MRet (ST S E) := λ A a s, Ok (a, s).
#[export] Instance ST_bind S E : MBind (ST S E) := λ A B f m s,
  match m s with
  | Ok (a, s') => f a s'
  | Err e => Err e
  | Panic => Panic
  end.

Section state_ops.
Context {S E : Type}.
Definition get : ST S E S := λ s, Ok (s, s).
Definition put (s : S) : ST S E unit := λ _, Ok (tt, s).
Definition throw {A} (e : E) : ST S E A := λ _, Err e.
Definition panic {A} : ST S E A := λ _, Panic.
Definition lift {A} (m : outcome E A) : ST S E A := λ s,
  match m with Ok a => Ok (a, s) | Err e => Err e | Panic => Panic end.
Definition require (b : bool) (e : E) : ST S E unit := lift (require_or b e).
(** The result and not the state. *)
Definition eval_st {A} (m : ST S E A) (s : S) : outcome E A :=
  match m s with Ok (a, _) => Ok a | Err e => Err e | Panic => Panic end.
End state_ops.

Definition map_err_st {S E E' A} (f : E -> E') (m : ST S E A) : ST S E' A :=
  λ s, map_err f (m s).

Lemma st_bind_ok {S E A B} (m : ST S E A) (f : A -> ST S E B) s r :
  (m ≫= f) s = Ok r -> exists a s', m s = Ok (a, s') /\ f a s' = Ok r.
Proof.
  unfold mbind, ST_bind. destruct (m s) as [[a s']|e|]; intros H; try discriminate. eauto.
Qed.

Lemma st_bind_eq {S E A B} (m : ST S E A) (f : A -> ST S E B) s a s' :
  m s = Ok (a, s') -> (m ≫= f) s = f a s'.
Proof. unfold mbind, ST_bind. by intros ->. Qed.

Lemma require_ok {S E} (b : bool) (e : E) (s : S) r :
  require b e s = Ok r -> b = true /\ r = (tt, s).
Proof. destruct b; simpl; unfold require, require_or, lift; intros; simplify_eq; done. Qed.

Lemma map_err_inv {E E' A} (f : E -> E') (m : outcome E A) a : map_err f m = Ok a -> m = Ok a.
Proof. destruct m; cbn; congruence. Qed.

Lemma lift_ok {S E A} (m : outcome E A) (s : S) r :
  lift m s = Ok r <-> exists a, m = Ok a /\ r = (a, s).
Proof. unfold lift. destruct m; naive_solver. Qed.

(** ** Effects whose errors keep the state

    A computation over a state [S] that outlives it, such as a database: what was done before an
    error stays done. *)

Definition eff (S E A : Type) := S -> S * outcome E A.

#[export] Instance eff_ret S E : MRet (eff S E) := λ A a s, (s, Ok a).
#[export] Instance eff_bind S E : MBind (eff S E) := λ A B f m s,
  match m s with
  | (s', Ok a) => f a s'
  | (s', Err e) => (s', Err e)
  | (s', Panic) => (s', Panic)
  end.

Section eff_ops.
Context {S E A : Type}.
Definition eff_get : eff S E S := λ s, (s, Ok s).
Definition eff_lift (m : outcome E A) : eff S E A := λ s, (s, m).
(** The error as a value; a panic unwinds. *)
Definition eff_try {E'} (m : eff S E A) : eff S E' (E + A) := λ s,
  match m s with
  | (s', Ok a) => (s', Ok (inr a))
  | (s', Err e) => (s', Ok (inl e))
  | (s', Panic) => (s', Panic)
  end.
Definition eff_map_err {E'} (f : E -> E') (m : eff S E A) : eff S E' A := λ s,
  let '(s', r) := m s in (s', map_err f r).
End eff_ops.

Lemma eff_bind_eq {S E A B} (m : eff S E A) (f : A -> eff S E B) s s' a :
  m s = (s', Ok a) -> (m ≫= f) s = f a s'.
Proof. unfold mbind, eff_bind. by intros ->. Qed.

Lemma eff_bind_ok {S E A B} (m : eff S E A) (f : A -> eff S E B) s s' b :
  (m ≫= f) s = (s', Ok b) -> exists s1 a, m s = (s1, Ok a) /\ f a s1 = (s', Ok b).
Proof. unfold mbind, eff_bind. destruct (m s) as [s1 [a|e|]]; [eauto|done|done]. Qed.

(** A property of the state that every part of a computation preserves. *)
Definition preserves {S E A} (P : S -> Prop) (m : eff S E A) : Prop :=
  forall s, P s -> P (fst (m s)).

Lemma preserves_ret {S E A} (P : S -> Prop) (a : A) : preserves (E := E) P (mret a).
Proof. by intros s. Qed.

Lemma preserves_bind {S E A B} (P : S -> Prop) (m : eff S E A) (f : A -> eff S E B) :
  preserves P m -> (forall a, preserves P (f a)) -> preserves P (m ≫= f).
Proof.
  intros Hm Hf s Hs. specialize (Hm s Hs). unfold mbind, eff_bind.
  destruct (m s) as [s' [a|e|]]; [by apply Hf|done|done].
Qed.

(** What every successful result of a computation satisfies, whatever the state. *)
Definition yields {S E A} (m : eff S E A) (Q : A -> Prop) : Prop :=
  forall s s' a, m s = (s', Ok a) -> Q a.

Lemma yields_ret {S E A} (a : A) (Q : A -> Prop) : Q a -> yields (S := S) (E := E) (mret a) Q.
Proof. by intros HQ s s' b [= <- <-]. Qed.

Lemma yields_bind {S E A B} (m : eff S E A) (f : A -> eff S E B) P Q :
  yields m P -> (forall a, P a -> yields (f a) Q) -> yields (m ≫= f) Q.
Proof.
  intros Hm Hf s s' b Hb. apply eff_bind_ok in Hb as (s1 & a & Ha & Hb).
  by apply (Hf a (Hm _ _ _ Ha) _ _ _ Hb).
Qed.

Lemma yields_any {S E A B} (m : eff S E A) (f : A -> eff S E B) Q :
  (forall a, yields (f a) Q) -> yields (m ≫= f) Q.
Proof. intros Hf. apply yields_bind with (λ _, True); [done|auto]. Qed.

Lemma yields_lift {S E A} (m : outcome E A) (Q : A -> Prop) :
  (forall a, m = Ok a -> Q a) -> yields (S := S) (eff_lift m) Q.
Proof. intros HQ s s' a [= <- Hm]. by apply HQ. Qed.

Lemma eff_lift_Ok_bind {S E A B} (a : A) (f : A -> eff S E B) (s : S) :
  (eff_lift (Ok a) ≫= f) s = f a s.
Proof. done. Qed.

Lemma yields_map_err {S E E' A} (f : E -> E') (m : eff S E A) Q :
  yields m Q -> yields (eff_map_err f m) Q.
Proof.
  intros Hm s s' a Ha. unfold eff_map_err in Ha. destruct (m s) as [s1 r] eqn:Hr.
  injection Ha as <- Ha. apply map_err_inv in Ha as ->. by apply (Hm _ _ _ Hr).
Qed.

(** Computations that agree. *)
Lemma eff_bind_ext {S E A B} (m : eff S E A) (f g : A -> eff S E B) s :
  (forall a s', f a s' = g a s') -> (m ≫= f) s = (m ≫= g) s.
Proof. intros Hf. unfold mbind, eff_bind. destruct (m s) as [s' [a|e|]]; [apply Hf|done|done]. Qed.

Lemma eff_bind_ext_l {S E A B} (m m' : eff S E A) (f : A -> eff S E B) s :
  m s = m' s -> (m ≫= f) s = (m' ≫= f) s.
Proof. intros Hm. unfold mbind, eff_bind. by rewrite Hm. Qed.

Lemma eff_lift_ext {S E A B} (a : A) (f g : A -> eff S E B) s :
  f a s = g a s -> (eff_lift (Ok a) ≫= f) s = (eff_lift (Ok a) ≫= g) s.
Proof. done. Qed.

(** ** Maps set from lists of configurations

    A configuration names a key and its value, or no value; the last one of a key wins. *)

Section configs.
Context `{Countable K} {V C : Type} (dom : C -> K) (val : C -> option V).

Definition apply_config (m : gmap K V) (config : C) : gmap K V :=
  match val config with
  | Some v => <[dom config := v]> m
  | None => delete (dom config) m
  end.

Definition last_config (k : K) (configs : list C) : option C :=
  snd <$> list_find (λ c, dom c = k) (rev configs).

Lemma last_config_snoc k configs c :
  last_config k (configs ++ [c]) = if decide (dom c = k) then Some c
                                   else last_config k configs.
Proof.
  unfold last_config. rewrite rev_app_distr. cbn [rev app list_find].
  case_decide; [done|]. by destruct (list_find _ (rev configs)) as [[]|].
Qed.

Lemma configs_lookup configs m k :
  foldl apply_config m configs !! k =
  match last_config k configs with Some c => val c | None => m !! k end.
Proof.
  induction configs as [|c configs IH] using rev_ind; [done|].
  rewrite foldl_snoc, last_config_snoc. unfold apply_config at 1.
  destruct (val c) as [v|] eqn:Hv; case_decide as Hk.
  - subst k. by rewrite lookup_insert_eq.
  - by rewrite lookup_insert_ne.
  - subst k. by rewrite lookup_delete_eq.
  - by rewrite lookup_delete_ne.
Qed.
End configs.

(** ** Automation *)

Create Rewrite HintDb hyp.
#[export] Hint Rewrite @length_to_be @length_to_le @from_be_to_be @from_le_to_le
  @uwrap_uval : hyp.

(** Evaluates the slices of an input made of chunks of known lengths. *)
Ltac slices :=
  repeat first
    [ rewrite some_bind
    | rewrite slice_from_0
    | rewrite slice_first by (autorewrite with hyp; reflexivity || assumption)
    | erewrite slice_skip by first [autorewrite with hyp; reflexivity || assumption | lia]
    | erewrite slice_from_skip by first [autorewrite with hyp; reflexivity || assumption | lia]
    ]; cbn [Nat.sub].

(** Splits a successful run of a computation into the successful runs of its steps. *)
Ltac step_ok H :=
  match type of H with
  | (_ ≫= _) _ = Ok _ =>
      let a := fresh "a" in let s := fresh "s" in let Hm := fresh "Hm" in
      apply st_bind_ok in H as (a & s & Hm & H)
  | _ ≫= _ = Ok _ =>
      let a := fresh "a" in let Hm := fresh "Hm" in
      apply bind_ok in H as (a & Hm & H)
  | require _ _ _ = Ok _ => apply require_ok in H as [? H]; simplify_eq
  end.
