(* ===== verification/Codec.v ===== *)
(** * Canonical encodings ([hyperlane-core/src/traits/encode.rs], [types/mod.rs])

    The traits [Encode] and [Decode], their implementations for the primitive types, the
    gas-payment records of [types/mod.rs] with their encodings and sums, the signature bytes,
    and the interface [FixedCodec] that states what a fixed-size encoding promises to the
    records and database keys built from it. *)

From S2P Require Import Prelude.
From stdpp Require Import base list numbers.
From Stdlib Require Import ZArith Lia.

#[local] Open Scope Z_scope.

(** ** Readers and writers *)

(** The [std::io::ErrorKind]s that the modelled code produces or inspects. *)
Inductive io_error :=
  | UnexpectedEof
  | InvalidData
  | WriteZero
  | OtherIo.

Inductive HyperlaneProtocolError :=
  | SignatureError
  | IoError (e : io_error)
  | UnknownDomainId (domain : u32)
  | ProcessGasLimitRequired.

(** A computation that appends to a [Vec<u8>]; writing to a vector does not fail. *)
Definition writer (A : Type) := bytes -> A * bytes.

#[export] Instance writer_ret : MRet writer := λ A a buf, (a, buf).
#[export] Instance writer_bind : MBind writer := λ A B f m buf,
  let '(a, buf) := m buf in f a buf.

Definition write_all (b : bytes) : writer unit := λ buf, (tt, buf ++ b).
(** [Write::write] on a vector takes the whole slice and returns its length. *)
Definition write (b : bytes) : writer Z := λ buf, (Z.of_nat (length b), buf ++ b).

Lemma write_all_bind {A} b (f : unit -> writer A) buf :
  (write_all b ≫= f) buf = f tt (buf ++ b).
Proof. reflexivity. Qed.

(** A computation that consumes a byte slice or a cursor. *)
Definition reader := ST bytes HyperlaneProtocolError.

Definition read_exact (n : nat) : reader bytes := λ s,
  if decide (n ≤ length s)%nat then Ok (take n s, drop n s) else Err (IoError UnexpectedEof).

Definition read_to_end : reader bytes := λ s, Ok (s, []).

Class Encode (A : Type) := write_to : A -> writer Z.
Class Decode (A : Type) := read_from : reader A.
#[global] Hint Mode Encode ! : typeclass_instances.
#[global] Hint Mode Decode ! : typeclass_instances.

Definition to_vec `{Encode A} (x : A) : bytes := snd (write_to x []).

(** What [String::from_utf8] and [std::str::from_utf8] accept *)
Definition continuation (b : u8) : bool := (128 <=? uval b) && (uval b <=? 191).
Fixpoint utf8_valid (l : bytes) : bool :=
  match l with
  | [] => true
  | b :: l1 =>
      let x := uval b in
      if x <=? 127 then utf8_valid l1
      else
        match l1 with
        | [] => false
        | c :: l2 =>
            if (194 <=? x) && (x <=? 223) then continuation c && utf8_valid l2
            else
              match l2 with
              | [] => false
              | d :: l3 =>
                  if (224 <=? x) && (x <=? 239) then
                    continuation c && continuation d &&
                    (if x =? 224 then 160 <=? uval c else true) &&
                    (if x =? 237 then uval c <=? 159 else true) && utf8_valid l3
                  else
                    match l3 with
                    | [] => false
                    | e :: l4 =>
                        (240 <=? x) && (x <=? 244) && continuation c && continuation d &&
                        continuation e && (if x =? 240 then 144 <=? uval c else true) &&
                        (if x =? 244 then uval c <=? 143 else true) && utf8_valid l4
                    end
              end
        end
  end.

(** ** Primitive types *)

(** [impl_encode_for_primitive_hash!] *)
Definition hash_write_to {n} (h : uint n) : writer Z :=
  write_all (to_be h) ;; mret (Z.of_nat n).

Definition hash_read_from {n} : reader (uint n) :=
  buf ← read_exact n; mret (from_be n buf).

#[export] Instance H160_Encode : Encode H160 := hash_write_to.
#[export] Instance H160_Decode : Decode H160 := hash_read_from.
#[export] Instance H256_Encode : Encode H256 := hash_write_to.
#[export] Instance H256_Decode : Decode H256 := hash_read_from.
#[export] Instance H512_Encode : Encode H512 := hash_write_to.
#[export] Instance H512_Decode : Decode H512 := hash_read_from.

(** The 256-bit integers, encoded little-endian where the hashes are written as they are. *)
Record U256 := MkU256 { u256 : uint 32 }.

#[export] Instance U256_eq_dec : EqDecision U256.
Proof. solve_decision. Defined.

#[export] Instance U256_write_to : Encode U256 := λ x,
  write_all (to_le (u256 x)) ;; mret 32.

#[export] Instance U256_read_from : Decode U256 :=
  buf ← read_exact 32; mret (MkU256 (from_le 32 buf)).

#[export] Instance u32_write_to : Encode u32 := λ x,
  write_all (to_be x) ;; mret 4.

#[export] Instance u32_read_from : Decode u32 :=
  buf ← read_exact 4; mret (from_be 4 buf).

#[export] Instance u64_write_to : Encode u64 := λ x,
  write_all (to_be x) ;; mret 8.

#[export] Instance u64_read_from : Decode u64 :=
  buf ← read_exact 8; mret (from_be 8 buf).

#[export] Instance bool_write_to : Encode bool := λ b,
  write_all [byte (Z.b2z b)] ;; mret 1.

#[export] Instance bool_read_from : Decode bool :=
  buf ← read_exact 1;
  match buf with
  | [b] => if uval b =? 0 then mret false
           else if uval b =? 1 then mret true
           else throw (IoError InvalidData)
  | _ => panic
  end.

(** ** What a fixed-size encoding promises *)

Class FixedCodec (A : Type) `{Encode A, Decode A} (size : nat) := {
  write_to_append (x : A) buf : write_to x buf = (Z.of_nat size, buf ++ to_vec x);
  length_to_vec (x : A) : length (to_vec x) = size;
  read_from_to_vec (x : A) rest : read_from (to_vec x ++ rest) = Ok (x, rest);
  read_from_short (s : bytes) :
    (length s < size)%nat -> read_from (A := A) s = Err (IoError UnexpectedEof)
}.

Lemma read_exact_app n l k : length l = n -> read_exact n (l ++ k) = Ok (l, k).
Proof.
  intros Hl. unfold read_exact. rewrite decide_True by (rewrite length_app; lia).
  by rewrite take_app_exact, drop_app_exact.
Qed.

Lemma read_exact_short n s :
  (length s < n)%nat -> read_exact n s = Err (IoError UnexpectedEof).
Proof. intros. unfold read_exact. by rewrite decide_False by lia. Qed.

Lemma read_exact_bind_short {A} n s (f : bytes -> reader A) :
  (length s < n)%nat -> (read_exact n ≫= f) s = Err (IoError UnexpectedEof).
Proof. intros. unfold mbind, ST_bind. by rewrite read_exact_short. Qed.

Lemma read_exact_bind {A} n l k (f : bytes -> reader A) :
  length l = n -> (read_exact n ≫= f) (l ++ k) = f l k.
Proof. intros. apply st_bind_eq. by apply read_exact_app. Qed.

Lemma read_exact_bind_last {A} n l (f : bytes -> reader A) :
  length l = n -> (read_exact n ≫= f) l = f l [].
Proof. intros. rewrite <- (app_nil_r l) at 1. by apply read_exact_bind. Qed.

(** Runs the [read_exact]s of a reader over an input that starts with chunks of their lengths. *)
Ltac read_chunks :=
  repeat first
    [ rewrite read_exact_bind by (autorewrite with hyp; reflexivity || assumption)
    | rewrite read_exact_bind_last by (autorewrite with hyp; reflexivity || assumption) ];
  autorewrite with hyp.

Lemma hash_read_to_be {n} (x : uint n) rest : hash_read_from (to_be x ++ rest) = Ok (x, rest).
Proof. unfold hash_read_from. read_chunks. done. Qed.

#[export] Instance H160_codec : FixedCodec H160 20.
Proof.
  split; intros; [done|apply length_to_be|apply hash_read_to_be|by apply read_exact_bind_short].
Qed.
#[export] Instance H256_codec : FixedCodec H256 32.
Proof.
  split; intros; [done|apply length_to_be|apply hash_read_to_be|by apply read_exact_bind_short].
Qed.
#[export] Instance H512_codec : FixedCodec H512 64.
Proof.
  split; intros; [done|apply length_to_be|apply hash_read_to_be|by apply read_exact_bind_short].
Qed.
#[export] Instance u32_codec : FixedCodec u32 4.
Proof.
  split; intros; [done|apply length_to_be|apply hash_read_to_be|by apply read_exact_bind_short].
Qed.
#[export] Instance u64_codec : FixedCodec u64 8.
Proof.
  split; intros; [done|apply length_to_be|apply hash_read_to_be|by apply read_exact_bind_short].
Qed.

#[export] Instance U256_codec : FixedCodec U256 32.
Proof.
  split; intros.
  - done.
  - apply length_to_le.
  - unfold read_from, U256_read_from. rewrite read_exact_bind by apply length_to_le.
    transitivity (Ok (E := HyperlaneProtocolError)
      (MkU256 (from_le 32 (to_le (u256 x))), rest)); [done|].
    rewrite from_le_to_le. by destruct x.
  - by apply read_exact_bind_short.
Qed.

#[export] Instance bool_codec : FixedCodec bool 1.
Proof.
  split; intros; [done|done| |by apply read_exact_bind_short].
  unfold read_from, bool_read_from. rewrite read_exact_bind by reflexivity.
  by destruct x.
Qed.

(** ** Gas payments and signatures ([types/mod.rs]) *)

(** An ECDSA signature. *)
Record Signature := MkSignature { r : U256; s : U256; v : u64 }.

#[export] Instance Signature_eq_dec : EqDecision Signature.
Proof. solve_decision. Defined.

(** [From<&Signature> for [u8; 65]]: [r] and [s] big-endian, then [v] truncated to a byte. *)
Definition signature_bytes (src : Signature) : bytes :=
  to_be (u256 (r src)) ++ to_be (u256 (s src)) ++ [byte (v src)].

(** Key for the gas payment. *)
Record GasPaymentKey := MkGasPaymentKey {
  gpk_message_id : H256;
  gpk_destination : u32
}.

#[export] Instance GasPaymentKey_write_to : Encode GasPaymentKey := λ k,
  n1 ← write_to (gpk_message_id k);
  n2 ← write_to (gpk_destination k);
  mret (n1 + n2).

#[export] Instance GasPaymentKey_read_from : Decode GasPaymentKey :=
  message_id ← read_from;
  destination ← read_from;
  mret (MkGasPaymentKey message_id destination).

(** A payment of a message's gas costs. *)
Record InterchainGasPayment := MkInterchainGasPayment {
  igp_message_id : H256;
  igp_destination : u32;
  igp_payment : U256;
  igp_gas_amount : U256
}.

(** Amount of gas spent attempting to send the message. *)
Record InterchainGasExpenditure := MkInterchainGasExpenditure {
  ige_message_id : H256;
  ige_tokens_used : U256;
  ige_gas_used : U256
}.

(** [U256 + U256], which panics on overflow. *)
Definition U256_add (a b : U256) : option U256 :=
  if u256 a + u256 b <? 2 ^ 256 then Some (MkU256 (uwrap 32 (u256 a + u256 b))) else None.

(** [Add for InterchainGasPayment]; [None] is a panic. *)
Definition InterchainGasPayment_add (self rhs : InterchainGasPayment) :
    option InterchainGasPayment :=
  if decide (igp_message_id self = igp_message_id rhs) then
    if decide (igp_destination self = igp_destination rhs) then
      payment ← U256_add (igp_payment self) (igp_payment rhs);
      gas_amount ← U256_add (igp_gas_amount self) (igp_gas_amount rhs);
      Some (MkInterchainGasPayment (igp_message_id self) (igp_destination self)
              payment gas_amount)
    else None
  else None.

(** [Add for InterchainGasExpenditure]; [None] is a panic. *)
Definition InterchainGasExpenditure_add (self rhs : InterchainGasExpenditure) :
    option InterchainGasExpenditure :=
  if decide (ige_message_id self = ige_message_id rhs) then
    tokens_used ← U256_add (ige_tokens_used self) (ige_tokens_used rhs);
    gas_used ← U256_add (ige_gas_used self) (ige_gas_used rhs);
    Some (MkInterchainGasExpenditure (ige_message_id self) tokens_used gas_used)
  else None.

(** Uniquely identifying metadata for an [InterchainGasPayment]. *)
Record InterchainGasPaymentMeta := MkInterchainGasPaymentMeta {
  igpm_transaction_id : H512;
  igpm_log_index : u64
}.

#[export] Instance InterchainGasPaymentMeta_write_to : Encode InterchainGasPaymentMeta := λ m,
  n1 ← write_to (igpm_transaction_id m);
  n2 ← write_to (igpm_log_index m);
  mret (n1 + n2).

#[export] Instance InterchainGasPaymentMeta_read_from : Decode InterchainGasPaymentMeta :=
  transaction_id ← read_from;
  log_index ← read_from;
  mret (MkInterchainGasPaymentMeta transaction_id log_index).

(** *** Composition of fixed-size encodings *)

Section pair_codec.
Context `{FixedCodec A n, FixedCodec B m}.

Lemma to_vec_then {C} (x : A) (f : Z -> writer C) buf :
  (k ← write_to x; f k) buf = f (Z.of_nat n) (buf ++ to_vec x).
Proof. unfold mbind, writer_bind. by rewrite write_to_append. Qed.

Lemma read_from_then {C} (x : A) rest (f : A -> reader C) :
  (y ← read_from; f y) (to_vec x ++ rest) = f x rest.
Proof. apply st_bind_eq, read_from_to_vec. Qed.

Lemma read_from_then_short {C} s (f : A -> reader C) :
  (length s < n)%nat -> (y ← read_from; f y) s = Err (IoError UnexpectedEof).
Proof. intros. unfold mbind, ST_bind. by rewrite read_from_short. Qed.
End pair_codec.

(** A record of two fixed-size fields, written and read one after the other. *)
Lemma pair_codec {A B R} `{FixedCodec A n, FixedCodec B m, !Encode R, !Decode R}
    (pa : R -> A) (pb : R -> B) (mk : A -> B -> R) :
  (forall x, mk (pa x) (pb x) = x) ->
  (forall x : R, write_to x = (n1 ← write_to (pa x); n2 ← write_to (pb x); mret (n1 + n2))) ->
  (read_from (A := R) = (a ← read_from; b ← read_from; mret (mk a b))) ->
  (forall s : bytes, (n <= length s)%nat -> exists a : A, read_from s = Ok (a, drop n s)) ->
  FixedCodec R (n + m).
Proof.
  intros Hmk Hw Hr Htot.
  assert (Hv : forall x buf, write_to x buf =
     (Z.of_nat (n + m), buf ++ to_vec (pa x) ++ to_vec (pb x))).
  { intros x buf. rewrite Hw, to_vec_then. unfold mbind, writer_bind.
    rewrite write_to_append, <- app_assoc. f_equal. lia. }
  assert (Hvec : forall x : R, to_vec x = to_vec (pa x) ++ to_vec (pb x)).
  { intros x. unfold to_vec at 1. by rewrite Hv. }
  split.
  - intros x buf. by rewrite Hv, Hvec.
  - intros x. by rewrite Hvec, length_app, !length_to_vec.
  - intros x rest. rewrite Hvec, Hr, <- app_assoc, read_from_then, read_from_then.
    by rewrite Hmk.
  - intros s Hs. rewrite Hr. destruct (decide (length s < n)%nat) as [?|Hge].
    + by rewrite read_from_then_short.
    + destruct (Htot s) as [a Ha]; [lia|]. rewrite (st_bind_eq _ _ _ _ _ Ha).
      apply read_from_then_short. rewrite length_drop. lia.
Qed.

Lemma hash_read_long n s :
  (n <= length s)%nat -> exists a : uint n, hash_read_from s = Ok (a, drop n s).
Proof.
  intros H. exists (from_be n (take n s)). unfold hash_read_from.
  rewrite <- (take_drop n s) at 1. rewrite read_exact_bind by (rewrite length_take; lia).
  done.
Qed.

#[export] Instance GasPaymentKey_codec : FixedCodec GasPaymentKey 36.
Proof.
  apply (pair_codec (n := 32) (m := 4) gpk_message_id gpk_destination MkGasPaymentKey); try done.
  - by intros [].
  - apply hash_read_long.
Qed.

#[export] Instance InterchainGasPaymentMeta_codec : FixedCodec InterchainGasPaymentMeta 72.
Proof.
  apply (pair_codec (n := 64) (m := 8) igpm_transaction_id igpm_log_index MkInterchainGasPaymentMeta); try done.
  - by intros [].
  - apply hash_read_long.
Qed.
