(* ===== verification/Keccak.v ===== *)
(** * Keccak-256

    The hash functions the repository calls ([sha3::Keccak256], [tiny_keccak], Solana's
    [keccak]) are third-party code: the development takes [keccak256] as the parameter
    [Keccak256] of every definition that hashes. The second half of the file is an executable
    Keccak-256 following FIPS 202 with the original padding; it is one instance of the
    parameter, which the witnesses use to evaluate the definitions on concrete inputs. *)

From S2P Require Import Prelude.
From stdpp Require Import base list numbers sets.
From Stdlib Require Import ZArith NArith Lia.

#[local] Open Scope Z_scope.

Class Keccak256 := keccak256 : bytes -> H256.

(** Two distinct inputs with the same digest, one from each of two given lists: collisions exist
    for every function into 256 bits, so a theorem that allows one says between which inputs. *)
Definition collision `{Keccak256} (xs ys : list bytes) : Prop :=
  exists x y, x ∈ xs /\ y ∈ ys /\ x <> y /\ keccak256 x = keccak256 y.

Lemma keccak256_inj `{Keccak256} x y :
  keccak256 x = keccak256 y -> x = y \/ collision [x] [y].
Proof.
  intros E. destruct (decide (x = y)); [by left|]. right. exists x, y.
  split_and!; [left|left|done|done].
Qed.

Lemma collision_mono `{Keccak256} xs ys xs' ys' :
  collision xs ys -> xs ⊆ xs' -> ys ⊆ ys' -> collision xs' ys'.
Proof. intros (x & y & Hx & Hy & Hne & E) Hs Ht. exists x, y. auto. Qed.

Lemma collision_app_l `{Keccak256} xs ys xs' ys' :
  collision xs ys -> collision (xs ++ xs') (ys ++ ys').
Proof. intros Hc. eapply collision_mono; [exact Hc|set_solver|set_solver]. Qed.

Lemma collision_app_r `{Keccak256} xs ys xs' ys' :
  collision xs' ys' -> collision (xs ++ xs') (ys ++ ys').
Proof. intros Hc. eapply collision_mono; [exact Hc|set_solver|set_solver]. Qed.

Module Concrete.
#[local] Open Scope N_scope.

Definition mask64 : N := N.ones 64.
Definition rotl (x : N) (n : N) : N :=
  N.lor (N.land (N.shiftl x n) mask64) (N.shiftr x (64 - n)).

(** Lane [(x, y)] is at position [x + 5 * y]. *)
Definition lane (s : list N) (x y : nat) : N := nth (x mod 5 + 5 * (y mod 5))%nat s 0.
Definition build (f : nat -> nat -> N) : list N :=
  y ← seq 0 5; x ← seq 0 5; [f x y].

Definition rho_offsets : list N :=
  [ 0;  1; 62; 28; 27;
   36; 44;  6; 55; 20;
    3; 10; 43; 25; 39;
   41; 45; 15; 21;  8;
   18;  2; 61; 56; 14].

Definition round_constants : list N :=
  [0x0000000000000001; 0x0000000000008082; 0x800000000000808A; 0x8000000080008000;
   0x000000000000808B; 0x0000000080000001; 0x8000000080008081; 0x8000000000008009;
   0x000000000000008A; 0x0000000000000088; 0x0000000080008009; 0x000000008000000A;
   0x000000008000808B; 0x800000000000008B; 0x8000000000008089; 0x8000000000008003;
   0x8000000000008002; 0x8000000000000080; 0x000000000000800A; 0x800000008000000A;
   0x8000000080008081; 0x8000000000008080; 0x0000000080000001; 0x8000000080008008].

Definition theta (s : list N) : list N :=
  let c := (λ x, foldr N.lxor 0 ((λ y, lane s x y) <$> seq 0 5)) <$> seq 0 5 in
  let d := (λ x, N.lxor (nth ((x + 4) mod 5) c 0) (rotl (nth ((x + 1) mod 5) c 0) 1))
             <$> seq 0 5 in
  build (λ x y, N.lxor (lane s x y) (nth x d 0)).

Definition rho (s : list N) : list N := zip_with rotl s rho_offsets.

(** [B[y, 2x+3y] = A[x, y]], read at [(x', y')]: [x = x' + 3 y'], [y = x']. *)
Definition pi (s : list N) : list N := build (λ x y, lane s (x + 3 * y) x).

Definition chi (s : list N) : list N :=
  build (λ x y, N.lxor (lane s x y) (N.ldiff (lane s (x + 2) y) (lane s (x + 1) y))).

Definition round (s : list N) (rc : N) : list N :=
  match chi (pi (rho (theta s))) with
  | a :: l => N.lxor a rc :: l
  | [] => []
  end.

Definition permute (s : list N) : list N := foldl round s round_constants.

Definition rate : nat := 136.

Definition pad (m : bytes) : bytes :=
  let k := (rate - length m mod rate)%nat in
  if decide (k = 1%nat) then m ++ [byte 0x81]
  else m ++ [byte 1] ++ replicate (k - 2) (byte 0) ++ [byte 0x80].

Fixpoint chunks (fuel n : nat) (l : bytes) : list bytes :=
  match fuel, l with
  | O, _ | _, [] => []
  | S fuel, _ => take n l :: chunks fuel n (drop n l)
  end.

Definition lanes (block : bytes) : list N := (λ c, Z.to_N (le_val c)) <$> chunks 25 8 block.

Definition absorb (s : list N) (block : bytes) : list N :=
  permute (zip_with N.lxor s (lanes block ++ replicate 8 0)).

Definition keccak256 (m : bytes) : H256 :=
  let p := pad m in
  let s := foldl absorb (replicate 25 0) (chunks (length p) rate p) in
  from_be 32 (concat ((λ l, le_bytes 8 (Z.of_N l)) <$> take 4 s)).
End Concrete.

(** The executable Keccak-256, as the instance the witnesses use. *)
Definition keccak_concrete : Keccak256 := Concrete.keccak256.

(** The published digest of the empty string. *)
Example keccak_concrete_empty :
  uval (Concrete.keccak256 []) =
  0xc5d2460186f7233c927e7db2dcc703c0e500b653ca82273b7bfad8045d85a470.
Proof. vm_compute. reflexivity. Qed.
