(* ===== verification/Accumulator.v ===== *)
(** * The accumulators: [hyperlane-core/src/accumulator]

    [mod.rs], [zero_hashes.rs]: the constants and [hash_concat]; [merkle.rs]: the full tree of
    fixed depth, its proofs and their verification; [incremental.rs]: the branch accumulator;
    [sparse.rs]: proofs against an earlier root. A Rust panic (a failed [assert!], an index out
    of range, an [unwrap] of [None]) is [None]. *)

From S2P Require Import Prelude.
From S2P Require Import Codec.
From S2P Require Import Keccak.
From stdpp Require Import base list numbers.
From Stdlib Require Import ZArith Lia.

#[local] Open Scope Z_scope.

Definition TREE_DEPTH : nat := 32.

(** A [H256] from its bytes. *)
Definition h256 (l : list Z) : H256 := from_be 32 (blit l).

(** ** The zero hashes *)

Definition Z_0 : H256 := h256 [
    0; 0; 0; 0; 0; 0; 0; 0; 0; 0; 0; 0; 0; 0; 0; 0; 0; 0; 0; 0; 0; 0; 0; 0; 0; 0; 0; 0; 0;
    0; 0; 0].
Definition Z_1 : H256 := h256 [
    173; 50; 40; 182; 118; 247; 211; 205; 66; 132; 165; 68; 63; 23; 241; 150; 43; 54; 228;
    145; 179; 10; 64; 178; 64; 88; 73; 229; 151; 186; 95; 181].
Definition Z_2 : H256 := h256 [
    180; 193; 25; 81; 149; 124; 111; 143; 100; 44; 74; 246; 28; 214; 178; 70; 64; 254;
    198; 220; 127; 198; 7; 238; 130; 6; 169; 158; 146; 65; 13; 48].
Definition Z_3 : H256 := h256 [
    33; 221; 185; 163; 86; 129; 92; 63; 172; 16; 38; 182; 222; 197; 223; 49; 36; 175; 186;
    219; 72; 92; 155; 165; 163; 227; 57; 138; 4; 183; 186; 133].
Definition Z_4 : H256 := h256 [
    229; 135; 105; 179; 42; 27; 234; 241; 234; 39; 55; 90; 68; 9; 90; 13; 31; 182; 100;
    206; 45; 211; 88; 231; 252; 191; 183; 140; 38; 161; 147; 68].
Definition Z_5 : H256 := h256 [
    14; 176; 30; 191; 201; 237; 39; 80; 12; 212; 223; 201; 121; 39; 45; 31; 9; 19; 204;
    159; 102; 84; 13; 126; 128; 5; 129; 17; 9; 225; 207; 45].
Definition Z_6 : H256 := h256 [
    136; 124; 34; 189; 135; 80; 211; 64; 22; 172; 60; 102; 181; 255; 16; 45; 172; 221;
    115; 246; 176; 20; 231; 16; 181; 30; 128; 34; 175; 154; 25; 104].
Definition Z_7 : H256 := h256 [
    255; 215; 1; 87; 228; 128; 99; 252; 51; 201; 122; 5; 15; 127; 100; 2; 51; 191; 100;
    108; 201; 141; 149; 36; 198; 185; 43; 207; 58; 181; 111; 131].
Definition Z_8 : H256 := h256 [
    152; 103; 204; 95; 127; 25; 107; 147; 186; 225; 226; 126; 99; 32; 116; 36; 69; 210;
    144; 242; 38; 56; 39; 73; 139; 84; 254; 197; 57; 247; 86; 175].
Definition Z_9 : H256 := h256 [
    206; 250; 212; 229; 8; 192; 152; 185; 167; 225; 216; 254; 177; 153; 85; 251; 2; 186;
    150; 117; 88; 80; 120; 113; 9; 105; 211; 68; 15; 80; 84; 224].
Definition Z_10 : H256 := h256 [
    249; 220; 62; 127; 224; 22; 224; 80; 239; 242; 96; 51; 79; 24; 165; 212; 254; 57; 29;
    130; 9; 35; 25; 245; 150; 79; 46; 46; 183; 193; 195; 165].
Definition Z_11 : H256 := h256 [
    248; 177; 58; 73; 226; 130; 246; 9; 195; 23; 168; 51; 251; 141; 151; 109; 17; 81; 124;
    87; 29; 18; 33; 162; 101; 210; 90; 247; 120; 236; 248; 146].
Definition Z_12 : H256 := h256 [
    52; 144; 198; 206; 235; 69; 10; 236; 220; 130; 226; 130; 147; 3; 29; 16; 199; 215; 59;
    248; 94; 87; 191; 4; 26; 151; 54; 10; 162; 197; 217; 156].
Definition Z_13 : H256 := h256 [
    193; 223; 130; 217; 196; 184; 116; 19; 234; 226; 239; 4; 143; 148; 180; 211; 85; 76;
    234; 115; 217; 43; 15; 122; 249; 110; 2; 113; 198; 145; 226; 187].
Definition Z_14 : H256 := h256 [
    92; 103; 173; 215; 198; 202; 243; 2; 37; 106; 222; 223; 122; 177; 20; 218; 10; 207;
    232; 112; 212; 73; 163; 164; 137; 247; 129; 214; 89; 232; 190; 204].
Definition Z_15 : H256 := h256 [
    218; 123; 206; 159; 78; 134; 24; 182; 189; 47; 65; 50; 206; 121; 140; 220; 122; 96;
    231; 225; 70; 10; 114; 153; 227; 198; 52; 42; 87; 150; 38; 210].
Definition Z_16 : H256 := h256 [
    39; 51; 229; 15; 82; 110; 194; 250; 25; 162; 43; 49; 232; 237; 80; 242; 60; 209; 253;
    249; 76; 145; 84; 237; 58; 118; 9; 162; 241; 255; 152; 31].
Definition Z_17 : H256 := h256 [
    225; 211; 181; 200; 7; 178; 129; 228; 104; 60; 198; 214; 49; 92; 249; 91; 154; 222;
    134; 65; 222; 252; 179; 35; 114; 241; 193; 38; 227; 152; 239; 122].
Definition Z_18 : H256 := h256 [
    90; 45; 206; 10; 138; 127; 104; 187; 116; 86; 15; 143; 113; 131; 124; 44; 46; 187;
    203; 247; 255; 251; 66; 174; 24; 150; 241; 63; 124; 116; 121; 160].
Definition Z_19 : H256 := h256 [
    180; 106; 40; 182; 245; 85; 64; 248; 148; 68; 246; 61; 224; 55; 142; 61; 18; 27; 224;
    158; 6; 204; 157; 237; 28; 32; 230; 88; 118; 211; 106; 160].
Definition Z_20 : H256 := h256 [
    198; 94; 150; 69; 100; 71; 134; 182; 32; 226; 221; 42; 214; 72; 221; 252; 191; 74;
    126; 91; 26; 58; 78; 207; 231; 246; 70; 103; 163; 240; 183; 226].
Definition Z_21 : H256 := h256 [
    244; 65; 133; 136; 237; 53; 162; 69; 140; 255; 235; 57; 185; 61; 38; 241; 141; 42;
    177; 59; 220; 230; 174; 229; 142; 123; 153; 53; 158; 194; 223; 217].
Definition Z_22 : H256 := h256 [
    90; 156; 22; 220; 0; 214; 239; 24; 183; 147; 58; 111; 141; 198; 92; 203; 85; 102; 113;
    56; 119; 111; 125; 234; 16; 16; 112; 220; 135; 150; 227; 119].
Definition Z_23 : H256 := h256 [
    77; 248; 79; 64; 174; 12; 130; 41; 208; 214; 6; 158; 92; 143; 57; 167; 194; 153; 103;
    122; 9; 211; 103; 252; 123; 5; 227; 188; 56; 14; 230; 82].
Definition Z_24 : H256 := h256 [
    205; 199; 37; 149; 247; 76; 123; 16; 67; 208; 225; 255; 186; 183; 52; 100; 140; 131;
    141; 251; 5; 39; 217; 113; 182; 2; 188; 33; 108; 150; 25; 239].
Definition Z_25 : H256 := h256 [
    10; 191; 90; 201; 116; 161; 237; 87; 244; 5; 10; 165; 16; 221; 156; 116; 245; 8; 39;
    123; 57; 215; 151; 59; 178; 223; 204; 197; 238; 176; 97; 141].
Definition Z_26 : H256 := h256 [
    184; 205; 116; 4; 111; 243; 55; 240; 167; 191; 44; 142; 3; 225; 15; 100; 44; 24; 134;
    121; 141; 113; 128; 106; 177; 232; 136; 217; 229; 238; 135; 208].
Definition Z_27 : H256 := h256 [
    131; 140; 86; 85; 203; 33; 198; 203; 131; 49; 59; 90; 99; 17; 117; 223; 244; 150; 55;
    114; 204; 233; 16; 129; 136; 179; 74; 200; 124; 129; 196; 30].
Definition Z_28 : H256 := h256 [
    102; 46; 228; 221; 45; 215; 178; 188; 112; 121; 97; 177; 230; 70; 196; 4; 118; 105;
    220; 182; 88; 79; 13; 141; 119; 13; 175; 93; 126; 125; 235; 46].
Definition Z_29 : H256 := h256 [
    56; 138; 178; 14; 37; 115; 209; 113; 168; 129; 8; 231; 157; 130; 14; 152; 242; 108;
    11; 132; 170; 139; 47; 74; 164; 150; 141; 187; 129; 142; 163; 34].
Definition Z_30 : H256 := h256 [
    147; 35; 124; 80; 186; 117; 238; 72; 95; 76; 34; 173; 242; 247; 65; 64; 11; 223; 141;
    106; 156; 199; 223; 126; 202; 229; 118; 34; 22; 101; 215; 53].
Definition Z_31 : H256 := h256 [
    132; 72; 129; 139; 180; 174; 69; 98; 132; 158; 148; 158; 23; 172; 22; 224; 190; 22;
    104; 142; 21; 107; 92; 241; 94; 9; 140; 98; 124; 0; 86; 169].
Definition Z_32 : H256 := h256 [
    39; 174; 91; 160; 141; 114; 145; 201; 108; 140; 189; 220; 193; 72; 191; 72; 166; 214;
    140; 121; 116; 185; 67; 86; 245; 55; 84; 239; 97; 113; 215; 87].

Definition ZERO_HASHES : list H256 := [
  Z_0; Z_1; Z_2; Z_3; Z_4; Z_5; Z_6; Z_7; Z_8; Z_9; Z_10;
  Z_11; Z_12; Z_13; Z_14; Z_15; Z_16; Z_17; Z_18; Z_19; Z_20; Z_21;
  Z_22; Z_23; Z_24; Z_25; Z_26; Z_27; Z_28; Z_29; Z_30; Z_31; Z_32].

(** The root of an empty tree. *)
Definition INITIAL_ROOT : H256 := h256 [
    39; 174; 91; 160; 141; 114; 145; 201; 108; 140; 189; 220; 193; 72; 191; 72; 166; 214;
    140; 121; 116; 185; 67; 86; 245; 55; 84; 239; 97; 113; 215; 87].

(** [H256::zero()] and [H256::default()]. *)
Definition H256_zero : H256 := uwrap 32 0.

(** ** The full tree ([merkle.rs]) *)

Inductive MerkleTree :=
  | Leaf (h : H256)
  | Node (h : H256) (l r : MerkleTree)
  | Zero (depth : nat).

#[export] Instance MerkleTree_eq_dec : EqDecision MerkleTree.
Proof. solve_decision. Defined.

Definition ZERO_NODES : list MerkleTree := [
  Zero 0; Zero 1; Zero 2; Zero 3; Zero 4; Zero 5; Zero 6; Zero 7; Zero 8; Zero 9; Zero 10;
  Zero 11; Zero 12; Zero 13; Zero 14; Zero 15; Zero 16; Zero 17; Zero 18; Zero 19; Zero 20;
  Zero 21; Zero 22; Zero 23; Zero 24; Zero 25; Zero 26; Zero 27; Zero 28; Zero 29; Zero 30;
  Zero 31; Zero 32].

(** A proof of inclusion: the leaf, its index and the sibling hashes bottom-up. *)
Record Proof := MkProof { leaf : H256; index : usize; path : list H256 }.

#[export] Instance Proof_eq_dec : EqDecision Proof.
Proof. solve_decision. Defined.

Inductive MerkleTreeError :=
  | LeafReached
  | MerkleTreeFull
  | Invalid
  | DepthTooSmall.

#[export] Instance MerkleTreeError_eq_dec : EqDecision MerkleTreeError.
Proof. solve_decision. Defined.

Module MerkleTree.
Section with_keccak.
Context `{Keccak256}.

Definition hash_concat (left_ right_ : H256) : H256 := keccak256 (to_be left_ ++ to_be right_).

(** [MerkleTree::hash]; indexing [ZERO_HASHES] panics beyond depth 32. *)
Definition hash (t : MerkleTree) : option H256 :=
  match t with
  | Leaf h => Some h
  | Node h _ _ => Some h
  | Zero depth => ZERO_HASHES !! depth
  end.

(** [MerkleTree::create] *)
Fixpoint create (leaves : list H256) (depth : nat) : option MerkleTree :=
  match leaves with
  | [] => Some (Zero depth)
  | x :: _ =>
      match depth with
      | O => Some (Leaf x)
      | S depth =>
          let subtree_capacity := 2 ^ Z.of_nat depth in
          let '(left_leaves, right_leaves) :=
            if Z.of_nat (length leaves) <=? subtree_capacity then (leaves, [])
            else (take (Z.to_nat subtree_capacity) leaves,
                  drop (Z.to_nat subtree_capacity) leaves) in
          left_subtree ← create left_leaves depth;
          right_subtree ← create right_leaves depth;
          lh ← hash left_subtree;
          rh ← hash right_subtree;
          Some (Node (hash_concat lh rh) left_subtree right_subtree)
      end
  end.

(** [MerkleTree::push_leaf] on [&mut self]: the tree afterwards and the result; the outer
    [None] is a panic. *)
Fixpoint push_leaf (self : MerkleTree) (elem : H256) (depth : nat) :
    option (MerkleTree * outcome MerkleTreeError unit) :=
  match depth with
  | O => Some (self, Err DepthTooSmall)
  | S d =>
      match self with
      | Leaf _ => Some (self, Err LeafReached)
      | Zero _ => t ← create [elem] depth; Some (t, Ok tt)
      | Node h left_ right_ =>
          let rehash (left_ right_ : MerkleTree) :=
            lh ← hash left_; rh ← hash right_;
            Some (Node (hash_concat lh rh) left_ right_, Ok tt) in
          match left_, right_ with
          | Leaf _, Leaf _ => Some (self, Err MerkleTreeFull)
          | Node _ _ _, Node _ _ _ =>
              '(right_', res) ← push_leaf right_ elem d;
              match res with
              | Ok _ => rehash left_ right_'
              | Err e => Some (Node h left_ right_', Err e)
              | Panic => None
              end
          | Zero _, Zero _ => left_' ← create [elem] d; rehash left_' right_
          | Leaf _, Zero _ => right_' ← create [elem] d; rehash left_ right_'
          | Node _ _ _, Zero _ =>
              '(left_', res) ← push_leaf left_ elem d;
              match res with
              | Ok _ => rehash left_' right_
              | Err MerkleTreeFull => right_' ← create [elem] d; rehash left_' right_'
              | Err e => Some (Node h left_' right_, Err e)
              | Panic => None
              end
          | _, _ => Some (self, Err Invalid)
          end
      end
  end.

(** [MerkleTree::left_and_right_branches]; the outer [None] is a panic. *)
Definition left_and_right_branches (self : MerkleTree) :
    option (option (MerkleTree * MerkleTree)) :=
  match self with
  | Leaf _ | Zero 0 => Some None
  | Node _ l r => Some (Some (l, r))
  | Zero (S depth) => l ← ZERO_NODES !! depth; r ← ZERO_NODES !! depth; Some (Some (l, r))
  end.

Definition is_leaf (self : MerkleTree) : bool :=
  match self with Leaf _ => true | _ => false end.

(** The loop of [generate_proof]: [proof] is pushed top-down. *)
Fixpoint generate_proof_loop (current_node : MerkleTree) (index : Z) (current_depth : nat)
    (proof : list H256) : option (MerkleTree * list H256) :=
  match current_depth with
  | O => Some (current_node, proof)
  | S d =>
      let ith_bit := Z.land (Z.shiftr index (Z.of_nat d)) 1 in
      branches ← left_and_right_branches current_node;
      '(left_, right_) ← branches;
      if ith_bit =? 1 then
        h ← hash left_; generate_proof_loop right_ index d (proof ++ [h])
      else
        h ← hash right_; generate_proof_loop left_ index d (proof ++ [h])
  end.

(** [MerkleTree::generate_proof] *)
Definition generate_proof (self : MerkleTree) (index : Z) (depth : nat) :
    option (H256 * list H256) :=
  '(current_node, proof) ← generate_proof_loop self index depth [];
  h ← hash current_node;
  Some (h, rev proof).

(** The loop of [merkle_root_from_branch], from position [i] of the branch. *)
Fixpoint root_from_branch_loop (current : H256) (branch : list H256) (i : nat) (index : Z) :
    H256 :=
  match branch with
  | [] => current
  | next :: branch =>
      let ith_bit := Z.land (Z.shiftr index (Z.of_nat i)) 1 in
      let current :=
        if ith_bit =? 1 then hash_concat next current else hash_concat current next in
      root_from_branch_loop current branch (S i) index
  end.

(** [merkle_root_from_branch] *)
Definition merkle_root_from_branch (leaf : H256) (branch : list H256) (depth : nat)
    (index : Z) : option H256 :=
  if (length branch =? depth)%nat then
    Some (root_from_branch_loop leaf (take depth branch) 0 index)
  else None.

(** [verify_merkle_proof] *)
Definition verify_merkle_proof (leaf : H256) (branch : list H256) (depth : nat) (index : Z)
    (root : H256) : option bool :=
  if (length branch =? depth)%nat then
    computed ← merkle_root_from_branch leaf branch depth index;
    Some (bool_decide (computed = root))
  else Some false.

(** [Proof::root] *)
Definition Proof_root (self : Proof) : option H256 :=
  merkle_root_from_branch (leaf self) (path self) TREE_DEPTH (index self).

End with_keccak.
End MerkleTree.

(** [Encode for Proof] and [Decode for Proof]. *)
Fixpoint write_hashes (path : list H256) : writer unit :=
  match path with
  | [] => mret tt
  | h :: path => write_all (to_be h);; write_hashes path
  end.

#[export] Instance Proof_write_to : Encode Proof := λ p,
  write_all (to_be (leaf p));;
  write_all (to_be (index p));;
  write_hashes (path p);;
  mret (32 + 8 + Z.of_nat TREE_DEPTH * 32).

Fixpoint read_hashes (n : nat) : reader (list H256) :=
  match n with
  | O => mret []
  | S n =>
      item ← read_exact 32;
      path ← read_hashes n;
      mret (from_be 32 item :: path)
  end.

#[export] Instance Proof_read_from : Decode Proof :=
  leaf ← read_exact 32;
  index_bytes ← read_exact 8;
  path ← read_hashes 32;
  mret (MkProof (from_be 32 leaf) (from_be 8 index_bytes) path).

(** ** The incremental tree ([incremental.rs]) *)

Record IncrementalMerkle := MkIncrementalMerkle { branch : list H256; count : usize }.

Module Incremental.

(** [Default for IncrementalMerkle] *)
Definition default : IncrementalMerkle :=
  MkIncrementalMerkle (imap (λ i _, ZERO_HASHES !!! i) (replicate TREE_DEPTH H256_zero))
    (uwrap 8 0).

Section with_keccak.
Context `{Keccak256}.

(** The [for i in 0..TREE_DEPTH] loop of [ingest], with [n] iterations left; returning leaves
    the loop. *)
Fixpoint ingest_loop (branch : list H256) (node : H256) (size : Z) (i n : nat) :
    option (list H256) :=
  match n with
  | O => Some branch
  | S n =>
      if Z.land size 1 =? 1 then
        _ ← branch !! i;
        Some (<[i := node]> branch)
      else
        b ← branch !! i;
        ingest_loop branch (MerkleTree.hash_concat b node) (size / 2) (S i) n
  end.

(** [IncrementalMerkle::ingest] *)
Definition ingest (self : IncrementalMerkle) (element : H256) : option IncrementalMerkle :=
  if count self <? u32_MAX then
    let count' := uwrap 8 (count self + 1) in
    branch' ← ingest_loop (branch self) element (uval count') 0 TREE_DEPTH;
    Some (MkIncrementalMerkle branch' count')
  else None.

(** The [for_each] of [root] over the branch from position [i]. *)
Fixpoint root_loop (branch : list H256) (node : H256) (size : Z) (i : nat) : option H256 :=
  match branch with
  | [] => Some node
  | elem :: branch =>
      node ← (if Z.land size 1 =? 1 then Some (MerkleTree.hash_concat elem node)
              else z ← ZERO_HASHES !! i; Some (MerkleTree.hash_concat node z));
      root_loop branch node (size / 2) (S i)
  end.

(** [IncrementalMerkle::root] *)
Definition root (self : IncrementalMerkle) : option H256 :=
  root_loop (branch self) H256_zero (count self) 0.

(** [IncrementalMerkle::index]: the cast truncates and the subtraction wraps. *)
Definition index (self : IncrementalMerkle) : option u32 :=
  if 0 <? count self then Some (uwrap 4 (uval (uwrap 4 (count self)) - 1)) else None.

(** [IncrementalMerkle::branch_root] *)
Definition branch_root (item : H256) (branch : list H256) (index : usize) : option H256 :=
  MerkleTree.merkle_root_from_branch item branch 32 index.

(** [IncrementalMerkle::verify] *)
Definition verify (self : IncrementalMerkle) (proof : Proof) : option bool :=
  computed ← branch_root (leaf proof) (path proof) (Accumulator.index proof);
  r ← root self;
  Some (bool_decide (computed = r)).

End with_keccak.
End Incremental.

(** ** Proofs against an earlier root ([sparse.rs]) *)

Module Sparse.
Import MerkleTree.
Section with_keccak.
Context `{Keccak256}.

(** [Proof::as_latest] *)
Definition as_latest (self : Proof) : option Proof :=
  modified_path ← mapM (M := option) (λ i,
      let size := Z.shiftr (Accumulator.index self) (Z.of_nat i) in
      if Z.land size 1 =? 1 then path self !! i else ZERO_HASHES !! i) (seq 0 TREE_DEPTH);
  Some (MkProof (leaf self) (Accumulator.index self) modified_path).

(** [SparseMerkleTree::merge]; the newtype is dropped. *)
Fixpoint merge (self b : MerkleTree) : option MerkleTree :=
  match self with
  | Zero _ => Some self
  | Leaf a_hash =>
      b_hash ← hash b;
      if decide (a_hash = b_hash) then Some b else Some self
  | Node a_hash a_left a_right =>
      match b with
      | Leaf _ => Some self
      | Zero _ => Some self
      | Node _ b_left b_right =>
          merged_left ← merge a_left b_left;
          merged_right ← merge a_right b_right;
          lh ← hash merged_left;
          rh ← hash merged_right;
          if decide (hash_concat lh rh = a_hash) then
            Some (Node a_hash merged_left merged_right)
          else None
      end
  end.

(** The loop of [From<Proof> for SparseMerkleTree], from level [i] with [n] levels left. *)
Fixpoint of_proof_loop (tree : MerkleTree) (value : Proof) (i n : nat) : option MerkleTree :=
  match n with
  | O => Some tree
  | S n =>
      sibling ← path value !! i;
      h ← hash tree;
      let index := Z.shiftr (Accumulator.index value) (Z.of_nat i) in
      let tree :=
        if Z.land index 1 =? 1 then Node (hash_concat sibling h) (Leaf sibling) tree
        else Node (hash_concat h sibling) tree (Leaf sibling) in
      of_proof_loop tree value (S i) n
  end.

(** [From<Proof> for SparseMerkleTree] *)
Definition of_proof (value : Proof) : option MerkleTree :=
  of_proof_loop (Leaf (leaf value)) value 0 TREE_DEPTH.

(** [MerkleTree::prove_against_current] *)
Definition prove_against_current (self : MerkleTree) (index : usize) : option Proof :=
  '(leaf, hashes) ← generate_proof self index TREE_DEPTH;
  if (32 <=? length hashes)%nat then Some (MkProof leaf index (take 32 hashes)) else None.

(** [MerkleTree::prove_against_previous] *)
Definition prove_against_previous (self : MerkleTree) (leaf_index root_index : usize) :
    option Proof :=
  if leaf_index <=? root_index then
    current ← prove_against_current self root_index;
    root_proof ← as_latest current;
    leaf_proof ← prove_against_current self leaf_index;
    root_tree ← of_proof root_proof;
    leaf_tree ← of_proof leaf_proof;
    tree ← merge root_tree leaf_tree;
    prove_against_current tree leaf_index
  else None.

End with_keccak.
End Sparse.
