(* ===== verification/Message.v ===== *)
(** * Messages, checkpoints and announcements ([hyperlane-core/src/types])

    [message.rs]: the message, its wire format and id; [merkle_tree.rs]: the insertion event;
    [utils.rs], [traits/signing.rs]: the domain hashes and the EIP-191 hash; [checkpoint.rs],
    [announcement.rs]: what validators sign; [log_metadata.rs]: the order of logs. *)

From S2P Require Import Prelude.
From S2P Require Import Codec.
From S2P Require Import Keccak.
From S2P Require Import Accumulator.
From stdpp Require Import base list numbers strings pretty sets.
From Stdlib Require Import ZArith Lia.

#[local] Open Scope Z_scope.

(** ** Messages *)

Definition HYPERLANE_MESSAGE_PREFIX_LEN : nat := 77.

Record HyperlaneMessage := MkHyperlaneMessage {
  version : u8;
  nonce : u32;
  origin : u32;
  sender : H256;
  destination : u32;
  recipient : H256;
  body : bytes
}.

#[export] Instance HyperlaneMessage_eq_dec : EqDecision HyperlaneMessage.
Proof. solve_decision. Defined.

#[export] Instance HyperlaneMessage_write_to : Encode HyperlaneMessage := λ m,
  write_all (to_be (version m));;
  write_all (to_be (nonce m));;
  write_all (to_be (origin m));;
  write_all (to_be (sender m));;
  write_all (to_be (destination m));;
  write_all (to_be (recipient m));;
  write_all (body m);;
  mret (Z.of_nat (HYPERLANE_MESSAGE_PREFIX_LEN + length (body m))).

#[export] Instance HyperlaneMessage_read_from : Decode HyperlaneMessage :=
  version ← read_exact 1;
  nonce ← read_exact 4;
  origin ← read_exact 4;
  sender ← read_exact 32;
  destination ← read_exact 4;
  recipient ← read_exact 32;
  body ← read_to_end;
  mret (MkHyperlaneMessage (from_be 1 version) (from_be 4 nonce) (from_be 4 origin)
          (from_be 32 sender) (from_be 4 destination) (from_be 32 recipient) body).

(** [From<&RawHyperlaneMessage> for HyperlaneMessage]; [None] is a panic. *)
Definition HyperlaneMessage_from (m : bytes) : option HyperlaneMessage :=
  version ← m !! 0%nat;
  nonce ← slice m 1 5;
  origin ← slice m 5 9;
  sender ← slice m 9 41;
  destination ← slice m 41 45;
  recipient ← slice m 45 77;
  body ← slice_from m 77;
  Some (MkHyperlaneMessage version (from_be 4 nonce) (from_be 4 origin) (from_be 32 sender)
          (from_be 4 destination) (from_be 32 recipient) body).

(** [From<&HyperlaneMessage> for RawHyperlaneMessage] *)
Definition RawHyperlaneMessage_from (m : HyperlaneMessage) : bytes := snd (write_to m []).

(** [HyperlaneMessage::id] *)
Definition id `{Keccak256} (m : HyperlaneMessage) : H256 := keccak256 (to_vec m).

(** ** Merkle tree insertions *)

Record MerkleTreeInsertion := MkMerkleTreeInsertion { leaf_index : u32; message_id : H256 }.

#[export] Instance MerkleTreeInsertion_eq_dec : EqDecision MerkleTreeInsertion.
Proof. solve_decision. Defined.

#[export] Instance MerkleTreeInsertion_write_to : Encode MerkleTreeInsertion := λ m,
  n1 ← write_to (leaf_index m);
  n2 ← write_to (message_id m);
  mret (n1 + n2).

#[export] Instance MerkleTreeInsertion_read_from : Decode MerkleTreeInsertion :=
  leaf_index ← read_from;
  message_id ← read_from;
  mret (MkMerkleTreeInsertion leaf_index message_id).

(** ** Signing *)

Section signing.
Context `{Keccak256}.

(** The bytes hashed by the definitions that follow them. *)
Definition domain_hash_input (address : H256) (domain : u32) : bytes :=
  to_be domain ++ to_be address ++ bstr "HYPERLANE".

Definition domain_hash (address : H256) (domain : u32) : H256 :=
  keccak256 (domain_hash_input address domain).

Definition announcement_domain_hash_input (address : H256) (domain : u32) : bytes :=
  to_be domain ++ to_be address ++ bstr "HYPERLANE_ANNOUNCEMENT".

Definition announcement_domain_hash (address : H256) (domain : u32) : H256 :=
  keccak256 (announcement_domain_hash_input address domain).

(** [hashes::hash_message]: EIP-191. *)
Definition hash_message_input (message : bytes) : bytes :=
  byte 25 :: bstr "Ethereum Signed Message:" ++ [byte 10]
  ++ bstr (pretty (N.of_nat (length message))) ++ message.

Definition hash_message (message : bytes) : H256 := keccak256 (hash_message_input message).
End signing.

(** [trait Signable] *)
Class Signable (T : Type) := signing_hash : T -> H256.
#[global] Hint Mode Signable ! : typeclass_instances.

(** [Signable::eth_signed_message_hash] *)
Definition eth_signed_message_hash `{Keccak256, Signable T} (self : T) : H256 :=
  hash_message (to_be (signing_hash self)).

Record SignedType (T : Type) := MkSignedType { value : T; signature : Signature }.
Arguments MkSignedType {T} value signature.
Arguments value {T}.
Arguments signature {T}.

(** ** Checkpoints *)

Record Checkpoint := MkCheckpoint {
  merkle_tree_hook_address : H256;
  mailbox_domain : u32;
  checkpoint_root : H256;
  checkpoint_index : u32
}.

Record CheckpointWithMessageId := MkCheckpointWithMessageId {
  checkpoint : Checkpoint;
  checkpoint_message_id : H256
}.

#[export] Instance Checkpoint_eq_dec : EqDecision Checkpoint.
Proof. solve_decision. Defined.
#[export] Instance CheckpointWithMessageId_eq_dec : EqDecision CheckpointWithMessageId.
Proof. solve_decision. Defined.

Definition checkpoint_signing_input `{Keccak256} (self : CheckpointWithMessageId) : bytes :=
  let c := checkpoint self in
  to_be (domain_hash (merkle_tree_hook_address c) (mailbox_domain c))
  ++ to_be (checkpoint_root c)
  ++ to_be (checkpoint_index c)
  ++ to_be (checkpoint_message_id self).

Definition checkpoint_signing_hash `{Keccak256} (self : CheckpointWithMessageId) : H256 :=
  keccak256 (checkpoint_signing_input self).

#[export] Instance CheckpointWithMessageId_Signable `{Keccak256} :
  Signable CheckpointWithMessageId := checkpoint_signing_hash.

Abbreviation SignedCheckpointWithMessageId := (SignedType CheckpointWithMessageId).

Record MultisigSignedCheckpoint := MkMultisigSignedCheckpoint {
  ms_checkpoint : CheckpointWithMessageId;
  ms_signatures : list Signature
}.

Inductive MultisigSignedCheckpointError := InconsistentCheckpoints | EmptySignatures.

(** [TryFrom<&mut Vec<SignedCheckpointWithMessageId>> for MultisigSignedCheckpoint] *)
Definition MultisigSignedCheckpoint_try_from
    (signed_checkpoints : list SignedCheckpointWithMessageId) :
    outcome MultisigSignedCheckpointError MultisigSignedCheckpoint :=
  match signed_checkpoints with
  | [] => Err EmptySignatures
  | c0 :: _ =>
      let checkpoint := value c0 in
      if forallb (λ c, bool_decide (checkpoint = value c)) signed_checkpoints then
        Ok (MkMultisigSignedCheckpoint checkpoint (signature <$> signed_checkpoints))
      else Err InconsistentCheckpoints
  end.

(** ** Announcements *)

Record Announcement := MkAnnouncement {
  validator : H160;
  mailbox_address : H256;
  announcement_mailbox_domain : u32;
(** the UTF-8 bytes of the location *)
  storage_location : bytes
}.

Definition announcement_signing_input `{Keccak256} (self : Announcement) : bytes :=
  to_be (announcement_domain_hash (mailbox_address self) (announcement_mailbox_domain self))
  ++ storage_location self.

Definition announcement_signing_hash `{Keccak256} (self : Announcement) : H256 :=
  keccak256 (announcement_signing_input self).

#[export] Instance Announcement_Signable `{Keccak256} : Signable Announcement :=
  announcement_signing_hash.

(** ** Log metadata *)

Record LogMeta := MkLogMeta {
  address : H256;
  block_number : u64;
  block_hash : H256;
  transaction_id : H512;
  transaction_index : u64;
  log_index : U256
}.

(** [PartialOrd for LogMeta] and [Ord for LogMeta] *)
Definition LogMeta_partial_cmp (self other : LogMeta) : option comparison :=
  Some (match uval (block_number self) ?= uval (block_number other) with
        | Eq => uval (u256 (log_index self)) ?= uval (u256 (log_index other))
        | ord => ord
        end).

Definition LogMeta_cmp (self other : LogMeta) : option comparison :=
  LogMeta_partial_cmp self other.

(** ** Lemmas *)

#[export] Instance MerkleTreeInsertion_codec : FixedCodec MerkleTreeInsertion 36.
Proof.
  apply (pair_codec (n := 4) (m := 32) leaf_index message_id MkMerkleTreeInsertion); try done.
  - by intros [].
  - apply hash_read_long.
Qed.

Lemma HyperlaneMessage_to_vec (m : HyperlaneMessage) :
  to_vec m = to_be (version m) ++ to_be (nonce m) ++ to_be (origin m) ++ to_be (sender m)
             ++ to_be (destination m) ++ to_be (recipient m) ++ body m.
Proof.
  unfold to_vec, write_to, HyperlaneMessage_write_to. rewrite !write_all_bind.
  cbn [mret writer_ret snd]. by rewrite <- !app_assoc.
Qed.

Lemma HyperlaneMessage_length (m : HyperlaneMessage) :
  length (to_vec m) = (HYPERLANE_MESSAGE_PREFIX_LEN + length (body m))%nat.
Proof.
  rewrite HyperlaneMessage_to_vec, !length_app, !length_to_be.
  unfold HYPERLANE_MESSAGE_PREFIX_LEN. lia.
Qed.

(** Every byte string of at least 77 bytes is the encoding of a message. *)
Lemma HyperlaneMessage_split (s : bytes) :
  (77 <= length s)%nat -> exists m : HyperlaneMessage, s = to_vec m.
Proof.
  intros Hs. unshelve eexists (MkHyperlaneMessage (from_be 1 (take 1 s))
    (from_be 4 (take 4 (drop 1 s))) (from_be 4 (take 4 (drop 5 s)))
    (from_be 32 (take 32 (drop 9 s))) (from_be 4 (take 4 (drop 41 s)))
    (from_be 32 (take 32 (drop 45 s))) (drop 77 s)).
  rewrite HyperlaneMessage_to_vec. cbn [version nonce origin sender destination recipient body].
  rewrite !to_be_from_be by (rewrite length_take, ?length_drop; lia).
  assert (Hd : forall a n b, b = (n + a)%nat -> take n (drop a s) ++ drop b s = drop a s).
  { intros a n b ->. rewrite Nat.add_comm, <- drop_drop. apply take_drop. }
  rewrite (Hd 45 32 77)%nat, (Hd 41 4 45)%nat, (Hd 9 32 41)%nat, (Hd 5 4 9)%nat,
    (Hd 1 4 5)%nat by reflexivity. by rewrite take_drop.
Qed.

Lemma HyperlaneMessage_read (m : HyperlaneMessage) : read_from (to_vec m) = Ok (m, []).
Proof.
  rewrite HyperlaneMessage_to_vec. unfold read_from, HyperlaneMessage_read_from.
  read_chunks. by destruct m.
Qed.

Lemma HyperlaneMessage_read_short (s : bytes) :
  (length s < 77)%nat -> read_from (A := HyperlaneMessage) s = Err (IoError UnexpectedEof).
Proof.
  intros Hs. unfold read_from, HyperlaneMessage_read_from.
  assert (Hstep : forall {A} n (f : bytes -> reader A) (k : bytes),
    ((n <= length k)%nat -> f (take n k) (drop n k) = Err (IoError UnexpectedEof)) ->
    (read_exact n ≫= f) k = Err (IoError UnexpectedEof)).
  { intros A n f k Hf. destruct (decide (n <= length k)%nat) as [Hn|Hn].
    - rewrite <- (take_drop n k) at 1. rewrite read_exact_bind by (rewrite length_take; lia).
      by apply Hf.
    - apply read_exact_bind_short. lia. }
  do 6 (apply Hstep; rewrite ?length_drop; intros ?). exfalso. lia.
Qed.

Lemma HyperlaneMessage_from_to_vec (m : HyperlaneMessage) :
  HyperlaneMessage_from (to_vec m) = Some m.
Proof.
  rewrite HyperlaneMessage_to_vec. unfold HyperlaneMessage_from.
  destruct m as [v n o sd d r b].
  cbn [version nonce origin sender destination recipient body] in *.
  assert (Hv : to_be v = [v]).
  { unfold to_be, be_bytes. cbn [le_bytes rev app]. unfold byte. by rewrite uwrap_uval. }
  rewrite lookup_app_l by (rewrite Hv; simpl; lia). rewrite Hv at 1. cbn [lookup list_lookup].
  slices. by rewrite !from_be_to_be.
Qed.

Lemma HyperlaneMessage_from_short (s : bytes) :
  (length s < 77)%nat -> HyperlaneMessage_from s = None.
Proof.
  intros Hs. unfold HyperlaneMessage_from. rewrite (slice_out s 45 77) by done.
  do 5 (apply bind_none_r; intros ?). done.
Qed.

(** The two decoders agree. *)
Lemma HyperlaneMessage_decoders (raw : bytes) m :
  eval_st (read_from (A := HyperlaneMessage)) raw = Ok m <-> HyperlaneMessage_from raw = Some m.
Proof.
  destruct (decide (77 <= length raw)%nat) as [Hl|Hl].
  - destruct (HyperlaneMessage_split raw Hl) as [m' ->]. unfold eval_st.
    rewrite HyperlaneMessage_read, HyperlaneMessage_from_to_vec. split; congruence.
  - unfold eval_st. rewrite HyperlaneMessage_read_short, HyperlaneMessage_from_short by lia.
    split; congruence.
Qed.

(** What is hashed on the way to the digest of a checkpoint and of an announcement. *)
Definition checkpoint_inputs `{Keccak256} (c : CheckpointWithMessageId) : list bytes :=
  [hash_message_input (to_be (signing_hash c)); checkpoint_signing_input c;
   domain_hash_input (merkle_tree_hook_address (checkpoint c)) (mailbox_domain (checkpoint c))].
Definition announcement_inputs `{Keccak256} (a : Announcement) : list bytes :=
  [hash_message_input (to_be (signing_hash a)); announcement_signing_input a;
   announcement_domain_hash_input (mailbox_address a) (announcement_mailbox_domain a)].

Section binding.
Context `{Keccak256}.

Lemma eth_signed_inj `{Signable A, Signable B} (a : A) (b : B) :
  eth_signed_message_hash a = eth_signed_message_hash b ->
  signing_hash a = signing_hash b \/
  collision [hash_message_input (to_be (signing_hash a))]
    [hash_message_input (to_be (signing_hash b))].
Proof.
  unfold eth_signed_message_hash, hash_message. intros E.
  apply keccak256_inj in E as [E|]; [left|by right]. unfold hash_message_input in E.
  rewrite !length_to_be, !app_comm_cons, !app_assoc in E.
  apply app_inv_head in E. by apply to_be_inj.
Qed.

(** The three domain hashes have inputs [domain ++ address ++ tag]. *)
Lemma tagged_inj (a a' : H256) (d d' : u32) (t t' : bytes) :
  to_be d ++ to_be a ++ t = to_be d' ++ to_be a' ++ t' -> a = a' /\ d = d' /\ t = t'.
Proof.
  intros E. apply app_inj_1 in E as [Ed E]; [|by rewrite !length_to_be].
  apply app_inj_1 in E as [Ea Et]; [|by rewrite !length_to_be].
  split_and!; [by apply to_be_inj|by apply to_be_inj|done].
Qed.

Ltac signing :=
  unfold signing_hash, CheckpointWithMessageId_Signable, Announcement_Signable,
    checkpoint_signing_hash, announcement_signing_hash in *.
(** The collision found is between two of the inputs listed. *)
Ltac listed Hc := eapply collision_mono; [exact Hc|set_solver|set_solver].

Lemma checkpoint_signing_inj (c c' : CheckpointWithMessageId) :
  signing_hash c = signing_hash c' ->
  c = c' \/ collision (checkpoint_inputs c) (checkpoint_inputs c').
Proof.
  unfold checkpoint_inputs. intros E. signing.
  apply keccak256_inj in E as [E|Hc]; [|right; listed Hc].
  unfold checkpoint_signing_input in E at 1 2.
  apply app_inj_1 in E as [Ed E]; [|by rewrite !length_to_be].
  apply app_inj_1 in E as [Er E]; [|by rewrite !length_to_be].
  apply app_inj_1 in E as [Ei Em]; [|by rewrite !length_to_be].
  apply to_be_inj in Ed, Er, Ei, Em.
  unfold domain_hash, announcement_domain_hash in Ed. apply keccak256_inj in Ed as [Ed|Hc]; [left|right; listed Hc].
  apply tagged_inj in Ed as (Ea & Ed & _). destruct c as [[]], c' as [[]]. cbn in *. congruence.
Qed.

Lemma digest_binding (c c' : CheckpointWithMessageId) :
  eth_signed_message_hash c = eth_signed_message_hash c' ->
  c = c' \/ collision (checkpoint_inputs c) (checkpoint_inputs c').
Proof.
  intros E. apply eth_signed_inj in E as [E|Hc]; [by apply checkpoint_signing_inj|right].
  listed Hc.
Qed.

Lemma announcement_signing_inj (a a' : Announcement) :
  signing_hash a = signing_hash a' ->
  (mailbox_address a = mailbox_address a' /\
   announcement_mailbox_domain a = announcement_mailbox_domain a' /\
   storage_location a = storage_location a') \/
  collision (announcement_inputs a) (announcement_inputs a').
Proof.
  unfold announcement_inputs. intros E. signing.
  apply keccak256_inj in E as [E|Hc]; [|right; listed Hc].
  unfold announcement_signing_input in E at 1 2.
  apply app_inj_1 in E as [Ed El]; [|by rewrite !length_to_be].
  apply to_be_inj in Ed. unfold domain_hash, announcement_domain_hash in Ed. apply keccak256_inj in Ed as [Ed|Hc]; [left|right; listed Hc].
  by apply tagged_inj in Ed as (Ea & Ed & _).
Qed.

Lemma signing_disjoint (c : CheckpointWithMessageId) (a : Announcement) :
  signing_hash c = signing_hash a -> collision (checkpoint_inputs c) (announcement_inputs a).
Proof.
  unfold checkpoint_inputs, announcement_inputs. intros E. signing.
  apply keccak256_inj in E as [E|Hc]; [|listed Hc].
  unfold checkpoint_signing_input at 1 in E. unfold announcement_signing_input at 1 in E.
  apply app_inj_1 in E as [Ed _]; [|by rewrite !length_to_be].
  apply to_be_inj in Ed. unfold domain_hash, announcement_domain_hash in Ed. apply keccak256_inj in Ed as [Ed|Hc]; [|listed Hc].
  apply tagged_inj in Ed as (_ & _ & Et). apply (f_equal length) in Et. done.
Qed.
End binding.

Definition lex_compare (p q x y : Z) : comparison :=
  match p ?= q with Eq => x ?= y | ord => ord end.

Lemma lex_compare_eq p q x y : lex_compare p q x y = Eq <-> p = q /\ x = y.
Proof.
  unfold lex_compare. destruct (Z.compare_spec p q), (Z.compare_spec x y); intuition (discriminate || lia).
Qed.

Lemma lex_compare_lt p q x y : lex_compare p q x y = Lt <-> p < q \/ (p = q /\ x < y).
Proof.
  unfold lex_compare. destruct (Z.compare_spec p q), (Z.compare_spec x y); intuition (discriminate || lia).
Qed.

Lemma lex_compare_opp p q x y : lex_compare q p y x = CompOpp (lex_compare p q x y).
Proof.
  unfold lex_compare. rewrite (Z.compare_antisym p q), (Z.compare_antisym x y).
  by destruct (p ?= q).
Qed.

(** ** Properties *)

(** Every message survives its wire format: [write_to] appends exactly the encoding and
    reports its length, and both decoders (the streaming [read_from] and the slicing
    [From<&RawHyperlaneMessage>]) give the message back from it. *)
Theorem message_roundtrip (m : HyperlaneMessage) (buf : bytes) :
  write_to m buf = (Z.of_nat (length (to_vec m)), buf ++ to_vec m) /\
  read_from (to_vec m) = Ok (m, []) /\
  HyperlaneMessage_from (to_vec m) = Some m /\
  RawHyperlaneMessage_from m = to_vec m.
Proof.
  split; [|split_and!; [apply HyperlaneMessage_read|apply HyperlaneMessage_from_to_vec|done]].
  rewrite HyperlaneMessage_length, HyperlaneMessage_to_vec.
  unfold write_to, HyperlaneMessage_write_to. rewrite !write_all_bind.
  cbn [mret writer_ret]. by rewrite <- !app_assoc.
Qed.

(** Decoding is total and exact on arbitrary bytes: at least 77 bytes are the encoding of
    exactly the message both decoders return (no trailing bytes are left or ignored, so
    decoding then encoding is the identity), and fewer make [read_from] fail with
    [UnexpectedEof] and the slicing decoder panic. *)
Theorem message_decode_total (raw : bytes) :
  if decide (HYPERLANE_MESSAGE_PREFIX_LEN <= length raw)%nat then
    exists m, read_from raw = Ok (m, []) /\ HyperlaneMessage_from raw = Some m /\ to_vec m = raw
  else
    read_from (A := HyperlaneMessage) raw = Err (IoError UnexpectedEof) /\
    HyperlaneMessage_from raw = None.
Proof.
  unfold HYPERLANE_MESSAGE_PREFIX_LEN. case_decide.
  - destruct (HyperlaneMessage_split raw) as [m ->]; [done|]. exists m.
    auto using HyperlaneMessage_read, HyperlaneMessage_from_to_vec.
  - split; [apply HyperlaneMessage_read_short|apply HyperlaneMessage_from_short]; lia.
Qed.

(** What a validator signs binds everything it is about: two checkpoints with the same
    EIP-191 digest are equal in every field (hook address, domain, root, index, message id),
    two announcements agree on the mailbox, the domain and the storage location, and a
    checkpoint and an announcement never share a digest, unless two of the inputs that are
    hashed on the way to the two digests collide. *)
Theorem signed_digest_binding `{Keccak256} (c c' : CheckpointWithMessageId)
    (a a' : Announcement) :
  (eth_signed_message_hash c <> eth_signed_message_hash c' \/ c = c' \/
   collision (checkpoint_inputs c) (checkpoint_inputs c')) /\
  (eth_signed_message_hash a <> eth_signed_message_hash a' \/
   (mailbox_address a = mailbox_address a' /\
    announcement_mailbox_domain a = announcement_mailbox_domain a' /\
    storage_location a = storage_location a') \/
   collision (announcement_inputs a) (announcement_inputs a')) /\
  (eth_signed_message_hash c <> eth_signed_message_hash a \/
   collision (checkpoint_inputs c) (announcement_inputs a)).
Proof.
  split_and!.
  - destruct (decide (eth_signed_message_hash c = eth_signed_message_hash c')) as [E|]; [right|by left].
    by apply digest_binding.
  - destruct (decide (eth_signed_message_hash a = eth_signed_message_hash a')) as [E|]; [right|by left].
    apply eth_signed_inj in E as [E|Hc]; [by apply announcement_signing_inj|right].
    eapply collision_mono; [exact Hc|set_solver|set_solver].
  - destruct (decide (eth_signed_message_hash c = eth_signed_message_hash a)) as [E|]; [right|by left].
    apply eth_signed_inj in E as [E|Hc]; [by apply signing_disjoint|].
    eapply collision_mono; [exact Hc|set_solver|set_solver].
Qed.

(** A multisig checkpoint is made exactly from a non-empty list of signed checkpoints for
    one and the same checkpoint, and carries all their signatures in order; the two error
    cases are the empty list and two different checkpoints in the list. *)
Theorem multisig_checkpoint_try_from_spec (l : list SignedCheckpointWithMessageId) :
  match MultisigSignedCheckpoint_try_from l with
  | Ok m => l <> [] /\ Forall (λ c, value c = ms_checkpoint m) l /\
            ms_signatures m = signature <$> l
  | Err EmptySignatures => l = []
  | Err InconsistentCheckpoints => exists c c', c ∈ l /\ c' ∈ l /\ value c <> value c'
  | Panic => False
  end.
Proof.
  destruct l as [|c0 l]; [done|]. unfold MultisigSignedCheckpoint_try_from.
  destruct (forallb _ (c0 :: l)) eqn:Hall.
  - rewrite forallb_forall in Hall. split; [done|]. split; [|done].
    apply Forall_forall. intros c Hc. apply list_elem_of_In in Hc.
    apply Hall, bool_decide_eq_true_1 in Hc. by rewrite Hc.
  - destruct (decide (Forall (λ c, value c0 = value c) (c0 :: l))) as [Hf|Hf].
    { rewrite (proj2 (forallb_forall _ _)) in Hall; [done|]. intros c Hc.
      apply bool_decide_eq_true_2. rewrite Forall_forall in Hf.
      by apply Hf, list_elem_of_In. }
    apply not_Forall_Exists, Exists_exists in Hf as (c & Hc & Hne); [|apply _].
    exists c0, c. split_and!; [left|done|done].
Qed.

(** The order of logs is a total preorder that compares block numbers first and log
    indices second, and never panics; logs that compare as equal agree on both. *)
Theorem log_meta_order (a b : LogMeta) :
  (exists o, LogMeta_cmp a b = Some o /\ LogMeta_cmp b a = Some (CompOpp o)) /\
  (LogMeta_cmp a b = Some Eq <->
     block_number a = block_number b /\ log_index a = log_index b) /\
  (LogMeta_cmp a b = Some Lt <->
     (block_number a < block_number b) \/
     (block_number a = block_number b /\ u256 (log_index a) < u256 (log_index b))).
Proof.
  assert (Hc : forall x y, LogMeta_cmp x y = Some (lex_compare (block_number x) (block_number y)
    (u256 (log_index x)) (u256 (log_index y)))) by done.
  rewrite !Hc. rewrite !(inj_iff Some).
  rewrite lex_compare_eq, lex_compare_lt. split_and!.
  - eexists. split; [done|]. by rewrite lex_compare_opp.
  - rewrite (inj_iff uval). split; intros [? E]; (split; [done|]).
    + apply uint_eq in E. destruct (log_index a), (log_index b). simpl in E. by subst.
    + by rewrite E.
  - by rewrite (inj_iff uval).
Qed.
