(* ===== verification/U256.v ===== *)
(** * 256-bit arithmetic

    [U256] is declared in [hyperlane-core/src/types/primitive_types.rs] by a macro of the crate
    [uint]; the operations come from that crate. The class [U256Ops] holds the ones the
    programs call, [U256Laws] their documented behaviour: exact results, and a panic where the
    exact result does not fit. *)

From S2P Require Import Prelude.
From stdpp Require Import base numbers.
From Stdlib Require Import ZArith Lia.

#[local] Open Scope Z_scope.

Abbreviation U256 := (uint 32).

(** [None] is a panic, but for the checked operations. *)
Class U256Ops := {
  (** [U256::from] of an unsigned integer *)
  u256_from {n} : uint n -> U256;
  u256_mul : U256 -> U256 -> option U256;
  u256_div : U256 -> U256 -> option U256;
  u256_pow : U256 -> U256 -> option U256;
  u256_as_u64 : U256 -> option u64;
  (** [checked_mul], [checked_div], [checked_pow] and [u64::try_from]: [None] is their result *)
  u256_checked_mul : U256 -> U256 -> option U256;
  u256_checked_div : U256 -> U256 -> option U256;
  u256_checked_pow : U256 -> U256 -> option U256;
  u256_try_into_u64 : U256 -> option u64;
  u256_saturating_sub : U256 -> U256 -> U256
}.

(** The result [z] in [n] bytes, or a panic. *)
Definition exactly (n : nat) (z : Z) : option (uint n) :=
  if (0 <=? z) && (z <? umax n) then Some (uwrap n z) else None.

Class U256Laws `{U256Ops} := {
  u256_from_exact n (x : uint n) : (n <= 32)%nat -> uval (u256_from x) = uval x;
  u256_mul_exact a b : u256_mul a b = exactly 32 (uval a * uval b);
  u256_div_exact a b : 0 < uval b -> u256_div a b = exactly 32 (uval a / uval b);
  u256_div_zero a b : uval b = 0 -> u256_div a b = None;
  u256_pow_exact a b : u256_pow a b = exactly 32 (uval a ^ uval b);
  u256_as_u64_exact a : u256_as_u64 a = exactly 8 (uval a);
  u256_checked_mul_exact a b : u256_checked_mul a b = exactly 32 (uval a * uval b);
  u256_checked_div_exact a b :
    0 < uval b -> u256_checked_div a b = exactly 32 (uval a / uval b);
  u256_checked_pow_exact a b : u256_checked_pow a b = exactly 32 (uval a ^ uval b);
  u256_try_into_u64_exact a : u256_try_into_u64 a = exactly 8 (uval a);
  u256_saturating_sub_exact a b : uval (u256_saturating_sub a b) = Z.max 0 (uval a - uval b)
}.

Lemma exactly_fits n z : 0 <= z < umax n -> exactly n z = Some (uwrap n z).
Proof. intros Hz. unfold exactly. by rewrite (proj2 (andb_true_iff _ _)) by lia. Qed.

Lemma exactly_some n z x : exactly n z = Some x <-> 0 <= z < umax n /\ x = uwrap n z.
Proof.
  unfold exactly. destruct ((0 <=? z) && (z <? umax n)) eqn:Hb.
  - apply andb_prop in Hb. split; [intros [= <-]; split; [lia|done]|by intros [_ ->]].
  - apply andb_false_iff in Hb. split; [done|]. intros [Hz _]. lia.
Qed.

Lemma exactly_none n z : 0 <= z -> exactly n z = None <-> umax n <= z.
Proof.
  intros Hz. unfold exactly. destruct ((0 <=? z) && (z <? umax n)) eqn:Hb.
  - apply andb_prop in Hb. split; [done|lia].
  - apply andb_false_iff in Hb. split; [lia|done].
Qed.

(** ** Powers of ten *)

Lemma pow10_fits d : 0 <= d -> 10 ^ d < 2 ^ 256 <-> d <= 77.
Proof.
  intros Hd. split; intros Hlt.
  - destruct (Z.le_gt_cases d 77) as [|Hgt]; [done|]. exfalso.
    assert (10 ^ 78 <= 10 ^ d) by (apply Z.pow_le_mono_r; lia).
    assert (2 ^ 256 < 10 ^ 78) by reflexivity. lia.
  - apply Z.le_lt_trans with (10 ^ 77); [apply Z.pow_le_mono_r; lia|reflexivity].
Qed.

Lemma uwrap_val (z : Z) : 0 <= z -> (z <? 2 ^ 256) = true -> uval (uwrap 32 z) = z.
Proof. intros Hz Hlt. apply Z.ltb_lt in Hlt. by apply uval_uwrap_small. Qed.

(** [10^d] for the difference [d] of two decimals. *)
Lemma exactly_pow10 `{U256Laws} d :
  0 <= d < 256 ->
  exactly 32 (uval (u256_from (uwrap 8 10)) ^ uval (u256_from (uwrap 1 d))) =
  if d <=? 77 then Some (uwrap 32 (10 ^ d)) else None.
Proof.
  intros Hd. rewrite !u256_from_exact by lia.
  rewrite (uval_uwrap_small 8 10) by (split; [lia|reflexivity]).
  rewrite (uval_uwrap_small 1 d) by (split; [lia|change (umax 1) with 256; lia]).
  unfold exactly. change (umax 32) with (2 ^ 256).
  rewrite (proj2 (Z.leb_le 0 (10 ^ d))) by (apply Z.pow_nonneg; lia). cbn [andb].
  pose proof (pow10_fits d ltac:(lia)) as Hf.
  destruct (Z.ltb_spec (10 ^ d) (2 ^ 256)), (Z.leb_spec d 77); try done; lia.
Qed.

(** An implementation. *)
Module U256Model.
#[export] Instance ops : U256Ops := {
  u256_from n x := uwrap 32 (uval x);
  u256_mul a b := exactly 32 (uval a * uval b);
  u256_div a b := if uval b =? 0 then None else exactly 32 (uval a / uval b);
  u256_pow a b := exactly 32 (uval a ^ uval b);
  u256_as_u64 a := exactly 8 (uval a);
  u256_checked_mul a b := exactly 32 (uval a * uval b);
  u256_checked_div a b := if uval b =? 0 then None else exactly 32 (uval a / uval b);
  u256_checked_pow a b := exactly 32 (uval a ^ uval b);
  u256_try_into_u64 a := exactly 8 (uval a);
  u256_saturating_sub a b := uwrap 32 (Z.max 0 (uval a - uval b))
}.

#[export] Instance laws : U256Laws.
Proof.
  split; try done.
  - intros n x Hn. cbn. apply uval_uwrap_small. pose proof (uval_range x).
    assert (umax n <= umax 32) by (unfold umax; apply Z.pow_le_mono_r; lia). lia.
  - intros a b Hb. cbn. by rewrite (proj2 (Z.eqb_neq _ _)) by lia.
  - intros a b Hb. cbn. by rewrite Hb.
  - intros a b Hb. cbn. by rewrite (proj2 (Z.eqb_neq _ _)) by lia.
  - intros a b. cbn. pose proof (uval_range a). pose proof (uval_range b).
    apply uval_uwrap_small. lia.
Qed.
End U256Model.
