(* ===== verification/Chain.v ===== *)
(** * Domains ([hyperlane-core/src/chain.rs])

    The domains known by name and number, and the domains of a configuration. Strings are byte
    strings; the names of user-defined domains are those of the configuration. *)

From S2P Require Import Prelude.
From S2P Require Import Codec.
From stdpp Require Import base list numbers strings.
From Stdlib Require Import ZArith Lia String Ascii.

#[local] Open Scope Z_scope.

(** ** Names *)

(** [char::to_ascii_lowercase] *)
Definition ascii_lower (c : ascii) : ascii :=
  let n := Z.of_nat (nat_of_ascii c) in
  if (65 <=? n) && (n <=? 90) then ascii_of_nat (Z.to_nat (n + 32)) else c.

(** [str::to_ascii_lowercase] *)
Fixpoint to_ascii_lowercase (s : string) : string :=
  match s with
  | EmptyString => EmptyString
  | String c s => String (ascii_lower c) (to_ascii_lowercase s)
  end.

(** [str::eq_ignore_ascii_case] *)
Definition eq_ignore_ascii_case (s t : string) : bool :=
  bool_decide (to_ascii_lowercase s = to_ascii_lowercase t).

(** ** Domains *)

Module Domain.

Inductive IndexMode := Block | Sequence.

Module Type_.
Inductive HyperlaneDomainType := Mainnet | Testnet | LocalTestChain | Unknown.
End Type_.

Module Protocol.
Inductive HyperlaneDomainProtocol := Ethereum | Fuel | Sealevel | Cosmos.
End Protocol.

Inductive KnownHyperlaneDomain :=
  | Ethereum | Goerli | Sepolia | Polygon | Mumbai | PolygonZkEvmTestnet | Avalanche
  | Fuji | Arbitrum | ArbitrumGoerli | Optimism | OptimismGoerli | BinanceSmartChain
  | BinanceSmartChainTestnet | Celo | Alfajores | Moonbeam | MoonbaseAlpha | Gnosis
  | Chiado | MantaPacific | Neutron | Injective | Test1 | Test2 | Test3 | FuelTest1
  | SealevelTest1 | SealevelTest2 | LineaGoerli | BaseGoerli | ScrollSepolia
  | CosmosTest99990 | CosmosTest99991.

(** The variants in their order ([EnumIter]). *)
Definition known_domains : list KnownHyperlaneDomain :=
  [Ethereum; Goerli; Sepolia; Polygon; Mumbai; PolygonZkEvmTestnet; Avalanche; Fuji;
   Arbitrum; ArbitrumGoerli; Optimism; OptimismGoerli; BinanceSmartChain;
   BinanceSmartChainTestnet; Celo; Alfajores; Moonbeam; MoonbaseAlpha; Gnosis; Chiado;
   MantaPacific; Neutron; Injective; Test1; Test2; Test3; FuelTest1; SealevelTest1;
   SealevelTest2; LineaGoerli; BaseGoerli; ScrollSepolia; CosmosTest99990;
   CosmosTest99991].

(** [self as u32] *)
Definition known_id (self : KnownHyperlaneDomain) : u32 :=
  uwrap 4
    match self with
    | Ethereum => 1 | Goerli => 5 | Sepolia => 11155111 | Polygon => 137
    | Mumbai => 80001 | PolygonZkEvmTestnet => 1442 | Avalanche => 43114 | Fuji => 43113
    | Arbitrum => 42161 | ArbitrumGoerli => 421613 | Optimism => 10
    | OptimismGoerli => 420 | BinanceSmartChain => 56 | BinanceSmartChainTestnet => 97
    | Celo => 42220 | Alfajores => 44787 | Moonbeam => 1284 | MoonbaseAlpha => 1287
    | Gnosis => 100 | Chiado => 10200 | MantaPacific => 169 | Neutron => 1853125230
    | Injective => 6909546 | Test1 => 13371 | Test2 => 13372 | Test3 => 13373
    | FuelTest1 => 13374 | SealevelTest1 => 13375 | SealevelTest2 => 13376
    | LineaGoerli => 59140 | BaseGoerli => 84531 | ScrollSepolia => 534351
    | CosmosTest99990 => 99990 | CosmosTest99991 => 99991
    end.

(** [KnownHyperlaneDomain::as_str] *)
Definition as_str (self : KnownHyperlaneDomain) : string :=
  match self with
  | Ethereum => "ethereum"%string | Goerli => "goerli"%string
  | Sepolia => "sepolia"%string | Polygon => "polygon"%string | Mumbai => "mumbai"%string
  | PolygonZkEvmTestnet => "polygonzkevmtestnet"%string | Avalanche => "avalanche"%string
  | Fuji => "fuji"%string | Arbitrum => "arbitrum"%string
  | ArbitrumGoerli => "arbitrumgoerli"%string | Optimism => "optimism"%string
  | OptimismGoerli => "optimismgoerli"%string | BinanceSmartChain => "bsc"%string
  | BinanceSmartChainTestnet => "bsctestnet"%string | Celo => "celo"%string
  | Alfajores => "alfajores"%string | Moonbeam => "moonbeam"%string
  | MoonbaseAlpha => "moonbasealpha"%string | Gnosis => "gnosis"%string
  | Chiado => "chiado"%string | MantaPacific => "mantapacific"%string
  | Neutron => "neutron"%string | Injective => "injective"%string
  | Test1 => "test1"%string | Test2 => "test2"%string | Test3 => "test3"%string
  | FuelTest1 => "fueltest1"%string | SealevelTest1 => "sealeveltest1"%string
  | SealevelTest2 => "sealeveltest2"%string | LineaGoerli => "lineagoerli"%string
  | BaseGoerli => "basegoerli"%string | ScrollSepolia => "scrollsepolia"%string
  | CosmosTest99990 => "cosmostest99990"%string
  | CosmosTest99991 => "cosmostest99991"%string
  end.

(** [KnownHyperlaneDomain::domain_type] *)
Definition known_domain_type (self : KnownHyperlaneDomain) : Type_.HyperlaneDomainType :=
  match self with
  | Ethereum | Avalanche | Arbitrum | Polygon | Optimism | BinanceSmartChain | Celo
  | Moonbeam | Gnosis | MantaPacific | Neutron | Injective => Type_.Mainnet
  | Goerli | Mumbai | Fuji | ArbitrumGoerli | OptimismGoerli | BinanceSmartChainTestnet
  | Alfajores | MoonbaseAlpha | Sepolia | PolygonZkEvmTestnet | LineaGoerli | BaseGoerli
  | ScrollSepolia | Chiado => Type_.Testnet
  | Test1 | Test2 | Test3 | FuelTest1 | SealevelTest1 | SealevelTest2 | CosmosTest99990
  | CosmosTest99991 => Type_.LocalTestChain
  end.

(** [KnownHyperlaneDomain::domain_protocol] *)
Definition known_domain_protocol (self : KnownHyperlaneDomain) :
    Protocol.HyperlaneDomainProtocol :=
  match self with
  | Ethereum | Goerli | Sepolia | Polygon | Mumbai | Avalanche | Fuji | Arbitrum
  | ArbitrumGoerli | Optimism | OptimismGoerli | BinanceSmartChain
  | BinanceSmartChainTestnet | Celo | Gnosis | Alfajores | Moonbeam | MoonbaseAlpha
  | PolygonZkEvmTestnet | LineaGoerli | BaseGoerli | ScrollSepolia | Chiado
  | MantaPacific | Test1 | Test2 | Test3 => Protocol.Ethereum
  | FuelTest1 => Protocol.Fuel
  | SealevelTest1 | SealevelTest2 => Protocol.Sealevel
  | CosmosTest99990 | CosmosTest99991 | Neutron | Injective => Protocol.Cosmos
  end.

(** [FromPrimitive::from_u32] *)
Definition from_u32 (domain_id : u32) : option KnownHyperlaneDomain :=
  find (λ d, bool_decide (known_id d = domain_id)) known_domains.

(** [TryFrom<u32> for KnownHyperlaneDomain] *)
Definition known_try_from (domain_id : u32) :
    outcome HyperlaneProtocolError KnownHyperlaneDomain :=
  ok_or (from_u32 domain_id) (UnknownDomainId domain_id).

(** [str::parse::<KnownHyperlaneDomain>] *)
Definition parse_known (s : string) : option KnownHyperlaneDomain :=
  find (λ d, eq_ignore_ascii_case (as_str d) s) known_domains.

Inductive HyperlaneDomain :=
  | Known (domain : KnownHyperlaneDomain)
  | UnknownDomain (domain_id : u32) (domain_name : string)
      (domain_type : Type_.HyperlaneDomainType)
      (domain_protocol : Protocol.HyperlaneDomainProtocol).

Definition name (self : HyperlaneDomain) : string :=
  match self with Known domain => as_str domain | UnknownDomain _ chain_name _ _ => chain_name end.

Definition id (self : HyperlaneDomain) : u32 :=
  match self with Known domain => known_id domain | UnknownDomain domain_id _ _ _ => domain_id end.

Definition domain_type (self : HyperlaneDomain) : Type_.HyperlaneDomainType :=
  match self with
  | Known domain => known_domain_type domain
  | UnknownDomain _ _ domain_type _ => domain_type
  end.

Definition domain_protocol (self : HyperlaneDomain) : Protocol.HyperlaneDomainProtocol :=
  match self with
  | Known domain => known_domain_protocol domain
  | UnknownDomain _ _ _ domain_protocol => domain_protocol
  end.

(** [PartialEq for HyperlaneDomain] *)
Definition domain_eq (self other : HyperlaneDomain) : bool := bool_decide (id self = id other).

Definition is_arbitrum_nitro (self : HyperlaneDomain) : bool :=
  match self with Known (Arbitrum | ArbitrumGoerli) => true | _ => false end.

Definition is_injective (self : HyperlaneDomain) : bool :=
  match self with Known Injective => true | _ => false end.

Definition index_mode (self : HyperlaneDomain) : IndexMode :=
  match domain_protocol self with
  | Protocol.Ethereum | Protocol.Cosmos => Block
  | Protocol.Sealevel | Protocol.Fuel => Sequence
  end.

Inductive HyperlaneDomainConfigError :=
  | UnknownDomainName (name : string)
  | DomainNameMismatch (name : string) (domain_id : u32).

(** [HyperlaneDomain::from_config] *)
Definition from_config (domain_id : u32) (name : string)
    (protocol : Protocol.HyperlaneDomainProtocol) :
    outcome HyperlaneDomainConfigError HyperlaneDomain :=
  let name := to_ascii_lowercase name in
  match known_try_from domain_id with
  | Ok domain =>
      if bool_decide (name = to_ascii_lowercase (as_str domain)) then Ok (Known domain)
      else Err (UnknownDomainName name)
  | _ =>
      match parse_known name with
      | Some _ => Err (DomainNameMismatch name domain_id)
      | None => Ok (UnknownDomain domain_id name Type_.Unknown protocol)
      end
  end.

(** ** Lemmas *)

Lemma from_u32_id d : from_u32 (known_id d) = Some d.
Proof. destruct d; vm_compute; reflexivity. Qed.

#[export] Instance known_id_inj : Inj (=) (=) known_id.
Proof. intros a b Hab. apply (inj Some). by rewrite <- !from_u32_id, Hab. Qed.

#[export] Instance KnownHyperlaneDomain_eq_dec : EqDecision KnownHyperlaneDomain.
Proof.
  intros a b. destruct (decide (known_id a = known_id b)); [left; by apply (inj known_id)|].
  right. congruence.
Defined.

Lemma from_u32_some n d : from_u32 n = Some d <-> known_id d = n.
Proof.
  split; [|intros <-; apply from_u32_id]. unfold from_u32. intros Hf.
  apply find_some in Hf as [_ Hf]. by apply bool_decide_eq_true_1 in Hf.
Qed.

Lemma ascii_lower_idem c : ascii_lower (ascii_lower c) = ascii_lower c.
Proof. destruct c as [[] [] [] [] [] [] [] []]; vm_compute; reflexivity. Qed.

Lemma lower_idem s : to_ascii_lowercase (to_ascii_lowercase s) = to_ascii_lowercase s.
Proof. induction s as [|c s IH]; [done|]. cbn. by rewrite ascii_lower_idem, IH. Qed.

Lemma lower_as_str d : to_ascii_lowercase (as_str d) = as_str d.
Proof. destruct d; vm_compute; reflexivity. Qed.

Lemma parse_as_str d : parse_known (as_str d) = Some d.
Proof. destruct d; vm_compute; reflexivity. Qed.

Lemma parse_known_some s d : parse_known s = Some d <-> to_ascii_lowercase s = as_str d.
Proof.
  unfold parse_known. split; intros Hf.
  - apply find_some in Hf as [_ Hf]. apply bool_decide_eq_true_1 in Hf.
    rewrite lower_as_str in Hf. congruence.
  - rewrite <- (parse_as_str d). unfold parse_known, eq_ignore_ascii_case.
    by rewrite Hf, lower_as_str.
Qed.

(** The domain a configuration makes is the one it names. [from_config] makes the known domain
    of its number exactly when the name is the name of that domain in any case; a number that
    is not known makes a domain of its own exactly when the name is not the name of a known
    domain. Either way the domain has the number and the lower-case name of the configuration,
    and a known domain has its number, its name and its protocol from the tables, which do not
    repeat a number or a name. *)
Theorem from_config_spec domain_id nm protocol :
  (forall d, from_config domain_id nm protocol = Ok d <->
     (exists k, d = Known k /\ known_id k = domain_id /\ to_ascii_lowercase nm = as_str k) \/
     (d = UnknownDomain domain_id (to_ascii_lowercase nm) Type_.Unknown protocol /\
      forall k, known_id k <> domain_id /\ to_ascii_lowercase nm <> as_str k)) /\
  (forall d, from_config domain_id nm protocol = Ok d ->
     id d = domain_id /\ name d = to_ascii_lowercase nm) /\
  from_config domain_id nm protocol <> Panic /\
  (forall k k', known_id k = known_id k' \/ as_str k = as_str k' -> k = k').
Proof.
  assert (Hfst : forall d, from_config domain_id nm protocol = Ok d <->
     (exists k, d = Known k /\ known_id k = domain_id /\ to_ascii_lowercase nm = as_str k) \/
     (d = UnknownDomain domain_id (to_ascii_lowercase nm) Type_.Unknown protocol /\
      forall k, known_id k <> domain_id /\ to_ascii_lowercase nm <> as_str k)).
  { intros d. unfold from_config, known_try_from.
    destruct (from_u32 domain_id) as [k|] eqn:Hk; cbn [ok_or].
    - apply from_u32_some in Hk as <-. rewrite lower_as_str. case_bool_decide; naive_solver.
    - assert (Hn : forall k, known_id k <> domain_id).
      { intros k Hk'. apply from_u32_some in Hk'. congruence. }
      destruct (parse_known _) as [k|] eqn:Hp.
      + apply parse_known_some in Hp. rewrite lower_idem in Hp. naive_solver.
      + assert (forall k, to_ascii_lowercase nm <> as_str k).
        { intros k Hk'. rewrite <- lower_idem in Hk'. apply parse_known_some in Hk'. congruence. }
        naive_solver. }
  split_and!; [exact Hfst| | |].
  - intros d Hd. apply Hfst in Hd as [(k & -> & <- & Hk)|[-> _]]; by rewrite ?Hk.
  - unfold from_config. repeat case_match; done.
  - intros k k' [He|He]; [by apply (inj known_id)|].
    apply (inj Some). by rewrite <- !parse_as_str, He.
Qed.

Lemma from_config_spec_witness :
  from_config (known_id Ethereum) "Ethereum" Protocol.Ethereum = Ok (Known Ethereum) /\
  id (Known Ethereum) = known_id Ethereum /\ name (Known Ethereum) = "ethereum"%string.
Proof.
  destruct (from_config_spec (known_id Ethereum) "Ethereum" Protocol.Ethereum) as (Hd & Hn & _).
  assert (Hc : from_config (known_id Ethereum) "Ethereum" Protocol.Ethereum = Ok (Known Ethereum)).
  { apply Hd. left. exists Ethereum. split_and!; [done|done|vm_compute; reflexivity]. }
  split; [exact Hc|]. exact (Hn _ Hc).
Defined.
End Domain.
