(* ===== verification/MerkleSpec.v ===== *)
(** * The reference Merkle tree and the trees that represent it

    [droot d f] is the root of the complete binary tree of depth [d] whose leaf number [i] is
    [f i]; [dpath] and [dleaf] are its authentication paths and leaves. [stub d f t] says that
    the sparse tree [t] stands for that complete tree, with some subtrees replaced by their
    root; [opened] says that the path to an index is not cut off by such a stub. The lemmas
    carry the proofs of [MerkleCorrect] and [SparseCorrect]. *)

From S2P Require Import Prelude.
From S2P Require Import Codec.
From S2P Require Import Keccak.
From S2P Require Import Accumulator.
From stdpp Require Import base list numbers.
From Stdlib Require Import ZArith Lia.

Import MerkleTree.
#[local] Open Scope nat_scope.

(** What the constants [ZERO_HASHES] promise: they are the roots of the all-zero trees for the
    hash function in use. *)
Class ZeroHashes `{Keccak256} : Prop :=
  zero_hashes_next i h h' :
    ZERO_HASHES !! i = Some h -> ZERO_HASHES !! S i = Some h' -> hash_concat h h = h'.

Lemma length_ZERO_HASHES : length ZERO_HASHES = 33.
Proof. reflexivity. Qed.

Lemma ZERO_HASHES_0 : ZERO_HASHES !! 0 = Some H256_zero.
Proof. simpl. f_equal; by apply uint_eq. Qed.

Lemma ZERO_HASHES_lookup d : d <= 32 -> exists z, ZERO_HASHES !! d = Some z.
Proof. intros. apply lookup_lt_is_Some_2. rewrite length_ZERO_HASHES. lia. Qed.

Lemma ZERO_NODES_lookup d : d <= 32 -> ZERO_NODES !! d = Some (Zero d).
Proof. intros. do 33 (destruct d as [|d]; [reflexivity|]). lia. Qed.

(** The bit test of the source. *)
Lemma bit_test (x : Z) (k : nat) :
  (Z.land (Z.shiftr x (Z.of_nat k)) 1 =? 1)%Z = Z.testbit x (Z.of_nat k).
Proof.
  pose proof (Z.land_ones (Z.shiftr x (Z.of_nat k)) 1 ltac:(lia)) as Hl.
  change (Z.ones 1) with 1%Z in Hl. rewrite Hl. change (2 ^ 1)%Z with 2%Z.
  rewrite <- Z.bit0_mod, Z.shiftr_spec by lia. rewrite Z.add_0_l.
  by destruct (Z.testbit x (Z.of_nat k)).
Qed.

(** The position that the low [d] bits of an index spell. *)
Definition pos (d : nat) (idx : Z) : nat := Z.to_nat (idx mod 2 ^ Z.of_nat d).

Lemma pow2_Z d : Z.of_nat (2 ^ d) = (2 ^ Z.of_nat d)%Z.
Proof. rewrite Nat2Z.inj_pow. reflexivity. Qed.

Lemma pos_0 idx : pos 0 idx = 0.
Proof. unfold pos. by rewrite Z.mod_1_r. Qed.

Lemma pos_S d idx :
  pos (S d) idx = (if Z.testbit idx (Z.of_nat d) then 2 ^ d else 0) + pos d idx.
Proof.
  unfold pos. rewrite <- !Z.land_ones by lia.
  assert (Hs : Z.land idx (Z.ones (Z.of_nat (S d))) =
          (Z.b2z (Z.testbit idx (Z.of_nat d)) * 2 ^ Z.of_nat d
           + Z.land idx (Z.ones (Z.of_nat d)))%Z).
  { rewrite !Z.land_ones by lia. rewrite Nat2Z.inj_succ, Z.pow_succ_r by lia.
    rewrite (Z.mul_comm 2), Z.rem_mul_r by lia.
    rewrite <- Z.shiftr_div_pow2, <- Z.bit0_mod, Z.shiftr_spec by lia.
    rewrite Z.add_0_l. lia. }
  rewrite Hs. pose proof (pow2_Z d).
  assert (0 <= Z.land idx (Z.ones (Z.of_nat d)))%Z.
  { rewrite Z.land_ones by lia. apply Z.mod_pos_bound. lia. }
  destruct (Z.testbit idx (Z.of_nat d)); simpl Z.b2z; lia.
Qed.

Lemma pos_lt d idx : pos d idx < 2 ^ d.
Proof.
  unfold pos. pose proof (pow2_Z d).
  pose proof (Z.mod_pos_bound idx (2 ^ Z.of_nat d) ltac:(lia)). lia.
Qed.

Lemma pos_small d idx : (0 <= idx < 2 ^ Z.of_nat d)%Z -> pos d idx = Z.to_nat idx.
Proof. intros. unfold pos. by rewrite Z.mod_small. Qed.

(** ** The complete tree over a leaf function *)

Definition rhalf (d : nat) (f : nat -> H256) : nat -> H256 := λ i, f (2 ^ d + i).

Definition leaf_at (l : list H256) (i : nat) : H256 := default H256_zero (l !! i).

(** The first [n + 1] leaves of [f], the others zero. *)
Definition trunc (n : nat) (f : nat -> H256) (i : nat) : H256 :=
  if i <=? n then f i else H256_zero.

Section complete.
Context `{Keccak256}.

Fixpoint droot (d : nat) (f : nat -> H256) : H256 :=
  match d with
  | O => f 0
  | S d => hash_concat (droot d f) (droot d (rhalf d f))
  end.

Fixpoint dleaf (d : nat) (f : nat -> H256) (idx : Z) : H256 :=
  match d with
  | O => f 0
  | S d => if Z.testbit idx (Z.of_nat d) then dleaf d (rhalf d f) idx else dleaf d f idx
  end.

(** The siblings from the leaf up. *)
Fixpoint dpath (d : nat) (f : nat -> H256) (idx : Z) : list H256 :=
  match d with
  | O => []
  | S d =>
      if Z.testbit idx (Z.of_nat d) then dpath d (rhalf d f) idx ++ [droot d f]
      else dpath d f idx ++ [droot d (rhalf d f)]
  end.

Lemma length_dpath d f idx : length (dpath d f idx) = d.
Proof.
  revert f. induction d as [|d IH]; intros f; simpl; [done|].
  case_match; rewrite length_app, IH; simpl; lia.
Qed.

Lemma dleaf_pos d f idx : dleaf d f idx = f (pos d idx).
Proof.
  revert f. induction d as [|d IH]; intros f; simpl; [by rewrite pos_0|].
  rewrite pos_S. case_match; rewrite IH; unfold rhalf; f_equal; lia.
Qed.

Lemma droot_ext d f g : (forall i, i < 2 ^ d -> f i = g i) -> droot d f = droot d g.
Proof.
  revert f g. induction d as [|d IH]; intros f g Hfg; simpl; [apply Hfg; simpl; lia|].
  simpl in Hfg. f_equal; apply IH; intros i Hi; unfold rhalf; apply Hfg; lia.
Qed.

Lemma rhalf_ext d f g :
  (forall i, i < 2 ^ S d -> f i = g i) -> forall i, i < 2 ^ d -> rhalf d f i = rhalf d g i.
Proof. intros Hfg i Hi. apply Hfg. simpl. lia. Qed.

Lemma half_ext d (f g : nat -> H256) :
  (forall i, i < 2 ^ S d -> f i = g i) -> forall i, i < 2 ^ d -> f i = g i.
Proof. intros Hfg i Hi. apply Hfg. simpl. lia. Qed.

Lemma droot_zero `{!ZeroHashes} d f z :
  ZERO_HASHES !! d = Some z -> (forall i, i < 2 ^ d -> f i = H256_zero) -> droot d f = z.
Proof.
  revert f z. induction d as [|d IH]; intros f z Hz Hf.
  - rewrite ZERO_HASHES_0 in Hz. simplify_eq. apply Hf. simpl. lia.
  - pose proof (lookup_lt_Some _ _ _ Hz) as Hlt. rewrite length_ZERO_HASHES in Hlt.
    destruct (ZERO_HASHES_lookup d) as [z' Hz']; [lia|].
    simpl. rewrite (IH f z' Hz'), (IH (rhalf d f) z' Hz').
    + by eapply zero_hashes_next.
    + intros i Hi. apply Hf. simpl. lia.
    + intros i Hi. apply Hf. simpl. lia.
Qed.

Lemma droot_hash_zero `{!ZeroHashes} d f :
  d <= 32 -> (forall i, i < 2 ^ d -> f i = H256_zero) -> ZERO_HASHES !! d = Some (droot d f).
Proof.
  intros Hd Hf. destruct (ZERO_HASHES_lookup d Hd) as [z Hz].
  by rewrite (droot_zero d f z).
Qed.

(** ** Sparse trees that stand for a complete tree *)

Inductive stub : nat -> (nat -> H256) -> MerkleTree -> Prop :=
  | stub_leaf d f : stub d f (Leaf (droot d f))
  | stub_zero d f :
      d <= 32 -> (forall i, i < 2 ^ d -> f i = H256_zero) -> stub d f (Zero d)
  | stub_node d f l r :
      stub d f l -> stub d (rhalf d f) r -> stub (S d) f (Node (droot (S d) f) l r).

(** The path to [idx] is open down to the leaves. *)
Fixpoint opened (d : nat) (idx : Z) (t : MerkleTree) : Prop :=
  match d with
  | O => True
  | S d =>
      match t with
      | Leaf _ => False
      | Zero _ => True
      | Node _ l r => if Z.testbit idx (Z.of_nat d) then opened d idx r else opened d idx l
      end
  end.

#[local] Hint Constructors stub : core.

Lemma stub_ext d f g t : (forall i, i < 2 ^ d -> f i = g i) -> stub d f t -> stub d g t.
Proof.
  intros Hfg Hs. revert g Hfg.
  induction Hs as [d f|d f Hd Hf|d f l r _ IHl _ IHr]; intros g Hfg.
  - rewrite (droot_ext d f g Hfg). auto.
  - apply stub_zero; [done|]. intros i Hi. rewrite <- Hfg; auto.
  - rewrite (droot_ext (S d) f g Hfg). constructor.
    + apply IHl. by apply half_ext.
    + apply IHr. by apply rhalf_ext.
Qed.

Context `{!ZeroHashes}.

Lemma hash_stub d f t : stub d f t -> hash t = Some (droot d f).
Proof. destruct 1; simpl; [done| |done]. by apply droot_hash_zero. Qed.

Lemma generate_proof_loop_stub d f t idx acc :
  stub d f t -> opened d idx t ->
  exists t', generate_proof_loop t idx d acc = Some (t', acc ++ rev (dpath d f idx)) /\
             hash t' = Some (dleaf d f idx).
Proof.
  revert f t acc. induction d as [|d IH]; intros f t acc Hs Ho.
  { exists t. simpl. rewrite app_nil_r. split; [done|]. by rewrite (hash_stub _ _ _ Hs). }
  assert (Hbr : exists l r, left_and_right_branches t = Some (Some (l, r)) /\
      stub d f l /\ stub d (rhalf d f) r /\
      (if Z.testbit idx (Z.of_nat d) then opened d idx r else opened d idx l)).
  { inversion Hs as [|d' f' Hd Hf|d' f' l r Hl Hr]; subst; simpl in Ho; [done| |by eauto 8].
    exists (Zero d), (Zero d). simpl. rewrite ZERO_NODES_lookup by lia.
    repeat split.
    - apply stub_zero; [lia|]. by apply (half_ext d f (λ _, H256_zero)).
    - apply stub_zero; [lia|]. by apply (rhalf_ext d f (λ _, H256_zero)).
    - case_match; destruct d; done. }
  destruct Hbr as (l & r & Hbr & Hl & Hr & Hop).
  cbn [generate_proof_loop dpath dleaf]. rewrite Hbr, bit_test. simpl.
  destruct (Z.testbit idx (Z.of_nat d)).
  - rewrite (hash_stub _ _ _ Hl). simpl.
    destruct (IH _ _ (acc ++ [droot d f]) Hr Hop) as (t' & Ht' & Hh).
    exists t'. by rewrite Ht', rev_app_distr, <- app_assoc.
  - rewrite (hash_stub _ _ _ Hr). simpl.
    destruct (IH _ _ (acc ++ [droot d (rhalf d f)]) Hl Hop) as (t' & Ht' & Hh).
    exists t'. by rewrite Ht', rev_app_distr, <- app_assoc.
Qed.

Lemma generate_proof_stub d f t idx :
  stub d f t -> opened d idx t ->
  generate_proof t idx d = Some (dleaf d f idx, dpath d f idx).
Proof.
  intros Hs Ho. unfold generate_proof.
  destruct (generate_proof_loop_stub d f t idx [] Hs Ho) as (t' & -> & Hh).
  simpl. rewrite Hh. simpl. by rewrite rev_involutive.
Qed.

(** ** Roots from paths *)

Lemma root_from_branch_loop_app h p q i idx :
  root_from_branch_loop h (p ++ q) i idx =
  root_from_branch_loop (root_from_branch_loop h p i idx) q (i + length p) idx.
Proof.
  revert h i. induction p as [|x p IH]; intros h i; simpl.
  - by rewrite Nat.add_0_r.
  - rewrite IH. f_equal. lia.
Qed.

(** What [merkle_root_from_branch] hashes along a branch. *)
Fixpoint branch_inputs (current : H256) (branch : list H256) (i : nat) (idx : Z) :
    list bytes :=
  match branch with
  | [] => []
  | next :: branch =>
      let input :=
        if Z.testbit idx (Z.of_nat i) then to_be next ++ to_be current
        else to_be current ++ to_be next in
      input :: branch_inputs (keccak256 input) branch (S i) idx
  end.

Lemma branch_inputs_app h p q i idx :
  branch_inputs h (p ++ q) i idx =
  branch_inputs h p i idx
  ++ branch_inputs (root_from_branch_loop h p i idx) q (i + length p) idx.
Proof.
  revert h i. induction p as [|x p IH]; intros h i; simpl; [by rewrite Nat.add_0_r|].
  rewrite IH, bit_test. unfold hash_concat. rewrite <- Nat.add_succ_comm.
  by destruct (Z.testbit idx (Z.of_nat i)).
Qed.

Lemma root_from_dpath d f idx :
  root_from_branch_loop (dleaf d f idx) (dpath d f idx) 0 idx = droot d f.
Proof.
  revert f. induction d as [|d IH]; intros f; [done|].
  cbn [dleaf dpath droot].
  destruct (Z.testbit idx (Z.of_nat d)) eqn:Hb;
    rewrite root_from_branch_loop_app, length_dpath, IH; cbn [root_from_branch_loop];
    rewrite Nat.add_0_l, bit_test, Hb; done.
Qed.

Lemma merkle_root_from_dpath d f idx :
  merkle_root_from_branch (dleaf d f idx) (dpath d f idx) d idx = Some (droot d f).
Proof.
  unfold merkle_root_from_branch. rewrite length_dpath, Nat.eqb_refl.
  rewrite firstn_all2 by (rewrite length_dpath; lia). by rewrite root_from_dpath.
Qed.
End complete.

#[export] Hint Constructors stub : core.

(** The executable hash satisfies the promise: the 33 constants are its zero-tree roots. *)
Lemma zero_hashes_concrete : @ZeroHashes keccak_concrete.
Proof.
  intros i h h' Hi Hi'.
  assert (Hall : forallb (λ i, match ZERO_HASHES !! i, ZERO_HASHES !! S i with
            | Some h, Some h' => bool_decide (@hash_concat keccak_concrete h h = h')
            | _, _ => true end) (seq 0 32) = true) by (vm_compute; reflexivity).
  rewrite forallb_forall in Hall.
  specialize (Hall i). rewrite Hi, Hi' in Hall.
  apply (bool_decide_eq_true_1 _), Hall, in_seq.
  apply lookup_lt_Some in Hi'. rewrite length_ZERO_HASHES in Hi'. lia.
Qed.
