(* ===== verification/MerkleCorrect.v ===== *)
(** * Correctness of the full Merkle tree

    [create] and [push_leaf] build the tree that represents the list of leaves ([ctree]),
    [hash] is the root of the complete zero-padded tree, proofs verify, and the incremental
    tree computes the same root from its 32 hashes. *)

From S2P Require Import Prelude.
From S2P Require Import Codec.
From S2P Require Import Keccak.
From S2P Require Import Accumulator.
From S2P Require Import MerkleSpec.
From stdpp Require Import base list numbers sets.
From Stdlib Require Import ZArith Lia.

Import MerkleTree.
#[local] Open Scope nat_scope.

(** The root of the depth-[d] tree whose leaves are [l] padded with zeros. *)
Definition tree_root `{Keccak256} (d : nat) (l : list H256) : H256 := droot d (leaf_at l).

Lemma leaf_at_app_l l k i : i < length l -> leaf_at (l ++ k) i = leaf_at l i.
Proof. intros. unfold leaf_at. by rewrite lookup_app_l. Qed.

Lemma leaf_at_ge l i : length l <= i -> leaf_at l i = H256_zero.
Proof. intros. unfold leaf_at. by rewrite lookup_ge_None_2. Qed.

Lemma leaf_at_take n l i : i < n -> leaf_at (take n l) i = leaf_at l i.
Proof. intros. unfold leaf_at. by rewrite lookup_take_lt. Qed.

Lemma leaf_at_drop n l i : leaf_at (drop n l) i = leaf_at l (n + i).
Proof. unfold leaf_at. by rewrite lookup_drop. Qed.

Lemma leaf_at_take_trunc n l i : leaf_at (take (S n) l) i = trunc n (leaf_at l) i.
Proof.
  unfold trunc. destruct (i <=? n) eqn:Hi.
  - apply Nat.leb_le in Hi. apply leaf_at_take. lia.
  - apply Nat.leb_gt in Hi. apply leaf_at_ge. rewrite length_take. lia.
Qed.

Section correct.
Context `{Keccak256, !ZeroHashes}.

(** The tree built from a list of leaves. *)
Fixpoint ctree (d : nat) (l : list H256) : MerkleTree :=
  match l with
  | [] => Zero d
  | x :: _ =>
      match d with
      | O => Leaf x
      | S d => Node (tree_root (S d) l) (ctree d (take (2 ^ d) l)) (ctree d (drop (2 ^ d) l))
      end
  end.

Lemma ctree_nil d : ctree d [] = Zero d.
Proof. by destruct d. Qed.

Lemma ctree_S d l :
  l <> [] ->
  ctree (S d) l = Node (tree_root (S d) l) (ctree d (take (2 ^ d) l)) (ctree d (drop (2 ^ d) l)).
Proof. by destruct l. Qed.

Lemma tree_root_S d l :
  tree_root (S d) l =
  hash_concat (tree_root d (take (2 ^ d) l)) (tree_root d (drop (2 ^ d) l)).
Proof.
  unfold tree_root. simpl. f_equal; apply droot_ext; intros i Hi.
  - by rewrite leaf_at_take.
  - by rewrite leaf_at_drop.
Qed.

Lemma stub_ctree d l : d <= 32 -> stub d (leaf_at l) (ctree d l).
Proof.
  revert l. induction d as [|d IH]; intros [|x l] Hd.
  - by apply stub_zero.
  - apply (stub_leaf 0 (leaf_at (x :: l))).
  - by apply stub_zero.
  - rewrite ctree_S by done. apply stub_node.
    + eapply stub_ext; [|apply IH; lia]. intros. by apply leaf_at_take.
    + eapply stub_ext; [|apply IH; lia]. intros. apply leaf_at_drop.
Qed.

Lemma opened_ctree d l idx : opened d idx (ctree d l).
Proof.
  revert l. induction d as [|d IH]; intros l; simpl; [done|].
  destruct l; simpl; [done|]. case_match; apply IH.
Qed.

Lemma hash_ctree d l : d <= 32 -> hash (ctree d l) = Some (tree_root d l).
Proof. intros. by apply hash_stub, stub_ctree. Qed.

Lemma create_ctree d l : d <= 32 -> create l d = Some (ctree d l).
Proof.
  revert l. induction d as [|d IH]; intros [|x l] Hd; try done.
  cbn [create]. set (k := x :: l).
  assert (Hsplit : (if (Z.of_nat (length k) <=? 2 ^ Z.of_nat d)%Z then (k, [])
            else (take (Z.to_nat (2 ^ Z.of_nat d)) k, drop (Z.to_nat (2 ^ Z.of_nat d)) k))
          = (take (2 ^ d) k, drop (2 ^ d) k)).
  { rewrite <- pow2_Z, Nat2Z.id. case_match eqn:Hc; [|done].
    rewrite firstn_all2, skipn_all2 by lia. done. }
  rewrite Hsplit, !IH by lia. simpl mbind.
  rewrite !hash_ctree by lia. simpl. by rewrite tree_root_S.
Qed.

Lemma create_hash d l : d <= 32 -> (t ← create l d; hash t) = Some (tree_root d l).
Proof. intros. rewrite create_ctree by done. by apply hash_ctree. Qed.

#[local] Arguments ctree : simpl never.

(** *** Pushing a leaf *)

Lemma take_snoc_le {A} n (l : list A) e :
  n <= length l -> take n (l ++ [e]) = take n l.
Proof. intros. by rewrite take_app_le. Qed.

Lemma rehash_ctree d l a b :
  S d <= 32 -> l <> [] ->
  a = ctree d (take (2 ^ d) l) -> b = ctree d (drop (2 ^ d) l) ->
  (lh ← hash a; rh ← hash b; Some (Node (hash_concat lh rh) a b, Ok (E := MerkleTreeError) tt))
  = Some (ctree (S d) l, Ok tt).
Proof.
  intros Hd Hl -> ->. rewrite !hash_ctree by lia.
  by rewrite ctree_S, tree_root_S by done.
Qed.

Lemma push_leaf_node d l e :
  S (S d) <= 32 -> l <> [] ->
  let L := ctree (S d) (take (2 ^ S d) l) in
  let R := ctree (S d) (drop (2 ^ S d) l) in
  let rehash (a b : MerkleTree) :=
    lh ← hash a; rh ← hash b;
    Some (Node (hash_concat lh rh) a b, Ok (E := MerkleTreeError) tt) in
  push_leaf (ctree (S (S d)) l) e (S (S d)) =
  if decide (length l <= 2 ^ S d) then
    '(L', res) ← push_leaf L e (S d);
    match res with
    | Ok _ => rehash L' R
    | Err MerkleTreeFull => R' ← create [e] (S d); rehash L' R'
    | Err err => Some (Node (tree_root (S (S d)) l) L' R, Err err)
    | Panic => None
    end
  else
    '(R', res) ← push_leaf R e (S d);
    match res with
    | Ok _ => rehash L R'
    | Err err => Some (Node (tree_root (S (S d)) l) L R', Err err)
    | Panic => None
    end.
Proof.
  intros Hd Hl L R rehash.
  assert (HL : exists a b, L = Node (tree_root (S d) (take (2 ^ S d) l)) a b).
  { unfold L. rewrite ctree_S; [by eauto|]. destruct l; [done|].
    pose proof (Nat.pow_nonzero 2 (S d)). destruct (2 ^ S d); [lia|done]. }
  destruct HL as (a & b & HL).
  rewrite ctree_S by done. fold L R. cbn [push_leaf]. rewrite HL.
  case_decide as Hlen.
  - assert (HR : R = Zero (S d)).
    { unfold R. rewrite skipn_all2 by lia. apply ctree_nil. }
    rewrite HR. destruct (push_leaf _ e (S d)) as [[? [| |]]|]; reflexivity.
  - assert (HR : exists a b, R = Node (tree_root (S d) (drop (2 ^ S d) l)) a b).
    { unfold R. rewrite ctree_S; [by eauto|]. intros Hn.
      apply (f_equal length) in Hn. rewrite length_drop in Hn. simpl length in Hn. lia. }
    destruct HR as (a' & b' & HR). rewrite HR. reflexivity.
Qed.

Lemma push_leaf_ctree d l e :
  1 <= d <= 32 -> length l <= 2 ^ d ->
  push_leaf (ctree d l) e d =
  Some (if decide (length l < 2 ^ d) then (ctree d (l ++ [e]), Ok tt)
        else (ctree d l, Err MerkleTreeFull)).
Proof.
  revert l. induction d as [|[|d] IH]; intros l Hd Hl; [lia| |].
  - destruct l as [|x [|y [|z l]]]; simpl in Hl; try lia.
    + rewrite ctree_nil. cbn [push_leaf]. by rewrite create_ctree by lia.
    + change (ctree 1 [x]) with (Node (tree_root 1 [x]) (Leaf x) (Zero 0)).
      cbn [push_leaf]. rewrite create_ctree by lia. rewrite some_bind.
      rewrite decide_True by (simpl; lia).
      by apply (rehash_ctree 0 [x; e] (Leaf x) (Leaf e)); [lia|..].
    + rewrite decide_False by (simpl; lia). done.
  - destruct (decide (l = [])) as [->|Hne].
    { rewrite ctree_nil. cbn [push_leaf]. rewrite create_ctree by lia.
      rewrite decide_True; [done|]. apply Nat.neq_0_lt_0, Nat.pow_nonzero. lia. }
    assert (Hp : 2 ^ S (S d) = 2 ^ S d + 2 ^ S d) by (simpl; lia).
    assert (0 < 2 ^ S d) by (apply Nat.neq_0_lt_0, Nat.pow_nonzero; lia).
    rewrite push_leaf_node by (lia || done). case_decide as Hhalf.
    + rewrite IH by (rewrite ?length_take; lia). rewrite length_take.
      rewrite firstn_all2 by lia. rewrite skipn_all2 by lia.
      rewrite Nat.min_r by lia. case_decide as Hlt; rewrite some_bind.
      * rewrite decide_True by lia. rewrite (rehash_ctree (S d) (l ++ [e])); [done|lia|by destruct l|..].
        -- by rewrite firstn_all2 by (rewrite length_app; simpl length; lia).
        -- by rewrite skipn_all2, ctree_nil by (rewrite length_app; simpl length; lia).
      * rewrite create_ctree by lia. rewrite some_bind. rewrite decide_True by lia.
        rewrite (rehash_ctree (S d) (l ++ [e])); [done|lia|by destruct l|..].
        -- by rewrite take_app_exact by lia.
        -- by rewrite drop_app_exact by lia.
    + rewrite IH by (rewrite ?length_drop; lia). rewrite length_drop.
      destruct (decide (length l < 2 ^ S (S d))) as [Hlt|Hge].
      * rewrite decide_True by lia. rewrite some_bind.
        rewrite (rehash_ctree (S d) (l ++ [e])); [done|lia|by destruct l|..].
        -- by rewrite take_snoc_le by lia.
        -- by rewrite drop_app_le by lia.
      * rewrite decide_False by lia. rewrite some_bind. by rewrite (ctree_S (S d) l) by done.
Qed.

(** *** Soundness of proofs *)

Lemma hash_concat_inj a b a' b' :
  hash_concat a b = hash_concat a' b' ->
  (a = a' /\ b = b') \/ collision [to_be a ++ to_be b] [to_be a' ++ to_be b'].
Proof.
  unfold hash_concat. intros E. apply keccak256_inj in E as [E|]; [left|by right].
  apply app_inj_1 in E as [Ea Eb]; [|by rewrite !length_to_be].
  split; by apply to_be_inj.
Qed.

(** A branch with the right root is the tree's own, or differs from it in a hashed input. *)
Lemma root_from_branch_sound d f h p idx :
  length p = d -> root_from_branch_loop h p 0 idx = droot d f ->
  h = dleaf d f idx \/
  collision (branch_inputs h p 0 idx) (branch_inputs (dleaf d f idx) (dpath d f idx) 0 idx).
Proof.
  revert f p. induction d as [|d IH]; intros f p Hp Hr.
  { destruct p; [|done]. by left. }
  destruct p as [|x p _] using rev_ind; [done|].
  rewrite length_app in Hp. cbn [length] in Hp. assert (Hd : length p = d) by lia.
  rewrite root_from_branch_loop_app, Nat.add_0_l, Hd in Hr.
  cbn [root_from_branch_loop droot dleaf dpath] in *. rewrite bit_test in Hr.
  destruct (Z.testbit idx (Z.of_nat d)) eqn:Hbit;
    rewrite !branch_inputs_app, root_from_dpath, !Nat.add_0_l, length_dpath, Hd;
    cbn [branch_inputs]; rewrite Hbit;
    (apply hash_concat_inj in Hr as [[H1 H2]|Hc];
     [ first [destruct (IH _ _ Hd H1) as [|Hc]|destruct (IH _ _ Hd H2) as [|Hc]];
       [by left|right; by apply collision_app_l]
     | right; by apply collision_app_r]).
Qed.
End correct.
