(* ===== verification/IncrementalCorrect.v ===== *)
(** * Correctness of the incremental Merkle tree

    [incr_ok t l]: the branch [t] holds, at every level where the number of leaves has a one
    bit, the root of the last full block of that size of the list of leaves [l]. [ingest]
    preserves it and [root] computes from it the root of the complete zero-padded tree. *)

From S2P Require Import Prelude.
From S2P Require Import Codec.
From S2P Require Import Keccak.
From S2P Require Import Accumulator.
From S2P Require Import MerkleSpec.
From S2P Require Import MerkleCorrect.
From stdpp Require Import base list numbers.
From Stdlib Require Import ZArith Lia.

Import MerkleTree.
#[local] Open Scope nat_scope.

Definition shiftn (a : nat) (f : nat -> H256) : nat -> H256 := λ i, f (a + i).

(** The start of the last block of size [2 ^ k] that [n] leaves fill when bit [k] of [n] is
    set. *)
Definition block (k n : nat) : nat := (n / 2 ^ S k) * 2 ^ S k.

Lemma land1_odd x : (Z.land (Z.of_nat x) 1 =? 1)%Z = Nat.odd x.
Proof.
  pose proof (Z.land_ones (Z.of_nat x) 1 ltac:(lia)) as Hl.
  change (Z.ones 1) with 1%Z in Hl. rewrite Hl. change (2 ^ 1)%Z with 2%Z.
  pose proof (Nat.div2_odd x) as Hx. destruct (Nat.odd x); simpl Nat.b2n in Hx.
  - apply Z.eqb_eq. Z.to_euclidean_division_equations. lia.
  - apply Z.eqb_neq. Z.to_euclidean_division_equations. lia.
Qed.

Lemma half_Z x : (Z.of_nat x / 2)%Z = Z.of_nat (x / 2).
Proof. by rewrite Nat2Z.inj_div. Qed.

Lemma pow_pos k : 0 < 2 ^ k.
Proof. apply Nat.neq_0_lt_0, Nat.pow_nonzero. lia. Qed.

Lemma div_pow_S n i : n / 2 ^ i / 2 = n / 2 ^ S i.
Proof. rewrite Nat.Div0.div_div. f_equal. simpl. lia. Qed.

(** The quotient by a power of two, in halves. *)
Lemma div_pow_odd n i :
  n / 2 ^ i = 2 * (n / 2 ^ S i) + (if Nat.odd (n / 2 ^ i) then 1 else 0).
Proof.
  rewrite <- div_pow_S. rewrite (Nat.div_mod_eq (n / 2 ^ i) 2) at 1.
  f_equal. rewrite <- Nat.bit0_mod, Nat.bit0_odd. by destruct (Nat.odd _).
Qed.

Lemma div_pow_bounds n i : (n / 2 ^ i) * 2 ^ i <= n < (n / 2 ^ i) * 2 ^ i + 2 ^ i.
Proof.
  pose proof (Nat.div_mod_eq n (2 ^ i)). pose proof (pow_pos i).
  pose proof (Nat.mod_upper_bound n (2 ^ i)). lia.
Qed.

Lemma div_pow_unique n i q : q * 2 ^ i <= n < q * 2 ^ i + 2 ^ i -> n / 2 ^ i = q.
Proof. intros. symmetry. apply (Nat.div_unique _ _ _ (n - q * 2 ^ i)); lia. Qed.

Lemma block_odd n k :
  Nat.odd (n / 2 ^ k) = true -> (n / 2 ^ k) * 2 ^ k = block k n + 2 ^ k.
Proof. intros Ho. unfold block. rewrite (div_pow_odd n k), Ho. simpl. lia. Qed.

Lemma block_even n k :
  Nat.odd (n / 2 ^ k) = false -> (n / 2 ^ k) * 2 ^ k = block k n.
Proof. intros Ho. unfold block. rewrite (div_pow_odd n k), Ho. simpl. lia. Qed.

Section correct.
Context `{Keccak256, !ZeroHashes}.

Lemma droot_shiftn_S k a f :
  droot (S k) (shiftn a f) =
  hash_concat (droot k (shiftn a f)) (droot k (shiftn (a + 2 ^ k) f)).
Proof.
  simpl. f_equal. apply droot_ext. intros i _. unfold rhalf, shiftn. f_equal. lia.
Qed.

Lemma droot_shiftn_small d n m f :
  n < m -> droot d (shiftn ((n / m) * m) f) = droot d f.
Proof.
  intros Hn. apply droot_ext. intros i _. unfold shiftn. by rewrite Nat.div_small by lia.
Qed.

Record incr_ok (t : IncrementalMerkle) (l : list H256) : Prop := {
  ok_count : uval (count t) = Z.of_nat (length l);
  ok_small : length l < 2 ^ 32;
  ok_length : length (branch t) = 32;
  ok_branch k : k < 32 -> Nat.odd (length l / 2 ^ k) = true ->
    branch t !! k = Some (droot k (shiftn (block k (length l)) (leaf_at l)))
}.

Lemma incr_ok_default : incr_ok Incremental.default [].
Proof.
  split; [done|apply pow_pos|done|].
  intros k _. simpl length. by rewrite Nat.Div0.div_0_l.
Qed.

(** *** [root] *)

Lemma root_loop_ok br f n i k :
  length br = k -> i + k = 32 ->
  (forall j x, br !! j = Some x -> Nat.odd (n / 2 ^ (i + j)) = true ->
     x = droot (i + j) (shiftn (block (i + j) n) f)) ->
  (forall j, n <= j -> f j = H256_zero) ->
  Incremental.root_loop br (droot i (shiftn ((n / 2 ^ i) * 2 ^ i) f)) (Z.of_nat (n / 2 ^ i)) i
  = Some (droot 32 (shiftn ((n / 2 ^ 32) * 2 ^ 32) f)).
Proof.
  revert br i. induction k as [|k IH]; intros br i Hlen Hik Hbr Hz.
  { destruct br; [|done]. cbn [Incremental.root_loop]. by replace i with 32 by lia. }
  destruct br as [|x br]; [done|]. cbn [Incremental.root_loop].
  rewrite land1_odd, half_Z, div_pow_S.
  assert (Hnext : forall node,
      node = droot (S i) (shiftn (block i n) f) ->
      Incremental.root_loop br node (Z.of_nat (n / 2 ^ S i)) (S i) =
      Some (droot 32 (shiftn ((n / 2 ^ 32) * 2 ^ 32) f))).
  { intros node ->. unfold block. apply IH; [simpl in Hlen; lia|lia| |done].
    intros j y Hj Ho. replace (S i + j) with (i + S j) in * by lia. by apply Hbr. }
  destruct (Nat.odd (n / 2 ^ i)) eqn:Ho; rewrite ?some_bind.
  - apply Hnext.
    rewrite (Hbr 0 x) by (rewrite ?Nat.add_0_r; done). rewrite Nat.add_0_r.
    by rewrite droot_shiftn_S, (block_odd n i).
  - destruct (ZERO_HASHES_lookup i ltac:(lia)) as [z Hz'].
    rewrite Hz', !some_bind. apply Hnext.
    rewrite droot_shiftn_S, (block_even n i) by done. f_equal. symmetry.
    apply droot_zero; [done|]. intros j _. apply Hz.
    pose proof (div_pow_bounds n i). rewrite block_even in * by done. lia.
Qed.

Lemma incr_root t l :
  incr_ok t l -> Incremental.root t = Some (tree_root 32 l).
Proof.
  intros [Hc Hs Hl Hb]. unfold Incremental.root. rewrite Hc.
  pose proof (root_loop_ok (branch t) (leaf_at l) (length l) 0 32) as Hr.
  rewrite Nat.pow_0_r, Nat.div_1_r in Hr.
  assert (Hbase : droot 0 (shiftn (length l * 1) (leaf_at l)) = H256_zero).
  { unfold droot, shiftn. apply leaf_at_ge. lia. }
  rewrite Hbase in Hr. rewrite Hr; [|done|done| |].
  - unfold tree_root. rewrite (droot_shiftn_small _ _ _ _ Hs). reflexivity.
  - intros j x Hj Ho. rewrite Nat.add_0_l in *. apply lookup_lt_Some in Hj as Hlt.
    rewrite Hb in Hj by (lia || done). by simplify_eq.
  - intros. by apply leaf_at_ge.
Qed.

(** *** [ingest] *)

Lemma ingest_loop_ok br l e i k :
  let n := length l in
  let m := S n in
  let g := leaf_at (l ++ [e]) in
  m < 2 ^ 32 -> length br = 32 ->
  (forall k, k < 32 -> Nat.odd (n / 2 ^ k) = true ->
    br !! k = Some (droot k (shiftn (block k n) (leaf_at l)))) ->
  i + k = 32 -> (m / 2 ^ i) * 2 ^ i = m ->
  exists j, i <= j < 32 /\ (m / 2 ^ j) * 2 ^ j = m /\ Nat.odd (m / 2 ^ j) = true /\
    Incremental.ingest_loop br (droot i (shiftn (m - 2 ^ i) g)) (Z.of_nat (m / 2 ^ i)) i k =
    Some (<[j := droot j (shiftn (m - 2 ^ j) g)]> br).
Proof.
  intros n m g Hm Hlen Hbr. revert i. induction k as [|k IH]; intros i Hik Hdiv.
  { replace i with 32 in * by lia. rewrite Nat.div_small in Hdiv by done. lia. }
  cbn [Incremental.ingest_loop]. rewrite land1_odd, half_Z, div_pow_S.
  assert (Hi : is_Some (br !! i)) by (apply lookup_lt_is_Some_2; lia).
  destruct (Nat.odd (m / 2 ^ i)) eqn:Ho.
  { destruct Hi as [b ->]. exists i. repeat split; auto; lia. }
  pose proof (block_even m i Ho) as Hblk. rewrite Hdiv in Hblk. unfold block in Hblk.
  set (q := m / 2 ^ S i) in *. assert (Hp : 2 ^ S i = 2 ^ i + 2 ^ i) by (simpl; lia).
  assert (Hq : 1 <= q) by (destruct q; lia).
  pose proof (pow_pos i) as Hpi.
  assert (Hni : n / 2 ^ S i = q - 1) by (apply div_pow_unique; nia).
  assert (Hno : Nat.odd (n / 2 ^ i) = true).
  { replace (n / 2 ^ i) with (1 + 2 * (q - 1)) by (symmetry; apply div_pow_unique; nia).
    by rewrite Nat.odd_add_mul_2. }
  rewrite (Hbr i) by (lia || done). rewrite some_bind.
  assert (Hnode : hash_concat (droot i (shiftn (block i n) (leaf_at l)))
            (droot i (shiftn (m - 2 ^ i) g)) = droot (S i) (shiftn (m - 2 ^ S i) g)).
  { rewrite droot_shiftn_S. f_equal.
    - unfold block. rewrite Hni. apply droot_ext. intros x Hx. unfold shiftn, g.
      replace ((q - 1) * 2 ^ S i) with (m - 2 ^ S i) by nia.
      rewrite leaf_at_app_l; [done|]. fold n. nia.
    - do 2 f_equal. nia. }
  rewrite Hnode. destruct (IH (S i)) as (j & Hj & Hrest); [lia|lia|].
  exists j. split; [lia|done].
Qed.

Lemma div_pow_pred m j k :
  (m / 2 ^ j) * 2 ^ j = m -> Nat.odd (m / 2 ^ j) = true -> j < k ->
  (m - 1) / 2 ^ k = m / 2 ^ k.
Proof.
  intros Hdiv Ho Hjk. apply div_pow_unique.
  pose proof (div_pow_bounds m k) as Hb. pose proof (pow_pos j).
  enough (m <> (m / 2 ^ k) * 2 ^ k) by lia. intros He.
  assert (Hk : 2 ^ k = 2 ^ j * (2 * 2 ^ (k - S j))).
  { rewrite <- (Nat.pow_succ_r' 2 (k - S j)), <- Nat.pow_add_r. f_equal. lia. }
  assert (Hmj : m / 2 ^ j = 2 * (2 ^ (k - S j) * (m / 2 ^ k))).
  { apply (Nat.mul_cancel_r _ _ (2 ^ j)); [lia|]. rewrite Hdiv, He at 1.
    rewrite Hk at 2. lia. }
  rewrite Hmj in Ho. by rewrite Nat.odd_mul in Ho.
Qed.

Lemma incr_ingest t l e :
  incr_ok t l -> S (length l) < 2 ^ 32 ->
  exists t', Incremental.ingest t e = Some t' /\ incr_ok t' (l ++ [e]).
Proof.
  intros [Hc Hs Hl Hb] Hm. unfold Incremental.ingest.
  assert (Hp32 : Z.of_nat (2 ^ 32) = (2 ^ 32)%Z) by apply pow2_Z.
  assert (Hlt : (uval (count t) <? u32_MAX)%Z = true).
  { apply Z.ltb_lt. rewrite Hc. unfold u32_MAX. lia. }
  rewrite Hlt.
  assert (Hcount : uval (uwrap 8 (count t + 1)) = Z.of_nat (S (length l))).
  { rewrite Hc, uval_uwrap_small; [lia|]. split; [lia|].
    change (umax 8) with (2 ^ 64)%Z.
    assert (2 ^ 32 < 2 ^ 64)%Z by done. lia. }
  destruct (ingest_loop_ok (branch t) l e 0 32 Hm Hl Hb) as (j & Hj & Hjd & Hjo & Hloop);
    [done|by rewrite Nat.pow_0_r, Nat.div_1_r, Nat.mul_1_r|].
  rewrite Hcount. cbn [droot] in Hloop. unfold shiftn at 1 in Hloop.
  rewrite Nat.pow_0_r, Nat.div_1_r in Hloop.
  replace (S (length l) - 1 + 0) with (length l) in Hloop by lia.
  assert (He : leaf_at (l ++ [e]) (length l) = e).
  { unfold leaf_at. by rewrite list_lookup_middle. }
  rewrite He in Hloop. unfold TREE_DEPTH. rewrite Hloop, some_bind.
  eexists. split; [done|].
  assert (Hlen : length (l ++ [e]) = S (length l)) by (rewrite length_app; simpl; lia).
  split; cbn [branch count]; rewrite ?Hlen; [done|done|by rewrite length_insert|].
  intros k Hk Ho. destruct (decide (k = j)) as [->|Hne].
  - rewrite list_lookup_insert_eq by lia.
    do 3 f_equal. pose proof (block_odd _ _ Ho). lia.
  - rewrite list_lookup_insert_ne by done. destruct (decide (k < j)) as [Hkj|Hkj].
    { exfalso. assert (Hjk : 2 ^ j = 2 ^ k * (2 * 2 ^ (j - S k))).
      { rewrite <- (Nat.pow_succ_r' 2 (j - S k)), <- Nat.pow_add_r. f_equal. lia. }
      assert (Hmk : S (length l) / 2 ^ k = 2 * (2 ^ (j - S k) * (S (length l) / 2 ^ j))).
      { apply div_pow_unique. pose proof (pow_pos k). nia. }
      rewrite Hmk, Nat.odd_mul in Ho. done. }
    assert (Hpk : forall k', j < k' -> length l / 2 ^ k' = S (length l) / 2 ^ k').
    { intros k' Hk'. rewrite <- (div_pow_pred _ j k' Hjd Hjo Hk'). f_equal. lia. }
    rewrite Hb by (rewrite ?Hpk by lia; done).
    f_equal. unfold block. rewrite (Hpk (S k)) by lia. apply droot_ext.
    intros x Hx. unfold shiftn. rewrite leaf_at_app_l; [done|].
    pose proof (block_odd _ _ Ho) as Hbo. unfold block in Hbo.
    pose proof (div_pow_bounds (length l) k) as Hbb. rewrite Hpk in Hbb by lia. lia.
Qed.

Lemma incr_ingest_full t l e :
  incr_ok t l -> length l = 2 ^ 32 - 1 -> Incremental.ingest t e = None.
Proof.
  intros [Hc _ _ _] Hl. unfold Incremental.ingest. pose proof (pow2_Z 32) as Hp.
  rewrite (proj2 (Z.ltb_ge _ _)); [done|]. rewrite Hc, Hl. unfold u32_MAX.
  change (Z.of_nat 32) with 32%Z in Hp. lia.
Qed.
End correct.
