(* ===== verification/SparseCorrect.v ===== *)
(** * Correctness of proofs against an earlier root

    [prove_against_previous t leaf root] goes through two sparse path trees and a merge; the
    proof it returns is the path of the leaf in the tree that held the leaves [0..=root], so
    it verifies against the root that tree had. *)

From S2P Require Import Prelude.
From S2P Require Import Codec.
From S2P Require Import Keccak.
From S2P Require Import Accumulator.
From S2P Require Import MerkleSpec.
From S2P Require Import MerkleCorrect.
From stdpp Require Import base list numbers.
From Stdlib Require Import ZArith Lia.

Import MerkleTree Sparse.
#[local] Open Scope nat_scope.

Lemma mapM_snoc {A B} (f : A -> option B) l x k y :
  mapM f l = Some k -> f x = Some y -> mapM f (l ++ [x]) = Some (k ++ [y]).
Proof.
  revert k. induction l as [|z l IH]; intros k; simpl.
  - intros [= <-] ->. done.
  - destruct (f z) as [w|]; [|done]. rewrite !some_bind.
    destruct (mapM f l) as [k'|] eqn:Hl; [|done]. rewrite !some_bind.
    intros [= <-] Hx. by rewrite (IH k').
Qed.

Lemma lookup_last_len {A} (l : list A) x n : length l = n -> (l ++ [x]) !! n = Some x.
Proof. intros <-. by apply list_lookup_middle. Qed.

Lemma trunc_le n f i : i <= n -> trunc n f i = f i.
Proof. intros. unfold trunc. by rewrite (proj2 (Nat.leb_le i n)). Qed.

Lemma trunc_gt n f i : n < i -> trunc n f i = H256_zero.
Proof. intros. unfold trunc. by rewrite (proj2 (Nat.leb_gt i n)). Qed.

Lemma rhalf_trunc d p f i : rhalf d (trunc (2 ^ d + p) f) i = trunc p (rhalf d f) i.
Proof.
  unfold rhalf. destruct (decide (i <= p)).
  - by rewrite !trunc_le by lia.
  - by rewrite !trunc_gt by lia.
Qed.

Section correct.
Context `{Keccak256, !ZeroHashes}.

Lemma dpath_ext d f g idx :
  (forall i, i < 2 ^ d -> f i = g i) -> dpath d f idx = dpath d g idx.
Proof.
  revert f g. induction d as [|d IH]; intros f g Hfg; [done|]. cbn [dpath].
  rewrite (droot_ext d f g) by (by apply half_ext).
  rewrite (droot_ext d (rhalf d f) (rhalf d g)) by (by apply rhalf_ext).
  rewrite (IH f g) by (by apply half_ext).
  by rewrite (IH (rhalf d f) (rhalf d g)) by (by apply rhalf_ext).
Qed.

(** *** [as_latest] *)

Lemma as_latest_path d f idx (path : list H256) :
  d <= 32 ->
  (forall i x, dpath d f idx !! i = Some x -> path !! i = Some x) ->
  mapM (M := option) (λ i,
    if (Z.land (Z.shiftr idx (Z.of_nat i)) 1 =? 1)%Z then path !! i
    else ZERO_HASHES !! i) (seq 0 d)
  = Some (dpath d (trunc (pos d idx) f) idx).
Proof.
  revert f. induction d as [|d IH]; intros f Hd Hp; [done|].
  rewrite seq_S, Nat.add_0_l, pos_S. cbn [dpath] in *.
  destruct (Z.testbit idx (Z.of_nat d)) eqn:Hb.
  - erewrite mapM_snoc; [done| |].
    + rewrite (IH (rhalf d f)); [|lia|].
      * f_equal. apply dpath_ext. intros i _. symmetry. apply rhalf_trunc.
      * intros i x Hi. apply Hp. by apply lookup_app_l_Some.
    + simpl. rewrite bit_test, Hb. erewrite Hp; [|apply lookup_last_len, length_dpath].
      f_equal. apply droot_ext. intros i Hi. rewrite trunc_le by lia. done.
  - erewrite mapM_snoc; [done| |].
    + rewrite (IH f); [done|lia|]. intros i x Hi. apply Hp. by apply lookup_app_l_Some.
    + simpl. rewrite bit_test, Hb. apply droot_hash_zero; [lia|].
      intros i Hi. unfold rhalf. apply trunc_gt. pose proof (pos_lt d idx). lia.
Qed.

Lemma as_latest_dpath f idx :
  as_latest (MkProof (dleaf 32 f (uval idx)) idx (dpath 32 f (uval idx))) =
  Some (MkProof (dleaf 32 (trunc (pos 32 (uval idx)) f) (uval idx)) idx
          (dpath 32 (trunc (pos 32 (uval idx)) f) (uval idx))).
Proof.
  unfold as_latest, TREE_DEPTH. cbn [leaf index path].
  rewrite (as_latest_path 32 f) by (done || lia). rewrite some_bind.
  by rewrite !dleaf_pos, trunc_le by lia.
Qed.

(** *** Path trees *)

Fixpoint ptree (d : nat) (f : nat -> H256) (idx : Z) : MerkleTree :=
  match d with
  | O => Leaf (f 0)
  | S d =>
      if Z.testbit idx (Z.of_nat d)
      then Node (droot (S d) f) (Leaf (droot d f)) (ptree d (rhalf d f) idx)
      else Node (droot (S d) f) (ptree d f idx) (Leaf (droot d (rhalf d f)))
  end.

Lemma stub_ptree d f idx : stub d f (ptree d f idx).
Proof.
  revert f. induction d as [|d IH]; intros f; cbn [ptree]; [apply (stub_leaf 0)|].
  case_match; auto.
Qed.

Lemma opened_ptree d f idx : opened d idx (ptree d f idx).
Proof.
  revert f. induction d as [|d IH]; intros f; cbn [ptree opened]; [done|].
  by destruct (Z.testbit idx (Z.of_nat d)).
Qed.

Lemma hash_ptree d f idx : hash (ptree d f idx) = Some (droot d f).
Proof. apply hash_stub, stub_ptree. Qed.

Lemma of_proof_loop_add t v i n m :
  of_proof_loop t v i (n + m) =
  t' ← of_proof_loop t v i n; of_proof_loop t' v (i + n) m.
Proof.
  revert t i. induction n as [|n IH]; intros t i; cbn [of_proof_loop Nat.add].
  - by rewrite some_bind, Nat.add_0_r.
  - destruct (path v !! i) as [s|]; [|done]. rewrite !some_bind.
    destruct (hash t) as [h|]; [|done]. rewrite !some_bind, IH.
    replace (S i + n) with (i + S n) by lia. done.
Qed.

Lemma of_proof_loop_ptree d f v :
  (forall i x, dpath d f (uval (index v)) !! i = Some x -> path v !! i = Some x) ->
  of_proof_loop (Leaf (dleaf d f (uval (index v)))) v 0 d = Some (ptree d f (uval (index v))).
Proof.
  revert f. induction d as [|d IH]; intros f Hp; [done|].
  rewrite <- Nat.add_1_r, of_proof_loop_add, Nat.add_1_r. cbn [dleaf dpath ptree] in *.
  destruct (Z.testbit (uval (index v)) (Z.of_nat d)) eqn:Hb;
    (rewrite IH; [|intros i x Hi; apply Hp; by apply lookup_app_l_Some]);
    rewrite some_bind; cbn [of_proof_loop]; rewrite Nat.add_0_l;
    (erewrite Hp; [|apply lookup_last_len, length_dpath]);
    rewrite some_bind, hash_ptree, some_bind, bit_test, Hb; done.
Qed.

Lemma of_proof_dpath f idx :
  of_proof (MkProof (dleaf 32 f (uval idx)) idx (dpath 32 f (uval idx))) =
  Some (ptree 32 f (uval idx)).
Proof. unfold of_proof, TREE_DEPTH. by apply (of_proof_loop_ptree 32 f (MkProof _ idx _)). Qed.

(** *** [merge] *)

Lemma merge_leaf_stub d f t :
  stub d f t -> merge (Leaf (droot d f)) t = Some t.
Proof.
  intros Hs. cbn [merge]. rewrite (hash_stub _ _ _ Hs), some_bind. by rewrite decide_True.
Qed.

Lemma merge_node_stub d f al ar h bl br l r :
  merge al bl = Some l -> merge ar br = Some r ->
  stub d f l -> stub d (rhalf d f) r ->
  merge (Node (droot (S d) f) al ar) (Node h bl br) = Some (Node (droot (S d) f) l r).
Proof.
  intros Hl Hr Sl Sr. cbn [merge]. rewrite Hl, Hr, !some_bind.
  rewrite (hash_stub _ _ _ Sl), (hash_stub _ _ _ Sr), !some_bind. by rewrite decide_True.
Qed.

Lemma merge_leaf_leaf a b : merge (Leaf a) (Leaf b) = Some (Leaf a).
Proof. cbn [merge hash]. rewrite some_bind. by case_decide; simplify_eq. Qed.

Lemma merge_ptree_leaf d g ri a : merge (ptree d g ri) (Leaf a) = Some (ptree d g ri).
Proof. destruct d; cbn [ptree]; [apply merge_leaf_leaf|by case_match]. Qed.

Lemma merge_ptree d f g ri li :
  (forall i, i < 2 ^ d -> g i = trunc (pos d ri) f i) -> pos d li <= pos d ri ->
  exists t, merge (ptree d g ri) (ptree d f li) = Some t /\ stub d g t /\ opened d li t.
Proof.
  revert f g. induction d as [|d IH]; intros f g Hg Hle.
  { assert (Hg0 : g 0 = f 0) by (rewrite (Hg 0), trunc_le by (simpl; lia); done).
    exists (Leaf (g 0)). cbn [ptree]. rewrite Hg0. repeat split.
    - apply merge_leaf_leaf.
    - rewrite <- Hg0. apply (stub_leaf 0). }
  rewrite !pos_S in Hle. rewrite pos_S in Hg.
  pose proof (pos_lt d ri) as Hri. pose proof (pos_lt d li) as Hli.
  cbn [ptree]. destruct (Z.testbit ri (Z.of_nat d)) eqn:Bri.
  - assert (Hgl : forall i, i < 2 ^ d -> f i = g i).
    { intros i Hi. rewrite Hg, trunc_le by (simpl; lia). done. }
    assert (Hgr : forall i, i < 2 ^ d -> rhalf d g i = trunc (pos d ri) (rhalf d f) i).
    { intros i Hi. rewrite <- rhalf_trunc. apply Hg. simpl. lia. }
    rewrite <- (droot_ext d f g Hgl).
    destruct (Z.testbit li (Z.of_nat d)) eqn:Bli.
    + destruct (IH (rhalf d f) (rhalf d g) Hgr) as (t & Ht & Hs & Ho); [lia|].
      eexists. split; [eapply merge_node_stub; [by apply merge_leaf_stub|exact Ht| |done]|].
      * by eapply stub_ext.
      * split; [|cbn [opened]; by rewrite Bli]. constructor; [by eapply stub_ext|done].
    + assert (Hl : stub d g (ptree d f li)) by (by eapply stub_ext, stub_ptree).
      eexists. split; [eapply merge_node_stub; [apply merge_leaf_stub, stub_ptree
        |apply merge_ptree_leaf|done|apply stub_ptree]|].
      split; [constructor; [done|apply stub_ptree]|]. cbn [opened]. rewrite Bli.
      apply opened_ptree.
  - destruct (Z.testbit li (Z.of_nat d)) eqn:Bli; [lia|].
    assert (Hgl : forall i, i < 2 ^ d -> g i = trunc (pos d ri) f i).
    { intros i Hi. rewrite Hg by (simpl; lia). done. }
    destruct (IH f g Hgl) as (t & Ht & Hs & Ho); [lia|].
    eexists. split; [eapply merge_node_stub; [exact Ht|apply merge_leaf_leaf|done|auto]|].
    split; [constructor; auto|]. cbn [opened]. by rewrite Bli.
Qed.

(** *** [prove_against_current] and [prove_against_previous] *)

Lemma prove_against_current_stub f t (idx : usize) :
  stub 32 f t -> opened 32 (uval idx) t ->
  prove_against_current t idx =
  Some (MkProof (dleaf 32 f (uval idx)) idx (dpath 32 f (uval idx))).
Proof.
  intros Hs Ho. unfold prove_against_current, TREE_DEPTH.
  rewrite (generate_proof_stub 32 f) by done. rewrite some_bind.
  rewrite length_dpath. cbn [Nat.leb].
  by rewrite firstn_all2 by (rewrite length_dpath; lia).
Qed.

Lemma prove_against_previous_stub f t (leaf_index root_index : usize) :
  stub 32 f t -> opened 32 (uval leaf_index) t -> opened 32 (uval root_index) t ->
  (uval leaf_index <= uval root_index < 2 ^ 32)%Z ->
  let g := trunc (Z.to_nat (uval root_index)) f in
  prove_against_previous t leaf_index root_index =
  Some (MkProof (f (Z.to_nat (uval leaf_index))) leaf_index
          (dpath 32 g (uval leaf_index))).
Proof.
  intros Hs Hol Hor Hle. cbv zeta.
  pose proof (uval_range leaf_index) as Hli.
  assert (Hpl : pos 32 (uval leaf_index) = Z.to_nat (uval leaf_index))
    by (apply pos_small; lia).
  assert (Hpr : pos 32 (uval root_index) = Z.to_nat (uval root_index))
    by (apply pos_small; lia).
  unfold prove_against_previous. rewrite (proj2 (Z.leb_le _ _)) by lia.
  rewrite !(prove_against_current_stub f t) by done. rewrite !some_bind.
  rewrite as_latest_dpath, some_bind, of_proof_dpath, some_bind, of_proof_dpath, !some_bind.
  destruct (merge_ptree 32 f (trunc (pos 32 (uval root_index)) f) (uval root_index)
    (uval leaf_index)) as (m & -> & Hms & Hmo); [done|lia|]. rewrite some_bind.
  rewrite (prove_against_current_stub _ m leaf_index Hms Hmo), dleaf_pos, Hpl, Hpr.
  by rewrite trunc_le by lia.
Qed.
End correct.
