(* ===== verification/Relayer.v ===== *)
(** * The relayer's prover and Merkle-tree builder

    [agents/relayer/src/prover.rs], [agents/relayer/src/merkle_tree/builder.rs] and
    [merkle_tree/processor.rs]: the full tree that produces proofs, kept next to the
    incremental tree whose root it is checked against, fed by the processor with the
    insertions the database holds. *)

From S2P Require Import Prelude.
From S2P Require Import Codec.
From S2P Require Import Keccak.
From S2P Require Import Accumulator.
From S2P Require Import Message.
From stdpp Require Import base list numbers.
From Stdlib Require Import ZArith Lia.

#[local] Open Scope Z_scope.

(** ** [prover.rs] *)

Record Prover := MkProver { prover_count : usize; prover_tree : MerkleTree }.

Inductive ProverError :=
  | IndexTooHigh (index : usize)
  | ZeroProof (index count : usize)
  | ProverMerkleTreeError (e : MerkleTreeError)
  | VerificationFailed (expected actual : H256).

Module Prover.
Section with_keccak.
Context `{Keccak256}.

(** [Default for Prover] *)
Definition default : option Prover :=
  full ← MerkleTree.create [] TREE_DEPTH;
  Some (MkProver (uwrap 8 0) full).

(** [Prover::root] *)
Definition root (self : Prover) : option H256 := MerkleTree.hash (prover_tree self).

(** [Prover::ingest]: the prover afterwards and the result; [None] is a panic. *)
Definition ingest (self : Prover) (element : H256) :
    option (Prover * outcome ProverError H256) :=
  let count' := uwrap 8 (prover_count self + 1) in
  '(tree', res) ← MerkleTree.push_leaf (prover_tree self) element TREE_DEPTH;
  let self' := MkProver count' tree' in
  match res with
  | Ok _ => h ← root self'; Some (self', Ok h)
  | Err e => Some (self', Err (ProverMerkleTreeError e))
  | Panic => None
  end.

(** [Prover::prove_against_previous] *)
Definition prove_against_previous (self : Prover) (leaf_index root_index : usize) :
    outcome ProverError Proof :=
  if u32_MAX <? root_index then Err (IndexTooHigh root_index)
  else if prover_count self <=? root_index then Err (ZeroProof root_index (prover_count self))
  else or_panic (Sparse.prove_against_previous (prover_tree self) leaf_index root_index).

(** [Prover::verify] *)
Definition verify (self : Prover) (proof : Proof) : outcome ProverError unit :=
  actual ← or_panic (MerkleTree.merkle_root_from_branch (leaf proof) (path proof) TREE_DEPTH
                       (index proof));
  expected ← or_panic (root self);
  if decide (expected = actual) then Ok tt else Err (VerificationFailed expected actual).

(** [From<T: AsRef<[H256]>> for Prover] *)
Definition from (slice : list H256) : option Prover :=
  tree ← MerkleTree.create slice TREE_DEPTH;
  Some (MkProver (uwrap 8 (Z.of_nat (length slice))) tree).

(** [Extend<H256> for Prover] *)
Fixpoint extend (self : Prover) (iter : list H256) : option Prover :=
  match iter with
  | [] => Some self
  | i :: iter =>
      '(self', res) ← ingest self i;
      match res with
      | Ok _ => extend self' iter
      | _ => None
      end
  end.

(** [FromIterator<H256> for Prover] *)
Definition from_iter (iter : list H256) : option Prover :=
  prover ← default; extend prover iter.

End with_keccak.
End Prover.

(** ** [merkle_tree/builder.rs] *)

Record MerkleTreeBuilder := MkMerkleTreeBuilder {
  prover : Prover;
  incremental : IncrementalMerkle
}.

(** The variants the modelled operations produce; the other two wrap errors of the chain and
    of the database. *)
Inductive MerkleTreeBuilderError :=
  | MismatchedRoots (prover_root incremental_root : H256)
  | BuilderProverError (e : ProverError).

Module Builder.
Section with_keccak.
Context `{Keccak256}.

(** [MerkleTreeBuilder::new] *)
Definition new : option MerkleTreeBuilder :=
  prover ← Prover.default;
  Some (MkMerkleTreeBuilder prover Incremental.default).

(** [MerkleTreeBuilder::get_proof] *)
Definition get_proof (self : MerkleTreeBuilder) (leaf_index root_index : u32) :
    outcome MerkleTreeBuilderError Proof :=
  map_err BuilderProverError
    (Prover.prove_against_previous (prover self) (uwrap 8 leaf_index) (uwrap 8 root_index)).

(** [MerkleTreeBuilder::count] *)
Definition count (self : MerkleTreeBuilder) : u32 := uwrap 4 (prover_count (prover self)).

(** [MerkleTreeBuilder::ingest_message_id] *)
Definition ingest_message_id (self : MerkleTreeBuilder) (message_id : H256) :
    option (MerkleTreeBuilder * outcome MerkleTreeBuilderError unit) :=
  '(prover', res) ← Prover.ingest (prover self) message_id;
  match res with
  | Ok _ =>
      incremental' ← Incremental.ingest (incremental self) message_id;
      let self' := MkMerkleTreeBuilder prover' incremental' in
      prover_root ← Prover.root prover';
      incremental_root ← Incremental.root incremental';
      Some (self', if decide (prover_root = incremental_root) then Ok tt
                   else Err (MismatchedRoots prover_root incremental_root))
  | _ => None
  end.

End with_keccak.
End Builder.

(** ** [merkle_tree/processor.rs] *)

Section processor.
Context `{Keccak256}.
(** The database: the insertion at a leaf index, or a database error. *)
Context {DbError : Type}.
Variable retrieve_merkle_tree_insertion_by_leaf_index :
  u32 -> outcome DbError (option MerkleTreeInsertion).

(** [next_unprocessed_leaf]; the metrics are not modelled. *)
Definition next_unprocessed_leaf (leaf_index : u32) :
    outcome DbError (option MerkleTreeInsertion) :=
  retrieve_merkle_tree_insertion_by_leaf_index leaf_index.

(** [MerkleTreeProcessor::tick] on the leaf index and the shared builder: the state
    afterwards and the result; [None] is a panic. *)
Definition tick (leaf_index : u32) (prover_sync : MerkleTreeBuilder) :
    option ((u32 * MerkleTreeBuilder) * outcome (DbError + MerkleTreeBuilderError) unit) :=
  match next_unprocessed_leaf leaf_index with
  | Ok (Some insertion) =>
      '(prover_sync', res) ← Builder.ingest_message_id prover_sync (message_id insertion);
      match res with
      | Ok _ => Some ((uwrap 4 (leaf_index + 1), prover_sync'), Ok tt)
      | Err e => Some ((leaf_index, prover_sync'), Err (inr e))
      | Panic => None
      end
  | Ok None => Some ((leaf_index, prover_sync), Ok tt)
  | Err e => Some ((leaf_index, prover_sync), Err (inl e))
  | Panic => None
  end.

(** [n] rounds of the processor's loop, which stops at the first error. *)
Fixpoint ticks (n : nat) (leaf_index : u32) (prover_sync : MerkleTreeBuilder) :
    option ((u32 * MerkleTreeBuilder) * outcome (DbError + MerkleTreeBuilderError) unit) :=
  match n with
  | O => Some ((leaf_index, prover_sync), Ok tt)
  | S n =>
      '(st, res) ← tick leaf_index prover_sync;
      match res with
      | Ok _ => let '(leaf_index, prover_sync) := st in ticks n leaf_index prover_sync
      | res => Some (st, res)
      end
  end.
End processor.
