(* ===== verification/RelayerCorrect.v ===== *)
(** * Correctness of the accumulators and of the relayer's builder

    The root both trees compute for a list of leaves, completeness and soundness of proofs,
    and the builder the relayer keeps in step with the insertions it reads. *)

From S2P Require Import Prelude.
From S2P Require Import Codec.
From S2P Require Import Keccak.
From S2P Require Import Accumulator.
From S2P Require Import Message.
From S2P Require Import MerkleSpec.
From S2P Require Import MerkleCorrect.
From S2P Require Import IncrementalCorrect.
From S2P Require Import SparseCorrect.
From S2P Require Import Relayer.
From stdpp Require Import base list numbers.
From Stdlib Require Import ZArith Lia.

#[local] Open Scope nat_scope.

(** [2 ^ 32] and the bound of the incremental tree are never unfolded. *)
Lemma pow32_Z : Z.of_nat (2 ^ 32) = (2 ^ 32)%Z.
Proof. apply pow2_Z. Qed.

(** Ingesting a list of ids, stopping at the first error. *)
Fixpoint ingest_all `{Keccak256} (b : MerkleTreeBuilder) (l : list H256) :
    option (MerkleTreeBuilder * outcome MerkleTreeBuilderError unit) :=
  match l with
  | [] => Some (b, Ok tt)
  | id :: l =>
      '(b', res) ← Builder.ingest_message_id b id;
      match res with Ok _ => ingest_all b' l | res => Some (b', res) end
  end.

(** The incremental tree after a list of leaves; [None] once it panics. *)
Fixpoint incremental_all `{Keccak256} (t : IncrementalMerkle) (l : list H256) :
    option IncrementalMerkle :=
  match l with
  | [] => Some t
  | e :: l => t' ← Incremental.ingest t e; incremental_all t' l
  end.

Section correct.
Context `{Keccak256, !ZeroHashes}.

(** ** The prover represents a list of leaves *)

Record prover_ok (p : Prover) (l : list H256) : Prop := {
  pok_count : uval (prover_count p) = Z.of_nat (length l);
  pok_tree : prover_tree p = ctree 32 l;
  pok_small : length l <= 2 ^ 32
}.

Lemma tree_depth : TREE_DEPTH = 32.
Proof. reflexivity. Qed.

Lemma usize_small n : (n <= 2 ^ 32)%nat -> uval (uwrap 8 (Z.of_nat n)) = Z.of_nat n.
Proof.
  intros Hn. apply uval_uwrap_small. change (umax 8) with (2 ^ 64)%Z.
  pose proof pow32_Z. assert (2 ^ 32 < 2 ^ 64)%Z by done. lia.
Qed.

Lemma prover_default_ok : exists p, Prover.default = Some p /\ prover_ok p [].
Proof.
  unfold Prover.default. rewrite tree_depth, create_ctree by lia.
  eexists. split; [done|]. split; [done|done|]. cbn [length]. lia.
Qed.

Lemma prover_from_ok l :
  length l <= 2 ^ 32 -> exists p, Prover.from l = Some p /\ prover_ok p l.
Proof.
  intros Hl. unfold Prover.from. rewrite tree_depth, create_ctree by lia.
  eexists. split; [done|]. split; [by apply usize_small|done|done].
Qed.

Lemma prover_root_ok p l : prover_ok p l -> Prover.root p = Some (tree_root 32 l).
Proof. intros [_ Ht _]. unfold Prover.root. rewrite Ht. apply hash_ctree. lia. Qed.

Lemma prover_ingest_ok p l e :
  prover_ok p l -> length l < 2 ^ 32 ->
  exists p', Prover.ingest p e = Some (p', Ok (tree_root 32 (l ++ [e]))) /\
             prover_ok p' (l ++ [e]).
Proof.
  intros [Hc Ht Hs] Hl. unfold Prover.ingest. rewrite Ht, tree_depth.
  rewrite push_leaf_ctree by lia. rewrite decide_True by done. rewrite some_bind.
  unfold Prover.root. cbn [prover_tree]. rewrite hash_ctree by lia. rewrite some_bind.
  eexists. split; [done|]. rewrite Hc.
  assert (Hlen : length (l ++ [e]) = S (length l)) by (rewrite length_app; simpl length; lia).
  split; cbn [prover_count prover_tree]; rewrite ?Hlen; [|done|lia].
  rewrite Z.add_1_r, <- Nat2Z.inj_succ.
  apply usize_small. lia.
Qed.

Lemma prover_ingest_full p l e :
  prover_ok p l -> length l = 2 ^ 32 ->
  exists p', Prover.ingest p e = Some (p', Err (ProverMerkleTreeError MerkleTreeFull)) /\
    prover_tree p' = prover_tree p /\ uval (prover_count p') = Z.of_nat (S (length l)).
Proof.
  intros [Hc Ht Hs] Hl. unfold Prover.ingest. rewrite Ht, tree_depth.
  rewrite push_leaf_ctree by lia. rewrite decide_False by lia. rewrite some_bind.
  eexists. split; [done|]. split; [done|]. cbn [prover_count]. rewrite Hc, Hl.
  pose proof pow32_Z. assert (2 ^ 32 + 1 < 2 ^ 64)%Z by done.
  rewrite uval_uwrap_small; [lia|]. change (umax 8) with (2 ^ 64)%Z. lia.
Qed.

Lemma prover_extend_ok p l k :
  prover_ok p l -> length (l ++ k) <= 2 ^ 32 ->
  exists p', Prover.extend p k = Some p' /\ prover_ok p' (l ++ k).
Proof.
  revert p l. induction k as [|e k IH]; intros p l Hp Hl; cbn [Prover.extend].
  { exists p. by rewrite app_nil_r. }
  rewrite length_app in Hl. cbn [length] in Hl.
  destruct (prover_ingest_ok p l e Hp) as (p1 & -> & Hp1); [lia|]. rewrite some_bind.
  replace (l ++ e :: k) with ((l ++ [e]) ++ k) by (by rewrite <- app_assoc).
  apply IH; [done|]. rewrite !length_app. cbn [length]. lia.
Qed.

(** ** Proofs from the prover *)

Lemma prover_prove_ok p l (li ri : usize) :
  prover_ok p l -> (uval li <= uval ri < 2 ^ 32)%Z -> (uval ri < Z.of_nat (length l))%Z ->
  exists pf, Prover.prove_against_previous p li ri = Ok pf /\
    l !! Z.to_nat (uval li) = Some (leaf pf) /\ index pf = li /\ length (path pf) = 32 /\
    MerkleTree.Proof_root pf = Some (tree_root 32 (take (S (Z.to_nat (uval ri))) l)).
Proof.
  intros [Hc Ht Hs] Hle Hri. unfold Prover.prove_against_previous, u32_MAX.
  pose proof (uval_range li) as Hli.
  rewrite (proj2 (Z.ltb_ge _ _)) by lia. rewrite Hc, (proj2 (Z.leb_gt _ _)) by lia.
  rewrite Ht. erewrite prove_against_previous_stub; try apply opened_ctree;
    [|apply stub_ctree; lia|done].
  eexists. split; [done|]. cbn [leaf index path]. split_and!.
  - unfold leaf_at. destruct (l !! Z.to_nat (uval li)) eqn:Hl; [done|].
    apply lookup_ge_None in Hl. lia.
  - done.
  - apply length_dpath.
  - unfold MerkleTree.Proof_root, tree_root. cbn [leaf index path]. rewrite tree_depth.
    rewrite (droot_ext 32 _ (trunc (Z.to_nat (uval ri)) (leaf_at l)))
      by (intros; apply leaf_at_take_trunc).
    rewrite <- (trunc_le (Z.to_nat (uval ri)) (leaf_at l)) by lia.
    rewrite <- (pos_small 32 (uval li)) at 1 by (change (Z.of_nat 32) with 32%Z; lia).
    rewrite <- dleaf_pos. apply merkle_root_from_dpath.
Qed.

Lemma prove_against_previous_panics t (li ri : usize) :
  (uval ri < uval li)%Z -> Sparse.prove_against_previous t li ri = None.
Proof.
  intros. unfold Sparse.prove_against_previous. by rewrite (proj2 (Z.leb_gt _ _)).
Qed.

(** ** The builder *)

Definition builder_ok (b : MerkleTreeBuilder) (l : list H256) : Prop :=
  prover_ok (prover b) l /\ incr_ok (incremental b) l.

Lemma builder_new_ok : exists b, Builder.new = Some b /\ builder_ok b [].
Proof.
  destruct prover_default_ok as (p & Hp & Hok). unfold Builder.new. rewrite Hp, some_bind.
  eexists. split; [done|]. split; [done|apply incr_ok_default].
Qed.

Lemma builder_ingest_ok b l e :
  builder_ok b l -> S (length l) < 2 ^ 32 ->
  exists b', Builder.ingest_message_id b e = Some (b', Ok tt) /\ builder_ok b' (l ++ [e]).
Proof.
  intros [Hp Hi] Hl. unfold Builder.ingest_message_id.
  destruct (prover_ingest_ok _ _ e Hp) as (p' & -> & Hp'); [lia|]. rewrite some_bind.
  destruct (incr_ingest _ _ e Hi) as (t' & -> & Hi'); [done|]. rewrite some_bind.
  rewrite (prover_root_ok _ _ Hp'), some_bind, (incr_root _ _ Hi'), some_bind.
  rewrite decide_True by done. eexists. split; [done|]. by split.
Qed.

Lemma builder_ingest_all_ok b l k :
  builder_ok b l -> length (l ++ k) < 2 ^ 32 ->
  exists b', ingest_all b k = Some (b', Ok tt) /\ builder_ok b' (l ++ k).
Proof.
  revert b l. induction k as [|e k IH]; intros b l Hb Hl; cbn [ingest_all].
  { exists b. by rewrite app_nil_r. }
  rewrite length_app in Hl. cbn [length] in Hl.
  destruct (builder_ingest_ok b l e Hb) as (b1 & -> & Hb1); [lia|]. rewrite some_bind.
  replace (l ++ e :: k) with ((l ++ [e]) ++ k) by (by rewrite <- app_assoc).
  apply IH; [done|]. rewrite !length_app. cbn [length]. lia.
Qed.

Lemma uval_usize (x : u32) : uval (uwrap 8 x) = uval x.
Proof. urange x. apply uval_uwrap_small. change (umax 8) with (2 ^ 64)%Z. lia. Qed.

Lemma builder_proof_ok b l (li ri : u32) :
  builder_ok b l -> (uval li <= uval ri < Z.of_nat (length l))%Z ->
  exists pf, Builder.get_proof b li ri = Ok pf /\
    l !! Z.to_nat (uval li) = Some (leaf pf) /\ index pf = uwrap 8 li /\
    length (path pf) = TREE_DEPTH /\
    MerkleTree.Proof_root pf = Some (tree_root 32 (take (S (Z.to_nat (uval ri))) l)).
Proof.
  intros [Hp _] Hle. urange ri. unfold Builder.get_proof.
  destruct (prover_prove_ok _ l (uwrap 8 li) (uwrap 8 ri) Hp)
    as (pf & Hpf & Hleaf & Hidx & Hlen & Hroot); rewrite ?uval_usize; [lia|lia|].
  rewrite !uval_usize in *. exists pf. rewrite Hpf. done.
Qed.

Lemma incremental_all_ok t l k :
  incr_ok t l -> length (l ++ k) < 2 ^ 32 ->
  exists t', incremental_all t k = Some t' /\ incr_ok t' (l ++ k).
Proof.
  revert t l. induction k as [|e k IH]; intros t l Ht Hl; cbn [incremental_all].
  { exists t. by rewrite app_nil_r. }
  rewrite length_app in Hl. cbn [length] in Hl.
  destruct (incr_ingest t l e Ht) as (t1 & -> & Ht1); [lia|]. rewrite some_bind.
  replace (l ++ e :: k) with ((l ++ [e]) ++ k) by (by rewrite <- app_assoc).
  apply IH; [done|]. rewrite !length_app. cbn [length]. lia.
Qed.

Lemma prover_ok_unique p p' l : prover_ok p l -> prover_ok p' l -> p' = p.
Proof.
  intros [Hc Ht _] [Hc' Ht' _]. destruct p as [c t], p' as [c' t'].
  cbn [prover_count prover_tree] in *. rewrite Ht, Ht'. f_equal.
  apply uint_eq. by rewrite Hc.
Qed.

(** ** The processor *)

Section processor.
Context {DbError : Type} (db : u32 -> outcome DbError (option MerkleTreeInsertion)).
Variable l : list MerkleTreeInsertion.
Hypothesis Hdb : forall i, db i = Ok (l !! Z.to_nat (uval i)).
Hypothesis Hl : length l < 2 ^ 32.

Lemma ticks_ok m n b k :
  builder_ok b k -> length k = n -> n <= length l ->
  exists b', ingest_all b (message_id <$> take m (drop n l)) = Some (b', Ok tt) /\
    ticks db m (uwrap 4 (Z.of_nat n)) b =
      Some ((uwrap 4 (Z.of_nat (Nat.min (n + m) (length l))), b'), Ok tt).
Proof.
  revert n b k. induction m as [|m IH]; intros n b k Hb Hk Hn.
  { exists b. cbn [ticks take]. by rewrite Nat.add_0_r, Nat.min_l. }
  pose proof pow32_Z as Hp.
  assert (Hw : Z.to_nat (uval (uwrap 4 (Z.of_nat n))) = n).
  { rewrite uval_uwrap_small; [lia|]. change (umax 4) with (2 ^ 32)%Z. lia. }
  cbn [ticks]. unfold tick, next_unprocessed_leaf. rewrite Hdb, Hw.
  destruct (l !! n) as [ins|] eqn:Hins.
  - pose proof (lookup_lt_Some _ _ _ Hins) as Hlt.
    rewrite (drop_S _ ins n Hins). cbn [take fmap list_fmap ingest_all].
    destruct (builder_ingest_ok b k (message_id ins) Hb) as (b1 & -> & Hb1); [lia|].
    rewrite !some_bind.
    destruct (IH (S n) b1 (k ++ [message_id ins]) Hb1) as (b' & Hi & Ht);
      [rewrite length_app; cbn [length]; lia|lia|].
    exists b'. split; [done|].
    rewrite uval_uwrap_small by (change (umax 4) with (2 ^ 32)%Z; lia).
    replace (Z.of_nat n + 1)%Z with (Z.of_nat (S n)) by lia. rewrite Ht.
    by replace (S n + m) with (n + S m) by lia.
  - apply lookup_ge_None in Hins. rewrite some_bind.
    destruct (IH n b k Hb Hk Hn) as (b' & Hi & Ht). exists b'.
    rewrite drop_ge in * by lia. rewrite take_nil in *. split; [done|].
    rewrite Ht. by rewrite !Nat.min_r by lia.
Qed.
End processor.
End correct.
