(* ===== verification/RelayerTheorems.v ===== *)
(** * Properties of the accumulators and of the relayer's builder *)

From S2P Require Import Prelude.
From S2P Require Import Codec.
From S2P Require Import Keccak.
From S2P Require Import Accumulator.
From S2P Require Import Message.
From S2P Require Import MerkleSpec.
From S2P Require Import MerkleCorrect.
From S2P Require Import IncrementalCorrect.
From S2P Require Import SparseCorrect.
From S2P Require Import Relayer.
From S2P Require Import RelayerCorrect.
From stdpp Require Import base list numbers.
From Stdlib Require Import ZArith Lia.

#[local] Open Scope nat_scope.

(** Leaves for the concrete instances. *)
Definition sample : list H256 := [uwrap 32 7; uwrap 32 11; uwrap 32 13].

Section properties.
Context `{Keccak256, !ZeroHashes}.

(** C22. The proofs the relayer submits are right: after any list [l] of fewer than [2^32]
    message ids has been ingested by a new builder, [get_proof leaf root] fails with
    [ZeroProof] when [root] is not yet a leaf, panics when [leaf > root], and otherwise
    returns a proof of exactly the leaf [l[leaf_index]] at its index whose root is the root
    the incremental tree (the accumulator of the contracts) had just after leaf [root_index]
    was inserted. *)
Theorem builder_get_proof (l : list H256) (leaf_index root_index : u32)
    (Hl : length l < 2 ^ 32) :
  exists b0 b, Builder.new = Some b0 /\ ingest_all b0 l = Some (b, Ok tt) /\
  if (Z.of_nat (length l) <=? uval root_index)%Z then
    Builder.get_proof b leaf_index root_index =
      Err (BuilderProverError (ZeroProof (uwrap 8 root_index) (uwrap 8 (Z.of_nat (length l)))))
  else if (uval root_index <? uval leaf_index)%Z then
    Builder.get_proof b leaf_index root_index = Panic
  else exists pf t,
    Builder.get_proof b leaf_index root_index = Ok pf /\
    l !! Z.to_nat (uval leaf_index) = Some (leaf pf) /\
    index pf = uwrap 8 leaf_index /\ length (path pf) = TREE_DEPTH /\
    incremental_all Incremental.default (take (S (Z.to_nat (uval root_index))) l) = Some t /\
    MerkleTree.Proof_root pf = Incremental.root t /\ is_Some (Incremental.root t).
Proof.
  destruct builder_new_ok as (b0 & Hnew & Hb0).
  destruct (builder_ingest_all_ok b0 [] l Hb0 Hl) as (b & Hall & Hb).
  exists b0, b. do 2 (split; [done|]). cbn [app] in Hb. pose proof Hb as [Hp _].
  urange leaf_index. urange root_index.
  case_match eqn:Hz; [|case_match eqn:Hgt].
  - destruct Hp as [Hc _ _]. unfold Builder.get_proof, Prover.prove_against_previous, u32_MAX.
    rewrite uval_usize, (proj2 (Z.ltb_ge _ _)) by lia. rewrite Hc, Hz. cbn [map_err].
    do 3 f_equal. apply uint_eq. by rewrite Hc, usize_small by lia.
  - destruct Hp as [Hc _ _]. unfold Builder.get_proof, Prover.prove_against_previous, u32_MAX.
    rewrite uval_usize, (proj2 (Z.ltb_ge _ _)) by lia. rewrite Hc, Hz.
    by rewrite prove_against_previous_panics by (rewrite !uval_usize; lia).
  - destruct (builder_proof_ok _ l leaf_index root_index Hb)
      as (pf & -> & Hleaf & Hidx & Hlen & Hroot); [lia|].
    destruct (incremental_all_ok _ [] (take (S (Z.to_nat (uval root_index))) l)
      incr_ok_default) as (t & Ht & Hok); [cbn [app]; rewrite length_take; lia|].
    pose proof (incr_root _ _ Hok) as Hr. cbn [app] in Hr.
    exists pf, t. rewrite Hroot, Hr. split_and!; done.
Qed.

(** The two trees the relayer keeps never disagree: ingesting any list of fewer than
    [2^32] ids into a new builder never reports [MismatchedRoots], never panics, and leaves
    both trees with the root of the complete depth-32 tree over the ids padded with zero
    leaves; with [2^32 - 1] ids the builder is full and the next id makes it panic. *)
Theorem builder_in_sync (l : list H256) (Hl : length l < 2 ^ 32) :
  exists b0 b, Builder.new = Some b0 /\ ingest_all b0 l = Some (b, Ok tt) /\
    Prover.root (prover b) = Some (tree_root 32 l) /\
    Incremental.root (incremental b) = Some (tree_root 32 l) /\
    uval (Builder.count b) = Z.of_nat (length l) /\
    (length l = 2 ^ 32 - 1 -> forall id, Builder.ingest_message_id b id = None).
Proof.
  destruct builder_new_ok as (b0 & Hnew & Hb0).
  destruct (builder_ingest_all_ok b0 [] l Hb0 Hl) as (b & Hall & Hp & Hi).
  cbn [app] in Hp, Hi. exists b0, b. split_and!; [done|done| | | |].
  - by apply prover_root_ok.
  - by apply incr_root.
  - unfold Builder.count. destruct Hp as [-> _ _]. pose proof pow32_Z.
    apply uval_uwrap_small. change (umax 4) with (2 ^ 32)%Z. lia.
  - intros Hfull id. unfold Builder.ingest_message_id.
    destruct (prover_ingest_ok _ _ id Hp Hl) as (p' & -> & _). rewrite some_bind.
    by rewrite (incr_ingest_full _ _ id Hi) by done.
Qed.

(** C34. The incremental tree computes the same root as the full tree: for every list of
    fewer than [2^32] leaves, ingesting them one by one never panics, and the 32-hash branch
    then yields the hash of the tree that [MerkleTree::create] builds from the whole list,
    with the count and the index of the last leaf right. *)
Theorem incremental_refines_full (l : list H256) (Hl : length l < 2 ^ 32) :
  exists t full, incremental_all Incremental.default l = Some t /\
    MerkleTree.create l TREE_DEPTH = Some full /\
    Incremental.root t = MerkleTree.hash full /\
    MerkleTree.hash full = Some (tree_root 32 l) /\
    uval (count t) = Z.of_nat (length l) /\
    Incremental.index t =
      (if (length l =? 0)%nat then None else Some (uwrap 4 (Z.of_nat (length l) - 1))).
Proof.
  destruct (incremental_all_ok _ [] l incr_ok_default Hl) as (t & Ht & Hok).
  cbn [app] in Hok. exists t, (ctree 32 l). pose proof pow32_Z.
  rewrite tree_depth, create_ctree by lia. rewrite hash_ctree by lia.
  rewrite (incr_root _ _ Hok). destruct Hok as [Hc _ _ _]. split_and!; [done..|].
  unfold Incremental.index. rewrite Hc.
  destruct (Nat.eqb_spec (length l) 0) as [->|Hne]; [done|].
  rewrite (proj2 (Z.ltb_lt _ _)) by lia. rewrite uval_uwrap_small; [done|].
  change (umax 4) with (2 ^ 32)%Z. lia.
Qed.

(** Pushing a leaf is appending to the list of leaves: on the tree of any list of at
    most [2^d] leaves ([1 <= d <= 32]), [push_leaf] gives exactly the tree [create] builds
    from the longer list, or leaves the tree unchanged with [MerkleTreeFull] when it already
    holds [2^d] leaves; it never panics and never meets the [Invalid] or [LeafReached]
    cases. *)
Theorem push_leaf_appends (d : nat) (l : list H256) (e : H256) (t : MerkleTree)
    (Hd : 1 <= d <= 32) (Hl : length l <= 2 ^ d) (Ht : MerkleTree.create l d = Some t) :
  MerkleTree.push_leaf t e d =
  if decide (length l < 2 ^ d) then
    t' ← MerkleTree.create (l ++ [e]) d; Some (t', Ok tt)
  else Some (t, Err MerkleTreeFull).
Proof.
  rewrite create_ctree in Ht by lia. injection Ht as <-.
  rewrite push_leaf_ctree by done. case_decide; [|done]. by rewrite create_ctree by lia.
Qed.

(** Proofs are complete: the proof [generate_proof] makes for any index of a tree built
    by [create] is accepted by [verify_merkle_proof] against the hash of the tree, and it
    proves the leaf at that position (the zero leaf beyond the end of the list). *)
Theorem generate_proof_verifies (d : nat) (l : list H256) (idx : usize) (t : MerkleTree)
    (Hd : d <= 32) (Ht : MerkleTree.create l d = Some t) :
  exists leaf branch root, MerkleTree.generate_proof t idx d = Some (leaf, branch) /\
    MerkleTree.hash t = Some root /\
    leaf = leaf_at l (Z.to_nat (uval idx mod 2 ^ Z.of_nat d)) /\
    MerkleTree.verify_merkle_proof leaf branch d idx root = Some true.
Proof.
  rewrite create_ctree in Ht by done. injection Ht as <-.
  exists (dleaf d (leaf_at l) idx), (dpath d (leaf_at l) idx), (tree_root d l).
  split_and!; [by apply generate_proof_stub; [apply stub_ctree|apply opened_ctree]
    |by apply hash_ctree|apply dleaf_pos|].
  unfold MerkleTree.verify_merkle_proof. rewrite length_dpath, Nat.eqb_refl.
  rewrite merkle_root_from_dpath, some_bind. by rewrite bool_decide_true.
Qed.

(** Proofs are sound: a proof accepted against the root of the tree over [l] proves the
    leaf at its index modulo [2^depth], or else an input hashed along its branch collides
    with one hashed along the tree's own branch for that index. *)
Theorem verify_merkle_proof_sound (d : nat) (l : list H256) (leaf : H256)
    (branch : list H256) (idx : usize)
    (Hv : MerkleTree.verify_merkle_proof leaf branch d idx (tree_root d l) = Some true) :
  leaf = leaf_at l (Z.to_nat (uval idx mod 2 ^ Z.of_nat d)) \/
  collision (branch_inputs leaf branch 0 idx)
    (branch_inputs (leaf_at l (Z.to_nat (uval idx mod 2 ^ Z.of_nat d)))
       (dpath d (leaf_at l) idx) 0 idx).
Proof.
  unfold MerkleTree.verify_merkle_proof, MerkleTree.merkle_root_from_branch in Hv.
  destruct (Nat.eqb_spec (length branch) d) as [Hlen|]; [|done].
  rewrite some_bind in Hv. injection Hv as Hv. apply bool_decide_eq_true_1 in Hv.
  rewrite firstn_all2 in Hv by lia.
  apply root_from_branch_sound in Hv as [->|Hc]; [left; apply dleaf_pos|right|done].
  by rewrite dleaf_pos in Hc.
Qed.

(** [Prover::ingest] on a prover built from a list of leaves returns the root of the
    tree with the new leaf; on a full tree it fails with [MerkleTreeFull] and leaves the
    tree unchanged, but its count has already been incremented and no longer is the number
    of leaves. *)
Theorem prover_ingest_spec (l : list H256) (e : H256) (Hl : length l <= 2 ^ 32) :
  exists p, Prover.from l = Some p /\
  if decide (length l < 2 ^ 32) then
    exists p', Prover.ingest p e = Some (p', Ok (tree_root 32 (l ++ [e]))) /\
      Prover.from (l ++ [e]) = Some p'
  else
    exists p', Prover.ingest p e = Some (p', Err (ProverMerkleTreeError MerkleTreeFull)) /\
      prover_tree p' = prover_tree p /\ uval (prover_count p') = (uval (prover_count p) + 1)%Z.
Proof.
  destruct (prover_from_ok l Hl) as (p & Hfrom & Hp). exists p. split; [done|].
  case_decide as Hlt.
  - destruct (prover_ingest_ok p l e Hp Hlt) as (p' & Hin & Hp'). exists p'.
    split; [done|]. destruct (prover_from_ok (l ++ [e])) as (p'' & Hf & Hp'').
    { rewrite length_app. cbn [length]. lia. }
    rewrite Hf. f_equal. by eapply prover_ok_unique.
  - destruct (prover_ingest_full p l e Hp) as (p' & Hin & Htr & Hc); [lia|].
    exists p'. split_and!; [done..|]. rewrite Hc. destruct Hp as [-> _ _]. lia.
Qed.

(** The processor feeds the builder the database's insertions in order and exactly
    once: when the database holds the insertions [l] (and nothing beyond them), [m] rounds
    from a new builder and leaf index 0 end without error at leaf index
    [min m (length l)], with the builder that ingested exactly the first [m] ids. *)
Theorem processor_ticks {DbError} (db : u32 -> outcome DbError (option MerkleTreeInsertion))
    (l : list MerkleTreeInsertion) (m : nat) (Hl : length l < 2 ^ 32)
    (Hdb : forall i, db i = Ok (l !! Z.to_nat (uval i))) :
  exists b0 b, Builder.new = Some b0 /\
    ingest_all b0 (message_id <$> take m l) = Some (b, Ok tt) /\
    ticks db m (uwrap 4 0) b0 =
      Some ((uwrap 4 (Z.of_nat (Nat.min m (length l))), b), Ok tt).
Proof.
  destruct builder_new_ok as (b0 & Hnew & Hb0). exists b0.
  destruct (ticks_ok db l Hdb Hl m 0 b0 [] Hb0 eq_refl (Nat.le_0_l _)) as (b & Hi & Ht).
  rewrite drop_0 in Hi. by exists b.
Qed.
End properties.

(** ** The theorems at concrete inputs *)

Lemma sample_small : length sample < 2 ^ 32.
Proof.
  apply Nat.lt_le_trans with (2 ^ 2); [cbn; lia|].
  apply Nat.pow_le_mono_r; lia.
Qed.

Lemma builder_get_proof_witness :
  length sample < 2 ^ 32 /\
  exists b0 b, @Builder.new keccak_concrete = Some b0 /\
    @ingest_all keccak_concrete b0 sample = Some (b, Ok tt) /\
    exists pf t, @Builder.get_proof keccak_concrete b (uwrap 4 1) (uwrap 4 2) = Ok pf /\
      sample !! 1 = Some (leaf pf) /\
      @incremental_all keccak_concrete Incremental.default (take 3 sample) = Some t /\
      @MerkleTree.Proof_root keccak_concrete pf = @Incremental.root keccak_concrete t.
Proof.
  split; [exact sample_small|].
  destruct (@builder_get_proof keccak_concrete zero_hashes_concrete sample (uwrap 4 1)
    (uwrap 4 2) sample_small) as (b0 & b & Hnew & Hall & pf & t & H1 & H2 & _ & _ & H3 & H4 & _).
  exists b0, b. split; [exact Hnew|]. split; [exact Hall|]. exists pf, t.
  split; [exact H1|]. split; [exact H2|]. split; [exact H3|exact H4].
Defined.

Lemma builder_in_sync_witness :
  length sample < 2 ^ 32 /\
  exists b0 b, @Builder.new keccak_concrete = Some b0 /\
    @ingest_all keccak_concrete b0 sample = Some (b, Ok tt).
Proof.
  split; [exact sample_small|].
  destruct (@builder_in_sync keccak_concrete zero_hashes_concrete sample sample_small)
    as (b0 & b & Hnew & Hall & _).
  exists b0, b. split; [exact Hnew|exact Hall].
Defined.

Lemma incremental_refines_full_witness :
  length sample < 2 ^ 32 /\
  exists t, @incremental_all keccak_concrete Incremental.default sample = Some t /\
    Incremental.index t = Some (uwrap 4 2).
Proof.
  split; [exact sample_small|].
  destruct (@incremental_refines_full keccak_concrete zero_hashes_concrete sample sample_small)
    as (t & full & Ht & _ & _ & _ & _ & Hi).
  exists t. split; [exact Ht|exact Hi].
Defined.

Lemma push_leaf_appends_witness :
  exists t, @MerkleTree.create keccak_concrete sample 2 = Some t /\
    @MerkleTree.push_leaf keccak_concrete t (uwrap 32 17) 2 =
      (t' ← @MerkleTree.create keccak_concrete (sample ++ [uwrap 32 17]) 2; Some (t', Ok tt)).
Proof.
  eexists. split; [reflexivity|].
  apply (@push_leaf_appends keccak_concrete zero_hashes_concrete 2 sample (uwrap 32 17));
    [lia|cbn; lia|reflexivity].
Defined.

Lemma generate_proof_verifies_witness :
  exists t leaf branch root, @MerkleTree.create keccak_concrete sample 2 = Some t /\
    MerkleTree.generate_proof t 1 2 = Some (leaf, branch) /\
    @MerkleTree.verify_merkle_proof keccak_concrete leaf branch 2 1 root = Some true.
Proof.
  destruct (@generate_proof_verifies keccak_concrete zero_hashes_concrete 2 sample (uwrap 8 1)
    _ ltac:(lia) eq_refl) as (leaf & branch & root & H1 & _ & _ & H2).
  eexists _, leaf, branch, root. split; [reflexivity|]. split; [exact H1|exact H2].
Defined.

Lemma verify_merkle_proof_sound_witness :
  @MerkleTree.verify_merkle_proof keccak_concrete (uwrap 32 11) [uwrap 32 7] 1 1
    (@tree_root keccak_concrete 1 [uwrap 32 7; uwrap 32 11]) = Some true /\
  ((uwrap 32 11 : H256) = leaf_at [uwrap 32 7; uwrap 32 11] 1 \/
   @collision keccak_concrete (@branch_inputs keccak_concrete (uwrap 32 11) [uwrap 32 7] 0 1)
     (@branch_inputs keccak_concrete (uwrap 32 11) [uwrap 32 7] 0 1)).
Proof.
  assert (Hv : @MerkleTree.verify_merkle_proof keccak_concrete (uwrap 32 11) [uwrap 32 7] 1 1
    (@tree_root keccak_concrete 1 [uwrap 32 7; uwrap 32 11]) = Some true)
    by (vm_compute; reflexivity).
  split; [exact Hv|].
  exact (@verify_merkle_proof_sound keccak_concrete 1 _ (uwrap 32 11) _ (uwrap 8 1) Hv).
Defined.

Lemma prover_ingest_spec_witness :
  length (replicate (2 ^ 32) H256_zero) <= 2 ^ 32 /\
  exists p p', @Prover.from keccak_concrete (replicate (2 ^ 32) H256_zero) = Some p /\
    @Prover.ingest keccak_concrete p (uwrap 32 7) =
      Some (p', Err (ProverMerkleTreeError MerkleTreeFull)) /\
    uval (prover_count p') = (uval (prover_count p) + 1)%Z.
Proof.
  pose proof (length_replicate (2 ^ 32) H256_zero) as Hn.
  assert (Hl : length (replicate (2 ^ 32) H256_zero) <= 2 ^ 32) by (rewrite Hn; apply Nat.le_refl).
  split; [exact Hl|].
  destruct (@prover_ingest_spec keccak_concrete zero_hashes_concrete
    (replicate (2 ^ 32) H256_zero) (uwrap 32 7) Hl) as (p & Hf & Hp).
  rewrite decide_False in Hp; [|rewrite Hn; apply Nat.lt_irrefl].
  destruct Hp as (p' & H1 & _ & H2). exists p, p'.
  split; [exact Hf|]. split; [exact H1|exact H2].
Defined.

Lemma processor_ticks_witness :
  let l := [MkMerkleTreeInsertion (uwrap 4 0) (uwrap 32 7);
            MkMerkleTreeInsertion (uwrap 4 1) (uwrap 32 11)] in
  let db (i : u32) : outcome unit (option MerkleTreeInsertion) := Ok (l !! Z.to_nat (uval i)) in
  exists b0 b, @Builder.new keccak_concrete = Some b0 /\
    @ticks keccak_concrete _ db 5 (uwrap 4 0) b0 = Some ((uwrap 4 2, b), Ok tt).
Proof.
  intros l db.
  assert (Hl : length l < 2 ^ 32).
  { apply Nat.lt_le_trans with (2 ^ 2); [cbn; lia|]. apply Nat.pow_le_mono_r; lia. }
  destruct (@processor_ticks keccak_concrete zero_hashes_concrete _ db l 5 Hl (λ i, eq_refl))
    as (b0 & b & Hnew & _ & Ht).
  exists b0, b. split; [exact Hnew|exact Ht].
Defined.
