(* ===== verification/Sealevel.v ===== *)
(** * The Solana runtime as the Sealevel programs see it

    The world is the state a program observes through [solana_program]: accounts (an account
    that does not exist is empty, without lamports and owned by the system program), the
    accounts whose data is held by a live [RefMut], the return data and the executing program.
    A program is a computation over it; an error or a panic aborts the transaction, which
    discards every change.

    The code behind [solana_program] and Borsh is not part of the repository: the class
    [Solana] holds the calls the programs make, [SolanaLaws] the documented behaviour the
    theorems rely on, and the classes [BorshSerialize], [BorshDeserialize] and [TryFromSlice]
    the codecs of the types that derive them. *)

From S2P Require Import Prelude.
From S2P Require Import Codec.
From stdpp Require Import base gmap list numbers sets.
From Stdlib Require Import ZArith Lia.

#[local] Open Scope Z_scope.

Abbreviation Pubkey := (uint 32).

(** The variants of [solana_program::program_error::ProgramError] that occur; an I/O error
    keeps its kind instead of its text. *)
Inductive ProgramError :=
  | Custom (code : u32)
  | InvalidArgument
  | InvalidInstructionData
  | InvalidAccountData
  | AccountDataTooSmall
  | InsufficientFunds
  | IncorrectProgramId
  | MissingRequiredSignature
  | AccountAlreadyInitialized
  | UninitializedAccount
  | NotEnoughAccountKeys
  | AccountBorrowFailed
  | InvalidSeeds
  | BorshIoError (e : io_error)
  | AccountNotRentExempt
  | UnsupportedSysvar
  | IllegalOwner
  | InvalidRealloc.

#[export] Instance io_error_eq_dec : EqDecision io_error.
Proof. solve_decision. Defined.
#[export] Instance ProgramError_eq_dec : EqDecision ProgramError.
Proof. solve_decision. Defined.

(** ** Accounts, instructions and the world *)

Record account := MkAccount { acc_lamports : u64; acc_data : bytes; acc_owner : Pubkey }.

(** What an [AccountInfo] holds beside the shared account. *)
Record AccountInfo := MkAccountInfo {
  key : Pubkey;
  is_signer : bool;
  is_writable : bool;
  executable : bool
}.

Record AccountMeta := MkAccountMeta {
  meta_pubkey : Pubkey;
  meta_is_signer : bool;
  meta_is_writable : bool
}.

Record SolanaInstruction := MkInstruction {
  ix_program_id : Pubkey;
  ix_accounts : list AccountMeta;
  ix_data : bytes
}.

Record world := MkWorld {
  accounts : gmap Pubkey account;
  borrowed : gset Pubkey;
  return_data : option (Pubkey * bytes);
  executing : Pubkey
}.

#[export] Instance account_eq_dec : EqDecision account.
Proof. solve_decision. Defined.
#[export] Instance AccountMeta_eq_dec : EqDecision AccountMeta.
Proof. solve_decision. Defined.
#[export] Instance AccountInfo_eq_dec : EqDecision AccountInfo.
Proof. solve_decision. Defined.
#[export] Instance SolanaInstruction_eq_dec : EqDecision SolanaInstruction.
Proof. solve_decision. Defined.

Definition prog := ST world ProgramError.

(** The rent sysvar: [minimum_balance] and [is_exempt]. *)
Record Rent := MkRent {
  minimum_balance : nat -> u64;
  is_exempt : u64 -> nat -> bool
}.

(** ** The calls into [solana_program], [spl_noop] and the system program *)

Class Solana := {
  system_program_id : Pubkey;
  spl_noop_id : Pubkey;
  find_program_address : list bytes -> Pubkey -> Pubkey * u8;
  create_program_address : list bytes -> Pubkey -> outcome ProgramError Pubkey;
  Rent_get : outcome ProgramError Rent;
  Clock_get_slot : outcome ProgramError u64;
  (** [invoke_signed]: the world after the call *)
  sol_invoke_signed :
    SolanaInstruction -> list AccountInfo -> list (list bytes) -> world ->
    outcome ProgramError world;
  (** [AccountInfo::realloc(new_len, zero_init)] *)
  sol_realloc : AccountInfo -> nat -> bool -> world -> outcome ProgramError world;
  (** [system_instruction] *)
  system_transfer : Pubkey -> Pubkey -> u64 -> SolanaInstruction;
  system_allocate : Pubkey -> u64 -> SolanaInstruction;
  system_assign : Pubkey -> Pubkey -> SolanaInstruction;
  system_create_account : Pubkey -> Pubkey -> u64 -> u64 -> Pubkey -> SolanaInstruction
}.

(** ** Borsh *)

Class BorshSerialize (A : Type) := serialize : A -> outcome io_error bytes.
Class BorshDeserialize (A : Type) := deserialize : bytes -> outcome io_error (A * bytes).
(** [try_from_slice], which refuses unread input. *)
Class TryFromSlice (A : Type) := try_from_slice : bytes -> outcome io_error A.
Class Default (A : Type) := default_value : A.
#[global] Hint Mode BorshSerialize ! : typeclass_instances.
#[global] Hint Mode BorshDeserialize ! : typeclass_instances.
#[global] Hint Mode TryFromSlice ! : typeclass_instances.
#[global] Hint Mode Default ! : typeclass_instances.

(** Round trips of the derived codecs. *)
Class BorshLaws (A : Type) `{BorshSerialize A, BorshDeserialize A} :=
  deserialize_serialize (x : A) b rest :
    serialize x = Ok b -> deserialize (b ++ rest) = Ok (x, rest).
Class TryFromSliceLaws (A : Type) `{BorshSerialize A, TryFromSlice A} :=
  try_from_slice_serialize (x : A) b : serialize x = Ok b -> try_from_slice b = Ok x.

(** The format of a [bool]: one byte, 0 or 1. *)
Class BorshBool `{BorshSerialize bool, BorshDeserialize bool} := {
  serialize_bool b : serialize b = Ok [byte (Z.b2z b)];
  deserialize_bool b rest : deserialize (byte (Z.b2z b) :: rest) = Ok (b, rest)
}.

(** [.map_err(|err| ProgramError::BorshIoError(err.to_string()))], and the conversion that [?]
    makes of an I/O error. *)
Definition borsh_err {A} (m : outcome io_error A) : outcome ProgramError A :=
  map_err BorshIoError m.

(** ** Account access *)

Definition get_account (w : world) (k : Pubkey) `{Solana} : account :=
  default (MkAccount (uwrap 8 0) [] system_program_id) (accounts w !! k).

Definition set_account (w : world) (k : Pubkey) (a : account) : world :=
  MkWorld (<[k := a]> (accounts w)) (borrowed w) (return_data w) (executing w).

Definition set_data (w : world) (k : Pubkey) (d : bytes) `{Solana} : world :=
  let a := get_account w k in
  set_account w k (MkAccount (acc_lamports a) d (acc_owner a)).

Definition set_borrowed (w : world) (b : gset Pubkey) : world :=
  MkWorld (accounts w) b (return_data w) (executing w).

Section access.
Context `{Solana}.

(** [account.owner] *)
Definition owner_of (i : AccountInfo) : prog Pubkey := λ w,
  Ok (acc_owner (get_account w (key i)), w).

(** [account.lamports()] *)
Definition lamports_of (i : AccountInfo) : prog u64 := λ w,
  Ok (acc_lamports (get_account w (key i)), w).

(** [account.data.borrow()], which panics while a [RefMut] is alive. *)
Definition data_of (i : AccountInfo) : prog bytes := λ w,
  if decide (key i ∈ borrowed w) then Panic else Ok (acc_data (get_account w (key i)), w).

(** [account.try_borrow_mut_data()], released at once. *)
Definition try_data_mut (i : AccountInfo) : prog bytes := λ w,
  if decide (key i ∈ borrowed w) then Err AccountBorrowFailed
  else Ok (acc_data (get_account w (key i)), w).

(** [account.try_borrow_mut_data()] held by the caller, and the end of the hold. *)
Definition hold_data_mut (i : AccountInfo) : prog bytes := λ w,
  if decide (key i ∈ borrowed w) then Err AccountBorrowFailed
  else Ok (acc_data (get_account w (key i)), set_borrowed w ({[key i]} ∪ borrowed w)).

Definition drop_data_mut (i : AccountInfo) : prog unit := λ w,
  Ok (tt, set_borrowed w (borrowed w ∖ {[key i]})).

(** A write through a mutable borrow of the data. *)
Definition write_data (i : AccountInfo) (d : bytes) : prog unit := λ w,
  Ok (tt, set_data w (key i) d).

(** [account.data_len()] and [account.data_is_empty()] *)
Definition data_len (i : AccountInfo) : prog nat := d ← data_of i; mret (length d).
Definition data_is_empty (i : AccountInfo) : prog bool :=
  d ← data_of i; mret (match d with [] => true | _ => false end).

(** [account.realloc(new_len, zero_init)] *)
Definition realloc (i : AccountInfo) (new_len : nat) (zero_init : bool) : prog unit := λ w,
  match sol_realloc i new_len zero_init w with
  | Ok w' => Ok (tt, w')
  | Err e => Err e
  | Panic => Panic
  end.

(** [invoke_signed] and [invoke] *)
Definition invoke_signed (ix : SolanaInstruction) (infos : list AccountInfo)
    (seeds : list (list bytes)) : prog unit := λ w,
  match sol_invoke_signed ix infos seeds w with
  | Ok w' => Ok (tt, w')
  | Err e => Err e
  | Panic => Panic
  end.

Definition invoke (ix : SolanaInstruction) (infos : list AccountInfo) : prog unit :=
  invoke_signed ix infos [].

(** [set_return_data] and [get_return_data], which reports no data as [None]. *)
Definition set_return_data (d : bytes) : prog unit := λ w,
  Ok (tt, MkWorld (accounts w) (borrowed w) (Some (executing w, d)) (executing w)).

Definition get_return_data : prog (option (Pubkey * bytes)) := λ w, Ok (return_data w, w).

(** [next_account_info]: the account and the rest of the iterator. *)
Definition next_account_info (accounts_iter : list AccountInfo) :
    prog (AccountInfo * list AccountInfo) :=
  match accounts_iter with
  | [] => throw NotEnoughAccountKeys
  | i :: accounts_iter => mret (i, accounts_iter)
  end.
End access.

(** A write of [account.lamports] *)
Definition set_lamports (i : AccountInfo) (l : u64) `{Solana} : prog unit := λ w,
  let a := get_account w (key i) in
  Ok (tt, set_account w (key i) (MkAccount l (acc_data a) (acc_owner a))).

(** ** Integer arithmetic of the programs

    Every program crate asks for overflow checks in its own release profile; Cargo ignores the
    profile of a workspace member and the workspace sets none. The results hold for both
    builds: past the width of the type an operation panics with checks and wraps without. *)

Class OverflowChecks := overflow_checks : bool.

Definition arith `{OverflowChecks} {E} (n : nat) (z : Z) : outcome E (uint n) :=
  if (0 <=? z) && (z <? umax n) then Ok (uwrap n z)
  else if overflow_checks then Panic else Ok (uwrap n z).

Lemma arith_ok `{OverflowChecks} {E} n z (r : uint n) :
  arith (E := E) n z = Ok r -> r = uwrap n z.
Proof. unfold arith. repeat case_match; congruence. Qed.

Lemma arith_fits `{OverflowChecks} {E} n z :
  0 <= z < umax n -> arith (E := E) n z = Ok (uwrap n z).
Proof. intros Hz. unfold arith. by rewrite (proj2 (andb_true_iff _ _)) by lia. Qed.

(** [AccountMeta] of an [AccountInfo], as the programs build it. *)
Definition meta_of (i : AccountInfo) : AccountMeta :=
  MkAccountMeta (key i) (is_signer i) (is_writable i).

(** [AccountMeta::new] and [AccountMeta::new_readonly] *)
Definition AccountMeta_new (pubkey : Pubkey) (is_signer : bool) : AccountMeta :=
  MkAccountMeta pubkey is_signer true.
Definition AccountMeta_new_readonly (pubkey : Pubkey) (is_signer : bool) : AccountMeta :=
  MkAccountMeta pubkey is_signer false.

(** A seed list with its bump seed, the second form of every seeds macro. *)
Definition with_bump (seeds : list bytes) (bump : u8) : list bytes := seeds ++ [[bump]].

(** ** What the theorems rely on *)

(** The data and the owner of an account. *)
Definition content `{Solana} (w : world) (k : Pubkey) : bytes * Pubkey :=
  (acc_data (get_account w k), acc_owner (get_account w k)).

(** The lamports of an account. *)
Definition lamports_at `{Solana} (w : world) (k : Pubkey) : Z :=
  uval (acc_lamports (get_account w k)).

(** The caller and its borrows are the same. *)
Definition frame (w w' : world) : Prop :=
  executing w' = executing w /\ borrowed w' = borrowed w.

#[export] Instance frame_preorder : PreOrder frame.
Proof.
  split; [by split|]. intros w1 w2 w3 [E1 B1] [E2 B2]. split; congruence.
Qed.

Class SolanaLaws `{Solana} := {
  (** a call returns to the caller with the caller's borrows *)
  invoke_frame ix infos seeds w w' :
    sol_invoke_signed ix infos seeds w = Ok w' -> frame w w';
  (** [invoke_signed] refuses an instruction on an account whose data is mutably borrowed *)
  invoke_borrowed ix infos seeds w w' k :
    k ∈ borrowed w -> k ∈ meta_pubkey <$> ix_accounts ix ->
    sol_invoke_signed ix infos seeds w <> Ok w';
  (** a call sees only the accounts of its instruction *)
  invoke_not_passed ix infos seeds w w' k :
    sol_invoke_signed ix infos seeds w = Ok w' ->
    k ∉ meta_pubkey <$> ix_accounts ix -> content w' k = content w k;
  (** only the owner of an account changes its data or gives it away, and no program but the
      caller itself is re-entered *)
  invoke_foreign ix infos seeds w w' k :
    sol_invoke_signed ix infos seeds w = Ok w' ->
    ix_program_id ix <> executing w ->
    acc_owner (get_account w k) = executing w ->
    content w' k = content w k;
  (** the system program *)
  transfer_program from to l : ix_program_id (system_transfer from to l) = system_program_id;
  allocate_program k s : ix_program_id (system_allocate k s) = system_program_id;
  assign_program k o : ix_program_id (system_assign k o) = system_program_id;
  create_program from k l s o :
    ix_program_id (system_create_account from k l s o) = system_program_id;
  transfer_content from to l infos seeds w w' k :
    sol_invoke_signed (system_transfer from to l) infos seeds w = Ok w' ->
    content w' k = content w k;
  transfer_lamports from to l infos seeds w w' k :
    from <> to -> sol_invoke_signed (system_transfer from to l) infos seeds w = Ok w' ->
    lamports_at w' k = if decide (k = from) then lamports_at w from - uval l
                       else if decide (k = to) then lamports_at w to + uval l
                       else lamports_at w k;
  allocate_content k s infos seeds w w' k' :
    sol_invoke_signed (system_allocate k s) infos seeds w = Ok w' ->
    content w' k' = if decide (k' = k) then (replicate (Z.to_nat s) (byte 0), snd (content w k))
                    else content w k';
  assign_content k o infos seeds w w' k' :
    sol_invoke_signed (system_assign k o) infos seeds w = Ok w' ->
    content w' k' = if decide (k' = k) then (fst (content w k), o) else content w k';
  create_content from k l s o infos seeds w w' k' :
    sol_invoke_signed (system_create_account from k l s o) infos seeds w = Ok w' ->
    content w' k' = if decide (k' = k) then (replicate (Z.to_nat s) (byte 0), o)
                    else content w k';
  (** the system program allocates and creates only accounts not in use *)
  allocate_fresh k s infos seeds w w' :
    sol_invoke_signed (system_allocate k s) infos seeds w = Ok w' ->
    content w k = ([], system_program_id);
  create_fresh from k l s o infos seeds w w' :
    sol_invoke_signed (system_create_account from k l s o) infos seeds w = Ok w' ->
    content w k = ([], system_program_id);
  (** [realloc] keeps the data that fits and touches nothing else *)
  realloc_frame i n z w w' :
    sol_realloc i n z w = Ok w' -> frame w w';
  realloc_content i n z w w' k' :
    sol_realloc i n z w = Ok w' ->
    exists tail, content w' k' =
      if decide (k' = key i) then (take n (fst (content w k')) ++ tail, snd (content w k'))
      else content w k';
  realloc_length i n z w w' :
    sol_realloc i n z w = Ok w' -> length (acc_data (get_account w' (key i))) = n;
  (** the address [find_program_address] finds is the one its seeds and bump create *)
  find_create seeds p k b :
    find_program_address seeds p = (k, b) -> create_program_address (seeds ++ [[b]]) p = Ok k
}.

Section lemmas.
Context `{Solana}.

Lemma get_account_set w k a k' :
  get_account (set_account w k a) k' = if decide (k' = k) then a else get_account w k'.
Proof.
  unfold get_account, set_account. cbn [accounts]. case_decide as Hk.
  - subst. by rewrite lookup_insert_eq.
  - by rewrite lookup_insert_ne.
Qed.

Lemma content_set_data w k d k' :
  content (set_data w k d) k' =
  if decide (k' = k) then (d, snd (content w k)) else content w k'.
Proof.
  unfold content, set_data. rewrite get_account_set. by case_decide.
Qed.

Lemma content_set_borrowed w b k : content (set_borrowed w b) k = content w k.
Proof. done. Qed.

Lemma data_of_ok i w r :
  data_of i w = Ok r <-> key i ∉ borrowed w /\ r = (fst (content w (key i)), w).
Proof. unfold data_of. case_decide; naive_solver. Qed.

Lemma try_data_mut_ok i w r :
  try_data_mut i w = Ok r <-> key i ∉ borrowed w /\ r = (fst (content w (key i)), w).
Proof. unfold try_data_mut. case_decide; naive_solver. Qed.

Lemma hold_data_mut_ok i w r :
  hold_data_mut i w = Ok r <->
  key i ∉ borrowed w /\
  r = (fst (content w (key i)), set_borrowed w ({[key i]} ∪ borrowed w)).
Proof. unfold hold_data_mut. case_decide; naive_solver. Qed.

Lemma owner_of_ok i w r : owner_of i w = Ok r <-> r = (snd (content w (key i)), w).
Proof. unfold owner_of, content. cbn [snd]. naive_solver. Qed.

Lemma invoke_signed_ok ix infos seeds w r :
  invoke_signed ix infos seeds w = Ok r <->
  exists w', sol_invoke_signed ix infos seeds w = Ok w' /\ r = (tt, w').
Proof. unfold invoke_signed. destruct (sol_invoke_signed ix infos seeds w); naive_solver. Qed.

Lemma invoke_ok ix infos w r :
  invoke ix infos w = Ok r <->
  exists w', sol_invoke_signed ix infos [] w = Ok w' /\ r = (tt, w').
Proof. apply invoke_signed_ok. Qed.

Lemma next_account_info_ok l w r :
  next_account_info l w = Ok r -> exists i l', l = i :: l' /\ r = ((i, l'), w).
Proof. destruct l as [|i l']; [done|]. intros [= <-]. by exists i, l'. Qed.

Lemma lamports_of_ok i w r :
  lamports_of i w = Ok r <-> r = (acc_lamports (get_account w (key i)), w).
Proof. unfold lamports_of. naive_solver. Qed.
Lemma data_is_empty_ok i w r :
  data_is_empty i w = Ok r <->
  key i ∉ borrowed w /\ r = (bool_decide (fst (content w (key i)) = []), w).
Proof.
  unfold data_is_empty, data_of, mbind, ST_bind, mret, ST_ret. cbn [content fst].
  case_decide; [naive_solver|]. destruct (acc_data _); cbn; naive_solver.
Qed.

Lemma data_len_ok i w r :
  data_len i w = Ok r <-> key i ∉ borrowed w /\ r = (length (fst (content w (key i))), w).
Proof.
  unfold data_len, data_of, mbind, ST_bind, mret, ST_ret. cbn [content fst].
  case_decide; naive_solver.
Qed.
End lemmas.

Section guarded.
Context `{SolanaLaws}.

(** An account whose data the caller holds is out of reach of every call. *)
Lemma invoke_guarded ix infos seeds w w' k :
  sol_invoke_signed ix infos seeds w = Ok w' -> k ∈ borrowed w ->
  content w' k = content w k /\ k ∈ borrowed w'.
Proof.
  intros Hi Hk. split.
  - destruct (decide (k ∈ meta_pubkey <$> ix_accounts ix)) as [Hin|Hin].
    + by destruct (invoke_borrowed _ _ _ _ _ _ Hk Hin Hi).
    + by eapply invoke_not_passed.
  - by destruct (invoke_frame _ _ _ _ _ Hi) as [_ ->].
Qed.

(** A call to another program leaves alone what the caller owns. *)
Lemma invoke_keeps ix infos seeds w w' k d :
  sol_invoke_signed ix infos seeds w = Ok w' -> ix_program_id ix <> executing w ->
  content w k = (d, executing w) -> content w' k = (d, executing w').
Proof.
  intros Hi Hne Hk. destruct (invoke_frame _ _ _ _ _ Hi) as [-> _]. rewrite <- Hk.
  eapply invoke_foreign; [done|done|]. by apply (f_equal snd) in Hk.
Qed.
End guarded.

(** ** Calls between the modelled programs

    What the runtime promises of a call of a program whose code is modelled: it runs the
    program on the accounts of the instruction. [outer] is the runtime as the caller sees it;
    the handler is the program under the runtime as the callee sees it, which may not call
    back. *)

(** The world in which a called program starts. *)
Definition entered (w : world) (program : Pubkey) : world := MkWorld (accounts w) ∅ None program.

(** The world of the caller after the call. *)
Definition left_world (w wc : world) : world :=
  MkWorld (accounts wc) (borrowed w) (return_data wc) (executing w).

Class Callee (outer : Solana) (program : Pubkey)
    (handler : Pubkey -> list AccountInfo -> bytes -> prog unit) := {
  callee_runs ix infos seeds w w' :
    ix_program_id ix = program -> @sol_invoke_signed outer ix infos seeds w = Ok w' ->
    exists infos' wc, (meta_of <$> infos') = ix_accounts ix /\
      handler program infos' (ix_data ix) (entered w program) = Ok (tt, wc) /\
      w' = left_world w wc
}.
