(* ===== verification/AccountUtils.v ===== *)
(** * Account utilities ([sealevel/libraries/account-utils], [access-control])

    [AccountData]: the initialised flag and the Borsh data of an account, its storage with and
    without reallocation, the creation of program-derived accounts and their checks; the
    discriminator prefixes; the ownership check. *)

From S2P Require Import Prelude.
From S2P Require Import Codec.
From S2P Require Import Sealevel.
From stdpp Require Import base gmap list numbers sets.
From Stdlib Require Import ZArith Lia.

#[local] Open Scope Z_scope.

(** [trait SizedData] *)
Class SizedData (A : Type) := sized : A -> nat.
#[global] Hint Mode SizedData ! : typeclass_instances.

(** ** [AccountData<T>]; the box and the wrapper are dropped. *)

Module AccountData.
Section account_data.
Context `{Solana} {T : Type}.
Context `{BorshSerialize bool, BorshDeserialize bool}.
Context `{BorshSerialize T, BorshDeserialize T, Default T}.

(** [SizedData for AccountData<T>] *)
Definition size `{SizedData T} (self : T) : nat := (1 + sized self)%nat.

(** [AccountData::fetch_data] *)
Definition fetch_data (buf : bytes) : outcome ProgramError (option T) :=
  match buf with
  | [] => Ok None
  | _ =>
      '(initialized, buf) ← borsh_err (deserialize (A := bool) buf);
      if (initialized : bool) then
        '(data, _) ← borsh_err (deserialize (A := T) buf);
        Ok (Some data)
      else Ok None
  end.

(** [AccountData::fetch] *)
Definition fetch (buf : bytes) : outcome ProgramError T :=
  data ← fetch_data buf;
  Ok (default default_value data).

(** What [store_in_slice] writes. *)
Definition serialized (self : T) : outcome io_error bytes :=
  flag ← serialize true;
  data ← serialize self;
  Ok (flag ++ data).

(** [AccountData::store_in_slice]: the slice afterwards. A slice too short for the bytes
    fails with [WriteZero]; what such a failure leaves in the slice is overwritten by the
    retry of [store] or discarded with the transaction. *)
Definition store_in_slice (self : T) (target : bytes) : outcome io_error bytes :=
  out ← serialized self;
  if decide (length out <= length target)%nat then Ok (out ++ drop (length out) target)
  else Err WriteZero.

(** The loop of [AccountData::store] on the SVM. *)
Fixpoint store_loop (fuel : nat) (self : T) (account : AccountInfo) (allow_realloc : bool) :
    prog unit :=
  match fuel with
  | O => panic
  | S fuel =>
      data ← try_data_mut account;
      match store_in_slice self data with
      | Ok data' => write_data account data'
      | Err WriteZero =>
          if allow_realloc then
            realloc account (length data + 1024) false;;
            store_loop fuel self account allow_realloc
          else throw (BorshIoError WriteZero)
      | Err e => throw (BorshIoError e)
      | Panic => panic
      end
  end.

(** Every round of the loop makes room for 1024 bytes more. *)
Definition store_fuel (self : T) : nat :=
  match serialized self with Ok out => S (length out) | _ => 1 end.

(** [AccountData::store] *)
Definition store (self : T) (account : AccountInfo) (allow_realloc : bool) : prog unit :=
  if negb (is_writable account) || executable account then throw InvalidAccountData
  else store_loop (store_fuel self) self account allow_realloc.

(** [AccountData::store_with_rent_exempt_realloc] *)
Definition store_with_rent_exempt_realloc `{SizedData T} (self : T)
    (account_info : AccountInfo) (rent : Rent) (payer_info : AccountInfo) : prog unit :=
  let required_size := size self in
  account_data_len ← data_len account_info;
  let required_account_data_len := Nat.max required_size account_data_len in
  let required_rent := minimum_balance rent required_account_data_len in
  lamports ← lamports_of account_info;
  (if uval lamports <? required_rent then
     invoke (system_transfer (key payer_info) (key account_info)
               (uwrap 8 (required_rent - uval lamports))) [payer_info; account_info]
   else mret tt);;
  (if decide (account_data_len < required_account_data_len)%nat then
     realloc account_info required_account_data_len false
   else mret tt);;
  store self account_info false.

End account_data.
End AccountData.

(** ** Program-derived accounts *)

Section pda.
Context `{Solana}.

(** [create_pda_account] *)
Definition create_pda_account (payer : AccountInfo) (rent : Rent) (space : nat)
    (owner : Pubkey) (system_program new_pda_account : AccountInfo)
    (new_pda_signer_seeds : list bytes) : prog unit :=
  lamports ← lamports_of new_pda_account;
  let minimum := Z.max (minimum_balance rent space) 1 in
  if 0 <? uval lamports then
    let required_lamports := Z.max (minimum - uval lamports) 0 in
    (if 0 <? required_lamports then
       invoke (system_transfer (key payer) (key new_pda_account) (uwrap 8 required_lamports))
         [payer; new_pda_account; system_program]
     else mret tt);;
    invoke_signed (system_allocate (key new_pda_account) (uwrap 8 (Z.of_nat space)))
      [new_pda_account; system_program] [new_pda_signer_seeds];;
    invoke_signed (system_assign (key new_pda_account) owner)
      [new_pda_account; system_program] [new_pda_signer_seeds]
  else
    invoke_signed
      (system_create_account (key payer) (key new_pda_account) (uwrap 8 minimum)
         (uwrap 8 (Z.of_nat space)) owner)
      [payer; new_pda_account; system_program] [new_pda_signer_seeds].

(** [verify_rent_exempt] *)
Definition verify_rent_exempt (account : AccountInfo) (rent : Rent) : prog unit :=
  lamports ← lamports_of account;
  len ← data_len account;
  if negb (is_exempt rent lamports len) then throw AccountNotRentExempt else mret tt.

(** [verify_account_uninitialized] *)
Definition verify_account_uninitialized (account : AccountInfo) : prog unit :=
  empty ← data_is_empty account;
  if (empty : bool) then
    owner ← owner_of account;
    if decide (owner = system_program_id) then mret tt else throw AccountAlreadyInitialized
  else throw AccountAlreadyInitialized.

End pda.

(** ** Readers over a byte slice ([std::io::Read for &[u8]]) *)

(** A reader over a byte slice that fails with an I/O error. *)
Definition slice_reader := ST bytes io_error.

Definition slice_read_exact (n : nat) : slice_reader bytes := λ s,
  if decide (n <= length s)%nat then Ok (take n s, drop n s) else Err UnexpectedEof.

Definition slice_read_to_end : slice_reader bytes := λ s, Ok (s, []).

(** ** Discriminators ([discriminator.rs]) *)

Definition PROGRAM_INSTRUCTION_DISCRIMINATOR : bytes := blit [1; 1; 1; 1; 1; 1; 1; 1].

(** [trait DiscriminatorData]: [Discriminator::LENGTH] bytes. *)
Class DiscriminatorData (A : Type) := DISCRIMINATOR : bytes.
#[global] Hint Mode DiscriminatorData ! : typeclass_instances.
#[global] Arguments DISCRIMINATOR A {_}.

Definition Discriminator_LENGTH : nat := 8.

Record DiscriminatorPrefixed (T : Type) := MkDiscriminatorPrefixed { prefixed_data : T }.
Arguments MkDiscriminatorPrefixed {T} prefixed_data.
Arguments prefixed_data {T}.

#[export] Instance DiscriminatorPrefixed_default `{Default T} :
  Default (DiscriminatorPrefixed T) := MkDiscriminatorPrefixed default_value.

(** [slice.split_at(mid)]; [None] is the panic on [mid] out of range. *)
Definition split_at (l : bytes) (mid : nat) : option (bytes * bytes) :=
  if decide (mid <= length l)%nat then Some (take mid l, drop mid l) else None.

#[export] Instance DiscriminatorPrefixed_serialize `{DiscriminatorData T, BorshSerialize T} :
    BorshSerialize (DiscriminatorPrefixed T) := λ self,
  data ← serialize (prefixed_data self);
  Ok (DISCRIMINATOR T ++ data).

(** The reader is not advanced. *)
#[export] Instance DiscriminatorPrefixed_deserialize
    `{DiscriminatorData T, BorshDeserialize T} :
    BorshDeserialize (DiscriminatorPrefixed T) := λ buf,
  '(discriminator, rest) ← or_panic (split_at buf Discriminator_LENGTH);
  if decide (discriminator = DISCRIMINATOR T) then
    '(data, _) ← deserialize (A := T) rest;
    Ok (MkDiscriminatorPrefixed data, buf)
  else Err InvalidData.

#[export] Instance DiscriminatorPrefixed_size `{DiscriminatorData T, SizedData T} :
    SizedData (DiscriminatorPrefixed T) := λ self,
  (Discriminator_LENGTH + sized (prefixed_data self))%nat.

(** [DiscriminatorEncode::encode] and [DiscriminatorDecode::decode] *)
Definition discriminator_encode `{DiscriminatorData T, BorshSerialize T} (self : T) :
    outcome ProgramError bytes :=
  data ← borsh_err (serialize self);
  Ok (DISCRIMINATOR T ++ data).

Definition discriminator_decode `{DiscriminatorData T, TryFromSlice T} (data : bytes) :
    outcome ProgramError T :=
  '(discriminator, rest) ← or_panic (split_at data Discriminator_LENGTH);
  if decide (discriminator = DISCRIMINATOR T) then
    map_err (λ _, InvalidInstructionData) (try_from_slice rest)
  else Err InvalidInstructionData.

(** ** Access control ([access-control]) *)

Class AccessControl (A : Type) := {
  ac_owner : A -> option Pubkey;
  set_owner : A -> option Pubkey -> outcome ProgramError A
}.
#[global] Hint Mode AccessControl ! : typeclass_instances.

Section access_control.
Context `{AccessControl A}.

Definition ensure_owner_signer (self : A) (maybe_owner : AccountInfo) :
    outcome ProgramError unit :=
  owner ← ok_or (ac_owner self) InvalidArgument;
  if negb (is_signer maybe_owner) then Err MissingRequiredSignature
  else if decide (owner = key maybe_owner) then Ok tt
  else Err InvalidArgument.

Definition transfer_ownership (self : A) (maybe_existing_owner : AccountInfo)
    (new_owner : option Pubkey) : outcome ProgramError A :=
  ensure_owner_signer self maybe_existing_owner;;
  set_owner self new_owner.
End access_control.

(** ** Lemmas *)

(** What [fetch] needs of a codec: the data comes back, whatever follows it. *)
Class FetchLaws (T : Type) `{BorshSerialize T, BorshDeserialize T} :=
  deserialize_stored (x : T) b rest :
    serialize x = Ok b -> exists rest', deserialize (b ++ rest) = Ok (x, rest').

#[export] Instance Borsh_FetchLaws `{BorshLaws T} : FetchLaws T.
Proof. intros x b rest Hb. exists rest. by apply deserialize_serialize. Qed.

#[export] Instance DiscriminatorPrefixed_FetchLaws `{DiscriminatorData T} `{BorshLaws T}
    `{!TCEq (length (DISCRIMINATOR T)) Discriminator_LENGTH} :
  FetchLaws (DiscriminatorPrefixed T).
Proof.
  intros [x] b rest Hb. unfold serialize, DiscriminatorPrefixed_serialize in Hb.
  apply bind_ok in Hb as (d & Hd & Hb). apply (inj Ok) in Hb as <-. cbn in Hd.
  assert (Hl : length (DISCRIMINATOR T) = Discriminator_LENGTH) by (by apply TCEq_eq).
  unfold deserialize, DiscriminatorPrefixed_deserialize. rewrite <- app_assoc. unfold split_at.
  rewrite decide_True by (rewrite length_app; lia).
  rewrite take_app_exact, drop_app_exact by done. cbn [or_panic mbind outcome_bind].
  rewrite decide_True by done. rewrite (deserialize_serialize x d rest Hd). cbn. by eexists.
Qed.

Lemma map_err_st_ok {S E E' A} (f : E -> E') (m : ST S E A) s r :
  map_err_st f m s = Ok r <-> m s = Ok r.
Proof. unfold map_err_st. destruct (m s); cbn; split; congruence. Qed.

(** Takes one step off a successful run of a program. *)
Ltac prog_step H :=
  let a := fresh "a" in let s := fresh "s" in let Hm := fresh "Hm" in
  apply st_bind_ok in H as (a & s & Hm & H);
  try match type of Hm with
  | next_account_info ?l0 _ = Ok _ =>
      let i := fresh "i" in let l := fresh "l" in let E := fresh "E" in
      apply next_account_info_ok in Hm as (i & l & E & Hm); injection Hm as -> ->; try subst l0
  | require _ _ _ = Ok _ => apply require_ok in Hm as [? Hm]; injection Hm as -> ->
  | lift _ _ = Ok _ =>
      let x := fresh "x" in
      apply lift_ok in Hm as (x & ? & Hm); injection Hm as -> ->
  | mret _ _ = Ok _ => injection Hm as <- <-
  | data_of _ _ = Ok _ => apply data_of_ok in Hm as [? Hm]; injection Hm as -> ->
  | hold_data_mut _ _ = Ok _ => apply hold_data_mut_ok in Hm as [? Hm]; injection Hm as -> ->
  | owner_of _ _ = Ok _ => apply owner_of_ok in Hm; injection Hm as -> ->
  | lamports_of _ _ = Ok _ => apply lamports_of_ok in Hm; injection Hm as -> ->
  | get _ = Ok _ => injection Hm as <- <-
  | get_return_data _ = Ok _ => injection Hm as <- <-
  | write_data _ _ _ = Ok _ => injection Hm as <- <-
  | invoke _ _ _ = Ok _ =>
      let w := fresh "w" in apply invoke_ok in Hm as (w & ? & Hm); injection Hm as -> ->
  | invoke_signed _ _ _ _ = Ok _ =>
      let w := fresh "w" in apply invoke_signed_ok in Hm as (w & ? & Hm); injection Hm as -> ->
  end;
  repeat match goal with
  | Hb : bool_decide _ = true |- _ => apply bool_decide_eq_true_1 in Hb
  | Hb : andb _ _ = true |- _ => apply andb_prop in Hb as [? ?]
  end.

(** Runs the first step of a program, by the equation [L] for its successful run. *)
Ltac prog_run L := rewrite (st_bind_eq _ _ _ _ _ L).

Lemma next_cons {i l w} : next_account_info (i :: l) w = Ok ((i, l), w).
Proof. done. Qed.

Lemma require_true {S E} {b} {e : E} {s : S} : b = true -> require b e s = Ok (tt, s).
Proof. by intros ->. Qed.

Lemma lift_Ok {A} (m : outcome ProgramError A) a (w : world) :
  m = Ok a -> lift m w = Ok (a, w).
Proof. by intros ->. Qed.

Section account_data_lemmas.
Context `{Solana} {T : Type}.
Context `{BorshSerialize bool, BorshDeserialize bool, !BorshBool}.
Context `{BorshSerialize T, BorshDeserialize T, !FetchLaws T, Default T}.

Lemma serialized_ok (x : T) out :
  AccountData.serialized x = Ok out -> exists b, serialize x = Ok b /\ out = byte 1 :: b.
Proof.
  unfold AccountData.serialized. rewrite serialize_bool.
  destruct (serialize x) as [b|e|]; intros [= <-]. by exists b.
Qed.

Lemma store_in_slice_ok (x : T) target d :
  AccountData.store_in_slice x target = Ok d <->
  exists b, serialize x = Ok b /\ (S (length b) <= length target)%nat /\
    d = byte 1 :: b ++ drop (S (length b)) target.
Proof.
  unfold AccountData.store_in_slice. split.
  - intros Hs. step_ok Hs. apply serialized_ok in Hm as (b & Hb & ->). case_decide; [|done].
    injection Hs as <-. exists b. split_and!; [done|done|]. done.
  - intros (b & Hb & Hl & ->). unfold AccountData.serialized.
    rewrite serialize_bool, Hb. cbn [mbind outcome_bind]. by rewrite decide_True by done.
Qed.

Lemma fetch_data_stored (x : T) b rest :
  serialize x = Ok b -> AccountData.fetch_data (byte 1 :: b ++ rest) = Ok (Some x).
Proof.
  intros Hb. unfold AccountData.fetch_data.
  change (byte 1) with (byte (Z.b2z true)). rewrite deserialize_bool.
  cbn [mbind outcome_bind borsh_err map_err].
  by destruct (deserialize_stored x b rest Hb) as [rest' ->].
Qed.

Lemma fetch_stored (x : T) b rest :
  serialize x = Ok b -> AccountData.fetch (byte 1 :: b ++ rest) = Ok x.
Proof. intros Hb. unfold AccountData.fetch. by rewrite (fetch_data_stored x b rest Hb). Qed.

(** The fuel is enough: from [store_fuel] on, the loop does not depend on it. *)
Lemma store_loop_enough `{!SolanaLaws} out (x : T) n m i r w :
  AccountData.serialized x = Ok out ->
  (length out - length (acc_data (get_account w (key i))) < n)%nat ->
  (length out - length (acc_data (get_account w (key i))) < m)%nat ->
  AccountData.store_loop n x i r w = AccountData.store_loop m x i r w.
Proof.
  intros Hout. revert m w. induction n as [|n IH]; intros [|m] w Hn Hm; try lia.
  cbn [AccountData.store_loop]. unfold mbind, ST_bind.
  destruct (try_data_mut i w) as [[d w']|e|] eqn:Hd; [|done|done].
  apply try_data_mut_ok in Hd as [_ [= -> ->]].
  unfold AccountData.store_in_slice. rewrite Hout. cbn [mbind outcome_bind].
  cbn [content fst]. case_decide as Hlen; [done|].
  destruct r; [|done]. unfold realloc.
  destruct (sol_realloc _ _ _ _) as [w'|e|] eqn:Hr; [|done|done].
  apply realloc_length in Hr. apply IH; lia.
Qed.

Lemma store_loop_err n m (x : T) i r w :
  (forall out, AccountData.serialized x <> Ok out) ->
  (AccountData.serialized x <> Err WriteZero) -> (1 <= n)%nat ->
  AccountData.store_loop n x i r w = AccountData.store_loop (S m) x i r w.
Proof.
  intros Hout Hwz Hn. destruct n as [|n]; [lia|]. cbn [AccountData.store_loop].
  unfold mbind, ST_bind. destruct (try_data_mut i w) as [[d w']|e'|]; [|done|done].
  unfold AccountData.store_in_slice.
  destruct (AccountData.serialized x) as [out|[]|]; try done. by destruct (Hout out).
Qed.

Lemma store_loop_mono `{!SolanaLaws} n (x : T) i r w :
  AccountData.serialized x <> Err WriteZero ->
  (AccountData.store_fuel x <= n)%nat ->
  AccountData.store_loop n x i r w =
  AccountData.store_loop (AccountData.store_fuel x) x i r w.
Proof.
  unfold AccountData.store_fuel.
  destruct (AccountData.serialized x) as [out|e|] eqn:Hout; intros Hwz Hn.
  - apply (store_loop_enough out); [done|lia|lia].
  - apply (store_loop_err n 0); [by rewrite Hout|by rewrite Hout|done].
  - apply (store_loop_err n 0); [by rewrite Hout|by rewrite Hout|done].
Qed.

Lemma store_ok (x : T) i w r :
  AccountData.store x i false w = Ok r <->
  is_writable i = true /\ executable i = false /\ key i ∉ borrowed w /\
  exists d, AccountData.store_in_slice x (fst (content w (key i))) = Ok d /\
    r = (tt, set_data w (key i) d).
Proof.
  unfold AccountData.store. destruct (is_writable i), (executable i); cbn [negb orb];
    try (split; [done|naive_solver]).
  assert (Hf : exists n, AccountData.store_fuel x = S n).
  { unfold AccountData.store_fuel. destruct (AccountData.serialized x); eauto. }
  destruct Hf as [n ->]. cbn [AccountData.store_loop]. split.
  - intros Hs. apply st_bind_ok in Hs as (d & w1 & Hd & Hs).
    apply try_data_mut_ok in Hd as [Hb [= -> ->]].
    destruct (AccountData.store_in_slice _ _) as [d'|[]|] eqn:Hd; try done.
    injection Hs as <-. split_and!; try done. by exists d'.
  - intros (_ & _ & Hb & d & Hd & ->).
    unfold mbind, ST_bind. rewrite (proj2 (try_data_mut_ok i w _) (conj Hb eq_refl)).
    by rewrite Hd.
Qed.

(** A successful store, with or without reallocation, leaves the flag and the data at the
    start of the account and changes nothing else. *)
Lemma store_content `{!SolanaLaws} (x : T) i r w res :
  AccountData.store x i r w = Ok res ->
  is_writable i = true /\ key i ∉ borrowed w /\
  exists w' b tail, res = (tt, w') /\ serialize x = Ok b /\ frame w w' /\
    forall k, content w' k =
      if decide (k = key i) then (byte 1 :: b ++ tail, snd (content w k)) else content w k.
Proof.
  unfold AccountData.store. destruct (is_writable i), (executable i); cbn [negb orb];
    try done. intros Hs. split; [done|]. revert w Hs.
  induction (AccountData.store_fuel x) as [|n IH]; intros w Hs; [done|].
  cbn [AccountData.store_loop] in Hs. apply st_bind_ok in Hs as (d & w1 & Hd & Hs).
  apply try_data_mut_ok in Hd as [Hb [= -> ->]]. split; [done|].
  destruct (AccountData.store_in_slice x _) as [d'|[]|] eqn:Hd'; try done.
  - injection Hs as <-. apply store_in_slice_ok in Hd' as (b & Hx & _ & ->).
    eexists _, b, _. split_and!; [done|done|by split|]. intros k.
    rewrite content_set_data. case_decide; [|done]. by subst.
  - destruct r; [|done]. apply st_bind_ok in Hs as ([] & w2 & Hr & Hs).
    unfold realloc in Hr.
    destruct (sol_realloc _ _ _ _) as [w2'|e|] eqn:Hre; try done. injection Hr as ->.
    destruct (IH w2 Hs) as (_ & w' & b & tail & -> & Hx & Hf & Hc).
    eexists w', b, tail. split_and!; [done|done| |].
    + etrans; [|exact Hf]. by eapply realloc_frame.
    + intros k. rewrite Hc. destruct (realloc_content _ _ _ _ _ k Hre) as [t ->].
      by case_decide.
Qed.

(** The store that grows the account first: the same, whoever pays for the rent. *)
Lemma store_with_rent_exempt_realloc_content `{!SolanaLaws, SizedData T} (x : T) i rent payer w
    res :
  AccountData.store_with_rent_exempt_realloc x i rent payer w = Ok res ->
  is_writable i = true /\ key i ∉ borrowed w /\
  exists w' b tail, res = (tt, w') /\ serialize x = Ok b /\ frame w w' /\
    forall k, content w' k =
      if decide (k = key i) then (byte 1 :: b ++ tail, snd (content w k)) else content w k.
Proof.
  intros Hs. unfold AccountData.store_with_rent_exempt_realloc in Hs.
  apply st_bind_ok in Hs as (len & w0 & Hl & Hs). unfold data_len in Hl.
  do 1 (prog_step Hl). injection Hl as <- <-. prog_step Hs.
  apply st_bind_ok in Hs as ([] & w1 & Ht & Hs).
  assert (Hw1 : frame w w1 /\ forall k, content w1 k = content w k).
  { destruct (_ <? _); [|by injection Ht as <-]. apply invoke_ok in Ht as (w1' & Ht & [= ->]).
    split; [by eapply invoke_frame|]. intros k. by eapply transfer_content. }
  destruct Hw1 as [Hf1 Hc1]. apply st_bind_ok in Hs as ([] & w2 & Hr & Hs).
  apply store_content in Hs as (Hwr & Hb & w3 & b & tail & -> & Hx & Hf3 & Hc3).
  assert (Hw2 : frame w1 w2 /\ forall k,
    snd (content w2 k) = snd (content w1 k) /\ (k <> key i -> content w2 k = content w1 k)).
  { case_decide; [|by injection Hr as <-]. unfold realloc in Hr.
    destruct (sol_realloc _ _ _ _) as [w2'|e|] eqn:Hre; try done. injection Hr as ->.
    split; [by eapply realloc_frame|]. intros k.
    destruct (realloc_content _ _ _ _ _ k Hre) as [t ->]. by case_decide. }
  destruct Hw2 as [Hf2 Hc2]. split_and!; [done| |].
  { destruct Hf1 as [_ E1], Hf2 as [_ E2]. by rewrite <- E1, <- E2. }
  exists w3, b, tail. split_and!; [done|done|by etrans; [|etrans]|].
  intros k. rewrite Hc3, <- Hc1. destruct (Hc2 k) as [Ho Hk]. destruct (decide (k = key i)); [by rewrite Ho|auto].
Qed.
End account_data_lemmas.

Section pda_lemmas.
Context `{SolanaLaws}.

Lemma verify_rent_exempt_ok i rent w r :
  verify_rent_exempt i rent w = Ok r <->
  key i ∉ borrowed w /\ r = (tt, w) /\
  is_exempt rent (acc_lamports (get_account w (key i))) (length (fst (content w (key i))))
    = true.
Proof.
  unfold verify_rent_exempt. prog_run (proj2 (lamports_of_ok i w _) eq_refl).
  unfold data_len, data_of, mbind, ST_bind, mret, ST_ret. case_decide; [naive_solver|].
  cbn [content fst]. destruct (is_exempt _ _ _); cbn; naive_solver.
Qed.

Lemma verify_account_uninitialized_ok i w r :
  verify_account_uninitialized i w = Ok r <->
  key i ∉ borrowed w /\ content w (key i) = ([], system_program_id) /\ r = (tt, w).
Proof.
  unfold verify_account_uninitialized, data_is_empty, data_of, owner_of, content, mbind,
    ST_bind, mret, ST_ret. destruct (decide (key i ∈ borrowed w)); [naive_solver|].
  destruct (acc_data _) as [|x l]; [|split; [done|intros (_ & ? & _); simplify_eq]].
  destruct (decide (acc_owner _ = _)) as [->|]; [naive_solver|].
  split; [done|intros (_ & ? & _); simplify_eq].
Qed.

Lemma create_pda_account_content payer rent space owner sys i seeds w r :
  (Z.of_nat space < 2 ^ 64) ->
  create_pda_account payer rent space owner sys i seeds w = Ok r ->
  exists w', r = (tt, w') /\ frame w w' /\
    forall k, content w' k =
      if decide (k = key i) then (replicate space (byte 0), owner) else content w k.
Proof.
  intros Hspace Hc. assert (Hw : Z.to_nat (uval (uwrap 8 (Z.of_nat space))) = space).
  { rewrite uval_uwrap_small; [lia|]. change (umax 8) with (2 ^ 64). lia. }
  unfold create_pda_account in Hc. apply st_bind_ok in Hc as (l & w0 & Hl & Hc).
  apply lamports_of_ok in Hl. simplify_eq. case_match.
  - apply st_bind_ok in Hc as ([] & w1 & Ht & Hc).
    assert (Hw1 : frame w w1 /\ forall k, content w1 k = content w k).
    { case_match.
      - apply invoke_ok in Ht as (w' & Ht & [= ->]).
        split; [by eapply invoke_frame|]. intros k. by eapply transfer_content.
      - injection Ht as <-. done. }
    destruct Hw1 as [Hf1 Hc1].
    apply st_bind_ok in Hc as ([] & w2 & Ha & Hc).
    apply invoke_signed_ok in Ha as (w2' & Ha & [= ->]).
    apply invoke_signed_ok in Hc as (w3 & Has & ->).
    exists w3. split; [done|]. split.
    { etrans; [exact Hf1|]. etrans; by eapply invoke_frame. }
    intros k. rewrite (assign_content _ _ _ _ _ _ k Has).
    rewrite (allocate_content _ _ _ _ _ _ (key i) Ha), (allocate_content _ _ _ _ _ _ k Ha).
    rewrite (decide_True (P := key i = key i)) by done. cbn [fst]. rewrite Hw, Hc1.
    by destruct (decide (k = key i)).
  - apply invoke_signed_ok in Hc as (w1 & Hcr & ->). exists w1. split; [done|].
    split; [by eapply invoke_frame|]. intros k.
    rewrite (create_content _ _ _ _ _ _ _ _ _ k Hcr). by rewrite Hw.
Qed.

(** Only an account that does not exist can be created. *)
Lemma create_pda_account_fresh payer rent space owner sys i seeds w r :
  create_pda_account payer rent space owner sys i seeds w = Ok r ->
  content w (key i) = ([], system_program_id).
Proof.
  intros Hc. unfold create_pda_account in Hc. prog_step Hc.
  destruct (0 <? uval _); [|apply invoke_signed_ok in Hc as (w1 & Hc & _); by eapply create_fresh].
  apply st_bind_ok in Hc as ([] & w1 & Ht & Hc).
  assert (Hw1 : content w1 (key i) = content w (key i)).
  { destruct (0 <? _); [|by injection Ht as <-].
    apply invoke_ok in Ht as (w' & Ht & [= ->]). by eapply transfer_content. }
  apply st_bind_ok in Hc as ([] & w2 & Ha & _). apply invoke_signed_ok in Ha as (w2' & Ha & _).
  rewrite <- Hw1. by eapply allocate_fresh.
Qed.

Lemma create_pda_account_frame payer rent space owner sys i seeds w w' :
  create_pda_account payer rent space owner sys i seeds w = Ok (tt, w') -> frame w w'.
Proof.
  intros Hc. unfold create_pda_account in Hc. prog_step Hc. destruct (0 <? uval _).
  - apply st_bind_ok in Hc as ([] & w1 & Ht & Hc).
    assert (Hf : frame w w1).
    { destruct (0 <? _); [|by injection Ht as <-].
      apply invoke_ok in Ht as (w2 & Ht & [= ->]). by eapply invoke_frame. }
    apply st_bind_ok in Hc as ([] & w2 & Ha & Hc).
    apply invoke_signed_ok in Ha as (w3 & Ha & [= ->]).
    apply invoke_signed_ok in Hc as (w4 & Hc & [= ->]).
    etrans; [done|]. etrans; by eapply invoke_frame.
  - apply invoke_signed_ok in Hc as (w1 & Hc & [= ->]). by eapply invoke_frame.
Qed.

(** What creating and filling a program-derived account leaves. *)
Lemma create_store_content `{BorshSerialize bool, BorshDeserialize bool, !BorshBool}
    `{BorshSerialize T, BorshDeserialize T, !FetchLaws T, Default T}
    payer rent space (x : T) owner sys i seeds r w w1 w2 :
  Z.of_nat space < 2 ^ 64 ->
  create_pda_account payer rent space owner sys i seeds w = Ok (tt, w1) ->
  AccountData.store x i r w1 = Ok (tt, w2) ->
  frame w w2 /\ key i ∉ borrowed w2 /\ exists b tail, serialize x = Ok b /\
    forall k, content w2 k =
      if decide (k = key i) then (byte 1 :: b ++ tail, owner) else content w k.
Proof.
  intros Hs Hc Hst.
  apply create_pda_account_content in Hc as (wa & [= ->] & Hfa & Hca); [|done].
  apply store_content in Hst as (_ & Hb & wb & b & tail & [= ->] & Hx & Hfb & Hcb).
  split; [by etrans|]. split; [by destruct Hfb as [_ ->]|].
  exists b, tail. split; [done|]. intros k. rewrite Hcb, !Hca. by destruct (decide (k = key i)).
Qed.
End pda_lemmas.

Lemma ensure_owner_signer_ok `{AccessControl A} (self : A) i r :
  ensure_owner_signer self i = Ok r <->
  is_signer i = true /\ ac_owner self = Some (key i).
Proof.
  unfold ensure_owner_signer. destruct (ac_owner self) as [o|]; [|naive_solver].
  cbn [ok_or mbind outcome_bind]. destruct (is_signer i); [|naive_solver].
  cbn [negb]. case_decide; destruct r; naive_solver.
Qed.
