(* ===== verification/Interfaces.v ===== *)
(** * Program interfaces

    [sealevel/libraries/interchain-security-module-interface],
    [message-recipient-interface], [serializable-account-meta]: the instructions a security
    module and a recipient understand, told apart by 8-byte discriminators. *)

From S2P Require Import Prelude.
From S2P Require Import Codec.
From S2P Require Import Sealevel.
From S2P Require Import AccountUtils.
From stdpp Require Import base list numbers strings.
From Stdlib Require Import ZArith Lia.

#[local] Open Scope Z_scope.

(** ** Return data of simulated transactions and serialisable account metas *)

(** A fixed-size byte array [[u8; N]], whose Borsh format has no length prefix. *)
Record byte_array := MkByteArray { array_bytes : bytes }.

Record SimulationReturnData (T : Type) := MkSimulationReturnData {
  srd_return_data : T;
  trailing_byte : u8
}.
Arguments MkSimulationReturnData {T} srd_return_data trailing_byte.
Arguments srd_return_data {T}.
Arguments trailing_byte {T}.

(** [SimulationReturnData::new] *)
Definition SimulationReturnData_new {T} (return_data : T) : SimulationReturnData T :=
  MkSimulationReturnData return_data (byte 255).

Record SerializableAccountMeta := MkSerializableAccountMeta {
  sam_pubkey : Pubkey;
  sam_is_signer : bool;
  sam_is_writable : bool
}.

Definition SerializableAccountMeta_from (m : AccountMeta) : SerializableAccountMeta :=
  MkSerializableAccountMeta (meta_pubkey m) (meta_is_signer m) (meta_is_writable m).

Definition AccountMeta_from (m : SerializableAccountMeta) : AccountMeta :=
  MkAccountMeta (sam_pubkey m) (sam_is_signer m) (sam_is_writable m).

(** ** The interchain security module *)

Record VerifyInstruction := MkVerifyInstruction {
  verify_metadata : bytes;
  verify_message : bytes
}.

Inductive InterchainSecurityModuleInstruction :=
  | Type_
  | Verify (i : VerifyInstruction)
  | VerifyAccountMetas (i : VerifyInstruction).

Definition TYPE_DISCRIMINATOR : bytes := blit [105; 97; 97; 88; 63; 124; 106; 18].
Definition VERIFY_DISCRIMINATOR : bytes := blit [243; 53; 214; 0; 208; 18; 231; 67].
Definition VERIFY_ACCOUNT_METAS_DISCRIMINATOR : bytes :=
  blit [200; 65; 157; 12; 89; 255; 131; 216].

Definition VERIFY_ACCOUNT_METAS_PDA_SEEDS : list bytes :=
  bstr <$> ["hyperlane_ism"; "-"; "verify"; "-"; "account_metas"]%string.

Module Ism.
Section codec.
Context `{BorshSerialize VerifyInstruction, TryFromSlice VerifyInstruction}.

(** [InterchainSecurityModuleInstruction::encode] *)
Definition encode (self : InterchainSecurityModuleInstruction) : outcome ProgramError bytes :=
  match self with
  | Type_ => Ok TYPE_DISCRIMINATOR
  | Verify instruction =>
      b ← borsh_err (serialize instruction); Ok (VERIFY_DISCRIMINATOR ++ b)
  | VerifyAccountMetas instruction =>
      b ← borsh_err (serialize instruction); Ok (VERIFY_ACCOUNT_METAS_DISCRIMINATOR ++ b)
  end.

(** [InterchainSecurityModuleInstruction::decode] *)
Definition decode (buf : bytes) : outcome ProgramError InterchainSecurityModuleInstruction :=
  if (length buf <? Discriminator_LENGTH)%nat then Err InvalidInstructionData
  else
    '(discriminator, rest) ← or_panic (split_at buf Discriminator_LENGTH);
    if decide (discriminator = TYPE_DISCRIMINATOR) then Ok Type_
    else if decide (discriminator = VERIFY_DISCRIMINATOR) then
      i ← borsh_err (try_from_slice rest); Ok (Verify i)
    else if decide (discriminator = VERIFY_ACCOUNT_METAS_DISCRIMINATOR) then
      i ← borsh_err (try_from_slice rest); Ok (VerifyAccountMetas i)
    else Err InvalidInstructionData.
End codec.
End Ism.

(** ** The message recipient *)

Record HandleInstruction := MkHandleInstruction {
  handle_origin : u32;
  handle_sender : H256;
  handle_message : bytes
}.

Inductive MessageRecipientInstruction :=
  | InterchainSecurityModule
  | InterchainSecurityModuleAccountMetas
  | Handle (i : HandleInstruction)
  | HandleAccountMetas (i : HandleInstruction).

Definition INTERCHAIN_SECURITY_MODULE_DISCRIMINATOR : bytes :=
  blit [45; 18; 245; 87; 234; 46; 246; 15].
Definition INTERCHAIN_SECURITY_MODULE_ACCOUNT_METAS_DISCRIMINATOR : bytes :=
  blit [190; 214; 218; 129; 67; 97; 4; 76].
Definition HANDLE_DISCRIMINATOR : bytes := blit [33; 210; 5; 66; 196; 212; 239; 142].
Definition HANDLE_ACCOUNT_METAS_DISCRIMINATOR : bytes :=
  blit [194; 141; 30; 82; 241; 41; 169; 52].

Definition INTERCHAIN_SECURITY_MODULE_ACCOUNT_METAS_PDA_SEEDS : list bytes :=
  bstr <$> ["hyperlane_message_recipient"; "-"; "interchain_security_module"; "-";
            "account_metas"]%string.
Definition HANDLE_ACCOUNT_METAS_PDA_SEEDS : list bytes :=
  bstr <$> ["hyperlane_message_recipient"; "-"; "handle"; "-"; "account_metas"]%string.

Module Recipient.
Section codec.
Context `{BorshSerialize HandleInstruction, TryFromSlice HandleInstruction}.

(** [MessageRecipientInstruction::encode] *)
Definition encode (self : MessageRecipientInstruction) : outcome ProgramError bytes :=
  match self with
  | InterchainSecurityModule => Ok INTERCHAIN_SECURITY_MODULE_DISCRIMINATOR
  | InterchainSecurityModuleAccountMetas =>
      Ok INTERCHAIN_SECURITY_MODULE_ACCOUNT_METAS_DISCRIMINATOR
  | Handle instruction =>
      b ← borsh_err (serialize instruction); Ok (HANDLE_DISCRIMINATOR ++ b)
  | HandleAccountMetas instruction =>
      b ← borsh_err (serialize instruction); Ok (HANDLE_ACCOUNT_METAS_DISCRIMINATOR ++ b)
  end.

(** [MessageRecipientInstruction::decode] *)
Definition decode (buf : bytes) : outcome ProgramError MessageRecipientInstruction :=
  if (length buf <? Discriminator_LENGTH)%nat then Err InvalidInstructionData
  else
    '(discriminator, rest) ← or_panic (split_at buf Discriminator_LENGTH);
    if decide (discriminator = INTERCHAIN_SECURITY_MODULE_DISCRIMINATOR) then
      Ok InterchainSecurityModule
    else if decide (discriminator = INTERCHAIN_SECURITY_MODULE_ACCOUNT_METAS_DISCRIMINATOR) then
      Ok InterchainSecurityModuleAccountMetas
    else if decide (discriminator = HANDLE_DISCRIMINATOR) then
      i ← borsh_err (try_from_slice rest); Ok (Handle i)
    else if decide (discriminator = HANDLE_ACCOUNT_METAS_DISCRIMINATOR) then
      i ← borsh_err (try_from_slice rest); Ok (HandleAccountMetas i)
    else Err InvalidInstructionData.
End codec.
End Recipient.

(** ** Lemmas *)

Lemma borsh_err_ok {A} (m : outcome io_error A) a : borsh_err m = Ok a <-> m = Ok a.
Proof. destruct m; cbn; split; congruence. Qed.

Lemma split_at_app p l n : length p = n -> split_at (p ++ l) n = Some (p, l).
Proof.
  intros Hp. unfold split_at. rewrite decide_True by (rewrite length_app; lia).
  by rewrite take_app_exact, drop_app_exact.
Qed.

(** A buffer that starts with a discriminator, as the decoders take it apart. *)
Lemma discriminator_split d b :
  length d = 8%nat ->
  (length (d ++ b) <? Discriminator_LENGTH)%nat = false /\
  split_at (d ++ b) Discriminator_LENGTH = Some (d, b).
Proof.
  intros Hd. split; [|by apply split_at_app].
  apply Nat.ltb_ge. rewrite length_app. unfold Discriminator_LENGTH. lia.
Qed.

Ltac decode_discriminator d b :=
  let H1 := fresh in let H2 := fresh in
  destruct (discriminator_split d b eq_refl) as [H1 H2]; rewrite H1, H2; clear H1 H2;
  cbn [or_panic mbind outcome_bind];
  repeat first [rewrite decide_True by reflexivity
               | rewrite decide_False by (vm_compute; discriminate)].

Lemma ism_decode_encode `{BorshSerialize VerifyInstruction, TryFromSlice VerifyInstruction,
    !TryFromSliceLaws VerifyInstruction} i b :
  Ism.encode i = Ok b -> Ism.decode b = Ok i.
Proof.
  destruct i as [|v|v]; cbn [Ism.encode]; unfold Ism.decode.
  - intros E. apply (inj Ok) in E as <-. rewrite <- (app_nil_r TYPE_DISCRIMINATOR).
    by decode_discriminator TYPE_DISCRIMINATOR (@nil u8).
  - intros (s & Hs & E)%bind_ok. apply borsh_err_ok in Hs. apply (inj Ok) in E as <-.
    decode_discriminator VERIFY_DISCRIMINATOR s. by rewrite (try_from_slice_serialize v s Hs).
  - intros (s & Hs & E)%bind_ok. apply borsh_err_ok in Hs. apply (inj Ok) in E as <-.
    decode_discriminator VERIFY_ACCOUNT_METAS_DISCRIMINATOR s.
    by rewrite (try_from_slice_serialize v s Hs).
Qed.

(** The instructions for a security module and for a recipient survive their encodings:
    whatever [encode] produces, [decode] gives back, for every variant of both interfaces
    (their discriminators are pairwise different); and a buffer shorter than a discriminator
    is refused. *)
Theorem interface_instructions_roundtrip
    `{BorshSerialize VerifyInstruction, TryFromSlice VerifyInstruction,
      !TryFromSliceLaws VerifyInstruction}
    `{BorshSerialize HandleInstruction, TryFromSlice HandleInstruction,
      !TryFromSliceLaws HandleInstruction}
    (i : InterchainSecurityModuleInstruction) (m : MessageRecipientInstruction) (buf : bytes) :
  match Ism.encode i with
  | Ok b => Ism.decode b = Ok i
  | Err e => exists v e', serialize (A := VerifyInstruction) v = Err e' /\ e = BorshIoError e'
  | Panic => exists v, serialize (A := VerifyInstruction) v = Panic
  end /\
  match Recipient.encode m with
  | Ok b => Recipient.decode b = Ok m
  | Err e => exists v e', serialize (A := HandleInstruction) v = Err e' /\ e = BorshIoError e'
  | Panic => exists v, serialize (A := HandleInstruction) v = Panic
  end /\
  ((length buf < 8)%nat -> Ism.decode buf = Err InvalidInstructionData /\
                           Recipient.decode buf = Err InvalidInstructionData).
Proof.
  split_and!.
  - destruct (Ism.encode i) as [b|e|] eqn:He; [by apply ism_decode_encode| |];
      destruct i as [|v|v]; cbn [Ism.encode] in He; try done;
      destruct (serialize v) as [b|e'|] eqn:Hs; cbn in He; try done; [..|by exists v|by exists v];
      injection He as <-; by exists v, e'.
  - destruct m as [| |v|v]; cbn [Recipient.encode]; unfold Recipient.decode.
    + rewrite <- (app_nil_r INTERCHAIN_SECURITY_MODULE_DISCRIMINATOR).
      by decode_discriminator INTERCHAIN_SECURITY_MODULE_DISCRIMINATOR (@nil u8).
    + rewrite <- (app_nil_r INTERCHAIN_SECURITY_MODULE_ACCOUNT_METAS_DISCRIMINATOR).
      by decode_discriminator INTERCHAIN_SECURITY_MODULE_ACCOUNT_METAS_DISCRIMINATOR (@nil u8).
    + destruct (serialize v) as [b|e|] eqn:Hs; cbn [borsh_err map_err mbind outcome_bind];
        [|eauto..]. decode_discriminator HANDLE_DISCRIMINATOR b.
      by rewrite (try_from_slice_serialize v b Hs).
    + destruct (serialize v) as [b|e|] eqn:Hs; cbn [borsh_err map_err mbind outcome_bind];
        [|eauto..]. decode_discriminator HANDLE_ACCOUNT_METAS_DISCRIMINATOR b.
      by rewrite (try_from_slice_serialize v b Hs).
  - intros Hl. unfold Ism.decode, Recipient.decode, Discriminator_LENGTH.
    by rewrite (proj2 (Nat.ltb_lt _ _) Hl).
Qed.
