(* ===== verification/Mailbox.v ===== *)
(** * The mailbox program ([sealevel/programs/mailbox])

    [accounts.rs]: the inbox, the outbox and the per-message accounts with their checks and
    hand-written encodings; [instruction.rs], [error.rs], [pda_seeds.rs]; [processor.rs]: one
    definition per instruction handler, over the world of [Sealevel]. The build with the
    default features is modelled (the SPL noop calls are made). *)

From S2P Require Import Prelude.
From S2P Require Import Codec.
From S2P Require Import Keccak.
From S2P Require Import Accumulator.
From S2P Require Import Message.
From S2P Require Import Sealevel.
From S2P Require Import AccountUtils.
From S2P Require Import Interfaces.
From stdpp Require Import base gmap list numbers strings sets.
From Stdlib Require Import ZArith Lia.

#[local] Open Scope Z_scope.

(** ** [error.rs] *)

Inductive Error :=
  | EncodeError
  | DecodeError
  | UnsupportedMessageVersion
  | DestinationDomainNotLocalDomain
  | MessageAlreadyProcessed
  | ExtraneousAccount
  | MaxMessageSizeExceeded.

(** [err as u32] and [From<Error> for ProgramError] *)
Definition Error_code (err : Error) : Z :=
  match err with
  | EncodeError => 1
  | DecodeError => 2
  | UnsupportedMessageVersion => 3
  | DestinationDomainNotLocalDomain => 4
  | MessageAlreadyProcessed => 5
  | ExtraneousAccount => 6
  | MaxMessageSizeExceeded => 7
  end.

Definition ProgramError_from (err : Error) : ProgramError := Custom (uwrap 4 (Error_code err)).

(** ** [pda_seeds.rs]: the forms with a bump seed append it. *)

Definition mailbox_inbox_pda_seeds : list bytes :=
  bstr <$> ["hyperlane"; "-"; "inbox"]%string.
Definition mailbox_outbox_pda_seeds : list bytes :=
  bstr <$> ["hyperlane"; "-"; "outbox"]%string.
Definition mailbox_dispatched_message_pda_seeds (unique_message_pubkey : Pubkey) : list bytes :=
  (bstr <$> ["hyperlane"; "-"; "dispatched_message"; "-"]%string)
  ++ [to_be unique_message_pubkey].
Definition mailbox_message_dispatch_authority_pda_seeds : list bytes :=
  bstr <$> ["hyperlane_dispatcher"; "-"; "dispatch_authority"]%string.
Definition mailbox_process_authority_pda_seeds (recipient_pubkey : Pubkey) : list bytes :=
  (bstr <$> ["hyperlane"; "-"; "process_authority"; "-"]%string) ++ [to_be recipient_pubkey].
Definition mailbox_processed_message_pda_seeds (message_id_h256 : H256) : list bytes :=
  (bstr <$> ["hyperlane"; "-"; "processed_message"; "-"]%string) ++ [to_be message_id_h256].

(** ** [instruction.rs] *)

Definition VERSION : u8 := byte 3.
Definition MAX_MESSAGE_BODY_BYTES : nat := 2 * 2 ^ 10.

Record Init := MkInit { init_local_domain : u32; init_default_ism : Pubkey }.

Record OutboxDispatch := MkOutboxDispatch {
  dispatch_sender : Pubkey;
  destination_domain : u32;
  dispatch_recipient : H256;
  message_body : bytes
}.

Record InboxProcess := MkInboxProcess { process_metadata : bytes; process_message : bytes }.

Inductive Instruction :=
  | InitIxn (init : Init)
  | InboxProcessIxn (process : InboxProcess)
  | InboxSetDefaultIsm (ism : Pubkey)
  | InboxGetRecipientIsm (recipient : Pubkey)
  | OutboxDispatchIxn (dispatch : OutboxDispatch)
  | OutboxGetCount
  | OutboxGetLatestCheckpoint
  | OutboxGetRoot
  | GetOwner
  | TransferOwnership (new_owner : option Pubkey).

Definition from_instruction_data `{TryFromSlice Instruction} (data : bytes) :
    outcome ProgramError Instruction :=
  map_err (λ _, InvalidInstructionData) (try_from_slice data).

Definition into_instruction_data `{BorshSerialize Instruction} (self : Instruction) :
    outcome ProgramError bytes :=
  borsh_err (serialize self).

Section builders.
Context `{Solana, BorshSerialize Instruction}.
(** [Pubkey::try_find_program_address] *)
Context (try_find_program_address : list bytes -> Pubkey -> option (Pubkey * u8)).

Definition init_instruction (program_id : Pubkey) (local_domain : u32)
    (default_ism payer : Pubkey) : outcome ProgramError SolanaInstruction :=
  '(inbox_account, _) ←
    ok_or (try_find_program_address mailbox_inbox_pda_seeds program_id) InvalidSeeds;
  '(outbox_account, _) ←
    ok_or (try_find_program_address mailbox_outbox_pda_seeds program_id) InvalidSeeds;
  data ← into_instruction_data (InitIxn (MkInit local_domain default_ism));
  Ok (MkInstruction program_id
        [AccountMeta_new system_program_id false;
         AccountMeta_new payer true;
         AccountMeta_new inbox_account false;
         AccountMeta_new outbox_account false] data).

Definition transfer_ownership_instruction (program_id owner_payer : Pubkey)
    (new_owner : option Pubkey) : outcome ProgramError SolanaInstruction :=
  '(outbox_account, _) ←
    ok_or (try_find_program_address mailbox_outbox_pda_seeds program_id) InvalidSeeds;
  data ← into_instruction_data (TransferOwnership new_owner);
  Ok (MkInstruction program_id
        [AccountMeta_new outbox_account false; AccountMeta_new owner_payer true] data).

Definition set_default_ism_instruction (program_id owner_payer default_ism : Pubkey) :
    outcome ProgramError SolanaInstruction :=
  '(inbox_account, _) ←
    ok_or (try_find_program_address mailbox_inbox_pda_seeds program_id) InvalidSeeds;
  '(outbox_account, _) ←
    ok_or (try_find_program_address mailbox_outbox_pda_seeds program_id) InvalidSeeds;
  data ← into_instruction_data (InboxSetDefaultIsm default_ism);
  Ok (MkInstruction program_id
        [AccountMeta_new inbox_account false; AccountMeta_new_readonly outbox_account false;
         AccountMeta_new owner_payer true] data).
End builders.

(** ** [accounts.rs] *)

Record Inbox := MkInbox {
  inbox_local_domain : u32;
  inbox_bump_seed : u8;
  default_ism : Pubkey;
  processed_count : u64
}.

#[export] Instance Inbox_size : SizedData Inbox := λ _, (4 + 1 + 32 + 8)%nat.

Record Outbox := MkOutbox {
  outbox_local_domain : u32;
  outbox_bump_seed : u8;
  owner : option Pubkey;
  outbox_tree : IncrementalMerkle
}.

#[export] Instance Outbox_size : SizedData Outbox := λ _, (4 + 1 + 33 + 1032)%nat.

#[export] Instance Outbox_AccessControl : AccessControl Outbox := {
  ac_owner := owner;
  set_owner self owner :=
    Ok (MkOutbox (outbox_local_domain self) (outbox_bump_seed self) owner (outbox_tree self))
}.

(** [#[derive(Default)]] *)
#[export] Instance Inbox_default : Default Inbox :=
  MkInbox (uwrap 4 0) (byte 0) (uwrap 32 0) (uwrap 8 0).
#[export] Instance Outbox_default : Default Outbox :=
  MkOutbox (uwrap 4 0) (byte 0) None Incremental.default.

Definition DISPATCHED_MESSAGE_DISCRIMINATOR : bytes := bstr "DISPATCH".

Record DispatchedMessage := MkDispatchedMessage {
  dm_discriminator : bytes;
  dm_nonce : u32;
  dm_slot : u64;
  dm_unique_message_pubkey : Pubkey;
  dm_encoded_message : bytes
}.

Definition DispatchedMessage_new (nonce : u32) (slot : u64) (unique_message_pubkey : Pubkey)
    (encoded_message : bytes) : DispatchedMessage :=
  MkDispatchedMessage DISPATCHED_MESSAGE_DISCRIMINATOR nonce slot unique_message_pubkey
    encoded_message.

#[export] Instance DispatchedMessage_size : SizedData DispatchedMessage := λ self,
  (8 + 4 + 8 + 32 + length (dm_encoded_message self))%nat.

#[export] Instance DispatchedMessage_serialize : BorshSerialize DispatchedMessage := λ self,
  Ok (DISPATCHED_MESSAGE_DISCRIMINATOR ++ to_le (dm_nonce self) ++ to_le (dm_slot self)
      ++ to_be (dm_unique_message_pubkey self) ++ dm_encoded_message self).

#[export] Instance DispatchedMessage_deserialize : BorshDeserialize DispatchedMessage :=
  discriminator ← slice_read_exact 8;
  require (bool_decide (discriminator = DISPATCHED_MESSAGE_DISCRIMINATOR)) InvalidData;;
  nonce ← slice_read_exact 4;
  slot ← slice_read_exact 8;
  unique_message_pubkey ← slice_read_exact 32;
  encoded_message ← slice_read_to_end;
  mret (MkDispatchedMessage discriminator (from_le 4 nonce) (from_le 8 slot)
          (from_be 32 unique_message_pubkey) encoded_message).

Definition PROCESSED_MESSAGE_DISCRIMINATOR : bytes := bstr "PROCESSD".

Record ProcessedMessage := MkProcessedMessage {
  pm_discriminator : bytes;
  sequence : u64;
  pm_message_id : H256;
  pm_slot : u64
}.

Definition ProcessedMessage_new (sequence : u64) (message_id : H256) (slot : u64) :
    ProcessedMessage :=
  MkProcessedMessage PROCESSED_MESSAGE_DISCRIMINATOR sequence message_id slot.

#[export] Instance ProcessedMessage_size : SizedData ProcessedMessage := λ _,
  (8 + 8 + 32 + 8)%nat.

#[export] Instance ProcessedMessage_deserialize : BorshDeserialize ProcessedMessage :=
  discriminator ← slice_read_exact 8;
  require (bool_decide (discriminator = PROCESSED_MESSAGE_DISCRIMINATOR)) InvalidData;;
  sequence ← slice_read_exact 8;
  message_id ← slice_read_exact 32;
  slot ← slice_read_exact 8;
  mret (MkProcessedMessage discriminator (from_le 8 sequence) (from_be 32 message_id)
          (from_le 8 slot)).

(** [#[derive(Default)]], for the [Data] bound only. *)
#[export] Instance DispatchedMessage_default : Default DispatchedMessage :=
  MkDispatchedMessage (blit [0; 0; 0; 0; 0; 0; 0; 0]) (uwrap 4 0) (uwrap 8 0) (uwrap 32 0) [].
#[export] Instance ProcessedMessage_default : Default ProcessedMessage :=
  MkProcessedMessage (blit [0; 0; 0; 0; 0; 0; 0; 0]) (uwrap 8 0) (uwrap 32 0) (uwrap 8 0).

Section accounts.
Context `{Solana}.
Context `{BorshSerialize bool, BorshDeserialize bool}.
Context `{BorshDeserialize Inbox, BorshDeserialize Outbox}.

(** The checks after the data is fetched: the canonical address and the owner. *)
Definition inbox_checks (program_id : Pubkey) (inbox_account_info : AccountInfo)
    (inbox : Inbox) : prog unit :=
  expected_inbox_key ← lift (create_program_address
    (with_bump mailbox_inbox_pda_seeds (inbox_bump_seed inbox)) program_id);
  require (bool_decide (key inbox_account_info = expected_inbox_key)) InvalidArgument;;
  o ← owner_of inbox_account_info;
  require (bool_decide (o = program_id)) IllegalOwner.

(** [Inbox::verify_account_and_fetch_inner] *)
Definition Inbox_verify_account_and_fetch_inner (program_id : Pubkey)
    (inbox_account_info : AccountInfo) : prog Inbox :=
  d ← data_of inbox_account_info;
  inbox ← lift (AccountData.fetch d);
  inbox_checks program_id inbox_account_info inbox;;
  mret inbox.

(** [Inbox::verify_account_and_fetch_inner_with_data_refmut]: the data stays borrowed. *)
Definition Inbox_verify_account_and_fetch_inner_with_data_refmut (program_id : Pubkey)
    (inbox_account_info : AccountInfo) : prog Inbox :=
  d ← hold_data_mut inbox_account_info;
  inbox ← lift (AccountData.fetch d);
  inbox_checks program_id inbox_account_info inbox;;
  mret inbox.

(** [Outbox::verify_account_and_fetch_inner] *)
Definition Outbox_verify_account_and_fetch_inner (program_id : Pubkey)
    (outbox_account_info : AccountInfo) : prog Outbox :=
  d ← data_of outbox_account_info;
  outbox ← lift (AccountData.fetch d);
  expected_outbox_key ← lift (create_program_address
    (with_bump mailbox_outbox_pda_seeds (outbox_bump_seed outbox)) program_id);
  require (bool_decide (key outbox_account_info = expected_outbox_key)) InvalidArgument;;
  o ← owner_of outbox_account_info;
  require (bool_decide (o = program_id)) IllegalOwner;;
  mret outbox.
End accounts.

(** ** [processor.rs] *)

Section processor.
Context `{Solana, Keccak256, OverflowChecks}.
Context `{BorshSerialize bool, BorshDeserialize bool}.
Context `{BorshSerialize Inbox, BorshDeserialize Inbox}.
Context `{BorshSerialize Outbox, BorshDeserialize Outbox}.
Context `{BorshSerialize ProcessedMessage}.
Context `{BorshSerialize VerifyInstruction, BorshSerialize HandleInstruction}.
Context `{TryFromSlice (option Pubkey), TryFromSlice Instruction}.
Context `{BorshSerialize (SimulationReturnData Pubkey),
  BorshSerialize (SimulationReturnData (option Pubkey)),
  BorshSerialize (SimulationReturnData byte_array), BorshSerialize (SimulationReturnData H256),
  BorshSerialize (SimulationReturnData bytes)}.
(** [format!("{:?}", h)] of an [H256] *)
Variable debug_H256 : H256 -> bytes.

(** [initialize] *)
Definition initialize (program_id : Pubkey) (accounts_iter : list AccountInfo) (init : Init) :
    prog unit :=
  rent ← lift Rent_get;
  (* Account 0: The system program. *)
  '(system_program_info, accounts_iter) ← next_account_info accounts_iter;
  require (bool_decide (key system_program_info = system_program_id)) InvalidArgument;;
  (* Account 1: The payer account and owner of the Mailbox. *)
  '(payer_info, accounts_iter) ← next_account_info accounts_iter;
  require (is_signer payer_info) MissingRequiredSignature;;
  (* Account 2: The inbox PDA account. *)
  '(inbox_info, accounts_iter) ← next_account_info accounts_iter;
  let '(inbox_key, inbox_bump) := find_program_address mailbox_inbox_pda_seeds program_id in
  require (bool_decide (inbox_key = key inbox_info)) InvalidArgument;;
  verify_account_uninitialized inbox_info;;
  let inbox_account :=
    MkInbox (init_local_domain init) inbox_bump (init_default_ism init) (uwrap 8 0) in
  create_pda_account payer_info rent (AccountData.size inbox_account) program_id
    system_program_info inbox_info (with_bump mailbox_inbox_pda_seeds inbox_bump);;
  AccountData.store inbox_account inbox_info false;;
  (* Account 3: The outbox PDA account. *)
  '(outbox_info, _) ← next_account_info accounts_iter;
  let '(outbox_key, outbox_bump) := find_program_address mailbox_outbox_pda_seeds program_id in
  require (bool_decide (outbox_key = key outbox_info)) InvalidArgument;;
  verify_account_uninitialized outbox_info;;
  let outbox_account :=
    MkOutbox (init_local_domain init) outbox_bump (Some (key payer_info))
      Incremental.default in
  create_pda_account payer_info rent (AccountData.size outbox_account) program_id
    system_program_info outbox_info (with_bump mailbox_outbox_pda_seeds outbox_bump);;
  AccountData.store outbox_account outbox_info false.

(** The loops of [inbox_process] that collect accounts up to a marker. *)
Fixpoint accounts_until (marker : Pubkey) (accounts_iter : list AccountInfo) :
    outcome ProgramError (list AccountInfo * list AccountInfo) :=
  match accounts_iter with
  | [] => Err InvalidArgument
  | next_info :: rest =>
      if decide (key next_info = marker) then Ok ([], accounts_iter)
      else
        '(infos, accounts_iter) ← accounts_until marker rest;
        Ok (next_info :: infos, accounts_iter)
  end.

(** [get_recipient_ism] *)
Definition get_recipient_ism (recipient_program_id : Pubkey)
    (account_infos : list AccountInfo) (account_metas : list AccountMeta)
    (default_ism : Pubkey) : prog Pubkey :=
  data ← lift (Recipient.encode InterchainSecurityModule);
  invoke (MkInstruction recipient_program_id account_metas data) account_infos;;
  ret ← get_return_data;
  match ret with
  | Some (returning_program_id, returned_data) =>
      if decide (returning_program_id = recipient_program_id) then
        match returned_data with
        | [] => mret default_ism
        | _ =>
            o ← lift (borsh_err (try_from_slice (A := option Pubkey) returned_data));
            mret (default default_ism o)
        end
      else throw InvalidAccountData
  | None => mret default_ism
  end.

(** [inbox_process], up to and including the call of the security module: the checks, the
    accounts and the verification. *)
Record verified_process := MkVerifiedProcess {
  vp_message : HyperlaneMessage;
  vp_inbox : Inbox;
  vp_payer_info : AccountInfo;
  vp_system_program_info : AccountInfo;
  vp_inbox_info : AccountInfo;
  vp_process_authority_bump : u8;
  vp_processed_message_account_info : AccountInfo;
  vp_processed_message_bump : u8;
  vp_recipient_infos : list AccountInfo;
  vp_recipient_account_metas : list AccountMeta
}.

Definition inbox_process_verify (program_id : Pubkey) (accounts_iter : list AccountInfo)
    (process : InboxProcess) : prog verified_process :=
  (* Decode the message bytes. *)
  message ← lift (map_err (λ _, ProgramError_from DecodeError)
                    (eval_st (read_from (A := HyperlaneMessage)) (process_message process)));
  let message_id := id message in
  require (bool_decide (version message = VERSION))
    (ProgramError_from UnsupportedMessageVersion);;
  let recipient_program_id := recipient message in
  (* Account 0: Payer account. *)
  '(payer_info, accounts_iter) ← next_account_info accounts_iter;
  require (is_signer payer_info) MissingRequiredSignature;;
  (* Account 1: The system program. *)
  '(system_program_info, accounts_iter) ← next_account_info accounts_iter;
  require (bool_decide (key system_program_info = system_program_id)) InvalidArgument;;
  (* Account 2: Inbox PDA; its data stays borrowed. *)
  '(inbox_info, accounts_iter) ← next_account_info accounts_iter;
  inbox ← Inbox_verify_account_and_fetch_inner_with_data_refmut program_id inbox_info;
  require (bool_decide (inbox_local_domain inbox = destination message))
    (ProgramError_from DestinationDomainNotLocalDomain);;
  (* Account 3: Process authority account that is specific to the message recipient. *)
  '(process_authority_info, accounts_iter) ← next_account_info accounts_iter;
  let '(expected_process_authority_key, expected_process_authority_bump) :=
    find_program_address (mailbox_process_authority_pda_seeds recipient_program_id)
      program_id in
  require (bool_decide (key process_authority_info = expected_process_authority_key))
    InvalidArgument;;
  (* Account 4: Processed message PDA. *)
  '(processed_message_account_info, accounts_iter) ← next_account_info accounts_iter;
  let '(expected_processed_message_key, expected_processed_message_bump) :=
    find_program_address (mailbox_processed_message_pda_seeds message_id) program_id in
  require (bool_decide (key processed_message_account_info = expected_processed_message_key))
    InvalidArgument;;
  map_err_st (λ _, ProgramError_from MessageAlreadyProcessed)
    (verify_account_uninitialized processed_message_account_info);;
  (* Accounts 5..N: the accounts required for getting the ISM the recipient wants to use. *)
  '(get_ism_infos, accounts_iter) ← lift (accounts_until spl_noop_id accounts_iter);
  ism ← get_recipient_ism recipient_program_id get_ism_infos (meta_of <$> get_ism_infos)
          (default_ism inbox);
  (* Account N: SPL Noop program. *)
  '(spl_noop_info, accounts_iter) ← next_account_info accounts_iter;
  require (bool_decide (key spl_noop_info = spl_noop_id)) InvalidArgument;;
  require (executable spl_noop_info) InvalidArgument;;
  (* Account N+1: The ISM. *)
  '(ism_info, accounts_iter) ← next_account_info accounts_iter;
  require (bool_decide (ism = key ism_info)) InvalidArgument;;
  (* Account N+2..M: The accounts required for ISM verification. *)
  '(ism_verify_infos, accounts_iter) ← lift (accounts_until recipient_program_id accounts_iter);
  (* Account M+1: The recipient program. *)
  '(recipient_info, accounts_iter) ← next_account_info accounts_iter;
  require (bool_decide (recipient_program_id = key recipient_info)) InvalidArgument;;
  require (executable recipient_info) InvalidAccountData;;
  (* Account M+2..K: The accounts required for the recipient program handler. *)
  let recipient_infos := process_authority_info :: accounts_iter in
  let recipient_account_metas :=
    MkAccountMeta (key process_authority_info) true false :: (meta_of <$> accounts_iter) in
  (* Call into the ISM to verify the message. *)
  verify_data ← lift (Ism.encode (Verify
    (MkVerifyInstruction (process_metadata process) (process_message process))));
  invoke (MkInstruction ism (meta_of <$> ism_verify_infos) verify_data) ism_verify_infos;;
  mret (MkVerifiedProcess message inbox payer_info system_program_info inbox_info
          expected_process_authority_bump processed_message_account_info
          expected_processed_message_bump recipient_infos recipient_account_metas).

(** [inbox_process] after the verification: the processed-message account, the inbox and the
    call of the recipient. *)
Definition inbox_process_deliver (program_id : Pubkey) (p : verified_process) : prog unit :=
  let message := vp_message p in
  let message_id := id message in
  slot ← lift Clock_get_slot;
  let processed_message_account_data :=
    ProcessedMessage_new (processed_count (vp_inbox p)) message_id slot in
  rent ← lift Rent_get;
  create_pda_account (vp_payer_info p) rent
    (AccountData.size processed_message_account_data) program_id (vp_system_program_info p)
    (vp_processed_message_account_info p)
    (with_bump (mailbox_processed_message_pda_seeds message_id) (vp_processed_message_bump p));;
  AccountData.store processed_message_account_data (vp_processed_message_account_info p) false;;
  (* Increment the processed count and store the updated Inbox account. *)
  count ← lift (arith 8 (processed_count (vp_inbox p) + 1));
  let inbox := MkInbox (inbox_local_domain (vp_inbox p)) (inbox_bump_seed (vp_inbox p))
    (default_ism (vp_inbox p)) count in
  w ← get;
  d ← lift (borsh_err (AccountData.store_in_slice inbox
              (acc_data (get_account w (key (vp_inbox_info p))))));
  write_data (vp_inbox_info p) d;;
  (* Now call into the recipient program with the verified message! *)
  handle_data ← lift (Recipient.encode (Handle
    (MkHandleInstruction (origin message) (sender message) (body message))));
  invoke_signed (MkInstruction (recipient message) (vp_recipient_account_metas p) handle_data)
    (vp_recipient_infos p)
    [with_bump (mailbox_process_authority_pda_seeds (recipient message))
       (vp_process_authority_bump p)];;
  invoke (MkInstruction spl_noop_id [] (bstr "Hyperlane inbox: " ++ debug_H256 message_id)) [];;
  (* The borrow of the inbox data ends with the handler. *)
  drop_data_mut (vp_inbox_info p).

(** [inbox_process] *)
Definition inbox_process (program_id : Pubkey) (accounts_iter : list AccountInfo)
    (process : InboxProcess) : prog unit :=
  p ← inbox_process_verify program_id accounts_iter process;
  inbox_process_deliver program_id p.

(** [inbox_get_recipient_ism] *)
Definition inbox_get_recipient_ism (program_id : Pubkey) (accounts_iter : list AccountInfo)
    (recipient : Pubkey) : prog unit :=
  '(inbox_info, accounts_iter) ← next_account_info accounts_iter;
  inbox ← Inbox_verify_account_and_fetch_inner program_id inbox_info;
  '(recipient_info, accounts_iter) ← next_account_info accounts_iter;
  require (bool_decide (recipient = key recipient_info) && executable recipient_info)
    InvalidArgument;;
  ism ← get_recipient_ism recipient accounts_iter (meta_of <$> accounts_iter)
          (default_ism inbox);
  b ← lift (borsh_err (serialize (SimulationReturnData_new ism)));
  set_return_data b.

(** [inbox_set_default_ism] *)
Definition inbox_set_default_ism (program_id : Pubkey) (accounts_iter : list AccountInfo)
    (ism : Pubkey) : prog unit :=
  '(inbox_info, accounts_iter) ← next_account_info accounts_iter;
  inbox ← Inbox_verify_account_and_fetch_inner program_id inbox_info;
  '(outbox_info, accounts_iter) ← next_account_info accounts_iter;
  outbox ← Outbox_verify_account_and_fetch_inner program_id outbox_info;
  '(owner_info, accounts_iter) ← next_account_info accounts_iter;
  lift (ensure_owner_signer outbox owner_info);;
  require (bool_decide (accounts_iter = [])) (ProgramError_from ExtraneousAccount);;
  let inbox := MkInbox (inbox_local_domain inbox) (inbox_bump_seed inbox) ism
    (processed_count inbox) in
  AccountData.store inbox inbox_info false.

(** [usize::try_into::<u32>().expect(..)] *)
Definition try_into_u32 (n : usize) : prog u32 :=
  if uval n <=? u32_MAX then mret (uwrap 4 n) else panic.

(** [outbox_dispatch] *)
Definition outbox_dispatch (program_id : Pubkey) (accounts_iter : list AccountInfo)
    (dispatch : OutboxDispatch) : prog unit :=
  (* Account 0: Outbox PDA. *)
  '(outbox_info, accounts_iter) ← next_account_info accounts_iter;
  outbox ← Outbox_verify_account_and_fetch_inner program_id outbox_info;
  (* Account 1: Message sender signer. *)
  '(sender_signer_info, accounts_iter) ← next_account_info accounts_iter;
  require (is_signer sender_signer_info) MissingRequiredSignature;;
  (if decide (key sender_signer_info = dispatch_sender dispatch) then mret tt
   else
     let '(expected_signer_key, _) :=
       find_program_address mailbox_message_dispatch_authority_pda_seeds
         (dispatch_sender dispatch) in
     require (bool_decide (expected_signer_key = key sender_signer_info))
       MissingRequiredSignature);;
  (* Account 2: System program. *)
  '(system_program_info, accounts_iter) ← next_account_info accounts_iter;
  require (bool_decide (key system_program_info = system_program_id)) InvalidArgument;;
  (* Account 3: SPL Noop program. *)
  '(spl_noop_info, accounts_iter) ← next_account_info accounts_iter;
  require (bool_decide (key spl_noop_info = spl_noop_id)) InvalidArgument;;
  require (executable spl_noop_info) InvalidArgument;;
  (* Account 4: Payer. *)
  '(payer_info, accounts_iter) ← next_account_info accounts_iter;
  require (is_signer payer_info) MissingRequiredSignature;;
  (* Account 5: Unique message account. *)
  '(unique_message_account_info, accounts_iter) ← next_account_info accounts_iter;
  require (is_signer unique_message_account_info) MissingRequiredSignature;;
  (* Account 6: Dispatched message PDA. *)
  '(dispatched_message_account_info, accounts_iter) ← next_account_info accounts_iter;
  let '(dispatched_message_key, dispatched_message_bump) :=
    find_program_address
      (mailbox_dispatched_message_pda_seeds (key unique_message_account_info)) program_id in
  require (bool_decide (dispatched_message_key = key dispatched_message_account_info))
    InvalidArgument;;
  verify_account_uninitialized dispatched_message_account_info;;
  require (bool_decide (accounts_iter = [])) (ProgramError_from ExtraneousAccount);;
  require (length (message_body dispatch) <=? MAX_MESSAGE_BODY_BYTES)%nat
    (ProgramError_from MaxMessageSizeExceeded);;
  nonce ← try_into_u32 (count (outbox_tree outbox));
  let message := MkHyperlaneMessage VERSION nonce (outbox_local_domain outbox)
    (dispatch_sender dispatch) (destination_domain dispatch) (dispatch_recipient dispatch)
    (message_body dispatch) in
  let encoded_message := snd (write_to message []) in
  let id := id message in
  tree ← lift (or_panic (Incremental.ingest (outbox_tree outbox) id));
  let outbox := MkOutbox (outbox_local_domain outbox) (outbox_bump_seed outbox)
    (owner outbox) tree in
  (* Create the dispatched message PDA. *)
  slot ← lift Clock_get_slot;
  let dispatched_message_account :=
    DispatchedMessage_new nonce slot (key unique_message_account_info) encoded_message in
  rent ← lift Rent_get;
  create_pda_account payer_info rent (AccountData.size dispatched_message_account) program_id
    system_program_info dispatched_message_account_info
    (with_bump (mailbox_dispatched_message_pda_seeds (key unique_message_account_info))
       dispatched_message_bump);;
  AccountData.store dispatched_message_account dispatched_message_account_info false;;
  (* Log the message using the SPL Noop program. *)
  log ← data_of dispatched_message_account_info;
  invoke (MkInstruction (key spl_noop_info) [] log) [];;
  (* Store the Outbox with the new updates. *)
  AccountData.store outbox outbox_info true;;
  set_return_data (to_be id).

(** The end of the getters: no more accounts. *)
Definition no_more_accounts (accounts_iter : list AccountInfo) : prog unit :=
  require (bool_decide (accounts_iter = [])) (ProgramError_from ExtraneousAccount).

(** [outbox_get_count] *)
Definition outbox_get_count (program_id : Pubkey) (accounts_iter : list AccountInfo) :
    prog unit :=
  '(outbox_info, accounts_iter) ← next_account_info accounts_iter;
  outbox ← Outbox_verify_account_and_fetch_inner program_id outbox_info;
  no_more_accounts accounts_iter;;
  count ← try_into_u32 (count (outbox_tree outbox));
  b ← lift (borsh_err (serialize (SimulationReturnData_new (MkByteArray (to_le count)))));
  set_return_data b.

(** [dst[a..b].copy_from_slice(src)]: [None] is the panic on a range out of bounds or on
    different lengths. *)
Definition copy_from_slice (dst : bytes) (a b : nat) (src : bytes) : option bytes :=
  target ← slice dst a b;
  if decide (length target = length src) then Some (take a dst ++ src ++ drop b dst) else None.

(** [outbox_get_latest_checkpoint] *)
Definition outbox_get_latest_checkpoint (program_id : Pubkey)
    (accounts_iter : list AccountInfo) : prog unit :=
  '(outbox_info, accounts_iter) ← next_account_info accounts_iter;
  outbox ← Outbox_verify_account_and_fetch_inner program_id outbox_info;
  no_more_accounts accounts_iter;;
  root ← lift (or_panic (Incremental.root (outbox_tree outbox)));
  count ← try_into_u32 (count (outbox_tree outbox));
  let ret_buf := replicate 36 (byte 0) in
  ret_buf ← lift (or_panic (copy_from_slice ret_buf 0 31 (to_be root)));
  ret_buf ← lift (or_panic (copy_from_slice ret_buf 32 36 (to_le count)));
  b ← lift (borsh_err (serialize (SimulationReturnData_new ret_buf)));
  set_return_data b.

(** [outbox_get_root] *)
Definition outbox_get_root (program_id : Pubkey) (accounts_iter : list AccountInfo) :
    prog unit :=
  '(outbox_info, accounts_iter) ← next_account_info accounts_iter;
  outbox ← Outbox_verify_account_and_fetch_inner program_id outbox_info;
  no_more_accounts accounts_iter;;
  root ← lift (or_panic (Incremental.root (outbox_tree outbox)));
  b ← lift (borsh_err (serialize (SimulationReturnData_new root)));
  set_return_data b.

(** [get_owner] *)
Definition get_owner (program_id : Pubkey) (accounts_iter : list AccountInfo) : prog unit :=
  '(outbox_info, _) ← next_account_info accounts_iter;
  outbox ← Outbox_verify_account_and_fetch_inner program_id outbox_info;
  b ← lift (borsh_err (serialize (SimulationReturnData_new (owner outbox))));
  set_return_data b.

(** [transfer_ownership] *)
Definition mailbox_transfer_ownership (program_id : Pubkey)
    (accounts_iter : list AccountInfo) (new_owner : option Pubkey) : prog unit :=
  '(outbox_info, accounts_iter) ← next_account_info accounts_iter;
  outbox ← Outbox_verify_account_and_fetch_inner program_id outbox_info;
  '(owner_info, _) ← next_account_info accounts_iter;
  outbox ← lift (transfer_ownership outbox owner_info new_owner);
  AccountData.store outbox outbox_info false.

(** [process_instruction] *)
Definition process_instruction (program_id : Pubkey) (accounts_iter : list AccountInfo)
    (instruction_data : bytes) : prog unit :=
  ixn ← lift (from_instruction_data instruction_data);
  match ixn with
  | InitIxn init => initialize program_id accounts_iter init
  | InboxProcessIxn process => inbox_process program_id accounts_iter process
  | InboxSetDefaultIsm ism => inbox_set_default_ism program_id accounts_iter ism
  | InboxGetRecipientIsm recipient => inbox_get_recipient_ism program_id accounts_iter recipient
  | OutboxDispatchIxn dispatch => outbox_dispatch program_id accounts_iter dispatch
  | OutboxGetCount => outbox_get_count program_id accounts_iter
  | OutboxGetLatestCheckpoint => outbox_get_latest_checkpoint program_id accounts_iter
  | OutboxGetRoot => outbox_get_root program_id accounts_iter
  | GetOwner => get_owner program_id accounts_iter
  | TransferOwnership new_owner => mailbox_transfer_ownership program_id accounts_iter new_owner
  end.

End processor.
