(* ===== verification/Multisig.v ===== *)
(** * Signatures and the multisig quorum

    [sealevel/libraries/ecdsa-signature]: 65-byte signatures and the recovery of their signer;
    [sealevel/libraries/multisig-ism]: [multisig.rs], the quorum check, [error.rs], and
    [interface.rs], the instructions a multisig module understands. Public-key recovery is a
    call of the Solana runtime and a parameter. *)

From S2P Require Import Prelude.
From S2P Require Import Codec.
From S2P Require Import Keccak.
From S2P Require Import Message.
From S2P Require Import Sealevel.
From S2P Require Import AccountUtils.
From stdpp Require Import base list numbers strings sets.
From Stdlib Require Import ZArith Lia.

#[local] Open Scope Z_scope.

(** [solana_program::secp256k1_recover]: the 64-byte public key, or an error. *)
Class Secp256k1 := secp256k1_recover : bytes -> u8 -> bytes -> option H512.

(** ** [ecdsa-signature] *)

Inductive EcdsaSignatureError := InvalidLength | InvalidRecoveryId.

Record EcdsaSignature := MkEcdsaSignature { serialized_rs : H512; recovery_id : u8 }.

#[export] Instance EcdsaSignature_eq_dec : EqDecision EcdsaSignature.
Proof. solve_decision. Defined.

(** [EcdsaSignature::from_bytes] *)
Definition EcdsaSignature_from_bytes (b : bytes) : outcome EcdsaSignatureError EcdsaSignature :=
  if negb (length b =? 65)%nat then Err InvalidLength
  else
    serialized_rs ← or_panic (slice b 0 64);
    v ← or_panic (b !! 64%nat);
    let recovery_id :=
      if (uval v =? 27) || (uval v =? 28) then byte (uval v - 27) else v in
    if 1 <? uval recovery_id then Err InvalidRecoveryId
    else Ok (MkEcdsaSignature (from_be 64 serialized_rs) recovery_id).

(** [EcdsaSignature::as_fixed_bytes] *)
Definition as_fixed_bytes (self : EcdsaSignature) : bytes :=
  to_be (serialized_rs self) ++ [recovery_id self].

(** [EcdsaSignature::secp256k1_recover_ethereum_address]: [None] is the recovery error. *)
Definition secp256k1_recover_ethereum_address `{Keccak256, Secp256k1} (self : EcdsaSignature)
    (hash : bytes) : option H160 :=
  public_key ← secp256k1_recover hash (recovery_id self) (to_be (serialized_rs self));
  public_key_hash ← slice_from (to_be (keccak256 (to_be public_key))) 12;
  Some (from_be 20 public_key_hash).

(** ** [multisig-ism/src/multisig.rs] *)

Inductive MultisigIsmError := InvalidSignature | ThresholdNotMet.

Record MultisigIsm (T : Type) := MkMultisigIsm {
  signed_data : T;
  ism_signatures : list EcdsaSignature;
  ism_validators : list H160;
  ism_threshold : u8
}.
Arguments MkMultisigIsm {T} signed_data ism_signatures ism_validators ism_threshold.
Arguments signed_data {T}.
Arguments ism_signatures {T}.
Arguments ism_validators {T}.
Arguments ism_threshold {T}.

(** The inner loop: the position of [signer] from [validator_index] on, or the number of
    validators; [n] bounds its rounds. *)
Fixpoint seek (n : nat) (validators : list H160) (signer : H160) (validator_index : nat) : nat :=
  match n with
  | O => validator_index
  | S n =>
      match validators !! validator_index with
      | Some v => if decide (signer <> v) then seek n validators signer (S validator_index)
                  else validator_index
      | None => validator_index
      end
  end.

Section multisig.
Context `{Keccak256, Secp256k1, Signable T}.

(** The loop over [i in 0..threshold], with [n] rounds left. *)
Fixpoint verify_loop (n i validator_index : nat) (self : MultisigIsm T) (digest : bytes) :
    outcome MultisigIsmError unit :=
  match n with
  | O => Ok tt
  | S n =>
      sig ← or_panic (ism_signatures self !! i);
      signer ← ok_or (secp256k1_recover_ethereum_address sig digest) InvalidSignature;
      let validator_count := length (ism_validators self) in
      let validator_index :=
        seek (validator_count - validator_index) (ism_validators self) signer validator_index in
      if (validator_count <=? validator_index)%nat then Err ThresholdNotMet
      else verify_loop n (S i) (S validator_index) self digest
  end.

(** [MultisigIsm::verify] *)
Definition multisig_verify (self : MultisigIsm T) : outcome MultisigIsmError unit :=
  verify_loop (Z.to_nat (uval (ism_threshold self))) 0 0 self
    (to_be (eth_signed_message_hash (signed_data self))).
End multisig.

(** ** [multisig-ism/src/interface.rs] *)

Inductive MultisigIsmInstruction :=
  | ValidatorsAndThresholdIxn (message : bytes)
  | ValidatorsAndThresholdAccountMetas (message : bytes).

Definition VALIDATORS_AND_THRESHOLD_DISCRIMINATOR : bytes :=
  blit [82; 96; 5; 220; 241; 173; 13; 50].
Definition VALIDATORS_AND_THRESHOLD_ACCOUNT_METAS_DISCRIMINATOR : bytes :=
  blit [113; 7; 132; 85; 239; 247; 157; 204].

Definition VALIDATORS_AND_THRESHOLD_ACCOUNT_METAS_PDA_SEEDS : list bytes :=
  bstr <$> ["hyperlane_multisig_ism"; "-"; "validators_and_threshold"; "-";
            "account_metas"]%string.

(** [MultisigIsmInstruction::encode] and [decode] *)
Definition MultisigIsmInstruction_encode (self : MultisigIsmInstruction) :
    outcome ProgramError bytes :=
  match self with
  | ValidatorsAndThresholdIxn message => Ok (VALIDATORS_AND_THRESHOLD_DISCRIMINATOR ++ message)
  | ValidatorsAndThresholdAccountMetas message =>
      Ok (VALIDATORS_AND_THRESHOLD_ACCOUNT_METAS_DISCRIMINATOR ++ message)
  end.

Definition MultisigIsmInstruction_decode (buf : bytes) :
    outcome ProgramError MultisigIsmInstruction :=
  if (length buf <? Discriminator_LENGTH)%nat then Err InvalidInstructionData
  else
    '(discriminator, rest) ← or_panic (split_at buf Discriminator_LENGTH);
    if decide (discriminator = VALIDATORS_AND_THRESHOLD_DISCRIMINATOR) then
      Ok (ValidatorsAndThresholdIxn rest)
    else if decide (discriminator = VALIDATORS_AND_THRESHOLD_ACCOUNT_METAS_DISCRIMINATOR) then
      Ok (ValidatorsAndThresholdAccountMetas rest)
    else Err InvalidInstructionData.

(** ** The quorum, declaratively *)

(** The next [x] in [l] at [i] or later. *)
Lemma seek_spec n l x i :
  n = (length l - i)%nat -> (i <= length l)%nat ->
  exists p, drop i l = p ++ drop (seek n l x i) l /\ x ∉ p /\
    (i <= seek n l x i <= length l)%nat /\
    ((seek n l x i < length l)%nat -> l !! seek n l x i = Some x).
Proof.
  revert i. induction n as [|n IH]; intros i Hn Hi; cbn [seek].
  - exists []. split_and!; [done|set_solver|lia|lia|lia].
  - destruct (l !! i) as [v|] eqn:Hv; [|apply lookup_ge_None in Hv; lia].
    case_decide as Hx.
    + destruct (IH (S i)) as (p & Hp & Hnp & Hr & Hl); [lia|lia|].
      exists (v :: p). split_and!; try lia; [|set_solver|done].
      by rewrite (drop_S l v i Hv), Hp.
    + exists []. split_and!; try lia; [done|set_solver|]. intros _.
      destruct (decide (x = v)) as [->|]; [done|]. by destruct Hx.
Qed.

(** Skipping to the first [x] loses no subsequence that starts with [x]. *)
Lemma sublist_skip {A} (x : A) p k l :
  x ∉ p -> sublist (x :: k) (p ++ l) <-> sublist (x :: k) l.
Proof.
  intros Hp. split; [|intros Hs; by apply sublist_inserts_l].
  induction p as [|y p IH]; [done|]. intros Hs.
  apply not_elem_of_cons in Hp as [Hy Hp]. apply IH; [done|].
  rewrite <- app_comm_cons in Hs. by inv Hs.
Qed.

Lemma sublist_cons_same {A} (x : A) k l : sublist (x :: k) (x :: l) <-> sublist k l.
Proof.
  split; [|by constructor]. intros Hs. inv Hs; [done|].
  etrans; [by apply (sublist_cons x)|done].
Qed.

Section quorum.
Context `{Keccak256, Secp256k1, Signable T}.

(** The digest the validators sign. *)
Definition digest (self : MultisigIsm T) : bytes :=
  to_be (eth_signed_message_hash (signed_data self)).

(** The first [k] signatures are by [signers], in this order. *)
Definition first_signers (self : MultisigIsm T) (k : nat) (signers : list H160) : Prop :=
  length signers = k /\
  forall i a, signers !! i = Some a -> exists s, ism_signatures self !! i = Some s /\
    secp256k1_recover_ethereum_address s (digest self) = Some a.

Lemma first_signers_snoc self k signers s a :
  first_signers self k signers -> ism_signatures self !! k = Some s ->
  secp256k1_recover_ethereum_address s (digest self) = Some a ->
  first_signers self (S k) (signers ++ [a]).
Proof.
  intros [Hl Hs] Hk Ha. split; [rewrite length_app; cbn; lia|].
  intros i b [Hi|[Hi Hb]]%lookup_app_Some; [eauto|].
  apply list_lookup_singleton_Some in Hb as [? <-].
  exists s. split; [|done]. by replace i with k by lia.
Qed.

Lemma first_signers_functional self k l1 l2 :
  first_signers self k l1 -> first_signers self k l2 -> l1 = l2.
Proof.
  intros [Hl1 Hf1] [Hl2 Hf2]. apply list_eq_same_length with k; [done|done|].
  intros i x y _ Hx Hy. apply Hf1 in Hx as (s & Hs & Hx). apply Hf2 in Hy as (s' & Hs' & Hy).
  congruence.
Qed.

(** What each outcome of the check means. *)
Definition verify_outcome (self : MultisigIsm T) (t : nat)
    (res : outcome MultisigIsmError unit) : Prop :=
  exists k signers, first_signers self k signers /\
    match res with
    | Ok _ => k = t /\ sublist signers (ism_validators self)
    | Err InvalidSignature =>
        (k < t)%nat /\ sublist signers (ism_validators self) /\
        exists s, ism_signatures self !! k = Some s /\
          secp256k1_recover_ethereum_address s (digest self) = None
    | Err ThresholdNotMet => (k <= t)%nat /\ ~ sublist signers (ism_validators self)
    | Panic =>
        (k < t)%nat /\ sublist signers (ism_validators self) /\
        length (ism_signatures self) = k
    end.

Lemma verify_loop_spec self n i vi ds :
  first_signers self i ds -> (vi <= length (ism_validators self))%nat ->
  (length (ism_signatures self) >= i)%nat ->
  (forall r, sublist (ds ++ r) (ism_validators self) <->
             sublist r (drop vi (ism_validators self))) ->
  verify_outcome self (i + n) (verify_loop n i vi self (digest self)).
Proof.
  revert i vi ds. induction n as [|n IH]; intros i vi ds Hds Hvi Hlen Hsub.
  all: assert (Hd : sublist ds (ism_validators self))
    by (rewrite <- (app_nil_r ds); apply Hsub, sublist_nil_l).
  - exists i, ds. cbn. split_and!; [done|lia|done].
  - cbn [verify_loop]. destruct (ism_signatures self !! i) as [s|] eqn:Hs; cbn [or_panic mbind outcome_bind].
    2: { apply lookup_ge_None in Hs. exists i, ds. split_and!; [done|lia|done|lia]. }
    apply lookup_lt_Some in Hs as Hi.
    destruct (secp256k1_recover_ethereum_address s (digest self)) as [a|] eqn:Ha;
      cbn [ok_or mbind outcome_bind].
    2: { exists i, ds. split_and!; [done|lia|done|by exists s]. }
    pose proof (first_signers_snoc _ _ _ _ _ Hds Hs Ha) as Hds'.
    destruct (seek_spec _ (ism_validators self) a vi eq_refl Hvi) as (p & Hp & Hnp & Hr & Hl).
    set (j := seek _ _ a vi) in *.
    assert (Hnext : forall r, sublist ((ds ++ [a]) ++ r) (ism_validators self) <->
                              sublist (a :: r) (drop j (ism_validators self))).
    { intros r. rewrite <- app_assoc. cbn [app]. rewrite Hsub, Hp. by apply sublist_skip. }
    destruct (Nat.leb_spec (length (ism_validators self)) j) as [Hj|Hj].
    + exists (S i), (ds ++ [a]). split_and!; [done|lia|].
      rewrite <- (app_nil_r (ds ++ [a])). rewrite Hnext, drop_ge by lia.
      intros Hn. by inv Hn.
    + rewrite <- Nat.add_succ_comm. apply IH with (ds ++ [a]); [done|lia|lia|].
      intros r. rewrite Hnext, (drop_S _ a j) by (by apply Hl). apply sublist_cons_same.
Qed.

Lemma multisig_verify_outcome (self : MultisigIsm T) :
  verify_outcome self (Z.to_nat (uval (ism_threshold self))) (multisig_verify self).
Proof.
  apply (verify_loop_spec self _ 0 0 []); [|lia|lia|done].
  split; [done|]. intros i a Hi. by rewrite lookup_nil in Hi.
Qed.

Lemma multisig_verify_ok (self : MultisigIsm T) :
  multisig_verify self = Ok tt <->
  exists signers, first_signers self (Z.to_nat (uval (ism_threshold self))) signers /\
    sublist signers (ism_validators self).
Proof.
  destruct (multisig_verify_outcome self) as (k & l & Hl & Hres).
  set (t := Z.to_nat _) in *. split.
  - intros E. rewrite E in Hres. destruct Hres as [-> ?]. eauto.
  - intros (signers & Hs & Hsub).
    assert (Hpre : (k <= t)%nat -> l = take k signers).
    { intros Hk. eapply first_signers_functional; [done|]. destruct Hs as [Hsl Hs].
      split; [rewrite length_take; lia|]. intros i a [Hi _]%lookup_take_Some. eauto. }
    destruct Hs as [Hsl Hs].
    assert (Hget : (k < t)%nat -> exists a s, ism_signatures self !! k = Some s /\
      secp256k1_recover_ethereum_address s (digest self) = Some a).
    { intros Hk. destruct (lookup_lt_is_Some_2 signers k) as [a Ha]; [lia|].
      destruct (Hs k a Ha) as (s & ? & ?). eauto. }
    destruct (multisig_verify self) as [[]|[]|]; [done|..].
    + destruct Hres as (Hk & _ & s & Hs1 & Hn). destruct (Hget Hk) as (a & s' & ? & ?). congruence.
    + destruct Hres as (Hk & Hn). destruct Hn. rewrite Hpre by lia.
      etrans; [apply sublist_take|done].
    + destruct Hres as (Hk & _ & Hlen). destruct (Hget Hk) as (a & s' & Hk' & _).
      apply lookup_lt_Some in Hk'. lia.
Qed.
End quorum.
