(* ===== verification/MessageIdIsm.v ===== *)
(** * The message-id multisig module ([sealevel/programs/ism/multisig-ism-message-id])

    [accounts.rs], [error.rs], [instruction.rs] (the validator sets and their validation),
    [metadata.rs] (the wire format of the signatures) and [processor.rs], one definition per
    handler. *)

From S2P Require Import Prelude.
From S2P Require Import Codec.
From S2P Require Import Keccak.
From S2P Require Import Message.
From S2P Require Import Sealevel.
From S2P Require Import AccountUtils.
From S2P Require Import Interfaces.
From S2P Require Import Multisig.
From stdpp Require Import base gmap list numbers strings sets.
From Stdlib Require Import ZArith Lia.

#[local] Open Scope Z_scope.

(** ** [error.rs] *)

Inductive Error :=
  | AccountOutOfOrder
  | AccountNotOwner
  | ProgramIdNotOwner
  | AccountNotInitialized
  | InvalidSignatureRecoveryId
  | ErrorInvalidSignature
  | ErrorThresholdNotMet
  | InvalidValidatorsAndThreshold
  | AlreadyInitialized
  | InvalidMetadata.

(** [err as u32] *)
Definition Error_code (err : Error) : Z :=
  match err with
  | AccountOutOfOrder => 1
  | AccountNotOwner => 2
  | ProgramIdNotOwner => 3
  | AccountNotInitialized => 4
  | InvalidSignatureRecoveryId => 5
  | ErrorInvalidSignature => 6
  | ErrorThresholdNotMet => 7
  | InvalidValidatorsAndThreshold => 8
  | AlreadyInitialized => 9
  | InvalidMetadata => 10
  end.

(** [From<Error> for ProgramError] and [From<MultisigIsmError> for Error] *)
Definition ProgramError_from (err : Error) : ProgramError := Custom (uwrap 4 (Error_code err)).

Definition Error_from (err : MultisigIsmError) : Error :=
  match err with
  | InvalidSignature => ErrorInvalidSignature
  | ThresholdNotMet => ErrorThresholdNotMet
  end.

(** ** [instruction.rs] *)

Record ValidatorsAndThreshold := MkValidatorsAndThreshold {
  validators : list H160;
  threshold : u8
}.

Record Domained (T : Type) := MkDomained { domain : u32; domain_value : T }.
Arguments MkDomained {T} domain domain_value.
Arguments domain {T}.
Arguments domain_value {T}.

Inductive Instruction :=
  | Initialize
  | SetValidatorsAndThreshold (config : Domained ValidatorsAndThreshold)
  | GetOwner
  | TransferOwnership (new_owner : option Pubkey).

#[export] Instance Instruction_discriminator : DiscriminatorData Instruction :=
  PROGRAM_INSTRUCTION_DISCRIMINATOR.

(** The loop that inserts every validator into a [HashSet]. *)
Fixpoint insert_all (set : gset H160) (l : list H160) : outcome ProgramError unit :=
  match l with
  | [] => Ok tt
  | validator :: l =>
      if decide (validator ∈ set) then Err (ProgramError_from InvalidValidatorsAndThreshold)
      else insert_all ({[validator]} ∪ set) l
  end.

(** [ValidatorsAndThreshold::validate] *)
Definition validate (self : ValidatorsAndThreshold) : outcome ProgramError unit :=
  let validators_len := length (validators self) in
  if (uval (threshold self) =? 0) || (Z.of_nat validators_len <? uval (threshold self)) then
    Err (ProgramError_from InvalidValidatorsAndThreshold)
  else insert_all ∅ (validators self).

(** ** [processor.rs]: the seeds *)

Definition access_control_pda_seeds : list bytes :=
  bstr <$> ["multisig_ism_message_id"; "-"; "access_control"]%string.
Definition domain_data_pda_seeds (domain : u32) : list bytes :=
  [bstr "multisig_ism_message_id"; bstr "-"; to_le domain; bstr "-"; bstr "domain_data"].

Section builders.
Context `{Solana, BorshSerialize Instruction}.
(** [Pubkey::try_find_program_address] *)
Context (try_find_program_address : list bytes -> Pubkey -> option (Pubkey * u8)).

Definition init_instruction (program_id payer : Pubkey) :
    outcome ProgramError SolanaInstruction :=
  '(access_control_pda_key, _) ←
    ok_or (try_find_program_address access_control_pda_seeds program_id) InvalidSeeds;
  data ← discriminator_encode Initialize;
  Ok (MkInstruction program_id
        [AccountMeta_new payer true; AccountMeta_new access_control_pda_key false;
         AccountMeta_new_readonly system_program_id false] data).

Definition transfer_ownership_instruction (program_id owner_payer : Pubkey)
    (new_owner : option Pubkey) : outcome ProgramError SolanaInstruction :=
  '(access_control_pda_key, _) ←
    ok_or (try_find_program_address access_control_pda_seeds program_id) InvalidSeeds;
  data ← discriminator_encode (TransferOwnership new_owner);
  Ok (MkInstruction program_id
        [AccountMeta_new owner_payer true; AccountMeta_new access_control_pda_key false] data).

Definition set_validators_and_threshold_instruction (program_id owner_payer : Pubkey)
    (domain : u32) (validators_and_threshold : ValidatorsAndThreshold) :
    outcome ProgramError SolanaInstruction :=
  let '(access_control_pda_key, _) := find_program_address access_control_pda_seeds program_id in
  let '(domain_data_pda_key, _) :=
    find_program_address (domain_data_pda_seeds domain) program_id in
  let ixn := SetValidatorsAndThreshold (MkDomained domain validators_and_threshold) in
  data ← expect (discriminator_encode ixn);
  Ok (MkInstruction program_id
        [AccountMeta_new owner_payer true;
         AccountMeta_new_readonly access_control_pda_key false;
         AccountMeta_new domain_data_pda_key false;
         AccountMeta_new_readonly system_program_id false] data).
End builders.

(** ** [accounts.rs] *)

Record DomainData := MkDomainData {
  dd_bump_seed : u8;
  validators_and_threshold : ValidatorsAndThreshold
}.

Record AccessControlData := MkAccessControlData {
  ac_bump_seed : u8;
  ac_data_owner : option Pubkey
}.

#[export] Instance AccessControlData_size : SizedData AccessControlData := λ _,
  (1 + 1 + 32)%nat.

#[export] Instance AccessControlData_access : AccessControl AccessControlData := {
  ac_owner := ac_data_owner;
  set_owner self new_owner := Ok (MkAccessControlData (ac_bump_seed self) new_owner)
}.

(** [#[derive(Default)]] *)
#[export] Instance DomainData_default : Default DomainData :=
  MkDomainData (byte 0) (MkValidatorsAndThreshold [] (byte 0)).
#[export] Instance AccessControlData_default : Default AccessControlData :=
  MkAccessControlData (byte 0) None.

(** ** [metadata.rs] *)

Record MultisigIsmMessageIdMetadata := MkMetadata {
  origin_merkle_tree_hook : H256;
  merkle_root : H256;
  merkle_index : u32;
  validator_signatures : list EcdsaSignature
}.

Definition ORIGIN_MAILBOX_OFFSET : nat := 0.
Definition MERKLE_ROOT_OFFSET : nat := 32.
Definition MERKLE_INDEX_OFFSET : nat := 64.
Definition SIGNATURES_OFFSET : nat := 68.
Definition SIGNATURE_LENGTH : nat := 65.

(** The loop over [i in 0..signature_count], with [n] rounds left. *)
Fixpoint read_signatures (b : bytes) (n i : nat) : outcome Error (list EcdsaSignature) :=
  match n with
  | O => Ok []
  | S n =>
      let signature_offset := (SIGNATURES_OFFSET + i * SIGNATURE_LENGTH)%nat in
      s ← or_panic (slice b signature_offset (signature_offset + SIGNATURE_LENGTH));
      signature ← map_err (λ _, InvalidMetadata) (EcdsaSignature_from_bytes s);
      l ← read_signatures b n (S i);
      Ok (signature :: l)
  end.

(** [TryFrom<Vec<u8>> for MultisigIsmMessageIdMetadata] *)
Definition Metadata_try_from (b : bytes) : outcome Error MultisigIsmMessageIdMetadata :=
  let bytes_len := length b in
  if (bytes_len <? SIGNATURES_OFFSET + SIGNATURE_LENGTH)%nat then Err InvalidMetadata
  else
    origin_mailbox ← or_panic (slice b ORIGIN_MAILBOX_OFFSET MERKLE_ROOT_OFFSET);
    merkle_root ← or_panic (slice b MERKLE_ROOT_OFFSET MERKLE_INDEX_OFFSET);
    merkle_index_bytes ← or_panic (slice b MERKLE_INDEX_OFFSET SIGNATURES_OFFSET);
    let signature_bytes_len := (bytes_len - SIGNATURES_OFFSET)%nat in
    if negb (signature_bytes_len mod SIGNATURE_LENGTH =? 0)%nat then Err InvalidMetadata
    else
      let signature_count := (signature_bytes_len / SIGNATURE_LENGTH)%nat in
      validator_signatures ← read_signatures b signature_count 0;
      Ok (MkMetadata (from_be 32 origin_mailbox) (from_be 32 merkle_root)
            (from_be 4 merkle_index_bytes) validator_signatures).

(** The loop over the signatures of [write_to]. *)
Fixpoint write_signatures (l : list EcdsaSignature) (bytes_written : Z) : writer Z :=
  match l with
  | [] => mret bytes_written
  | signature :: l =>
      n ← write (as_fixed_bytes signature);
      write_signatures l (bytes_written + n)
  end.

#[export] Instance Metadata_write_to : Encode MultisigIsmMessageIdMetadata := λ m,
  n1 ← write (to_be (origin_merkle_tree_hook m));
  n2 ← write (to_be (merkle_root m));
  n3 ← write (to_be (merkle_index m));
  write_signatures (validator_signatures m) (n1 + n2 + n3).

(** ** [processor.rs] *)

(** [ModuleType::MessageIdMultisig as u32] *)
Definition ISM_TYPE : u32 := uwrap 4 5.

(** [HyperlaneMessage::read_from(&mut &message_bytes[..])] *)
Definition read_message (message_bytes : bytes) : outcome ProgramError HyperlaneMessage :=
  map_err (λ _, InvalidArgument) (eval_st read_from message_bytes).

Section processor.
Context `{Solana, Keccak256, Secp256k1}.
Context `{BorshSerialize bool, BorshDeserialize bool}.
Context `{BorshSerialize AccessControlData, BorshDeserialize AccessControlData}.
Context `{BorshSerialize DomainData, BorshDeserialize DomainData}.
Context `{TryFromSlice VerifyInstruction, TryFromSlice Instruction}.
Context `{BorshSerialize (SimulationReturnData u32),
  BorshSerialize (SimulationReturnData (list SerializableAccountMeta)),
  BorshSerialize (SimulationReturnData ValidatorsAndThreshold),
  BorshSerialize (SimulationReturnData (option Pubkey))}.

(** [SimulationReturnData::new(x)] serialised and set as return data. *)
Definition return_simulated {A} `{BorshSerialize (SimulationReturnData A)} (x : A) : prog unit :=
  b ← lift (borsh_err (serialize (SimulationReturnData_new x)));
  set_return_data b.

(** [initialize] *)
Definition initialize (program_id : Pubkey) (accounts_iter : list AccountInfo) : prog unit :=
  (* Account 0: The new owner of this program and payer of the access control PDA. *)
  '(owner_account, accounts_iter) ← next_account_info accounts_iter;
  require (is_signer owner_account) MissingRequiredSignature;;
  (* Account 1: The access control PDA account. *)
  '(access_control_pda_account, accounts_iter) ← next_account_info accounts_iter;
  let '(access_control_pda_key, access_control_pda_bump_seed) :=
    find_program_address access_control_pda_seeds program_id in
  require (bool_decide (key access_control_pda_account = access_control_pda_key))
    (ProgramError_from AccountOutOfOrder);;
  d ← data_of access_control_pda_account;
  match AccountData.fetch_data (T := AccessControlData) d with
  | Ok (Some _) => throw (ProgramError_from AlreadyInitialized)
  | Panic => panic
  | _ => mret tt
  end;;
  (* Account 2: The system program account. *)
  '(system_program_account, _) ← next_account_info accounts_iter;
  require (bool_decide (key system_program_account = system_program_id))
    (ProgramError_from AccountOutOfOrder);;
  let access_control_account :=
    MkAccessControlData access_control_pda_bump_seed (Some (key owner_account)) in
  rent ← lift Rent_get;
  create_pda_account owner_account rent (AccountData.size access_control_account) program_id
    system_program_account access_control_pda_account
    (with_bump access_control_pda_seeds access_control_pda_bump_seed);;
  AccountData.store access_control_account access_control_pda_account false.

(** [validators_and_threshold] *)
Definition get_set (program_id : Pubkey) (accounts_iter : list AccountInfo) (domain : u32) :
    prog ValidatorsAndThreshold :=
  (* Account 0: The PDA relating to the provided domain. *)
  '(domain_pda_account, _) ← next_account_info accounts_iter;
  o ← owner_of domain_pda_account;
  require (bool_decide (o = program_id)) (ProgramError_from ProgramIdNotOwner);;
  d ← data_of domain_pda_account;
  domain_data ← lift (AccountData.fetch_data (T := DomainData) d);
  domain_data ← lift (ok_or domain_data (ProgramError_from AccountNotInitialized));
  domain_pda_key ← lift (create_program_address
    (with_bump (domain_data_pda_seeds domain) (dd_bump_seed domain_data)) program_id);
  require (bool_decide (key domain_pda_account = domain_pda_key))
    (ProgramError_from AccountOutOfOrder);;
  mret (validators_and_threshold domain_data).

(** [verify] *)
Definition verify (program_id : Pubkey) (accounts_iter : list AccountInfo)
    (metadata_bytes message_bytes : bytes) : prog unit :=
  metadata ← lift (map_err ProgramError_from (Metadata_try_from metadata_bytes));
  message ← lift (read_message message_bytes);
  validators_and_threshold ← get_set program_id accounts_iter (origin message);
  let multisig_ism := MkMultisigIsm
    (MkCheckpointWithMessageId
       (MkCheckpoint (origin_merkle_tree_hook metadata) (origin message) (merkle_root metadata)
          (nonce message))
       (id message))
    (validator_signatures metadata)
    (validators validators_and_threshold) (threshold validators_and_threshold) in
  lift (map_err (λ err, ProgramError_from (Error_from err)) (multisig_verify multisig_ism)).

(** [verify_account_metas] *)
Definition verify_account_metas (program_id : Pubkey) (_accounts : list AccountInfo)
    (_metadata_bytes message_bytes : bytes) : outcome ProgramError (list SerializableAccountMeta) :=
  message ← read_message message_bytes;
  let '(domain_pda_key, _) :=
    find_program_address (domain_data_pda_seeds (origin message)) program_id in
  Ok [SerializableAccountMeta_from (AccountMeta_new_readonly domain_pda_key false)].

(** [get_validators_and_threshold] *)
Definition get_validators_and_threshold (program_id : Pubkey)
    (accounts_iter : list AccountInfo) (domain : u32) : prog unit :=
  validators_and_threshold ← get_set program_id accounts_iter domain;
  return_simulated validators_and_threshold.

(** [get_validators_and_threshold_account_metas] *)
Definition get_validators_and_threshold_account_metas (program_id : Pubkey)
    (_accounts : list AccountInfo) (domain : u32) :
    outcome ProgramError (list SerializableAccountMeta) :=
  let '(domain_pda_key, _) := find_program_address (domain_data_pda_seeds domain) program_id in
  Ok [SerializableAccountMeta_from (AccountMeta_new_readonly domain_pda_key false)].

(** [access_control_data] *)
Definition access_control_data (program_id : Pubkey)
    (access_control_pda_account : AccountInfo) : prog AccessControlData :=
  d ← data_of access_control_pda_account;
  access_control_data ← lift (AccountData.fetch_data (T := AccessControlData) d);
  access_control_data ←
    lift (ok_or access_control_data (ProgramError_from AccountNotInitialized));
  access_control_pda_key ← lift (create_program_address
    (with_bump access_control_pda_seeds (ac_bump_seed access_control_data)) program_id);
  require (bool_decide (key access_control_pda_account = access_control_pda_key))
    (ProgramError_from AccountOutOfOrder);;
  o ← owner_of access_control_pda_account;
  require (bool_decide (o = program_id)) (ProgramError_from ProgramIdNotOwner);;
  mret access_control_data.

(** The branch of [set_validators_and_threshold] on an initialised domain account. *)
Definition existing_domain_bump (program_id : Pubkey) (domain : u32)
    (domain_pda_account : AccountInfo) (domain_data : DomainData) : prog u8 :=
  domain_pda_key ← lift (create_program_address
    (with_bump (domain_data_pda_seeds domain) (dd_bump_seed domain_data)) program_id);
  require (bool_decide (key domain_pda_account = domain_pda_key))
    (ProgramError_from AccountOutOfOrder);;
  o ← owner_of domain_pda_account;
  require (bool_decide (o = program_id)) (ProgramError_from ProgramIdNotOwner);;
  mret (dd_bump_seed domain_data).

(** The branch that creates the domain account. *)
Definition create_domain_account (program_id : Pubkey) (domain : u32)
    (owner_account domain_pda_account : AccountInfo) (accounts_iter : list AccountInfo) :
    prog u8 :=
  let domain_pda_size := 1024%nat in
  let '(domain_pda_key, domain_pda_bump) :=
    find_program_address (domain_data_pda_seeds domain) program_id in
  require (bool_decide (key domain_pda_account = domain_pda_key))
    (ProgramError_from AccountOutOfOrder);;
  (* Account 3: The system program account. *)
  '(system_program_account, _) ← next_account_info accounts_iter;
  require (bool_decide (key system_program_account = system_program_id))
    (ProgramError_from AccountOutOfOrder);;
  rent ← lift Rent_get;
  create_pda_account owner_account rent domain_pda_size program_id system_program_account
    domain_pda_account (with_bump (domain_data_pda_seeds domain) domain_pda_bump);;
  mret domain_pda_bump.

(** [set_validators_and_threshold] *)
Definition set_validators_and_threshold (program_id : Pubkey)
    (accounts_iter : list AccountInfo) (config : Domained ValidatorsAndThreshold) : prog unit :=
  lift (validate (domain_value config));;
  (* Account 0: The owner of this program. *)
  '(owner_account, accounts_iter) ← next_account_info accounts_iter;
  (* Account 1: The access control PDA account. *)
  '(access_control_pda_account, accounts_iter) ← next_account_info accounts_iter;
  access_control_data ← access_control_data program_id access_control_pda_account;
  lift (ensure_owner_signer access_control_data owner_account);;
  (* Account 2: The PDA relating to the provided domain. *)
  '(domain_pda_account, accounts_iter) ← next_account_info accounts_iter;
  d ← data_of domain_pda_account;
  bump_seed ←
    match AccountData.fetch_data (T := DomainData) d with
    | Ok (Some domain_data) =>
        existing_domain_bump program_id (domain config) domain_pda_account domain_data
    | Ok None | Err _ =>
        create_domain_account program_id (domain config) owner_account domain_pda_account
          accounts_iter
    | Panic => panic
    end;
  AccountData.store (MkDomainData bump_seed (domain_value config)) domain_pda_account true.

(** [get_owner] *)
Definition get_owner (program_id : Pubkey) (accounts_iter : list AccountInfo) : prog unit :=
  '(access_control_pda_account, _) ← next_account_info accounts_iter;
  access_control_data ← access_control_data program_id access_control_pda_account;
  return_simulated (ac_data_owner access_control_data).

(** [transfer_ownership] *)
Definition ism_transfer_ownership (program_id : Pubkey) (accounts_iter : list AccountInfo)
    (new_owner : option Pubkey) : prog unit :=
  (* Account 0: The current access control owner. *)
  '(owner_account, accounts_iter) ← next_account_info accounts_iter;
  (* Account 1: The access control PDA account. *)
  '(access_control_pda_account, _) ← next_account_info accounts_iter;
  access_control_data ← access_control_data program_id access_control_pda_account;
  access_control_data ← lift (transfer_ownership access_control_data owner_account new_owner);
  AccountData.store access_control_data access_control_pda_account false.

(** The instructions of the module interface. *)
Definition process_ism_instruction (program_id : Pubkey) (accounts_iter : list AccountInfo)
    (ism_instruction : InterchainSecurityModuleInstruction) : prog unit :=
  match ism_instruction with
  | Type_ => return_simulated ISM_TYPE
  | Verify verify_data =>
      verify program_id accounts_iter (verify_metadata verify_data) (verify_message verify_data)
  | VerifyAccountMetas verify_data =>
      account_metas ← lift (verify_account_metas program_id accounts_iter
        (verify_metadata verify_data) (verify_message verify_data));
      return_simulated account_metas
  end.

(** The instructions of the multisig interface. *)
Definition process_multisig_instruction (program_id : Pubkey)
    (accounts_iter : list AccountInfo) (multisig_ism_instruction : MultisigIsmInstruction) :
    prog unit :=
  match multisig_ism_instruction with
  | ValidatorsAndThresholdIxn message_bytes =>
      message ← lift (read_message message_bytes);
      get_validators_and_threshold program_id accounts_iter (origin message)
  | ValidatorsAndThresholdAccountMetas message_bytes =>
      message ← lift (read_message message_bytes);
      account_metas ← lift (get_validators_and_threshold_account_metas program_id accounts_iter
        (origin message));
      return_simulated account_metas
  end.

(** [process_instruction] *)
Definition process_instruction (program_id : Pubkey) (accounts_iter : list AccountInfo)
    (instruction_data : bytes) : prog unit :=
  match Ism.decode instruction_data with
  | Ok ism_instruction => process_ism_instruction program_id accounts_iter ism_instruction
  | Panic => panic
  | Err _ =>
      match MultisigIsmInstruction_decode instruction_data with
      | Ok multisig_ism_instruction =>
          process_multisig_instruction program_id accounts_iter multisig_ism_instruction
      | Panic => panic
      | Err _ =>
          ixn ← lift (discriminator_decode instruction_data);
          match ixn with
          | Initialize => initialize program_id accounts_iter
          | SetValidatorsAndThreshold config =>
              set_validators_and_threshold program_id accounts_iter config
          | GetOwner => get_owner program_id accounts_iter
          | TransferOwnership new_owner =>
              ism_transfer_ownership program_id accounts_iter new_owner
          end
      end
  end.

End processor.
