(* ===== verification/MessageIdIsmCorrect.v ===== *)
(** * The message-id multisig module: what its handlers do

    The effect of every handler that writes, as facts about the contents of the accounts, and
    the laws of the metadata format and of the validation of validator sets. *)

From S2P Require Import Prelude.
From S2P Require Import Codec.
From S2P Require Import Keccak.
From S2P Require Import Message.
From S2P Require Import Sealevel.
From S2P Require Import AccountUtils.
From S2P Require Import Interfaces.
From S2P Require Import Multisig.
From S2P Require Import MessageIdIsm.
From stdpp Require Import base gmap list numbers strings sets.
From Stdlib Require Import ZArith Lia.

#[local] Open Scope Z_scope.

(** ** Validator sets *)

Lemma insert_all_ok set l :
  insert_all set l = Ok tt <-> NoDup l /\ forall v, v ∈ l -> v ∉ set.
Proof.
  revert set. induction l as [|v l IH]; intros set; cbn [insert_all].
  - split; [|done]. intros _. split; [constructor|set_solver].
  - case_decide as Hv.
    + split; [done|]. intros [_ Hn]. destruct (Hn v); [set_solver|done].
    + rewrite IH, NoDup_cons. set_solver.
Qed.

Lemma insert_all_err set l :
  insert_all set l = Ok tt \/
  insert_all set l = Err (ProgramError_from InvalidValidatorsAndThreshold).
Proof.
  revert set. induction l as [|v l IH]; intros set; cbn [insert_all]; [by left|].
  case_decide; [by right|apply IH].
Qed.

(** A set the module may hold. *)
Definition valid_set (s : ValidatorsAndThreshold) : Prop :=
  (0 < uval (threshold s)) /\ (Z.to_nat (uval (threshold s)) <= length (validators s))%nat /\
  NoDup (validators s).

Lemma validate_ok s : validate s = Ok tt <-> valid_set s.
Proof.
  unfold validate, valid_set. urange (threshold s).
  destruct (Z.eqb_spec (uval (threshold s)) 0) as [->|]; cbn [orb].
  - split; [done|lia].
  - destruct (Z.ltb_spec (Z.of_nat (length (validators s))) (uval (threshold s))).
    + split; [done|lia].
    + rewrite insert_all_ok. split; [intros [? _]|intros (_ & _ & ?)]; split_and!; try done; try lia.
Qed.

(** ** Signatures and metadata *)

Definition signature_wf (s : EcdsaSignature) : Prop := uval (recovery_id s) <= 1.

Lemma length_as_fixed_bytes s : length (as_fixed_bytes s) = SIGNATURE_LENGTH.
Proof. unfold as_fixed_bytes. by rewrite length_app, length_to_be. Qed.

Lemma signature_roundtrip s :
  signature_wf s -> EcdsaSignature_from_bytes (as_fixed_bytes s) = Ok s.
Proof.
  intros Hv. unfold EcdsaSignature_from_bytes. rewrite length_as_fixed_bytes.
  change (negb (SIGNATURE_LENGTH =? 65)%nat) with false. cbv iota. unfold as_fixed_bytes.
  rewrite slice_first by apply length_to_be. cbn [or_panic mbind outcome_bind].
  rewrite lookup_app_r by (rewrite length_to_be; lia). rewrite length_to_be.
  change ([recovery_id s] !! (64 - 64)%nat) with (Some (recovery_id s)).
  cbn [or_panic mbind outcome_bind]. unfold signature_wf in Hv.
  destruct (Z.eqb_spec (uval (recovery_id s)) 27); [lia|].
  destruct (Z.eqb_spec (uval (recovery_id s)) 28); [lia|]. cbn [orb].
  destruct (Z.ltb_spec 1 (uval (recovery_id s))); [lia|].
  rewrite from_be_to_be. by destruct s.
Qed.

Lemma signature_decoded b s :
  EcdsaSignature_from_bytes b = Ok s ->
  signature_wf s /\ length b = 65%nat /\ take 64 (as_fixed_bytes s) = take 64 b.
Proof.
  unfold EcdsaSignature_from_bytes. destruct (Nat.eqb_spec (length b) 65) as [Hl|]; [|done].
  cbn [negb]. rewrite slice_in by lia. rewrite drop_0. cbn [or_panic mbind outcome_bind].
  destruct (b !! 64%nat) as [v|]; [|done]. cbn [or_panic mbind outcome_bind].
  case_match eqn:Hv; [done|]. intros [= <-]. apply Z.ltb_ge in Hv. split_and!; [done|done|].
  unfold as_fixed_bytes. cbn [serialized_rs recovery_id].
  rewrite to_be_from_be by (rewrite length_take; lia).
  rewrite take_app_exact; [done|]. rewrite length_take. lia.
Qed.

Lemma write_signatures_spec l n buf :
  write_signatures l n buf =
    (n + Z.of_nat (length (concat (as_fixed_bytes <$> l))), buf ++ concat (as_fixed_bytes <$> l)).
Proof.
  revert n buf. induction l as [|s l IH]; intros n buf; cbn [write_signatures fmap list_fmap concat].
  - unfold mret, writer_ret. cbn. f_equal; [lia|by rewrite app_nil_r].
  - unfold mbind, writer_bind, write. rewrite IH, length_app, <- app_assoc. f_equal. lia.
Qed.

Lemma Metadata_to_vec (m : MultisigIsmMessageIdMetadata) :
  to_vec m = to_be (origin_merkle_tree_hook m) ++ to_be (merkle_root m) ++
    to_be (merkle_index m) ++ concat (as_fixed_bytes <$> validator_signatures m).
Proof.
  unfold to_vec, write_to, Metadata_write_to, mbind, writer_bind, write.
  rewrite write_signatures_spec. cbn [snd app]. by rewrite <- !app_assoc.
Qed.

Lemma length_signatures l :
  length (concat (as_fixed_bytes <$> l)) = (length l * SIGNATURE_LENGTH)%nat.
Proof.
  induction l as [|s l IH]; [done|]. cbn [fmap list_fmap concat length].
  rewrite length_app, length_as_fixed_bytes, IH. lia.
Qed.

(** Reading the signatures that follow a prefix. *)
Lemma read_signatures_app p l n i :
  length p = (SIGNATURES_OFFSET + i * SIGNATURE_LENGTH)%nat -> n = length l ->
  Forall signature_wf l ->
  read_signatures (p ++ concat (as_fixed_bytes <$> l)) n i = Ok l.
Proof.
  intros Hp -> Hl. revert p i Hp.
  induction Hl as [|s l Hs Hl IH]; intros p i Hp; [done|].
  cbn [fmap list_fmap concat length read_signatures].
  erewrite slice_skip by (try exact Hp; lia). rewrite Nat.sub_diag, Nat.add_comm, Nat.add_sub.
  rewrite slice_first by apply length_as_fixed_bytes. cbn [or_panic mbind outcome_bind].
  rewrite signature_roundtrip by done. cbn [map_err mbind outcome_bind]. rewrite app_assoc, IH; [done|].
  rewrite length_app, Hp, length_as_fixed_bytes. lia.
Qed.

(** With room for all of them, reading signatures never panics. *)
Lemma read_signatures_total b n i :
  (SIGNATURES_OFFSET + (i + n) * SIGNATURE_LENGTH <= length b)%nat ->
  match read_signatures b n i with
  | Ok l => length l = n /\ Forall signature_wf l
  | Err e => e = InvalidMetadata
  | Panic => False
  end.
Proof.
  revert i. induction n as [|n IH]; intros i Hb; cbn [read_signatures]; [by split|].
  rewrite slice_in by lia. cbn [or_panic mbind outcome_bind].
  match goal with |- context [EcdsaSignature_from_bytes ?s] => set (sb := s) end.
  assert (Hsb : length sb = 65%nat).
  { unfold sb. rewrite length_take, length_drop. unfold SIGNATURE_LENGTH in *. lia. }
  destruct (EcdsaSignature_from_bytes sb) as [s|e|] eqn:Hs; cbn [map_err mbind outcome_bind]; [|done|].
  - apply signature_decoded in Hs as (Hwf & _ & _). specialize (IH (S i)).
    destruct (read_signatures b n (S i)) as [l|e|]; cbn [mbind outcome_bind].
    + destruct IH as [Hl Hf]; [lia|]. split; [cbn; lia|by constructor].
    + apply IH. lia.
    + apply IH. lia.
  - unfold EcdsaSignature_from_bytes in Hs. rewrite Hsb in Hs. cbn [negb Nat.eqb] in Hs.
    rewrite slice_in in Hs by lia. cbn [or_panic mbind outcome_bind] in Hs.
    destruct (sb !! 64%nat) eqn:Hv; [|apply lookup_ge_None in Hv; lia].
    cbn [or_panic mbind outcome_bind] in Hs. by case_match.
Qed.

(** ** The handlers *)

Section handlers.
Context `{SolanaLaws, Keccak256, Secp256k1}.
Context `{BorshSerialize bool, BorshDeserialize bool, !BorshBool}.
Context `{BorshSerialize AccessControlData, BorshDeserialize AccessControlData,
  !BorshLaws AccessControlData}.
Context `{BorshSerialize DomainData, BorshDeserialize DomainData, !BorshLaws DomainData}.

(** The account [k] is an access-control (domain) account of the program and holds [a]. *)
Definition access_control_at (program_id : Pubkey) (w : world) (k : Pubkey)
    (a : AccessControlData) : Prop :=
  k ∉ borrowed w /\ AccountData.fetch_data (fst (content w k)) = Ok (Some a) /\
  create_program_address (with_bump access_control_pda_seeds (ac_bump_seed a))
    program_id = Ok k /\ snd (content w k) = program_id.

Definition domain_at (program_id : Pubkey) (w : world) (d : u32) (k : Pubkey)
    (a : DomainData) : Prop :=
  k ∉ borrowed w /\ AccountData.fetch_data (fst (content w k)) = Ok (Some a) /\
  create_program_address (with_bump (domain_data_pda_seeds d) (dd_bump_seed a))
    program_id = Ok k /\ snd (content w k) = program_id.

Lemma access_control_data_ok program_id i w r :
  access_control_data program_id i w = Ok r <->
  exists a, access_control_at program_id w (key i) a /\ r = (a, w).
Proof.
  split.
  - intros Hf. unfold access_control_data in Hf. do 7 (prog_step Hf). injection Hf as <-.
    match goal with Hx : ok_or ?o _ = Ok ?a |- _ => destruct o; [injection Hx as ->|done] end.
    eexists. split; [|done]. by subst.
  - intros (a & (Hb & Hf & Hk & Ho) & ->). unfold access_control_data.
    prog_run (proj2 (data_of_ok i w _) (conj Hb eq_refl)). rewrite Hf.
    unfold mbind, ST_bind, lift, owner_of, ok_or. rewrite Hk.
    unfold require, lift, require_or. rewrite bool_decide_true by done.
    change (acc_owner (get_account w (key i))) with (snd (content w (key i))).
    by rewrite Ho, bool_decide_true by done.
Qed.

Lemma get_set_ok program_id i rest d w r :
  get_set program_id (i :: rest) d w = Ok r <->
  exists a, domain_at program_id w d (key i) a /\ r = (validators_and_threshold a, w).
Proof.
  unfold get_set. prog_run (@next_cons i rest w). split.
  - intros Hf. do 7 (prog_step Hf). injection Hf as <-.
    match goal with Hx : ok_or ?o _ = Ok ?a |- _ => destruct o; [injection Hx as ->|done] end.
    eexists. split; [|done]. by subst.
  - intros (a & (Hb & Hf & Hk & Ho) & ->).
    prog_run (proj2 (owner_of_ok i w _) eq_refl).
    prog_run (@require_true _ _ (bool_decide (snd (content w (key i)) = program_id))
      (ProgramError_from ProgramIdNotOwner) w (bool_decide_eq_true_2 _ Ho)).
    prog_run (proj2 (data_of_ok i w _) (conj Hb eq_refl)). rewrite Hf.
    unfold mbind, ST_bind, lift, ok_or. rewrite Hk.
    unfold require, lift, require_or. by rewrite bool_decide_true by done.
Qed.

Lemma get_set_inv program_id accts d w r :
  get_set program_id accts d w = Ok r ->
  exists i rest a, accts = i :: rest /\ domain_at program_id w d (key i) a /\
    r = (validators_and_threshold a, w).
Proof.
  destruct accts as [|i rest]; [done|]. intros (a & Ha & ->)%get_set_ok. eauto 6.
Qed.

Lemma ism_initialize_ok program_id accts w r :
  initialize program_id accts w = Ok r ->
  exists owner ai sys rest bump w' b tail,
    accts = owner :: ai :: sys :: rest /\ r = (tt, w') /\ is_signer owner = true /\
    find_program_address access_control_pda_seeds program_id = (key ai, bump) /\
    (forall a, AccountData.fetch_data (T := AccessControlData) (fst (content w (key ai))) <>
               Ok (Some a)) /\
    serialize (MkAccessControlData bump (Some (key owner))) = Ok b /\
    frame w w' /\ key ai ∉ borrowed w' /\
    forall k, content w' k =
      if decide (k = key ai) then (byte 1 :: b ++ tail, program_id) else content w k.
Proof.
  intros Hi. unfold initialize in Hi. do 3 (prog_step Hi).
  destruct (find_program_address access_control_pda_seeds program_id) as [ak bump] eqn:Hf.
  do 2 (prog_step Hi). apply st_bind_ok in Hi as ([] & s & Hn & Hi).
  assert (Hs : s = w /\ forall a, AccountData.fetch_data (T := AccessControlData)
    (fst (content w (key i0))) <> Ok (Some a)).
  { destruct (AccountData.fetch_data _) as [[a|]| |]; try done;
      apply (inj Ok), (f_equal snd) in Hn; by subst. }
  destruct Hs as [-> Hnone]. do 3 (prog_step Hi).
  apply st_bind_ok in Hi as ([] & w1 & Hc & Hi). destruct r as [[] w2].
  destruct (create_store_content (T := AccessControlData) _ _ _ _ _ _ _ _ _ _ _ _
    (ltac:(done) : Z.of_nat 35 < 2 ^ 64)
    Hc Hi) as (Hfr & Hb & b & tail & Hser & Hk). subst ak.
  eexists _, i0, _, _, bump, w2, b, tail. by split_and!.
Qed.

(** What both branches of [set_validators_and_threshold] establish before the store. *)
Lemma domain_bump_ok program_id d owner i accts w bump w' :
  match AccountData.fetch_data (T := DomainData) (fst (content w (key i))) with
  | Ok (Some domain_data) => existing_domain_bump program_id d i domain_data
  | Ok None | Err _ => create_domain_account program_id d owner i accts
  | Panic => panic
  end w = Ok (bump, w') ->
  create_program_address (with_bump (domain_data_pda_seeds d) bump) program_id = Ok (key i) /\
  frame w w' /\ snd (content w' (key i)) = program_id /\
  forall k, k <> key i -> content w' k = content w k.
Proof.
  assert (Hcr : create_domain_account program_id d owner i accts w = Ok (bump, w') ->
    create_program_address (with_bump (domain_data_pda_seeds d) bump) program_id = Ok (key i) /\
    frame w w' /\ snd (content w' (key i)) = program_id /\
    forall k, k <> key i -> content w' k = content w k).
  { intros Hc. unfold create_domain_account in Hc.
    destruct (find_program_address (domain_data_pda_seeds d) program_id) as [dk b] eqn:Hf.
    do 4 (prog_step Hc). apply st_bind_ok in Hc as ([] & w1 & Hcr & Hc).
    apply (inj Ok) in Hc. injection Hc as <- <-.
    apply create_pda_account_content in Hcr as (w2 & [= <-] & Hfr & Hk); [|done]. subst dk.
    split_and!; [by apply find_create|done|by rewrite Hk, decide_True|].
    intros k Hne. by rewrite Hk, decide_False. }
  destruct (AccountData.fetch_data _) as [[a|]| |]; [|done|done|done].
  intros He. unfold existing_domain_bump in He. do 4 (prog_step He).
  apply (inj Ok) in He. injection He as <- <-. subst. done.
Qed.

Lemma set_validators_and_threshold_ok program_id accts config w r :
  set_validators_and_threshold program_id accts config w = Ok r ->
  exists owner ai di rest a bump w' b tail,
    accts = owner :: ai :: di :: rest /\ r = (tt, w') /\
    valid_set (domain_value config) /\ is_signer owner = true /\
    access_control_at program_id w (key ai) a /\ ac_data_owner a = Some (key owner) /\
    create_program_address (with_bump (domain_data_pda_seeds (domain config)) bump)
      program_id = Ok (key di) /\
    serialize (MkDomainData bump (domain_value config)) = Ok b /\
    frame w w' /\ key di ∉ borrowed w' /\
    forall k, content w' k =
      if decide (k = key di) then (byte 1 :: b ++ tail, program_id) else content w k.
Proof.
  intros Hs. unfold set_validators_and_threshold in Hs. prog_step Hs. destruct x.
  do 2 (prog_step Hs). apply st_bind_ok in Hs as (a' & s & Ha & Hs).
  apply access_control_data_ok in Ha as (a & Ha & [= -> ->]). do 3 (prog_step Hs).
  apply st_bind_ok in Hs as (bump & w1 & Hd & Hs).
  apply domain_bump_ok in Hd as (Hk & Hf1 & Ho & Hother).
  apply store_content in Hs as (_ & Hb & w' & b & tail & -> & Hser & Hf2 & Hc).
  match goal with Hx : ensure_owner_signer _ _ = Ok _ |- _ =>
    apply ensure_owner_signer_ok in Hx as [Hsig Hown] end.
  eexists _, _, i1, _, a, bump, w', b, tail.
  split_and!; try done; [by apply validate_ok|by etrans|by destruct Hf2 as [_ ->]|].
  intros k. rewrite Hc. case_decide as Hki; [by rewrite Hki, Ho|by apply Hother].
Qed.

Definition with_ac_owner (a : AccessControlData) (new_owner : option Pubkey) :
    AccessControlData :=
  MkAccessControlData (ac_bump_seed a) new_owner.

Lemma ism_transfer_ownership_ok program_id ow ai rest new_owner w r :
  ism_transfer_ownership program_id (ow :: ai :: rest) new_owner w = Ok r <->
  exists a d, access_control_at program_id w (key ai) a /\
    is_signer ow = true /\ ac_data_owner a = Some (key ow) /\
    is_writable ai = true /\ executable ai = false /\
    AccountData.store_in_slice (with_ac_owner a new_owner) (fst (content w (key ai))) = Ok d /\
    r = (tt, set_data w (key ai) d).
Proof.
  unfold ism_transfer_ownership. prog_run (@next_cons ow (ai :: rest) w).
  prog_run (@next_cons ai rest w). split.
  - intros Ht. apply st_bind_ok in Ht as (a' & s & Ha & Ht).
    apply access_control_data_ok in Ha as (a & Ha & [= -> ->]). prog_step Ht.
    match goal with Hx : transfer_ownership _ _ _ = Ok _ |- _ => rename Hx into Htr end.
    unfold transfer_ownership in Htr. apply bind_ok in Htr as ([] & He & Hs).
    apply ensure_owner_signer_ok in He as [Hsig Hown]. cbn in Hs. injection Hs as <-.
    apply store_ok in Ht as (Hw & Hx & _ & d & Hd & ->). exists a, d. done.
  - intros (a & d & Ha & Hsig & Hown & Hw & Hx & Hd & ->).
    prog_run (proj2 (access_control_data_ok program_id ai w _) (ex_intro _ a (conj Ha eq_refl))).
    assert (Ht : transfer_ownership a ow new_owner = Ok (with_ac_owner a new_owner)).
    { assert (He : ensure_owner_signer a ow = Ok tt) by (by apply ensure_owner_signer_ok).
      unfold transfer_ownership. by rewrite He. }
    prog_run (lift_Ok _ _ w Ht). apply store_ok. destruct Ha as (Hb & _).
    split_and!; try done. by exists d.
Qed.
End handlers.

(** ** The metadata format *)

Lemma metadata_length (m : MultisigIsmMessageIdMetadata) :
  length (to_vec m) = (SIGNATURES_OFFSET + length (validator_signatures m) * SIGNATURE_LENGTH)%nat.
Proof.
  rewrite Metadata_to_vec, !length_app, !length_to_be, length_signatures.
  unfold SIGNATURES_OFFSET. lia.
Qed.

Lemma metadata_read (m : MultisigIsmMessageIdMetadata) :
  validator_signatures m <> [] -> Forall signature_wf (validator_signatures m) ->
  Metadata_try_from (to_vec m) = Ok m.
Proof.
  intros Hne Hwf. unfold Metadata_try_from. rewrite metadata_length.
  assert (Hn : (1 <= length (validator_signatures m))%nat)
    by (destruct (validator_signatures m); [done|cbn; lia]).
  rewrite (proj2 (Nat.ltb_ge _ _)) by (unfold SIGNATURE_LENGTH; lia).
  rewrite Nat.add_comm, Nat.add_sub, Nat.Div0.mod_mul, Nat.div_mul by done. cbn [Nat.eqb negb].
  unfold ORIGIN_MAILBOX_OFFSET, MERKLE_ROOT_OFFSET, MERKLE_INDEX_OFFSET, SIGNATURES_OFFSET.
  rewrite Metadata_to_vec. slices. cbn [or_panic mbind outcome_bind].
  rewrite 2!app_assoc, (read_signatures_app _ _ _ 0) by
    (first [done | by rewrite !length_app, !length_to_be]).
  cbn [mbind outcome_bind]. rewrite !from_be_to_be. by destruct m.
Qed.

Lemma metadata_decoded b :
  match Metadata_try_from b with
  | Ok m => validator_signatures m <> [] /\ Forall signature_wf (validator_signatures m) /\
      length (to_vec m) = length b /\ take 68 (to_vec m) = take 68 b /\
      Metadata_try_from (to_vec m) = Ok m
  | Err e => e = InvalidMetadata
  | Panic => False
  end.
Proof.
  destruct (Metadata_try_from b) as [m|e|] eqn:Hm; unfold Metadata_try_from in Hm;
    (destruct (Nat.ltb_spec (length b) (SIGNATURES_OFFSET + SIGNATURE_LENGTH)) as [|Hl];
      [congruence|]);
    rewrite !slice_in in Hm by (unfold ORIGIN_MAILBOX_OFFSET, MERKLE_ROOT_OFFSET,
      MERKLE_INDEX_OFFSET, SIGNATURES_OFFSET, SIGNATURE_LENGTH in *; lia);
    cbn [or_panic mbind outcome_bind] in Hm;
    (destruct (Nat.eqb_spec ((length b - SIGNATURES_OFFSET) mod SIGNATURE_LENGTH) 0) as [Hz|];
      [cbn [negb] in Hm|cbn [negb] in Hm; congruence]);
    pose proof (Nat.div_mod_eq (length b - SIGNATURES_OFFSET) SIGNATURE_LENGTH) as Hdm;
    set (q := ((length b - SIGNATURES_OFFSET) / SIGNATURE_LENGTH)%nat) in *; clearbody q;
    pose proof (read_signatures_total b q 0) as Hr;
    destruct (read_signatures b q 0) as [l|e'|]; try (cbn in Hm; congruence).
  - destruct Hr as [Hll Hwf]; [lia|]. cbn [mbind outcome_bind] in Hm. apply (inj Ok) in Hm as <-.
    set (m := MkMetadata _ _ _ _).
    assert (Hne : validator_signatures m <> []).
    { intros Hn. cbn [validator_signatures m] in Hn. subst l. cbn [length] in Hll. subst q.
      unfold SIGNATURES_OFFSET, SIGNATURE_LENGTH in *. lia. }
    split_and!; [done|done| | |by apply metadata_read].
    + rewrite metadata_length. cbn [validator_signatures m]. rewrite Hll. lia.
    + rewrite Metadata_to_vec. cbn [origin_merkle_tree_hook merkle_root merkle_index m].
      unfold ORIGIN_MAILBOX_OFFSET, MERKLE_ROOT_OFFSET, MERKLE_INDEX_OFFSET, SIGNATURES_OFFSET,
        SIGNATURE_LENGTH in *.
      rewrite !to_be_from_be by (rewrite length_take, ?length_drop; lia).
      rewrite !app_assoc, take_app_exact by (rewrite !length_app, !length_take, !length_drop; lia).
      rewrite <- (take_drop 32 (take 68 b)) at 1. rewrite take_take, skipn_firstn_comm.
      rewrite <- (take_drop 32 (take (68 - 32) (drop 32 b))) at 1.
      rewrite take_take, skipn_firstn_comm, drop_drop. by rewrite <- app_assoc.
  - cbn [mbind outcome_bind] in Hm. rewrite Hr in Hm by lia. congruence.
  - apply Hr. lia.
Qed.
