(* ===== verification/Concrete.v ===== *)
(** * Concrete instances of the parameters

    One implementation of every interface the programs are parameterised by, used only to
    apply the theorems at concrete inputs: the Borsh formats of the derived codecs, and a
    small runtime with a working system program in which every other program accepts every
    call. Their laws are proved, so the hypotheses of the theorems hold together. *)

From S2P Require Import Prelude.
From S2P Require Import Codec.
From S2P Require Import Keccak.
From S2P Require Import Accumulator.
From S2P Require Import Message.
From S2P Require Import Sealevel.
From S2P Require Import AccountUtils.
From S2P Require Import Interfaces.
From S2P Require Import Mailbox.
From stdpp Require Import base gmap list numbers strings sets.
From Stdlib Require Import ZArith Lia.

#[local] Open Scope Z_scope.

Module BorshModel.

Lemma slice_read_app {A} n l k (f : bytes -> slice_reader A) :
  length l = n -> (slice_read_exact n ≫= f) (l ++ k) = f l k.
Proof.
  intros Hl. apply st_bind_eq. unfold slice_read_exact.
  rewrite decide_True by (rewrite length_app; lia).
  by rewrite take_app_exact, drop_app_exact.
Qed.

(** Runs the reads of a decoder over an encoding. *)
Ltac decode :=
  rewrite <- ?app_assoc;
  repeat rewrite slice_read_app by (autorewrite with hyp; reflexivity || assumption);
  autorewrite with hyp.

#[export] Instance bool_ser : BorshSerialize bool := λ b, Ok [byte (Z.b2z b)].
#[export] Instance bool_de : BorshDeserialize bool := λ s,
  match s with
  | [] => Err UnexpectedEof
  | b :: s =>
      if uval b =? 0 then Ok (false, s) else if uval b =? 1 then Ok (true, s)
      else Err InvalidData
  end.
#[export] Instance bool_laws : BorshBool.
Proof. split; [done|]. by intros []. Qed.

#[export] Instance Inbox_ser : BorshSerialize Inbox := λ i,
  Ok (to_le (inbox_local_domain i) ++ to_le (inbox_bump_seed i) ++ to_be (default_ism i)
      ++ to_le (processed_count i)).
#[export] Instance Inbox_de : BorshDeserialize Inbox :=
  local_domain ← slice_read_exact 4;
  bump ← slice_read_exact 1;
  ism ← slice_read_exact 32;
  n ← slice_read_exact 8;
  mret (MkInbox (from_le 4 local_domain) (from_le 1 bump) (from_be 32 ism) (from_le 8 n)).
#[export] Instance Inbox_laws : BorshLaws Inbox.
Proof.
  intros [d b m n] s rest Hs. apply (inj Ok) in Hs as <-.
  unfold deserialize, Inbox_de. cbn [inbox_local_domain inbox_bump_seed default_ism processed_count].
  decode. unfold mret, ST_ret. autorewrite with hyp. done.
Qed.

Fixpoint read_array (n : nat) : slice_reader (list H256) :=
  match n with
  | O => mret []
  | S n => h ← slice_read_exact 32; l ← read_array n; mret (from_be 32 h :: l)
  end.

Lemma read_array_app n l rest :
  length l = n -> read_array n (concat (to_be <$> l) ++ rest) = Ok (l, rest).
Proof.
  intros <-. induction l as [|h l IH]; [done|]. cbn [length read_array fmap list_fmap concat].
  decode. rewrite (st_bind_eq _ _ _ _ _ IH). unfold mret, ST_ret.
  by autorewrite with hyp.
Qed.

Definition ser_option (o : option Pubkey) : bytes :=
  match o with None => [byte 0] | Some k => byte 1 :: to_be k end.

Definition read_option : slice_reader (option Pubkey) :=
  b ← slice_read_exact 1;
  match b with
  | [b] => if uval b =? 0 then mret None
           else if uval b =? 1 then k ← slice_read_exact 32; mret (Some (from_be 32 k))
           else throw InvalidData
  | _ => throw InvalidData
  end.

Lemma read_option_app o rest : read_option (ser_option o ++ rest) = Ok (o, rest).
Proof.
  destruct o as [k|]; unfold read_option, ser_option.
  - change ((byte 1 :: to_be k) ++ rest) with ([byte 1] ++ to_be k ++ rest).
    rewrite slice_read_app by done. change (uval (byte 1) =? 0) with false.
    change (uval (byte 1) =? 1) with true. cbv iota. decode. unfold mret, ST_ret.
    by autorewrite with hyp.
  - by rewrite slice_read_app.
Qed.

(** The branch is a [[H256; 32]] in the source; any other length does not encode. *)
#[export] Instance Outbox_ser : BorshSerialize Outbox := λ o,
  if decide (length (branch (outbox_tree o)) = 32%nat) then
    Ok (to_le (outbox_local_domain o) ++ to_le (outbox_bump_seed o) ++ ser_option (owner o)
        ++ concat (to_be <$> branch (outbox_tree o)) ++ to_le (count (outbox_tree o)))
  else Err OtherIo.
#[export] Instance Outbox_de : BorshDeserialize Outbox :=
  local_domain ← slice_read_exact 4;
  bump ← slice_read_exact 1;
  owner ← read_option;
  branch ← read_array 32;
  count ← slice_read_exact 8;
  mret (MkOutbox (from_le 4 local_domain) (from_le 1 bump) owner
          (MkIncrementalMerkle branch (from_le 8 count))).
#[export] Instance Outbox_laws : BorshLaws Outbox.
Proof.
  intros [d b w [br n]] s rest Hs. unfold serialize, Outbox_ser in Hs.
  cbn [outbox_local_domain outbox_bump_seed owner outbox_tree branch count] in Hs.
  case_decide as Hl; [|done]. apply (inj Ok) in Hs as <-.
  unfold deserialize, Outbox_de. decode.
  rewrite (st_bind_eq _ _ _ _ _ (read_option_app w _)).
  rewrite (st_bind_eq _ _ _ _ _ (read_array_app _ br _ Hl)). decode.
  unfold mret, ST_ret. by autorewrite with hyp.
Qed.

#[export] Instance ProcessedMessage_ser : BorshSerialize ProcessedMessage := λ p,
  Ok (pm_discriminator p ++ to_le (sequence p) ++ to_be (pm_message_id p) ++ to_le (pm_slot p)).

(** A [Vec<u8>]: its length as a [u32] and its bytes. *)
Definition ser_vec (b : bytes) : outcome io_error bytes :=
  if decide (Z.of_nat (length b) < 2 ^ 32) then
    Ok (to_le (uwrap 4 (Z.of_nat (length b))) ++ b)
  else Err InvalidData.

Definition read_vec : slice_reader bytes :=
  n ← slice_read_exact 4; slice_read_exact (Z.to_nat (uval (from_le 4 n))).

Lemma read_vec_app b s rest : ser_vec b = Ok s -> read_vec (s ++ rest) = Ok (b, rest).
Proof.
  unfold ser_vec. case_decide as Hl; [|done]. intros Hs. apply (inj Ok) in Hs as <-.
  unfold read_vec. decode. rewrite uval_uwrap_small, Nat2Z.id
    by (change (umax 4) with (2 ^ 32); lia).
  unfold slice_read_exact. rewrite decide_True by (rewrite length_app; lia).
  by rewrite take_app_exact, drop_app_exact.
Qed.

(** ** Lists of entries, by a codec of the entries that are [valid] *)

Section entries.
Context {A : Type} (ser : A -> bytes) (valid : A -> bool) (read : slice_reader A).
Hypothesis read_ser : forall a rest, valid a = true -> read (ser a ++ rest) = Ok (a, rest).

Fixpoint read_entries (n : nat) : slice_reader (list A) :=
  match n with
  | O => mret []
  | S n => a ← read; l ← read_entries n; mret (a :: l)
  end.

Lemma read_entries_app l rest :
  forallb valid l = true -> read_entries (length l) (concat (ser <$> l) ++ rest) = Ok (l, rest).
Proof.
  induction l as [|a l IH]; [done|]. cbn [forallb]. intros [Ha Hl]%andb_prop.
  cbn [length read_entries fmap list_fmap concat].
  rewrite <- app_assoc, (st_bind_eq _ _ _ _ _ (read_ser a _ Ha)).
  by rewrite (st_bind_eq _ _ _ _ _ (IH Hl)).
Qed.

(** A [Vec]: its length as a [u32] and its entries. *)
Definition ser_entries (l : list A) : outcome io_error bytes :=
  if decide (Z.of_nat (length l) < 2 ^ 32 /\ forallb valid l = true) then
    Ok (to_le (uwrap 4 (Z.of_nat (length l))) ++ concat (ser <$> l))
  else Err InvalidData.

Definition read_counted : slice_reader (list A) :=
  n ← slice_read_exact 4; read_entries (Z.to_nat (uval (from_le 4 n))).

Lemma read_counted_app l b rest :
  ser_entries l = Ok b -> read_counted (b ++ rest) = Ok (l, rest).
Proof.
  unfold ser_entries. case_decide as Hd; [|done]. destruct Hd as [Hl Hv]. intros Hb. apply (inj Ok) in Hb as <-.
  unfold read_counted. decode. rewrite uval_uwrap_small, Nat2Z.id
    by (change (umax 4) with (2 ^ 32); lia).
  by apply read_entries_app.
Qed.
End entries.

(** [try_from_slice] of a reader. *)
Definition whole {A} (r : slice_reader A) (s : bytes) : outcome io_error A :=
  match r s with
  | Ok (a, []) => Ok a
  | Ok _ => Err InvalidData
  | Err e => Err e
  | Panic => Panic
  end.

#[export] Instance VerifyInstruction_ser : BorshSerialize VerifyInstruction := λ i,
  a ← ser_vec (verify_metadata i); b ← ser_vec (verify_message i); Ok (a ++ b).
#[export] Instance VerifyInstruction_try : TryFromSlice VerifyInstruction :=
  whole (a ← read_vec; b ← read_vec; mret (MkVerifyInstruction a b)).
#[export] Instance VerifyInstruction_laws : TryFromSliceLaws VerifyInstruction.
Proof.
  intros [a b] s Hs. unfold serialize, VerifyInstruction_ser in Hs.
  apply bind_ok in Hs as (sa & Ha & Hs). apply bind_ok in Hs as (sb & Hb & Hs).
  apply (inj Ok) in Hs as <-. unfold try_from_slice, VerifyInstruction_try, whole.
  rewrite (st_bind_eq _ _ _ _ _ (read_vec_app _ _ _ Ha)).
  rewrite <- (app_nil_r sb), (st_bind_eq _ _ _ _ _ (read_vec_app _ _ _ Hb)). done.
Qed.

#[export] Instance HandleInstruction_ser : BorshSerialize HandleInstruction := λ i,
  b ← ser_vec (handle_message i); Ok (to_le (handle_origin i) ++ to_be (handle_sender i) ++ b).
#[export] Instance HandleInstruction_try : TryFromSlice HandleInstruction :=
  whole (o ← slice_read_exact 4; h ← slice_read_exact 32; b ← read_vec;
         mret (MkHandleInstruction (from_le 4 o) (from_be 32 h) b)).
#[export] Instance HandleInstruction_laws : TryFromSliceLaws HandleInstruction.
Proof.
  intros [o h m] s Hs. unfold serialize, HandleInstruction_ser in Hs.
  apply bind_ok in Hs as (b & Hb & Hs). apply (inj Ok) in Hs as <-.
  unfold try_from_slice, HandleInstruction_try, whole.
  cbn [handle_origin handle_sender handle_message]. decode.
  rewrite <- (app_nil_r b), (st_bind_eq _ _ _ _ _ (read_vec_app _ _ _ Hb)).
  unfold mret, ST_ret. by autorewrite with hyp.
Qed.

#[export] Instance option_Pubkey_try : TryFromSlice (option Pubkey) := whole read_option.

#[export] Instance srd_ser_bytes : BorshSerialize (SimulationReturnData bytes) := λ d,
  b ← ser_vec (srd_return_data d); Ok (b ++ [trailing_byte d]).
#[export] Instance srd_ser_array : BorshSerialize (SimulationReturnData byte_array) := λ d,
  Ok (array_bytes (srd_return_data d) ++ [trailing_byte d]).
#[export] Instance srd_ser_H256 : BorshSerialize (SimulationReturnData H256) := λ d,
  Ok (to_be (srd_return_data d) ++ [trailing_byte d]).
#[export] Instance srd_ser_option : BorshSerialize (SimulationReturnData (option Pubkey)) := λ d,
  Ok (ser_option (srd_return_data d) ++ [trailing_byte d]).

End BorshModel.

(** ** A runtime *)

Module RuntimeModel.

Definition system_id : Pubkey := uwrap 32 0.
Definition noop_id : Pubkey := uwrap 32 1.

(** Addresses are a checksum of the seeds and the program; the bump is always 255. *)
Definition address (seeds : list bytes) (p : Pubkey) : Pubkey :=
  uwrap 32 (foldl (λ a b, a * 257 + uval b) 1 (concat seeds ++ to_be p)).

Definition acct (w : world) (k : Pubkey) : account :=
  default (MkAccount (uwrap 8 0) [] system_id) (accounts w !! k).

Inductive system_op :=
  | OpTransfer (from to : Pubkey) (lamports : Z)
  | OpAllocate (k : Pubkey) (space : Z)
  | OpAssign (k o : Pubkey)
  | OpCreate (from k : Pubkey) (lamports space : Z) (o : Pubkey).

(** The instruction of an operation: a tag, the two numbers and the owner as data. *)
Definition op_data (tag lamports space : Z) (o : Pubkey) : bytes :=
  byte tag :: to_le (uwrap 8 lamports) ++ to_le (uwrap 8 space) ++ to_be o.

Definition op_instruction (op : system_op) : SolanaInstruction :=
  match op with
  | OpTransfer from to l =>
      MkInstruction system_id [AccountMeta_new from true; AccountMeta_new to false]
        (op_data 0 l 0 system_id)
  | OpAllocate k s =>
      MkInstruction system_id [AccountMeta_new k true; AccountMeta_new k true]
        (op_data 1 0 s system_id)
  | OpAssign k o =>
      MkInstruction system_id [AccountMeta_new k true; AccountMeta_new k true]
        (op_data 2 0 0 o)
  | OpCreate from k l s o =>
      MkInstruction system_id [AccountMeta_new from true; AccountMeta_new k true]
        (op_data 3 l s o)
  end.

Definition op_of (ix : SolanaInstruction) : option system_op :=
  match ix_accounts ix, ix_data ix with
  | [a; b], tag :: d =>
      let l := uval (from_le 8 (take 8 d)) in
      let s := uval (from_le 8 (take 8 (drop 8 d))) in
      let o := from_be 32 (drop 16 d) in
      let ka := meta_pubkey a in let kb := meta_pubkey b in
      if uval tag =? 0 then Some (OpTransfer ka kb l)
      else if uval tag =? 1 then Some (OpAllocate kb s)
      else if uval tag =? 2 then Some (OpAssign kb o)
      else if uval tag =? 3 then Some (OpCreate ka kb l s o)
      else None
  | _, _ => None
  end.

(** The lamports of an account after a movement. *)
Definition move (w : world) (k : Pubkey) (l : Z) : world :=
  let a := acct w k in
  set_account w k (MkAccount (uwrap 8 (acc_lamports a + l)) (acc_data a) (acc_owner a)).

(** New data and owner for a fresh account. *)
Definition take_over (w : world) (k : Pubkey) (d : bytes) (o : Pubkey) :
    outcome ProgramError world :=
  if decide (acc_owner (acct w k) = system_id) then
    Ok (set_account w k (MkAccount (acc_lamports (acct w k)) d o))
  else Err InvalidAccountData.

Definition take_fresh (w : world) (k : Pubkey) (d : bytes) (o : Pubkey) :
    outcome ProgramError world :=
  if decide (acc_data (acct w k) = []) then take_over w k d o
  else Err AccountAlreadyInitialized.

Definition run_op (op : system_op) (w : world) : outcome ProgramError world :=
  match op with
  | OpTransfer from to l =>
      if decide (0 <= l <= acc_lamports (acct w from) /\ acc_lamports (acct w to) + l < 2 ^ 64)
      then Ok (move (move w from (- l)) to l)
      else Err InsufficientFunds
  | OpAllocate k s =>
      take_fresh w k (replicate (Z.to_nat s) (byte 0)) (acc_owner (acct w k))
  | OpAssign k o => take_over w k (acc_data (acct w k)) o
  | OpCreate from k l s o =>
      take_fresh (move (move w from (- l)) k l) k (replicate (Z.to_nat s) (byte 0)) o
  end.

Definition cleared (w : world) : world :=
  MkWorld (accounts w) (borrowed w) None (executing w).

Definition run (ix : SolanaInstruction) (infos : list AccountInfo) (seeds : list (list bytes))
    (w : world) : outcome ProgramError world :=
  if existsb (λ m, bool_decide (meta_pubkey m ∈ borrowed w)) (ix_accounts ix) then
    Err AccountBorrowFailed
  else if decide (ix_program_id ix = system_id) then
    match op_of ix with
    | Some op => run_op op (cleared w)
    | None => Err InvalidInstructionData
    end
  else Ok (cleared w).

#[export] Instance release_build : OverflowChecks := false.

#[export] Instance runtime : Solana := {
  system_program_id := system_id;
  spl_noop_id := noop_id;
  find_program_address seeds p := (address (seeds ++ [[byte 255]]) p, byte 255);
  create_program_address seeds p := Ok (address seeds p);
  Rent_get := Ok (MkRent (λ n, uwrap 8 (10 * Z.of_nat n)) (λ _ _, true));
  Clock_get_slot := Ok (uwrap 8 42);
  sol_invoke_signed := run;
  sol_realloc i n z w :=
    if decide (key i ∈ borrowed w) then Err AccountBorrowFailed
    else
      let a := acct w (key i) in
      Ok (set_account w (key i) (MkAccount (acc_lamports a)
            (take n (acc_data a) ++ replicate (n - length (acc_data a)) (byte 0)) (acc_owner a)));
  system_transfer from to l := op_instruction (OpTransfer from to l);
  system_allocate k s := op_instruction (OpAllocate k s);
  system_assign k o := op_instruction (OpAssign k o);
  system_create_account from k l s o := op_instruction (OpCreate from k l s o)
}.

Lemma content_set w k a k' :
  content (set_account w k a) k' = if decide (k' = k) then (acc_data a, acc_owner a)
                                   else content w k'.
Proof. unfold content. rewrite get_account_set. by case_decide. Qed.

Lemma content_move w k l k' : content (move w k l) k' = content w k'.
Proof. unfold move. rewrite content_set. by case_decide; subst. Qed.

Lemma move_lamports w k l k' :
  lamports_at (move w k l) k' =
  if decide (k' = k) then (lamports_at w k + l) mod 2 ^ 64 else lamports_at w k'.
Proof.
  unfold lamports_at, move. rewrite get_account_set. case_decide; [|done].
  cbn [acc_lamports]. by rewrite uval_uwrap.
Qed.

Lemma op_data_fields tag l s o :
  exists d, op_data tag l s o = byte tag :: d /\
    from_le 8 (take 8 d) = uwrap 8 l /\ from_le 8 (take 8 (drop 8 d)) = uwrap 8 s /\
    from_be 32 (drop 16 d) = o.
Proof.
  eexists. split; [done|]. rewrite (take_app_exact 8), (drop_app_exact 8) by apply length_to_le.
  rewrite (take_app_exact 8) by apply length_to_le.
  rewrite app_assoc, (drop_app_exact 16) by (by rewrite length_app, !length_to_le).
  by autorewrite with hyp.
Qed.

(** The well-formed operations: the numbers are [u64]s. *)
Definition op_wf (op : system_op) : Prop :=
  match op with
  | OpTransfer _ _ l => 0 <= l < 2 ^ 64
  | OpAllocate _ s => 0 <= s < 2 ^ 64
  | OpAssign _ _ => True
  | OpCreate _ _ l s _ => 0 <= l < 2 ^ 64 /\ 0 <= s < 2 ^ 64
  end.

Lemma op_of_instruction op : op_wf op -> op_of (op_instruction op) = Some op.
Proof.
  intros Hwf. destruct op as [from to l|k s|k o|from k l s o]; unfold op_of, op_instruction;
    cbn [ix_accounts ix_data];
    match goal with |- context [op_data ?t ?l ?s ?o] =>
      destruct (op_data_fields t l s o) as (d & -> & -> & -> & ->) end;
    cbn [AccountMeta_new meta_pubkey op_wf] in *;
    rewrite ?(uval_uwrap_small 8) by (change (umax 8) with (2 ^ 64); lia); reflexivity.
Qed.

Lemma run_system op infos seeds w w' :
  op_wf op -> run (op_instruction op) infos seeds w = Ok w' -> run_op op (cleared w) = Ok w'.
Proof.
  intros Hwf. unfold run. case_match; [done|].
  rewrite decide_True by (by destruct op). by rewrite op_of_instruction.
Qed.

(** The accounts an operation may change are among those of its instruction. *)
Definition op_target (op : system_op) : option Pubkey :=
  match op with
  | OpTransfer _ _ _ => None
  | OpAllocate k _ | OpAssign k _ | OpCreate _ k _ _ _ => Some k
  end.

Lemma take_over_ok w k d o w' :
  take_over w k d o = Ok w' ->
  acc_owner (acct w k) = system_id /\ frame w w' /\
  forall k', content w' k' = if decide (k' = k) then (d, o) else content w k'.
Proof.
  unfold take_over. case_decide; [|done]. intros Hw. apply (inj Ok) in Hw as <-.
  split_and!; [done|done|]. intros k'. rewrite content_set. by case_decide.
Qed.

Lemma take_fresh_ok w k d o w' :
  take_fresh w k d o = Ok w' ->
  content w k = ([], system_id) /\ take_over w k d o = Ok w'.
Proof.
  unfold take_fresh. case_decide as Hd; [|done]. intros Ht. split; [|done].
  apply take_over_ok in Ht as (Ho & _). unfold content, get_account, acct in *. cbn in *.
  by rewrite Hd, Ho.
Qed.

Lemma run_op_ok op w w' :
  run_op op w = Ok w' ->
  frame w w' /\
  (forall k, op_target op = Some k -> snd (content w k) = system_id) /\
  forall k', op_target op <> Some k' -> content w' k' = content w k'.
Proof.
  destruct op as [from to l|k s|k o|from k l s o]; cbn [run_op op_target]; intros Hr.
  - case_decide; [|done]. apply (inj Ok) in Hr as <-. split_and!; [done|done|].
    intros k' _. by rewrite !content_move.
  - apply take_fresh_ok in Hr as [_ Hr]. apply take_over_ok in Hr as (Ho & Hf & Hc).
    split_and!; [done|intros ? [= <-]; done|].
    intros k' Hk. rewrite Hc, decide_False; congruence.
  - apply take_over_ok in Hr as (Ho & Hf & Hc). split_and!; [done|intros ? [= <-]; done|].
    intros k' Hk. rewrite Hc, decide_False; congruence.
  - apply take_fresh_ok in Hr as [_ Hr]. apply take_over_ok in Hr as (Ho & Hf & Hc).
    split_and!; [done| |].
    + intros ? [= <-]. rewrite <- (content_move w from (- l)), <- (content_move _ k l). done.
    + intros k' Hk. rewrite Hc, decide_False by congruence. by rewrite !content_move.
Qed.

Lemma content_cleared w k : content (cleared w) k = content w k.
Proof. done. Qed.

Lemma op_of_target ix op k :
  op_of ix = Some op -> op_target op = Some k -> k ∈ meta_pubkey <$> ix_accounts ix.
Proof.
  unfold op_of. destruct (ix_accounts ix) as [|a [|b [|]]]; try done.
  destruct (ix_data ix) as [|tag d]; [done|].
  repeat case_match; intros; simplify_eq; set_solver.
Qed.

Lemma run_ok ix infos seeds w w' :
  run ix infos seeds w = Ok w' ->
  frame w w' /\
  (forall k, k ∈ meta_pubkey <$> ix_accounts ix -> k ∉ borrowed w) /\
  (w' = cleared w \/ (ix_program_id ix = system_id /\
     exists op, op_of ix = Some op /\ run_op op (cleared w) = Ok w')).
Proof.
  unfold run. destruct (existsb _ _) eqn:He; [done|].
  assert (Hb : forall k, k ∈ meta_pubkey <$> ix_accounts ix -> k ∉ borrowed w).
  { intros k Hk Hin. apply list_elem_of_fmap in Hk as (m & -> & Hm).
    apply not_true_iff_false in He. apply He, existsb_exists. exists m.
    split; [by apply list_elem_of_In|]. by apply bool_decide_eq_true_2. }
  case_decide as Hp.
  - destruct (op_of ix) as [op|] eqn:Hop; [|done]. intros Hr.
    split; [by apply run_op_ok in Hr as (? & _)|]. eauto 6.
  - intros Hw. apply (inj Ok) in Hw as <-. split_and!; [done|done|by left].
Qed.

Lemma u64_range (x : u64) : 0 <= uval x < 2 ^ 64.
Proof. pose proof (uval_range x) as Hx. by change (umax 8) with (2 ^ 64) in Hx. Qed.
#[local] Hint Resolve u64_range : core.

#[export] Instance runtime_laws : SolanaLaws.
Proof.
  split; try done.
  - intros ix infos seeds w w' Hr. by apply run_ok in Hr as (? & _).
  - intros ix infos seeds w w' k Hb Hk Hr. apply run_ok in Hr as (_ & Hn & _).
    by apply (Hn k).
  - intros ix infos seeds w w' k Hr Hk.
    apply run_ok in Hr as (_ & _ & [->|(_ & op & Hop & Hr)]); [done|].
    apply run_op_ok in Hr as (_ & _ & Hc). rewrite Hc; [done|].
    intros Ht. by apply Hk, (op_of_target ix op).
  - intros ix infos seeds w w' k Hr Hne Ho.
    apply run_ok in Hr as (_ & _ & [->|(Hp & op & Hop & Hr)]); [done|].
    apply run_op_ok in Hr as (_ & Hs & Hc). rewrite Hc; [done|].
    intros Ht. apply Hs in Ht. rewrite content_cleared in Ht. cbn in Ht.
    rewrite Ho in Ht. congruence.
  - intros from to l infos seeds w w' k Hr.
    apply (run_system (OpTransfer from to l)) in Hr; [|cbn; auto].
    apply run_op_ok in Hr as (_ & _ & Hc). by rewrite Hc.
  - intros from to l infos seeds w w' k Hne Hr.
    apply (run_system (OpTransfer from to l)) in Hr; [|cbn; auto].
    cbn [run_op] in Hr. case_decide as Hd; [|done]. apply (inj Ok) in Hr as <-.
    pose proof (u64_range (acc_lamports (acct w from))).
    pose proof (u64_range (acc_lamports (acct w to))).
    change (acct (cleared w)) with (acct w) in *.
    rewrite !move_lamports, (decide_False (P := to = from)) by congruence.
    change (lamports_at (cleared w)) with (lamports_at w).
    change (lamports_at w from) with (uval (acc_lamports (acct w from))).
    change (lamports_at w to) with (uval (acc_lamports (acct w to))).
    repeat case_decide; try congruence; apply Z.mod_small; lia.
  - intros k s infos seeds w w' k' Hr.
    apply (run_system (OpAllocate k s)) in Hr; [|cbn; auto].
    apply take_fresh_ok in Hr as [_ Hr]. apply take_over_ok in Hr as (_ & _ & ->).
    by case_decide.
  - intros k o infos seeds w w' k' Hr.
    apply (run_system (OpAssign k o)) in Hr; [|done].
    apply take_over_ok in Hr as (_ & _ & ->). by case_decide.
  - intros from k l s o infos seeds w w' k' Hr.
    apply (run_system (OpCreate from k l s o)) in Hr; [|cbn; auto].
    apply take_fresh_ok in Hr as [_ Hr]. apply take_over_ok in Hr as (_ & _ & ->).
    case_decide; [done|]. by rewrite !content_move.
  - intros k s infos seeds w w' Hr. apply (run_system (OpAllocate k s)) in Hr; [|cbn; auto].
    by apply take_fresh_ok in Hr as [Hr _].
  - intros from k l s o infos seeds w w' Hr.
    apply (run_system (OpCreate from k l s o)) in Hr; [|cbn; auto].
    apply take_fresh_ok in Hr as [Hr _]. by rewrite !content_move in Hr.
  - intros i n z w w' Hr. cbn in Hr. case_decide; [done|]. by apply (inj Ok) in Hr as <-.
  - intros i n z w w' k' Hr. cbn in Hr. case_decide; [done|]. apply (inj Ok) in Hr as <-.
    exists (replicate (n - length (acc_data (acct w (key i)))) (byte 0)).
    rewrite content_set. case_decide; [|done]. by subst.
  - intros i n z w w' Hr. cbn in Hr. case_decide; [done|]. apply (inj Ok) in Hr as <-.
    rewrite get_account_set, decide_True by done. cbn [acc_data].
    rewrite length_app, length_take, length_replicate. lia.
  - intros seeds p k b Hf. cbn in *. by simplify_eq.
Qed.

(** The world after a run that succeeds. *)
Definition after (m : outcome ProgramError (unit * world)) : world :=
  match m with Ok (_, w) => w | _ => MkWorld ∅ ∅ None system_id end.

Lemma after_ok (m : prog unit) w : is_ok (m w) = true -> m w = Ok (tt, after (m w)).
Proof. destruct (m w) as [[[] w']| |]; done. Qed.
End RuntimeModel.
