(* ===== verification/ConcreteIsm.v ===== *)
(** * Concrete instances for the message-id module

    The Borsh formats of its derived codecs, and a signature recovery in which a signature is
    by the key it spells. Only the witnesses use them. *)

From S2P Require Import Prelude.
From S2P Require Import Codec.
From S2P Require Import Keccak.
From S2P Require Import Message.
From S2P Require Import Sealevel.
From S2P Require Import AccountUtils.
From S2P Require Import Interfaces.
From S2P Require Import Multisig.
From S2P Require Import MessageIdIsm.
From S2P Require Import Concrete.
From stdpp Require Import base gmap list numbers strings sets.
From Stdlib Require Import ZArith Lia.

#[local] Open Scope Z_scope.

Import BorshModel.

Module IsmModel.

(** Every signature recovers the key made of its [r] and [s]. *)
#[export] Instance recover_model : Secp256k1 := λ hash v rs, Some (from_be 64 rs).

#[export] Instance AccessControlData_ser : BorshSerialize AccessControlData := λ a,
  Ok (to_le (ac_bump_seed a) ++ ser_option (ac_data_owner a)).
#[export] Instance AccessControlData_de : BorshDeserialize AccessControlData :=
  bump ← slice_read_exact 1;
  owner ← read_option;
  mret (MkAccessControlData (from_le 1 bump) owner).
#[export] Instance AccessControlData_laws : BorshLaws AccessControlData.
Proof.
  intros [b w] s rest Hs. apply (inj Ok) in Hs as <-.
  unfold deserialize, AccessControlData_de. cbn [ac_bump_seed ac_data_owner]. decode.
  rewrite (st_bind_eq _ _ _ _ _ (read_option_app w _)).
  unfold mret, ST_ret. by autorewrite with hyp.
Qed.

(** A validator set: the number of validators as a [u32], the validators, the threshold. *)
Definition ser_set (s : ValidatorsAndThreshold) : outcome io_error bytes :=
  if decide (Z.of_nat (length (validators s)) < 2 ^ 32) then
    Ok (to_le (uwrap 4 (Z.of_nat (length (validators s)))) ++ concat (to_be <$> validators s)
        ++ to_le (threshold s))
  else Err InvalidData.

Fixpoint read_addresses (n : nat) : slice_reader (list H160) :=
  match n with
  | O => mret []
  | S n => h ← slice_read_exact 20; l ← read_addresses n; mret (from_be 20 h :: l)
  end.

Definition read_set : slice_reader ValidatorsAndThreshold :=
  n ← slice_read_exact 4;
  l ← read_addresses (Z.to_nat (uval (from_le 4 n)));
  t ← slice_read_exact 1;
  mret (MkValidatorsAndThreshold l (from_le 1 t)).

Lemma read_addresses_app n l rest :
  length l = n -> read_addresses n (concat (to_be <$> l) ++ rest) = Ok (l, rest).
Proof.
  intros <-. induction l as [|h l IH]; [done|]. cbn [length read_addresses fmap list_fmap concat].
  decode. rewrite (st_bind_eq _ _ _ _ _ IH). unfold mret, ST_ret.
  by autorewrite with hyp.
Qed.

Lemma read_set_app s b rest : ser_set s = Ok b -> read_set (b ++ rest) = Ok (s, rest).
Proof.
  unfold ser_set. case_decide as Hl; [|done]. intros Hs. apply (inj Ok) in Hs as <-.
  unfold read_set. decode. rewrite uval_uwrap_small, Nat2Z.id
    by (change (umax 4) with (2 ^ 32); lia).
  rewrite (st_bind_eq _ _ _ _ _ (read_addresses_app _ (validators s) _ eq_refl)). decode.
  unfold mret, ST_ret. autorewrite with hyp. by destruct s.
Qed.

#[export] Instance DomainData_ser : BorshSerialize DomainData := λ d,
  b ← ser_set (validators_and_threshold d); Ok (to_le (dd_bump_seed d) ++ b).
#[export] Instance DomainData_de : BorshDeserialize DomainData :=
  bump ← slice_read_exact 1;
  s ← read_set;
  mret (MkDomainData (from_le 1 bump) s).
#[export] Instance DomainData_laws : BorshLaws DomainData.
Proof.
  intros [b v] s rest Hs. unfold serialize, DomainData_ser in Hs.
  apply bind_ok in Hs as (sb & Hsb & Hs). apply (inj Ok) in Hs as <-.
  unfold deserialize, DomainData_de. cbn [dd_bump_seed]. decode.
  rewrite (st_bind_eq _ _ _ _ _ (read_set_app _ _ _ Hsb)).
  unfold mret, ST_ret. by autorewrite with hyp.
Qed.

(** The derived format of an enum: the number of the variant and its fields. *)
#[export] Instance Instruction_ser : BorshSerialize Instruction := λ i,
  match i with
  | Initialize => Ok [byte 0]
  | SetValidatorsAndThreshold c =>
      b ← ser_set (domain_value c); Ok (byte 1 :: to_le (domain c) ++ b)
  | GetOwner => Ok [byte 2]
  | TransferOwnership o => Ok (byte 3 :: ser_option o)
  end.

Definition read_instruction : slice_reader Instruction :=
  tag ← slice_read_exact 1;
  let tag := uval (from_le 1 tag) in
  if tag =? 0 then mret Initialize
  else if tag =? 1 then
    d ← slice_read_exact 4; s ← read_set;
    mret (SetValidatorsAndThreshold (MkDomained (from_le 4 d) s))
  else if tag =? 2 then mret GetOwner
  else if tag =? 3 then o ← read_option; mret (TransferOwnership o)
  else throw InvalidData.

#[export] Instance Instruction_try : TryFromSlice Instruction := whole read_instruction.

(** The tag read off an encoding. *)
Lemma read_tag {A} z l (f : bytes -> slice_reader A) :
  (slice_read_exact 1 ≫= f) (byte z :: l) = f [byte z] l.
Proof. done. Qed.

#[export] Instance Instruction_laws : TryFromSliceLaws Instruction.
Proof.
  intros i s Hs. unfold serialize, Instruction_ser in Hs.
  unfold try_from_slice, Instruction_try, whole, read_instruction.
  destruct i as [|[d c]| |o].
  - by apply (inj Ok) in Hs as <-.
  - apply bind_ok in Hs as (b & Hb & Hs). apply (inj Ok) in Hs as <-. rewrite read_tag.
    change (uval (from_le 1 [byte 1])) with 1. cbn [Z.eqb Pos.eqb domain]. decode.
    rewrite <- (app_nil_r b), (st_bind_eq _ _ _ _ _ (read_set_app _ _ _ Hb)).
    unfold mret, ST_ret. by autorewrite with hyp.
  - by apply (inj Ok) in Hs as <-.
  - apply (inj Ok) in Hs as <-. rewrite read_tag.
    change (uval (from_le 1 [byte 3])) with 3. cbn [Z.eqb Pos.eqb].
    rewrite <- (app_nil_r (ser_option o)), (st_bind_eq _ _ _ _ _ (read_option_app o _)).
    done.
Qed.

#[export] Instance srd_ser_u32 : BorshSerialize (SimulationReturnData u32) := λ d,
  Ok (to_le (srd_return_data d) ++ [trailing_byte d]).
#[export] Instance srd_ser_set : BorshSerialize (SimulationReturnData ValidatorsAndThreshold) :=
  λ d, b ← ser_set (srd_return_data d); Ok (b ++ [trailing_byte d]).
#[export] Instance srd_ser_metas :
    BorshSerialize (SimulationReturnData (list SerializableAccountMeta)) := λ d,
  let meta m := to_be (sam_pubkey m) ++ [byte (Z.b2z (sam_is_signer m));
                                         byte (Z.b2z (sam_is_writable m))] in
  Ok (to_le (uwrap 4 (Z.of_nat (length (srd_return_data d))))
      ++ concat (meta <$> srd_return_data d) ++ [trailing_byte d]).
End IsmModel.
