(* ===== verification/MultisigTheorems.v ===== *)
(** * Properties of the multisig quorum and of the message-id module *)

From S2P Require Import Prelude.
From S2P Require Import Codec.
From S2P Require Import Keccak.
From S2P Require Import Message.
From S2P Require Import Sealevel.
From S2P Require Import AccountUtils.
From S2P Require Import Interfaces.
From S2P Require Import Multisig.
From S2P Require Import MessageIdIsm.
From S2P Require Import MessageIdIsmCorrect.
From S2P Require Import Concrete.
From S2P Require Import ConcreteIsm.
From stdpp Require Import base gmap list numbers strings sets relations.
From Stdlib Require Import ZArith Lia.

#[local] Open Scope Z_scope.

(** The quorum check finds a quorum exactly when there is one. [verify] succeeds if and
    only if the first [threshold] signatures are by validators that occur in this order in
    the validator list, although its single pass never looks back. And every failure is
    exact: [InvalidSignature] at the first signature that recovers no signer, [ThresholdNotMet]
    at the first whose signer breaks the order, and a panic (an index out of range) precisely
    when all signatures present are in order and there are fewer than [threshold] of them. *)
Theorem multisig_verify_spec `{Keccak256, Secp256k1, Signable T} (self : MultisigIsm T) :
  (multisig_verify self = Ok tt <->
   exists signers, first_signers self (Z.to_nat (uval (ism_threshold self))) signers /\
     sublist signers (ism_validators self)) /\
  verify_outcome self (Z.to_nat (uval (ism_threshold self))) (multisig_verify self).
Proof. split; [apply multisig_verify_ok|apply multisig_verify_outcome]. Qed.

(** [validate] accepts exactly the validator sets with a non-zero threshold that does not
    exceed their number and without duplicates, and rejects every other one with
    [InvalidValidatorsAndThreshold]. *)
Theorem validate_spec (s : ValidatorsAndThreshold) :
  (validate s = Ok tt <->
   0 < uval (threshold s) /\ (Z.to_nat (uval (threshold s)) <= length (validators s))%nat /\
   NoDup (validators s)) /\
  (validate s = Ok tt \/ validate s = Err (ProgramError_from InvalidValidatorsAndThreshold)).
Proof.
  split; [apply validate_ok|]. unfold validate. case_match; [by right|apply insert_all_err].
Qed.

(** The metadata format round-trips and its decoder is total. A metadata value with at
    least one signature, whose recovery ids are 0 or 1, is decoded from its encoding; on
    arbitrary bytes the decoder never panics: it fails with [InvalidMetadata], always when
    there are fewer than 133 bytes or the bytes after the first 68 are not a whole number of
    signatures, or returns a metadata value of this form with the encoded length that agrees
    with the first 68 bytes. *)
Theorem metadata_roundtrip (m : MultisigIsmMessageIdMetadata) (b : bytes)
    (Hne : validator_signatures m <> [])
    (Hwf : Forall (λ s, uval (recovery_id s) <= 1) (validator_signatures m)) :
  Metadata_try_from (to_vec m) = Ok m /\
  match Metadata_try_from b with
  | Ok m' => validator_signatures m' <> [] /\
      Forall (λ s, uval (recovery_id s) <= 1) (validator_signatures m') /\
      length (to_vec m') = length b /\ take 68 (to_vec m') = take 68 b /\
      Metadata_try_from (to_vec m') = Ok m'
  | Err e => e = InvalidMetadata
  | Panic => False
  end /\
  ((length b < 133)%nat \/ ((length b - 68) mod 65 <> 0)%nat ->
   Metadata_try_from b = Err InvalidMetadata).
Proof.
  split_and!.
  - by apply metadata_read.
  - by apply metadata_decoded.
  - intros Hb. unfold Metadata_try_from. destruct (Nat.ltb_spec (length b) (68 + 65)) as [|Hl].
    + by rewrite (proj2 (Nat.ltb_lt _ _)) by (unfold SIGNATURES_OFFSET, SIGNATURE_LENGTH; lia).
    + rewrite (proj2 (Nat.ltb_ge _ _)) by (unfold SIGNATURES_OFFSET, SIGNATURE_LENGTH; lia).
      rewrite !slice_in by (unfold ORIGIN_MAILBOX_OFFSET, MERKLE_ROOT_OFFSET,
        MERKLE_INDEX_OFFSET, SIGNATURES_OFFSET; lia).
      cbn [or_panic mbind outcome_bind].
      destruct (Nat.eqb_spec ((length b - SIGNATURES_OFFSET) mod SIGNATURE_LENGTH) 0) as [Hz|];
        [|done]. destruct Hb as [|Hb]; [lia|]. by destruct Hb.
Qed.

Section program.
Context `{SolanaLaws, Keccak256, Secp256k1}.
Context `{BorshSerialize bool, BorshDeserialize bool, !BorshBool}.
Context `{BorshSerialize AccessControlData, BorshDeserialize AccessControlData,
  !BorshLaws AccessControlData}.
Context `{BorshSerialize DomainData, BorshDeserialize DomainData, !BorshLaws DomainData}.
Context `{TryFromSlice VerifyInstruction, TryFromSlice Instruction}.
Context `{BorshSerialize (SimulationReturnData u32),
  BorshSerialize (SimulationReturnData (list SerializableAccountMeta)),
  BorshSerialize (SimulationReturnData ValidatorsAndThreshold),
  BorshSerialize (SimulationReturnData (option Pubkey))}.

(** What the validators of a domain sign for a message. *)
Definition signed_checkpoint (m : HyperlaneMessage) (md : MultisigIsmMessageIdMetadata) :
    CheckpointWithMessageId :=
  MkCheckpointWithMessageId
    (MkCheckpoint (origin_merkle_tree_hook md) (origin m) (merkle_root md) (nonce m)) (id m).

Definition quorum_check (m : HyperlaneMessage) (md : MultisigIsmMessageIdMetadata)
    (s : ValidatorsAndThreshold) : MultisigIsm CheckpointWithMessageId :=
  MkMultisigIsm (signed_checkpoint m md) (validator_signatures md) (validators s) (threshold s).

Lemma read_message_ok b m : read_message b = Ok m <-> HyperlaneMessage_from b = Some m.
Proof.
  rewrite <- HyperlaneMessage_decoders. unfold read_message.
  destruct (eval_st read_from b); cbn; split; congruence.
Qed.

Lemma verify_ok program_id accts metadata_bytes message_bytes w r :
  verify program_id accts metadata_bytes message_bytes w = Ok r <->
  exists md m i rest a,
    Metadata_try_from metadata_bytes = Ok md /\ HyperlaneMessage_from message_bytes = Some m /\
    accts = i :: rest /\ domain_at program_id w (origin m) (key i) a /\
    multisig_verify (quorum_check m md (validators_and_threshold a)) = Ok tt /\ r = (tt, w).
Proof.
  unfold verify. split.
  - intros Hv. do 2 (prog_step Hv). apply st_bind_ok in Hv as (s & w1 & Hs & Hv).
    apply get_set_inv in Hs as (i & rest & a & -> & Ha & [= -> ->]).
    apply lift_ok in Hv as ([] & Hv & ->). apply map_err_inv in Hv.
    match goal with Hx : map_err _ (Metadata_try_from _) = Ok _ |- _ =>
      apply map_err_inv in Hx end.
    match goal with Hx : read_message _ = Ok ?m |- _ =>
      exists x, m, i, rest, a; apply read_message_ok in Hx end. by split_and!.
  - intros (md & m & i & rest & a & Hmd & Hm & -> & Ha & Hv & ->).
    apply read_message_ok in Hm.
    prog_run (lift_Ok (map_err ProgramError_from (Metadata_try_from metadata_bytes)) md w
      ltac:(by rewrite Hmd)).
    prog_run (lift_Ok _ _ w Hm).
    prog_run (proj2 (get_set_ok program_id i rest (origin m) w _)
      (ex_intro _ a (conj Ha eq_refl))).
    apply lift_ok. exists tt. split; [|done]. unfold quorum_check, signed_checkpoint in Hv.
    by rewrite Hv.
Qed.

(** The module accepts a message exactly when its configured validators vouch for it.
    [verify] succeeds if and only if the metadata and the message decode, the first account
    is the program's own account for the message's origin, and the metadata's first
    [threshold] signatures over the checkpoint (hook address and root from the metadata;
    origin, nonce and id of the message itself) are by that domain's validators in order;
    and it changes nothing. *)
Theorem ism_verify_spec (program_id : Pubkey) accts metadata_bytes message_bytes w r :
  verify program_id accts metadata_bytes message_bytes w = Ok r <->
  exists md m i rest a signers,
    Metadata_try_from metadata_bytes = Ok md /\ HyperlaneMessage_from message_bytes = Some m /\
    accts = i :: rest /\ domain_at program_id w (origin m) (key i) a /\
    length signers = Z.to_nat (uval (threshold (validators_and_threshold a))) /\
    sublist signers (validators (validators_and_threshold a)) /\
    (forall j v, signers !! j = Some v -> exists s, validator_signatures md !! j = Some s /\
       secp256k1_recover_ethereum_address s
         (to_be (eth_signed_message_hash (signed_checkpoint m md))) = Some v) /\
    r = (tt, w).
Proof.
  rewrite verify_ok. split.
  - intros (md & m & i & rest & a & Hmd & Hm & -> & Ha & Hv & ->).
    apply multisig_verify_ok in Hv as (signers & [Hl Hs] & Hsub).
    exists md, m, i, rest, a, signers. by split_and!.
  - intros (md & m & i & rest & a & signers & Hmd & Hm & -> & Ha & Hl & Hsub & Hs & ->).
    exists md, m, i, rest, a. split_and!; try done.
    apply multisig_verify_ok. by exists signers.
Qed.

(** Only the owner configures the module, and what it configures is what counts. A
    successful [set_validators_and_threshold] has a valid set and the signature of the
    access-control account's owner; afterwards the domain's account (created on first use)
    holds exactly the new set, is read back by every later query, and no other account's
    data or owner has changed. *)
Theorem set_validators_effect (program_id : Pubkey) accts config w w'
    (Hs : set_validators_and_threshold program_id accts config w = Ok (tt, w')) :
  exists owner ai di rest a bump,
    accts = owner :: ai :: di :: rest /\ validate (domain_value config) = Ok tt /\
    is_signer owner = true /\
    access_control_at program_id w (key ai) a /\ ac_data_owner a = Some (key owner) /\
    domain_at program_id w' (domain config) (key di)
      (MkDomainData bump (domain_value config)) /\
    (forall r, get_set program_id [di] (domain config) w' = Ok r <->
               r = (domain_value config, w')) /\
    forall k, k <> key di -> content w' k = content w k.
Proof.
  apply set_validators_and_threshold_ok in Hs
    as (owner & ai & di & rest & a & bump & w2 & b & tail & -> & [= <-] & Hv & Hsig & Ha & Hown
        & Hk & Hser & _ & Hb & Hc).
  assert (Hd : domain_at program_id w' (domain config) (key di)
    (MkDomainData bump (domain_value config))).
  { split_and!; try done; rewrite Hc, decide_True by done; [|done].
    by apply fetch_data_stored. }
  exists owner, ai, di, rest, a, bump. split_and!; try done.
  - by apply validate_ok.
  - intros r. rewrite get_set_ok. split; [|intros ->; eauto].
    intros (a' & (_ & Hf & _) & ->). destruct Hd as (_ & Hf' & _). rewrite Hf in Hf'. by injection Hf' as ->.
  - intros k Hne. by rewrite Hc, decide_False.
Qed.

(** Only the owner hands the module over: [transfer_ownership] succeeds exactly with
    the signature of the present owner and the program's writable access-control account;
    its only effect is the new owner in that account. *)
Theorem ism_transfer_ownership_spec (program_id : Pubkey) ow ai rest new_owner w r :
  ism_transfer_ownership program_id (ow :: ai :: rest) new_owner w = Ok r <->
  exists a d, access_control_at program_id w (key ai) a /\
    is_signer ow = true /\ ac_data_owner a = Some (key ow) /\
    is_writable ai = true /\ executable ai = false /\
    AccountData.store_in_slice (with_ac_owner a new_owner) (fst (content w (key ai))) = Ok d /\
    r = (tt, set_data w (key ai) d).
Proof. apply ism_transfer_ownership_ok. Qed.

(** *** The routing of instructions *)

Lemma ism_decode_other D b :
  length D = Discriminator_LENGTH ->
  D ∉ [TYPE_DISCRIMINATOR; VERIFY_DISCRIMINATOR; VERIFY_ACCOUNT_METAS_DISCRIMINATOR] ->
  Ism.decode (D ++ b) = Err InvalidInstructionData.
Proof.
  intros HD Hn. unfold Ism.decode. destruct (discriminator_split D b HD) as [-> ->].
  cbn [or_panic mbind outcome_bind].
  rewrite !decide_False by (intros ->; apply Hn; set_solver). done.
Qed.

Lemma multisig_decode_other D b :
  length D = Discriminator_LENGTH ->
  D ∉ [VALIDATORS_AND_THRESHOLD_DISCRIMINATOR;
       VALIDATORS_AND_THRESHOLD_ACCOUNT_METAS_DISCRIMINATOR] ->
  MultisigIsmInstruction_decode (D ++ b) = Err InvalidInstructionData.
Proof.
  intros HD Hn. unfold MultisigIsmInstruction_decode.
  destruct (discriminator_split D b HD) as [-> ->]. cbn [or_panic mbind outcome_bind].
  rewrite !decide_False by (intros ->; apply Hn; set_solver). done.
Qed.

Lemma multisig_decode_encode i :
  exists b, MultisigIsmInstruction_encode i = Ok b /\
    MultisigIsmInstruction_decode b = Ok i /\ Ism.decode b = Err InvalidInstructionData.
Proof.
  destruct i as [m|m]; (eexists; split; [done|]; split;
    [|apply ism_decode_other; [done|by apply (bool_decide_unpack _)]]);
    unfold MultisigIsmInstruction_decode.
  - destruct (discriminator_split VALIDATORS_AND_THRESHOLD_DISCRIMINATOR m eq_refl) as [-> ->].
    done.
  - destruct (discriminator_split VALIDATORS_AND_THRESHOLD_ACCOUNT_METAS_DISCRIMINATOR m eq_refl)
      as [-> ->]. done.
Qed.

Lemma program_decode_encode `{BorshSerialize Instruction, !TryFromSliceLaws Instruction}
    (ixn : Instruction) b :
  discriminator_encode ixn = Ok b ->
  discriminator_decode b = Ok ixn /\ Ism.decode b = Err InvalidInstructionData /\
  MultisigIsmInstruction_decode b = Err InvalidInstructionData.
Proof.
  intros Hb. unfold discriminator_encode in Hb. apply bind_ok in Hb as (d & Hd & Hb).
  apply (inj Ok) in Hb as <-. apply map_err_inv in Hd.
  change (DISCRIMINATOR Instruction) with PROGRAM_INSTRUCTION_DISCRIMINATOR. split_and!.
  - unfold discriminator_decode.
    destruct (discriminator_split PROGRAM_INSTRUCTION_DISCRIMINATOR d eq_refl) as [_ ->].
    cbn [or_panic mbind outcome_bind].
    rewrite decide_True by done. by rewrite (try_from_slice_serialize ixn d Hd).
  - apply ism_decode_other; [done|by apply (bool_decide_unpack _)].
  - apply multisig_decode_other; [done|by apply (bool_decide_unpack _)].
Qed.

(** Every instruction reaches its handler. The program tries three decoders in turn;
    an encoded instruction of the security-module interface, of the multisig interface or of
    the program itself is handled as that instruction, never as one of another kind. *)
Theorem ism_routing `{BorshSerialize VerifyInstruction, !TryFromSliceLaws VerifyInstruction,
    BorshSerialize Instruction, !TryFromSliceLaws Instruction} (program_id : Pubkey) accts w
    (i : InterchainSecurityModuleInstruction) (mi : MultisigIsmInstruction)
    (ixn : Instruction) bi bm b
    (Hi : Ism.encode i = Ok bi) (Hm : MultisigIsmInstruction_encode mi = Ok bm)
    (Hb : discriminator_encode ixn = Ok b) :
  process_instruction program_id accts bi w = process_ism_instruction program_id accts i w /\
  process_instruction program_id accts bm w =
    process_multisig_instruction program_id accts mi w /\
  process_instruction program_id accts b w =
    match ixn with
    | Initialize => initialize program_id accts w
    | SetValidatorsAndThreshold config =>
        set_validators_and_threshold program_id accts config w
    | GetOwner => get_owner program_id accts w
    | TransferOwnership new_owner => ism_transfer_ownership program_id accts new_owner w
    end.
Proof.
  unfold process_instruction. split_and!.
  - by rewrite (ism_decode_encode i bi Hi).
  - destruct (multisig_decode_encode mi) as (bm' & Hm' & Hd & Hn).
    rewrite Hm in Hm'. apply (inj Ok) in Hm' as <-. by rewrite Hn, Hd.
  - destruct (program_decode_encode ixn b Hb) as (Hd & -> & ->).
    prog_run (lift_Ok _ _ w Hd). by destruct ixn.
Qed.

(** *** The module as a state machine *)

(** A step of the ledger: an instruction of the module that succeeds, or anything else. The
    rest of the ledger can neither change the accounts the module owns nor put accounts of
    its own at the module's program-derived addresses in the module's name. *)
Inductive ism_step (program_id : Pubkey) : world -> world -> Prop :=
  | step_instruction accts data w w' :
      process_instruction program_id accts data w = Ok (tt, w') ->
      ism_step program_id w w'
  | step_other w w' :
      (forall k, snd (content w k) = program_id -> content w' k = content w k) ->
      (forall seeds k, create_program_address seeds program_id = Ok k ->
         snd (content w' k) = program_id -> snd (content w k) = program_id) ->
      ism_step program_id w w'.

(** What an instruction may write: nothing, the access-control account, or a valid set in
    the account of a domain. *)
Definition writes (program_id : Pubkey) (w w' : world) : Prop :=
  exists k0, (forall k, k <> k0 -> content w' k = content w k) /\
    (content w' k0 = content w k0 \/
     (exists b, create_program_address (with_bump access_control_pda_seeds b) program_id = Ok k0) \/
     exists d, AccountData.fetch_data (fst (content w' k0)) = Ok (Some d) /\
       valid_set (validators_and_threshold d)).

Lemma writes_nothing program_id w w' :
  (forall k, content w' k = content w k) -> writes program_id w w'.
Proof. intros Hw. exists program_id. split; [auto|]. by left. Qed.

Lemma return_simulated_content `{BorshSerialize (SimulationReturnData A)} (x : A) w w' k :
  return_simulated x w = Ok (tt, w') -> content w' k = content w k.
Proof. intros Hr. unfold return_simulated in Hr. prog_step Hr. by injection Hr as <-. Qed.

Lemma process_interface_writes program_id accts i w w' :
  process_ism_instruction program_id accts i w = Ok (tt, w') -> forall k, content w' k = content w k.
Proof.
  intros Hp k. destruct i as [|i|i]; cbn [process_ism_instruction] in Hp.
  - exact (return_simulated_content _ _ _ _ Hp).
  - apply verify_ok in Hp as (? & ? & ? & ? & ? & ? & ? & ? & ? & ? & Hw). by injection Hw as ->.
  - prog_step Hp. exact (return_simulated_content _ _ _ _ Hp).
Qed.

Lemma process_multisig_writes program_id accts i w w' :
  process_multisig_instruction program_id accts i w = Ok (tt, w') ->
  forall k, content w' k = content w k.
Proof.
  intros Hp k. destruct i as [m|m]; cbn [process_multisig_instruction] in Hp; prog_step Hp.
  - unfold get_validators_and_threshold in Hp. apply st_bind_ok in Hp as (s & w1 & Hs & Hp).
    apply get_set_inv in Hs as (? & ? & ? & _ & _ & [= -> ->]).
    exact (return_simulated_content _ _ _ _ Hp).
  - prog_step Hp. exact (return_simulated_content _ _ _ _ Hp).
Qed.

Lemma transfer_writes program_id accts o w w' :
  ism_transfer_ownership program_id accts o w = Ok (tt, w') -> writes program_id w w'.
Proof.
  intros Ht. destruct accts as [|ow [|ai rest]]; [done|done|].
  apply ism_transfer_ownership_ok in Ht as (a & d & (_ & _ & Hk & _) & _ & _ & _ & _ & _ & [= ->]).
  exists (key ai). split; [|right; left; eauto].
  intros k Hne. by rewrite content_set_data, decide_False.
Qed.

Lemma process_writes program_id accts data w w' :
  process_instruction program_id accts data w = Ok (tt, w') -> writes program_id w w'.
Proof.
  intros Hp. unfold process_instruction in Hp.
  destruct (Ism.decode data) as [i|e|]; [|clear e|done].
  { by eapply writes_nothing, process_interface_writes. }
  destruct (MultisigIsmInstruction_decode data) as [i|e|]; [|clear e|done].
  { by eapply writes_nothing, process_multisig_writes. }
  prog_step Hp. destruct x as [|config| |o].
  - apply ism_initialize_ok in Hp as (ow & ai & sys & rest & bump & w2 & b & tail & _ & [= <-] & _ &
      Hf & _ & _ & _ & _ & Hc).
    exists (key ai). split; [intros k Hne; by rewrite Hc, decide_False|].
    right. left. exists bump. by apply find_create.
  - apply set_validators_effect in Hp as (ow & ai & di & rest & a & bump & _ & Hv & _ & _ & _ &
      (_ & Hf & _ & _) & _ & Hc).
    exists (key di). split; [done|]. right. right. eexists. split; [exact Hf|].
    by apply validate_ok.
  - apply writes_nothing. intros k. unfold get_owner in Hp. prog_step Hp.
    apply st_bind_ok in Hp as (a & w1 & Ha & Hp).
    apply access_control_data_ok in Ha as (? & _ & [= -> ->]).
    exact (return_simulated_content _ _ _ _ Hp).
  - by eapply transfer_writes.
Qed.

(** Every account of the module at an address of a domain holds a valid set (an address
    that is also one of the access-control account would be a collision of addresses). *)
Definition sets_valid (program_id : Pubkey) (w : world) : Prop :=
  forall d b k a,
    create_program_address (with_bump (domain_data_pda_seeds d) b) program_id = Ok k ->
    (forall b', create_program_address (with_bump access_control_pda_seeds b') program_id <> Ok k) ->
    snd (content w k) = program_id ->
    AccountData.fetch_data (fst (content w k)) = Ok (Some a) ->
    valid_set (validators_and_threshold a).

Lemma step_sets_valid program_id w w' :
  ism_step program_id w w' -> sets_valid program_id w -> sets_valid program_id w'.
Proof.
  intros Hstep Hw d b k a Hk Hac Ho Hf. destruct Hstep as [accts data w w' Hp|w w' Hkeep Hpda].
  - apply process_writes in Hp as (k0 & Hother & Hk0).
    destruct (decide (k = k0)) as [->|Hne].
    + destruct Hk0 as [E|[[b' Hb']|(d' & Hf' & Hv)]].
      * rewrite E in Ho, Hf. by eapply Hw.
      * by destruct (Hac b').
      * rewrite Hf in Hf'. by injection Hf' as ->.
    + rewrite Hother in Ho, Hf by done. by eapply Hw.
  - pose proof (Hpda _ _ Hk Ho) as Ho'. rewrite (Hkeep _ Ho') in Hf. by eapply Hw.
Qed.

Lemma reachable_sets_valid program_id w0 w :
  (forall k, snd (content w0 k) <> program_id) -> rtc (ism_step program_id) w0 w ->
  sets_valid program_id w.
Proof.
  intros Hfresh Hr. assert (Hw0 : sets_valid program_id w0).
  { intros d b k a _ _ Ho. by destruct (Hfresh k). }
  clear Hfresh. induction Hr as [|w0 w1 w Hs Hr IH]; [done|].
  by eapply IH, step_sets_valid.
Qed.

Lemma domain_at_valid program_id w0 w d k a :
  (forall k, snd (content w0 k) <> program_id) -> rtc (ism_step program_id) w0 w ->
  domain_at program_id w d k a ->
  (forall b, create_program_address (with_bump access_control_pda_seeds b) program_id <> Ok k) ->
  valid_set (validators_and_threshold a).
Proof.
  intros Hfresh Hr (_ & Hf & Hk & Ho) Hac.
  exact (reachable_sets_valid _ _ _ Hfresh Hr d _ k a Hk Hac Ho Hf).
Qed.

(** C27. The module never holds a bad validator set. From any world in which the program
    owns no account, whatever instructions the module processes, in whatever order and
    interleaved with whatever else happens on the ledger, every domain account it answers
    from holds a set with a threshold of at least one, at most the number of validators, and
    no duplicates (for a domain address that is not also an access-control address). *)
Theorem ism_sets_stay_valid (program_id : Pubkey) w0 w d k a
    (Hfresh : forall k, snd (content w0 k) <> program_id)
    (Hr : rtc (ism_step program_id) w0 w)
    (Hd : domain_at program_id w d k a)
    (Hac : forall b, create_program_address (with_bump access_control_pda_seeds b) program_id
                     <> Ok k) :
  validate (validators_and_threshold a) = Ok tt.
Proof.
  apply validate_ok. exact (domain_at_valid _ _ _ _ _ _ Hfresh Hr Hd Hac).
Qed.

(** C3. A message is accepted only with a real quorum on that very message. In every
    reachable world, when [verify] accepts a message there is a non-empty list of distinct
    validators of its origin domain, as many as the configured threshold, each of whom
    signed the digest of a checkpoint with this message's origin, nonce and id; and any
    other checkpoint with that digest gives a collision between the inputs hashed for
    the two. *)
Theorem ism_accepts_only_quorum (program_id : Pubkey) w0 w i rest metadata_bytes message_bytes r
    (Hfresh : forall k, snd (content w0 k) <> program_id)
    (Hr : rtc (ism_step program_id) w0 w)
    (Hac : forall b, create_program_address (with_bump access_control_pda_seeds b) program_id
                     <> Ok (key i))
    (Hv : verify program_id (i :: rest) metadata_bytes message_bytes w = Ok r) :
  exists md m s signers,
    HyperlaneMessage_from message_bytes = Some m /\
    get_set program_id (i :: rest) (origin m) w = Ok (s, w) /\
    length signers = Z.to_nat (uval (threshold s)) /\ signers <> [] /\ NoDup signers /\
    (forall v, v ∈ signers -> v ∈ validators s /\
       exists sig, sig ∈ validator_signatures md /\
         secp256k1_recover_ethereum_address sig
           (to_be (eth_signed_message_hash (signed_checkpoint m md))) = Some v) /\
    forall c, eth_signed_message_hash c = eth_signed_message_hash (signed_checkpoint m md) ->
      c = signed_checkpoint m md \/
      collision (checkpoint_inputs c) (checkpoint_inputs (signed_checkpoint m md)).
Proof.
  apply verify_ok in Hv as (md & m & i' & rest' & a & _ & Hm & [= <- <-] & Hd & Hv & _).
  apply multisig_verify_ok in Hv as (signers & [Hl Hs] & Hsub).
  cbn [quorum_check ism_threshold ism_validators ism_signatures signed_data] in *.
  destruct (domain_at_valid _ _ _ _ _ _ Hfresh Hr Hd Hac) as (Hpos & _ & Hnd).
  exists md, m, (validators_and_threshold a), signers. split_and!; try done.
  - apply get_set_ok. by exists a.
  - intros ->. cbn in Hl. lia.
  - by eapply sublist_NoDup.
  - intros v Hin. split; [by eapply elem_of_sublist|].
    apply list_elem_of_lookup in Hin as [j Hj]. apply Hs in Hj as (sig & Hsig & Hrec).
    exists sig. split; [|exact Hrec]. by eapply list_elem_of_lookup_2.
  - intros c Hc. apply digest_binding. exact Hc.
Qed.
End program.

(** ** The theorems at concrete inputs *)

Module IsmScenario.
Import BorshModel RuntimeModel IsmModel.
#[local] Existing Instance keccak_concrete.

(** A module owned by account 2000, with two validators for domain 9 and threshold 1. *)
Definition pid : Pubkey := uwrap 32 1000.
Definition owner : AccountInfo := MkAccountInfo (uwrap 32 2000) true true false.
Definition system_info : AccountInfo := MkAccountInfo system_program_id false false true.
Definition pda (seeds : list bytes) : AccountInfo :=
  MkAccountInfo (fst (find_program_address seeds pid)) false true false.
Definition access_info : AccountInfo := pda access_control_pda_seeds.
Definition domain_info : AccountInfo := pda (domain_data_pda_seeds (uwrap 4 9)).
Definition empty_world : world := MkWorld ∅ ∅ None pid.

Definition signature1 : EcdsaSignature := MkEcdsaSignature (uwrap 64 11) (byte 1).
Definition validator_of (s : EcdsaSignature) : H160 :=
  default (uwrap 20 0) (secp256k1_recover_ethereum_address s []).
Definition config : Domained ValidatorsAndThreshold :=
  MkDomained (uwrap 4 9)
    (MkValidatorsAndThreshold [uwrap 20 5; validator_of signature1] (byte 1)).

Definition init_data : bytes :=
  match discriminator_encode Initialize with Ok b => b | _ => [] end.
Definition set_data_ : bytes :=
  match discriminator_encode (SetValidatorsAndThreshold config) with Ok b => b | _ => [] end.
Lemma set_encodes : discriminator_encode (SetValidatorsAndThreshold config) = Ok set_data_.
Proof.
  assert (Hok : is_ok (discriminator_encode (SetValidatorsAndThreshold config)) = true)
    by (vm_compute; reflexivity).
  unfold set_data_. by destruct (discriminator_encode _).
Qed.
Definition set_accounts : list AccountInfo := [owner; access_info; domain_info; system_info].

Definition world1 : world :=
  after (process_instruction pid [owner; access_info; system_info] init_data empty_world).
Definition world2 : world := after (process_instruction pid set_accounts set_data_ world1).

Definition message : HyperlaneMessage :=
  MkHyperlaneMessage (byte 3) (uwrap 4 0) (uwrap 4 9) (uwrap 32 77) (uwrap 4 7) (uwrap 32 4000)
    (blit [1; 2; 3]).
Definition metadata : MultisigIsmMessageIdMetadata :=
  MkMetadata (uwrap 32 1) (uwrap 32 2) (uwrap 4 0) [signature1].

Lemma init_runs :
  process_instruction pid [owner; access_info; system_info] init_data empty_world = Ok (tt, world1).
Proof. apply after_ok. vm_compute. reflexivity. Qed.

Lemma set_runs : process_instruction pid set_accounts set_data_ world1 = Ok (tt, world2).
Proof. apply after_ok. vm_compute. reflexivity. Qed.

Lemma set_handler_runs :
  set_validators_and_threshold pid set_accounts config world1 =
  Ok (tt, after (set_validators_and_threshold pid set_accounts config world1)).
Proof.
  apply (after_ok (set_validators_and_threshold pid set_accounts config)). vm_compute. reflexivity.
Qed.

Lemma verify_runs :
  verify pid [domain_info] (to_vec metadata) (to_vec message) world2 =
  Ok (tt, after (verify pid [domain_info] (to_vec metadata) (to_vec message) world2)).
Proof.
  apply (after_ok (verify pid [domain_info] (to_vec metadata) (to_vec message))).
  vm_compute. reflexivity.
Qed.

Lemma reachable : rtc (ism_step pid) empty_world world2.
Proof.
  eapply rtc_l; [exact (step_instruction _ _ _ _ _ init_runs)|].
  apply rtc_once. exact (step_instruction _ _ _ _ _ set_runs).
Qed.

Lemma fresh_world k : snd (content empty_world k) <> pid.
Proof. intros E. apply (f_equal uval) in E. vm_compute in E. discriminate. Qed.

Lemma not_access_control b :
  create_program_address (with_bump access_control_pda_seeds b) pid <> Ok (key domain_info).
Proof.
  assert (Hall : forallb (λ z, negb (uval (address (with_bump access_control_pda_seeds
    (byte (Z.of_nat z))) pid) =? uval (key domain_info))) (seq 0 256) = true)
    by (vm_compute; reflexivity).
  rewrite forallb_forall in Hall. urange b. intros E.
  change (create_program_address ?s ?p) with (Ok (E := ProgramError) (address s p)) in E.
  apply (inj Ok) in E. specialize (Hall (Z.to_nat (uval b))). rewrite Z2Nat.id in Hall by lia. unfold byte in Hall.
  rewrite uwrap_uval in Hall. rewrite E, Z.eqb_refl in Hall. apply diff_false_true, Hall.
  apply in_seq. lia.
Qed.
End IsmScenario.

Section witnesses.
Import BorshModel RuntimeModel IsmModel IsmScenario.
#[local] Existing Instance keccak_concrete.

Lemma metadata_roundtrip_witness :
  validator_signatures metadata <> [] /\ Metadata_try_from (to_vec metadata) = Ok metadata.
Proof.
  assert (Hne : validator_signatures metadata <> []) by discriminate.
  split; [exact Hne|].
  assert (Hwf : Forall (λ s, uval (recovery_id s) <= 1) (validator_signatures metadata)).
  { constructor; [vm_compute; discriminate|constructor]. }
  exact (proj1 (metadata_roundtrip metadata [] Hne Hwf)).
Defined.

Lemma set_validators_effect_witness :
  exists w', set_validators_and_threshold pid set_accounts config world1 = Ok (tt, w') /\
    exists di, get_set pid [di] (domain config) w' = Ok (domain_value config, w').
Proof.
  eexists. split; [exact set_handler_runs|].
  destruct (set_validators_effect pid set_accounts config world1 _ set_handler_runs)
    as (? & ? & di & ? & ? & ? & _ & _ & _ & _ & _ & _ & Hg & _).
  exists di. apply Hg. reflexivity.
Defined.

Lemma ism_routing_witness :
  process_instruction pid set_accounts set_data_ world1 =
    set_validators_and_threshold pid set_accounts config world1.
Proof.
  exact (proj2 (proj2 (ism_routing pid set_accounts world1 Type_ (ValidatorsAndThresholdIxn [])
    (SetValidatorsAndThreshold config) _ _ set_data_ eq_refl eq_refl set_encodes))).
Defined.

Lemma ism_sets_stay_valid_witness :
  exists d, domain_at pid world2 (uwrap 4 9) (key domain_info) d /\
    validate (validators_and_threshold d) = Ok tt.
Proof.
  pose proof verify_runs as Hv. apply verify_ok in Hv
    as (md & m & i & rest & a & _ & Hm & [= <- <-] & Hd & _).
  rewrite HyperlaneMessage_from_to_vec in Hm. injection Hm as <-.
  exists a. split; [exact Hd|].
  exact (ism_sets_stay_valid pid empty_world world2 _ _ a fresh_world reachable Hd
    not_access_control).
Defined.

Lemma ism_accepts_only_quorum_witness :
  exists m s signers, HyperlaneMessage_from (to_vec message) = Some m /\
    get_set pid [domain_info] (origin m) world2 = Ok (s, world2) /\
    signers <> [] /\ NoDup signers /\ (forall v, v ∈ signers -> v ∈ validators s).
Proof.
  destruct (ism_accepts_only_quorum pid empty_world world2 domain_info [] (to_vec metadata)
    (to_vec message) _ fresh_world reachable not_access_control verify_runs)
    as (md & m & s & signers & Hm & Hg & _ & Hne & Hnd & Hin & _).
  exists m, s, signers. split_and!; try assumption. intros v Hv. exact (proj1 (Hin v Hv)).
Defined.
End witnesses.
