(* ===== verification/MailboxCorrect.v ===== *)
(** * Correctness of the mailbox program *)

From S2P Require Import Prelude.
From S2P Require Import Codec.
From S2P Require Import Keccak.
From S2P Require Import Accumulator.
From S2P Require Import Message.
From S2P Require Import MerkleSpec.
From S2P Require Import MerkleCorrect.
From S2P Require Import IncrementalCorrect.
From S2P Require Import Sealevel.
From S2P Require Import AccountUtils.
From S2P Require Import Interfaces.
From S2P Require Import Mailbox.
From stdpp Require Import base gmap list numbers strings sets.
From Stdlib Require Import ZArith Lia.

#[local] Open Scope Z_scope.

Section process.
Context `{SolanaLaws, Keccak256, OverflowChecks}.
Context `{BorshSerialize bool, BorshDeserialize bool, !BorshBool}.
Context `{BorshSerialize Inbox, BorshDeserialize Inbox, !BorshLaws Inbox}.
Context `{BorshSerialize Outbox, BorshDeserialize Outbox, !BorshLaws Outbox}.
Context `{BorshSerialize ProcessedMessage}.
Context `{BorshSerialize VerifyInstruction, BorshSerialize HandleInstruction}.
Context `{TryFromSlice (option Pubkey)}.

(** What a successful verification has established. *)
Record verified (program_id : Pubkey) (p : InboxProcess) (w : world)
    (v : verified_process) (w' : world) : Prop := {
  vd_message : eval_st (read_from (A := HyperlaneMessage)) (process_message p) =
               Ok (vp_message v);
  vd_version : version (vp_message v) = VERSION;
  vd_inbox_free : key (vp_inbox_info v) ∉ borrowed w;
  vd_inbox : AccountData.fetch (fst (content w (key (vp_inbox_info v)))) = Ok (vp_inbox v);
  vd_inbox_owner : snd (content w (key (vp_inbox_info v))) = program_id;
  vd_inbox_key : create_program_address
    (with_bump mailbox_inbox_pda_seeds (inbox_bump_seed (vp_inbox v))) program_id =
    Ok (key (vp_inbox_info v));
  vd_destination : inbox_local_domain (vp_inbox v) = destination (vp_message v);
  vd_processed_key :
    find_program_address (mailbox_processed_message_pda_seeds (id (vp_message v))) program_id =
    (key (vp_processed_message_account_info v), vp_processed_message_bump v);
  vd_processed_new :
    content w (key (vp_processed_message_account_info v)) = ([], system_program_id);
  (** the security module the recipient names, or the default, has accepted the message *)
  vd_ism : exists w0 w1 ism get_infos verify_infos data,
    w0 = set_borrowed w ({[key (vp_inbox_info v)]} ∪ borrowed w) /\
    get_recipient_ism (recipient (vp_message v)) get_infos (meta_of <$> get_infos)
      (default_ism (vp_inbox v)) w0 = Ok (ism, w1) /\
    Ism.encode (Verify (MkVerifyInstruction (process_metadata p) (process_message p))) =
      Ok data /\
    sol_invoke_signed (MkInstruction ism (meta_of <$> verify_infos) data) verify_infos [] w1 =
      Ok w'
}.

Lemma inbox_checks_ok program_id i inbox w r :
  inbox_checks program_id i inbox w = Ok r ->
  create_program_address (with_bump mailbox_inbox_pda_seeds (inbox_bump_seed inbox))
    program_id = Ok (key i) /\
  snd (content w (key i)) = program_id /\ r = (tt, w).
Proof.
  intros Hc. unfold inbox_checks in Hc. do 3 (prog_step Hc).
  apply require_ok in Hc as [Ho ->]. apply bool_decide_eq_true_1 in Ho. naive_solver.
Qed.

Lemma Inbox_refmut_ok program_id i w inbox s :
  Inbox_verify_account_and_fetch_inner_with_data_refmut program_id i w = Ok (inbox, s) ->
  key i ∉ borrowed w /\ AccountData.fetch (fst (content w (key i))) = Ok inbox /\
  create_program_address (with_bump mailbox_inbox_pda_seeds (inbox_bump_seed inbox))
    program_id = Ok (key i) /\
  snd (content w (key i)) = program_id /\ s = set_borrowed w ({[key i]} ∪ borrowed w).
Proof.
  intros Hf. unfold Inbox_verify_account_and_fetch_inner_with_data_refmut in Hf.
  do 2 (prog_step Hf). apply st_bind_ok in Hf as ([] & s1 & Hc & Hf).
  apply inbox_checks_ok in Hc as (Hk & Ho & [= ->]). injection Hf as <- <-. done.
Qed.

Lemma inbox_process_verify_ok program_id accts p w v w' :
  inbox_process_verify program_id accts p w = Ok (v, w') -> verified program_id p w v w'.
Proof.
  intros Hp. unfold inbox_process_verify in Hp.
  do 7 (prog_step Hp). prog_step Hp.
  apply Inbox_refmut_ok in Hm as (Hfree & Hfetch & Hkey & Howner & ->).
  do 2 (prog_step Hp).
  destruct (find_program_address (mailbox_process_authority_pda_seeds _) _) as [ak ab].
  do 2 (prog_step Hp).
  destruct (find_program_address (mailbox_processed_message_pda_seeds _) _) as [pk pb] eqn:Hpk.
  do 2 (prog_step Hp).
  apply map_err_st_ok, verify_account_uninitialized_ok in Hm as (Hb & Hnew & [= ->]).
  prog_step Hp. destruct x0 as [get_infos rest]. prog_step Hp.
  do 5 (prog_step Hp). prog_step Hp. destruct x0 as [verify_infos rest']. do 5 (prog_step Hp).
  injection Hp as <- <-.
  assert (Hmsg : eval_st read_from (process_message p) = Ok x) by (by eapply map_err_inv).
  subst. split; cbn [vp_message vp_inbox vp_inbox_info vp_processed_message_account_info
    vp_processed_message_bump]; try done.
  eexists _, _, _, _, _, _. done.
Qed.

(** The calls made while a message is processed leave alone what the mailbox owns. *)
Lemma get_recipient_ism_ok r infos metas d w ism w' :
  get_recipient_ism r infos metas d w = Ok (ism, w') ->
  exists data, sol_invoke_signed (MkInstruction r metas data) infos [] w = Ok w'.
Proof.
  intros Hg. unfold get_recipient_ism in Hg. do 2 (prog_step Hg). prog_step Hg.
  exists x.
  repeat case_match; try done; try (injection Hg as <- <-; done).
  prog_step Hg. by injection Hg as <- <-.
Qed.

Variable debug_H256 : H256 -> bytes.

Lemma inbox_process_deliver_ok program_id (v : verified_process) w r d0 :
  let ki := key (vp_inbox_info v) in
  let kp := key (vp_processed_message_account_info v) in
  inbox_process_deliver debug_H256 program_id v w = Ok r ->
  executing w = program_id -> ki <> kp ->
  ki ∈ borrowed w -> content w ki = (d0, program_id) ->
  exists w' bi bp tail slot,
    r = (tt, w') /\
    Clock_get_slot = Ok slot /\
    serialize (ProcessedMessage_new (processed_count (vp_inbox v)) (id (vp_message v)) slot) =
      Ok bp /\
    (recipient (vp_message v) <> program_id ->
     content w' kp = (byte 1 :: bp ++ tail, program_id)) /\
    serialize (MkInbox (inbox_local_domain (vp_inbox v)) (inbox_bump_seed (vp_inbox v))
      (default_ism (vp_inbox v)) (uwrap 8 (processed_count (vp_inbox v) + 1))) = Ok bi /\
    content w' ki = (byte 1 :: bi ++ drop (S (length bi)) d0, program_id) /\
    executing w' = program_id /\ borrowed w' = borrowed w ∖ {[ki]}.
Proof.
  intros ki kp Hd Hex Hne Hkb Hki. unfold inbox_process_deliver in Hd.
  do 2 (prog_step Hd). prog_step Hd.
  apply create_pda_account_content in Hm as (wa & [= -> ->] & Hfa & Hca); [|cbn; lia].
  prog_step Hd. apply store_content in Hm as (_ & _ & wb & bp & tail & [= -> ->] & Hbp & Hfb & Hcb).
  prog_step Hd. match goal with Ha : arith _ _ = Ok ?c |- _ => apply arith_ok in Ha; subst c end.
  do 6 (prog_step Hd). unfold drop_data_mut in Hd. injection Hd as <-.
  match goal with
  | Hs : borsh_err _ = Ok _, Hh : sol_invoke_signed _ _ [_] _ = Ok ?w1,
    Hn : sol_invoke_signed _ [] [] _ = Ok ?w2 |- _ =>
      rename Hs into Hslice, Hh into Hhandle, Hn into Hlog; rename w1 into wh, w2 into wl
  end.
  apply borsh_err_ok, store_in_slice_ok in Hslice as (bi & Hbi & _ & ->).
  subst ki kp. set (ki := key (vp_inbox_info v)) in *.
  set (kp := key (vp_processed_message_account_info v)) in *.
  set (wi := set_data wb ki _) in *.
  assert (Hfi : frame w wi) by (etrans; [exact Hfa|exact Hfb]).
  assert (Hki2 : content wb ki = (d0, program_id)).
  { rewrite Hcb, Hca, !decide_False by done. done. }
  assert (Hkp3 : content wi kp = (byte 1 :: bp ++ tail, executing wi)).
  { unfold wi. rewrite content_set_data, decide_False by done.
    rewrite Hcb, Hca, !decide_True by done. cbn [snd]. f_equal.
    destruct Hfi as [Hx _]. transitivity (executing w); [done|symmetry; exact Hx]. }
  assert (Hki3 : content wi ki = (byte 1 :: bi ++ drop (S (length bi)) d0, program_id)).
  { unfold wi. rewrite content_set_data, decide_True by done. rewrite Hki2. cbn.
    change (acc_data (get_account wb ki)) with (fst (content wb ki)). by rewrite Hki2. }
  assert (Hkb3 : ki ∈ borrowed wi) by (by destruct Hfi as [_ ->]).
  clearbody wi.
  destruct (invoke_guarded _ _ _ _ _ _ Hhandle Hkb3) as [Hki4 Hkb4].
  assert (Hnp : forall k, content wl k = content wh k).
  { intros k. eapply invoke_not_passed; [exact Hlog|]. cbn. apply not_elem_of_nil. }
  pose proof (invoke_frame _ _ _ _ _ Hhandle) as Hfh.
  pose proof (invoke_frame _ _ _ _ _ Hlog) as Hfl.
  assert (Hf : frame w wl) by (etrans; [exact Hfi|]; etrans; [exact Hfh|exact Hfl]).
  destruct Hf as [Hexl Hbl]. eexists _, bi, bp, tail, _. split; [done|].
  rewrite !content_set_borrowed, !Hnp, Hki4. cbn [set_borrowed executing borrowed].
  split_and!; [eassumption|done| |done|done|congruence|by rewrite Hbl].
  intros Hrec. destruct Hfi as [Hexi _], Hfh as [Hexh _].
  rewrite (invoke_keeps _ _ _ _ _ _ _ Hhandle ltac:(cbn; congruence) Hkp3). congruence.
Qed.

Definition processed_message_key (program_id : Pubkey) (m : HyperlaneMessage) : Pubkey :=
  fst (find_program_address (mailbox_processed_message_pda_seeds (id m)) program_id).

Lemma inbox_process_existing program_id accts p w r m :
  HyperlaneMessage_from (process_message p) = Some m ->
  content w (processed_message_key program_id m) <> ([], system_program_id) ->
  inbox_process debug_H256 program_id accts p w <> Ok r.
Proof.
  intros Hm Hc Hp. unfold inbox_process in Hp.
  apply st_bind_ok in Hp as (v & w1 & Hv & _).
  apply inbox_process_verify_ok in Hv as [Hmsg _ _ _ _ _ _ Hkey Hnew _].
  apply HyperlaneMessage_decoders in Hmsg. rewrite Hm in Hmsg. injection Hmsg as ->.
  apply Hc. unfold processed_message_key. by rewrite Hkey.
Qed.

(** The state a successful [inbox_process] leaves. *)
Lemma inbox_process_ok program_id accts p w r :
  executing w = program_id -> program_id <> system_program_id ->
  inbox_process debug_H256 program_id accts p w = Ok r ->
  exists v w1 w' bi bp tail slot, verified program_id p w v w1 /\ r = (tt, w') /\
    serialize (ProcessedMessage_new (processed_count (vp_inbox v)) (id (vp_message v)) slot) =
      Ok bp /\
    (recipient (vp_message v) <> program_id ->
     content w' (key (vp_processed_message_account_info v)) =
       (byte 1 :: bp ++ tail, program_id)) /\
    serialize (MkInbox (inbox_local_domain (vp_inbox v)) (inbox_bump_seed (vp_inbox v))
      (default_ism (vp_inbox v)) (uwrap 8 (processed_count (vp_inbox v) + 1))) = Ok bi /\
    content w' (key (vp_inbox_info v)) =
      (byte 1 :: bi ++ drop (S (length bi)) (fst (content w (key (vp_inbox_info v)))),
       program_id) /\
    frame w w'.
Proof.
  intros Hex Hsys Hp. unfold inbox_process in Hp.
  apply st_bind_ok in Hp as (v & w1 & Hv & Hd).
  apply inbox_process_verify_ok in Hv as Hvd. exists v, w1.
  destruct (vd_ism _ _ _ _ _ Hvd) as (w0 & w0' & ism & gi & vi & data & -> & Hg & _ & Hi).
  apply get_recipient_ism_ok in Hg as (data' & Hg).
  set (ki := key (vp_inbox_info v)) in *.
  assert (Hkb : ki ∈ borrowed (set_borrowed w ({[ki]} ∪ borrowed w))) by set_solver.
  destruct (invoke_guarded _ _ _ _ _ _ Hg Hkb) as [Hki1 Hkb1].
  destruct (invoke_guarded _ _ _ _ _ _ Hi Hkb1) as [Hki2 Hkb2].
  destruct (invoke_frame _ _ _ _ _ Hg) as [Hex1 Hb1].
  destruct (invoke_frame _ _ _ _ _ Hi) as [Hex2 Hb2].
  rewrite Hki1, content_set_borrowed in Hki2. cbn [set_borrowed executing borrowed] in *.
  pose proof (vd_inbox_owner _ _ _ _ _ Hvd) as Howner. fold ki in Howner.
  pose proof (vd_processed_new _ _ _ _ _ Hvd) as Hnew.
  eapply (inbox_process_deliver_ok _ _ _ _ (fst (content w ki))) in Hd as
    (w' & bi & bp & tail & slot & Hr & _ & Hbp & Hkp & Hbi & Hki & Hex' & Hb').
  - exists w', bi, bp, tail, slot. split_and!; try done. split; [congruence|].
    rewrite Hb', Hb2, Hb1. pose proof (vd_inbox_free _ _ _ _ _ Hvd). set_solver.
  - congruence.
  - intros Heq. rewrite <- Heq in Hnew. fold ki in Hnew. rewrite Hnew in Howner.
    cbn in Howner. congruence.
  - done.
  - fold ki. rewrite Hki2, (surjective_pairing (content w ki)). by rewrite Howner.
Qed.
End process.

(** ** Correctness of the mailbox: the outbox, its owner and initialisation *)

Section outbox.
Context `{SolanaLaws, Keccak256, OverflowChecks}.
Context `{BorshSerialize bool, BorshDeserialize bool, !BorshBool}.
Context `{BorshSerialize Inbox, BorshDeserialize Inbox, !BorshLaws Inbox}.
Context `{BorshSerialize Outbox, BorshDeserialize Outbox, !BorshLaws Outbox}.

(** The account [k] is the canonical outbox (inbox) of the program and holds [o]. *)
Definition outbox_at (program_id : Pubkey) (w : world) (k : Pubkey) (o : Outbox) : Prop :=
  k ∉ borrowed w /\ AccountData.fetch (fst (content w k)) = Ok o /\
  create_program_address (with_bump mailbox_outbox_pda_seeds (outbox_bump_seed o))
    program_id = Ok k /\ snd (content w k) = program_id.

Definition inbox_at (program_id : Pubkey) (w : world) (k : Pubkey) (i : Inbox) : Prop :=
  k ∉ borrowed w /\ AccountData.fetch (fst (content w k)) = Ok i /\
  create_program_address (with_bump mailbox_inbox_pda_seeds (inbox_bump_seed i))
    program_id = Ok k /\ snd (content w k) = program_id.

Lemma Outbox_verify_ok program_id i w r :
  Outbox_verify_account_and_fetch_inner program_id i w = Ok r <->
  exists o, outbox_at program_id w (key i) o /\ r = (o, w).
Proof.
  split.
  - intros Hf. unfold Outbox_verify_account_and_fetch_inner in Hf.
    do 6 (prog_step Hf). injection Hf as <-. exists x. split; [|done]. by subst.
  - intros (o & (Hb & Hf & Hk & Ho) & ->).
    unfold Outbox_verify_account_and_fetch_inner.
    rewrite (st_bind_eq _ _ w _ w (proj2 (data_of_ok i w _) (conj Hb eq_refl))).
    rewrite Hf. unfold mbind, ST_bind, lift, owner_of. rewrite Hk.
    unfold require, lift, require_or. rewrite bool_decide_true by done.
    fold (content w (key i)). change (acc_owner (get_account w (key i))) with (snd (content w (key i))).
    by rewrite Ho, bool_decide_true by done.
Qed.

Lemma Inbox_verify_ok program_id i w r :
  Inbox_verify_account_and_fetch_inner program_id i w = Ok r <->
  exists o, inbox_at program_id w (key i) o /\ r = (o, w).
Proof.
  split.
  - intros Hf. unfold Inbox_verify_account_and_fetch_inner in Hf.
    do 2 (prog_step Hf). apply st_bind_ok in Hf as ([] & s & Hc & Hf).
    apply inbox_checks_ok in Hc as (? & ? & [= ->]). injection Hf as <-. exists x. done.
  - intros (o & (Hb & Hf & Hk & Ho) & ->).
    unfold Inbox_verify_account_and_fetch_inner, inbox_checks.
    rewrite (st_bind_eq _ _ w _ w (proj2 (data_of_ok i w _) (conj Hb eq_refl))).
    rewrite Hf. unfold mbind, ST_bind, lift, owner_of. rewrite Hk.
    unfold require, lift, require_or. rewrite bool_decide_true by done.
    change (acc_owner (get_account w (key i))) with (snd (content w (key i))).
    by rewrite Ho, bool_decide_true by done.
Qed.

(** The owner's new outbox. *)
Definition with_owner (o : Outbox) (new_owner : option Pubkey) : Outbox :=
  MkOutbox (outbox_local_domain o) (outbox_bump_seed o) new_owner (outbox_tree o).

Definition with_default_ism (i : Inbox) (ism : Pubkey) : Inbox :=
  MkInbox (inbox_local_domain i) (inbox_bump_seed i) ism (processed_count i).

Lemma transfer_ownership_ok program_id oi ow rest new_owner w r :
  mailbox_transfer_ownership program_id (oi :: ow :: rest) new_owner w = Ok r <->
  exists o d, outbox_at program_id w (key oi) o /\
    is_signer ow = true /\ owner o = Some (key ow) /\
    is_writable oi = true /\ executable oi = false /\
    AccountData.store_in_slice (with_owner o new_owner) (fst (content w (key oi))) = Ok d /\
    r = (tt, set_data w (key oi) d).
Proof.
  unfold mailbox_transfer_ownership. prog_run (@next_cons oi (ow :: rest) w). split.
  - intros Ht. apply st_bind_ok in Ht as (o & s & Ho & Ht).
    apply Outbox_verify_ok in Ho as (o' & Ho & [= -> ->]).
    prog_step Ht. injection E as <- <-. prog_step Ht.
    match goal with Hx : transfer_ownership _ _ _ = Ok _ |- _ => rename Hx into Htr end.
    unfold transfer_ownership in Htr. apply bind_ok in Htr as ([] & He & Hs).
    apply ensure_owner_signer_ok in He as [Hsig Hown]. cbn in Hs. injection Hs as <-.
    apply store_ok in Ht as (Hw & Hx & _ & d & Hd & ->). exists o', d. done.
  - intros (o & d & Ho & Hsig & Hown & Hw & Hx & Hd & ->).
    assert (Hv : Outbox_verify_account_and_fetch_inner program_id oi w = Ok (o, w)).
    { apply Outbox_verify_ok. by exists o. }
    prog_run Hv. prog_run (@next_cons ow rest w).
    assert (Ht : transfer_ownership o ow new_owner = Ok (with_owner o new_owner)).
    { assert (He : ensure_owner_signer o ow = Ok tt) by (by apply ensure_owner_signer_ok).
      unfold transfer_ownership. by rewrite He. }
    prog_run (lift_Ok _ _ w Ht). apply store_ok. destruct Ho as (Hb & _).
    split_and!; try done. by exists d.
Qed.

Lemma set_default_ism_ok program_id ii oi ow ism w r :
  inbox_set_default_ism program_id [ii; oi; ow] ism w = Ok r <->
  exists i o d, inbox_at program_id w (key ii) i /\ outbox_at program_id w (key oi) o /\
    is_signer ow = true /\ owner o = Some (key ow) /\
    is_writable ii = true /\ executable ii = false /\
    AccountData.store_in_slice (with_default_ism i ism) (fst (content w (key ii))) = Ok d /\
    r = (tt, set_data w (key ii) d).
Proof.
  unfold inbox_set_default_ism. prog_run (@next_cons ii [oi; ow] w). split.
  - intros Ht. apply st_bind_ok in Ht as (i & s & Hi & Ht).
    apply Inbox_verify_ok in Hi as (i' & Hi & [= -> ->]).
    prog_step Ht. injection E as <- <-.
    apply st_bind_ok in Ht as (o & s & Ho & Ht).
    apply Outbox_verify_ok in Ho as (o' & Ho & [= -> ->]).
    prog_step Ht. injection E as <- <-. prog_step Ht.
    match goal with Hx : ensure_owner_signer _ _ = Ok _ |- _ => rename Hx into He end.
    apply ensure_owner_signer_ok in He as [Hsig Hown]. prog_step Ht.
    apply store_ok in Ht as (Hw & Hx & _ & d & Hd & ->). exists i', o', d. done.
  - intros (i & o & d & Hi & Ho & Hsig & Hown & Hw & Hx & Hd & ->).
    assert (Hvi : Inbox_verify_account_and_fetch_inner program_id ii w = Ok (i, w)).
    { apply Inbox_verify_ok. by exists i. }
    assert (Hvo : Outbox_verify_account_and_fetch_inner program_id oi w = Ok (o, w)).
    { apply Outbox_verify_ok. by exists o. }
    prog_run Hvi. prog_run (@next_cons oi [ow] w). prog_run Hvo.
    prog_run (@next_cons ow [] w).
    assert (He : ensure_owner_signer o ow = Ok tt) by (by apply ensure_owner_signer_ok).
    prog_run (lift_Ok _ _ w He).
    assert (Hr : require (bool_decide (@nil AccountInfo = []))
      (ProgramError_from ExtraneousAccount) w = Ok (tt, w)) by done.
    prog_run Hr.
    apply store_ok. destruct Hi as (Hb & _). split_and!; try done. by exists d.
Qed.

(** *** [outbox_dispatch] *)

(** The message a dispatch makes of the state of the outbox. *)
Definition dispatched (o : Outbox) (dispatch : OutboxDispatch) : HyperlaneMessage :=
  MkHyperlaneMessage VERSION (uwrap 4 (count (outbox_tree o))) (outbox_local_domain o)
    (dispatch_sender dispatch) (destination_domain dispatch) (dispatch_recipient dispatch)
    (message_body dispatch).

Definition with_tree (o : Outbox) (t : IncrementalMerkle) : Outbox :=
  MkOutbox (outbox_local_domain o) (outbox_bump_seed o) (owner o) t.

(** The signer may speak for the sender: it is the sender, or the dispatch authority PDA of
    the sender program. *)
Definition may_dispatch (signer sender : Pubkey) : Prop :=
  signer = sender \/
  fst (find_program_address mailbox_message_dispatch_authority_pda_seeds sender) = signer.

Lemma try_into_u32_ok n w r :
  try_into_u32 n w = Ok r <-> uval n <= u32_MAX /\ r = (uwrap 4 n, w).
Proof.
  unfold try_into_u32. destruct (Z.leb_spec (uval n) u32_MAX); split.
  - intros [= <-]. done.
  - intros [_ ->]. done.
  - done.
  - lia.
Qed.

Lemma length_dispatched_message nonce slot k e b :
  serialize (DispatchedMessage_new nonce slot k e) = Ok b ->
  S (length b) = AccountData.size (DispatchedMessage_new nonce slot k e).
Proof.
  intros Hb. apply (inj Ok) in Hb as <-. unfold AccountData.size, sized, DispatchedMessage_size.
  cbn [DispatchedMessage_new dm_nonce dm_slot dm_unique_message_pubkey dm_encoded_message].
  rewrite !length_app, !length_to_le, length_to_be.
  change (length DISPATCHED_MESSAGE_DISCRIMINATOR) with 8%nat. lia.
Qed.

Lemma dispatched_size o dispatch slot k :
  (length (message_body dispatch) <= MAX_MESSAGE_BODY_BYTES)%nat ->
  Z.of_nat (AccountData.size (DispatchedMessage_new (uwrap 4 (count (outbox_tree o))) slot k
    (to_vec (dispatched o dispatch)))) < 2 ^ 64.
Proof.
  intros Hb. unfold AccountData.size, sized, DispatchedMessage_size.
  cbn [DispatchedMessage_new dm_encoded_message]. rewrite HyperlaneMessage_length.
  change (body (dispatched o dispatch)) with (message_body dispatch).
  change MAX_MESSAGE_BODY_BYTES with 2048%nat in Hb.
  unfold HYPERLANE_MESSAGE_PREFIX_LEN. lia.
Qed.

Lemma outbox_dispatch_ok program_id accts dispatch w r :
  executing w = program_id -> program_id <> system_program_id ->
  outbox_dispatch program_id accts dispatch w = Ok r ->
  exists oi si sys noop payer um di o tree slot bd bo tail w',
    let m := dispatched o dispatch in
    accts = [oi; si; sys; noop; payer; um; di] /\ r = (tt, w') /\
    outbox_at program_id w (key oi) o /\
    is_signer si = true /\ may_dispatch (key si) (dispatch_sender dispatch) /\
    is_signer payer = true /\ is_signer um = true /\
    fst (find_program_address (mailbox_dispatched_message_pda_seeds (key um)) program_id) =
      key di /\
    content w (key di) = ([], system_program_id) /\
    (length (message_body dispatch) <= MAX_MESSAGE_BODY_BYTES)%nat /\
    uval (count (outbox_tree o)) <= u32_MAX /\
    Incremental.ingest (outbox_tree o) (id m) = Some tree /\
    serialize (DispatchedMessage_new (nonce m) slot (key um) (to_vec m)) = Ok bd /\
    content w' (key di) = (byte 1 :: bd, program_id) /\
    serialize (with_tree o tree) = Ok bo /\
    content w' (key oi) = (byte 1 :: bo ++ tail, program_id) /\
    return_data w' = Some (program_id, to_be (id m)) /\ Clock_get_slot = Ok slot /\
    (forall k, k <> key di -> k <> key oi -> content w' k = content w k) /\ frame w w'.
Proof.
  intros Hex Hsys Hd. unfold outbox_dispatch in Hd.
  prog_step Hd. apply st_bind_ok in Hd as (o & s & Ho & Hd).
  apply Outbox_verify_ok in Ho as (o' & Ho & [= -> ->]).
  do 2 (prog_step Hd). apply st_bind_ok in Hd as ([] & s & Hauth & Hd).
  assert (Ha : s = w /\ may_dispatch (key i0) (dispatch_sender dispatch)).
  { unfold may_dispatch. case_decide; [injection Hauth as <-; by split; [|left]|].
    destruct (find_program_address _ _) as [ek eb]. apply require_ok in Hauth as [Hb [= ->]].
    apply bool_decide_eq_true_1 in Hb. split; [done|by right]. }
  destruct Ha as [-> Hmay]. clear Hauth.
  do 10 (prog_step Hd).
  destruct (find_program_address (mailbox_dispatched_message_pda_seeds _) _) as [dk db] eqn:Hdk.
  prog_step Hd. apply st_bind_ok in Hd as ([] & s & Hun & Hd).
  apply verify_account_uninitialized_ok in Hun as (_ & Hnew & [= ->]).
  do 2 (prog_step Hd). apply st_bind_ok in Hd as (nonce & s & Hn & Hd).
  apply try_into_u32_ok in Hn as [Hcount [= -> ->]].
  fold (dispatched o' dispatch) in Hd. cbv zeta in Hd.
  change (snd (write_to (dispatched o' dispatch) [])) with (to_vec (dispatched o' dispatch)) in Hd.
  prog_step Hd.
  match goal with Hx : or_panic _ = Ok _ |- _ => apply or_panic_ok in Hx; rename Hx into Htree end.
  do 2 (prog_step Hd). apply st_bind_ok in Hd as ([] & s & Hpda & Hd).
  match goal with Hx : Is_true _ |- _ => idtac | |- _ => idtac end.
  assert (Hbody : (length (message_body dispatch) <= MAX_MESSAGE_BODY_BYTES)%nat)
    by (by apply Nat.leb_le).
  apply create_pda_account_content in Hpda as (wa & [= ->] & Hfa & Hca);
    [|by apply dispatched_size].
  apply st_bind_ok in Hd as ([] & s & Hst & Hd).
  apply store_ok in Hst as (_ & _ & _ & d & Hsl & [= ->]).
  rewrite Hca, decide_True in Hsl by done.
  apply store_in_slice_ok in Hsl as (bd & Hbd & _ & ->).
  pose proof (length_dispatched_message _ _ _ _ _ Hbd) as Hlen. cbn [fst] in Hd.
  rewrite drop_ge, app_nil_r in Hd by (rewrite length_replicate, Hlen; done).
  set (wb := set_data wa (key i5) (byte 1 :: bd)) in *.
  assert (Hfb : frame w wb) by (etrans; [exact Hfa|done]).
  assert (Hcb : forall k, content wb k =
    if decide (k = key i5) then (byte 1 :: bd, program_id) else content w k).
  { intros k. unfold wb. rewrite content_set_data, !Hca.
    rewrite (decide_True (P := key i5 = key i5)) by done. by destruct (decide (k = key i5)). }
  clearbody wb. do 2 (prog_step Hd).
  match goal with Hx : sol_invoke_signed _ [] [] _ = Ok ?wn |- _ =>
    rename Hx into Hlog; rename wn into wc end.
  assert (Hcc : forall k, content wc k = content wb k).
  { intros k. eapply invoke_not_passed; [exact Hlog|]. cbn. apply not_elem_of_nil. }
  pose proof (invoke_frame _ _ _ _ _ Hlog) as Hfc.
  apply st_bind_ok in Hd as ([] & s & Hst & Hd).
  apply store_content in Hst as (_ & _ & wd & bo & tail & [= ->] & Hbo & Hfd & Hcd).
  injection Hd as <-.
  assert (Hf : frame w wd) by (etrans; [exact Hfb|]; etrans; [exact Hfc|exact Hfd]).
  assert (Hne : key i5 <> key i).
  { intros He. destruct Ho as (_ & _ & _ & Hown). rewrite <- He, Hnew in Hown.
    cbn in Hown. congruence. }
  assert (Hcw : forall w' k, content (MkWorld (accounts wd) (borrowed wd) w' (executing wd)) k =
    content wd k) by done.
  eexists i, i0, i1, i2, i3, i4, i5, o', _, _, bd, bo, tail, _. cbv zeta. rewrite !Hcw.
  destruct Hf as [Hexd Hbd']. split_and!; try done; subst; try done.
  - by rewrite Hdk.
  - rewrite Hcd, decide_False, Hcc, Hcb, decide_True by done. done.
  - rewrite Hcd, decide_True, Hcc, Hcb, decide_False by done.
    destruct Ho as (_ & _ & _ & ->). done.
  - cbn. by rewrite Hexd.
  - intros k Hdi Hoi. by rewrite Hcw, Hcd, decide_False, Hcc, Hcb, decide_False by done.
Qed.

(** *** [initialize] *)

Lemma initialize_ok program_id accts init w r :
  program_id <> system_program_id ->
  initialize program_id accts init w = Ok r ->
  exists sys payer ii oi rest ib ob w' bi bo ti to,
    let inbox := MkInbox (init_local_domain init) ib (init_default_ism init) (uwrap 8 0) in
    let outbox := MkOutbox (init_local_domain init) ob (Some (key payer)) Incremental.default in
    accts = sys :: payer :: ii :: oi :: rest /\ r = (tt, w') /\ is_signer payer = true /\
    find_program_address mailbox_inbox_pda_seeds program_id = (key ii, ib) /\
    find_program_address mailbox_outbox_pda_seeds program_id = (key oi, ob) /\
    content w (key ii) = ([], system_program_id) /\
    content w (key oi) = ([], system_program_id) /\
    serialize inbox = Ok bi /\ serialize outbox = Ok bo /\ key ii <> key oi /\
    content w' (key ii) = (byte 1 :: bi ++ ti, program_id) /\
    content w' (key oi) = (byte 1 :: bo ++ to, program_id) /\
    inbox_at program_id w' (key ii) inbox /\ outbox_at program_id w' (key oi) outbox /\
    forall k, k <> key ii -> k <> key oi -> content w' k = content w k.
Proof.
  assert (Hzi : forall x : Inbox, Z.of_nat (AccountData.size x) < 2 ^ 64) by done.
  assert (Hzo : forall x : Outbox, Z.of_nat (AccountData.size x) < 2 ^ 64) by done.
  intros Hsys Hi. unfold initialize in Hi. do 6 (prog_step Hi).
  destruct (find_program_address mailbox_inbox_pda_seeds program_id) as [ik ib] eqn:Hik.
  prog_step Hi. apply st_bind_ok in Hi as ([] & s & Hun & Hi).
  apply verify_account_uninitialized_ok in Hun as (_ & Hni & [= ->]).
  apply st_bind_ok in Hi as ([] & w1 & Hci & Hi). apply st_bind_ok in Hi as ([] & w2 & Hsi & Hi).
  destruct (create_store_content _ _ _ _ _ _ _ _ _ _ _ _ (Hzi _) Hci Hsi)
    as (Hf2 & Hbi & bi & ti & Hsbi & Hc2).
  prog_step Hi.
  destruct (find_program_address mailbox_outbox_pda_seeds program_id) as [ok ob] eqn:Hok.
  prog_step Hi. apply st_bind_ok in Hi as ([] & s & Hun & Hi).
  apply verify_account_uninitialized_ok in Hun as (_ & Hno & [= ->]).
  apply st_bind_ok in Hi as ([] & w3 & Hco & Hi). destruct r as [[] w4].
  destruct (create_store_content _ _ _ _ _ _ _ _ _ _ _ _ (Hzo _) Hco Hi)
    as (Hf4 & Hbo & bo & to & Hsbo & Hc4).
  match goal with
  | Ha : ik = key ?a, Hb : ok = key ?b |- _ => subst ik ok; set (ii := a) in *; set (oi := b) in *
  end.
  assert (Hne : key ii <> key oi).
  { intros He. rewrite <- He, Hc2, decide_True in Hno by done. done. }
  assert (Hi4 : content w4 (key ii) = (byte 1 :: bi ++ ti, program_id)).
  { rewrite Hc4, decide_False by done. by rewrite Hc2, decide_True. }
  assert (Ho4 : content w4 (key oi) = (byte 1 :: bo ++ to, program_id)).
  { by rewrite Hc4, decide_True. }
  eexists _, _, ii, oi, _, ib, ob, w4, bi, bo, ti, to. cbv zeta.
  split_and!; try done.
  - by rewrite Hc2, decide_False in Hno.
  - repeat split.
    + destruct Hf4 as [_ ->]. done.
    + rewrite Hi4. by apply fetch_stored.
    + by apply find_create.
    + by rewrite Hi4.
  - repeat split.
    + done.
    + rewrite Ho4. by apply fetch_stored.
    + by apply find_create.
    + by rewrite Ho4.
  - intros k H1k H2k. by rewrite Hc4, decide_False, Hc2, decide_False.
Qed.
End outbox.

(** A dispatch commits to its message in the tree of the outbox. *)
Section commits.
Context `{SolanaLaws, Keccak256, !ZeroHashes, OverflowChecks}.
Context `{BorshSerialize bool, BorshDeserialize bool, !BorshBool}.
Context `{BorshSerialize Inbox, BorshDeserialize Inbox, !BorshLaws Inbox}.
Context `{BorshSerialize Outbox, BorshDeserialize Outbox, !BorshLaws Outbox}.

Lemma dispatch_committed (program_id : Pubkey) accts dispatch w w' o oi ids
    (Hex : executing w = program_id) (Hsys : program_id <> system_program_id)
    (Hoi : head accts = Some oi) (Ho : outbox_at program_id w (key oi) o)
    (Hids : incr_ok (outbox_tree o) ids)
    (Hd : outbox_dispatch program_id accts dispatch w = Ok (tt, w')) :
  exists si um di tree slot b,
    let m := MkHyperlaneMessage VERSION (uwrap 4 (Z.of_nat (length ids)))
      (outbox_local_domain o) (dispatch_sender dispatch) (destination_domain dispatch)
      (dispatch_recipient dispatch) (message_body dispatch) in
    accts !! 1%nat = Some si /\ accts !! 5%nat = Some um /\ accts !! 6%nat = Some di /\
    is_signer si = true /\ is_signer um = true /\
    may_dispatch (key si) (dispatch_sender dispatch) /\
    (length (message_body dispatch) <= MAX_MESSAGE_BODY_BYTES)%nat /\
    content w (key di) = ([], system_program_id) /\
    content w' (key di) = (byte 1 :: b, program_id) /\
    serialize (DispatchedMessage_new (nonce m) slot (key um) (to_vec m)) = Ok b /\
    outbox_at program_id w' (key oi) (with_tree o tree) /\
    incr_ok tree (ids ++ [id m]) /\
    Incremental.root tree = Some (tree_root 32 (ids ++ [id m])) /\
    return_data w' = Some (program_id, to_be (id m)).
Proof.
  destruct (outbox_dispatch_ok _ _ _ _ _ Hex Hsys Hd)
    as (oi' & si & sys & noop & payer & um & di & o' & tree & slot & bd & bo & tail & w2 &
        -> & [= <-] & Ho' & Hsig & Hmay & _ & Hum & _ & Hnew & Hbody & Hcnt & Htree & Hbd &
        Hcd & Hbo & Hco & Hret & _ & _ & Hfr).
  cbn in Hoi. injection Hoi as ->.
  assert (Hoo : o' = o) by (destruct Ho as (_ & Hf & _), Ho' as (_ & Hf' & _); congruence).
  subst o'. pose proof (ok_count _ _ Hids) as Hc.
  assert (Hmm : dispatched o dispatch = MkHyperlaneMessage VERSION
    (uwrap 4 (Z.of_nat (length ids))) (outbox_local_domain o) (dispatch_sender dispatch)
    (destination_domain dispatch) (dispatch_recipient dispatch) (message_body dispatch)).
  { unfold dispatched. by rewrite Hc. }
  rewrite <- Hmm in *.
  assert (Hsmall : (S (length ids) < 2 ^ 32)%nat).
  { destruct (decide (S (length ids) < 2 ^ 32)%nat) as [|Hge]; [done|].
    rewrite (incr_ingest_full _ ids) in Htree; [done|done|].
    pose proof (ok_small _ _ Hids). lia. }
  destruct (incr_ingest _ _ (id (dispatched o dispatch)) Hids Hsmall) as (t' & Ht' & Hok).
  rewrite Htree in Ht'. injection Ht' as <-.
  exists si, um, di, tree, slot, bd. cbv zeta. split_and!; try done.
  - destruct Hfr as [_ Hb]. destruct Ho as (Hb0 & _ & Hk & _).
    split_and!; rewrite ?Hb, ?Hco; try done. by apply fetch_stored.
  - by apply incr_root.
Qed.
End commits.
