(* ===== verification/MailboxTheorems.v ===== *)
(** * Properties of the mailbox program *)

From S2P Require Import Prelude.
From S2P Require Import Codec.
From S2P Require Import Keccak.
From S2P Require Import Accumulator.
From S2P Require Import Message.
From S2P Require Import MerkleSpec.
From S2P Require Import MerkleCorrect.
From S2P Require Import IncrementalCorrect.
From S2P Require Import Sealevel.
From S2P Require Import AccountUtils.
From S2P Require Import Interfaces.
From S2P Require Import Mailbox.
From S2P Require Import MailboxCorrect.
From S2P Require Import Concrete.
From stdpp Require Import base gmap list numbers strings sets.
From Stdlib Require Import ZArith Lia.

#[local] Open Scope Z_scope.

Section process.
Context `{SolanaLaws, Keccak256, OverflowChecks}.
Context `{BorshSerialize bool, BorshDeserialize bool, !BorshBool}.
Context `{BorshSerialize Inbox, BorshDeserialize Inbox, !BorshLaws Inbox}.
Context `{BorshSerialize Outbox, BorshDeserialize Outbox, !BorshLaws Outbox}.
Context `{BorshSerialize ProcessedMessage}.
Context `{BorshSerialize VerifyInstruction, BorshSerialize HandleInstruction}.
Context `{TryFromSlice (option Pubkey)}.
Variable debug_H256 : H256 -> bytes.

(** C1. A message is delivered at most once. When [inbox_process] succeeds for a message
    (to a recipient other than the mailbox itself), the account derived from its id did not
    exist before and belongs to the mailbox and is non-empty afterwards; and in every later
    world in which that account is still there, [inbox_process] fails for every payload
    with a message of that id, whatever the accounts, the metadata and the payer. *)
Theorem inbox_process_at_most_once (program_id : Pubkey) accts (p : InboxProcess) w w'
    (m : HyperlaneMessage)
    (Hex : executing w = program_id) (Hsys : program_id <> system_program_id)
    (Hm : HyperlaneMessage_from (process_message p) = Some m)
    (Hrec : recipient m <> program_id)
    (Hp : inbox_process debug_H256 program_id accts p w = Ok (tt, w')) :
  let k := processed_message_key program_id m in
  content w k = ([], system_program_id) /\
  (exists b, content w' k = (byte 1 :: b, program_id)) /\
  forall w2 accts2 p2 m2 r,
    content w2 k = content w' k ->
    HyperlaneMessage_from (process_message p2) = Some m2 -> id m2 = id m ->
    inbox_process debug_H256 program_id accts2 p2 w2 <> Ok r.
Proof.
  destruct (inbox_process_ok _ _ _ _ _ _ Hex Hsys Hp)
    as (v & w1 & w2 & bi & bp & tail & slot & Hv & [= <-] & _ & Hkp & _ & _ & _).
  pose proof (vd_message _ _ _ _ _ Hv) as Hmsg. apply HyperlaneMessage_decoders in Hmsg.
  rewrite Hm in Hmsg. injection Hmsg as ->.
  assert (Hk : processed_message_key program_id (vp_message v) =
               key (vp_processed_message_account_info v)).
  { unfold processed_message_key. by rewrite (vd_processed_key _ _ _ _ _ Hv). }
  intros k. unfold k in *. clear k. rewrite Hk. split_and!.
  - exact (vd_processed_new _ _ _ _ _ Hv).
  - rewrite (Hkp Hrec). by eexists.
  - intros w3 accts2 p2 m2 r Hc Hm2 Hid. apply (inbox_process_existing _ _ _ _ _ _ m2 Hm2).
    unfold processed_message_key in *. rewrite Hid, Hk, Hc, (Hkp Hrec). done.
Qed.

(** C2. No message is delivered unverified or misrouted. When [inbox_process] succeeds, the
    payload decodes to a message of version 3 whose destination is the domain of the
    canonical inbox account, and before anything was delivered the security module was
    called with exactly the submitted metadata and message and accepted: the module the
    recipient program named, or the inbox's default module when it named none. The delivery
    is what remains, and it starts in the world that call left. *)
Theorem inbox_process_verified (program_id : Pubkey) accts (p : InboxProcess) w r
    (Hp : inbox_process debug_H256 program_id accts p w = Ok r) :
  exists m inbox_key inbox w1 ism get_infos w2 verify_infos data w3 v,
    HyperlaneMessage_from (process_message p) = Some m /\ version m = VERSION /\
    inbox_at program_id w inbox_key inbox /\ inbox_local_domain inbox = destination m /\
    w1 = set_borrowed w ({[inbox_key]} ∪ borrowed w) /\
    get_recipient_ism (recipient m) get_infos (meta_of <$> get_infos) (default_ism inbox) w1 =
      Ok (ism, w2) /\
    Ism.encode (Verify (MkVerifyInstruction (process_metadata p) (process_message p))) =
      Ok data /\
    sol_invoke_signed (MkInstruction ism (meta_of <$> verify_infos) data) verify_infos [] w2 =
      Ok w3 /\
    vp_message v = m /\ inbox_process_deliver debug_H256 program_id v w3 = Ok r.
Proof.
  unfold inbox_process in Hp. apply st_bind_ok in Hp as (v & w1 & Hv & Hd).
  apply inbox_process_verify_ok in Hv as [Hmsg Hver Hfree Hin Hown Hkey Hdest _ _ Hism].
  destruct Hism as (w0 & w2 & ism & gi & vi & data & Hw0 & Hg & He & Hi).
  apply HyperlaneMessage_decoders in Hmsg.
  exists (vp_message v), (key (vp_inbox_info v)), (vp_inbox v), w0, ism, gi, w2, vi, data, w1, v.
  split_and!; try done.
Qed.

(** The inbox counts deliveries. A successful [inbox_process] leaves in the canonical
    inbox account the same inbox with its processed count incremented (modulo [2^64]) and
    the count it had is the sequence number in the new processed-message account; it
    releases its hold on the inbox and keeps the other borrows. The calls it makes cannot
    touch the inbox in between. *)
Theorem inbox_process_counts (program_id : Pubkey) accts (p : InboxProcess) w w'
    (Hex : executing w = program_id) (Hsys : program_id <> system_program_id)
    (Hp : inbox_process debug_H256 program_id accts p w = Ok (tt, w')) :
  exists inbox_key inbox m slot b,
    HyperlaneMessage_from (process_message p) = Some m /\
    inbox_at program_id w inbox_key inbox /\
    inbox_at program_id w' inbox_key
      (MkInbox (inbox_local_domain inbox) (inbox_bump_seed inbox) (default_ism inbox)
         (uwrap 8 (processed_count inbox + 1))) /\
    serialize (ProcessedMessage_new (processed_count inbox) (id m) slot) = Ok b /\
    (recipient m <> program_id -> exists tail,
      content w' (processed_message_key program_id m) = (byte 1 :: b ++ tail, program_id)) /\
    borrowed w' = borrowed w.
Proof.
  destruct (inbox_process_ok _ _ _ _ _ _ Hex Hsys Hp)
    as (v & w1 & w2 & bi & bp & tail & slot & Hv & [= <-] & Hbp & Hkp & Hbi & Hki & Hfr).
  destruct Hfr as [_ Hb]. destruct Hv as [Hmsg _ Hfree Hin Hown Hkey _ Hpk _ _].
  apply HyperlaneMessage_decoders in Hmsg.
  exists (key (vp_inbox_info v)), (vp_inbox v), (vp_message v), slot, bp.
  split_and!; try done.
  - split_and!; try done; rewrite ?Hb, ?Hki; try done. by apply fetch_stored.
  - intros Hrec. exists tail. unfold processed_message_key. rewrite Hpk. by apply Hkp.
Qed.
End process.

Section outbox.
Context `{SolanaLaws, Keccak256, !ZeroHashes, OverflowChecks}.
Context `{BorshSerialize bool, BorshDeserialize bool, !BorshBool}.
Context `{BorshSerialize Inbox, BorshDeserialize Inbox, !BorshLaws Inbox}.
Context `{BorshSerialize Outbox, BorshDeserialize Outbox, !BorshLaws Outbox}.

(** C6. The outbox commits to every dispatched message. When the tree of the outbox holds
    the message ids [ids], a successful dispatch makes the message with nonce
    [length ids], the outbox's domain as origin and the declared sender, for whom the
    signer was allowed to speak; it stores the encoded message in the fresh account derived
    from the unique-message key, appends the message id to the tree (so the new root is the
    root over [ids ++ [id]]), changes nothing else in the outbox, and returns the id. *)
Theorem outbox_dispatch_commits (program_id : Pubkey) accts dispatch w w' o oi ids
    (Hex : executing w = program_id) (Hsys : program_id <> system_program_id)
    (Hoi : head accts = Some oi) (Ho : outbox_at program_id w (key oi) o)
    (Hids : incr_ok (outbox_tree o) ids)
    (Hd : outbox_dispatch program_id accts dispatch w = Ok (tt, w')) :
  exists si um di tree slot b,
    let m := MkHyperlaneMessage VERSION (uwrap 4 (Z.of_nat (length ids)))
      (outbox_local_domain o) (dispatch_sender dispatch) (destination_domain dispatch)
      (dispatch_recipient dispatch) (message_body dispatch) in
    accts !! 1%nat = Some si /\ accts !! 5%nat = Some um /\ accts !! 6%nat = Some di /\
    is_signer si = true /\ is_signer um = true /\
    may_dispatch (key si) (dispatch_sender dispatch) /\
    (length (message_body dispatch) <= MAX_MESSAGE_BODY_BYTES)%nat /\
    content w (key di) = ([], system_program_id) /\
    content w' (key di) = (byte 1 :: b, program_id) /\
    serialize (DispatchedMessage_new (nonce m) slot (key um) (to_vec m)) = Ok b /\
    outbox_at program_id w' (key oi) (with_tree o tree) /\
    incr_ok tree (ids ++ [id m]) /\
    Incremental.root tree = Some (tree_root 32 (ids ++ [id m])) /\
    return_data w' = Some (program_id, to_be (id m)).
Proof. exact (dispatch_committed _ _ _ _ _ _ _ _ Hex Hsys Hoi Ho Hids Hd). Qed.

(** Initialisation happens once, by its payer. A successful [initialize] finds both
    program-derived accounts absent and leaves the canonical inbox and outbox: the given
    domain and default module, no processed message, the payer as owner, an empty tree
    (whose root is the root of the empty tree); and with those accounts in place,
    [initialize] fails ever after. *)
Theorem initialize_once (program_id : Pubkey) accts init w w'
    (Hsys : program_id <> system_program_id)
    (Hi : initialize program_id accts init w = Ok (tt, w')) :
  exists payer ki ko ib ob,
    let inbox := MkInbox (init_local_domain init) ib (init_default_ism init) (uwrap 8 0) in
    let outbox := MkOutbox (init_local_domain init) ob (Some (key payer)) Incremental.default in
    accts !! 1%nat = Some payer /\ is_signer payer = true /\ ki <> ko /\
    find_program_address mailbox_inbox_pda_seeds program_id = (ki, ib) /\
    find_program_address mailbox_outbox_pda_seeds program_id = (ko, ob) /\
    content w ki = ([], system_program_id) /\ content w ko = ([], system_program_id) /\
    inbox_at program_id w' ki inbox /\ outbox_at program_id w' ko outbox /\
    incr_ok (outbox_tree outbox) [] /\
    forall w2 accts2 init2 r, content w2 ki = content w' ki ->
      initialize program_id accts2 init2 w2 <> Ok r.
Proof.
  destruct (initialize_ok _ _ _ _ _ Hsys Hi)
    as (sys & payer & ii & oi & rest & ib & ob & w1 & bi & bo & ti & to & -> & [= <-] & Hsig &
        Hfi & Hfo & Hni & Hno & Hsi & Hso & Hne & Hci & Hco & Hai & Hao & _).
  exists payer, (key ii), (key oi), ib, ob. cbv zeta. split_and!; try done.
  - apply incr_ok_default.
  - intros w2 accts2 init2 r Hc Hi2.
    destruct (initialize_ok _ _ _ _ _ Hsys Hi2)
      as (? & ? & ii2 & ? & ? & ? & ? & ? & ? & ? & ? & ? & _ & _ & _ & Hfi2 & _ & Hni2 & _).
    rewrite Hfi in Hfi2. injection Hfi2 as Hk _. rewrite <- Hk, Hc, Hci in Hni2. done.
Qed.

(** Only the owner hands the mailbox over. [transfer_ownership] succeeds exactly when
    the first account is the canonical, writable outbox and the second one has signed and
    is its present owner; its only effect is the new owner in the outbox. *)
Theorem transfer_ownership_spec (program_id : Pubkey) oi ow rest new_owner w r :
  mailbox_transfer_ownership program_id (oi :: ow :: rest) new_owner w = Ok r <->
  exists o d, outbox_at program_id w (key oi) o /\
    is_signer ow = true /\ owner o = Some (key ow) /\
    is_writable oi = true /\ executable oi = false /\
    AccountData.store_in_slice (with_owner o new_owner) (fst (content w (key oi))) = Ok d /\
    r = (tt, set_data w (key oi) d).
Proof. apply transfer_ownership_ok. Qed.

(** Only the owner changes the default security module. [inbox_set_default_ism]
    succeeds exactly with the canonical writable inbox, the canonical outbox and the
    signature of the outbox's owner (and no further account); its only effect is the new
    module in the inbox. *)
Theorem set_default_ism_spec (program_id : Pubkey) ii oi ow ism w r :
  inbox_set_default_ism program_id [ii; oi; ow] ism w = Ok r <->
  exists i o d, inbox_at program_id w (key ii) i /\ outbox_at program_id w (key oi) o /\
    is_signer ow = true /\ owner o = Some (key ow) /\
    is_writable ii = true /\ executable ii = false /\
    AccountData.store_in_slice (with_default_ism i ism) (fst (content w (key ii))) = Ok d /\
    r = (tt, set_data w (key ii) d).
Proof. apply set_default_ism_ok. Qed.

(** Renouncing is final. Once the owner has transferred the ownership to nobody, no
    account can transfer it again or change the default module, in any world in which the
    outbox still holds that data. *)
Theorem renounced_ownership_is_final (program_id : Pubkey) oi ow rest w w'
    (Hb : key oi ∉ borrowed w)
    (Ht : mailbox_transfer_ownership program_id (oi :: ow :: rest) None w = Ok (tt, w')) :
  forall w2 oi2 ow2 rest2 ii2 new_owner ism r,
    key oi2 = key oi -> content w2 (key oi) = content w' (key oi) ->
    mailbox_transfer_ownership program_id (oi2 :: ow2 :: rest2) new_owner w2 <> Ok r /\
    inbox_set_default_ism program_id [ii2; oi2; ow2] ism w2 <> Ok r.
Proof.
  apply transfer_ownership_ok in Ht as (o & d & Ho & _ & _ & _ & _ & Hd & [= ->]).
  intros w2 oi2 ow2 rest2 ii2 new_owner ism r Hk Hc.
  apply store_in_slice_ok in Hd as (b & Hs & _ & ->).
  assert (Hnone : forall o2, outbox_at program_id w2 (key oi2) o2 -> owner o2 = None).
  { intros o2 (_ & Hf & _). rewrite Hk, Hc, content_set_data, decide_True in Hf by done.
    cbn [fst] in Hf. rewrite (fetch_stored _ _ _ Hs) in Hf. by injection Hf as <-. }
  split.
  - intros (o2 & d2 & Ho2 & _ & How & _)%transfer_ownership_ok.
    rewrite (Hnone o2 Ho2) in How. done.
  - intros (i2 & o2 & d2 & _ & Ho2 & _ & How & _)%set_default_ism_ok.
    rewrite (Hnone o2 Ho2) in How. done.
Qed.
End outbox.

Section getters.
Context `{SolanaLaws, Keccak256, !ZeroHashes, OverflowChecks}.
Context `{BorshSerialize bool, BorshDeserialize bool, !BorshBool}.
Context `{BorshSerialize Outbox, BorshDeserialize Outbox, !BorshLaws Outbox}.
Context `{BorshSerialize (SimulationReturnData byte_array),
  BorshSerialize (SimulationReturnData H256),
  BorshSerialize (SimulationReturnData bytes)}.

Lemma try_into_u32_incr t ids w :
  incr_ok t ids -> try_into_u32 (count t) w = Ok (uwrap 4 (count t), w).
Proof.
  intros Hids. apply try_into_u32_ok. split; [|done]. rewrite (ok_count _ _ Hids).
  pose proof (ok_small _ _ Hids). pose proof (pow2_Z 32) as Hp.
  change (Z.of_nat 32) with 32 in Hp. unfold u32_MAX. lia.
Qed.

(** The latest-checkpoint query never answers. Copying the 32-byte root into the 31-byte
    range [0..31] panics, so [outbox_get_latest_checkpoint] succeeds in no world at all, and
    on a canonical outbox, where the other two queries about the tree succeed, it panics. *)
Theorem outbox_get_latest_checkpoint_panics (program_id : Pubkey) accts w r :
  outbox_get_latest_checkpoint program_id accts w <> Ok r /\
  forall oi o ids, accts = [oi] -> outbox_at program_id w (key oi) o ->
    incr_ok (outbox_tree o) ids ->
    outbox_get_latest_checkpoint program_id accts w = Panic.
Proof.
  assert (Hcopy : forall root : H256,
    copy_from_slice (replicate 36 (byte 0)) 0 31 (to_be root) = None).
  { intros root. unfold copy_from_slice. rewrite slice_in by (rewrite ?length_replicate; lia).
    rewrite some_bind, decide_False; [done|]. rewrite length_to_be. done. }
  split.
  - intros Hg. unfold outbox_get_latest_checkpoint in Hg. prog_step Hg.
    apply st_bind_ok in Hg as (o & s & _ & Hg). apply st_bind_ok in Hg as ([] & s1 & _ & Hg).
    prog_step Hg. apply st_bind_ok in Hg as (c & s2 & _ & Hg). prog_step Hg.
    rewrite Hcopy in *. done.
  - intros oi o ids -> Ho Hids. unfold outbox_get_latest_checkpoint.
    prog_run (@next_cons oi [] w).
    prog_run (proj2 (Outbox_verify_ok program_id oi w _) (ex_intro _ o (conj Ho eq_refl))).
    prog_run (@require_true _ _ (bool_decide (@nil AccountInfo = []))
      (ProgramError_from ExtraneousAccount) w eq_refl).
    prog_run (lift_Ok _ _ w (proj2 (or_panic_ok _ _) (incr_root _ _ Hids))).
    prog_run (try_into_u32_incr _ _ w Hids).
    unfold mbind, ST_bind. by rewrite Hcopy.
Qed.

(** The root and the count the outbox reports are those of the dispatched messages:
    with a canonical outbox whose tree holds [ids], [outbox_get_root] returns the root over
    [ids] and [outbox_get_count] their number, both in the return-data wrapper, and neither
    changes any account. *)
Theorem outbox_getters (program_id : Pubkey) oi o ids w br bc
    (Ho : outbox_at program_id w (key oi) o) (Hids : incr_ok (outbox_tree o) ids)
    (Hbr : serialize (SimulationReturnData_new (tree_root 32 ids)) = Ok br)
    (Hbc : serialize (SimulationReturnData_new
             (MkByteArray (to_le (uwrap 4 (Z.of_nat (length ids)))))) = Ok bc) :
  outbox_get_root program_id [oi] w =
    Ok (tt, MkWorld (accounts w) (borrowed w) (Some (executing w, br)) (executing w)) /\
  outbox_get_count program_id [oi] w =
    Ok (tt, MkWorld (accounts w) (borrowed w) (Some (executing w, bc)) (executing w)).
Proof.
  pose proof (proj2 (Outbox_verify_ok program_id oi w _) (ex_intro _ o (conj Ho eq_refl))) as Hv.
  pose proof (@require_true _ _ (bool_decide (@nil AccountInfo = []))
      (ProgramError_from ExtraneousAccount) w eq_refl) as Hn.
  split.
  - unfold outbox_get_root. prog_run (@next_cons oi [] w). prog_run Hv. prog_run Hn.
    prog_run (lift_Ok _ _ w (proj2 (or_panic_ok _ _) (incr_root _ _ Hids))).
    unfold mbind, ST_bind. by rewrite Hbr.
  - unfold outbox_get_count. prog_run (@next_cons oi [] w). prog_run Hv. prog_run Hn.
    prog_run (try_into_u32_incr _ _ w Hids).
    rewrite (ok_count _ _ Hids). unfold mbind, ST_bind. by rewrite Hbc.
Qed.
End getters.

(** ** The theorems at concrete inputs *)

Module Scenario.
Import BorshModel RuntimeModel.
#[local] Existing Instance keccak_concrete.

(** A mailbox on domain 7, a payer that owns it, a sender, a recipient and a security
    module. *)
Definition pid : Pubkey := uwrap 32 1000.
Definition payer : AccountInfo := MkAccountInfo (uwrap 32 2000) true true false.
Definition ism : Pubkey := uwrap 32 3000.
Definition recipient_id : Pubkey := uwrap 32 4000.
Definition unique : AccountInfo := MkAccountInfo (uwrap 32 5000) true false false.
Definition system_info : AccountInfo := MkAccountInfo system_program_id false false true.
Definition noop_info : AccountInfo := MkAccountInfo spl_noop_id false false true.
Definition pda (seeds : list bytes) : AccountInfo :=
  MkAccountInfo (fst (find_program_address seeds pid)) false true false.
Definition inbox_info : AccountInfo := pda mailbox_inbox_pda_seeds.
Definition outbox_info : AccountInfo := pda mailbox_outbox_pda_seeds.

Definition debug (h : H256) : bytes := to_be h.
Definition empty_world : world := MkWorld ∅ ∅ None pid.

Definition init : Init := MkInit (uwrap 4 7) ism.
Definition init_accounts : list AccountInfo := [system_info; payer; inbox_info; outbox_info].
Definition world1 : world := after (initialize pid init_accounts init empty_world).

Definition message : HyperlaneMessage :=
  MkHyperlaneMessage VERSION (uwrap 4 0) (uwrap 4 9) (uwrap 32 77) (uwrap 4 7) recipient_id
    (blit [1; 2; 3]).
Definition process : InboxProcess := MkInboxProcess (blit [5; 6]) (to_vec message).
Definition process_accounts : list AccountInfo :=
  [payer; system_info; inbox_info; pda (mailbox_process_authority_pda_seeds recipient_id);
   pda (mailbox_processed_message_pda_seeds (id message)); noop_info;
   MkAccountInfo ism false false true; MkAccountInfo recipient_id false false true].

Definition dispatch : OutboxDispatch :=
  MkOutboxDispatch (key payer) (uwrap 4 11) (uwrap 32 88) (blit [4; 5]).
Definition dispatch_accounts : list AccountInfo :=
  [outbox_info; payer; system_info; noop_info; payer; unique;
   pda (mailbox_dispatched_message_pda_seeds (key unique))].

Lemma initialize_runs : initialize pid init_accounts init empty_world = Ok (tt, world1).
Proof. apply after_ok. vm_compute. reflexivity. Qed.

Lemma process_runs :
  inbox_process debug pid process_accounts process world1 =
  Ok (tt, after (inbox_process debug pid process_accounts process world1)).
Proof. apply (after_ok (inbox_process debug pid process_accounts process)). vm_compute. reflexivity. Qed.

Lemma dispatch_runs :
  outbox_dispatch pid dispatch_accounts dispatch world1 =
  Ok (tt, after (outbox_dispatch pid dispatch_accounts dispatch world1)).
Proof. apply (after_ok (outbox_dispatch pid dispatch_accounts dispatch)). vm_compute. reflexivity. Qed.

Lemma not_system : pid <> system_program_id.
Proof. intros Hk. apply (f_equal uval) in Hk. vm_compute in Hk. discriminate. Qed.
End Scenario.

Section witnesses.
Import BorshModel RuntimeModel Scenario.
#[local] Existing Instance keccak_concrete.
#[local] Existing Instance zero_hashes_concrete.

Lemma message_decodes : HyperlaneMessage_from (process_message process) = Some message.
Proof. apply HyperlaneMessage_from_to_vec. Qed.

Lemma recipient_not_mailbox : recipient message <> pid.
Proof. intros Hk. apply (f_equal uval) in Hk. vm_compute in Hk. discriminate. Qed.

Lemma inbox_process_at_most_once_witness :
  exists w', inbox_process debug pid process_accounts process world1 = Ok (tt, w') /\
    forall r, inbox_process debug pid process_accounts process w' <> Ok r.
Proof.
  eexists. split; [exact process_runs|]. intros r.
  destruct (inbox_process_at_most_once debug pid process_accounts process world1 _ message
    eq_refl not_system message_decodes recipient_not_mailbox process_runs) as (_ & _ & Hagain).
  apply (Hagain _ _ _ message); [reflexivity|exact message_decodes|reflexivity].
Defined.

Lemma inbox_process_verified_witness :
  exists inbox w1 w2 w3 used gi vi data v,
    get_recipient_ism (recipient message) gi (meta_of <$> gi) (default_ism inbox) w1
      = Ok (used, w2) /\
    sol_invoke_signed (MkInstruction used (meta_of <$> vi) data) vi [] w2 = Ok w3 /\
    inbox_process_deliver debug pid v w3 = inbox_process debug pid process_accounts process world1.
Proof.
  destruct (inbox_process_verified debug pid process_accounts process world1 _ process_runs)
    as (m & ki & inbox & w1 & used & gi & w2 & vi & data & w3 & v & Hm & _ & _ & _ & _ & Hg & _ &
        Hs & _ & Hd).
  rewrite message_decodes in Hm. injection Hm as <-.
  exists inbox, w1, w2, w3, used, gi, vi, data, v. split; [exact Hg|]. split; [exact Hs|].
  rewrite process_runs. exact Hd.
Defined.

Lemma inbox_process_counts_witness :
  exists w' slot b, inbox_process debug pid process_accounts process world1 = Ok (tt, w') /\
    exists inbox, serialize (ProcessedMessage_new (processed_count inbox) (id message) slot) = Ok b.
Proof.
  destruct (inbox_process_counts debug pid process_accounts process world1 _ eq_refl not_system
    process_runs) as (ki & inbox & m & slot & b & Hm & _ & _ & Hs & _).
  rewrite message_decodes in Hm. injection Hm as <-.
  eexists _, slot, b. split; [exact process_runs|]. exists inbox. exact Hs.
Defined.

Lemma initialized :
  exists ib ob, let outbox := MkOutbox (uwrap 4 7) ob (Some (key payer)) Incremental.default in
    inbox_at pid world1 (key inbox_info) (MkInbox (uwrap 4 7) ib ism (uwrap 8 0)) /\
    outbox_at pid world1 (key outbox_info) outbox.
Proof.
  destruct (initialize_ok pid init_accounts init empty_world _ not_system initialize_runs)
    as (sys & p & ii & oi & rest & ib & ob & w1 & bi & bo & ti & to & Ha & Hw & _ & _ & _ & _ &
        _ & _ & _ & _ & _ & _ & Hi & Ho & _).
  unfold init_accounts in Ha. injection Ha as <- <- <- <- <-.
  assert (Hw' : world1 = w1) by exact (f_equal snd Hw).
  exists ib, ob. rewrite Hw'. split; [exact Hi|exact Ho].
Qed.

Lemma initialize_once_witness :
  initialize pid init_accounts init empty_world = Ok (tt, world1) /\
  forall r, initialize pid init_accounts init world1 <> Ok r.
Proof.
  split; [exact initialize_runs|]. intros r.
  destruct (initialize_once pid init_accounts init empty_world world1 not_system
    initialize_runs) as (p & ki & ko & ib & ob & _ & _ & _ & _ & _ & _ & _ & _ & _ & _ & Hagain).
  apply Hagain. reflexivity.
Defined.

Lemma outbox_dispatch_commits_witness :
  exists w' tree m, outbox_dispatch pid dispatch_accounts dispatch world1 = Ok (tt, w') /\
    Incremental.root tree = Some (tree_root 32 [id m]) /\
    return_data w' = Some (pid, to_be (id m)).
Proof.
  destruct initialized as (ib & ob & _ & Ho).
  destruct (outbox_dispatch_commits pid dispatch_accounts
    dispatch world1 _ _ outbox_info [] eq_refl not_system eq_refl Ho incr_ok_default
    dispatch_runs) as (si & um & di & tree & slot & b & Hc). cbv zeta in Hc.
  destruct Hc as (_ & _ & _ & _ & _ & _ & _ & _ & _ & _ & _ & _ & Hr & Hd).
  eexists _, tree, _. split; [exact dispatch_runs|]. split; [exact Hr|exact Hd].
Defined.

Lemma transfer_runs :
  mailbox_transfer_ownership pid [outbox_info; payer] None world1 =
  Ok (tt, after (mailbox_transfer_ownership pid [outbox_info; payer] None world1)).
Proof.
  apply (after_ok (mailbox_transfer_ownership pid [outbox_info; payer] None)).
  vm_compute. reflexivity.
Qed.

Lemma renounced_ownership_is_final_witness :
  exists w', mailbox_transfer_ownership pid [outbox_info; payer] None world1 = Ok (tt, w') /\
    forall r, mailbox_transfer_ownership pid [outbox_info; payer] (Some (key payer)) w' <> Ok r.
Proof.
  eexists. split; [exact transfer_runs|]. intros r.
  assert (Hb : key outbox_info ∉ borrowed world1).
  { destruct initialized as (ib & ob & _ & (Hb & _)). exact Hb. }
  exact (proj1 (renounced_ownership_is_final pid outbox_info payer [] world1 _ Hb transfer_runs
    _ outbox_info payer [] payer (Some (key payer)) ism r eq_refl eq_refl)).
Defined.

Lemma outbox_getters_witness :
  exists br bc w1 w2,
    outbox_get_root pid [outbox_info] world1 = Ok (tt, w1) /\
    outbox_get_count pid [outbox_info] world1 = Ok (tt, w2) /\
    return_data w1 = Some (pid, br) /\ return_data w2 = Some (pid, bc).
Proof.
  destruct initialized as (ib & ob & _ & Ho).
  destruct (outbox_getters pid outbox_info _ []
    world1 _ _ Ho incr_ok_default eq_refl eq_refl) as [Hr Hc].
  eexists _, _, _, _. split; [exact Hr|]. split; [exact Hc|]. split; reflexivity.
Defined.

Lemma outbox_get_latest_checkpoint_panics_witness :
  outbox_get_latest_checkpoint pid [outbox_info] world1 = Panic.
Proof.
  destruct initialized as (ib & ob & _ & Ho).
  destruct (outbox_get_latest_checkpoint_panics pid [outbox_info] world1 (tt, world1)) as [_ Hp].
  exact (Hp _ _ [] eq_refl Ho incr_ok_default).
Defined.
End witnesses.
