(* ===== verification/AccountTheorems.v ===== *)
(** * Properties of the account utilities and of the mailbox's hand-written account formats *)

From S2P Require Import Prelude.
From S2P Require Import Codec.
From S2P Require Import Keccak.
From S2P Require Import Accumulator.
From S2P Require Import Message.
From S2P Require Import Sealevel.
From S2P Require Import AccountUtils.
From S2P Require Import Interfaces.
From S2P Require Import Mailbox.
From S2P Require Import Concrete.
From stdpp Require Import base gmap list numbers strings sets.
From Stdlib Require Import ZArith Lia.

#[local] Open Scope Z_scope.

Section account_data.
Context `{SolanaLaws} {T : Type}.
Context `{BorshSerialize bool, BorshDeserialize bool, !BorshBool}.
Context `{BorshSerialize T, BorshDeserialize T, !BorshLaws T, Default T}.

(** What is stored is what is fetched: after a successful [store], with or without
    reallocation, fetching the account gives the stored value, whatever was in the account
    before; its owner and every other account's data and owner are unchanged. Fetching an
    account that was never written (empty, or zero-filled) gives the default value. *)
Theorem store_then_fetch (x : T) i allow_realloc w w'
    (Hs : AccountData.store x i allow_realloc w = Ok (tt, w')) :
  AccountData.fetch (fst (content w' (key i))) = Ok x /\
  snd (content w' (key i)) = snd (content w (key i)) /\
  (forall k, k <> key i -> content w' k = content w k) /\
  AccountData.fetch (T := T) [] = Ok default_value /\
  forall n, AccountData.fetch (T := T) (replicate (S n) (byte 0)) = Ok default_value.
Proof.
  destruct (store_content _ _ _ _ _ Hs) as (_ & _ & w2 & b & tail & [= <-] & Hx & _ & Hc).
  split_and!.
  - rewrite Hc, decide_True by done. by apply fetch_stored.
  - by rewrite Hc, decide_True.
  - intros k Hk. by rewrite Hc, decide_False.
  - done.
  - intros n. unfold AccountData.fetch, AccountData.fetch_data. cbn [replicate].
    change (byte 0) with (byte (Z.b2z false)) at 1. by rewrite deserialize_bool.
Qed.

Lemma store_loop_returns (x : T) out n i r w :
  AccountData.serialized x = Ok out ->
  (forall j m z w, sol_realloc j m z w <> Panic) ->
  (length out - length (acc_data (get_account w (key i))) < n)%nat ->
  AccountData.store_loop n x i r w <> Panic.
Proof.
  intros Hout Hre. revert w. induction n as [|n IH]; intros w Hn; [lia|].
  cbn [AccountData.store_loop]. unfold mbind, ST_bind.
  destruct (try_data_mut i w) as [[d w']|e|] eqn:Hd; [|done|].
  - apply try_data_mut_ok in Hd as [_ [= -> ->]].
    unfold AccountData.store_in_slice. rewrite Hout. cbn [mbind outcome_bind].
    cbn [content fst]. case_decide as Hlen; [done|]. destruct r; [|done]. unfold realloc.
    destruct (sol_realloc _ _ _ _) as [w'|e|] eqn:Hr; [|done|by destruct (Hre _ _ _ _ Hr)].
    apply realloc_length in Hr. apply IH. lia.
  - unfold try_data_mut in Hd. by case_decide.
Qed.

(** The write-and-reallocate loop of [store] terminates: for a value that serialises,
    the rounds the model allows are enough to finish (with success or with an error of the
    runtime), and allowing more changes nothing. *)
Theorem store_terminates (x : T) out i allow_realloc w n
    (Hout : AccountData.serialized x = Ok out)
    (Hre : forall j m z w, sol_realloc j m z w <> Panic)
    (Hn : (AccountData.store_fuel x <= n)%nat) :
  AccountData.store x i allow_realloc w <> Panic /\
  AccountData.store_loop n x i allow_realloc w =
    AccountData.store_loop (AccountData.store_fuel x) x i allow_realloc w.
Proof.
  split; [|apply store_loop_mono; [by rewrite Hout|done]].
  unfold AccountData.store. case_match; [done|].
  apply (store_loop_returns x out); [done|done|].
  unfold AccountData.store_fuel. rewrite Hout. lia.
Qed.
End account_data.

(** A program-derived account can be created even when somebody has sent lamports to its
    address, and only if the account does not exist: on both paths (transfer, allocate and
    assign; or create), a successful [create_pda_account] finds the account empty and the
    system program's, leaves it with exactly [space] zero bytes and the given owner, and
    changes no other account's data or owner. *)
Theorem create_pda_account_effect `{SolanaLaws} payer rent space owner sys i seeds w w'
    (Hspace : Z.of_nat space < 2 ^ 64)
    (Hc : create_pda_account payer rent space owner sys i seeds w = Ok (tt, w')) :
  content w (key i) = ([], system_program_id) /\
  content w' (key i) = (replicate space (byte 0), owner) /\
  forall k, k <> key i -> content w' k = content w k.
Proof.
  split; [by eapply create_pda_account_fresh|].
  destruct (create_pda_account_content _ _ _ _ _ _ _ _ _ Hspace Hc) as (w2 & [= <-] & _ & Hk).
  split; [by rewrite Hk, decide_True|]. intros k Hne. by rewrite Hk, decide_False.
Qed.

Lemma require_true_bind {A} (f : unit -> slice_reader A) b e s :
  b = true -> ((require b e : slice_reader unit) ≫= f) s = f tt s.
Proof. by intros ->. Qed.

Lemma slice_read_exact_app {A} n l k (f : bytes -> slice_reader A) :
  length l = n -> (slice_read_exact n ≫= f) (l ++ k) = f l k.
Proof.
  intros Hl. apply st_bind_eq. unfold slice_read_exact.
  rewrite decide_True by (rewrite length_app; lia).
  by rewrite take_app_exact, drop_app_exact.
Qed.

Lemma slice_read_exact_last {A} n l (f : bytes -> slice_reader A) :
  length l = n -> (slice_read_exact n ≫= f) l = f l [].
Proof. intros. rewrite <- (app_nil_r l) at 1. by apply slice_read_exact_app. Qed.

(** The per-message accounts have an exact format: a dispatched message that carries its
    discriminator survives its encoding, which has the size the account is created with (so
    an indexer reads back nonce, slot, unique key and the whole message); a processed message
    survives the derived encoding of its fields in order; and both decoders refuse data that
    starts with anything but their discriminator. *)
Theorem message_accounts_roundtrip `{BorshSerialize ProcessedMessage}
    (d : DispatchedMessage) (p : ProcessedMessage) (disc rest : bytes)
    (Hd : dm_discriminator d = DISPATCHED_MESSAGE_DISCRIMINATOR)
    (Hp : pm_discriminator p = PROCESSED_MESSAGE_DISCRIMINATOR)
    (Hlayout : serialize p = Ok (pm_discriminator p ++ to_le (sequence p)
                                 ++ to_be (pm_message_id p) ++ to_le (pm_slot p)))
    (Hdisc : length disc = 8%nat) :
  (exists b, serialize d = Ok b /\ deserialize b = Ok (d, []) /\
             S (length b) = AccountData.size d) /\
  (exists b, serialize p = Ok b /\ (forall tail, deserialize (b ++ tail) = Ok (p, tail)) /\
             S (length b) = AccountData.size p) /\
  (disc <> DISPATCHED_MESSAGE_DISCRIMINATOR ->
     deserialize (A := DispatchedMessage) (disc ++ rest) = Err InvalidData) /\
  (disc <> PROCESSED_MESSAGE_DISCRIMINATOR ->
     deserialize (A := ProcessedMessage) (disc ++ rest) = Err InvalidData).
Proof.
  split_and!.
  - eexists. split; [done|]. split.
    + unfold deserialize, DispatchedMessage_deserialize.
      rewrite slice_read_exact_app by done. rewrite bool_decide_true by done.
      rewrite require_true_bind by done.
      repeat rewrite slice_read_exact_app by (autorewrite with hyp; reflexivity).
      autorewrite with hyp. rewrite <- Hd. by destruct d.
    + unfold AccountData.size, sized, DispatchedMessage_size.
      rewrite !length_app, !length_to_le, length_to_be.
      change (length DISPATCHED_MESSAGE_DISCRIMINATOR) with 8%nat. lia.
  - eexists. split; [exact Hlayout|]. rewrite Hp. split.
    + intros tail. unfold deserialize, ProcessedMessage_deserialize. rewrite <- !app_assoc.
      rewrite slice_read_exact_app by done. rewrite bool_decide_true by done.
      rewrite require_true_bind by done.
      repeat rewrite slice_read_exact_app by (autorewrite with hyp; reflexivity).
      autorewrite with hyp. rewrite <- Hp. by destruct p.
    + unfold AccountData.size, sized, ProcessedMessage_size.
      rewrite !length_app, !length_to_le, length_to_be.
      change (length PROCESSED_MESSAGE_DISCRIMINATOR) with 8%nat. lia.
  - intros Hne. unfold deserialize, DispatchedMessage_deserialize.
    rewrite slice_read_exact_app by done. by rewrite bool_decide_false.
  - intros Hne. unfold deserialize, ProcessedMessage_deserialize.
    rewrite slice_read_exact_app by done. by rewrite bool_decide_false.
Qed.

(** ** The theorems at concrete inputs *)

Section witnesses.
Import BorshModel RuntimeModel.
#[local] Existing Instance keccak_concrete.

Definition sample_inbox : Inbox := MkInbox (uwrap 4 7) (byte 255) (uwrap 32 3) (uwrap 8 9).
Definition sample_info : AccountInfo := MkAccountInfo (uwrap 32 5) true true false.
Definition sample_bytes : bytes :=
  match AccountData.serialized sample_inbox with Ok b => b | _ => [] end.
Definition sample_world : world := MkWorld ∅ ∅ None (uwrap 32 1000).

Lemma store_runs :
  AccountData.store sample_inbox sample_info true sample_world =
    Ok (tt, after (AccountData.store sample_inbox sample_info true sample_world)).
Proof. apply (after_ok (AccountData.store sample_inbox sample_info true)). vm_compute. reflexivity. Qed.

Lemma store_then_fetch_witness :
  exists w', AccountData.store sample_inbox sample_info true sample_world = Ok (tt, w') /\
    AccountData.fetch (fst (content w' (key sample_info))) = Ok sample_inbox.
Proof.
  eexists. split; [exact store_runs|].
  exact (proj1 (store_then_fetch sample_inbox sample_info true sample_world _ store_runs)).
Defined.

Lemma store_terminates_witness :
  AccountData.serialized sample_inbox = Ok sample_bytes /\
  AccountData.store sample_inbox sample_info true sample_world <> Panic.
Proof.
  assert (Hout : AccountData.serialized sample_inbox = Ok sample_bytes) by reflexivity.
  split; [exact Hout|].
  refine (proj1 (store_terminates sample_inbox sample_bytes sample_info true sample_world
    (AccountData.store_fuel sample_inbox) Hout _ (Nat.le_refl _))).
  intros j m z w. cbn. case_decide; discriminate.
Defined.

Definition sample_create : prog unit :=
  create_pda_account sample_info (MkRent (λ _, uwrap 8 10) (λ _ _, true)) 4 (uwrap 32 1000)
    sample_info (MkAccountInfo (uwrap 32 6) false true false) [].

Lemma create_runs :
  sample_create sample_world = Ok (tt, after (sample_create sample_world)).
Proof. apply (after_ok sample_create). vm_compute. reflexivity. Qed.

Lemma create_pda_account_effect_witness :
  exists w', sample_create sample_world = Ok (tt, w') /\
    content w' (uwrap 32 6) = (replicate 4 (byte 0), uwrap 32 1000).
Proof.
  eexists. split; [exact create_runs|].
  exact (proj1 (proj2 (create_pda_account_effect _ _ 4 _ _
    (MkAccountInfo (uwrap 32 6) false true false) _ _ _ ltac:(lia) create_runs))).
Defined.

Lemma message_accounts_roundtrip_witness :
  exists b, serialize (DispatchedMessage_new (uwrap 4 1) (uwrap 8 2) (uwrap 32 3) [byte 4]) = Ok b /\
    deserialize b =
      Ok (DispatchedMessage_new (uwrap 4 1) (uwrap 8 2) (uwrap 32 3) [byte 4], []).
Proof.
  destruct (message_accounts_roundtrip
    (DispatchedMessage_new (uwrap 4 1) (uwrap 8 2) (uwrap 32 3) [byte 4])
    (ProcessedMessage_new (uwrap 8 1) (uwrap 32 2) (uwrap 8 3)) (blit [1; 2; 3; 4; 5; 6; 7; 8]) []
    eq_refl eq_refl eq_refl eq_refl) as ((b & Hb & Hd & _) & _).
  exists b. split; [exact Hb|exact Hd].
Defined.

Lemma interface_instructions_roundtrip_witness :
  exists b, Ism.encode (Verify (MkVerifyInstruction [byte 1] [byte 2])) = Ok b /\
    Ism.decode b = Ok (Verify (MkVerifyInstruction [byte 1] [byte 2])).
Proof.
  pose proof (proj1 (interface_instructions_roundtrip
    (Verify (MkVerifyInstruction [byte 1] [byte 2])) InterchainSecurityModule [])) as Hi.
  eexists. split; [reflexivity|exact Hi].
Defined.
End witnesses.
