(* ===== verification/Igp.v ===== *)
(** * The interchain gas paymaster ([sealevel/programs/hyperlane-sealevel-igp])

    [accounts.rs] (gas oracles, overheads and the quote), [error.rs], [pda_seeds.rs],
    [instruction.rs] and [processor.rs], one definition per handler. *)

From S2P Require Import Prelude.
From S2P Require Import Codec.
From S2P Require Import U256.
From S2P Require Import Sealevel.
From S2P Require Import AccountUtils.
From S2P Require Import Interfaces.
From stdpp Require Import base gmap list numbers strings sets.
From Stdlib Require Import ZArith Lia.

#[local] Open Scope Z_scope.

(** ** [error.rs] *)

Inductive Error := NoGasOracleSetForDestinationDomain.

(** [err as u32] and [From<Error> for ProgramError] *)
Definition Error_code (err : Error) : Z :=
  match err with NoGasOracleSetForDestinationDomain => 1 end.

Definition ProgramError_from (err : Error) : ProgramError := Custom (uwrap 4 (Error_code err)).

(** ** [pda_seeds.rs]: the forms without a bump seed *)

Definition igp_program_data_pda_seeds : list bytes :=
  bstr <$> ["hyperlane_igp"; "-"; "program_data"]%string.
Definition igp_pda_seeds (salt : H256) : list bytes :=
  (bstr <$> ["hyperlane_igp"; "-"; "igp"; "-"]%string) ++ [to_be salt].
Definition overhead_igp_pda_seeds (salt : H256) : list bytes :=
  (bstr <$> ["hyperlane_igp"; "-"; "overhead_igp"; "-"]%string) ++ [to_be salt].
Definition igp_gas_payment_pda_seeds (unique_gas_payment_pubkey : Pubkey) : list bytes :=
  (bstr <$> ["hyperlane_igp"; "-"; "gas_payment"; "-"]%string)
    ++ [to_be unique_gas_payment_pubkey].

(** ** [accounts.rs] *)

Definition TOKEN_EXCHANGE_RATE_SCALE : u128 := uwrap 16 (10 ^ 19).
Definition SOL_DECIMALS : u8 := uwrap 1 9.

Inductive InterchainGasPaymasterType :=
  | IgpType (key : Pubkey)
  | OverheadIgpType (key : Pubkey).

(** [InterchainGasPaymasterType::key] *)
Definition paymaster_key (t : InterchainGasPaymasterType) : Pubkey :=
  match t with IgpType key => key | OverheadIgpType key => key end.

Record RemoteGasData := MkRemoteGasData {
  token_exchange_rate : u128;
  gas_price : u128;
  token_decimals : u8
}.

Inductive GasOracle := OracleRemoteGasData (data : RemoteGasData).

#[export] Instance GasOracle_default : Default GasOracle :=
  OracleRemoteGasData (MkRemoteGasData (uwrap 16 0) (uwrap 16 0) (uwrap 1 0)).

Record ProgramData := MkProgramData { pd_bump_seed : u8; payment_count : u64 }.

#[export] Instance ProgramData_discriminator : DiscriminatorData ProgramData := bstr "PRGMDATA".
#[export] Instance ProgramData_size : SizedData ProgramData := λ _, (1 + 8)%nat.
#[export] Instance ProgramData_default : Default ProgramData :=
  MkProgramData (byte 0) (uwrap 8 0).

(** A [HashMap] is a finite map. *)
Record OverheadIgp := MkOverheadIgp {
  oh_bump_seed : u8;
  oh_salt : H256;
  oh_owner : option Pubkey;
  inner : Pubkey;
  gas_overheads : gmap u32 u64
}.

#[export] Instance OverheadIgp_discriminator : DiscriminatorData OverheadIgp := bstr "OVRHDIGP".
#[export] Instance OverheadIgp_size : SizedData OverheadIgp := λ self,
  (1 + 32 + 33 + 32 + 4 + base.size (gas_overheads self) * (4 + 8))%nat.
#[export] Instance OverheadIgp_default : Default OverheadIgp :=
  MkOverheadIgp (byte 0) (uwrap 32 0) None (uwrap 32 0) ∅.
#[export] Instance OverheadIgp_access : AccessControl OverheadIgp := {
  ac_owner := oh_owner;
  set_owner self new_owner :=
    Ok (MkOverheadIgp (oh_bump_seed self) (oh_salt self) new_owner (inner self)
          (gas_overheads self))
}.

Record Igp := MkIgp {
  igp_bump_seed : u8;
  igp_salt : H256;
  igp_owner : option Pubkey;
  beneficiary : Pubkey;
  gas_oracles : gmap u32 GasOracle
}.

#[export] Instance Igp_discriminator : DiscriminatorData Igp := bstr "IGP_____".
#[export] Instance Igp_size : SizedData Igp := λ self,
  (1 + 32 + 33 + 32 + 4 + base.size (gas_oracles self) * (1 + 257))%nat.
#[export] Instance Igp_default : Default Igp :=
  MkIgp (byte 0) (uwrap 32 0) None (uwrap 32 0) ∅.
#[export] Instance Igp_access : AccessControl Igp := {
  ac_owner := igp_owner;
  set_owner self new_owner :=
    Ok (MkIgp (igp_bump_seed self) (igp_salt self) new_owner (beneficiary self)
          (gas_oracles self))
}.

Record GasPaymentData := MkGasPaymentData {
  sequence_number : u64;
  payment_igp : Pubkey;
  payment_destination_domain : u32;
  payment_message_id : H256;
  payment_gas_amount : u64;
  payment : u64;
  unique_gas_payment_pubkey : Pubkey;
  payment_slot : u64
}.

Definition GAS_PAYMENT_DISCRIMINATOR : bytes := bstr "GASPAYMT".
#[export] Instance GasPaymentData_discriminator : DiscriminatorData GasPaymentData :=
  GAS_PAYMENT_DISCRIMINATOR.
#[export] Instance GasPaymentData_size : SizedData GasPaymentData := λ _,
  (8 + 32 + 4 + 32 + 8 + 8 + 32 + 8)%nat.
#[export] Instance GasPaymentData_default : Default GasPaymentData :=
  MkGasPaymentData (uwrap 8 0) (uwrap 32 0) (uwrap 4 0) (uwrap 32 0) (uwrap 8 0) (uwrap 8 0)
    (uwrap 32 0) (uwrap 8 0).

Section quotes.
Context `{U256Ops, OverflowChecks}.

(** [convert_decimals]; the difference of the decimals is taken in the branch where it is
    positive. *)
Definition convert_decimals (num : U256) (from_decimals to_decimals : u8) : option U256 :=
  match Z.compare from_decimals to_decimals with
  | Gt =>
      p ← u256_pow (u256_from (uwrap 8 10)) (u256_from (uwrap 1 (from_decimals - to_decimals)));
      u256_div num p
  | Lt =>
      p ← u256_pow (u256_from (uwrap 8 10)) (u256_from (uwrap 1 (to_decimals - from_decimals)));
      u256_mul num p
  | Eq => Some num
  end.

(** [Igp::quote_gas_payment] *)
Definition quote_gas_payment (self : Igp) (destination_domain : u32) (gas_amount : u64) :
    outcome Error u64 :=
  oracle ← ok_or (gas_oracles self !! destination_domain) NoGasOracleSetForDestinationDomain;
  let '(OracleRemoteGasData data) := oracle in
  or_panic
    (destination_gas_cost ← u256_mul (u256_from gas_amount) (u256_from (gas_price data));
     scaled ← u256_mul destination_gas_cost (u256_from (token_exchange_rate data));
     origin_cost ← u256_div scaled (u256_from TOKEN_EXCHANGE_RATE_SCALE);
     origin_cost ← convert_decimals origin_cost (token_decimals data) SOL_DECIMALS;
     u256_as_u64 origin_cost).

(** [OverheadIgp::gas_overhead] *)
Definition gas_overhead (self : OverheadIgp) (destination_domain : u32) : u64 :=
  default (uwrap 8 0) (gas_overheads self !! destination_domain).

(** [OverheadIgp::quote_gas_payment] *)
Definition overhead_quote_gas_payment (self : OverheadIgp) (destination_domain : u32)
    (gas_amount : u64) (inner_igp : Igp) : outcome Error u64 :=
  total_gas_amount ← arith 8 (gas_overhead self destination_domain + gas_amount);
  quote_gas_payment inner_igp destination_domain total_gas_amount.
End quotes.

(** ** [instruction.rs] *)

Record InitIgp := MkInitIgp {
  init_salt : H256;
  init_owner : option Pubkey;
  init_beneficiary : Pubkey
}.

Record InitOverheadIgp := MkInitOverheadIgp {
  init_oh_salt : H256;
  init_oh_owner : option Pubkey;
  init_inner : Pubkey
}.

Record PayForGas := MkPayForGas {
  pay_message_id : H256;
  pay_destination_domain : u32;
  pay_gas_amount : u64
}.

Record QuoteGasPayment := MkQuoteGasPayment {
  quote_destination_domain : u32;
  quote_gas_amount : u64
}.

Record GasOverheadConfig := MkGasOverheadConfig {
  config_destination_domain : u32;
  config_gas_overhead : option u64
}.

Record GasOracleConfig := MkGasOracleConfig {
  config_domain : u32;
  config_gas_oracle : option GasOracle
}.

Inductive Instruction :=
  | Init
  | InitIgpIxn (data : InitIgp)
  | InitOverheadIgpIxn (data : InitOverheadIgp)
  | PayForGasIxn (payment : PayForGas)
  | QuoteGasPaymentIxn (payment : QuoteGasPayment)
  | TransferIgpOwnership (new_owner : option Pubkey)
  | TransferOverheadIgpOwnership (new_owner : option Pubkey)
  | SetIgpBeneficiary (beneficiary : Pubkey)
  | SetDestinationGasOverheads (configs : list GasOverheadConfig)
  | SetGasOracleConfigs (configs : list GasOracleConfig)
  | Claim.

Section builders.
Context `{Solana, BorshSerialize Instruction}.
(** [Pubkey::try_find_program_address] *)
Context (try_find_program_address : list bytes -> Pubkey -> option (Pubkey * u8)).

(** The end of every builder: the encoded instruction with its accounts. *)
Definition build (program_id : Pubkey) (ixn : Instruction) (accounts : list AccountMeta) :
    outcome ProgramError SolanaInstruction :=
  data ← borsh_err (serialize ixn);
  Ok (MkInstruction program_id accounts data).

Definition init_instruction (program_id payer : Pubkey) :
    outcome ProgramError SolanaInstruction :=
  '(program_data_account, _) ←
    ok_or (try_find_program_address igp_program_data_pda_seeds program_id) InvalidSeeds;
  build program_id Init
    [AccountMeta_new_readonly system_program_id false; AccountMeta_new_readonly payer true;
     AccountMeta_new program_data_account false].

Definition init_igp_instruction (program_id payer : Pubkey) (salt : H256)
    (owner : option Pubkey) (beneficiary : Pubkey) : outcome ProgramError SolanaInstruction :=
  '(igp_account, _) ←
    ok_or (try_find_program_address (igp_pda_seeds salt) program_id) InvalidSeeds;
  build program_id (InitIgpIxn (MkInitIgp salt owner beneficiary))
    [AccountMeta_new_readonly system_program_id false; AccountMeta_new_readonly payer true;
     AccountMeta_new igp_account false].

Definition init_overhead_igp_instruction (program_id payer : Pubkey) (salt : H256)
    (owner : option Pubkey) (inner : Pubkey) : outcome ProgramError SolanaInstruction :=
  '(igp_account, _) ←
    ok_or (try_find_program_address (overhead_igp_pda_seeds salt) program_id) InvalidSeeds;
  build program_id (InitOverheadIgpIxn (MkInitOverheadIgp salt owner inner))
    [AccountMeta_new_readonly system_program_id false; AccountMeta_new_readonly payer true;
     AccountMeta_new igp_account false].

Definition set_destination_gas_overheads_instruction (program_id overhead_igp owner : Pubkey)
    (overhead_gas_amounts : list GasOverheadConfig) : outcome ProgramError SolanaInstruction :=
  build program_id (SetDestinationGasOverheads overhead_gas_amounts)
    [AccountMeta_new_readonly system_program_id false; AccountMeta_new overhead_igp false;
     AccountMeta_new owner true].

Definition set_gas_oracle_configs_instruction (program_id igp owner : Pubkey)
    (gas_oracle_configs : list GasOracleConfig) : outcome ProgramError SolanaInstruction :=
  build program_id (SetGasOracleConfigs gas_oracle_configs)
    [AccountMeta_new_readonly system_program_id false; AccountMeta_new igp false;
     AccountMeta_new owner true].

Definition pay_for_gas_instruction (program_id payer igp : Pubkey)
    (overhead_igp : option Pubkey) (unique_gas_payment_account_pubkey : Pubkey)
    (message_id : H256) (destination_domain : u32) (gas_amount : u64) :
    outcome ProgramError (SolanaInstruction * Pubkey) :=
  '(program_data_account, _) ←
    ok_or (try_find_program_address igp_program_data_pda_seeds program_id) InvalidSeeds;
  '(gas_payment_account, _) ←
    ok_or (try_find_program_address
      (igp_gas_payment_pda_seeds unique_gas_payment_account_pubkey) program_id) InvalidSeeds;
  instruction ← build program_id
    (PayForGasIxn (MkPayForGas message_id destination_domain gas_amount))
    ([AccountMeta_new_readonly system_program_id false; AccountMeta_new payer true;
      AccountMeta_new program_data_account false;
      AccountMeta_new_readonly unique_gas_payment_account_pubkey true;
      AccountMeta_new gas_payment_account false; AccountMeta_new igp false]
     ++ match overhead_igp with
        | Some overhead_igp => [AccountMeta_new_readonly overhead_igp false]
        | None => []
        end);
  Ok (instruction, gas_payment_account).

Definition transfer_igp_account_ownership_instruction (program_id : Pubkey)
    (igp_account_type : InterchainGasPaymasterType) (owner_payer : Pubkey)
    (new_owner : option Pubkey) : outcome ProgramError SolanaInstruction :=
  let '(igp_account, instruction) :=
    match igp_account_type with
    | IgpType igp_account => (igp_account, TransferIgpOwnership new_owner)
    | OverheadIgpType igp_account => (igp_account, TransferOverheadIgpOwnership new_owner)
    end in
  build program_id instruction
    [AccountMeta_new igp_account false; AccountMeta_new owner_payer true].

Definition claim_instruction (program_id igp beneficiary : Pubkey) :
    outcome ProgramError SolanaInstruction :=
  build program_id Claim
    [AccountMeta_new_readonly system_program_id false; AccountMeta_new igp false;
     AccountMeta_new beneficiary false].

Definition set_beneficiary_instruction (program_id igp igp_owner new_beneficiary : Pubkey) :
    outcome ProgramError SolanaInstruction :=
  build program_id (SetIgpBeneficiary new_beneficiary)
    [AccountMeta_new igp false; AccountMeta_new igp_owner true].
End builders.

(** ** [processor.rs] *)

(** [AccountData::<DiscriminatorPrefixed<T>>::fetch(..)?.into_inner().data] and
    [AccountData::new(data.into())], the way every handler reads and writes an account. *)
Section prefixed.
Context `{Solana, BorshSerialize bool, BorshDeserialize bool}.
Context {T : Type}.
Context `{DiscriminatorData T, BorshSerialize T, BorshDeserialize T, Default T}.

Definition fetch_prefixed (info : AccountInfo) : prog T :=
  d ← data_of info;
  data ← lift (AccountData.fetch (T := DiscriminatorPrefixed T) d);
  mret (prefixed_data data).

Definition store_prefixed (data : T) (info : AccountInfo) : prog unit :=
  AccountData.store (MkDiscriminatorPrefixed data) info false.

(** [get_igp_variant_and_verify_owner] *)
Definition get_igp_variant_and_verify_owner `{AccessControl T} (program_id : Pubkey)
    (accounts_iter : list AccountInfo) : prog (AccountInfo * T * AccountInfo) :=
  (* Account 0: The IGP or OverheadIGP account. *)
  '(igp_info, accounts_iter) ← next_account_info accounts_iter;
  o ← owner_of igp_info;
  require (bool_decide (o = program_id)) IncorrectProgramId;;
  igp ← fetch_prefixed igp_info;
  (* Account 1: The owner of the IGP account. *)
  '(owner_info, accounts_iter) ← next_account_info accounts_iter;
  lift (ensure_owner_signer igp owner_info);;
  mret (igp_info, igp, owner_info).

(** [transfer_igp_variant_ownership] *)
Definition transfer_igp_variant_ownership `{AccessControl T} (program_id : Pubkey)
    (accounts_iter : list AccountInfo) (new_owner : option Pubkey) : prog unit :=
  '(igp_info, igp, _) ← get_igp_variant_and_verify_owner program_id accounts_iter;
  igp ← lift (set_owner igp new_owner);
  store_prefixed igp igp_info.

(** [init_igp_variant] *)
Definition init_igp_variant `{SizedData T} (program_id : Pubkey)
    (accounts_iter : list AccountInfo) (get_data : u8 -> T) (pda_seeds : list bytes) :
    prog Pubkey :=
  (* Account 0: The system program. *)
  '(system_program_info, accounts_iter) ← next_account_info accounts_iter;
  require (bool_decide (key system_program_info = system_program_id)) IncorrectProgramId;;
  (* Account 1: The payer account and owner of the IGP account. *)
  '(payer_info, accounts_iter) ← next_account_info accounts_iter;
  require (is_signer payer_info) MissingRequiredSignature;;
  (* Account 2: The Overhead IGP account to initialize. *)
  '(igp_info, _) ← next_account_info accounts_iter;
  verify_account_uninitialized igp_info;;
  let '(igp_key, igp_bump) := find_program_address pda_seeds program_id in
  require (bool_decide (key igp_info = igp_key)) InvalidSeeds;;
  let igp_account := MkDiscriminatorPrefixed (get_data igp_bump) in
  rent ← lift Rent_get;
  create_pda_account payer_info rent (AccountData.size igp_account) program_id
    system_program_info igp_info (with_bump pda_seeds igp_bump);;
  AccountData.store igp_account igp_info false;;
  mret (key igp_info).
End prefixed.

(** The body of the [for_each] of [set_destination_gas_overheads] and
    [set_gas_oracle_configs]. *)
Definition apply_overhead_config (m : gmap u32 u64) (config : GasOverheadConfig) :
    gmap u32 u64 :=
  match config_gas_overhead config with
  | Some gas_overhead => <[config_destination_domain config := gas_overhead]> m
  | None => delete (config_destination_domain config) m
  end.

Definition apply_oracle_config (m : gmap u32 GasOracle) (config : GasOracleConfig) :
    gmap u32 GasOracle :=
  match config_gas_oracle config with
  | Some gas_oracle => <[config_domain config := gas_oracle]> m
  | None => delete (config_domain config) m
  end.

Section processor.
Context `{Solana, U256Ops, OverflowChecks}.
Context `{BorshSerialize bool, BorshDeserialize bool}.
Context `{BorshSerialize ProgramData, BorshDeserialize ProgramData}.
Context `{BorshSerialize Igp, BorshDeserialize Igp}.
Context `{BorshSerialize OverheadIgp, BorshDeserialize OverheadIgp}.
Context `{BorshSerialize GasPaymentData, BorshDeserialize GasPaymentData}.
Context `{BorshSerialize (SimulationReturnData u64), TryFromSlice Instruction}.

(** The error of a quote, by [?]. *)
Definition quoted (m : outcome Error u64) : prog u64 := lift (map_err ProgramError_from m).

(** [init] *)
Definition init (program_id : Pubkey) (accounts_iter : list AccountInfo) : prog unit :=
  (* Account 0: The system program. *)
  '(system_program_info, accounts_iter) ← next_account_info accounts_iter;
  require (bool_decide (key system_program_info = system_program_id)) IncorrectProgramId;;
  (* Account 1: The payer account. *)
  '(payer_info, accounts_iter) ← next_account_info accounts_iter;
  require (is_signer payer_info) MissingRequiredSignature;;
  (* Account 2: The program data account. *)
  '(program_data_info, _) ← next_account_info accounts_iter;
  verify_account_uninitialized program_data_info;;
  let '(program_data_key, program_data_bump) :=
    find_program_address igp_program_data_pda_seeds program_id in
  require (bool_decide (key program_data_info = program_data_key)) InvalidSeeds;;
  let program_data_account :=
    MkDiscriminatorPrefixed (MkProgramData program_data_bump (uwrap 8 0)) in
  rent ← lift Rent_get;
  create_pda_account payer_info rent (AccountData.size program_data_account) program_id
    system_program_info program_data_info
    (with_bump igp_program_data_pda_seeds program_data_bump);;
  AccountData.store program_data_account program_data_info false.

(** [init_igp] *)
Definition init_igp (program_id : Pubkey) (accounts : list AccountInfo) (data : InitIgp) :
    prog unit :=
  _ ← init_igp_variant program_id accounts
    (λ bump_seed, MkIgp bump_seed (init_salt data) (init_owner data) (init_beneficiary data) ∅)
    (igp_pda_seeds (init_salt data));
  mret tt.

(** [init_overhead_igp] *)
Definition init_overhead_igp (program_id : Pubkey) (accounts : list AccountInfo)
    (data : InitOverheadIgp) : prog unit :=
  _ ← init_igp_variant program_id accounts
    (λ bump_seed, MkOverheadIgp bump_seed (init_oh_salt data) (init_oh_owner data)
                    (init_inner data) ∅)
    (overhead_igp_pda_seeds (init_oh_salt data));
  mret tt.

(** The overhead account of [pay_for_gas]: the gas amount with the overhead, if the optional
    account is given. *)
Definition pay_for_gas_amount (program_id : Pubkey) (accounts_iter : list AccountInfo)
    (igp_info : AccountInfo) (payment : PayForGas) : prog u64 :=
  match accounts_iter with
  | overhead_igp_info :: _ =>
      o ← owner_of overhead_igp_info;
      require (bool_decide (o = program_id)) IncorrectProgramId;;
      overhead_igp ← fetch_prefixed (T := OverheadIgp) overhead_igp_info;
      overhead_igp_key ← lift (create_program_address
        (with_bump (overhead_igp_pda_seeds (oh_salt overhead_igp)) (oh_bump_seed overhead_igp))
        program_id);
      require (bool_decide (overhead_igp_key = key overhead_igp_info) &&
               bool_decide (inner overhead_igp = key igp_info)) InvalidArgument;;
      lift (arith 8 (gas_overhead overhead_igp (pay_destination_domain payment)
                     + pay_gas_amount payment))
  | [] => mret (pay_gas_amount payment)
  end.

(** [pay_for_gas] *)
Definition pay_for_gas (program_id : Pubkey) (accounts_iter : list AccountInfo)
    (payment : PayForGas) : prog unit :=
  (* Account 0: The system program. *)
  '(system_program_info, accounts_iter) ← next_account_info accounts_iter;
  require (bool_decide (key system_program_info = system_program_id)) IncorrectProgramId;;
  (* Account 1: The payer account. *)
  '(payer_info, accounts_iter) ← next_account_info accounts_iter;
  require (is_signer payer_info) MissingRequiredSignature;;
  (* Account 2: The IGP program data. *)
  '(program_data_info, accounts_iter) ← next_account_info accounts_iter;
  program_data ← fetch_prefixed (T := ProgramData) program_data_info;
  expected_program_data_key ← lift (create_program_address
    (with_bump igp_program_data_pda_seeds (pd_bump_seed program_data)) program_id);
  require (bool_decide (key program_data_info = expected_program_data_key)) InvalidSeeds;;
  o ← owner_of program_data_info;
  require (bool_decide (o = program_id)) IncorrectProgramId;;
  (* Account 3: The unique gas payment account. *)
  '(unique_gas_payment_account_info, accounts_iter) ← next_account_info accounts_iter;
  require (is_signer unique_gas_payment_account_info) MissingRequiredSignature;;
  (* Account 4: Gas payment PDA. *)
  '(gas_payment_account_info, accounts_iter) ← next_account_info accounts_iter;
  let '(gas_payment_key, gas_payment_bump) :=
    find_program_address (igp_gas_payment_pda_seeds (key unique_gas_payment_account_info))
      program_id in
  require (bool_decide (key gas_payment_account_info = gas_payment_key)) InvalidSeeds;;
  verify_account_uninitialized gas_payment_account_info;;
  (* Account 5: The IGP account. *)
  '(igp_info, accounts_iter) ← next_account_info accounts_iter;
  o ← owner_of igp_info;
  require (bool_decide (o = program_id)) IncorrectProgramId;;
  igp ← fetch_prefixed (T := Igp) igp_info;
  igp_key ← lift (create_program_address
    (with_bump (igp_pda_seeds (igp_salt igp)) (igp_bump_seed igp)) program_id);
  require (bool_decide (key igp_info = igp_key)) InvalidSeeds;;
  (* Account 6: Overhead IGP account (optional). *)
  gas_amount ← pay_for_gas_amount program_id accounts_iter igp_info payment;
  required_payment ← quoted (quote_gas_payment igp (pay_destination_domain payment) gas_amount);
  (* Transfer the required payment to the IGP. *)
  invoke (system_transfer (key payer_info) (key igp_info) required_payment)
    [payer_info; igp_info];;
  slot ← lift Clock_get_slot;
  let gas_payment_account := MkDiscriminatorPrefixed
    (MkGasPaymentData (payment_count program_data) (key igp_info)
       (pay_destination_domain payment) (pay_message_id payment) gas_amount required_payment
       (key unique_gas_payment_account_info) slot) in
  rent ← lift Rent_get;
  create_pda_account payer_info rent (AccountData.size gas_payment_account) program_id
    system_program_info gas_payment_account_info
    (with_bump (igp_gas_payment_pda_seeds (key unique_gas_payment_account_info))
       gas_payment_bump);;
  AccountData.store gas_payment_account gas_payment_account_info false;;
  (* Increment the payment count and update the program data. *)
  count ← lift (arith 8 (payment_count program_data + 1));
  store_prefixed (MkProgramData (pd_bump_seed program_data) count) program_data_info.

(** The overhead account of [quote_gas_payment]. *)
Definition quote_gas_amount_of (program_id : Pubkey) (accounts_iter : list AccountInfo)
    (igp_info : AccountInfo) (payment : QuoteGasPayment) : prog u64 :=
  match accounts_iter with
  | overhead_igp_info :: _ =>
      o ← owner_of overhead_igp_info;
      require (bool_decide (o = program_id)) IncorrectProgramId;;
      overhead_igp ← fetch_prefixed (T := OverheadIgp) overhead_igp_info;
      require (bool_decide (inner overhead_igp = key igp_info)) InvalidArgument;;
      lift (arith 8 (gas_overhead overhead_igp (quote_destination_domain payment)
                     + quote_gas_amount payment))
  | [] => mret (quote_gas_amount payment)
  end.

(** [quote_gas_payment] *)
Definition process_quote_gas_payment (program_id : Pubkey) (accounts_iter : list AccountInfo)
    (payment : QuoteGasPayment) : prog unit :=
  (* Account 0: The system program. *)
  '(system_program_info, accounts_iter) ← next_account_info accounts_iter;
  require (bool_decide (key system_program_info = system_program_id)) IncorrectProgramId;;
  (* Account 1: The IGP account. *)
  '(igp_info, accounts_iter) ← next_account_info accounts_iter;
  o ← owner_of igp_info;
  require (bool_decide (o = program_id)) IncorrectProgramId;;
  (* Account 2: Overhead IGP account (optional). *)
  gas_amount ← quote_gas_amount_of program_id accounts_iter igp_info payment;
  igp ← fetch_prefixed (T := Igp) igp_info;
  required_payment ←
    quoted (quote_gas_payment igp (quote_destination_domain payment) gas_amount);
  b ← lift (borsh_err (serialize (SimulationReturnData_new required_payment)));
  set_return_data b.

(** [set_igp_beneficiary] *)
Definition set_igp_beneficiary (program_id : Pubkey) (accounts_iter : list AccountInfo)
    (beneficiary : Pubkey) : prog unit :=
  '(igp_info, igp, _) ← get_igp_variant_and_verify_owner (T := Igp) program_id accounts_iter;
  store_prefixed (MkIgp (igp_bump_seed igp) (igp_salt igp) (igp_owner igp) beneficiary
                    (gas_oracles igp)) igp_info.

(** [claim] *)
Definition claim (program_id : Pubkey) (accounts_iter : list AccountInfo) : prog unit :=
  (* Account 0: The system program. *)
  '(system_program_info, accounts_iter) ← next_account_info accounts_iter;
  require (bool_decide (key system_program_info = system_program_id)) IncorrectProgramId;;
  (* Account 1: The IGP. *)
  '(igp_info, accounts_iter) ← next_account_info accounts_iter;
  o ← owner_of igp_info;
  require (bool_decide (o = program_id)) IncorrectProgramId;;
  igp ← fetch_prefixed (T := Igp) igp_info;
  expected_igp_key ← lift (create_program_address
    (with_bump (igp_pda_seeds (igp_salt igp)) (igp_bump_seed igp)) program_id);
  require (bool_decide (key igp_info = expected_igp_key)) InvalidSeeds;;
  (* Account 2: The IGP beneficiary. *)
  '(igp_beneficiary, _) ← next_account_info accounts_iter;
  require (bool_decide (key igp_beneficiary = beneficiary igp)) InvalidArgument;;
  rent ← lift Rent_get;
  len ← data_len igp_info;
  let required_balance := minimum_balance rent len in
  balance ← lamports_of igp_info;
  let transfer_amount := Z.max (uval balance - uval required_balance) 0 in
  igp_lamports ← lamports_of igp_info;
  l ← lift (arith 8 (uval igp_lamports - transfer_amount));
  set_lamports igp_info l;;
  beneficiary_lamports ← lamports_of igp_beneficiary;
  l ← lift (arith 8 (uval beneficiary_lamports + transfer_amount));
  set_lamports igp_beneficiary l;;
  verify_rent_exempt igp_info rent.

(** [set_destination_gas_overheads] *)
Definition set_destination_gas_overheads (program_id : Pubkey)
    (accounts_iter : list AccountInfo) (configs : list GasOverheadConfig) : prog unit :=
  (* Account 0: System program. *)
  '(system_program_info, accounts_iter) ← next_account_info accounts_iter;
  require (bool_decide (key system_program_info = system_program_id)) IncorrectProgramId;;
  '(overhead_igp_info, overhead_igp, owner_info) ←
    get_igp_variant_and_verify_owner (T := OverheadIgp) program_id accounts_iter;
  let overhead_igp := MkOverheadIgp (oh_bump_seed overhead_igp) (oh_salt overhead_igp)
    (oh_owner overhead_igp) (inner overhead_igp)
    (foldl apply_overhead_config (gas_overheads overhead_igp) configs) in
  rent ← lift Rent_get;
  AccountData.store_with_rent_exempt_realloc (MkDiscriminatorPrefixed overhead_igp)
    overhead_igp_info rent owner_info.

(** [set_gas_oracle_configs] *)
Definition set_gas_oracle_configs (program_id : Pubkey) (accounts_iter : list AccountInfo)
    (configs : list GasOracleConfig) : prog unit :=
  (* Account 0: System program. *)
  '(system_program_info, accounts_iter) ← next_account_info accounts_iter;
  require (bool_decide (key system_program_info = system_program_id)) IncorrectProgramId;;
  '(igp_info, igp, owner_info) ←
    get_igp_variant_and_verify_owner (T := Igp) program_id accounts_iter;
  let igp := MkIgp (igp_bump_seed igp) (igp_salt igp) (igp_owner igp) (beneficiary igp)
    (foldl apply_oracle_config (gas_oracles igp) configs) in
  rent ← lift Rent_get;
  AccountData.store_with_rent_exempt_realloc (MkDiscriminatorPrefixed igp) igp_info rent
    owner_info.

(** [process_instruction] *)
Definition process_instruction (program_id : Pubkey) (accounts : list AccountInfo)
    (instruction_data : bytes) : prog unit :=
  ixn ← lift (borsh_err (try_from_slice instruction_data));
  match ixn with
  | Init => init program_id accounts
  | InitIgpIxn data => init_igp program_id accounts data
  | InitOverheadIgpIxn data => init_overhead_igp program_id accounts data
  | PayForGasIxn payment => pay_for_gas program_id accounts payment
  | QuoteGasPaymentIxn payment => process_quote_gas_payment program_id accounts payment
  | TransferIgpOwnership new_owner =>
      transfer_igp_variant_ownership (T := Igp) program_id accounts new_owner
  | TransferOverheadIgpOwnership new_owner =>
      transfer_igp_variant_ownership (T := OverheadIgp) program_id accounts new_owner
  | SetIgpBeneficiary beneficiary => set_igp_beneficiary program_id accounts beneficiary
  | Claim => claim program_id accounts
  | SetDestinationGasOverheads configs =>
      set_destination_gas_overheads program_id accounts configs
  | SetGasOracleConfigs configs => set_gas_oracle_configs program_id accounts configs
  end.
End processor.
