(* ===== verification/IgpCorrect.v ===== *)
(** * Correctness of the interchain gas paymaster *)

From S2P Require Import Prelude.
From S2P Require Import Codec.
From S2P Require Import U256.
From S2P Require Import Sealevel.
From S2P Require Import AccountUtils.
From S2P Require Import Interfaces.
From S2P Require Import Igp.
From stdpp Require Import base gmap list numbers strings sets.
From Stdlib Require Import ZArith Lia.

#[local] Open Scope Z_scope.

(** ** The quote *)

(** The price of [gas] in lamports, by exact arithmetic: rounded down to the remote token's
    smallest unit, then to lamports. *)
Definition quote_value (data : RemoteGasData) (gas : Z) : Z :=
  let origin_cost := gas * gas_price data * token_exchange_rate data / 10 ^ 19 in
  if 9 <? uval (token_decimals data) then origin_cost / 10 ^ (token_decimals data - 9)
  else origin_cost * 10 ^ (9 - token_decimals data).

(** When every intermediate result fits in 256 bits and the price in 64. *)
Definition quotable (data : RemoteGasData) (gas : Z) : bool :=
  (gas * gas_price data * token_exchange_rate data <? 2 ^ 256) &&
  (uval (token_decimals data) <=? 86) && (quote_value data gas <? 2 ^ 64).

Lemma quote_value_mono data g g' :
  0 <= g <= g' -> quote_value data g <= quote_value data g'.
Proof.
  intros Hg. unfold quote_value. pose proof (uval_range (gas_price data)) as Hp.
  pose proof (uval_range (token_exchange_rate data)) as Hr.
  assert (Ho : g * gas_price data * token_exchange_rate data / 10 ^ 19 <=
               g' * gas_price data * token_exchange_rate data / 10 ^ 19).
  { apply Z.div_le_mono; [reflexivity|]. apply Z.mul_le_mono_nonneg_r; [lia|].
    apply Z.mul_le_mono_nonneg_r; lia. }
  destruct (Z.ltb_spec 9 (token_decimals data)).
  - apply Z.div_le_mono; [apply Z.pow_pos_nonneg; lia|done].
  - apply Z.mul_le_mono_nonneg_r; [apply Z.pow_nonneg; lia|done].
Qed.

Lemma quote_value_nonneg data (g : Z) : 0 <= g -> 0 <= quote_value data g.
Proof.
  intros Hg. unfold quote_value. pose proof (uval_range (gas_price data)) as Hp.
  pose proof (uval_range (token_exchange_rate data)) as Hr.
  assert (0 <= g * gas_price data * token_exchange_rate data / 10 ^ 19).
  { apply Z.div_pos; [|reflexivity]. apply Z.mul_nonneg_nonneg; [|lia].
    apply Z.mul_nonneg_nonneg; lia. }
  destruct (Z.ltb_spec 9 (token_decimals data)).
  - apply Z.div_pos; [done|apply Z.pow_pos_nonneg; lia].
  - apply Z.mul_nonneg_nonneg; [done|apply Z.pow_nonneg; lia].
Qed.

Lemma quotable_range data gas :
  0 <= gas -> quotable data gas = true -> 0 <= quote_value data gas < umax 8.
Proof.
  intros Hg Hq. unfold quotable in Hq. apply andb_prop in Hq as [_ Hq]. apply Z.ltb_lt in Hq.
  split; [by apply quote_value_nonneg|done].
Qed.

Lemma quotable_mono data gas gas' :
  0 <= gas <= gas' -> quotable data gas' = true -> quotable data gas = true.
Proof.
  intros Hg Hq. unfold quotable in *. pose proof (quote_value_mono data _ _ Hg).
  apply andb_prop in Hq as [Hq Hv]. apply andb_prop in Hq as [Hp Hd].
  apply Z.ltb_lt in Hp, Hv. rewrite Hd. rewrite !(proj2 (Z.ltb_lt _ _)); [done|lia|].
  pose proof (uval_range (gas_price data)). pose proof (uval_range (token_exchange_rate data)).
  apply Z.le_lt_trans with (gas' * gas_price data * token_exchange_rate data); [|done].
  apply Z.mul_le_mono_nonneg_r; [lia|]. apply Z.mul_le_mono_nonneg_r; lia.
Qed.

Section quotes.
Context `{U256Laws, OverflowChecks}.

(** A product of the 256-bit operations, with the value of the result when there is one. *)
Lemma u256_mul_val a b :
  u256_mul a b = if uval a * uval b <? 2 ^ 256 then Some (uwrap 32 (uval a * uval b)) else None.
Proof.
  rewrite u256_mul_exact. unfold exactly. pose proof (uval_range a). pose proof (uval_range b).
  rewrite (proj2 (Z.leb_le 0 _)) by (apply Z.mul_nonneg_nonneg; lia). done.
Qed.

Lemma u256_div_val (a b : U256) :
  0 < uval b -> u256_div a b = Some (uwrap 32 (uval a / uval b)).
Proof.
  intros Hb. rewrite u256_div_exact by done. apply exactly_fits.
  pose proof (uval_range a) as Ha. split; [apply Z.div_pos; lia|].
  apply Z.le_lt_trans with (uval a); [|lia]. apply Z.div_le_upper_bound; [lia|]. nia.
Qed.

(** [10^d] for the difference [d] of two decimals. *)
Lemma pow10_val d :
  0 <= d < 256 ->
  u256_pow (u256_from (uwrap 8 10)) (u256_from (uwrap 1 d)) =
  if d <=? 77 then Some (uwrap 32 (10 ^ d)) else None.
Proof. intros Hd. rewrite u256_pow_exact. by apply exactly_pow10. Qed.

Lemma convert_decimals_val (num : U256) (from : u8) :
  convert_decimals num from SOL_DECIMALS =
  if 9 <? uval from then
    if from - 9 <=? 77 then Some (uwrap 32 (num / 10 ^ (from - 9))) else None
  else if num * 10 ^ (9 - from) <? 2 ^ 256 then Some (uwrap 32 (num * 10 ^ (9 - from)))
  else None.
Proof.
  unfold convert_decimals. change (uval SOL_DECIMALS) with 9. urange from. urange num.
  destruct (Z.compare_spec from 9) as [He|Hl|Hg].
  - rewrite He. change (10 ^ (9 - 9)) with 1. rewrite Z.mul_1_r.
    rewrite (proj2 (Z.ltb_lt num _)) by lia. by rewrite uwrap_uval.
  - rewrite pow10_val by lia. rewrite (proj2 (Z.leb_le (9 - from) 77)) by lia.
    rewrite (proj2 (Z.ltb_ge 9 from)) by lia. rewrite some_bind, u256_mul_val.
    rewrite uwrap_val; [done|apply Z.pow_nonneg; lia|].
    apply Z.ltb_lt, pow10_fits; lia.
  - rewrite pow10_val by lia. rewrite (proj2 (Z.ltb_lt 9 from)) by lia.
    destruct (Z.leb_spec (from - 9) 77) as [Hd|Hd]; [|done].
    assert (Hv : uval (uwrap 32 (10 ^ (from - 9))) = 10 ^ (from - 9)).
    { apply uwrap_val; [apply Z.pow_nonneg; lia|]. apply Z.ltb_lt, pow10_fits; lia. }
    rewrite some_bind, u256_div_val; rewrite Hv; [done|]. apply Z.pow_pos_nonneg; lia.
Qed.

Lemma as_u64_val (v : Z) :
  0 <= v -> v < 2 ^ 256 ->
  u256_as_u64 (uwrap 32 v) = if v <? 2 ^ 64 then Some (uwrap 8 v) else None.
Proof.
  intros Hv Hlt. rewrite u256_as_u64_exact, uwrap_val by (by try apply Z.ltb_lt).
  unfold exactly. by rewrite (proj2 (Z.leb_le 0 v)) by done.
Qed.

(** The cost in the smallest unit of the remote token's scale. *)
Lemma origin_cost_val {A} (data : RemoteGasData) (gas : u64) (k : U256 -> option A) :
  let p := gas * gas_price data * token_exchange_rate data in
  (destination_gas_cost ← u256_mul (u256_from gas) (u256_from (gas_price data));
   scaled ← u256_mul destination_gas_cost (u256_from (token_exchange_rate data));
   origin_cost ← u256_div scaled (u256_from TOKEN_EXCHANGE_RATE_SCALE);
   k origin_cost) =
  if p <? 2 ^ 256 then k (uwrap 32 (p / 10 ^ 19)) else None.
Proof.
  intros p. urange gas. urange (gas_price data). urange (token_exchange_rate data).
  rewrite u256_mul_val, !u256_from_exact by lia.
  assert (Hc : 0 <= gas * gas_price data < 2 ^ 256) by nia.
  rewrite (proj2 (Z.ltb_lt (gas * gas_price data) _)) by lia.
  rewrite some_bind, u256_mul_val, u256_from_exact by lia.
  rewrite uwrap_val by (lia || by apply Z.ltb_lt). fold p.
  destruct (p <? 2 ^ 256) eqn:Hp; [|done].
  assert (Hs : uval (u256_from TOKEN_EXCHANGE_RATE_SCALE) = 10 ^ 19)
    by (by rewrite u256_from_exact by lia).
  rewrite some_bind, u256_div_val by (by rewrite Hs).
  rewrite Hs, uwrap_val by (unfold p; nia || done). done.
Qed.

(** The quote of an oracle: the exact price, or a panic. *)
Lemma quote_gas_payment_eq (self : Igp) destination_domain (gas : u64) data :
  gas_oracles self !! destination_domain = Some (OracleRemoteGasData data) ->
  quote_gas_payment self destination_domain gas =
  if quotable data gas then Ok (uwrap 8 (quote_value data gas)) else Panic.
Proof.
  intros Ho. unfold quote_gas_payment. rewrite Ho. cbn [ok_or mbind outcome_bind].
  rewrite origin_cost_val. unfold quotable, quote_value.
  urange gas. urange (gas_price data). urange (token_exchange_rate data).
  set (p := gas * _ * _). assert (Hp0 : 0 <= p) by (unfold p; nia). clearbody p.
  destruct (p <? 2 ^ 256) eqn:Hp; [|done]. cbn [andb].
  assert (Ho0 : 0 <= p / 10 ^ 19 < 2 ^ 256).
  { apply Z.ltb_lt in Hp. split; [by apply Z.div_pos|].
    apply Z.le_lt_trans with p; [|done]. by apply Z.div_le_upper_bound; [|lia]. }
  assert (Hov : uval (uwrap 32 (p / 10 ^ 19)) = p / 10 ^ 19)
    by (apply uwrap_val; [lia|apply Z.ltb_lt; lia]).
  rewrite convert_decimals_val, Hov. set (o := p / 10 ^ 19) in *. clearbody o.
  urange (token_decimals data).
  destruct (Z.ltb_spec 9 (token_decimals data)) as [Hd|Hd].
  - destruct (Z.leb_spec (token_decimals data - 9) 77) as [Hs|Hs].
    + rewrite (proj2 (Z.leb_le (token_decimals data) 86)) by lia. cbn [andb].
      assert (0 < 10 ^ (token_decimals data - 9)) by (apply Z.pow_pos_nonneg; lia).
      rewrite some_bind, as_u64_val.
      * by destruct (_ <? 2 ^ 64).
      * apply Z.div_pos; lia.
      * apply Z.le_lt_trans with o; [|lia]. apply Z.div_le_upper_bound; nia.
    + rewrite (proj2 (Z.leb_gt (token_decimals data) 86)) by lia. done.
  - rewrite (proj2 (Z.leb_le (token_decimals data) 86)) by lia. cbn [andb].
    assert (0 < 10 ^ (9 - token_decimals data)) by (apply Z.pow_pos_nonneg; lia).
    set (v := o * _) in *. assert (0 <= v) by (unfold v; nia).
    destruct (Z.ltb_spec v (2 ^ 256)) as [Hv|Hv].
    + rewrite some_bind, as_u64_val by done. by destruct (v <? 2 ^ 64).
    + rewrite (proj2 (Z.ltb_ge v (2 ^ 64))) by lia. done.
Qed.
End quotes.

(** ** The configuration of the maps: the last configuration of a domain wins *)

Lemma overhead_configs_lookup configs m d :
  foldl apply_overhead_config m configs !! d =
  match last_config config_destination_domain d configs with
  | Some c => config_gas_overhead c
  | None => m !! d
  end.
Proof. exact (configs_lookup config_destination_domain config_gas_overhead configs m d). Qed.

Lemma oracle_configs_lookup configs m d :
  foldl apply_oracle_config m configs !! d =
  match last_config config_domain d configs with
  | Some c => config_gas_oracle c
  | None => m !! d
  end.
Proof. exact (configs_lookup config_domain config_gas_oracle configs m d). Qed.

(** ** Reading and writing the accounts *)

#[export] Instance Igp_discriminator_length :
  TCEq (length (DISCRIMINATOR Igp)) Discriminator_LENGTH := TCEq_refl _.
#[export] Instance OverheadIgp_discriminator_length :
  TCEq (length (DISCRIMINATOR OverheadIgp)) Discriminator_LENGTH := TCEq_refl _.
#[export] Instance ProgramData_discriminator_length :
  TCEq (length (DISCRIMINATOR ProgramData)) Discriminator_LENGTH := TCEq_refl _.
#[export] Instance GasPaymentData_discriminator_length :
  TCEq (length (DISCRIMINATOR GasPaymentData)) Discriminator_LENGTH := TCEq_refl _.

Section stored.
Context `{SolanaLaws, BorshSerialize bool, BorshDeserialize bool, !BorshBool}.
Context {T : Type} `{DiscriminatorData T, BorshSerialize T, BorshDeserialize T}.
Context `{!BorshLaws T, !TCEq (length (DISCRIMINATOR T)) Discriminator_LENGTH, Default T}.

(** The account [k] belongs to the program and holds [x]; nothing holds its data. *)
Definition stored_at (program_id : Pubkey) (w : world) (k : Pubkey) (x : T) : Prop :=
  k ∉ borrowed w /\
  AccountData.fetch (T := DiscriminatorPrefixed T) (fst (content w k)) =
    Ok (MkDiscriminatorPrefixed x) /\
  snd (content w k) = program_id.

Lemma fetch_prefixed_ok i w r :
  fetch_prefixed i w = Ok r <->
  stored_at (snd (content w (key i))) w (key i) (fst r) /\ snd r = w.
Proof.
  unfold fetch_prefixed, stored_at. split.
  - intros Hf. do 2 (prog_step Hf). injection Hf as <-. cbn. by destruct x.
  - destruct r as [x w']. cbn [fst snd]. intros [(Hb & Hf & _) ->].
    prog_run (proj2 (data_of_ok i w _) (conj Hb eq_refl)).
    prog_run (lift_Ok _ _ w Hf). done.
Qed.

(** What a stored account holds is what was stored. *)
Lemma content_stored program_id w k x b tail :
  k ∉ borrowed w -> serialize (MkDiscriminatorPrefixed x) = Ok b ->
  content w k = (byte 1 :: b ++ tail, program_id) -> stored_at program_id w k x.
Proof.
  intros Hb Hx Hc. unfold stored_at. rewrite Hc. split_and!; [done| |done].
  by apply fetch_stored.
Qed.

Lemma get_variant_ok `{AccessControl T} program_id accts w r :
  get_igp_variant_and_verify_owner program_id accts w = Ok r <->
  exists ii oi rest x, accts = ii :: oi :: rest /\ stored_at program_id w (key ii) x /\
    is_signer oi = true /\ ac_owner x = Some (key oi) /\ r = ((ii, x, oi), w).
Proof.
  unfold get_igp_variant_and_verify_owner. split.
  - intros Hg. do 3 (prog_step Hg). apply st_bind_ok in Hg as (x & w1 & Hf & Hg).
    apply fetch_prefixed_ok in Hf as [Hs Hw]. cbn [fst snd] in Hs, Hw. subst w1.
    do 2 (prog_step Hg). injection Hg as <-. subst.
    match goal with He : ensure_owner_signer _ _ = _ |- _ =>
      apply ensure_owner_signer_ok in He as [Hsig Ho] end.
    eexists _, _, _, x. split_and!; done.
  - intros (ii & oi & rest & x & -> & Hs & Hsig & Ho & ->). destruct Hs as (Hb & Hf & Hown).
    prog_run (@next_cons ii (oi :: rest) w).
    prog_run (proj2 (owner_of_ok ii w _) eq_refl).
    prog_run (@require_true _ _ _ IncorrectProgramId w (bool_decide_eq_true_2 _ Hown)).
    assert (Hp : fetch_prefixed ii w = Ok (x, w)) by (by apply fetch_prefixed_ok).
    prog_run Hp. prog_run (@next_cons oi rest w).
    assert (He : ensure_owner_signer x oi = Ok tt) by (by apply ensure_owner_signer_ok).
    prog_run (lift_Ok _ _ w He). done.
Qed.

(** An administered variant: the signing owner changed the account by [f] and nothing else. *)
Definition administered `{AccessControl T} (program_id : Pubkey) (accts : list AccountInfo)
    (f : T -> T) (w : world) (r : unit * world) : Prop :=
  exists pre ii oi rest x w', accts = pre ++ ii :: oi :: rest /\ r = (tt, w') /\
    stored_at program_id w (key ii) x /\
    is_signer oi = true /\ ac_owner x = Some (key oi) /\
    stored_at program_id w' (key ii) (f x) /\ frame w w' /\
    forall k, k <> key ii -> content w' k = content w k.

Lemma store_administered `{AccessControl T} program_id pre ii oi rest x (f : T -> T) w r :
  stored_at program_id w (key ii) x -> is_signer oi = true -> ac_owner x = Some (key oi) ->
  (exists w' b tail, r = (tt, w') /\ serialize (MkDiscriminatorPrefixed (f x)) = Ok b /\
    frame w w' /\ forall k, content w' k =
      if decide (k = key ii) then (byte 1 :: b ++ tail, snd (content w k)) else content w k) ->
  administered program_id (pre ++ ii :: oi :: rest) f w r.
Proof.
  intros (Hb & Hf & Ho) Hsig Hown (w' & b & tail & -> & Hx & Hfr & Hc).
  exists pre, ii, oi, rest, x, w'. split_and!; try done.
  - apply (content_stored _ _ _ _ b tail); [by destruct Hfr as [_ ->]|done|].
    rewrite Hc, decide_True by done. by rewrite Ho.
  - intros k Hk. by rewrite Hc, decide_False.
Qed.
End stored.

Section programs.
Context `{SolanaLaws, U256Laws, OverflowChecks}.
Context `{BorshSerialize bool, BorshDeserialize bool, !BorshBool}.
Context `{BorshSerialize ProgramData, BorshDeserialize ProgramData, !BorshLaws ProgramData}.
Context `{BorshSerialize Igp, BorshDeserialize Igp, !BorshLaws Igp}.
Context `{BorshSerialize OverheadIgp, BorshDeserialize OverheadIgp, !BorshLaws OverheadIgp}.
Context `{BorshSerialize GasPaymentData, BorshDeserialize GasPaymentData}.
Context `{!BorshLaws GasPaymentData}.
Context `{BorshSerialize (SimulationReturnData u64), TryFromSlice Instruction}.

Definition with_igp_owner (o : option Pubkey) (x : Igp) : Igp :=
  MkIgp (igp_bump_seed x) (igp_salt x) o (beneficiary x) (gas_oracles x).
Definition with_beneficiary (b : Pubkey) (x : Igp) : Igp :=
  MkIgp (igp_bump_seed x) (igp_salt x) (igp_owner x) b (gas_oracles x).
Definition with_oracles (m : gmap u32 GasOracle) (x : Igp) : Igp :=
  MkIgp (igp_bump_seed x) (igp_salt x) (igp_owner x) (beneficiary x) m.
Definition with_overhead_owner (o : option Pubkey) (x : OverheadIgp) : OverheadIgp :=
  MkOverheadIgp (oh_bump_seed x) (oh_salt x) o (inner x) (gas_overheads x).
Definition with_overheads (m : gmap u32 u64) (x : OverheadIgp) : OverheadIgp :=
  MkOverheadIgp (oh_bump_seed x) (oh_salt x) (oh_owner x) (inner x) m.

(** What the instructions of an owner do to an account. *)
Definition igp_update (ixn : Instruction) : option (Igp -> Igp) :=
  match ixn with
  | TransferIgpOwnership o => Some (with_igp_owner o)
  | SetIgpBeneficiary b => Some (with_beneficiary b)
  | SetGasOracleConfigs configs =>
      Some (λ x, with_oracles (foldl apply_oracle_config (gas_oracles x) configs) x)
  | _ => None
  end.

Definition overhead_update (ixn : Instruction) : option (OverheadIgp -> OverheadIgp) :=
  match ixn with
  | TransferOverheadIgpOwnership o => Some (with_overhead_owner o)
  | SetDestinationGasOverheads configs =>
      Some (λ x, with_overheads (foldl apply_overhead_config (gas_overheads x) configs) x)
  | _ => None
  end.

Lemma set_igp_beneficiary_administered program_id accts b w r :
  set_igp_beneficiary program_id accts b w = Ok r ->
  administered (T := Igp) program_id accts (with_beneficiary b) w r.
Proof.
  intros Hs. unfold set_igp_beneficiary in Hs.
  apply st_bind_ok in Hs as ([[ii x] oi] & w1 & Hg & Hs).
  apply get_variant_ok in Hg as (ii' & oi' & rest & x' & -> & Hx & Hsig & Ho & [= -> -> -> ->]).
  apply (store_administered program_id [] _ _ _ x'); [done..|].
  apply store_content in Hs as (_ & _ & w' & c & tail & -> & Hc). by exists w', c, tail.
Qed.

Lemma transfer_administered {T} `{DiscriminatorData T, BorshSerialize T, BorshDeserialize T}
    `{!BorshLaws T, !TCEq (length (DISCRIMINATOR T)) Discriminator_LENGTH, Default T}
    `{AccessControl T} (f : T -> T) program_id accts o w r :
  (forall x, set_owner x o = Ok (f x)) ->
  transfer_igp_variant_ownership (T := T) program_id accts o w = Ok r ->
  administered program_id accts f w r.
Proof.
  intros Hset Hs. unfold transfer_igp_variant_ownership in Hs.
  apply st_bind_ok in Hs as ([[ii x] oi] & w1 & Hg & Hs).
  apply get_variant_ok in Hg as (ii' & oi' & rest & x' & -> & Hx & Hsig & Ho & [= -> -> -> ->]).
  prog_step Hs. match goal with Hn : set_owner _ _ = Ok ?y |- _ =>
    rewrite Hset in Hn; apply (inj Ok) in Hn; subst y end.
  apply (store_administered program_id [] _ _ _ x'); [done..|].
  apply store_content in Hs as (_ & _ & w' & c & tail & -> & Hc). by exists w', c, tail.
Qed.

Lemma set_oracles_administered program_id accts configs w r :
  set_gas_oracle_configs program_id accts configs w = Ok r ->
  administered (T := Igp) program_id accts
    (λ x, with_oracles (foldl apply_oracle_config (gas_oracles x) configs) x) w r.
Proof.
  intros Hs. unfold set_gas_oracle_configs in Hs. do 2 (prog_step Hs).
  apply st_bind_ok in Hs as ([[ii x] oi] & w1 & Hg & Hs).
  apply get_variant_ok in Hg as (ii' & oi' & rest & x' & -> & Hx & Hsig & Ho & [= -> -> -> ->]).
  prog_step Hs. apply (store_administered program_id [_] _ _ _ x'); [done..|].
  apply store_with_rent_exempt_realloc_content in Hs as (_ & _ & w' & c & tail & -> & Hc).
  by exists w', c, tail.
Qed.

Lemma set_overheads_administered program_id accts configs w r :
  set_destination_gas_overheads program_id accts configs w = Ok r ->
  administered (T := OverheadIgp) program_id accts
    (λ x, with_overheads (foldl apply_overhead_config (gas_overheads x) configs) x) w r.
Proof.
  intros Hs. unfold set_destination_gas_overheads in Hs. do 2 (prog_step Hs).
  apply st_bind_ok in Hs as ([[ii x] oi] & w1 & Hg & Hs).
  apply get_variant_ok in Hg as (ii' & oi' & rest & x' & -> & Hx & Hsig & Ho & [= -> -> -> ->]).
  prog_step Hs. apply (store_administered program_id [_] _ _ _ x'); [done..|].
  apply store_with_rent_exempt_realloc_content in Hs as (_ & _ & w' & c & tail & -> & Hc).
  by exists w', c, tail.
Qed.

(** *** [claim] *)

(** The world after writing the lamports of an account. *)
Definition with_lamports (w : world) (k : Pubkey) (l : u64) : world :=
  let a := get_account w k in set_account w k (MkAccount l (acc_data a) (acc_owner a)).

Lemma with_lamports_at w k l k' :
  lamports_at (with_lamports w k l) k' = if decide (k' = k) then uval l else lamports_at w k'.
Proof.
  unfold lamports_at, with_lamports. rewrite get_account_set. by case_decide.
Qed.

Lemma with_lamports_content w k l k' : content (with_lamports w k l) k' = content w k'.
Proof.
  unfold content, with_lamports. rewrite get_account_set. by case_decide; subst.
Qed.

(** What may be claimed: the balance above the rent exemption. *)
Definition claimable (rent : Rent) (w : world) (k : Pubkey) : Z :=
  Z.max (lamports_at w k - minimum_balance rent (length (fst (content w k)))) 0.

Lemma set_lamports_ok i l w r :
  set_lamports i l w = Ok r <-> r = (tt, with_lamports w (key i) l).
Proof. unfold set_lamports. naive_solver. Qed.

Lemma claim_ok program_id accts w r :
  claim program_id accts w = Ok r ->
  exists sys ii bi rest igp rent w',
    let t := claimable rent w (key ii) in
    let mid := with_lamports w (key ii) (uwrap 8 (lamports_at w (key ii) - t)) in
    accts = sys :: ii :: bi :: rest /\ r = (tt, w') /\
    stored_at program_id w (key ii) igp /\
    create_program_address (with_bump (igp_pda_seeds (igp_salt igp)) (igp_bump_seed igp))
      program_id = Ok (key ii) /\
    key bi = beneficiary igp /\ Rent_get = Ok rent /\
    w' = with_lamports mid (key bi) (uwrap 8 (lamports_at mid (key bi) + t)) /\
    is_exempt rent (acc_lamports (get_account w' (key ii)))
      (length (fst (content w (key ii)))) = true.
Proof.
  intros Hc. unfold claim in Hc. do 5 (prog_step Hc).
  apply st_bind_ok in Hc as (igp & w1 & Hf & Hc).
  apply fetch_prefixed_ok in Hf as [Hs Hw]. cbn [fst snd] in Hs, Hw. subst w1.
  do 5 (prog_step Hc). apply st_bind_ok in Hc as (len & w1 & Hl & Hc).
  unfold data_len in Hl. prog_step Hl. injection Hl as <- <-.
  do 2 (prog_step Hc).
  change (uval (acc_lamports (get_account w (key i0)))) with (lamports_at w (key i0)) in Hc.
  match type of Hc with context [Z.max ?t 0] =>
    change (Z.max t 0) with (claimable x0 w (key i0)) in Hc end.
  set (t := claimable x0 w (key i0)) in *.
  prog_step Hc. match goal with Ha : arith _ _ = Ok ?l |- _ => apply arith_ok in Ha; subst l end.
  apply st_bind_ok in Hc as ([] & w1 & Hset & Hc). apply set_lamports_ok in Hset as [= ->].
  set (mid := with_lamports w (key i0) _) in *. do 2 (prog_step Hc).
  match goal with Ha : arith _ _ = Ok ?l |- _ => apply arith_ok in Ha; subst l end.
  apply st_bind_ok in Hc as ([] & w1 & Hset & Hc). apply set_lamports_ok in Hset as [= ->].
  apply verify_rent_exempt_ok in Hc as (_ & -> & Hex).
  rewrite with_lamports_content in Hex. assert (Hm : content mid (key i0) = content w (key i0))
    by apply with_lamports_content. rewrite Hm in Hex. subst.
  eexists _, _, _, _, igp, _, _. cbv zeta.
  split_and!; [done|done|exact Hs|congruence|done|eassumption|reflexivity|exact Hex].
Qed.

(** *** [pay_for_gas] *)

(** The gas to pay for: with the overhead of the account, if one is passed. *)
Definition pays_for (program_id : Pubkey) (w : world) (igp_key : Pubkey)
    (payment : PayForGas) (rest : list AccountInfo) (gas : u64) : Prop :=
  match rest with
  | [] => gas = pay_gas_amount payment
  | info :: _ => exists o, stored_at program_id w (key info) o /\
      create_program_address (with_bump (overhead_igp_pda_seeds (oh_salt o)) (oh_bump_seed o))
        program_id = Ok (key info) /\
      inner o = igp_key /\
      arith (E := ProgramError) 8
        (gas_overhead o (pay_destination_domain payment) + pay_gas_amount payment) = Ok gas
  end.

Lemma pay_for_gas_amount_ok program_id rest igp_info payment w r :
  pay_for_gas_amount program_id rest igp_info payment w = Ok r ->
  pays_for program_id w (key igp_info) payment rest (fst r) /\ snd r = w.
Proof.
  unfold pay_for_gas_amount. destruct rest as [|info rest]; [by intros [= <-]|].
  intros Hp. do 2 (prog_step Hp). apply st_bind_ok in Hp as (o & w1 & Hf & Hp).
  apply fetch_prefixed_ok in Hf as [Hs Hw]. cbn [fst snd] in Hs, Hw. subst w1.
  do 2 (prog_step Hp). apply lift_ok in Hp as (g & Hg & ->). cbn [fst snd].
  repeat match goal with Hb : bool_decide _ = true |- _ => apply bool_decide_eq_true_1 in Hb end.
  split; [|done]. exists o. subst. split_and!; done.
Qed.

(** The accounts and the price a payment settles, before anything is written. *)
Record payable (program_id : Pubkey) (accts : list AccountInfo) (p : PayForGas) (w : world)
    (payer_info data_info unique_info payment_info igp_info : AccountInfo)
    (pd : ProgramData) (igp : Igp) (gas required : u64) : Prop := {
  pay_accounts : exists sys rest,
    accts = sys :: payer_info :: data_info :: unique_info :: payment_info :: igp_info :: rest /\
    pays_for program_id w (key igp_info) p rest gas;
  pay_signers : is_signer payer_info = true /\ is_signer unique_info = true;
  pay_data : stored_at program_id w (key data_info) pd /\
    create_program_address (with_bump igp_program_data_pda_seeds (pd_bump_seed pd)) program_id
      = Ok (key data_info);
  pay_fresh : content w (key payment_info) = ([], system_program_id) /\
    fst (find_program_address (igp_gas_payment_pda_seeds (key unique_info)) program_id)
      = key payment_info;
  pay_igp : stored_at program_id w (key igp_info) igp /\
    create_program_address (with_bump (igp_pda_seeds (igp_salt igp)) (igp_bump_seed igp))
      program_id = Ok (key igp_info);
  pay_price : quote_gas_payment igp (pay_destination_domain p) gas = Ok required
}.

(** The receipt of a payment. *)
Definition receipt (pd : ProgramData) (igp_key : Pubkey) (p : PayForGas)
    (gas required : u64) (unique : Pubkey) (slot : u64) : GasPaymentData :=
  MkGasPaymentData (payment_count pd) igp_key (pay_destination_domain p) (pay_message_id p) gas
    required unique slot.

(** What a payment writes: the receipt, in a new account, and the count. *)
Lemma settle_ok program_id w wt wc ws payer igp_key l infos payer_info rent sys payment_info
    seeds data_info (x : GasPaymentData) pd r :
  program_id <> system_program_id ->
  sol_invoke_signed (system_transfer payer igp_key l) infos [] w = Ok wt ->
  content w (key payment_info) = ([], system_program_id) ->
  stored_at program_id w (key data_info) pd ->
  create_pda_account payer_info rent (AccountData.size (MkDiscriminatorPrefixed x)) program_id
    sys payment_info seeds wt = Ok (tt, wc) ->
  AccountData.store (MkDiscriminatorPrefixed x) payment_info false wc = Ok (tt, ws) ->
  store_prefixed (MkProgramData (pd_bump_seed pd) (uwrap 8 (payment_count pd + 1))) data_info ws
    = Ok r ->
  exists w', r = (tt, w') /\ stored_at program_id w' (key payment_info) x /\
    stored_at program_id w' (key data_info)
      (MkProgramData (pd_bump_seed pd) (uwrap 8 (payment_count pd + 1))) /\
    frame w w' /\ (forall k, k <> key payment_info -> k <> key data_info ->
      content w' k = content w k).
Proof.
  intros Hsys Ht Hnew (Hbd & _ & Hod) Hc Hs Hp.
  assert (Hz : Z.of_nat (AccountData.size (MkDiscriminatorPrefixed x)) < 2 ^ 64) by done.
  destruct (create_store_content _ _ _ _ _ _ _ _ _ _ _ _ Hz Hc Hs)
    as (Hfs & Hbs & b & tail & Hx & Hcs).
  pose proof (invoke_frame _ _ _ _ _ Ht) as Hft.
  assert (Hct : forall k, content wt k = content w k) by (intros k; by eapply transfer_content).
  apply store_content in Hp as (_ & _ & w' & b' & tail' & -> & Hx' & Hfp & Hcp).
  assert (Hne : key payment_info <> key data_info).
  { intros He. rewrite <- He, Hnew in Hod. cbn in Hod. congruence. }
  assert (Hf : frame w w') by (by etrans; [|etrans]). exists w'. split_and!; try done.
  - apply (content_stored _ _ _ _ b tail); [by destruct Hfp as [_ ->]|done|].
    by rewrite Hcp, decide_False, Hcs, decide_True.
  - apply (content_stored _ _ _ _ b' tail'); [by destruct Hf as [_ ->]|done|].
    rewrite Hcp, decide_True by done. rewrite Hcs, decide_False, Hct by done. by rewrite Hod.
  - intros k Hk1 Hk2. by rewrite Hcp, decide_False, Hcs, decide_False.
Qed.

Lemma pay_for_gas_ok program_id accts p w r :
  program_id <> system_program_id ->
  pay_for_gas program_id accts p w = Ok r ->
  exists payer_info data_info unique_info payment_info igp_info pd igp gas required wt slot w',
    payable program_id accts p w payer_info data_info unique_info payment_info igp_info
      pd igp gas required /\
    sol_invoke_signed (system_transfer (key payer_info) (key igp_info) required)
      [payer_info; igp_info] [] w = Ok wt /\
    Clock_get_slot = Ok slot /\ r = (tt, w') /\
    stored_at program_id w' (key payment_info)
      (receipt pd (key igp_info) p gas required (key unique_info) slot) /\
    stored_at program_id w' (key data_info)
      (MkProgramData (pd_bump_seed pd) (uwrap 8 (payment_count pd + 1))) /\
    frame w w' /\ (forall k, k <> key payment_info -> k <> key data_info ->
      content w' k = content w k).
Proof.
  intros Hsys Hp. unfold pay_for_gas in Hp. do 5 (prog_step Hp).
  apply st_bind_ok in Hp as (pd & w1 & Hf & Hp).
  apply fetch_prefixed_ok in Hf as [Hpd Hw]. cbn [fst snd] in Hpd, Hw. subst w1.
  do 7 (prog_step Hp).
  destruct (find_program_address _ _) as [gk gb] eqn:Hgk. prog_step Hp.
  apply st_bind_ok in Hp as ([] & w1 & Hun & Hp).
  apply verify_account_uninitialized_ok in Hun as (_ & Hnew & [= ->]).
  do 3 (prog_step Hp). apply st_bind_ok in Hp as (igp & w1 & Hf & Hp).
  apply fetch_prefixed_ok in Hf as [Higp Hw]. cbn [fst snd] in Higp, Hw. subst w1.
  do 2 (prog_step Hp). apply st_bind_ok in Hp as (gas & w1 & Hgas & Hp).
  apply pay_for_gas_amount_ok in Hgas as [Hgas Hw]. cbn [fst snd] in Hgas, Hw. subst w1.
  unfold quoted in Hp. prog_step Hp.
  match goal with Hq : map_err _ _ = Ok _ |- _ => apply map_err_inv in Hq end.
  do 3 (prog_step Hp).
  apply st_bind_ok in Hp as ([] & wc & Hc & Hp). apply st_bind_ok in Hp as ([] & ws & Hs & Hp).
  prog_step Hp. match goal with Ha : arith _ _ = Ok ?l |- _ => apply arith_ok in Ha; subst l end.
  match goal with Ho1 : acc_owner (get_account w (key i1)) = _,
      Ho4 : acc_owner (get_account w (key i4)) = _ |- _ =>
    change (snd (content w (key i1)) = program_id) in Ho1; rewrite Ho1 in Hpd;
    change (snd (content w (key i4)) = program_id) in Ho4; rewrite Ho4 in Higp end.
  eapply (settle_ok program_id w) in Hp as (w' & -> & Hrec & Hcount & Hfr & Hrest); try done.
  eexists i0, i1, i2, i3, i4, pd, igp, gas, _, _, _, w'.
  split; [split; try done|by split_and!].
  - eexists _, _. by split.
  - split; [done|congruence].
  - split; [done|]. by rewrite Hgk.
  - split; [done|congruence].
Qed.
End programs.
