(* ===== verification/ConcreteIgp.v ===== *)
(** * Concrete instances for the gas paymaster

    The Borsh formats of its derived codecs; a [HashMap] is its size and its entries. Only the
    witnesses use them. *)

From S2P Require Import Prelude.
From S2P Require Import Codec.
From S2P Require Import Sealevel.
From S2P Require Import AccountUtils.
From S2P Require Import Interfaces.
From S2P Require Import Concrete.
From S2P Require Import Igp.
From stdpp Require Import base gmap list numbers strings sets.
From Stdlib Require Import ZArith Lia.

#[local] Open Scope Z_scope.

Import BorshModel.

(** ** Maps of entries, by a codec of the values *)

Section maps.
Context {V : Type} (ser : V -> bytes) (read : slice_reader V).
Hypothesis read_ser : forall v rest, read (ser v ++ rest) = Ok (v, rest).

Definition ser_pair (p : u32 * V) : bytes := to_le (fst p) ++ ser (snd p).
Definition read_pair : slice_reader (u32 * V) :=
  k ← slice_read_exact 4; v ← read; mret (from_le 4 k, v).

Lemma read_pair_app p rest : read_pair (ser_pair p ++ rest) = Ok (p, rest).
Proof.
  destruct p as [k v]. unfold read_pair, ser_pair. cbn [fst snd]. decode.
  rewrite (st_bind_eq _ _ _ _ _ (read_ser v rest)). unfold mret, ST_ret.
  by autorewrite with hyp.
Qed.

Definition ser_map (m : gmap u32 V) : outcome io_error bytes :=
  ser_entries ser_pair (λ _, true) (map_to_list m).
Definition read_map : slice_reader (gmap u32 V) :=
  l ← read_counted read_pair; mret (list_to_map l).

Lemma read_map_app m b rest : ser_map m = Ok b -> read_map (b ++ rest) = Ok (m, rest).
Proof.
  intros Hb. unfold read_map.
  rewrite (st_bind_eq _ _ _ _ _ (read_counted_app _ _ _ (λ p rest _, read_pair_app p rest) _ _ rest Hb)).
  by rewrite list_to_map_to_list.
Qed.
End maps.

Module IgpModel.

Definition ser_oracle (o : GasOracle) : bytes :=
  let '(OracleRemoteGasData d) := o in
  byte 0 :: to_le (token_exchange_rate d) ++ to_le (gas_price d) ++ to_le (token_decimals d).
Definition read_oracle : slice_reader GasOracle :=
  tag ← slice_read_exact 1;
  r ← slice_read_exact 16; p ← slice_read_exact 16; d ← slice_read_exact 1;
  if uval (from_le 1 tag) =? 0 then
    mret (OracleRemoteGasData (MkRemoteGasData (from_le 16 r) (from_le 16 p) (from_le 1 d)))
  else throw InvalidData.

Lemma read_oracle_app o rest : read_oracle (ser_oracle o ++ rest) = Ok (o, rest).
Proof.
  destruct o as [[r p d]]. unfold read_oracle, ser_oracle.
  cbn [token_exchange_rate gas_price token_decimals].
  change ((byte 0 :: ?l) ++ rest) with ([byte 0] ++ l ++ rest). decode.
  change (uval (from_le 1 [byte 0])) with 0. cbn [Z.eqb]. unfold mret, ST_ret.
  by autorewrite with hyp.
Qed.

Lemma read_u64_app (v : u64) rest :
  (b ← slice_read_exact 8; mret (from_le 8 b) : slice_reader u64) (to_le v ++ rest)
    = Ok (v, rest).
Proof. decode. unfold mret, ST_ret. by autorewrite with hyp. Qed.

#[export] Instance ProgramData_ser : BorshSerialize ProgramData := λ d,
  Ok (to_le (pd_bump_seed d) ++ to_le (payment_count d)).
#[export] Instance ProgramData_de : BorshDeserialize ProgramData :=
  b ← slice_read_exact 1; n ← slice_read_exact 8;
  mret (MkProgramData (from_le 1 b) (from_le 8 n)).
#[export] Instance ProgramData_laws : BorshLaws ProgramData.
Proof.
  intros [b n] s rest Hs. apply (inj Ok) in Hs as <-. unfold deserialize, ProgramData_de.
  cbn [pd_bump_seed payment_count]. decode. unfold mret, ST_ret. by autorewrite with hyp.
Qed.

#[export] Instance Igp_ser : BorshSerialize Igp := λ i,
  m ← ser_map ser_oracle (gas_oracles i);
  Ok (to_le (igp_bump_seed i) ++ to_be (igp_salt i) ++ ser_option (igp_owner i)
      ++ to_be (beneficiary i) ++ m).
#[export] Instance Igp_de : BorshDeserialize Igp :=
  b ← slice_read_exact 1; s ← slice_read_exact 32; o ← read_option;
  k ← slice_read_exact 32; m ← read_map read_oracle;
  mret (MkIgp (from_le 1 b) (from_be 32 s) o (from_be 32 k) m).
#[export] Instance Igp_laws : BorshLaws Igp.
Proof.
  intros [b s o k m] e rest Hs. unfold serialize, Igp_ser in Hs.
  apply bind_ok in Hs as (sm & Hm & Hs). apply (inj Ok) in Hs as <-. unfold deserialize, Igp_de.
  cbn [igp_bump_seed igp_salt igp_owner beneficiary gas_oracles] in *. decode.
  rewrite (st_bind_eq _ _ _ _ _ (read_option_app o _)). decode.
  rewrite (st_bind_eq _ _ _ _ _ (read_map_app _ _ read_oracle_app m _ _ Hm)).
  unfold mret, ST_ret. by autorewrite with hyp.
Qed.

Definition read_u64 : slice_reader u64 := b ← slice_read_exact 8; mret (from_le 8 b).

#[export] Instance OverheadIgp_ser : BorshSerialize OverheadIgp := λ i,
  m ← ser_map (λ v : u64, to_le v) (gas_overheads i);
  Ok (to_le (oh_bump_seed i) ++ to_be (oh_salt i) ++ ser_option (oh_owner i)
      ++ to_be (inner i) ++ m).
#[export] Instance OverheadIgp_de : BorshDeserialize OverheadIgp :=
  b ← slice_read_exact 1; s ← slice_read_exact 32; o ← read_option;
  k ← slice_read_exact 32; m ← read_map read_u64;
  mret (MkOverheadIgp (from_le 1 b) (from_be 32 s) o (from_be 32 k) m).
#[export] Instance OverheadIgp_laws : BorshLaws OverheadIgp.
Proof.
  intros [b s o k m] e rest Hs. unfold serialize, OverheadIgp_ser in Hs.
  apply bind_ok in Hs as (sm & Hm & Hs). apply (inj Ok) in Hs as <-.
  unfold deserialize, OverheadIgp_de.
  cbn [oh_bump_seed oh_salt oh_owner inner gas_overheads] in *. decode.
  rewrite (st_bind_eq _ _ _ _ _ (read_option_app o _)). decode.
  rewrite (st_bind_eq _ _ _ _ _ (read_map_app _ _ read_u64_app m _ _ Hm)).
  unfold mret, ST_ret. by autorewrite with hyp.
Qed.

#[export] Instance GasPaymentData_ser : BorshSerialize GasPaymentData := λ d,
  Ok (to_le (sequence_number d) ++ to_be (payment_igp d) ++ to_le (payment_destination_domain d)
      ++ to_be (payment_message_id d) ++ to_le (payment_gas_amount d) ++ to_le (payment d)
      ++ to_be (unique_gas_payment_pubkey d) ++ to_le (payment_slot d)).
#[export] Instance GasPaymentData_de : BorshDeserialize GasPaymentData :=
  n ← slice_read_exact 8; i ← slice_read_exact 32; d ← slice_read_exact 4;
  m ← slice_read_exact 32; g ← slice_read_exact 8; p ← slice_read_exact 8;
  u ← slice_read_exact 32; s ← slice_read_exact 8;
  mret (MkGasPaymentData (from_le 8 n) (from_be 32 i) (from_le 4 d) (from_be 32 m)
          (from_le 8 g) (from_le 8 p) (from_be 32 u) (from_le 8 s)).
#[export] Instance GasPaymentData_laws : BorshLaws GasPaymentData.
Proof.
  intros [n i d m g p u s] e rest Hs. apply (inj Ok) in Hs as <-.
  unfold deserialize, GasPaymentData_de.
  cbn [sequence_number payment_igp payment_destination_domain payment_message_id
       payment_gas_amount payment unique_gas_payment_pubkey payment_slot].
  decode. unfold mret, ST_ret. by autorewrite with hyp.
Qed.

#[export] Instance srd_ser_u64 : BorshSerialize (SimulationReturnData u64) := λ d,
  Ok (to_le (srd_return_data d) ++ [trailing_byte d]).

(** The instructions without a map or a list, by variant number. *)
#[export] Instance Instruction_try : TryFromSlice Instruction :=
  whole (tag ← slice_read_exact 1;
    let tag := uval (from_le 1 tag) in
    if tag =? 0 then mret Init
    else if tag =? 5 then o ← read_option; mret (TransferIgpOwnership o)
    else if tag =? 6 then o ← read_option; mret (TransferOverheadIgpOwnership o)
    else if tag =? 7 then k ← slice_read_exact 32; mret (SetIgpBeneficiary (from_be 32 k))
    else if tag =? 10 then mret Claim
    else throw InvalidData).

End IgpModel.
