(* ===== verification/IgpTheorems.v ===== *)
(** * Properties of the interchain gas paymaster, with their witnesses *)

From S2P Require Import Prelude.
From S2P Require Import Codec.
From S2P Require Import U256.
From S2P Require Import Sealevel.
From S2P Require Import AccountUtils.
From S2P Require Import Interfaces.
From S2P Require Import Igp.
From S2P Require Import IgpCorrect.
From S2P Require Import Concrete.
From S2P Require Import ConcreteIgp.
From stdpp Require Import base gmap list numbers strings sets.
From Stdlib Require Import ZArith Lia.

#[local] Open Scope Z_scope.

Section quotes.
Context `{U256Laws, OverflowChecks}.

(** C38. A quote is the exact price. Without an oracle for the domain it is refused; with
    one it is [floor(floor(gas * gas_price * rate / 10^19) * 10^(9 - decimals))] lamports,
    where a negative exponent divides, and it panics exactly when the product does not fit in
    256 bits, the remote token has more than 86 decimals or the price does not fit in 64
    bits. So less gas is never quoted at a higher price. *)
Theorem quote_gas_payment_spec (self : Igp) destination_domain (gas : u64) :
  quote_gas_payment self destination_domain gas =
    match gas_oracles self !! destination_domain with
    | None => Err NoGasOracleSetForDestinationDomain
    | Some (OracleRemoteGasData data) =>
        if quotable data gas then Ok (uwrap 8 (quote_value data gas)) else Panic
    end /\
  forall (gas' price : u64), gas' <= gas ->
    quote_gas_payment self destination_domain gas = Ok price ->
    exists price' : u64, quote_gas_payment self destination_domain gas' = Ok price' /\
      price' <= price.
Proof.
  split.
  - destruct (gas_oracles self !! destination_domain) as [[data]|] eqn:Ho.
    + by apply quote_gas_payment_eq.
    + unfold quote_gas_payment. by rewrite Ho.
  - intros gas' price Hle Hq. pose proof (uval_range gas') as Hg.
    destruct (gas_oracles self !! destination_domain) as [[data]|] eqn:Ho;
      [|unfold quote_gas_payment in Hq; by rewrite Ho in Hq].
    rewrite (quote_gas_payment_eq _ _ _ data Ho) in Hq.
    rewrite (quote_gas_payment_eq _ _ gas' data Ho).
    destruct (quotable data gas) eqn:Hqt; [|done]. injection Hq as <-.
    pose proof (quotable_mono data gas' gas ltac:(lia) Hqt) as Hqt'. rewrite Hqt'.
    eexists. split; [done|].
    pose proof (uval_range gas) as Hg'.
    rewrite !uval_uwrap_small by (apply quotable_range; [lia|done]). apply quote_value_mono. lia.
Qed.
End quotes.

Section programs.
Context `{SolanaLaws, U256Laws, OverflowChecks}.
Context `{BorshSerialize bool, BorshDeserialize bool, !BorshBool}.
Context `{BorshSerialize ProgramData, BorshDeserialize ProgramData, !BorshLaws ProgramData}.
Context `{BorshSerialize Igp, BorshDeserialize Igp, !BorshLaws Igp}.
Context `{BorshSerialize OverheadIgp, BorshDeserialize OverheadIgp, !BorshLaws OverheadIgp}.
Context `{BorshSerialize GasPaymentData, BorshDeserialize GasPaymentData}.
Context `{!BorshLaws GasPaymentData}.
Context `{BorshSerialize (SimulationReturnData u64), TryFromSlice Instruction}.

(** C21. A gas payment transfers exactly the quoted price and leaves a receipt that is never
    overwritten. When [pay_for_gas] succeeds, the paymaster and the program data are the
    accounts of their addresses, owned by the program; the gas is the requested amount plus
    the overhead of the overhead account, if one is passed and points to this paymaster; the
    transfer of the quote for it, from the signing payer to the paymaster, succeeded; the new
    account of the unique signer holds the receipt with the sequence number of the payment,
    the count is incremented, and no other account's data or owner changed. While the receipt
    stays, no payment with the same unique signer succeeds. *)
Theorem pay_for_gas_spec (program_id : Pubkey) accts (p : PayForGas) w r
    (Hsys : program_id <> system_program_id)
    (Hp : pay_for_gas program_id accts p w = Ok r) :
  exists payer_info data_info unique_info payment_info igp_info pd igp gas required wt slot w',
    payable program_id accts p w payer_info data_info unique_info payment_info igp_info
      pd igp gas required /\
    sol_invoke_signed (system_transfer (key payer_info) (key igp_info) required)
      [payer_info; igp_info] [] w = Ok wt /\
    Clock_get_slot = Ok slot /\ r = (tt, w') /\
    stored_at program_id w' (key payment_info)
      (receipt pd (key igp_info) p gas required (key unique_info) slot) /\
    stored_at program_id w' (key data_info)
      (MkProgramData (pd_bump_seed pd) (uwrap 8 (payment_count pd + 1))) /\
    (forall k, k <> key payment_info -> k <> key data_info -> content w' k = content w k) /\
    forall a0 a1 a2 unique_info' rest p' w2 r2, key unique_info' = key unique_info ->
      content w2 (key payment_info) = content w' (key payment_info) ->
      pay_for_gas program_id (a0 :: a1 :: a2 :: unique_info' :: rest) p' w2 <> Ok r2.
Proof.
  destruct (pay_for_gas_ok _ _ _ _ _ Hsys Hp) as (py & di & ui & gi & ii & pd & igp & gas & rq &
    wt & slot & w' & Hpay & Ht & Hs & -> & Hrec & Hcount & _ & Hrest).
  exists py, di, ui, gi, ii, pd, igp, gas, rq, wt, slot, w'.
  split_and!; try done; try apply Hrec; try apply Hcount.
  intros a0 a1 a2 ui' rest p' w2 r2 Hu Hc Hp2.
  destruct (pay_for_gas_ok _ _ _ _ _ Hsys Hp2) as (py2 & di2 & ui2 & gi2 & ii2 & pd2 & igp2 &
    gas2 & rq2 & wt2 & slot2 & w3 & Hpay2 & _).
  destruct (pay_accounts _ _ _ _ _ _ _ _ _ _ _ _ _ Hpay2) as (sys2 & rest2 & Ha & _).
  injection Ha as -> -> -> -> ->.
  destruct (pay_fresh _ _ _ _ _ _ _ _ _ _ _ _ _ Hpay) as [_ Hk].
  destruct (pay_fresh _ _ _ _ _ _ _ _ _ _ _ _ _ Hpay2) as [Hnew Hk2].
  rewrite Hu, Hk in Hk2. rewrite <- Hk2, Hc in Hnew.
  destruct Hrec as (_ & _ & Ho). rewrite Hnew in Ho. cbn in Ho. congruence.
Qed.

(** A paymaster or overhead account changes only at the will of its owner. An instruction
    that transfers its ownership, sets the beneficiary or sets oracles or overheads succeeds
    only on an account of the program whose current owner signs; it leaves the account as the
    update of the instruction says, in which the last configuration of a domain wins and a
    domain without one keeps what it had, and changes no other account's data or owner. *)
Theorem igp_admin_spec (program_id : Pubkey) accts data ixn w r
    (Hi : try_from_slice data = Ok ixn)
    (Hp : process_instruction program_id accts data w = Ok r) :
  (forall f, igp_update ixn = Some f -> administered (T := Igp) program_id accts f w r) /\
  (forall f, overhead_update ixn = Some f ->
    administered (T := OverheadIgp) program_id accts f w r) /\
  (forall configs m d, foldl apply_oracle_config m configs !! d =
    match last_config config_domain d configs with
    | Some c => config_gas_oracle c | None => m !! d end) /\
  (forall configs m d, foldl apply_overhead_config m configs !! d =
    match last_config config_destination_domain d configs with
    | Some c => config_gas_overhead c | None => m !! d end).
Proof.
  unfold process_instruction in Hp. rewrite Hi in Hp.
  prog_step Hp. match goal with Hx : borsh_err _ = Ok _ |- _ => injection Hx as <- end.
  split_and!; [intros f Hf|intros f Hf|apply oracle_configs_lookup|apply overhead_configs_lookup];
    destruct ixn; try done; injection Hf as <-.
  - by apply (transfer_administered (with_igp_owner new_owner)) in Hp.
  - by apply set_igp_beneficiary_administered.
  - by apply set_oracles_administered.
  - by apply (transfer_administered (with_overhead_owner new_owner)) in Hp.
  - by apply set_overheads_administered.
Qed.

(** A claim moves the balance above the rent exemption to the beneficiary. When [claim]
    succeeds, the second account is the paymaster of its address and the third its
    beneficiary; the paymaster keeps the smaller of its balance and the exemption of its size
    and is exempt, the beneficiary receives the rest, which a paymaster that is its own
    beneficiary keeps; every other balance and all data and owners are unchanged. *)
Theorem claim_spec (program_id : Pubkey) accts w r
    (Hc : claim program_id accts w = Ok r) :
  exists ii bi igp rent w',
    accts !! 1%nat = Some ii /\ accts !! 2%nat = Some bi /\ r = (tt, w') /\
    stored_at program_id w (key ii) igp /\
    create_program_address (with_bump (igp_pda_seeds (igp_salt igp)) (igp_bump_seed igp))
      program_id = Ok (key ii) /\
    key bi = beneficiary igp /\ Rent_get = Ok rent /\
    let required := uval (minimum_balance rent (length (fst (content w (key ii))))) in
    (key ii <> key bi ->
      lamports_at w' (key ii) = Z.min (lamports_at w (key ii)) required /\
      lamports_at w' (key bi) =
        (lamports_at w (key bi) + Z.max (lamports_at w (key ii) - required) 0) mod 2 ^ 64) /\
    (key ii = key bi -> lamports_at w' (key ii) = lamports_at w (key ii)) /\
    (forall k, k <> key ii -> k <> key bi -> lamports_at w' k = lamports_at w k) /\
    (forall k, content w' k = content w k) /\
    is_exempt rent (acc_lamports (get_account w' (key ii)))
      (length (fst (content w' (key ii)))) = true.
Proof.
  destruct (claim_ok _ _ _ _ Hc) as (sys & ii & bi & rest & igp & rent & w' & -> & -> & Hs &
    Hk & Hb & Hr & Hw & Hex).
  exists ii, bi, igp, rent, w'.
  assert (Hcw : forall k, content w' k = content w k)
    by (intros k; by rewrite Hw, !with_lamports_content).
  cbv zeta. set (required := uval (minimum_balance rent _)).
  assert (Ht : claimable rent w (key ii) = Z.max (lamports_at w (key ii) - required) 0) by done.
  rewrite Ht in Hw. clear Ht.
  pose proof (uval_range (acc_lamports (get_account w (key ii)))) as Hl.
  change (0 <= lamports_at w (key ii) < 2 ^ 64) in Hl.
  assert (Hm : 0 <= required) by apply (uval_range (minimum_balance rent _)). clearbody required.
  split_and!; try done; try apply Hs; [| | |by rewrite Hcw]; clear Hex Hcw; subst w'.
  - intros Hne. rewrite !with_lamports_at, decide_False by done.
    rewrite !decide_True by done. rewrite decide_False by done.
    rewrite !uval_uwrap. change (umax 8) with (2 ^ 64). split; [|done].
    rewrite Z.mod_small by lia. lia.
  - intros He. rewrite <- He, !with_lamports_at, !decide_True by done.
    rewrite !uval_uwrap. change (umax 8) with (2 ^ 64).
    rewrite (Z.mod_small (_ - _)) by lia. rewrite Z.mod_small; lia.
  - intros k H1k H2k. by rewrite !with_lamports_at, !decide_False.
Qed.
End programs.

(** ** The theorems at concrete inputs *)

Module IgpScenario.
Import BorshModel RuntimeModel IgpModel U256Model.

(** A paymaster owned by the payer, an overhead account over it with 1000 gas for domain 9,
    and an oracle with a gas price of 2, an exchange rate of 1.0 and 9 decimals. *)
Definition pid : Pubkey := uwrap 32 1000.
Definition payer : AccountInfo := MkAccountInfo (uwrap 32 2000) true true false.
Definition beneficiary_info : AccountInfo := MkAccountInfo (uwrap 32 6000) false true false.
Definition unique : AccountInfo := MkAccountInfo (uwrap 32 5000) true false false.
Definition system_info : AccountInfo := MkAccountInfo system_program_id false false true.
Definition pda (seeds : list bytes) : AccountInfo :=
  MkAccountInfo (fst (find_program_address seeds pid)) false true false.
Definition salt : H256 := uwrap 32 5.
Definition data_info : AccountInfo := pda igp_program_data_pda_seeds.
Definition igp_info : AccountInfo := pda (igp_pda_seeds salt).
Definition overhead_info : AccountInfo := pda (overhead_igp_pda_seeds salt).

Definition oracle : RemoteGasData := MkRemoteGasData (uwrap 16 (10 ^ 19)) (uwrap 16 2) (uwrap 1 9).
Definition domain9 : u32 := uwrap 4 9.
Definition sample_igp : Igp :=
  MkIgp (byte 255) salt (Some (key payer)) (key beneficiary_info)
    {[domain9 := OracleRemoteGasData oracle]}.

Definition empty_world : world := MkWorld ∅ ∅ None pid.
Definition world1 : world := after (init pid [system_info; payer; data_info] empty_world).
Definition world2 : world :=
  after (init_igp pid [system_info; payer; igp_info]
           (MkInitIgp salt (Some (key payer)) (key beneficiary_info)) world1).
Definition world3 : world :=
  after (init_overhead_igp pid [system_info; payer; overhead_info]
           (MkInitOverheadIgp salt (Some (key payer)) (key igp_info)) world2).
Definition world4 : world :=
  after (set_gas_oracle_configs pid [system_info; igp_info; payer]
           [MkGasOracleConfig domain9 (Some (OracleRemoteGasData oracle))] world3).
Definition world5 : world :=
  after (set_destination_gas_overheads pid [system_info; overhead_info; payer]
           [MkGasOverheadConfig domain9 (Some (uwrap 8 1000))] world4).

Definition pay_accounts_list : list AccountInfo :=
  [system_info; payer; data_info; unique; pda (igp_gas_payment_pda_seeds (key unique));
   igp_info; overhead_info].
Definition pay : PayForGas := MkPayForGas (uwrap 32 77) domain9 (uwrap 8 500).
Definition world6 : world := after (pay_for_gas pid pay_accounts_list pay world5).

Definition claim_accounts : list AccountInfo := [system_info; igp_info; beneficiary_info].

Lemma pay_runs : pay_for_gas pid pay_accounts_list pay world5 = Ok (tt, world6).
Proof. apply (after_ok (pay_for_gas pid pay_accounts_list pay)). vm_compute. reflexivity. Qed.

Lemma claim_runs :
  claim pid claim_accounts world6 = Ok (tt, after (claim pid claim_accounts world6)).
Proof. apply (after_ok (claim pid claim_accounts)). vm_compute. reflexivity. Qed.

(** The owner makes itself the beneficiary. *)
Definition set_beneficiary : bytes := byte 7 :: to_be (key payer).
Definition set_accounts : list AccountInfo := [igp_info; payer].

Lemma beneficiary_runs :
  process_instruction pid set_accounts set_beneficiary world5 =
  Ok (tt, after (process_instruction pid set_accounts set_beneficiary world5)).
Proof.
  apply (after_ok (process_instruction pid set_accounts set_beneficiary)).
  vm_compute. reflexivity.
Qed.

Lemma igp_not_system : pid <> system_program_id.
Proof. intros Hk. apply (f_equal uval) in Hk. vm_compute in Hk. discriminate. Qed.
End IgpScenario.

Section witnesses.
Import BorshModel RuntimeModel IgpModel U256Model IgpScenario.

Lemma quote_gas_payment_spec_witness :
  quote_gas_payment sample_igp domain9 (uwrap 8 1500) = Ok (uwrap 8 3000) /\
  exists price', quote_gas_payment sample_igp domain9 (uwrap 8 20) = Ok price' /\
    uval price' <= 3000.
Proof.
  destruct (quote_gas_payment_spec sample_igp domain9 (uwrap 8 1500)) as [Hq Hm].
  assert (Hv : quote_gas_payment sample_igp domain9 (uwrap 8 1500) = Ok (uwrap 8 3000))
    by (rewrite Hq; vm_compute; reflexivity).
  split; [exact Hv|].
  destruct (Hm (uwrap 8 20) (uwrap 8 3000) ltac:(vm_compute; discriminate) Hv) as (p & Hp & Hl).
  exists p. split; [exact Hp|exact Hl].
Defined.

Lemma pay_for_gas_spec_witness :
  exists igp gas required wt, quote_gas_payment igp domain9 gas = Ok required /\
    sol_invoke_signed (system_transfer (key payer) (key igp_info) required)
      [payer; igp_info] [] world5 = Ok wt /\
    forall r2, pay_for_gas pid pay_accounts_list pay world6 <> Ok r2.
Proof.
  destruct (pay_for_gas_spec pid pay_accounts_list pay world5 _ igp_not_system pay_runs)
    as (py & di & ui & gi & ii & pd & igp & gas & rq & wt & slot & w' & Hpay & Ht & _ & Hw &
        _ & _ & _ & Hagain).
  pose proof (pay_price _ _ _ _ _ _ _ _ _ _ _ _ _ Hpay) as Hq.
  destruct (pay_accounts _ _ _ _ _ _ _ _ _ _ _ _ _ Hpay) as (sys & rest & Ha & _).
  unfold pay_accounts_list in Ha. injection Ha as <- <- <- <- <- <- <-.
  exists igp, gas, rq, wt. split; [exact Hq|]. split; [exact Ht|].
  intros r2. apply (Hagain _ _ _ unique _ pay world6 r2 eq_refl).
  apply (f_equal snd) in Hw. cbn [snd] in Hw. by rewrite Hw.
Defined.

Lemma igp_admin_spec_witness :
  administered (T := Igp) pid set_accounts (with_beneficiary (key payer)) world5
    (tt, after (process_instruction pid set_accounts set_beneficiary world5)).
Proof.
  assert (Hi : try_from_slice set_beneficiary = Ok (SetIgpBeneficiary (key payer)))
    by (vm_compute; reflexivity).
  destruct (igp_admin_spec pid set_accounts set_beneficiary _ world5 _ Hi beneficiary_runs) as [Hf _].
  exact (Hf _ eq_refl).
Defined.

Lemma claim_spec_witness :
  exists w', claim pid claim_accounts world6 = Ok (tt, w') /\
    lamports_at w' (key beneficiary_info) = 3000.
Proof.
  destruct (claim_spec pid claim_accounts world6 _ claim_runs)
    as (ii & bi & igp & rent & w' & Hii & Hbi & Hw & _ & _ & _ & Hr & Hl & _).
  injection Hii as <-. injection Hbi as <-. injection Hr as <-.
  exists w'. split; [rewrite claim_runs, Hw; reflexivity|].
  destruct Hl as [_ Hl].
  - intros He. apply (f_equal uval) in He. vm_compute in He. discriminate.
  - rewrite Hl. vm_compute. reflexivity.
Defined.
End witnesses.
