(* ===== verification/ValidatorAnnounce.v ===== *)
(** * The validator-announce program ([sealevel/programs/validator-announce])

    [accounts.rs], [error.rs], [instruction.rs], [pda_seeds.rs] and [processor.rs], one
    definition per function. *)

From S2P Require Import Prelude.
From S2P Require Import Codec.
From S2P Require Import Keccak.
From S2P Require Import Message.
From S2P Require Import Sealevel.
From S2P Require Import AccountUtils.
From S2P Require Import Multisig.
From stdpp Require Import base gmap list numbers strings sets.
From Stdlib Require Import ZArith Lia.

#[local] Open Scope Z_scope.

(** ** [error.rs] *)

Inductive Error := SignatureError | SignerMismatch.

(** [err as u32] and [From<Error> for ProgramError] *)
Definition Error_code (err : Error) : Z :=
  match err with SignatureError => 1 | SignerMismatch => 2 end.

Definition ProgramError_from (err : Error) : ProgramError := Custom (uwrap 4 (Error_code err)).

(** ** [pda_seeds.rs]: the forms without a bump seed *)

Definition validator_announce_pda_seeds : list bytes :=
  bstr <$> ["hyperlane_validator_announce"; "-"; "validator_announce"]%string.
Definition validator_storage_locations_pda_seeds (validator_h160 : H160) : list bytes :=
  (bstr <$> ["hyperlane_validator_announce"; "-"; "storage_locations"; "-"]%string)
    ++ [to_be validator_h160].
Definition replay_protection_pda_seeds (replay_id_bytes : H256) : list bytes :=
  (bstr <$> ["hyperlane_validator_announce"; "-"; "replay_protection"; "-"]%string)
    ++ [to_be replay_id_bytes].

(** ** [accounts.rs]; a string is its UTF-8 bytes *)

Record ValidatorAnnounce := MkValidatorAnnounce {
  va_bump_seed : u8;
  va_mailbox : Pubkey;
  va_local_domain : u32
}.

#[export] Instance ValidatorAnnounce_size : SizedData ValidatorAnnounce := λ _,
  (1 + 32 + 4)%nat.
#[export] Instance ValidatorAnnounce_default : Default ValidatorAnnounce :=
  MkValidatorAnnounce (byte 0) (uwrap 32 0) (uwrap 4 0).

Record ValidatorStorageLocations := MkValidatorStorageLocations {
  sl_bump_seed : u8;
  storage_locations : list bytes
}.

(** [ValidatorStorageLocations::size_increase_for_new_storage_location] *)
Definition size_increase_for_new_storage_location (new_storage_location : bytes) : nat :=
  (4 + length new_storage_location)%nat.

#[export] Instance ValidatorStorageLocations_size : SizedData ValidatorStorageLocations :=
  λ self,
  (1 + 4 + sum_list (size_increase_for_new_storage_location <$> storage_locations self))%nat.
#[export] Instance ValidatorStorageLocations_default : Default ValidatorStorageLocations :=
  MkValidatorStorageLocations (byte 0) [].

Record ReplayProtection := MkReplayProtection {}.

#[export] Instance ReplayProtection_size : SizedData ReplayProtection := λ _, 0%nat.
#[export] Instance ReplayProtection_default : Default ReplayProtection := MkReplayProtection.

(** [ValidatorAnnounce::verify_self_account_info] *)
Definition verify_self_account_info `{Solana} (self : ValidatorAnnounce) (program_id : Pubkey)
    (maybe_self : AccountInfo) : prog unit :=
  expected_key ← lift (create_program_address
    (with_bump validator_announce_pda_seeds (va_bump_seed self)) program_id);
  o ← owner_of maybe_self;
  require (bool_decide (o = program_id) && bool_decide (key maybe_self = expected_key))
    InvalidAccountData.

(** ** [instruction.rs] *)

Record InitInstruction := MkInitInstruction { init_mailbox : Pubkey; init_local_domain : u32 }.

Record AnnounceInstruction := MkAnnounceInstruction {
  ann_validator : H160;
  ann_storage_location : bytes;
  ann_signature : bytes
}.

Inductive Instruction :=
  | Init (init : InitInstruction)
  | Announce (announce : AnnounceInstruction).

(** [AnnounceInstruction::replay_id] *)
Definition replay_id `{Keccak256} (self : AnnounceInstruction) : H256 :=
  keccak256 (to_be (ann_validator self) ++ ann_storage_location self).

(** [Instruction::from_instruction_data] *)
Definition from_instruction_data `{TryFromSlice Instruction} (data : bytes) :
    outcome ProgramError Instruction :=
  map_err (λ _, InvalidInstructionData) (try_from_slice data).

(** [Instruction::into_instruction_data] *)
Definition into_instruction_data `{BorshSerialize Instruction} (self : Instruction) :
    outcome ProgramError bytes :=
  borsh_err (serialize self).

(** [init_instruction], over [Pubkey::try_find_program_address]. *)
Definition init_instruction `{Solana, BorshSerialize Instruction}
    (try_find_program_address : list bytes -> Pubkey -> option (Pubkey * u8))
    (program_id payer mailbox_program_id : Pubkey) (local_domain : u32) :
    outcome ProgramError SolanaInstruction :=
  '(validator_announce_account, _) ←
    ok_or (try_find_program_address validator_announce_pda_seeds program_id) InvalidSeeds;
  data ← into_instruction_data (Init (MkInitInstruction mailbox_program_id local_domain));
  Ok (MkInstruction program_id
        [AccountMeta_new_readonly payer true; AccountMeta_new_readonly system_program_id false;
         AccountMeta_new validator_announce_account false] data).

(** ** [processor.rs] *)

Section processor.
Context `{Solana, Keccak256, Secp256k1}.
Context `{BorshSerialize bool, BorshDeserialize bool}.
Context `{BorshSerialize ValidatorAnnounce, BorshDeserialize ValidatorAnnounce}.
Context `{BorshSerialize ValidatorStorageLocations}.
Context `{BorshDeserialize ValidatorStorageLocations, TryFromSlice Instruction}.

(** [process_init] *)
Definition process_init (program_id : Pubkey) (account_info_iter : list AccountInfo)
    (init : InitInstruction) : prog unit :=
  (* Account 0: The payer. *)
  '(payer_info, account_info_iter) ← next_account_info account_info_iter;
  require (is_signer payer_info) MissingRequiredSignature;;
  (* Account 1: The system program. *)
  '(system_program_info, account_info_iter) ← next_account_info account_info_iter;
  require (bool_decide (key system_program_info = system_program_id)) IncorrectProgramId;;
  (* Account 2: The ValidatorAnnounce PDA account. *)
  '(validator_announce_info, _) ← next_account_info account_info_iter;
  require (is_writable validator_announce_info) InvalidAccountData;;
  o ← owner_of validator_announce_info;
  require (bool_decide (o = system_program_id)) AccountAlreadyInitialized;;
  empty ← data_is_empty validator_announce_info;
  require empty AccountAlreadyInitialized;;
  let '(validator_announce_key, validator_announce_bump_seed) :=
    find_program_address validator_announce_pda_seeds program_id in
  require (bool_decide (key validator_announce_info = validator_announce_key))
    IncorrectProgramId;;
  (* Create the validator announce account. *)
  let validator_announce_account := MkValidatorAnnounce validator_announce_bump_seed
    (init_mailbox init) (init_local_domain init) in
  rent ← lift Rent_get;
  create_pda_account payer_info rent (AccountData.size validator_announce_account) program_id
    system_program_info validator_announce_info
    (with_bump validator_announce_pda_seeds validator_announce_bump_seed);;
  AccountData.store validator_announce_account validator_announce_info false.

(** [verify_validator_signed_announcement] *)
Definition verify_validator_signed_announcement (announce : AnnounceInstruction)
    (validator_announce : ValidatorAnnounce) : outcome ProgramError unit :=
  let announcement := MkAnnouncement (ann_validator announce) (va_mailbox validator_announce)
    (va_local_domain validator_announce) (ann_storage_location announce) in
  let announcement_digest := to_be (eth_signed_message_hash announcement) in
  signature ← map_err (λ _, ProgramError_from SignatureError)
    (EcdsaSignature_from_bytes (ann_signature announce));
  recovered_signer ←
    ok_or (secp256k1_recover_ethereum_address signature announcement_digest)
      (ProgramError_from SignatureError);
  require_or (bool_decide (recovered_signer = validator announcement)) InvalidAccountData.

(** The account is the program's and is not empty. *)
Definition storage_locations_initialized (program_id : Pubkey) (info : AccountInfo) :
    prog bool :=
  o ← owner_of info;
  if decide (o = program_id) then empty ← data_is_empty info; mret (negb empty)
  else mret false.

(** The branch on an account with locations: append, by the stored bump seed. *)
Definition append_storage_location (program_id : Pubkey) (info : AccountInfo)
    (announcement : AnnounceInstruction) : prog (ValidatorStorageLocations * nat) :=
  d ← data_of info;
  locations ← lift (AccountData.fetch (T := ValidatorStorageLocations) d);
  expected_key ← lift (create_program_address
    (with_bump (validator_storage_locations_pda_seeds (ann_validator announcement))
       (sl_bump_seed locations)) program_id);
  require (bool_decide (key info = expected_key)) IncorrectProgramId;;
  len ← data_len info;
  let new_serialized_size :=
    (len + size_increase_for_new_storage_location (ann_storage_location announcement))%nat in
  mret (MkValidatorStorageLocations (sl_bump_seed locations)
          (storage_locations locations ++ [ann_storage_location announcement]),
        new_serialized_size).

(** The branch that creates the account. *)
Definition create_storage_locations (program_id : Pubkey)
    (payer_info system_program_info info : AccountInfo) (announcement : AnnounceInstruction) :
    prog (ValidatorStorageLocations * nat) :=
  let '(locations_key, locations_bump_seed) :=
    find_program_address (validator_storage_locations_pda_seeds (ann_validator announcement))
      program_id in
  require (bool_decide (key info = locations_key)) IncorrectProgramId;;
  let locations :=
    MkValidatorStorageLocations locations_bump_seed [ann_storage_location announcement] in
  let locations_size := AccountData.size locations in
  rent ← lift Rent_get;
  create_pda_account payer_info rent locations_size program_id system_program_info info
    (with_bump (validator_storage_locations_pda_seeds (ann_validator announcement))
       locations_bump_seed);;
  mret (locations, locations_size).

(** [update_validator_storage_locations] *)
Definition update_validator_storage_locations (program_id : Pubkey)
    (payer_info system_program_info info : AccountInfo) (announcement : AnnounceInstruction) :
    prog unit :=
  initialized ← storage_locations_initialized program_id info;
  '(locations, new_serialized_size) ←
    (if (initialized : bool) then append_storage_location program_id info announcement
     else create_storage_locations program_id payer_info system_program_info info announcement);
  existing_serialized_size ← data_len info;
  rent ← lift Rent_get;
  let required_rent := minimum_balance rent new_serialized_size in
  lamports ← lamports_of info;
  (if uval lamports <? uval required_rent then
     invoke (system_transfer (key payer_info) (key info)
               (uwrap 8 (uval required_rent - uval lamports))) [payer_info; info]
   else mret tt);;
  (if decide (existing_serialized_size <> new_serialized_size) then
     realloc info new_serialized_size false
   else mret tt);;
  AccountData.store locations info false.

(** [create_replay_protection_account]: the account is created and not written. *)
Definition create_replay_protection_account (program_id : Pubkey)
    (payer_info system_program_info replay_protection_info : AccountInfo) (replay_id : H256)
    (replay_protection_bump_seed : u8) : prog unit :=
  rent ← lift Rent_get;
  create_pda_account payer_info rent (AccountData.size MkReplayProtection) program_id
    system_program_info replay_protection_info
    (with_bump (replay_protection_pda_seeds replay_id) replay_protection_bump_seed).

(** [process_announce] *)
Definition process_announce (program_id : Pubkey) (account_info_iter : list AccountInfo)
    (announcement : AnnounceInstruction) : prog unit :=
  (* Account 0: The payer. *)
  '(payer_info, account_info_iter) ← next_account_info account_info_iter;
  require (is_signer payer_info) MissingRequiredSignature;;
  (* Account 1: The system program. *)
  '(system_program_info, account_info_iter) ← next_account_info account_info_iter;
  require (bool_decide (key system_program_info = system_program_id)) IncorrectProgramId;;
  (* Account 2: The ValidatorAnnounce PDA account. *)
  '(validator_announce_info, account_info_iter) ← next_account_info account_info_iter;
  d ← data_of validator_announce_info;
  validator_announce ← lift (AccountData.fetch (T := ValidatorAnnounce) d);
  verify_self_account_info validator_announce program_id validator_announce_info;;
  (* Account 3: The validator-specific ValidatorStorageLocationsAccount PDA account. *)
  '(validator_storage_locations_info, account_info_iter) ←
    next_account_info account_info_iter;
  (* Account 4: The ReplayProtection PDA account specific to the announcement being made. *)
  '(replay_protection_info, _) ← next_account_info account_info_iter;
  let replay_id := replay_id announcement in
  let '(expected_replay_protection_key, replay_protection_bump_seed) :=
    find_program_address (replay_protection_pda_seeds replay_id) program_id in
  require (bool_decide (key replay_protection_info = expected_replay_protection_key))
    IncorrectProgramId;;
  require (is_writable replay_protection_info) InvalidAccountData;;
  empty ← data_is_empty replay_protection_info;
  require empty AccountAlreadyInitialized;;
  lift (verify_validator_signed_announcement announcement validator_announce);;
  update_validator_storage_locations program_id payer_info system_program_info
    validator_storage_locations_info announcement;;
  create_replay_protection_account program_id payer_info system_program_info
    replay_protection_info replay_id replay_protection_bump_seed.

(** [process_instruction] *)
Definition process_instruction (program_id : Pubkey) (accounts : list AccountInfo)
    (instruction_data : bytes) : prog unit :=
  ixn ← lift (from_instruction_data instruction_data);
  match ixn with
  | Init init => process_init program_id accounts init
  | Announce announce => process_announce program_id accounts announce
  end.
End processor.
