(* ===== verification/ValidatorAnnounceTheorems.v ===== *)
(** * Properties of the validator-announce program *)

From S2P Require Import Prelude.
From S2P Require Import Codec.
From S2P Require Import Keccak.
From S2P Require Import Message.
From S2P Require Import Sealevel.
From S2P Require Import AccountUtils.
From S2P Require Import Interfaces.
From S2P Require Import Multisig.
From S2P Require Import Concrete.
From S2P Require Import ConcreteIsm.
From S2P Require Import ValidatorAnnounce.
From stdpp Require Import base gmap list numbers strings sets.
From Stdlib Require Import ZArith Lia.

#[local] Open Scope Z_scope.

(** ** Correctness of the validator-announce program *)

Section announce.
Context `{SolanaLaws, Keccak256, Secp256k1}.
Context `{BorshSerialize bool, BorshDeserialize bool, !BorshBool}.
Context `{BorshSerialize ValidatorAnnounce, BorshDeserialize ValidatorAnnounce}.
Context `{!BorshLaws ValidatorAnnounce}.
Context `{BorshSerialize ValidatorStorageLocations}.
Context `{BorshDeserialize ValidatorStorageLocations, !BorshLaws ValidatorStorageLocations}.
Context `{TryFromSlice Instruction}.

(** The canonical account of the program's configuration. *)
Definition announce_at (program_id : Pubkey) (w : world) (k : Pubkey)
    (va : ValidatorAnnounce) : Prop :=
  k ∉ borrowed w /\ AccountData.fetch (fst (content w k)) = Ok va /\
  create_program_address (with_bump validator_announce_pda_seeds (va_bump_seed va)) program_id
    = Ok k /\
  snd (content w k) = program_id.

(** The account [k] holds the locations [x] of the validator, or does not exist yet. *)
Definition locations_of (program_id : Pubkey) (v : H160) (w : world) (k : Pubkey)
    (x : ValidatorStorageLocations) : Prop :=
  (snd (content w k) = program_id /\ k ∉ borrowed w /\
   AccountData.fetch (fst (content w k)) = Ok x /\
   create_program_address
     (with_bump (validator_storage_locations_pda_seeds v) (sl_bump_seed x)) program_id = Ok k) \/
  (content w k = ([], system_program_id) /\ storage_locations x = [] /\
   find_program_address (validator_storage_locations_pda_seeds v) program_id
     = (k, sl_bump_seed x)).

Definition push_location (x : ValidatorStorageLocations) (l : bytes) :
    ValidatorStorageLocations :=
  MkValidatorStorageLocations (sl_bump_seed x) (storage_locations x ++ [l]).

(** The data of the account is as long as the locations it holds need, or does not exist. *)
Definition exact_size (w : world) (k : Pubkey) (x : ValidatorStorageLocations) : Prop :=
  length (fst (content w k)) = AccountData.size x \/
  content w k = ([], system_program_id).

Lemma size_push x l :
  AccountData.size (push_location x l) =
  (AccountData.size x + size_increase_for_new_storage_location l)%nat.
Proof.
  unfold AccountData.size, sized, ValidatorStorageLocations_size, push_location.
  cbn [storage_locations]. induction (storage_locations x) as [|y ys IH]; cbn in *; lia.
Qed.

(** The two branches of the update: the locations with the new one, and the size for them. *)
Definition branch_post (program_id : Pubkey) (ann : AnnounceInstruction) (w w1 : world)
    (k : Pubkey) (x : ValidatorStorageLocations) (n : nat) : Prop :=
  locations_of program_id (ann_validator ann) w k x /\
  create_program_address (with_bump
    (validator_storage_locations_pda_seeds (ann_validator ann)) (sl_bump_seed x)) program_id
    = Ok k /\
  frame w w1 /\ snd (content w1 k) = program_id /\
  (forall k', k' <> k -> content w1 k' = content w k') /\
  (exact_size w k x -> n = AccountData.size (push_location x (ann_storage_location ann))).

Lemma append_ok program_id i ann w r :
  snd (content w (key i)) = program_id -> fst (content w (key i)) <> [] ->
  append_storage_location program_id i ann w = Ok r ->
  exists x n, r = ((push_location x (ann_storage_location ann), n), w) /\
    branch_post program_id ann w w (key i) x n.
Proof.
  intros Ho Hne Ha. unfold append_storage_location in Ha. do 4 (prog_step Ha).
  apply st_bind_ok in Ha as (len & w1 & Hl & Ha). apply data_len_ok in Hl as [_ [= -> ->]].
  injection Ha as <-. subst.
  eexists x, _. split; [done|]. split_and!; try done; [by left|].
  intros [Hs|Hs]; [|by rewrite Hs in Hne]. by rewrite size_push, <- Hs.
Qed.

Lemma created_ok program_id payer sys i ann w r :
  Z.of_nat (length (ann_storage_location ann)) < 2 ^ 32 ->
  create_storage_locations program_id payer sys i ann w = Ok r ->
  exists x n w1, r = ((push_location x (ann_storage_location ann), n), w1) /\
    branch_post program_id ann w w1 (key i) x n /\
    length (fst (content w1 (key i))) = n.
Proof.
  intros Hlen Hc. unfold create_storage_locations in Hc.
  destruct (find_program_address _ _) as [lk lb] eqn:Hk. do 2 (prog_step Hc).
  apply st_bind_ok in Hc as ([] & w1 & Hc & Hr). injection Hr as <-.
  pose proof (create_pda_account_fresh _ _ _ _ _ _ _ _ _ Hc) as Hnew.
  apply create_pda_account_content in Hc as (w1' & [= ->] & Hf & Hc1); [|cbn; lia].
  subst lk.
  exists (MkValidatorStorageLocations lb []), (AccountData.size
    (MkValidatorStorageLocations lb [ann_storage_location ann])), w1'. split; [done|].
  pose proof (Hc1 (key i)) as Hk1. rewrite decide_True in Hk1 by done.
  split; [|by rewrite Hk1; cbn; rewrite length_replicate].
  split_and!; try done.
  - by right.
  - by apply find_create.
  - by rewrite Hk1.
  - intros k' Hne. by rewrite Hc1, decide_False.
Qed.

(** A store without reallocation keeps the length of the data. *)
Lemma store_length {T} `{BorshSerialize T, BorshDeserialize T, !FetchLaws T, Default T}
    (x : T) i w w' :
  AccountData.store x i false w = Ok (tt, w') ->
  length (fst (content w' (key i))) = length (fst (content w (key i))).
Proof.
  intros Hs. apply store_ok in Hs as (_ & _ & _ & d & Hd & [= ->]).
  apply store_in_slice_ok in Hd as (b & _ & Hl & ->).
  rewrite content_set_data, decide_True by done. cbn [fst].
  cbn [length]. rewrite length_app, length_drop. lia.
Qed.

(** The rent, the reallocation and the store that end the update. *)
Lemma grow_ok (x : ValidatorStorageLocations) i payer n w w' program_id :
  snd (content w (key i)) = program_id ->
  (existing ← data_len i;
   rent ← lift Rent_get;
   lamports ← lamports_of i;
   (if uval lamports <? uval (minimum_balance rent n) then
      invoke (system_transfer (key payer) (key i)
                (uwrap 8 (uval (minimum_balance rent n) - uval lamports))) [payer; i]
    else mret tt);;
   (if decide (existing <> n) then realloc i n false else mret tt);;
   AccountData.store x i false) w = Ok (tt, w') ->
  frame w w' /\ key i ∉ borrowed w' /\ AccountData.fetch (fst (content w' (key i))) = Ok x /\
  snd (content w' (key i)) = program_id /\ length (fst (content w' (key i))) = n /\
  forall k, k <> key i -> content w' k = content w k.
Proof.
  intros Ho Hu. apply st_bind_ok in Hu as (len & w0 & Hl & Hu).
  apply data_len_ok in Hl as [Hb [= -> ->]]. do 2 (prog_step Hu).
  apply st_bind_ok in Hu as ([] & w1 & Ht & Hu).
  assert (Hw1 : frame w w1 /\ forall k, content w1 k = content w k).
  { destruct (_ <? _); [|by injection Ht as <-].
    apply invoke_ok in Ht as (w1' & Ht & [= ->]). split; [by eapply invoke_frame|].
    intros k. by eapply transfer_content. }
  destruct Hw1 as [Hf1 Hc1]. apply st_bind_ok in Hu as ([] & w2 & Hr & Hu).
  assert (Hw2 : frame w1 w2 /\ length (fst (content w2 (key i))) = n /\ forall k,
    snd (content w2 k) = snd (content w1 k) /\ (k <> key i -> content w2 k = content w1 k)).
  { case_decide as Hn; [|injection Hr as <-; rewrite Hc1; split; [done|]; split; [|done];
      by destruct (decide (length (fst (content w (key i))) = n))].
    unfold realloc in Hr. destruct (sol_realloc _ _ _ _) as [w2'|e|] eqn:Hre; try done.
    injection Hr as ->. split; [by eapply realloc_frame|].
    split; [by eapply realloc_length|]. intros k.
    destruct (realloc_content _ _ _ _ _ k Hre) as [t ->]. by case_decide. }
  destruct Hw2 as (Hf2 & Hl2 & Hc2). pose proof (store_length _ _ _ _ Hu) as Hl3.
  apply store_content in Hu as (_ & Hb2 & w3 & b & tail & [= <-] & Hx & Hf3 & Hc3).
  assert (Hk3 : content w' (key i) = (byte 1 :: b ++ tail, program_id)).
  { rewrite Hc3, decide_True by done. destruct (Hc2 (key i)) as [-> _]. by rewrite Hc1, Ho. }
  split_and!.
  - by etrans; [|etrans].
  - destruct Hf3 as [_ E]. by rewrite E.
  - rewrite Hk3. by apply fetch_stored.
  - by rewrite Hk3.
  - by rewrite Hl3.
  - intros k Hne. rewrite Hc3, decide_False by done. destruct (Hc2 k) as [_ Hk].
    by rewrite Hk, Hc1.
Qed.

Lemma update_ok program_id payer sys i ann w w' :
  program_id <> system_program_id ->
  Z.of_nat (length (ann_storage_location ann)) < 2 ^ 32 ->
  update_validator_storage_locations program_id payer sys i ann w = Ok (tt, w') ->
  exists x, locations_of program_id (ann_validator ann) w (key i) x /\
    let x' := push_location x (ann_storage_location ann) in
    locations_of program_id (ann_validator ann) w' (key i) x' /\
    (exact_size w (key i) x -> exact_size w' (key i) x') /\
    frame w w' /\ snd (content w' (key i)) = program_id /\
    forall k, k <> key i -> content w' k = content w k.
Proof.
  intros Hsys Hlen Hu. unfold update_validator_storage_locations in Hu.
  apply st_bind_ok in Hu as (ini & w0 & Hi & Hu).
  apply st_bind_ok in Hu as ([y n] & w1 & Hb & Hu). cbv zeta in Hu.
  assert (Hpost : exists x, y = push_location x (ann_storage_location ann) /\
    branch_post program_id ann w w1 (key i) x n).
  { unfold storage_locations_initialized in Hi. prog_step Hi. case_decide as Ho.
    - apply st_bind_ok in Hi as (e & w2 & He & Hi). apply data_is_empty_ok in He as [_ [= -> ->]].
      injection Hi as <- <-. destruct (decide (fst (content w (key i)) = [])) as [Hd|Hd].
      + rewrite bool_decide_true in Hb by done. cbn [negb] in Hb.
        apply created_ok in Hb as (x & n' & w2 & [= -> -> ->] & Hp & _); [|done]. by exists x.
      + rewrite bool_decide_false in Hb by done. cbn [negb] in Hb.
        apply append_ok in Hb as (x & n' & [= -> -> ->] & Hp); [|done|done]. by exists x.
    - injection Hi as <- <-.
      apply created_ok in Hb as (x & n' & w2 & [= -> -> ->] & Hp & _); [|done]. by exists x. }
  destruct Hpost as (x & -> & Hloc & Hkey & Hf & Ho & Hrest & Hn). exists x. split; [done|].
  destruct (grow_ok _ _ _ _ _ _ _ Ho Hu) as (Hf' & Hb' & Hfe & Ho' & Hl & Hrest').
  split_and!; try done.
  - left. done.
  - intros Hs. left. by rewrite Hl, Hn.
  - by etrans.
  - intros k Hne. by rewrite Hrest', Hrest.
Qed.

Lemma locations_of_same program_id v w w' k x :
  frame w w' -> content w' k = content w k ->
  locations_of program_id v w k x -> locations_of program_id v w' k x.
Proof. intros [_ Hb] Hc. unfold locations_of. by rewrite Hc, Hb. Qed.

(** A successful announcement: the accounts, the signature, and the two account updates. *)
Record announced (program_id : Pubkey) (accts : list AccountInfo) (ann : AnnounceInstruction)
    (w : world) (payer_info va_info sl_info rp_info : AccountInfo) (va : ValidatorAnnounce)
    (x : ValidatorStorageLocations) (w' : world) : Prop := {
  an_accounts : exists system_info rest,
    accts = payer_info :: system_info :: va_info :: sl_info :: rp_info :: rest;
  an_signed : is_signer payer_info = true;
  an_config : announce_at program_id w (key va_info) va;
  an_verified : verify_validator_signed_announcement ann va = Ok tt;
  an_replay : fst (find_program_address (replay_protection_pda_seeds (replay_id ann)) program_id)
    = key rp_info;
  an_before : locations_of program_id (ann_validator ann) w (key sl_info) x;
  an_after : locations_of program_id (ann_validator ann) w' (key sl_info)
    (push_location x (ann_storage_location ann));
  an_exact : exact_size w (key sl_info) x ->
    exact_size w' (key sl_info) (push_location x (ann_storage_location ann));
  an_fresh : content w (key rp_info) = ([], system_program_id);
  an_marked : content w' (key rp_info) = ([byte 0], program_id);
  an_rest : forall k, k <> key sl_info -> k <> key rp_info -> content w' k = content w k
}.

Lemma process_announce_ok program_id accts ann w r :
  program_id <> system_program_id ->
  Z.of_nat (length (ann_storage_location ann)) < 2 ^ 32 ->
  process_announce program_id accts ann w = Ok r ->
  exists payer_info va_info sl_info rp_info va x w', r = (tt, w') /\
    announced program_id accts ann w payer_info va_info sl_info rp_info va x w'.
Proof.
  intros Hsys Hlen Hp. unfold process_announce in Hp. cbv zeta in Hp.
  destruct (find_program_address (replay_protection_pda_seeds _) _) as [rk rb] eqn:Hrk.
  do 7 (prog_step Hp).
  apply st_bind_ok in Hp as ([] & w1 & Hv & Hp).
  unfold verify_self_account_info in Hv. do 2 (prog_step Hv).
  apply require_ok in Hv as [Hv E]. injection E as ->. apply andb_prop in Hv as [Hvo Hvk].
  apply bool_decide_eq_true_1 in Hvo, Hvk.
  do 4 (prog_step Hp).
  apply st_bind_ok in Hp as (e & w1 & He & Hp). apply data_is_empty_ok in He as [_ [= -> ->]].
  do 2 (prog_step Hp). apply st_bind_ok in Hp as ([] & w1 & Hu & Hp).
  apply update_ok in Hu as (y & Hbefore & Hafter & Hexact & Hfr & Hown & Hrest); [|done..].
  unfold create_replay_protection_account in Hp. prog_step Hp.
  pose proof (create_pda_account_fresh _ _ _ _ _ _ _ _ _ Hp) as Hnew.
  apply create_pda_account_content in Hp as (w2 & -> & Hf2 & Hc2); [|reflexivity].
  assert (Hne : key i2 <> key i3) by (intros He; rewrite He, Hnew in Hown; cbn in Hown; congruence).
  assert (Hsl : content w2 (key i2) = content w1 (key i2)) by by rewrite Hc2, decide_False.
  exists i, i1, i2, i3, x, y, w2. split; [done|]. split; try done.
  - by eexists _, _.
  - subst x0. by split_and!.
  - match goal with Hv : verify_validator_signed_announcement _ _ = Ok ?u |- _ =>
      destruct u; exact Hv end.
  - by rewrite Hrk.
  - by apply (locations_of_same _ _ w1 w2).
  - unfold exact_size in *. by rewrite Hsl.
  - rewrite <- Hrest by done. done.
  - by rewrite Hc2, decide_True.
  - intros k Hk1 Hk2. rewrite Hc2, decide_False by done. by apply Hrest.
Qed.
End announce.

(** ** Concrete instances for the validator-announce program

    The Borsh formats of its derived codecs. Only the witnesses use them. *)

Import BorshModel.

Module AnnounceModel.

#[export] Instance ValidatorAnnounce_ser : BorshSerialize ValidatorAnnounce := λ a,
  Ok (to_le (va_bump_seed a) ++ to_be (va_mailbox a) ++ to_le (va_local_domain a)).
#[export] Instance ValidatorAnnounce_de : BorshDeserialize ValidatorAnnounce :=
  b ← slice_read_exact 1; m ← slice_read_exact 32; d ← slice_read_exact 4;
  mret (MkValidatorAnnounce (from_le 1 b) (from_be 32 m) (from_le 4 d)).
#[export] Instance ValidatorAnnounce_laws : BorshLaws ValidatorAnnounce.
Proof.
  intros [b m d] s rest Hs. apply (inj Ok) in Hs as <-.
  unfold deserialize, ValidatorAnnounce_de. cbn [va_bump_seed va_mailbox va_local_domain].
  decode. unfold mret, ST_ret. by autorewrite with hyp.
Qed.

(** A [String] is its length as a [u32] and its bytes. *)
Definition short (l : bytes) : bool := Z.of_nat (length l) <? 2 ^ 32.
Definition ser_string (l : bytes) : bytes := to_le (uwrap 4 (Z.of_nat (length l))) ++ l.

Lemma read_string_app l rest : short l = true -> read_vec (ser_string l ++ rest) = Ok (l, rest).
Proof.
  intros Hl. apply Z.ltb_lt in Hl. apply read_vec_app. unfold ser_vec.
  by rewrite decide_True.
Qed.

#[export] Instance Locations_ser : BorshSerialize ValidatorStorageLocations := λ a,
  b ← ser_entries ser_string short (storage_locations a); Ok (to_le (sl_bump_seed a) ++ b).
#[export] Instance Locations_de : BorshDeserialize ValidatorStorageLocations :=
  b ← slice_read_exact 1; l ← read_counted read_vec;
  mret (MkValidatorStorageLocations (from_le 1 b) l).
#[export] Instance Locations_laws : BorshLaws ValidatorStorageLocations.
Proof.
  intros [b l] s rest Hs. unfold serialize, Locations_ser in Hs.
  apply bind_ok in Hs as (sl & Hl & Hs). apply (inj Ok) in Hs as <-.
  unfold deserialize, Locations_de. cbn [sl_bump_seed storage_locations] in *. decode.
  rewrite (st_bind_eq _ _ _ _ _ (read_counted_app _ _ _ read_string_app _ _ rest Hl)).
  unfold mret, ST_ret. by autorewrite with hyp.
Qed.

Definition read_instruction : slice_reader Instruction :=
  tag ← slice_read_exact 1;
  let tag := uval (from_le 1 tag) in
  if tag =? 0 then
    m ← slice_read_exact 32; d ← slice_read_exact 4;
    mret (Init (MkInitInstruction (from_be 32 m) (from_le 4 d)))
  else if tag =? 1 then
    v ← slice_read_exact 20; l ← read_vec; s ← read_vec;
    mret (Announce (MkAnnounceInstruction (from_be 20 v) l s))
  else throw InvalidData.

#[export] Instance Instruction_try : TryFromSlice Instruction := whole read_instruction.
End AnnounceModel.

Section announce.
Context `{SolanaLaws, Keccak256, Secp256k1}.
Context `{BorshSerialize bool, BorshDeserialize bool, !BorshBool}.
Context `{BorshSerialize ValidatorAnnounce, BorshDeserialize ValidatorAnnounce}.
Context `{!BorshLaws ValidatorAnnounce}.
Context `{BorshSerialize ValidatorStorageLocations}.
Context `{BorshDeserialize ValidatorStorageLocations, !BorshLaws ValidatorStorageLocations}.
Context `{TryFromSlice Instruction}.

(** What the signature of an announcement is of. *)
Definition announcement_of (ann : AnnounceInstruction) (va : ValidatorAnnounce) : Announcement :=
  MkAnnouncement (ann_validator ann) (va_mailbox va) (va_local_domain va)
    (ann_storage_location ann).

Definition signed_by_validator (ann : AnnounceInstruction) (va : ValidatorAnnounce) : Prop :=
  exists s, EcdsaSignature_from_bytes (ann_signature ann) = Ok s /\
    secp256k1_recover_ethereum_address s
      (to_be (eth_signed_message_hash (announcement_of ann va))) = Some (ann_validator ann).

Lemma verify_signed_iff ann va :
  verify_validator_signed_announcement ann va = Ok tt <-> signed_by_validator ann va.
Proof.
  unfold verify_validator_signed_announcement, signed_by_validator, announcement_of. cbv zeta.
  destruct (EcdsaSignature_from_bytes _) as [s|e|]; cbn; [|naive_solver..].
  destruct (secp256k1_recover_ethereum_address _ _) as [a|] eqn:Ha; cbn; [|naive_solver].
  unfold require_or. split.
  - intros Hv. exists s. split; [done|]. rewrite Ha. case_bool_decide; [congruence|done].
  - intros (s' & [= <-] & Hs). rewrite bool_decide_true; congruence.
Qed.

(** A storage location is announced only by its validator, and once. When [process_announce]
    succeeds, the payer signed, the configuration is the account of its address owned by the
    program, and the validator signed the announcement for the mailbox and domain of that
    configuration; the location is appended to those of the validator, under the account of
    its address; the replay account of this validator and location, which did not exist, is
    marked; no other account's data or owner changed. While the mark stays, no announcement
    with the same replay id succeeds. *)
Theorem announce_spec (program_id : Pubkey) accts ann w r
    (Hsys : program_id <> system_program_id)
    (Hlen : Z.of_nat (length (ann_storage_location ann)) < 2 ^ 32)
    (Hp : process_announce program_id accts ann w = Ok r) :
  exists payer_info system_info va_info sl_info rp_info rest va x w',
    accts = payer_info :: system_info :: va_info :: sl_info :: rp_info :: rest /\
    r = (tt, w') /\ is_signer payer_info = true /\
    announce_at program_id w (key va_info) va /\ signed_by_validator ann va /\
    locations_of program_id (ann_validator ann) w (key sl_info) x /\
    locations_of program_id (ann_validator ann) w' (key sl_info)
      (push_location x (ann_storage_location ann)) /\
    content w (key rp_info) = ([], system_program_id) /\
    content w' (key rp_info) = ([byte 0], program_id) /\
    (forall k, k <> key sl_info -> k <> key rp_info -> content w' k = content w k) /\
    forall a0 a1 a2 a3 i rest' ann' w2 r2, replay_id ann' = replay_id ann ->
      Z.of_nat (length (ann_storage_location ann')) < 2 ^ 32 ->
      content w2 (key rp_info) = content w' (key rp_info) ->
      process_announce program_id (a0 :: a1 :: a2 :: a3 :: i :: rest') ann' w2 <> Ok r2.
Proof.
  destruct (process_announce_ok _ _ _ _ _ Hsys Hlen Hp)
    as (pi & vi & si & ri & va & x & w' & -> & Ha).
  destruct (an_accounts _ _ _ _ _ _ _ _ _ _ _ Ha) as (sys & rest & Hacc).
  exists pi, sys, vi, si, ri, rest, va, x, w'. split_and!; try done; try apply Ha.
  - apply verify_signed_iff, Ha.
  - intros a0 a1 a2 a3 i rest' ann' w2 r2 Hid Hlen' Hc Hp2.
    destruct (process_announce_ok _ _ _ _ _ Hsys Hlen' Hp2)
      as (pi2 & vi2 & si2 & ri2 & va2 & x2 & w3 & -> & Ha2).
    destruct Ha as [_ _ _ _ Hk _ _ _ _ Hm _]. destruct Ha2 as [_ _ _ _ Hk2 _ _ _ Hf _ _].
    rewrite Hid, Hk in Hk2. rewrite <- Hk2, Hc, Hm in Hf. done.
Qed.

(** The size of a storage-locations account, which the program grows by the length of the new
    location alone, is always the full size of the locations it holds: an account that has
    exactly the size of its locations, or none yet, has exactly their size afterwards. *)
Theorem announce_exact_size (program_id : Pubkey) accts ann w r
    (Hsys : program_id <> system_program_id)
    (Hlen : Z.of_nat (length (ann_storage_location ann)) < 2 ^ 32)
    (Hp : process_announce program_id accts ann w = Ok r) :
  exists sl_info x w', accts !! 3%nat = Some sl_info /\ r = (tt, w') /\
    locations_of program_id (ann_validator ann) w (key sl_info) x /\
    (length (fst (content w (key sl_info))) = AccountData.size x \/
     content w (key sl_info) = ([], system_program_id) ->
     AccountData.fetch (fst (content w' (key sl_info)))
       = Ok (push_location x (ann_storage_location ann)) /\
     length (fst (content w' (key sl_info)))
       = AccountData.size (push_location x (ann_storage_location ann))).
Proof.
  destruct (process_announce_ok _ _ _ _ _ Hsys Hlen Hp)
    as (pi & vi & si & ri & va & x & w' & -> & Ha).
  destruct Ha as [(sys & rest & ->) _ _ _ _ Hb Haf He _ _ _].
  exists si, x, w'. split_and!; try done. intros Hs. apply He in Hs.
  destruct Haf as [(Ho & _ & Hf & _)|(_ & Hnil & _)]; [|cbn in Hnil; by destruct (storage_locations x)].
  split; [done|]. destruct Hs as [Hs|Hs]; [done|].
  rewrite Hs in Ho. cbn in Ho. congruence.
Qed.
End announce.

(** ** The theorems at concrete inputs *)

Module AnnounceScenario.
Import BorshModel RuntimeModel IsmModel AnnounceModel.
#[local] Existing Instance keccak_concrete.

Definition pid : Pubkey := uwrap 32 1000.
Definition payer : AccountInfo := MkAccountInfo (uwrap 32 2000) true true false.
Definition system_info : AccountInfo := MkAccountInfo system_program_id false false true.
Definition pda (seeds : list bytes) : AccountInfo :=
  MkAccountInfo (fst (find_program_address seeds pid)) false true false.
Definition va_info : AccountInfo := pda validator_announce_pda_seeds.

(** The signature of the validator with the key 11. *)
Definition signature : bytes := to_be (uwrap 64 11) ++ [byte 27].
Definition validator11 : H160 :=
  match EcdsaSignature_from_bytes signature with
  | Ok s => default (uwrap 20 0) (secp256k1_recover_ethereum_address s [])
  | _ => uwrap 20 0
  end.
Definition sl_info : AccountInfo := pda (validator_storage_locations_pda_seeds validator11).

Definition announcement (location : bytes) : AnnounceInstruction :=
  MkAnnounceInstruction validator11 location signature.
Definition announcement1 : AnnounceInstruction := announcement (bstr "s3://a").
Definition announcement2 : AnnounceInstruction := announcement (bstr "file://b").
Definition accounts_for (ann : AnnounceInstruction) : list AccountInfo :=
  [payer; system_info; va_info; sl_info; pda (replay_protection_pda_seeds (replay_id ann))].

Definition empty_world : world := MkWorld ∅ ∅ None pid.
Definition world1 : world :=
  after (process_init pid [payer; system_info; va_info]
           (MkInitInstruction (uwrap 32 4000) (uwrap 4 7)) empty_world).
Definition world2 : world := after (process_announce pid (accounts_for announcement1) announcement1 world1).
Definition world3 : world := after (process_announce pid (accounts_for announcement2) announcement2 world2).

Lemma announcement1_runs : process_announce pid (accounts_for announcement1) announcement1 world1 = Ok (tt, world2).
Proof.
  apply (after_ok (process_announce pid (accounts_for announcement1) announcement1)).
  vm_compute. reflexivity.
Qed.
Lemma announcement2_runs : process_announce pid (accounts_for announcement2) announcement2 world2 = Ok (tt, world3).
Proof.
  apply (after_ok (process_announce pid (accounts_for announcement2) announcement2)).
  vm_compute. reflexivity.
Qed.

Lemma announce_not_system : pid <> system_program_id.
Proof. intros Hk. apply (f_equal uval) in Hk. vm_compute in Hk. discriminate. Qed.
End AnnounceScenario.

Section witnesses.
Import BorshModel RuntimeModel IsmModel AnnounceModel AnnounceScenario.
#[local] Existing Instance keccak_concrete.

Lemma announce_spec_witness :
  exists va, announce_at pid world1 (key va_info) va /\ signed_by_validator announcement1 va /\
    forall r2, process_announce pid (accounts_for announcement1) announcement1 world2 <> Ok r2.
Proof.
  assert (Hlen : Z.of_nat (length (ann_storage_location announcement1)) < 2 ^ 32) by reflexivity.
  destruct (announce_spec pid (accounts_for announcement1) announcement1 world1 _ announce_not_system Hlen announcement1_runs)
    as (pi & sys & vi & si & ri & rest & va & x & w' & Ha & Hw & _ & Hat & Hs & _ & _ & _ & _ &
        _ & Hagain).
  injection Ha as <- <- <- <- <- <-. exists va. split; [exact Hat|]. split; [exact Hs|].
  intros r2. apply (Hagain payer system_info va_info sl_info _ [] announcement1 world2 r2 eq_refl Hlen).
  apply (f_equal snd) in Hw. cbn [snd] in Hw. by rewrite Hw.
Defined.

Lemma announce_exact_size_witness :
  exists x, AccountData.fetch (T := ValidatorStorageLocations) (fst (content world3 (key sl_info))) = Ok x /\
    length (fst (content world3 (key sl_info))) = AccountData.size x.
Proof.
  assert (Hlen : Z.of_nat (length (ann_storage_location announcement2)) < 2 ^ 32) by reflexivity.
  destruct (announce_exact_size pid (accounts_for announcement2) announcement2 world2 _ announce_not_system Hlen
    announcement2_runs) as (si & x & w' & Hi & Hw & Hl & He).
  injection Hi as <-. apply (f_equal snd) in Hw. cbn [snd] in Hw. subst w'.
  eexists. apply He. destruct Hl as [(_ & _ & Hf & _)|(Hn & _)]; [left|right; exact Hn].
  assert (Hv : length (fst (content world2 (key sl_info))) =
      match AccountData.fetch (T := ValidatorStorageLocations)
        (fst (content world2 (key sl_info))) with
      | Ok y => AccountData.size y | _ => 0%nat end) by (vm_compute; reflexivity).
  rewrite Hf in Hv. exact Hv.
Defined.
End witnesses.
