(* ===== verification/ConnectionClient.v ===== *)
(** * The connection client ([sealevel/libraries/hyperlane-sealevel-connection-client])

    [lib.rs], [router.rs] and [gas_router.rs]: the traits by which a program is a client of
    the mailbox and of a gas paymaster. A trait is a class of its required methods, a provided
    method a definition over the class; a setter returns the new value. *)

From S2P Require Import Prelude.
From S2P Require Import Codec.
From S2P Require Import Sealevel.
From S2P Require Import AccountUtils.
From S2P Require Import Interfaces.
From S2P Require Import Mailbox.
From S2P Require Import Igp.
From stdpp Require Import base gmap list numbers strings sets.
From Stdlib Require Import ZArith Lia.

#[local] Open Scope Z_scope.

(** ** [lib.rs] *)

Class HyperlaneConnectionClient (A : Type) := {
  mailbox : A -> Pubkey;
  interchain_gas_paymaster : A -> option (Pubkey * InterchainGasPaymasterType);
  interchain_security_module : A -> option Pubkey
}.
#[global] Hint Mode HyperlaneConnectionClient ! : typeclass_instances.

Class HyperlaneConnectionClientSetter (A : Type) := {
  set_mailbox : A -> Pubkey -> A;
  set_interchain_gas_paymaster : A -> option (Pubkey * InterchainGasPaymasterType) -> A;
  set_interchain_security_module : A -> option Pubkey -> A
}.
#[global] Hint Mode HyperlaneConnectionClientSetter ! : typeclass_instances.

Class HyperlaneConnectionClientRecipient (A : Type) :=
  mailbox_process_authority : A -> Pubkey.
#[global] Hint Mode HyperlaneConnectionClientRecipient ! : typeclass_instances.

Section client.
Context `{Solana}.

(** [set_interchain_security_module_return_data] *)
Definition set_interchain_security_module_return_data
    `{HyperlaneConnectionClient A, BorshSerialize (option Pubkey)} (self : A) : prog unit :=
  ism ← lift (expect (serialize (interchain_security_module self)));
  set_return_data ism.

Section only_owner.
Context `{HyperlaneConnectionClientSetter A, AccessControl A}.

(** [set_mailbox_only_owner] *)
Definition set_mailbox_only_owner (self : A) (maybe_owner : AccountInfo)
    (new_mailbox : Pubkey) : outcome ProgramError A :=
  ensure_owner_signer self maybe_owner;;
  Ok (set_mailbox self new_mailbox).

(** [set_interchain_gas_paymaster_only_owner] *)
Definition set_interchain_gas_paymaster_only_owner (self : A) (maybe_owner : AccountInfo)
    (new_igp : option (Pubkey * InterchainGasPaymasterType)) : outcome ProgramError A :=
  ensure_owner_signer self maybe_owner;;
  Ok (set_interchain_gas_paymaster self new_igp).

(** [set_interchain_security_module_only_owner] *)
Definition set_interchain_security_module_only_owner (self : A) (maybe_owner : AccountInfo)
    (new_ism : option Pubkey) : outcome ProgramError A :=
  ensure_owner_signer self maybe_owner;;
  Ok (set_interchain_security_module self new_ism).
End only_owner.

(** [ensure_mailbox_process_authority_signer] *)
Definition ensure_mailbox_process_authority_signer `{HyperlaneConnectionClientRecipient A}
    (self : A) (maybe_authority : AccountInfo) : outcome ProgramError unit :=
  require_or (bool_decide (mailbox_process_authority self = key maybe_authority))
    InvalidArgument;;
  require_or (is_signer maybe_authority) MissingRequiredSignature.
End client.

(** ** [router.rs] *)

Record RemoteRouterConfig := MkRemoteRouterConfig {
  router_domain : u32;
  config_router : option H256
}.

Class HyperlaneRouter (A : Type) := {
  router : A -> u32 -> option H256;
  enroll_remote_router : A -> RemoteRouterConfig -> outcome ProgramError A
}.
#[global] Hint Mode HyperlaneRouter ! : typeclass_instances.

Section router.
Context `{HyperlaneRouter A}.

(** [is_remote_router] *)
Definition is_remote_router (self : A) (origin : u32) (maybe_router : H256) : bool :=
  bool_decide (router self origin = Some maybe_router).

(** [only_remote_router] *)
Definition only_remote_router (self : A) (origin : u32) (maybe_router : H256) :
    outcome ProgramError unit :=
  require_or (is_remote_router self origin maybe_router) InvalidInstructionData.

(** [enroll_remote_routers] *)
Fixpoint enroll_remote_routers (self : A) (configs : list RemoteRouterConfig) :
    outcome ProgramError A :=
  match configs with
  | [] => Ok self
  | config :: configs => self ← enroll_remote_router self config; enroll_remote_routers self configs
  end.

(** [enroll_remote_router_only_owner] *)
Definition enroll_remote_router_only_owner `{AccessControl A} (self : A)
    (maybe_owner : AccountInfo) (config : RemoteRouterConfig) : outcome ProgramError A :=
  ensure_owner_signer self maybe_owner;;
  enroll_remote_router self config.

(** [enroll_remote_routers_only_owner] *)
Definition enroll_remote_routers_only_owner `{AccessControl A} (self : A)
    (maybe_owner : AccountInfo) (configs : list RemoteRouterConfig) : outcome ProgramError A :=
  ensure_owner_signer self maybe_owner;;
  enroll_remote_routers self configs.

(** [ensure_valid_router_message] *)
Definition ensure_valid_router_message `{HyperlaneConnectionClientRecipient A} (self : A)
    (maybe_mailbox_process_authority : AccountInfo) (origin : u32) (sender : H256) :
    outcome ProgramError unit :=
  ensure_mailbox_process_authority_signer self maybe_mailbox_process_authority;;
  only_remote_router self origin sender.
End router.

(** [HyperlaneRouter for HashMap<u32, H256>] *)
#[export] Instance HashMap_router : HyperlaneRouter (gmap u32 H256) := {
  router self origin := self !! origin;
  enroll_remote_router self config :=
    match config_router config with
    | Some router => Ok (<[router_domain config := router]> self)
    | None => Ok (delete (router_domain config) self)
    end
}.

(** ** Dispatching *)

Section dispatch.
Context `{Solana, HyperlaneRouter A, HyperlaneConnectionClient A}.
Context `{BorshSerialize Mailbox.Instruction, BorshSerialize Igp.Instruction}.
Context `{TryFromSlice H256}.

(** [HyperlaneRouterDispatch::dispatch] *)
Definition dispatch (self : A) (program_id : Pubkey) (dispatch_authority_seeds : list bytes)
    (destination_domain : u32) (message_body : bytes) (account_metas : list AccountMeta)
    (account_infos : list AccountInfo) : prog H256 :=
  recipient ← lift (ok_or (router self destination_domain) InvalidArgument);
  data ← lift (Mailbox.into_instruction_data (Mailbox.OutboxDispatchIxn
    (MkOutboxDispatch program_id destination_domain recipient message_body)));
  invoke_signed (MkInstruction (mailbox self) account_metas data) account_infos
    [dispatch_authority_seeds];;
  returned ← get_return_data;
  '(returning_program_id, returned_data) ← lift (ok_or returned InvalidArgument);
  require (bool_decide (returning_program_id = mailbox self)) InvalidArgument;;
  lift (map_err (λ _, InvalidArgument) (try_from_slice returned_data)).

(** [HyperlaneRouterDispatch::dispatch_with_gas] *)
Definition router_dispatch_with_gas (self : A) (program_id : Pubkey)
    (dispatch_authority_seeds : list bytes) (destination_domain : u32) (message_body : bytes)
    (gas_amount : u64) (dispatch_account_metas : list AccountMeta)
    (dispatch_account_infos : list AccountInfo) (payment_account_metas : list AccountMeta)
    (payment_account_infos : list AccountInfo) : prog H256 :=
  message_id ← dispatch self program_id dispatch_authority_seeds destination_domain
    message_body dispatch_account_metas dispatch_account_infos;
  '(igp_program_id, _) ← lift (ok_or (interchain_gas_paymaster self) InvalidArgument);
  data ← lift (expect (serialize
    (PayForGasIxn (MkPayForGas message_id destination_domain gas_amount))));
  invoke (MkInstruction igp_program_id payment_account_metas data) payment_account_infos;;
  mret message_id.
End dispatch.

(** ** [gas_router.rs] *)

Record GasRouterConfig := MkGasRouterConfig {
  gas_domain : u32;
  config_gas : option u64
}.

Class HyperlaneGasRouter (A : Type) := {
  destination_gas : A -> u32 -> option u64;
  set_destination_gas : A -> GasRouterConfig -> A
}.
#[global] Hint Mode HyperlaneGasRouter ! : typeclass_instances.

Section gas_router.
Context `{HyperlaneGasRouter A}.

(** [set_destination_gas_configs] *)
Definition set_destination_gas_configs (self : A) (configs : list GasRouterConfig) : A :=
  foldl set_destination_gas self configs.

(** [set_destination_gas_only_owner] *)
Definition set_destination_gas_only_owner `{AccessControl A} (self : A)
    (maybe_owner : AccountInfo) (config : GasRouterConfig) : outcome ProgramError A :=
  ensure_owner_signer self maybe_owner;;
  Ok (set_destination_gas self config).

(** [set_destination_gas_configs_only_owner] *)
Definition set_destination_gas_configs_only_owner `{AccessControl A} (self : A)
    (maybe_owner : AccountInfo) (configs : list GasRouterConfig) : outcome ProgramError A :=
  ensure_owner_signer self maybe_owner;;
  Ok (set_destination_gas_configs self configs).

(** [HyperlaneGasRouterDispatch::dispatch_with_gas] *)
Definition dispatch_with_gas `{Solana, !HyperlaneRouter A, !HyperlaneConnectionClient A}
    `{BorshSerialize Mailbox.Instruction, BorshSerialize Igp.Instruction}
    `{TryFromSlice H256} (self : A) (program_id : Pubkey)
    (dispatch_authority_seeds : list bytes) (destination_domain : u32) (message_body : bytes)
    (dispatch_account_metas : list AccountMeta) (dispatch_account_infos : list AccountInfo)
    (payment_account_metas : list AccountMeta) (payment_account_infos : list AccountInfo) :
    prog H256 :=
  gas ← lift (ok_or (destination_gas self destination_domain) InvalidArgument);
  router_dispatch_with_gas self program_id dispatch_authority_seeds destination_domain
    message_body gas dispatch_account_metas dispatch_account_infos payment_account_metas
    payment_account_infos.
End gas_router.

(** [HyperlaneGasRouter for HashMap<u32, u64>] *)
#[export] Instance HashMap_gas_router : HyperlaneGasRouter (gmap u32 u64) := {
  destination_gas self destination := self !! destination;
  set_destination_gas self config :=
    match config_gas config with
    | Some gas => <[gas_domain config := gas]> self
    | None => delete (gas_domain config) self
    end
}.
