(* ===== verification/Token.v ===== *)
(** * The token library ([sealevel/libraries/hyperlane-sealevel-token])

    [message.rs], [error.rs], [accounts.rs], [instruction.rs] and [processor.rs]: the shared
    logic of the warp-route programs over a plugin, the class [HyperlaneSealevelTokenPlugin],
    that moves the tokens in and out. An [accounts_iter] is the list of the accounts left. *)

From S2P Require Import Prelude.
From S2P Require Import Codec.
From S2P Require Import U256.
From S2P Require Import Sealevel.
From S2P Require Import AccountUtils.
From S2P Require Import Interfaces.
From S2P Require Import Mailbox.
From S2P Require Import Igp.
From S2P Require Import ConnectionClient.
From stdpp Require Import base gmap list numbers strings sets.
From Stdlib Require Import ZArith Lia.

#[local] Open Scope Z_scope.

(** ** [error.rs] *)

Inductive Error := ExtraneousAccount | IntegerOverflow | MessageDecodeError.

(** [err as u32] and [From<Error> for ProgramError] *)
Definition Error_code (err : Error) : Z :=
  match err with ExtraneousAccount => 1 | IntegerOverflow => 2 | MessageDecodeError => 3 end.

Definition ProgramError_from (err : Error) : ProgramError := Custom (uwrap 4 (Error_code err)).

(** ** [message.rs] *)

Record TokenMessage := MkTokenMessage {
  tm_recipient : H256;
  tm_amount_or_id : U256;
  tm_metadata : bytes
}.

#[export] Instance TokenMessage_write_to : Encode TokenMessage := λ self,
  write_all (to_be (tm_recipient self));;
  write_all (to_be (tm_amount_or_id self));;
  write_all (tm_metadata self);;
  mret (Z.of_nat (32 + 32 + length (tm_metadata self))).

#[export] Instance TokenMessage_read_from : Decode TokenMessage :=
  recipient ← read_exact 32;
  amount_or_id ← read_exact 32;
  metadata ← read_to_end;
  mret (MkTokenMessage (from_be 32 recipient) (from_be 32 amount_or_id) metadata).

(** ** [accounts.rs] *)

Record HyperlaneToken (T : Type) := MkHyperlaneToken {
  tk_bump : u8;
  tk_mailbox : Pubkey;
  tk_mailbox_process_authority : Pubkey;
  dispatch_authority_bump : u8;
  decimals : u8;
  remote_decimals : u8;
  tk_owner : option Pubkey;
  tk_interchain_security_module : option Pubkey;
  tk_interchain_gas_paymaster : option (Pubkey * InterchainGasPaymasterType);
  tk_destination_gas : gmap u32 u64;
  remote_routers : gmap u32 H256;
  plugin_data : T
}.
Arguments MkHyperlaneToken {T} _ _ _ _ _ _ _ _ _ _ _ _.
Arguments tk_bump {T}.
Arguments tk_mailbox {T}.
Arguments tk_mailbox_process_authority {T}.
Arguments dispatch_authority_bump {T}.
Arguments decimals {T}.
Arguments remote_decimals {T}.
Arguments tk_owner {T}.
Arguments tk_interchain_security_module {T}.
Arguments tk_interchain_gas_paymaster {T}.
Arguments tk_destination_gas {T}.
Arguments remote_routers {T}.
Arguments plugin_data {T}.

#[export] Instance HyperlaneToken_default `{Default T} : Default (HyperlaneToken T) :=
  MkHyperlaneToken (byte 0) (uwrap 32 0) (uwrap 32 0) (byte 0) (byte 0) (byte 0) None None None
    ∅ ∅ default_value.

#[export] Instance HyperlaneToken_size `{SizedData T} : SizedData (HyperlaneToken T) := λ self,
  (1 + 32 + 32 + 1 + 1 + 1 + (1 + 32) + (1 + 32) + (1 + 32 + 1 + 32)
   + 4 + size (tk_destination_gas self) * (4 + 8)
   + 4 + size (remote_routers self) * (4 + 32)
   + sized (plugin_data self))%nat.

(** The setters of the fields that change *)
Section setters.
Context {T : Type}.

Definition with_owner (new_owner : option Pubkey) (t : HyperlaneToken T) : HyperlaneToken T :=
  MkHyperlaneToken (tk_bump t) (tk_mailbox t) (tk_mailbox_process_authority t)
    (dispatch_authority_bump t) (decimals t) (remote_decimals t) new_owner
    (tk_interchain_security_module t) (tk_interchain_gas_paymaster t) (tk_destination_gas t)
    (remote_routers t) (plugin_data t).

Definition with_mailbox (m : Pubkey) (t : HyperlaneToken T) : HyperlaneToken T :=
  MkHyperlaneToken (tk_bump t) m (tk_mailbox_process_authority t)
    (dispatch_authority_bump t) (decimals t) (remote_decimals t) (tk_owner t)
    (tk_interchain_security_module t) (tk_interchain_gas_paymaster t) (tk_destination_gas t)
    (remote_routers t) (plugin_data t).

Definition with_ism (ism : option Pubkey) (t : HyperlaneToken T) : HyperlaneToken T :=
  MkHyperlaneToken (tk_bump t) (tk_mailbox t) (tk_mailbox_process_authority t)
    (dispatch_authority_bump t) (decimals t) (remote_decimals t) (tk_owner t)
    ism (tk_interchain_gas_paymaster t) (tk_destination_gas t)
    (remote_routers t) (plugin_data t).

Definition with_igp (igp : option (Pubkey * InterchainGasPaymasterType))
    (t : HyperlaneToken T) : HyperlaneToken T :=
  MkHyperlaneToken (tk_bump t) (tk_mailbox t) (tk_mailbox_process_authority t)
    (dispatch_authority_bump t) (decimals t) (remote_decimals t) (tk_owner t)
    (tk_interchain_security_module t) igp (tk_destination_gas t)
    (remote_routers t) (plugin_data t).

Definition with_destination_gas (gas : gmap u32 u64) (t : HyperlaneToken T) :
    HyperlaneToken T :=
  MkHyperlaneToken (tk_bump t) (tk_mailbox t) (tk_mailbox_process_authority t)
    (dispatch_authority_bump t) (decimals t) (remote_decimals t) (tk_owner t)
    (tk_interchain_security_module t) (tk_interchain_gas_paymaster t) gas
    (remote_routers t) (plugin_data t).

Definition with_routers (routers : gmap u32 H256) (t : HyperlaneToken T) : HyperlaneToken T :=
  MkHyperlaneToken (tk_bump t) (tk_mailbox t) (tk_mailbox_process_authority t)
    (dispatch_authority_bump t) (decimals t) (remote_decimals t) (tk_owner t)
    (tk_interchain_security_module t) (tk_interchain_gas_paymaster t) (tk_destination_gas t)
    routers (plugin_data t).
End setters.

#[export] Instance HyperlaneToken_access {T} : AccessControl (HyperlaneToken T) := {
  ac_owner self := tk_owner self;
  set_owner self new_owner := Ok (with_owner new_owner self)
}.

#[export] Instance HyperlaneToken_client {T} : HyperlaneConnectionClient (HyperlaneToken T) := {
  mailbox := tk_mailbox;
  interchain_gas_paymaster := tk_interchain_gas_paymaster;
  interchain_security_module := tk_interchain_security_module
}.

#[export] Instance HyperlaneToken_setter {T} :
    HyperlaneConnectionClientSetter (HyperlaneToken T) := {
  set_mailbox self new_mailbox := with_mailbox new_mailbox self;
  set_interchain_gas_paymaster self new_igp := with_igp new_igp self;
  set_interchain_security_module self new_ism := with_ism new_ism self
}.

#[export] Instance HyperlaneToken_recipient {T} :
    HyperlaneConnectionClientRecipient (HyperlaneToken T) := tk_mailbox_process_authority.

#[export] Instance HyperlaneToken_router {T} : HyperlaneRouter (HyperlaneToken T) := {
  router self origin := router (remote_routers self) origin;
  enroll_remote_router self config :=
    routers ← enroll_remote_router (remote_routers self) config;
    Ok (with_routers routers self)
}.

#[export] Instance HyperlaneToken_gas_router {T} : HyperlaneGasRouter (HyperlaneToken T) := {
  destination_gas self destination := destination_gas (tk_destination_gas self) destination;
  set_destination_gas self config :=
    with_destination_gas (set_destination_gas (tk_destination_gas self) config) self
}.

(** [convert_decimals] *)
Definition convert_decimals `{U256Ops} (amount : U256) (from_decimals to_decimals : u8) :
    option U256 :=
  match (uval from_decimals ?= uval to_decimals) with
  | Gt =>
      divisor ← u256_checked_pow (u256_from (uwrap 8 10))
        (u256_from (uwrap 1 (uval from_decimals - uval to_decimals)));
      u256_checked_div amount divisor
  | Lt =>
      multiplier ← u256_checked_pow (u256_from (uwrap 8 10))
        (u256_from (uwrap 1 (uval to_decimals - uval from_decimals)));
      u256_checked_mul amount multiplier
  | Eq => Some amount
  end.

Section amounts.
Context `{U256Ops} {T : Type}.

(** [local_amount_to_remote_amount] *)
Definition local_amount_to_remote_amount (self : HyperlaneToken T) (amount : u64) :
    outcome ProgramError U256 :=
  ok_or (convert_decimals (u256_from amount) (decimals self) (remote_decimals self))
    InvalidArgument.

(** [remote_amount_to_local_amount] *)
Definition remote_amount_to_local_amount (self : HyperlaneToken T) (amount : U256) :
    outcome ProgramError u64 :=
  amount ← ok_or (convert_decimals amount (remote_decimals self) (decimals self))
    InvalidArgument;
  or_panic (u256_as_u64 amount).
End amounts.

(** ** [instruction.rs] *)

Record Init := MkInit {
  init_mailbox : Pubkey;
  init_interchain_security_module : option Pubkey;
  init_interchain_gas_paymaster : option (Pubkey * InterchainGasPaymasterType);
  init_decimals : u8;
  init_remote_decimals : u8
}.

Record TransferRemote := MkTransferRemote {
  xfer_destination_domain : u32;
  xfer_recipient : H256;
  xfer_amount_or_id : U256
}.

Inductive Instruction :=
  | InitIxn (init : Init)
  | TransferRemoteIxn (xfer : TransferRemote)
  | EnrollRemoteRouter (config : RemoteRouterConfig)
  | EnrollRemoteRouters (configs : list RemoteRouterConfig)
  | SetDestinationGasConfigs (configs : list GasRouterConfig)
  | SetInterchainSecurityModule (ism : option Pubkey)
  | SetInterchainGasPaymaster (igp : option (Pubkey * InterchainGasPaymasterType))
  | TransferOwnershipIxn (new_owner : option Pubkey).

#[export] Instance Instruction_discriminator : DiscriminatorData Instruction :=
  PROGRAM_INSTRUCTION_DISCRIMINATOR.

(** [hyperlane_token_pda_seeds!] of [processor.rs], the form without a bump seed *)
Definition hyperlane_token_pda_seeds : list bytes :=
  bstr <$> ["hyperlane_message_recipient"; "-"; "handle"; "-"; "account_metas"]%string.

(** ** Instruction builders, over [Pubkey::try_find_program_address] *)

Section instructions.
Context `{Solana, BorshSerialize Instruction}.
Context (try_find_program_address : list bytes -> Pubkey -> option (Pubkey * u8)).

(** [init_instruction] *)
Definition init_instruction (program_id payer : Pubkey) (init : Init) :
    outcome ProgramError SolanaInstruction :=
  '(token_key, _) ←
    ok_or (try_find_program_address hyperlane_token_pda_seeds program_id) InvalidSeeds;
  '(dispatch_authority_key, _) ←
    ok_or (try_find_program_address mailbox_message_dispatch_authority_pda_seeds program_id)
      InvalidSeeds;
  data ← discriminator_encode (InitIxn init);
  Ok (MkInstruction program_id
        [AccountMeta_new_readonly system_program_id false; AccountMeta_new token_key false;
         AccountMeta_new dispatch_authority_key false; AccountMeta_new payer true] data).

(** An instruction of the owner that may resize the token account. *)
Definition paying_owner_instruction (program_id owner_payer : Pubkey) (ixn : Instruction) :
    outcome ProgramError SolanaInstruction :=
  '(token_key, _) ←
    ok_or (try_find_program_address hyperlane_token_pda_seeds program_id) InvalidSeeds;
  data ← discriminator_encode ixn;
  Ok (MkInstruction program_id
        [AccountMeta_new_readonly system_program_id false; AccountMeta_new token_key false;
         AccountMeta_new owner_payer true] data).

(** An instruction of the owner that keeps the size of the token account. *)
Definition owner_instruction (program_id owner_payer : Pubkey) (ixn : Instruction) :
    outcome ProgramError SolanaInstruction :=
  '(token_key, _) ←
    ok_or (try_find_program_address hyperlane_token_pda_seeds program_id) InvalidSeeds;
  data ← discriminator_encode ixn;
  Ok (MkInstruction program_id
        [AccountMeta_new token_key false; AccountMeta_new_readonly owner_payer true] data).

Definition enroll_remote_routers_instruction (program_id owner_payer : Pubkey)
    (configs : list RemoteRouterConfig) : outcome ProgramError SolanaInstruction :=
  paying_owner_instruction program_id owner_payer (EnrollRemoteRouters configs).

(** [set_destination_gas_configs] of [instruction.rs] *)
Definition set_destination_gas_configs_instruction (program_id owner_payer : Pubkey)
    (configs : list GasRouterConfig) : outcome ProgramError SolanaInstruction :=
  paying_owner_instruction program_id owner_payer (SetDestinationGasConfigs configs).

Definition transfer_ownership_instruction (program_id owner_payer : Pubkey)
    (new_owner : option Pubkey) : outcome ProgramError SolanaInstruction :=
  owner_instruction program_id owner_payer (TransferOwnershipIxn new_owner).

Definition set_interchain_security_module_instruction (program_id owner_payer : Pubkey)
    (new_interchain_security_module : option Pubkey) :
    outcome ProgramError SolanaInstruction :=
  owner_instruction program_id owner_payer
    (SetInterchainSecurityModule new_interchain_security_module).

Definition set_igp_instruction (program_id owner_payer : Pubkey)
    (igp_program_and_account : option (Pubkey * InterchainGasPaymasterType)) :
    outcome ProgramError SolanaInstruction :=
  owner_instruction program_id owner_payer (SetInterchainGasPaymaster igp_program_and_account).
End instructions.

(** ** [processor.rs] *)

(** [trait HyperlaneSealevelTokenPlugin]; the handlers return the accounts left. *)
Class HyperlaneSealevelTokenPlugin (T : Type) := {
  plugin_initialize :
    Pubkey -> AccountInfo -> AccountInfo -> AccountInfo -> list AccountInfo ->
    prog (T * list AccountInfo);
  transfer_in :
    Pubkey -> HyperlaneToken T -> AccountInfo -> list AccountInfo -> u64 ->
    prog (list AccountInfo);
  transfer_out :
    Pubkey -> HyperlaneToken T -> AccountInfo -> AccountInfo -> list AccountInfo -> u64 ->
    prog (list AccountInfo);
  transfer_out_account_metas :
    Pubkey -> HyperlaneToken T -> TokenMessage ->
    outcome ProgramError (list SerializableAccountMeta * bool)
}.
#[global] Hint Mode HyperlaneSealevelTokenPlugin ! : typeclass_instances.

(** [if accounts_iter.next().is_some() { return Err(..) }] *)
Definition no_more_accounts (accounts_iter : list AccountInfo) : prog unit :=
  require (match accounts_iter with [] => true | _ => false end)
    (ProgramError_from ExtraneousAccount).

Section processor.
Context `{Solana, U256Ops}.
Context `{BorshSerialize bool, BorshDeserialize bool}.
Context `{HyperlaneSealevelTokenPlugin T, Default T, SizedData T}.
Context `{BorshSerialize (HyperlaneToken T), BorshDeserialize (HyperlaneToken T)}.

(** The fetch of the token account and its checks, written out in most handlers and as
    [HyperlaneToken::verify_account_and_fetch_inner] in the others *)
Definition verify_account_and_fetch_inner (program_id : Pubkey)
    (token_account_info : AccountInfo) : prog (HyperlaneToken T) :=
  d ← data_of token_account_info;
  token ← lift (AccountData.fetch (T := HyperlaneToken T) d);
  expected_token_key ← lift (create_program_address
    (with_bump hyperlane_token_pda_seeds (tk_bump token)) program_id);
  require (bool_decide (key token_account_info = expected_token_key)) InvalidArgument;;
  o ← owner_of token_account_info;
  require (bool_decide (o = program_id)) IncorrectProgramId;;
  mret token.

(** The check that a derived account of [initialize] does not exist. *)
Definition not_initialized (info : AccountInfo) : prog unit :=
  empty ← data_is_empty info;
  require empty AccountAlreadyInitialized;;
  o ← owner_of info;
  require (bool_decide (o = system_program_id)) AccountAlreadyInitialized.

(** [HyperlaneSealevelToken::initialize] *)
Definition initialize (program_id : Pubkey) (accounts_iter : list AccountInfo) (init : Init) :
    prog unit :=
  (* Account 0: System program *)
  '(system_program, accounts_iter) ← next_account_info accounts_iter;
  require (bool_decide (key system_program = system_program_id)) IncorrectProgramId;;
  (* Account 1: Token storage account *)
  '(token_account, accounts_iter) ← next_account_info accounts_iter;
  let '(token_key, token_bump) :=
    find_program_address hyperlane_token_pda_seeds program_id in
  require (bool_decide (token_key = key token_account)) IncorrectProgramId;;
  not_initialized token_account;;
  (* Account 2: Dispatch authority PDA. *)
  '(dispatch_authority_account, accounts_iter) ← next_account_info accounts_iter;
  let '(dispatch_authority_key, dispatch_authority_bump) :=
    find_program_address mailbox_message_dispatch_authority_pda_seeds program_id in
  require (bool_decide (key dispatch_authority_account = dispatch_authority_key))
    IncorrectProgramId;;
  not_initialized dispatch_authority_account;;
  (* Account 3: Payer *)
  '(payer_account, accounts_iter) ← next_account_info accounts_iter;
  require (is_signer payer_account) MissingRequiredSignature;;
  let '(mailbox_process_authority, _) :=
    find_program_address (mailbox_process_authority_pda_seeds program_id)
      (init_mailbox init) in
  '(plugin_data, accounts_iter) ←
    plugin_initialize program_id system_program token_account payer_account accounts_iter;
  no_more_accounts accounts_iter;;
  rent ← lift Rent_get;
  let token := MkHyperlaneToken token_bump (init_mailbox init) mailbox_process_authority
    dispatch_authority_bump (init_decimals init) (init_remote_decimals init)
    (Some (key payer_account)) (init_interchain_security_module init)
    (init_interchain_gas_paymaster init) ∅ ∅ plugin_data in
  (* Create token account PDA *)
  create_pda_account payer_account rent (AccountData.size token) program_id system_program
    token_account (with_bump hyperlane_token_pda_seeds token_bump);;
  (* Create dispatch authority PDA *)
  create_pda_account payer_account rent 0 program_id system_program dispatch_authority_account
    (with_bump mailbox_message_dispatch_authority_pda_seeds dispatch_authority_bump);;
  AccountData.store token token_account false.

(** The gas-payment accounts of [transfer_remote], in the order [PayForGas] expects, and the
    accounts left. *)
Definition igp_payment_accounts (token : HyperlaneToken T)
    (system_program_account sender_wallet unique_message_account : AccountInfo)
    (accounts_iter : list AccountInfo) :
    prog (option (list AccountMeta * list AccountInfo) * list AccountInfo) :=
  match interchain_gas_paymaster token with
  | None => mret (None, accounts_iter)
  | Some (igp_program_id, igp_account_type) =>
      (* Account 9: The IGP program *)
      '(igp_program_account, accounts_iter) ← next_account_info accounts_iter;
      require (bool_decide (key igp_program_account = igp_program_id)) InvalidArgument;;
      (* Account 10: The IGP program data. *)
      '(igp_program_data_account, accounts_iter) ← next_account_info accounts_iter;
      (* Account 11: The gas payment PDA. *)
      '(igp_payment_pda_account, accounts_iter) ← next_account_info accounts_iter;
      (* Account 12: The configured IGP account. *)
      '(configured_igp_account, accounts_iter) ← next_account_info accounts_iter;
      require (bool_decide (key configured_igp_account = paymaster_key igp_account_type))
        InvalidArgument;;
      let metas :=
        [AccountMeta_new_readonly system_program_id false;
         AccountMeta_new (key sender_wallet) true;
         AccountMeta_new (key igp_program_data_account) false;
         AccountMeta_new_readonly (key unique_message_account) true;
         AccountMeta_new (key igp_payment_pda_account) false] in
      let infos :=
        [system_program_account; sender_wallet; igp_program_data_account;
         unique_message_account; igp_payment_pda_account] in
      match igp_account_type with
      | IgpType _ =>
          mret (Some (metas ++ [AccountMeta_new (key configured_igp_account) false],
                      infos ++ [configured_igp_account]), accounts_iter)
      | OverheadIgpType _ =>
          (* Account 13: The inner IGP account. *)
          '(inner_igp_account, accounts_iter) ← next_account_info accounts_iter;
          mret (Some (metas ++ [AccountMeta_new (key inner_igp_account) false;
                                AccountMeta_new_readonly (key configured_igp_account) false],
                      infos ++ [inner_igp_account; configured_igp_account]), accounts_iter)
      end
  end.

Context `{BorshSerialize Mailbox.Instruction, BorshSerialize Igp.Instruction}.
Context `{TryFromSlice H256}.

(** [HyperlaneSealevelToken::transfer_remote] *)
Definition transfer_remote (program_id : Pubkey) (accounts_iter : list AccountInfo)
    (xfer : TransferRemote) : prog unit :=
  (* Account 0: System program. *)
  '(system_program_account, accounts_iter) ← next_account_info accounts_iter;
  require (bool_decide (key system_program_account = system_program_id)) InvalidArgument;;
  (* Account 1: SPL Noop. *)
  '(spl_noop, accounts_iter) ← next_account_info accounts_iter;
  require (bool_decide (key spl_noop = spl_noop_id)) InvalidArgument;;
  (* Account 2: Token storage account *)
  '(token_account, accounts_iter) ← next_account_info accounts_iter;
  token ← verify_account_and_fetch_inner program_id token_account;
  (* Account 3: Mailbox program *)
  '(mailbox_info, accounts_iter) ← next_account_info accounts_iter;
  require (bool_decide (key mailbox_info = tk_mailbox token)) IncorrectProgramId;;
  (* Account 4: Mailbox Outbox data account. *)
  '(mailbox_outbox_account, accounts_iter) ← next_account_info accounts_iter;
  (* Account 5: Message dispatch authority *)
  '(dispatch_authority_account, accounts_iter) ← next_account_info accounts_iter;
  let dispatch_authority_seeds :=
    with_bump mailbox_message_dispatch_authority_pda_seeds (dispatch_authority_bump token) in
  dispatch_authority_key ← lift (create_program_address dispatch_authority_seeds program_id);
  require (bool_decide (key dispatch_authority_account = dispatch_authority_key))
    InvalidArgument;;
  (* Account 6: Sender account / mailbox payer *)
  '(sender_wallet, accounts_iter) ← next_account_info accounts_iter;
  require (is_signer sender_wallet) MissingRequiredSignature;;
  (* Account 7: Unique message / gas payment account *)
  '(unique_message_account, accounts_iter) ← next_account_info accounts_iter;
  (* Account 8: Message storage PDA. *)
  '(dispatched_message_pda, accounts_iter) ← next_account_info accounts_iter;
  '(igp_payment, accounts_iter) ←
    igp_payment_accounts token system_program_account sender_wallet unique_message_account
      accounts_iter;
  local_amount ← lift (ok_or (u256_try_into_u64 (xfer_amount_or_id xfer))
    (ProgramError_from IntegerOverflow));
  remote_amount ← lift (local_amount_to_remote_amount token local_amount);
  (* Transfer [local_amount] of tokens in... *)
  accounts_iter ← transfer_in program_id token sender_wallet accounts_iter local_amount;
  no_more_accounts accounts_iter;;
  let dispatch_account_metas :=
    [AccountMeta_new (key mailbox_outbox_account) false;
     AccountMeta_new_readonly (key dispatch_authority_account) true;
     AccountMeta_new_readonly system_program_id false;
     AccountMeta_new_readonly spl_noop_id false;
     AccountMeta_new (key sender_wallet) true;
     AccountMeta_new_readonly (key unique_message_account) true;
     AccountMeta_new (key dispatched_message_pda) false] in
  let dispatch_account_infos :=
    [mailbox_outbox_account; dispatch_authority_account; system_program_account; spl_noop;
     sender_wallet; unique_message_account; dispatched_message_pda] in
  let token_transfer_message :=
    to_vec (MkTokenMessage (xfer_recipient xfer) remote_amount []) in
  match igp_payment with
  | Some (igp_payment_account_metas, igp_payment_account_infos) =>
      (* Dispatch the message and pay for gas. *)
      dispatch_with_gas token program_id dispatch_authority_seeds
        (xfer_destination_domain xfer) token_transfer_message dispatch_account_metas
        dispatch_account_infos igp_payment_account_metas igp_payment_account_infos;;
      mret tt
  | None =>
      (* Dispatch the message. *)
      dispatch token program_id dispatch_authority_seeds (xfer_destination_domain xfer)
        token_transfer_message dispatch_account_metas dispatch_account_infos;;
      mret tt
  end.

(** [TokenMessage::read_from] over the body of a message, under the error of the program *)
Definition read_token_message (message : bytes) : outcome ProgramError TokenMessage :=
  map_err (λ _, ProgramError_from MessageDecodeError)
    (eval_st (read_from (A := TokenMessage)) message).

(** [HyperlaneSealevelToken::transfer_from_remote] *)
Definition transfer_from_remote (program_id : Pubkey) (accounts_iter : list AccountInfo)
    (xfer : HandleInstruction) : prog unit :=
  message ← lift (read_token_message (handle_message xfer));
  (* Account 0: Mailbox authority *)
  '(process_authority_account, accounts_iter) ← next_account_info accounts_iter;
  (* Account 1: System program *)
  '(system_program, accounts_iter) ← next_account_info accounts_iter;
  require (bool_decide (key system_program = system_program_id)) InvalidArgument;;
  (* Account 2: Token account *)
  '(token_account, accounts_iter) ← next_account_info accounts_iter;
  token ← verify_account_and_fetch_inner program_id token_account;
  (* Account 3: Recipient wallet *)
  '(recipient_wallet, accounts_iter) ← next_account_info accounts_iter;
  let expected_recipient := tm_recipient message in
  require (bool_decide (key recipient_wallet = expected_recipient)) InvalidArgument;;
  (* Verify the authenticity of the message. *)
  lift (ensure_valid_router_message token process_authority_account (handle_origin xfer)
    (handle_sender xfer));;
  let remote_amount := tm_amount_or_id message in
  local_amount ← lift (remote_amount_to_local_amount token remote_amount);
  (* Transfer the [local_amount] of tokens out. *)
  accounts_iter ← transfer_out program_id token system_program recipient_wallet accounts_iter
    local_amount;
  no_more_accounts accounts_iter.

(** [HyperlaneSealevelToken::transfer_from_remote_account_metas] *)
Definition transfer_from_remote_account_metas
    `{BorshSerialize (SimulationReturnData (list SerializableAccountMeta))}
    (program_id : Pubkey) (accounts_iter : list AccountInfo) (transfer : HandleInstruction) :
    prog unit :=
  message ← lift (read_token_message (handle_message transfer));
  (* Account 0: Token account. *)
  '(token_account_info, _) ← next_account_info accounts_iter;
  token ← verify_account_and_fetch_inner program_id token_account_info;
  '(transfer_out_metas, writeable_recipient) ←
    lift (transfer_out_account_metas program_id token message);
  let accounts := (SerializableAccountMeta_from <$>
    [AccountMeta_new_readonly system_program_id false;
     AccountMeta_new_readonly (key token_account_info) false;
     MkAccountMeta (tm_recipient message) false writeable_recipient])
    ++ transfer_out_metas in
  bytes ← lift (borsh_err (serialize (SimulationReturnData_new accounts)));
  set_return_data bytes.

(** The account of the handlers that may resize it: the system program, the token account and
    its owner, who pays. *)
Definition update_and_resize (program_id : Pubkey) (accounts_iter : list AccountInfo)
    (update : HyperlaneToken T -> AccountInfo -> outcome ProgramError (HyperlaneToken T)) :
    prog unit :=
  (* Account 0: System program. *)
  '(system_program, accounts_iter) ← next_account_info accounts_iter;
  require (bool_decide (key system_program = system_program_id)) InvalidArgument;;
  (* Account 1: Token account *)
  '(token_account, accounts_iter) ← next_account_info accounts_iter;
  token ← verify_account_and_fetch_inner program_id token_account;
  (* Account 2: Owner *)
  '(owner_account, _) ← next_account_info accounts_iter;
  token ← lift (update token owner_account);
  rent ← lift Rent_get;
  AccountData.store_with_rent_exempt_realloc token token_account rent owner_account.

(** The accounts of the handlers that keep the size: the token account and its owner. *)
Definition update_in_place (program_id : Pubkey) (accounts_iter : list AccountInfo)
    (update : HyperlaneToken T -> AccountInfo -> outcome ProgramError (HyperlaneToken T)) :
    prog unit :=
  (* Account 0: Token account *)
  '(token_account, accounts_iter) ← next_account_info accounts_iter;
  token ← verify_account_and_fetch_inner program_id token_account;
  (* Account 1: Owner *)
  '(owner_account, _) ← next_account_info accounts_iter;
  token ← lift (update token owner_account);
  AccountData.store token token_account false.

(** [HyperlaneSealevelToken::enroll_remote_router] *)
Definition process_enroll_remote_router (program_id : Pubkey) (accounts : list AccountInfo)
    (config : RemoteRouterConfig) : prog unit :=
  update_and_resize program_id accounts
    (λ token owner, enroll_remote_router_only_owner token owner config).

(** [HyperlaneSealevelToken::enroll_remote_routers] *)
Definition process_enroll_remote_routers (program_id : Pubkey) (accounts : list AccountInfo)
    (configs : list RemoteRouterConfig) : prog unit :=
  update_and_resize program_id accounts
    (λ token owner, enroll_remote_routers_only_owner token owner configs).

(** [HyperlaneSealevelToken::set_destination_gas_configs] *)
Definition process_set_destination_gas_configs (program_id : Pubkey)
    (accounts : list AccountInfo) (configs : list GasRouterConfig) : prog unit :=
  update_and_resize program_id accounts
    (λ token owner, set_destination_gas_configs_only_owner token owner configs).

(** [HyperlaneSealevelToken::transfer_ownership] *)
Definition process_transfer_ownership (program_id : Pubkey) (accounts : list AccountInfo)
    (new_owner : option Pubkey) : prog unit :=
  update_in_place program_id accounts
    (λ token owner, transfer_ownership token owner new_owner).

(** [HyperlaneSealevelToken::set_interchain_security_module] *)
Definition process_set_interchain_security_module (program_id : Pubkey)
    (accounts : list AccountInfo) (ism : option Pubkey) : prog unit :=
  update_in_place program_id accounts
    (λ token owner, set_interchain_security_module_only_owner token owner ism).

(** [HyperlaneSealevelToken::set_interchain_gas_paymaster] *)
Definition process_set_interchain_gas_paymaster (program_id : Pubkey)
    (accounts : list AccountInfo) (igp : option (Pubkey * InterchainGasPaymasterType)) :
    prog unit :=
  update_in_place program_id accounts
    (λ token owner, set_interchain_gas_paymaster_only_owner token owner igp).

(** [HyperlaneSealevelToken::interchain_security_module] *)
Definition process_interchain_security_module `{BorshSerialize (option Pubkey)}
    (program_id : Pubkey) (accounts_iter : list AccountInfo) : prog unit :=
  (* Account 0: Token account *)
  '(token_account, _) ← next_account_info accounts_iter;
  token ← verify_account_and_fetch_inner program_id token_account;
  set_interchain_security_module_return_data token.

(** [HyperlaneSealevelToken::interchain_security_module_account_metas] *)
Definition interchain_security_module_account_metas
    `{BorshSerialize (SimulationReturnData (list SerializableAccountMeta))}
    (program_id : Pubkey) : prog unit :=
  let '(token_key, _) := find_program_address hyperlane_token_pda_seeds program_id in
  let account_metas :=
    [SerializableAccountMeta_from (AccountMeta_new_readonly token_key false)] in
  bytes ← lift (borsh_err (serialize (SimulationReturnData_new account_metas)));
  set_return_data bytes.

(** [process_instruction] of the three programs *)
Definition process_instruction `{BorshSerialize (option Pubkey)}
    `{BorshSerialize (SimulationReturnData (list SerializableAccountMeta))}
    `{TryFromSlice HandleInstruction, TryFromSlice Instruction}
    (program_id : Pubkey) (accounts : list AccountInfo) (instruction_data : bytes) :
    prog unit :=
  (* First, an instruction of the message recipient interface *)
  match Recipient.decode instruction_data with
  | Panic => panic
  | Ok InterchainSecurityModule => process_interchain_security_module program_id accounts
  | Ok InterchainSecurityModuleAccountMetas =>
      interchain_security_module_account_metas program_id
  | Ok (Handle handle) => transfer_from_remote program_id accounts handle
  | Ok (HandleAccountMetas handle) =>
      transfer_from_remote_account_metas program_id accounts handle
  | Err _ =>
      (* Otherwise, a token instruction *)
      ixn ← lift (discriminator_decode (T := Instruction) instruction_data);
      match ixn with
      | InitIxn init => initialize program_id accounts init
      | TransferRemoteIxn xfer => transfer_remote program_id accounts xfer
      | EnrollRemoteRouter config => process_enroll_remote_router program_id accounts config
      | EnrollRemoteRouters configs => process_enroll_remote_routers program_id accounts configs
      | SetDestinationGasConfigs configs =>
          process_set_destination_gas_configs program_id accounts configs
      | TransferOwnershipIxn new_owner =>
          process_transfer_ownership program_id accounts new_owner
      | SetInterchainSecurityModule new_ism =>
          process_set_interchain_security_module program_id accounts new_ism
      | SetInterchainGasPaymaster new_igp =>
          process_set_interchain_gas_paymaster program_id accounts new_igp
      end
  end.
End processor.
