(* ===== verification/TokenPlugins.v ===== *)
(** * The plugins of the warp routes

    [programs/hyperlane-sealevel-token-native], [hyperlane-sealevel-token] (synthetic) and
    [hyperlane-sealevel-token-collateral], [plugin.rs] and [instruction.rs], a Module each. The
    three [processor.rs] forward to [Token.process_instruction] at their plugin. The token
    programs of SPL and the associated-token-account program are not part of the repository:
    the class [SplToken] holds their ids and the instructions their crates build. *)

From S2P Require Import Prelude.
From S2P Require Import Codec.
From S2P Require Import U256.
From S2P Require Import Sealevel.
From S2P Require Import AccountUtils.
From S2P Require Import Interfaces.
From S2P Require Import Mailbox.
From S2P Require Import Igp.
From S2P Require Import ConnectionClient.
From S2P Require Import Token.
From stdpp Require Import base gmap list numbers strings sets.
From Stdlib Require Import ZArith Lia.

#[local] Open Scope Z_scope.

(** ** Native lamports *)

Module Native.
Section native.
Context `{Solana}.

(** [hyperlane_token_native_collateral_pda_seeds!], without a bump seed *)
Definition hyperlane_token_native_collateral_pda_seeds : list bytes :=
  bstr <$> ["hyperlane_token"; "-"; "native_collateral"]%string.

Record NativePlugin := MkNativePlugin { native_collateral_bump : u8 }.

#[export] Instance NativePlugin_size : SizedData NativePlugin := λ _, 1%nat.
#[export] Instance NativePlugin_default : Default NativePlugin := MkNativePlugin (byte 0).

(** [NativePlugin::verify_native_collateral_account_info] *)
Definition verify_native_collateral_account_info (program_id : Pubkey)
    (token : HyperlaneToken NativePlugin) (native_collateral_account_info : AccountInfo) :
    outcome ProgramError unit :=
  expected_native_collateral_key ← create_program_address
    (with_bump hyperlane_token_native_collateral_pda_seeds
       (native_collateral_bump (plugin_data token))) program_id;
  require_or (bool_decide (key native_collateral_account_info = expected_native_collateral_key))
    InvalidArgument.

(** [NativePlugin::initialize] *)
Definition initialize (program_id : Pubkey) (system_program _token_account payer_account :
    AccountInfo) (accounts_iter : list AccountInfo) : prog (NativePlugin * list AccountInfo) :=
  (* Account 0: Native collateral PDA account. *)
  '(native_collateral_account, accounts_iter) ← next_account_info accounts_iter;
  let '(native_collateral_key, native_collateral_bump) :=
    find_program_address hyperlane_token_native_collateral_pda_seeds program_id in
  require (bool_decide (native_collateral_key = key native_collateral_account))
    InvalidArgument;;
  rent ← lift Rent_get;
  create_pda_account payer_account rent 0 system_program_id system_program
    native_collateral_account
    (with_bump hyperlane_token_native_collateral_pda_seeds native_collateral_bump);;
  mret (MkNativePlugin native_collateral_bump, accounts_iter).

(** [NativePlugin::transfer_in] *)
Definition transfer_in (program_id : Pubkey) (token : HyperlaneToken NativePlugin)
    (sender_wallet : AccountInfo) (accounts_iter : list AccountInfo) (amount : u64) :
    prog (list AccountInfo) :=
  (* Account 0: System program. *)
  '(system_program, accounts_iter) ← next_account_info accounts_iter;
  require (bool_decide (key system_program = system_program_id)) InvalidArgument;;
  (* Account 1: Native collateral PDA account. *)
  '(native_collateral_account, accounts_iter) ← next_account_info accounts_iter;
  lift (verify_native_collateral_account_info program_id token native_collateral_account);;
  (* Transfer tokens into the native collateral account. *)
  invoke (system_transfer (key sender_wallet) (key native_collateral_account) amount)
    [sender_wallet; native_collateral_account];;
  mret accounts_iter.

(** [NativePlugin::transfer_out] *)
Definition transfer_out (program_id : Pubkey) (token : HyperlaneToken NativePlugin)
    (_system_program recipient_wallet : AccountInfo) (accounts_iter : list AccountInfo)
    (amount : u64) : prog (list AccountInfo) :=
  (* Account 0: System program. *)
  '(system_program, accounts_iter) ← next_account_info accounts_iter;
  require (bool_decide (key system_program = system_program_id)) InvalidArgument;;
  (* Account 1: Native collateral PDA account. *)
  '(native_collateral_account, accounts_iter) ← next_account_info accounts_iter;
  lift (verify_native_collateral_account_info program_id token native_collateral_account);;
  invoke_signed
    (system_transfer (key native_collateral_account) (key recipient_wallet) amount)
    [native_collateral_account; recipient_wallet]
    [with_bump hyperlane_token_native_collateral_pda_seeds
       (native_collateral_bump (plugin_data token))];;
  (* Ensure the native collateral account is still rent exempt. *)
  rent ← lift Rent_get;
  verify_rent_exempt native_collateral_account rent;;
  mret accounts_iter.

(** [NativePlugin::transfer_out_account_metas] *)
Definition transfer_out_account_metas (program_id : Pubkey)
    (_token : HyperlaneToken NativePlugin) (_token_message : TokenMessage) :
    outcome ProgramError (list SerializableAccountMeta * bool) :=
  let '(native_collateral_key, _) :=
    find_program_address hyperlane_token_native_collateral_pda_seeds program_id in
  Ok (SerializableAccountMeta_from <$>
        [AccountMeta_new_readonly system_program_id false;
         AccountMeta_new native_collateral_key false], true).

#[export] Instance NativePlugin_plugin : HyperlaneSealevelTokenPlugin NativePlugin := {
  plugin_initialize := initialize;
  Token.transfer_in := transfer_in;
  Token.transfer_out := transfer_out;
  Token.transfer_out_account_metas := transfer_out_account_metas
}.

(** [init_instruction] *)
Definition init_instruction `{BorshSerialize Token.Instruction}
    (try_find_program_address : list bytes -> Pubkey -> option (Pubkey * u8))
    (program_id payer : Pubkey) (init : Token.Init) : outcome ProgramError SolanaInstruction :=
  instruction ← Token.init_instruction try_find_program_address program_id payer init;
  let '(native_collateral_key, _) :=
    find_program_address hyperlane_token_native_collateral_pda_seeds program_id in
  Ok (MkInstruction (ix_program_id instruction)
        (ix_accounts instruction ++ [AccountMeta_new native_collateral_key false])
        (ix_data instruction)).

(** [process_instruction] of [processor.rs], whose handlers forward to the library *)
Definition process_instruction `{U256Ops, BorshSerialize bool, BorshDeserialize bool}
    `{BorshSerialize (HyperlaneToken NativePlugin), BorshDeserialize (HyperlaneToken NativePlugin)}
    `{BorshSerialize Mailbox.Instruction, BorshSerialize Igp.Instruction}
    `{TryFromSlice H256, BorshSerialize (option Pubkey)}
    `{BorshSerialize (SimulationReturnData (list SerializableAccountMeta))}
    `{TryFromSlice HandleInstruction, TryFromSlice Token.Instruction}
    (program_id : Pubkey) (accounts : list AccountInfo) (instruction_data : bytes) :
    prog unit :=
  Token.process_instruction (T := NativePlugin) program_id accounts instruction_data.
End native.
End Native.

(** ** The SPL programs *)

Class SplToken := {
  spl_token_id : Pubkey;
  spl_token_2022_id : Pubkey;
  spl_associated_token_account_id : Pubkey;
  rent_sysvar_id : Pubkey;
  (** [spl_token_2022::state::Mint::LEN] *)
  Mint_LEN : nat;
  (** wallet, mint, token program *)
  get_associated_token_address_with_program_id : Pubkey -> Pubkey -> Pubkey -> Pubkey;
  (** funding address, wallet, mint, token program *)
  create_associated_token_account_idempotent :
    Pubkey -> Pubkey -> Pubkey -> Pubkey -> SolanaInstruction;
  (** token program, account, mint, authority, signers, amount, decimals *)
  burn_checked : Pubkey -> Pubkey -> Pubkey -> Pubkey -> list Pubkey -> u64 -> u8 ->
    outcome ProgramError SolanaInstruction;
  (** token program, mint, account, owner, signers, amount, decimals *)
  mint_to_checked : Pubkey -> Pubkey -> Pubkey -> Pubkey -> list Pubkey -> u64 -> u8 ->
    outcome ProgramError SolanaInstruction;
  (** token program, source, mint, destination, authority, signers, amount, decimals *)
  transfer_checked : Pubkey -> Pubkey -> Pubkey -> Pubkey -> Pubkey -> list Pubkey -> u64 ->
    u8 -> outcome ProgramError SolanaInstruction;
  (** token program, mint; no extensions *)
  get_account_data_size : Pubkey -> Pubkey -> outcome ProgramError SolanaInstruction;
  (** token program, account, mint, owner *)
  initialize_account : Pubkey -> Pubkey -> Pubkey -> Pubkey ->
    outcome ProgramError SolanaInstruction
}.

(** [hyperlane_token_ata_payer_pda_seeds!] of both SPL plugins, without a bump seed *)
Definition hyperlane_token_ata_payer_pda_seeds : list bytes :=
  bstr <$> ["hyperlane_token"; "-"; "ata_payer"]%string.

(** [verify_ata_payer_account_info] of both SPL plugins, by the stored bump seed *)
Definition verify_ata_payer_account_info `{Solana} (program_id : Pubkey)
    (ata_payer_bump : u8) (ata_payer_account_info : AccountInfo) : outcome ProgramError unit :=
  expected_ata_payer_account ← create_program_address
    (with_bump hyperlane_token_ata_payer_pda_seeds ata_payer_bump) program_id;
  require_or (bool_decide (key ata_payer_account_info = expected_ata_payer_account))
    InvalidArgument.

(** ** Synthetic tokens: minted and burned *)

Module Synthetic.
Section synthetic.
Context `{Solana, SplToken}.

(** [hyperlane_token_mint_pda_seeds!], without a bump seed *)
Definition hyperlane_token_mint_pda_seeds : list bytes :=
  bstr <$> ["hyperlane_token"; "-"; "mint"]%string.

Record SyntheticPlugin := MkSyntheticPlugin {
  mint : Pubkey;
  mint_bump : u8;
  ata_payer_bump : u8
}.

#[export] Instance SyntheticPlugin_size : SizedData SyntheticPlugin := λ _, (32 + 1 + 1)%nat.
#[export] Instance SyntheticPlugin_default : Default SyntheticPlugin :=
  MkSyntheticPlugin (uwrap 32 0) (byte 0) (byte 0).

(** [SyntheticPlugin::verify_mint_account_info] *)
Definition verify_mint_account_info (program_id : Pubkey)
    (token : HyperlaneToken SyntheticPlugin) (mint_account_info : AccountInfo) : prog unit :=
  expected_mint_key ← lift (create_program_address
    (with_bump hyperlane_token_mint_pda_seeds (mint_bump (plugin_data token))) program_id);
  require (bool_decide (key mint_account_info = expected_mint_key)) InvalidArgument;;
  require (bool_decide (key mint_account_info = mint (plugin_data token))) InvalidArgument;;
  o ← owner_of mint_account_info;
  require (bool_decide (o = spl_token_2022_id)) IncorrectProgramId.

(** [SyntheticPlugin::initialize] *)
Definition initialize (program_id : Pubkey) (system_program _token_account payer_account :
    AccountInfo) (accounts_iter : list AccountInfo) :
    prog (SyntheticPlugin * list AccountInfo) :=
  (* Account 0: Mint / mint authority *)
  '(mint_account, accounts_iter) ← next_account_info accounts_iter;
  let '(mint_key, mint_bump) :=
    find_program_address hyperlane_token_mint_pda_seeds program_id in
  require (bool_decide (mint_key = key mint_account)) InvalidArgument;;
  rent ← lift Rent_get;
  (* Create mint / mint authority PDA, owned by the token program. *)
  create_pda_account payer_account rent Mint_LEN spl_token_2022_id system_program mint_account
    (with_bump hyperlane_token_mint_pda_seeds mint_bump);;
  (* Account 1: ATA payer. *)
  '(ata_payer_account, accounts_iter) ← next_account_info accounts_iter;
  let '(ata_payer_key, ata_payer_bump) :=
    find_program_address hyperlane_token_ata_payer_pda_seeds program_id in
  require (bool_decide (ata_payer_key = key ata_payer_account)) InvalidArgument;;
  create_pda_account payer_account rent 0 system_program_id system_program ata_payer_account
    (with_bump hyperlane_token_ata_payer_pda_seeds ata_payer_bump);;
  mret (MkSyntheticPlugin mint_key mint_bump ata_payer_bump, accounts_iter).

(** [SyntheticPlugin::transfer_in] *)
Definition transfer_in (program_id : Pubkey) (token : HyperlaneToken SyntheticPlugin)
    (sender_wallet : AccountInfo) (accounts_iter : list AccountInfo) (amount : u64) :
    prog (list AccountInfo) :=
  (* 0. SPL token 2022 program *)
  '(spl_token_2022, accounts_iter) ← next_account_info accounts_iter;
  require (bool_decide (key spl_token_2022 = spl_token_2022_id) && executable spl_token_2022)
    InvalidArgument;;
  (* 1. The mint / mint authority. *)
  '(mint_account, accounts_iter) ← next_account_info accounts_iter;
  verify_mint_account_info program_id token mint_account;;
  (* 2. The sender's associated token account. *)
  '(sender_ata, accounts_iter) ← next_account_info accounts_iter;
  require (bool_decide (key sender_ata = get_associated_token_address_with_program_id
    (key sender_wallet) (key mint_account) spl_token_2022_id)) InvalidArgument;;
  burn_ixn ← lift (burn_checked spl_token_2022_id (key sender_ata) (key mint_account)
    (key sender_wallet) [key sender_wallet] amount (decimals token));
  (* Sender wallet is expected to have signed this transaction *)
  invoke burn_ixn [sender_ata; mint_account; sender_wallet];;
  mret accounts_iter.

(** [SyntheticPlugin::transfer_out] *)
Definition transfer_out (program_id : Pubkey) (token : HyperlaneToken SyntheticPlugin)
    (system_program recipient_wallet : AccountInfo) (accounts_iter : list AccountInfo)
    (amount : u64) : prog (list AccountInfo) :=
  (* Account 0: SPL token 2022 program *)
  '(spl_token_2022, accounts_iter) ← next_account_info accounts_iter;
  require (bool_decide (key spl_token_2022 = spl_token_2022_id) && executable spl_token_2022)
    InvalidArgument;;
  (* Account 1: SPL associated token account *)
  '(spl_ata, accounts_iter) ← next_account_info accounts_iter;
  require (bool_decide (key spl_ata = spl_associated_token_account_id) && executable spl_ata)
    InvalidArgument;;
  (* Account 2: Mint account *)
  '(mint_account, accounts_iter) ← next_account_info accounts_iter;
  verify_mint_account_info program_id token mint_account;;
  (* Account 3: Recipient associated token account *)
  '(recipient_ata, accounts_iter) ← next_account_info accounts_iter;
  require (bool_decide (key recipient_ata = get_associated_token_address_with_program_id
    (key recipient_wallet) (key mint_account) spl_token_2022_id)) InvalidArgument;;
  (* Account 4: ATA payer PDA account *)
  '(ata_payer_account, accounts_iter) ← next_account_info accounts_iter;
  lift (verify_ata_payer_account_info program_id (ata_payer_bump (plugin_data token))
    ata_payer_account);;
  (* Create and init (this does both) associated token account if necessary. *)
  invoke_signed
    (create_associated_token_account_idempotent (key ata_payer_account) (key recipient_wallet)
       (key mint_account) spl_token_2022_id)
    [ata_payer_account; recipient_ata; recipient_wallet; mint_account; system_program;
     spl_token_2022]
    [with_bump hyperlane_token_ata_payer_pda_seeds (ata_payer_bump (plugin_data token))];;
  rent ← lift Rent_get;
  verify_rent_exempt recipient_ata rent;;
  mint_ixn ← lift (mint_to_checked spl_token_2022_id (key mint_account) (key recipient_ata)
    (key mint_account) [] amount (decimals token));
  invoke_signed mint_ixn [mint_account; recipient_ata; mint_account]
    [with_bump hyperlane_token_mint_pda_seeds (mint_bump (plugin_data token))];;
  mret accounts_iter.

(** [SyntheticPlugin::transfer_out_account_metas] *)
Definition transfer_out_account_metas (program_id : Pubkey)
    (token : HyperlaneToken SyntheticPlugin) (token_message : TokenMessage) :
    outcome ProgramError (list SerializableAccountMeta * bool) :=
  ata_payer_account_key ← create_program_address
    (with_bump hyperlane_token_ata_payer_pda_seeds (ata_payer_bump (plugin_data token)))
    program_id;
  let recipient_associated_token_account := get_associated_token_address_with_program_id
    (tm_recipient token_message) (mint (plugin_data token)) spl_token_2022_id in
  Ok (SerializableAccountMeta_from <$>
        [AccountMeta_new_readonly spl_token_2022_id false;
         AccountMeta_new_readonly spl_associated_token_account_id false;
         AccountMeta_new (mint (plugin_data token)) false;
         AccountMeta_new recipient_associated_token_account false;
         AccountMeta_new ata_payer_account_key false], false).

#[export] Instance SyntheticPlugin_plugin : HyperlaneSealevelTokenPlugin SyntheticPlugin := {
  plugin_initialize := initialize;
  Token.transfer_in := transfer_in;
  Token.transfer_out := transfer_out;
  Token.transfer_out_account_metas := transfer_out_account_metas
}.

(** [init_instruction] *)
Definition init_instruction `{BorshSerialize Token.Instruction}
    (try_find_program_address : list bytes -> Pubkey -> option (Pubkey * u8))
    (program_id payer : Pubkey) (init : Token.Init) : outcome ProgramError SolanaInstruction :=
  instruction ← Token.init_instruction try_find_program_address program_id payer init;
  let '(mint_key, _) := find_program_address hyperlane_token_mint_pda_seeds program_id in
  let '(ata_payer_key, _) :=
    find_program_address hyperlane_token_ata_payer_pda_seeds program_id in
  Ok (MkInstruction (ix_program_id instruction)
        (ix_accounts instruction ++
           [AccountMeta_new mint_key false; AccountMeta_new ata_payer_key false])
        (ix_data instruction)).

(** [process_instruction] of [processor.rs], whose handlers forward to the library *)
Definition process_instruction `{U256Ops, BorshSerialize bool, BorshDeserialize bool}
    `{BorshSerialize (HyperlaneToken SyntheticPlugin), BorshDeserialize (HyperlaneToken SyntheticPlugin)}
    `{BorshSerialize Mailbox.Instruction, BorshSerialize Igp.Instruction}
    `{TryFromSlice H256, BorshSerialize (option Pubkey)}
    `{BorshSerialize (SimulationReturnData (list SerializableAccountMeta))}
    `{TryFromSlice HandleInstruction, TryFromSlice Token.Instruction}
    (program_id : Pubkey) (accounts : list AccountInfo) (instruction_data : bytes) :
    prog unit :=
  Token.process_instruction (T := SyntheticPlugin) program_id accounts instruction_data.
End synthetic.
End Synthetic.

(** ** Collateral: SPL tokens in an escrow account *)

Module Collateral.
Section collateral.
Context `{Solana, SplToken}.

(** [hyperlane_token_escrow_pda_seeds!], without a bump seed *)
Definition hyperlane_token_escrow_pda_seeds : list bytes :=
  bstr <$> ["hyperlane_token"; "-"; "escrow"]%string.

Record CollateralPlugin := MkCollateralPlugin {
  spl_token_program : Pubkey;
  mint : Pubkey;
  escrow : Pubkey;
  escrow_bump : u8;
  ata_payer_bump : u8
}.

#[export] Instance CollateralPlugin_size : SizedData CollateralPlugin := λ _,
  (32 + 32 + 32 + 1 + 1)%nat.
#[export] Instance CollateralPlugin_default : Default CollateralPlugin :=
  MkCollateralPlugin (uwrap 32 0) (uwrap 32 0) (uwrap 32 0) (byte 0) (byte 0).

(** The size of the escrow account, as the token program returns it. *)
Definition account_data_size (spl_token_account_info mint_account_info : AccountInfo) :
    prog u64 :=
  ixn ← lift (get_account_data_size (key spl_token_account_info) (key mint_account_info));
  invoke ixn [mint_account_info];;
  returned ← get_return_data;
  '(returning_pubkey, data) ← lift (ok_or returned InvalidArgument);
  require (bool_decide (returning_pubkey = key spl_token_account_info)) InvalidArgument;;
  require (bool_decide (length data = 8%nat)) InvalidArgument;;
  mret (from_le 8 data).

(** [CollateralPlugin::initialize] *)
Definition initialize (program_id : Pubkey) (system_program _token_account_info
    payer_account_info : AccountInfo) (accounts_iter : list AccountInfo) :
    prog (CollateralPlugin * list AccountInfo) :=
  (* Account 0: The SPL token program. *)
  '(spl_token_account_info, accounts_iter) ← next_account_info accounts_iter;
  require (bool_decide (key spl_token_account_info = spl_token_2022_id)
           || bool_decide (key spl_token_account_info = spl_token_id)) IncorrectProgramId;;
  (* Account 1: The mint. *)
  '(mint_account_info, accounts_iter) ← next_account_info accounts_iter;
  o ← owner_of mint_account_info;
  require (bool_decide (o = key spl_token_account_info)) IllegalOwner;;
  (* Account 2: The Rent sysvar program. *)
  '(rent_account_info, accounts_iter) ← next_account_info accounts_iter;
  require (bool_decide (key rent_account_info = rent_sysvar_id)) IncorrectProgramId;;
  (* Account 3: Escrow PDA account. *)
  '(escrow_account_info, accounts_iter) ← next_account_info accounts_iter;
  let '(escrow_key, escrow_bump) :=
    find_program_address hyperlane_token_escrow_pda_seeds program_id in
  require (bool_decide (escrow_key = key escrow_account_info)) IncorrectProgramId;;
  (* Get the required account size for the escrow PDA. *)
  size ← account_data_size spl_token_account_info mint_account_info;
  rent ← lift Rent_get;
  (* Create escrow PDA owned by the SPL token program. *)
  create_pda_account payer_account_info rent (Z.to_nat (uval size)) (key spl_token_account_info)
    system_program escrow_account_info
    (with_bump hyperlane_token_escrow_pda_seeds escrow_bump);;
  (* And initialize the escrow account. *)
  ixn ← lift (initialize_account (key spl_token_account_info) (key escrow_account_info)
    (key mint_account_info) (key escrow_account_info));
  invoke ixn [escrow_account_info; mint_account_info; escrow_account_info; rent_account_info];;
  (* Account 4: ATA payer. *)
  '(ata_payer_account_info, accounts_iter) ← next_account_info accounts_iter;
  let '(ata_payer_key, ata_payer_bump) :=
    find_program_address hyperlane_token_ata_payer_pda_seeds program_id in
  require (bool_decide (ata_payer_key = key ata_payer_account_info)) IncorrectProgramId;;
  create_pda_account payer_account_info rent 0 system_program_id system_program
    ata_payer_account_info (with_bump hyperlane_token_ata_payer_pda_seeds ata_payer_bump);;
  mret (MkCollateralPlugin (key spl_token_account_info) (key mint_account_info) escrow_key
          escrow_bump ata_payer_bump, accounts_iter).

(** [CollateralPlugin::transfer_in] *)
Definition transfer_in (_program_id : Pubkey) (token : HyperlaneToken CollateralPlugin)
    (sender_wallet_account_info : AccountInfo) (accounts_iter : list AccountInfo)
    (amount : u64) : prog (list AccountInfo) :=
  (* Account 0: SPL token program. *)
  '(spl_token_account_info, accounts_iter) ← next_account_info accounts_iter;
  require (bool_decide (key spl_token_account_info = spl_token_program (plugin_data token)))
    IncorrectProgramId;;
  require (executable spl_token_account_info) InvalidAccountData;;
  (* Account 1: The mint. *)
  '(mint_account_info, accounts_iter) ← next_account_info accounts_iter;
  require (bool_decide (key mint_account_info = mint (plugin_data token))) IncorrectProgramId;;
  o ← owner_of mint_account_info;
  require (bool_decide (o = key spl_token_account_info)) InvalidAccountData;;
  (* Account 2: The sender's associated token account. *)
  '(sender_ata_account_info, accounts_iter) ← next_account_info accounts_iter;
  require (bool_decide (key sender_ata_account_info =
    get_associated_token_address_with_program_id (key sender_wallet_account_info)
      (key mint_account_info) (key spl_token_account_info))) IncorrectProgramId;;
  (* Account 3: The escrow PDA account. *)
  '(escrow_account_info, accounts_iter) ← next_account_info accounts_iter;
  require (bool_decide (key escrow_account_info = escrow (plugin_data token)))
    IncorrectProgramId;;
  transfer_instruction ← lift (transfer_checked (key spl_token_account_info)
    (key sender_ata_account_info) (key mint_account_info) (key escrow_account_info)
    (key sender_wallet_account_info) [] amount (decimals token));
  (* Sender wallet is expected to have signed this transaction. *)
  invoke transfer_instruction
    [sender_ata_account_info; mint_account_info; escrow_account_info;
     sender_wallet_account_info];;
  mret accounts_iter.

(** [CollateralPlugin::transfer_out] *)
Definition transfer_out (program_id : Pubkey) (token : HyperlaneToken CollateralPlugin)
    (system_program_account_info recipient_wallet_account_info : AccountInfo)
    (accounts_iter : list AccountInfo) (amount : u64) : prog (list AccountInfo) :=
  (* Account 0: SPL token program. *)
  '(spl_token_account_info, accounts_iter) ← next_account_info accounts_iter;
  require (bool_decide (key spl_token_account_info = spl_token_program (plugin_data token)))
    IncorrectProgramId;;
  require (executable spl_token_account_info) InvalidAccountData;;
  (* Account 1: SPL associated token account *)
  '(spl_ata_account_info, accounts_iter) ← next_account_info accounts_iter;
  require (bool_decide (key spl_ata_account_info = spl_associated_token_account_id))
    IncorrectProgramId;;
  require (executable spl_ata_account_info) InvalidAccountData;;
  (* Account 2: Mint account *)
  '(mint_account_info, accounts_iter) ← next_account_info accounts_iter;
  require (bool_decide (key mint_account_info = mint (plugin_data token))) IncorrectProgramId;;
  (* Account 3: Recipient associated token account *)
  '(recipient_ata_account_info, accounts_iter) ← next_account_info accounts_iter;
  require (bool_decide (key recipient_ata_account_info =
    get_associated_token_address_with_program_id (key recipient_wallet_account_info)
      (key mint_account_info) (key spl_token_account_info))) IncorrectProgramId;;
  require (is_writable recipient_ata_account_info) InvalidAccountData;;
  (* Account 4: ATA payer PDA account *)
  '(ata_payer_account_info, accounts_iter) ← next_account_info accounts_iter;
  lift (verify_ata_payer_account_info program_id (ata_payer_bump (plugin_data token))
    ata_payer_account_info);;
  (* Account 5: Escrow account. *)
  '(escrow_account_info, accounts_iter) ← next_account_info accounts_iter;
  require (bool_decide (key escrow_account_info = escrow (plugin_data token)))
    IncorrectProgramId;;
  (* Create and init (this does both) associated token account if necessary. *)
  invoke_signed
    (create_associated_token_account_idempotent (key ata_payer_account_info)
       (key recipient_wallet_account_info) (key mint_account_info)
       (key spl_token_account_info))
    [ata_payer_account_info; recipient_ata_account_info; recipient_wallet_account_info;
     mint_account_info; system_program_account_info; spl_token_account_info]
    [with_bump hyperlane_token_ata_payer_pda_seeds (ata_payer_bump (plugin_data token))];;
  (* The ATA payer still meets the rent-exemption requirements. *)
  rent ← lift Rent_get;
  verify_rent_exempt ata_payer_account_info rent;;
  transfer_instruction ← lift (transfer_checked (key spl_token_account_info)
    (key escrow_account_info) (key mint_account_info) (key recipient_ata_account_info)
    (key escrow_account_info) [] amount (decimals token));
  invoke_signed transfer_instruction
    [escrow_account_info; mint_account_info; recipient_ata_account_info; escrow_account_info]
    [with_bump hyperlane_token_escrow_pda_seeds (escrow_bump (plugin_data token))];;
  mret accounts_iter.

(** [CollateralPlugin::transfer_out_account_metas] *)
Definition transfer_out_account_metas (program_id : Pubkey)
    (token : HyperlaneToken CollateralPlugin) (token_message : TokenMessage) :
    outcome ProgramError (list SerializableAccountMeta * bool) :=
  ata_payer_account_key ← create_program_address
    (with_bump hyperlane_token_ata_payer_pda_seeds (ata_payer_bump (plugin_data token)))
    program_id;
  let recipient_associated_token_account := get_associated_token_address_with_program_id
    (tm_recipient token_message) (mint (plugin_data token))
    (spl_token_program (plugin_data token)) in
  Ok (SerializableAccountMeta_from <$>
        [AccountMeta_new_readonly (spl_token_program (plugin_data token)) false;
         AccountMeta_new_readonly spl_associated_token_account_id false;
         AccountMeta_new (mint (plugin_data token)) false;
         AccountMeta_new recipient_associated_token_account false;
         AccountMeta_new ata_payer_account_key false;
         AccountMeta_new (escrow (plugin_data token)) false], false).

#[export] Instance CollateralPlugin_plugin : HyperlaneSealevelTokenPlugin CollateralPlugin := {
  plugin_initialize := initialize;
  Token.transfer_in := transfer_in;
  Token.transfer_out := transfer_out;
  Token.transfer_out_account_metas := transfer_out_account_metas
}.

(** [init_instruction] *)
Definition init_instruction `{BorshSerialize Token.Instruction}
    (try_find_program_address : list bytes -> Pubkey -> option (Pubkey * u8))
    (program_id payer : Pubkey) (init : Token.Init) (spl_program mint : Pubkey) :
    outcome ProgramError SolanaInstruction :=
  instruction ← Token.init_instruction try_find_program_address program_id payer init;
  let '(escrow_key, _) := find_program_address hyperlane_token_escrow_pda_seeds program_id in
  let '(ata_payer_key, _) :=
    find_program_address hyperlane_token_ata_payer_pda_seeds program_id in
  Ok (MkInstruction (ix_program_id instruction)
        (ix_accounts instruction ++
           [AccountMeta_new_readonly spl_program false; AccountMeta_new_readonly mint false;
            AccountMeta_new_readonly rent_sysvar_id false; AccountMeta_new escrow_key false;
            AccountMeta_new ata_payer_key false])
        (ix_data instruction)).

(** [process_instruction] of [processor.rs], whose handlers forward to the library *)
Definition process_instruction `{U256Ops, BorshSerialize bool, BorshDeserialize bool}
    `{BorshSerialize (HyperlaneToken CollateralPlugin), BorshDeserialize (HyperlaneToken CollateralPlugin)}
    `{BorshSerialize Mailbox.Instruction, BorshSerialize Igp.Instruction}
    `{TryFromSlice H256, BorshSerialize (option Pubkey)}
    `{BorshSerialize (SimulationReturnData (list SerializableAccountMeta))}
    `{TryFromSlice HandleInstruction, TryFromSlice Token.Instruction}
    (program_id : Pubkey) (accounts : list AccountInfo) (instruction_data : bytes) :
    prog unit :=
  Token.process_instruction (T := CollateralPlugin) program_id accounts instruction_data.
End collateral.
End Collateral.
