(* ===== verification/TokenCorrect.v ===== *)
(** * Correctness of the token library

    What a successful handler did, by the interface of the plugin. *)

From S2P Require Import Prelude.
From S2P Require Import Codec.
From S2P Require Import U256.
From S2P Require Import Sealevel.
From S2P Require Import AccountUtils.
From S2P Require Import Interfaces.
From S2P Require Import Mailbox.
From S2P Require Import Igp.
From S2P Require Import ConnectionClient.
From S2P Require Import Token.
From stdpp Require Import base gmap list numbers strings sets.
From Stdlib Require Import ZArith Lia.

#[local] Open Scope Z_scope.

(** ** The message *)

Lemma TokenMessage_to_vec m :
  to_vec m = to_be (tm_recipient m) ++ to_be (tm_amount_or_id m) ++ tm_metadata m.
Proof. done. Qed.

Lemma read_token_message_to_vec m : read_token_message (to_vec m) = Ok m.
Proof.
  rewrite TokenMessage_to_vec. unfold read_token_message, eval_st, read_from,
    TokenMessage_read_from. read_chunks. by destruct m.
Qed.

Lemma read_token_message_ok s m :
  read_token_message s = Ok m -> s = to_vec m.
Proof.
  unfold read_token_message, eval_st, read_from, TokenMessage_read_from. intros Hr.
  apply map_err_inv in Hr.
  destruct (decide (64 <= length s)%nat) as [Hl|Hl].
  - rewrite <- (take_drop 32 s), <- (take_drop 32 (drop 32 s)) in Hr.
    rewrite drop_drop in Hr.
    rewrite !read_exact_bind in Hr by (rewrite length_take, ?length_drop; lia).
    injection Hr as <-. rewrite TokenMessage_to_vec. cbn [tm_recipient tm_amount_or_id tm_metadata].
    rewrite !to_be_from_be by (rewrite length_take, ?length_drop; lia).
    by rewrite <- (drop_drop _ 32 32), take_drop, take_drop.
  - exfalso. destruct (decide (32 <= length s)%nat) as [H1|H1].
    + rewrite <- (take_drop 32 s) in Hr.
      rewrite read_exact_bind in Hr by (rewrite length_take; lia).
      rewrite read_exact_bind_short in Hr by (rewrite length_drop; lia). done.
    + rewrite read_exact_bind_short in Hr by lia. done.
Qed.

(** ** Amounts *)

(** An amount of [from] decimals in [to] decimals, rounded down. *)
Definition converted (amount from to : Z) : Z :=
  if to <? from then amount / 10 ^ (from - to) else amount * 10 ^ (to - from).

(** When the conversion has a result: the power of ten and the amount fit. *)
Definition convertible (amount from to : Z) : bool :=
  (Z.abs (from - to) <=? 77) && (converted amount from to <? 2 ^ 256).

Lemma converted_nonneg amount from to : 0 <= amount -> 0 <= converted amount from to.
Proof.
  intros Ha. unfold converted. destruct (Z.ltb_spec to from).
  - apply Z.div_pos; [done|apply Z.pow_pos_nonneg; lia].
  - apply Z.mul_nonneg_nonneg; [done|apply Z.pow_nonneg; lia].
Qed.

(** A conversion gains nothing, and loses less than one unit of the result. *)
Lemma converted_bounds amount from to :
  0 <= from -> 0 <= to ->
  converted amount from to * 10 ^ from <= amount * 10 ^ to <
  (converted amount from to + 1) * 10 ^ from.
Proof.
  intros Hf Ht. unfold converted. assert (Hp : 0 < 10 ^ from) by (apply Z.pow_pos_nonneg; lia).
  assert (Hq : 0 < 10 ^ to) by (apply Z.pow_pos_nonneg; lia).
  destruct (Z.ltb_spec to from) as [Hlt|Hle].
  - assert (Hs : 10 ^ from = 10 ^ (from - to) * 10 ^ to)
      by (rewrite <- Z.pow_add_r by lia; f_equal; lia).
    assert (Hd : 0 < 10 ^ (from - to)) by (apply Z.pow_pos_nonneg; lia).
    pose proof (Z.mul_div_le amount _ Hd). pose proof (Z.mul_succ_div_gt amount _ Hd).
    rewrite Hs. nia.
  - assert (Hs : 10 ^ to = 10 ^ (to - from) * 10 ^ from)
      by (rewrite <- Z.pow_add_r by lia; f_equal; lia).
    rewrite Hs. nia.
Qed.

(** Between any two tokens that agree on the decimals of messages no value appears. *)
Lemma converted_twice amount d r e :
  0 <= d -> 0 <= r -> 0 <= e ->
  converted (converted amount d r) r e * 10 ^ d <= amount * 10 ^ e.
Proof.
  intros Hd Hr He. destruct (converted_bounds amount d r Hd Hr) as [H1 _].
  destruct (converted_bounds (converted amount d r) r e Hr He) as [H2 _].
  assert (0 < 10 ^ r) by (apply Z.pow_pos_nonneg; lia).
  assert (0 <= 10 ^ d) by (apply Z.pow_nonneg; lia).
  assert (0 <= 10 ^ e) by (apply Z.pow_nonneg; lia).
  apply (Z.mul_le_mono_pos_r _ _ (10 ^ r)); nia.
Qed.

(** And none is lost when messages have at least the decimals of both. *)
Lemma converted_back amount d r :
  0 <= d <= r -> converted (converted amount d r) r d = amount.
Proof.
  intros Hd. unfold converted. rewrite (proj2 (Z.ltb_ge r d)) by lia.
  destruct (Z.ltb_spec d r).
  - rewrite Z.div_mul; [done|]. apply Z.pow_nonzero; lia.
  - replace d with r by lia. rewrite Z.sub_diag, !Z.mul_1_r. done.
Qed.

Section amounts.
Context `{U256Laws}.

Lemma token_convert_decimals_val (amount : U256) (from to : u8) :
  convert_decimals amount from to =
  if convertible amount from to then Some (uwrap 32 (converted amount from to)) else None.
Proof.
  unfold convert_decimals, convertible, converted. urange amount. urange from. urange to.
  destruct (Z.compare_spec from to) as [He|Hl|Hg].
  - rewrite He, Z.sub_diag, Z.ltb_irrefl, Z.mul_1_r.
    rewrite (proj2 (Z.ltb_lt _ _)) by lia. cbn. by autorewrite with hyp.
  - rewrite (proj2 (Z.ltb_ge to from)) by lia. rewrite u256_checked_pow_exact, exactly_pow10 by lia.
    replace (Z.abs (from - to)) with (to - from) by lia.
    destruct (Z.leb_spec (to - from) 77) as [Hd|Hd]; [|done]. rewrite some_bind.
    rewrite u256_checked_mul_exact, uwrap_val;
      [|apply Z.pow_nonneg; lia|apply Z.ltb_lt, pow10_fits; lia].
    unfold exactly. rewrite (proj2 (Z.leb_le 0 _)); [done|].
    apply Z.mul_nonneg_nonneg; [lia|apply Z.pow_nonneg; lia].
  - rewrite (proj2 (Z.ltb_lt to from)) by lia. rewrite u256_checked_pow_exact, exactly_pow10 by lia.
    replace (Z.abs (from - to)) with (from - to) by lia.
    destruct (Z.leb_spec (from - to) 77) as [Hd|Hd]; [|done]. rewrite some_bind.
    assert (Hv : uval (uwrap 32 (10 ^ (from - to))) = 10 ^ (from - to))
      by (apply uwrap_val; [apply Z.pow_nonneg; lia|apply Z.ltb_lt, pow10_fits; lia]).
    assert (Hp : 0 < 10 ^ (from - to)) by (apply Z.pow_pos_nonneg; lia).
    rewrite u256_checked_div_exact, Hv by (by rewrite Hv).
    assert (Hq : 0 <= amount / 10 ^ (from - to) < 2 ^ 256).
    { split; [apply Z.div_pos; lia|]. apply Z.le_lt_trans with amount; [|lia].
      apply Z.div_le_upper_bound; nia. }
    rewrite exactly_fits by done. by rewrite (proj2 (Z.ltb_lt _ _)) by lia.
Qed.

Lemma local_to_remote_val {T} (token : HyperlaneToken T) (amount : u64) :
  local_amount_to_remote_amount token amount =
    (if convertible amount (decimals token) (remote_decimals token)
     then Ok (uwrap 32 (converted amount (decimals token) (remote_decimals token)))
     else Err InvalidArgument) /\
  forall r, local_amount_to_remote_amount token amount = Ok r ->
    uval r = converted amount (decimals token) (remote_decimals token).
Proof.
  unfold local_amount_to_remote_amount. rewrite token_convert_decimals_val, u256_from_exact by lia.
  split; [by destruct (convertible _ _ _)|]. intros r.
  destruct (convertible _ _ _) eqn:Hc; [|done]. intros [= <-]. apply andb_prop in Hc as [_ Hc].
  apply uwrap_val; [|done]. apply converted_nonneg. urange amount. lia.
Qed.

Lemma remote_to_local_val {T} (token : HyperlaneToken T) (amount : U256) :
  remote_amount_to_local_amount token amount =
    if convertible amount (remote_decimals token) (decimals token) then
      let v := converted amount (remote_decimals token) (decimals token) in
      if v <? 2 ^ 64 then Ok (uwrap 8 v) else Panic
    else Err InvalidArgument.
Proof.
  unfold remote_amount_to_local_amount. rewrite token_convert_decimals_val.
  destruct (convertible _ _ _) eqn:Hc; [|done]. apply andb_prop in Hc as [_ Hc].
  cbn [ok_or mbind outcome_bind]. rewrite u256_as_u64_exact.
  assert (Hnn : 0 <= converted amount (remote_decimals token) (decimals token)).
  { apply converted_nonneg. urange amount. lia. }
  rewrite uwrap_val by done. unfold exactly. rewrite (proj2 (Z.leb_le 0 _)) by done.
  cbn [andb]. change (umax 8) with (2 ^ 64). by destruct (_ <? 2 ^ 64).
Qed.

Lemma remote_to_local_ok {T} (token : HyperlaneToken T) (amount : U256) r :
  remote_amount_to_local_amount token amount = Ok r ->
  uval r = converted amount (remote_decimals token) (decimals token).
Proof.
  rewrite remote_to_local_val. destruct (convertible _ _ _); [|done].
  cbv zeta. destruct (Z.ltb_spec (converted amount (remote_decimals token) (decimals token)) (2 ^ 64));
    [|done]. intros [= <-]. apply uval_uwrap_small. change (umax 8) with (2 ^ 64).
  split; [|done]. apply converted_nonneg. urange amount. lia.
Qed.
End amounts.

(** ** What the library relies on a plugin for

    [plugin_calls] are the programs a plugin calls for a token; unless the caller is one of
    them, the accounts the caller owns are untouched. *)

Class TokenPluginLaws (T : Type) `{Solana, HyperlaneSealevelTokenPlugin T, SizedData T} := {
  plugin_calls : HyperlaneToken T -> list Pubkey;
  transfer_in_ok program_id token sender l amount w l' w' :
    transfer_in program_id token sender l amount w = Ok (l', w') ->
    frame w w' /\
    (executing w ∉ plugin_calls token -> forall k,
       snd (content w k) = executing w -> content w' k = content w k);
  transfer_out_ok program_id token system recipient l amount w l' w' :
    transfer_out program_id token system recipient l amount w = Ok (l', w') ->
    frame w w' /\
    (executing w ∉ plugin_calls token -> forall k,
       snd (content w k) = executing w -> content w' k = content w k);
  plugin_initialize_ok program_id system token payer l w p l' w' :
    plugin_initialize (T := T) program_id system token payer l w = Ok ((p, l'), w') -> frame w w';
  (** what [plugin_initialize] makes, and the accounts [transfer_out] takes of such a plugin *)
  plugin_canonical : Pubkey -> T -> Prop;
  plugin_initialize_canonical program_id system token payer l w p l' w' :
    plugin_initialize (T := T) program_id system token payer l w = Ok ((p, l'), w') ->
    plugin_canonical program_id p;
  transfer_out_metas program_id token system recipient l amount w l' w' msg :
    transfer_out program_id token system recipient l amount w = Ok (l', w') ->
    plugin_canonical program_id (plugin_data token) -> key recipient = tm_recipient msg ->
    exists used metas writeable, l = used ++ l' /\
      transfer_out_account_metas program_id token msg = Ok (metas, writeable) /\
      (sam_pubkey <$> metas) = (key <$> used);
  plugin_size (p : T) : (sized p <= 1024)%nat
}.

Section dispatch.
Context `{Solana, HyperlaneRouter A, !HyperlaneConnectionClient A}.
Context `{BorshSerialize Mailbox.Instruction, BorshSerialize Igp.Instruction}.
Context `{TryFromSlice H256}.

(** A dispatch is one call of the mailbox, which returns the id. *)
Lemma dispatch_ok (self : A) program_id seeds destination body metas infos w r :
  dispatch self program_id seeds destination body metas infos w = Ok r <->
  exists recipient data w' returned id,
    router self destination = Some recipient /\
    Mailbox.into_instruction_data (OutboxDispatchIxn
      (MkOutboxDispatch program_id destination recipient body)) = Ok data /\
    sol_invoke_signed (MkInstruction (mailbox self) metas data) infos [seeds] w = Ok w' /\
    return_data w' = Some (mailbox self, returned) /\ try_from_slice returned = Ok id /\
    r = (id, w').
Proof.
  unfold dispatch. split.
  - intros Hd. do 5 (prog_step Hd).
    match goal with Ho : ok_or _ _ = Ok ?x |- _ => destruct x as [p d] end.
    prog_step Hd. apply lift_ok in Hd as (id & Hid & ->). apply map_err_inv in Hid.
    repeat match goal with Ho : ok_or ?o _ = Ok _ |- _ =>
      let Hx := fresh "Hx" in destruct o eqn:Hx; [injection Ho as ->|done] end.
    subst. by eexists _, _, _, _, id.
  - intros (recipient & data & w' & returned & id & Hr & Hdata & Hi & Hret & Hid & ->).
    rewrite Hr. cbn [ok_or]. prog_run (lift_Ok _ recipient w eq_refl).
    prog_run (lift_Ok _ _ w Hdata).
    prog_run (proj2 (invoke_signed_ok _ _ _ w _) (ex_intro _ w' (conj Hi eq_refl))).
    assert (Hg : get_return_data w' = Ok (Some (mailbox self, returned), w'))
      by (unfold get_return_data; by rewrite Hret).
    prog_run Hg. cbn [ok_or].
    rewrite (st_bind_eq _ _ _ (mailbox self, returned) w') by done. cbv beta iota.
    rewrite bool_decide_true by done. rewrite (st_bind_eq _ _ _ tt w') by done.
    by rewrite Hid.
Qed.

(** With gas, the payment for the dispatched message follows. *)
Lemma dispatch_with_gas_ok `{HyperlaneGasRouter A} (self : A) program_id seeds destination
    body metas infos metas' infos' w r :
  dispatch_with_gas self program_id seeds destination body metas infos metas' infos' w = Ok r ->
  exists gas id w1 igp t data w',
    destination_gas self destination = Some gas /\
    dispatch self program_id seeds destination body metas infos w = Ok (id, w1) /\
    interchain_gas_paymaster self = Some (igp, t) /\
    serialize (PayForGasIxn (MkPayForGas id destination gas)) = Ok data /\
    sol_invoke_signed (MkInstruction igp metas' data) infos' [] w1 = Ok w' /\ r = (id, w').
Proof.
  intros Hd. unfold dispatch_with_gas in Hd. prog_step Hd.
  destruct (destination_gas _ _) as [gas|] eqn:Hg; [|done].
  match goal with Ho : ok_or _ _ = Ok _ |- _ => injection Ho as <- end.
  unfold router_dispatch_with_gas in Hd. apply st_bind_ok in Hd as (id & w1 & Hdi & Hd).
  prog_step Hd. destruct (interchain_gas_paymaster self) as [[igp t]|] eqn:Hi; [|done].
  match goal with Ho : ok_or _ _ = Ok _ |- _ => injection Ho as <- end.
  do 2 (prog_step Hd). injection Hd as <-.
  match goal with He : expect _ = Ok _ |- _ => apply (proj1 (expect_ok _ _)) in He end.
  by eexists gas, id, w1, igp, t, _, _.
Qed.
End dispatch.

Section token.
Context `{SolanaLaws, U256Ops}.
Context `{BorshSerialize bool, BorshDeserialize bool, !BorshBool}.
Context `{HyperlaneSealevelTokenPlugin T, Default T, SizedData T}.
Context `{BorshSerialize (HyperlaneToken T), BorshDeserialize (HyperlaneToken T)}.
Context `{!BorshLaws (HyperlaneToken T)}.
Context `{BorshSerialize Mailbox.Instruction, BorshSerialize Igp.Instruction}.
Context `{TryFromSlice H256}.

(** The canonical token account holds [token]. *)
Definition token_at (program_id : Pubkey) (w : world) (k : Pubkey) (token : HyperlaneToken T) :
    Prop :=
  k ∉ borrowed w /\ AccountData.fetch (fst (content w k)) = Ok token /\
  create_program_address (with_bump hyperlane_token_pda_seeds (tk_bump token)) program_id
    = Ok k /\
  snd (content w k) = program_id.

Lemma verify_token_ok program_id i w r :
  verify_account_and_fetch_inner program_id i w = Ok r <->
  exists token, token_at program_id w (key i) token /\ r = (token, w).
Proof.
  unfold verify_account_and_fetch_inner, token_at. split.
  - intros Hf. do 6 (prog_step Hf). injection Hf as <-. exists x. by subst.
  - intros (token & (Hb & Hf & Hk & Ho) & ->).
    prog_run (proj2 (data_of_ok i w _) (conj Hb eq_refl)). prog_run (lift_Ok _ _ w Hf).
    prog_run (lift_Ok _ _ w Hk).
    prog_run (@require_true _ _ _ InvalidArgument w
      (bool_decide_eq_true_2 _ (eq_refl (key i)))).
    prog_run (proj2 (owner_of_ok i w _) eq_refl).
    by prog_run (@require_true _ _ _ IncorrectProgramId w (bool_decide_eq_true_2 _ Ho)).
Qed.

(** ** Administration *)

(** The signing owner changed the token account by [f], and nothing else. *)
Definition token_administered (program_id : Pubkey) (accts : list AccountInfo)
    (f : HyperlaneToken T -> HyperlaneToken T) (w : world) (r : unit * world) : Prop :=
  exists pre ti oi rest token w', accts = pre ++ ti :: oi :: rest /\ r = (tt, w') /\
    token_at program_id w (key ti) token /\
    is_signer oi = true /\ tk_owner token = Some (key oi) /\
    token_at program_id w' (key ti) (f token) /\ frame w w' /\
    forall k, k <> key ti -> content w' k = content w k.

(** An update that the owner is allowed to make. *)
Definition owner_update
    (update : HyperlaneToken T -> AccountInfo -> outcome ProgramError (HyperlaneToken T))
    (f : HyperlaneToken T -> HyperlaneToken T) : Prop :=
  (forall token, tk_bump (f token) = tk_bump token) /\
  forall token oi token', update token oi = Ok token' ->
    is_signer oi = true /\ tk_owner token = Some (key oi) /\ token' = f token.

Lemma only_owner_update (f : HyperlaneToken T -> HyperlaneToken T) :
  (forall token, tk_bump (f token) = tk_bump token) ->
  owner_update (λ token oi, ensure_owner_signer token oi;; Ok (f token)) f.
Proof.
  intros Hb. split; [done|]. intros token oi token' Hu. apply bind_ok in Hu as ([] & He & Hu).
  apply ensure_owner_signer_ok in He as [Hs Ho]. by injection Hu as <-.
Qed.

Lemma owner_update_ext update (f g : HyperlaneToken T -> HyperlaneToken T) :
  (forall token, f token = g token) -> owner_update update f -> owner_update update g.
Proof.
  intros Hfg [Hb Hu]. split; [intros token; by rewrite <- Hfg|].
  intros token oi token' Ht. rewrite <- Hfg. by apply Hu.
Qed.

Lemma stored_token program_id w w' ti token token' b tail :
  token_at program_id w ti token -> tk_bump token' = tk_bump token ->
  frame w w' -> serialize token' = Ok b ->
  content w' ti = (byte 1 :: b ++ tail, snd (content w ti)) -> token_at program_id w' ti token'.
Proof.
  intros (Hb & _ & Hk & Ho) Hbump [_ Hf] Hs Hc. unfold token_at.
  rewrite Hc, Hf, Hbump. split_and!; [done|by apply fetch_stored|done|done].
Qed.

Lemma update_in_place_ok program_id accts update f w r :
  owner_update update f -> update_in_place program_id accts update w = Ok r ->
  token_administered program_id accts f w r.
Proof.
  intros [Hf Hu] Hr. unfold update_in_place in Hr. prog_step Hr.
  apply st_bind_ok in Hr as (token & w1 & Ht & Hr).
  apply verify_token_ok in Ht as (token' & Ht & [= -> ->]). do 2 (prog_step Hr).
  match goal with Hx : update _ _ = Ok _ |- _ => apply Hu in Hx as (Hs & Ho & ->) end.
  apply store_content in Hr as (_ & _ & w' & b & tail & -> & Hb & Hfr & Hc).
  exists [], i, i0, l0, token', w'. split_and!; try done; try apply Hfr.
  - eapply stored_token; try done. by rewrite Hc, decide_True.
  - intros k Hk. by rewrite Hc, decide_False.
Qed.

Lemma update_and_resize_ok program_id accts update f w r :
  owner_update update f -> update_and_resize program_id accts update w = Ok r ->
  token_administered program_id accts f w r.
Proof.
  intros [Hf Hu] Hr. unfold update_and_resize in Hr. do 3 (prog_step Hr).
  apply st_bind_ok in Hr as (token & w1 & Ht & Hr).
  apply verify_token_ok in Ht as (token' & Ht & [= -> ->]). do 3 (prog_step Hr).
  match goal with Hx : update _ _ = Ok _ |- _ => apply Hu in Hx as (Hs & Ho & ->) end.
  apply store_with_rent_exempt_realloc_content in Hr as (_ & _ & w' & b & tail & -> & Hb & Hfr & Hc).
  exists [i], i0, i1, l, token', w'. split_and!; try done; try apply Hfr.
  - eapply stored_token; try done. by rewrite Hc, decide_True.
  - intros k Hk. by rewrite Hc, decide_False.
Qed.

Lemma enroll_routers_token (token : HyperlaneToken T) configs :
  enroll_remote_routers token configs =
  Ok (with_routers
    (foldl (apply_config router_domain config_router) (remote_routers token) configs) token).
Proof.
  revert token. induction configs as [|c configs IH]; intros token; [by destruct token|].
  destruct c as [d [r|]]; exact (IH (with_routers _ token)).
Qed.

Lemma destination_gas_token (token : HyperlaneToken T) configs :
  set_destination_gas_configs token configs =
  with_destination_gas
    (foldl (apply_config gas_domain config_gas) (tk_destination_gas token) configs) token.
Proof.
  unfold set_destination_gas_configs. revert token.
  induction configs as [|c configs IH]; intros token; [by destruct token|].
  cbn [foldl]. by rewrite IH.
Qed.

(** The update an administrative instruction asks for. *)
Definition token_update (ixn : Instruction) : option (HyperlaneToken T -> HyperlaneToken T) :=
  match ixn with
  | InitIxn _ | TransferRemoteIxn _ => None
  | EnrollRemoteRouter c => Some (λ t,
      with_routers (apply_config router_domain config_router (remote_routers t) c) t)
  | EnrollRemoteRouters cs => Some (λ t,
      with_routers (foldl (apply_config router_domain config_router) (remote_routers t) cs) t)
  | SetDestinationGasConfigs cs => Some (λ t,
      with_destination_gas (foldl (apply_config gas_domain config_gas) (tk_destination_gas t) cs) t)
  | SetInterchainSecurityModule ism => Some (with_ism ism)
  | SetInterchainGasPaymaster igp => Some (with_igp igp)
  | TransferOwnershipIxn new_owner => Some (with_owner new_owner)
  end.

Lemma enroll_router_update c :
  owner_update (λ token owner, enroll_remote_router_only_owner token owner c)
    (λ t, with_routers (apply_config router_domain config_router (remote_routers t) c) t).
Proof.
  split; [done|]. intros token oi token' Hu. apply bind_ok in Hu as ([] & He & Hu).
  apply ensure_owner_signer_ok in He as [Hs Ho].
  destruct c as [d [r|]]; injection Hu as <-; done.
Qed.

Lemma enroll_routers_update cs :
  owner_update (λ token owner, enroll_remote_routers_only_owner token owner cs)
    (λ t, with_routers (foldl (apply_config router_domain config_router) (remote_routers t) cs) t).
Proof.
  split; [done|]. intros token oi token' Hu. apply bind_ok in Hu as ([] & He & Hu).
  apply ensure_owner_signer_ok in He as [Hs Ho]. rewrite enroll_routers_token in Hu.
  by injection Hu as <-.
Qed.

Lemma destination_gas_update cs :
  owner_update (λ token owner, set_destination_gas_configs_only_owner token owner cs)
    (λ t, with_destination_gas
      (foldl (apply_config gas_domain config_gas) (tk_destination_gas t) cs) t).
Proof.
  apply (owner_update_ext _ (λ t, set_destination_gas_configs t cs)).
  - intros t. apply destination_gas_token.
  - apply only_owner_update. intros t. by rewrite destination_gas_token.
Qed.
End token.

Lemma decode_token_instruction `{TryFromSlice HandleInstruction, TryFromSlice Instruction}
    data ixn :
  discriminator_decode (T := Instruction) data = Ok ixn ->
  Recipient.decode data = Err InvalidInstructionData.
Proof.
  intros Hd. unfold discriminator_decode in Hd. apply bind_ok in Hd as ([d rest] & Hs & Hd).
  apply or_panic_ok in Hs. case_decide as He; [|done]. unfold Recipient.decode.
  assert (Hl : (length data <? Discriminator_LENGTH)%nat = false).
  { unfold split_at in Hs. case_decide; [|done]. by apply Nat.ltb_ge. }
  rewrite Hl, Hs. cbn [or_panic mbind outcome_bind]. subst d.
  repeat rewrite decide_False by (vm_compute; discriminate). done.
Qed.

(** ** Transfers *)

(** The accounts of the mailbox call: outbox, dispatch authority, sender, unique message and
    message storage. *)
Definition dispatch_metas `{Solana} (oi ai si ui mi : AccountInfo) : list AccountMeta :=
  [AccountMeta_new (key oi) false; AccountMeta_new_readonly (key ai) true;
   AccountMeta_new_readonly system_program_id false; AccountMeta_new_readonly spl_noop_id false;
   AccountMeta_new (key si) true; AccountMeta_new_readonly (key ui) true;
   AccountMeta_new (key mi) false].

Section transfers.
Context `{SolanaLaws, U256Ops}.
Context `{BorshSerialize bool, BorshDeserialize bool, !BorshBool}.
Context `{HyperlaneSealevelTokenPlugin T, Default T, SizedData T}.
Context `{BorshSerialize (HyperlaneToken T), BorshDeserialize (HyperlaneToken T)}.
Context `{!BorshLaws (HyperlaneToken T)}.
Context `{BorshSerialize Mailbox.Instruction, BorshSerialize Igp.Instruction}.
Context `{TryFromSlice H256}.

Lemma igp_payment_accounts_ok (token : HyperlaneToken T) sys si ui l w p l' w' :
  igp_payment_accounts token sys si ui l w = Ok ((p, l'), w') ->
  w' = w /\ (exists used, l = used ++ l') /\
  (is_Some p <-> is_Some (tk_interchain_gas_paymaster token)).
Proof.
  intros Hi. unfold igp_payment_accounts in Hi. cbn [interchain_gas_paymaster] in Hi.
  change (interchain_gas_paymaster token) with (tk_interchain_gas_paymaster token) in Hi.
  destruct (tk_interchain_gas_paymaster token) as [[igp t]|].
  - do 6 (prog_step Hi). destruct t.
    + injection Hi as <- <- <-. split_and!; [done| |done]. by eexists [_; _; _; _].
    + prog_step Hi. injection Hi as <- <- <-. split_and!; [done| |done].
      by eexists [_; _; _; _; _].
  - injection Hi as <- <- <-. split_and!; [done|by exists []|done].
Qed.

(** A transfer that was sent: [local] came in and [id] is the message that says so. *)
Record sent (program_id : Pubkey) (accts : list AccountInfo) (xfer : TransferRemote) (w : world)
    (ti oi ai si ui mi : AccountInfo) (token : HyperlaneToken T) (local : u64) (remote : U256)
    (l : list AccountInfo) (w1 : world) (id : H256) (w2 w' : world) : Prop := {
  sent_accounts : exists sys noop mb used,
    accts = sys :: noop :: ti :: mb :: oi :: ai :: si :: ui :: mi :: used ++ l;
  sent_token : token_at program_id w (key ti) token;
  sent_signed : is_signer si = true;
  sent_authority : create_program_address (with_bump mailbox_message_dispatch_authority_pda_seeds
    (dispatch_authority_bump token)) program_id = Ok (key ai);
  sent_local : u256_try_into_u64 (xfer_amount_or_id xfer) = Some local;
  sent_remote : local_amount_to_remote_amount token local = Ok remote;
  sent_in : transfer_in program_id token si l local w = Ok ([], w1);
  sent_dispatch : exists infos, dispatch token program_id
    (with_bump mailbox_message_dispatch_authority_pda_seeds (dispatch_authority_bump token))
    (xfer_destination_domain xfer) (to_vec (MkTokenMessage (xfer_recipient xfer) remote []))
    (dispatch_metas oi ai si ui mi) infos w1 = Ok (id, w2);
  sent_paid : match tk_interchain_gas_paymaster token with
    | None => w' = w2
    | Some (igp, _) => exists gas data metas infos,
        destination_gas token (xfer_destination_domain xfer) = Some gas /\
        serialize (PayForGasIxn (MkPayForGas id (xfer_destination_domain xfer) gas)) = Ok data /\
        sol_invoke_signed (MkInstruction igp metas data) infos [] w2 = Ok w'
    end
}.

Lemma no_more_accounts_ok l w r : no_more_accounts l w = Ok r -> l = [] /\ r = (tt, w).
Proof. unfold no_more_accounts. intros Hn. apply require_ok in Hn as [Hl ->]. by destruct l. Qed.

Lemma transfer_remote_ok program_id accts xfer w r :
  transfer_remote (T := T) program_id accts xfer w = Ok r ->
  exists ti oi ai si ui mi token local remote l w1 id w2 w', r = (tt, w') /\
    sent program_id accts xfer w ti oi ai si ui mi token local remote l w1 id w2 w'.
Proof.
  intros Hr. unfold transfer_remote in Hr. do 5 (prog_step Hr).
  apply st_bind_ok in Hr as (token & w0 & Ht & Hr).
  apply verify_token_ok in Ht as (token' & Ht & [= -> ->]). do 4 (prog_step Hr). cbv zeta in Hr.
  do 6 (prog_step Hr). apply st_bind_ok in Hr as ([p l'] & w0 & Hi & Hr).
  apply igp_payment_accounts_ok in Hi as (-> & [used ->] & Hp). do 2 (prog_step Hr).
  apply st_bind_ok in Hr as (left_ & w1 & Hin & Hr).
  apply st_bind_ok in Hr as ([] & w0 & Hn & Hr). apply no_more_accounts_ok in Hn as [-> [= ->]].
  match goal with Ho : ok_or (u256_try_into_u64 _) _ = Ok _ |- _ =>
    destruct (u256_try_into_u64 _) as [local|] eqn:Hlocal; [injection Ho as <-|done] end.
  subst. destruct p as [[metas infos]|].
  - apply st_bind_ok in Hr as (id & w' & Hd & Hr). injection Hr as <-.
    apply dispatch_with_gas_ok in Hd as (gas & id' & w2 & igp & t & data & w3 & Hg & Hd & Hgp &
      Hs & Hpay & [= <- ->]).
    eexists _, _, _, _, _, _, token', _, _, l', w1, id, w2, _. split; [done|].
    split; try done; [by eexists _, _, _, used|by eexists|].
    change (interchain_gas_paymaster token') with (tk_interchain_gas_paymaster token') in Hgp.
    rewrite Hgp. by eexists gas, data, _, _.
  - apply st_bind_ok in Hr as (id & w' & Hd & Hr). injection Hr as <-.
    eexists _, _, _, _, _, _, token', _, _, l', w1, id, w', w'. split; [done|].
    split; try done; [by eexists _, _, _, used|by eexists|].
    destruct (tk_interchain_gas_paymaster token'); [|done]. by destruct (proj2 Hp (ex_intro _ _ eq_refl)).
Qed.

(** A transfer that was released: [local] went out for the message [msg] of the enrolled
    router, whose delivery by the mailbox the process authority signed. *)
Record released (program_id : Pubkey) (accts : list AccountInfo) (xfer : HandleInstruction)
    (w : world) (ai sys ti ri : AccountInfo) (token : HyperlaneToken T) (msg : TokenMessage)
    (local : u64) (l : list AccountInfo) (w' : world) : Prop := {
  rel_accounts : accts = ai :: sys :: ti :: ri :: l;
  rel_system : key sys = system_program_id;
  rel_token : token_at program_id w (key ti) token;
  rel_message : handle_message xfer = to_vec msg;
  rel_recipient : key ri = tm_recipient msg;
  rel_authority : key ai = tk_mailbox_process_authority token;
  rel_signed : is_signer ai = true;
  rel_router : remote_routers token !! handle_origin xfer = Some (handle_sender xfer);
  rel_amount : remote_amount_to_local_amount token (tm_amount_or_id msg) = Ok local;
  rel_out : transfer_out program_id token sys ri l local w = Ok ([], w')
}.

Lemma valid_router_message_ok (token : HyperlaneToken T) ai origin sender r :
  ensure_valid_router_message token ai origin sender = Ok r <->
  key ai = tk_mailbox_process_authority token /\ is_signer ai = true /\
  remote_routers token !! origin = Some sender.
Proof.
  unfold ensure_valid_router_message, ensure_mailbox_process_authority_signer,
    only_remote_router, is_remote_router, require_or.
  change (mailbox_process_authority token) with (tk_mailbox_process_authority token).
  change (router token origin) with (remote_routers token !! origin).
  destruct r. destruct (bool_decide (tk_mailbox_process_authority token = key ai)) eqn:Ha;
    [apply bool_decide_eq_true_1 in Ha|apply bool_decide_eq_false_1 in Ha];
    cbn [mbind outcome_bind]; [|split; [done|intros [? _]; congruence]].
  destruct (is_signer ai); cbn [mbind outcome_bind]; [|naive_solver].
  destruct (bool_decide (remote_routers token !! origin = Some sender)) eqn:Hr;
    [apply bool_decide_eq_true_1 in Hr|apply bool_decide_eq_false_1 in Hr]; naive_solver.
Qed.

Lemma transfer_from_remote_ok program_id accts xfer w r :
  transfer_from_remote (T := T) program_id accts xfer w = Ok r <->
  exists ai sys ti ri token msg local l w', r = (tt, w') /\
    released program_id accts xfer w ai sys ti ri token msg local l w'.
Proof.
  split.
  - intros Hr. unfold transfer_from_remote in Hr. do 5 (prog_step Hr).
    apply st_bind_ok in Hr as (token & w0 & Ht & Hr).
    apply verify_token_ok in Ht as (token' & Ht & [= -> ->]). do 4 (prog_step Hr).
    apply st_bind_ok in Hr as (left_ & w1 & Ho & Hr).
    apply no_more_accounts_ok in Hr as [-> ->].
    match goal with Hv : ensure_valid_router_message _ _ _ _ = Ok _,
        Hm : read_token_message _ = Ok _ |- _ =>
      apply valid_router_message_ok in Hv as (Ha & Hs & Hrt);
      apply read_token_message_ok in Hm end.
    by eexists _, _, _, _, token', _, _, _, w1.
  - intros (ai & sys & ti & ri & token & msg & local & l & w' & -> & [-> Hsy Ht Hm Hri Ha Hs Hrt Hl Ho]).
    unfold transfer_from_remote. rewrite Hm.
    prog_run (lift_Ok _ _ w (read_token_message_to_vec msg)).
    prog_run (@next_cons ai (sys :: ti :: ri :: l) w). prog_run (@next_cons sys (ti :: ri :: l) w).
    prog_run (@require_true _ _ _ InvalidArgument w (bool_decide_eq_true_2 _ Hsy)).
    prog_run (@next_cons ti (ri :: l) w).
    prog_run (proj2 (verify_token_ok program_id ti w _) (ex_intro _ token (conj Ht eq_refl))).
    prog_run (@next_cons ri l w). cbv zeta.
    prog_run (@require_true _ _ _ InvalidArgument w (bool_decide_eq_true_2 _ Hri)).
    prog_run (lift_Ok _ _ w (proj2 (valid_router_message_ok token ai (handle_origin xfer)
      (handle_sender xfer) tt) (conj Ha (conj Hs Hrt)))).
    prog_run (lift_Ok _ _ w Hl). by prog_run Ho.
Qed.

(** *** Initialisation *)

Lemma not_initialized_ok i w r :
  not_initialized i w = Ok r -> content w (key i) = ([], system_program_id) /\ r = (tt, w).
Proof.
  intros Hn. unfold not_initialized in Hn. apply st_bind_ok in Hn as (e & w1 & He & Hn).
  apply data_is_empty_ok in He as [_ [= -> ->]]. apply st_bind_ok in Hn as ([] & w1 & He & Hn).
  apply require_ok in He as [Hd [= ->]]. apply bool_decide_eq_true_1 in Hd. prog_step Hn.
  apply require_ok in Hn as [Ho ->]. apply bool_decide_eq_true_1 in Ho.
  split; [|done]. unfold content in *. cbn [fst snd] in *. congruence.
Qed.

(** The token that [initialize] stores. *)
Definition initial_token (program_id : Pubkey) (init : Init) (owner : Pubkey)
    (bump authority_bump : u8) (plugin : T) : HyperlaneToken T :=
  MkHyperlaneToken bump (init_mailbox init)
    (fst (find_program_address (mailbox_process_authority_pda_seeds program_id)
            (init_mailbox init)))
    authority_bump (init_decimals init) (init_remote_decimals init) (Some owner)
    (init_interchain_security_module init) (init_interchain_gas_paymaster init) ∅ ∅ plugin.

Lemma initial_token_size program_id init owner bump authority_bump (plugin : T) :
  (sized plugin <= 1024)%nat ->
  Z.of_nat (AccountData.size (initial_token program_id init owner bump authority_bump plugin))
    < 2 ^ 64.
Proof.
  intros Hp. unfold AccountData.size. unfold sized at 1. unfold HyperlaneToken_size.
  cbn [initial_token tk_destination_gas remote_routers plugin_data]. rewrite !map_size_empty. lia.
Qed.

Lemma token_initialize_ok `{!TokenPluginLaws T} program_id accts init w r :
  program_id <> system_program_id ->
  initialize (T := T) program_id accts init w = Ok r ->
  exists sys ti ai payer l plugin bump authority_bump w1 w',
    accts = sys :: ti :: ai :: payer :: l /\ r = (tt, w') /\ is_signer payer = true /\
    find_program_address hyperlane_token_pda_seeds program_id = (key ti, bump) /\
    find_program_address mailbox_message_dispatch_authority_pda_seeds program_id
      = (key ai, authority_bump) /\
    content w (key ti) = ([], system_program_id) /\
    content w (key ai) = ([], system_program_id) /\
    plugin_initialize program_id sys ti payer l w = Ok ((plugin, []), w1) /\
    token_at program_id w' (key ti)
      (initial_token program_id init (key payer) bump authority_bump plugin) /\
    content w' (key ai) = ([], program_id) /\ frame w w' /\
    forall k, k <> key ti -> k <> key ai -> content w' k = content w1 k.
Proof.
  intros Hsys Hi. unfold initialize in Hi. do 3 (prog_step Hi).
  destruct (find_program_address hyperlane_token_pda_seeds program_id) as [tk tb] eqn:Htk.
  prog_step Hi. apply st_bind_ok in Hi as ([] & w0 & Hn & Hi).
  apply not_initialized_ok in Hn as [Hnt [= ->]]. prog_step Hi.
  destruct (find_program_address mailbox_message_dispatch_authority_pda_seeds program_id)
    as [ak ab] eqn:Hak.
  prog_step Hi. apply st_bind_ok in Hi as ([] & w0 & Hn & Hi).
  apply not_initialized_ok in Hn as [Hna [= ->]]. do 2 (prog_step Hi).
  destruct (find_program_address (mailbox_process_authority_pda_seeds _) _) as [pk pb] eqn:Hpk.
  apply st_bind_ok in Hi as ([plugin l'] & w1 & Hp & Hi).
  apply st_bind_ok in Hi as ([] & w0 & Hn & Hi). apply no_more_accounts_ok in Hn as [-> [= ->]].
  prog_step Hi. cbv zeta in Hi.
  change pk with (fst (pk, pb)) in Hi. rewrite <- Hpk in Hi.
  change (MkHyperlaneToken _ _ _ _ _ _ _ _ _ _ _ _)
    with (initial_token program_id init (key i2) tb ab plugin) in Hi.
  apply st_bind_ok in Hi as ([] & w2 & Hct & Hi). apply st_bind_ok in Hi as ([] & w3 & Hca & Hi).
  pose proof (create_pda_account_fresh _ _ _ _ _ _ _ _ _ Hca) as Hfa.
  apply create_pda_account_content in Hct as (w2' & [= <-] & Hf2 & Hc2);
    [|apply initial_token_size, plugin_size].
  apply create_pda_account_content in Hca as (w3' & [= <-] & Hf3 & Hc3); [|done].
  apply store_content in Hi as (_ & Hb & w' & b & tail & -> & Hs & Hf4 & Hc4).
  assert (Hne : key i0 <> key i1).
  { intros He. rewrite <- He, Hc2, decide_True in Hfa by done. by injection Hfa. }
  pose proof (plugin_initialize_ok _ _ _ _ _ _ _ _ _ Hp) as Hf1. subst.
  exists i, i0, i1, i2, l0, plugin, tb, ab, w1, w'. split_and!; try done.
  - unfold token_at. rewrite Hc4, decide_True, Hc3, decide_False, Hc2, decide_True by done.
    split_and!; [destruct Hf4 as [_ E]; by rewrite E|by apply fetch_stored|by apply find_create|done].
  - by rewrite Hc4, decide_False, Hc3, decide_True by done.
  - by etrans; [|etrans; [|etrans]].
  - intros k H1k H2k. by rewrite Hc4, decide_False, Hc3, decide_False, Hc2, decide_False by done.
Qed.
End transfers.
