(* ===== verification/TokenPluginsCorrect.v ===== *)
(** * Correctness of the plugins

    What a successful transfer of each plugin did, and the instances of [TokenPluginLaws]. *)

From S2P Require Import Prelude.
From S2P Require Import Codec.
From S2P Require Import U256.
From S2P Require Import Sealevel.
From S2P Require Import AccountUtils.
From S2P Require Import Interfaces.
From S2P Require Import Token.
From S2P Require Import TokenPlugins.
From S2P Require Import TokenCorrect.
From stdpp Require Import base gmap list numbers strings sets.
From Stdlib Require Import ZArith Lia.

#[local] Open Scope Z_scope.

(** Calls of programs other than the caller. *)
Lemma call_foreign `{SolanaLaws} ix infos seeds w w' :
  sol_invoke_signed ix infos seeds w = Ok w' ->
  frame w w' /\ (executing w <> ix_program_id ix -> forall k,
    snd (content w k) = executing w -> content w' k = content w k).
Proof.
  intros Hi. split; [by eapply invoke_frame|]. intros Hne k Hk.
  eapply invoke_foreign; [done|by apply not_eq_sym|done].
Qed.

(** Two of them in a row. *)
Lemma foreign_trans `{Solana} w1 w2 w3 :
  frame w1 w2 -> frame w2 w3 ->
  (forall k, snd (content w1 k) = executing w1 -> content w2 k = content w1 k) ->
  (forall k, snd (content w2 k) = executing w2 -> content w3 k = content w2 k) ->
  frame w1 w3 /\ forall k, snd (content w1 k) = executing w1 -> content w3 k = content w1 k.
Proof.
  intros Hf1 Hf2 H1 H2. split; [by etrans|]. intros k Hk. rewrite <- H1 by done.
  apply H2. rewrite H1 by done. destruct Hf1 as [-> _]. done.
Qed.

Lemma pda_check_ok `{Solana} (m : outcome ProgramError Pubkey) i r :
  (k ← m; require_or (bool_decide (key i = k)) InvalidArgument) = Ok r <-> m = Ok (key i).
Proof.
  split.
  - intros Hm. apply bind_ok in Hm as (k & -> & Hr). unfold require_or in Hr.
    case_bool_decide; [congruence|done].
  - intros ->. cbn. unfold require_or. rewrite bool_decide_true by done. by destruct r.
Qed.

(** ** Native *)

Section native.
Context `{SolanaLaws}.
Import Native.

Lemma native_in_ok program_id (token : HyperlaneToken NativePlugin) sender l amount w l' w' :
  transfer_in program_id token sender l amount w = Ok (l', w') <->
  exists sys ci, l = sys :: ci :: l' /\ key sys = system_program_id /\
    create_program_address (with_bump hyperlane_token_native_collateral_pda_seeds
      (native_collateral_bump (plugin_data token))) program_id = Ok (key ci) /\
    sol_invoke_signed (system_transfer (key sender) (key ci) amount) [sender; ci] [] w = Ok w'.
Proof.
  split.
  - intros Ht. unfold transfer_in in Ht. do 5 (prog_step Ht). injection Ht as <- <-.
    match goal with Hv : verify_native_collateral_account_info _ _ _ = Ok _ |- _ =>
      apply pda_check_ok in Hv end. by eexists _, _.
  - intros (sys & ci & -> & Hs & Hc & Hi). unfold transfer_in.
    prog_run (@next_cons sys (ci :: l') w).
    prog_run (@require_true _ _ _ InvalidArgument w (bool_decide_eq_true_2 _ Hs)).
    prog_run (@next_cons ci l' w).
    assert (Hv : verify_native_collateral_account_info program_id token ci = Ok tt)
      by (by apply pda_check_ok).
    prog_run (lift_Ok _ _ w Hv).
    by prog_run (proj2 (invoke_ok _ _ w _) (ex_intro _ w' (conj Hi eq_refl))).
Qed.

Lemma native_out_ok program_id (token : HyperlaneToken NativePlugin) sys recipient l amount w
    l' w' :
  transfer_out program_id token sys recipient l amount w = Ok (l', w') ->
  exists sys ci rent, l = sys :: ci :: l' /\ key sys = system_program_id /\
    create_program_address (with_bump hyperlane_token_native_collateral_pda_seeds
      (native_collateral_bump (plugin_data token))) program_id = Ok (key ci) /\
    sol_invoke_signed (system_transfer (key ci) (key recipient) amount) [ci; recipient]
      [with_bump hyperlane_token_native_collateral_pda_seeds
         (native_collateral_bump (plugin_data token))] w = Ok w' /\
    Rent_get = Ok rent /\
    is_exempt rent (acc_lamports (get_account w' (key ci)))
      (length (fst (content w' (key ci)))) = true.
Proof.
  intros Ht. unfold transfer_out in Ht. do 6 (prog_step Ht).
  apply st_bind_ok in Ht as ([] & w1 & Hr & Ht). apply verify_rent_exempt_ok in Hr as (_ & [= ->] & Hr).
  injection Ht as <- <-.
  match goal with Hv : verify_native_collateral_account_info _ _ _ = Ok _ |- _ =>
    apply pda_check_ok in Hv end. by eexists _, _, _.
Qed.

#[export] Instance native_laws : TokenPluginLaws NativePlugin.
Proof.
  refine {| plugin_calls _ := [system_program_id];
            plugin_canonical program_id p := exists k, find_program_address
              hyperlane_token_native_collateral_pda_seeds program_id
              = (k, native_collateral_bump p) |}.
  - intros program_id token sender l amount w l' w' Ht.
    apply native_in_ok in Ht as (sys & ci & _ & _ & _ & Hi). split; [by eapply invoke_frame|].
    intros _ k _. by eapply transfer_content.
  - intros program_id token system recipient l amount w l' w' Ht.
    apply (native_out_ok program_id token system) in Ht as (sys & ci & rent & _ & _ & _ & Hi & _).
    split; [by eapply invoke_frame|]. intros _ k _. by eapply transfer_content.
  - intros program_id system token payer l w p l' w' Hi. cbn in Hi. unfold initialize in Hi.
    prog_step Hi. destruct (find_program_address _ _) as [nk nb]. do 2 (prog_step Hi).
    apply st_bind_ok in Hi as ([] & w1 & Hc & Hi). injection Hi as <- <- <-.
    by eapply create_pda_account_frame.
  - intros program_id system token payer l w p l' w' Hi. cbn in Hi. unfold initialize in Hi.
    prog_step Hi. destruct (find_program_address _ _) as [nk nb] eqn:Hk. do 2 (prog_step Hi).
    apply st_bind_ok in Hi as ([] & w1 & Hc & Hi). injection Hi as <- <- <-. by exists nk.
  - intros program_id token system recipient l amount w l' w' msg Ht [k Hk] _.
    apply (native_out_ok program_id token system) in Ht as (sys & ci & rent & -> & Hs & Hc & _).
    pose proof (find_create _ _ _ _ Hk) as Hc'. unfold with_bump in Hc. rewrite Hc' in Hc.
    injection Hc as ->. exists [sys; ci]. cbn. unfold transfer_out_account_metas. rewrite Hk.
    eexists _, _. split_and!; [done|done|]. cbn. by rewrite Hs.
  - intros p. change (sized p) with 1%nat. lia.
Defined.
End native.

(** ** SPL tokens: every instruction is for the program it is built for *)

Class SplTokenLaws `{SplToken} := {
  burn_program p a m o s n d ix : burn_checked p a m o s n d = Ok ix -> ix_program_id ix = p;
  mint_program p m a o s n d ix : mint_to_checked p m a o s n d = Ok ix -> ix_program_id ix = p;
  transfer_checked_program p a m b o s n d ix :
    transfer_checked p a m b o s n d = Ok ix -> ix_program_id ix = p;
  create_ata_program f o m p :
    ix_program_id (create_associated_token_account_idempotent f o m p)
      = spl_associated_token_account_id
}.

Section spl.
Context `{SolanaLaws, SplTokenLaws}.

(** *** Synthetic *)

Import Synthetic.

Lemma verify_mint_ok program_id (token : HyperlaneToken SyntheticPlugin) mi w r :
  verify_mint_account_info program_id token mi w = Ok r ->
  key mi = mint (plugin_data token) /\
  create_program_address (with_bump hyperlane_token_mint_pda_seeds
    (mint_bump (plugin_data token))) program_id = Ok (key mi) /\
  snd (content w (key mi)) = spl_token_2022_id /\ r = (tt, w).
Proof.
  intros Hv. unfold verify_mint_account_info in Hv. do 4 (prog_step Hv).
  apply require_ok in Hv as [Ho ->]. apply bool_decide_eq_true_1 in Ho. subst.
  split_and!; done || congruence.
Qed.

(** The tokens that leave are burned from the account of the signing sender. *)
Lemma synthetic_in_ok program_id (token : HyperlaneToken SyntheticPlugin) sender l amount w
    l' w' :
  transfer_in program_id token sender l amount w = Ok (l', w') ->
  exists spl mi ata ix, l = spl :: mi :: ata :: l' /\
    key mi = mint (plugin_data token) /\ snd (content w (key mi)) = spl_token_2022_id /\
    key ata = get_associated_token_address_with_program_id (key sender) (key mi)
      spl_token_2022_id /\
    burn_checked spl_token_2022_id (key ata) (key mi) (key sender) [key sender] amount
      (decimals token) = Ok ix /\
    sol_invoke_signed ix [ata; mi; sender] [] w = Ok w'.
Proof.
  intros Ht. unfold transfer_in in Ht. do 3 (prog_step Ht).
  apply st_bind_ok in Ht as ([] & w1 & Hv & Ht).
  apply verify_mint_ok in Hv as (Hm & _ & Ho & [= ->]). do 4 (prog_step Ht).
  injection Ht as <- <-. by eexists _, _, _, _.
Qed.

(** The tokens that arrive are minted to the account of the recipient, which is rent exempt
    by then; the payer of that account is not looked at. *)
Lemma synthetic_out_ok program_id (token : HyperlaneToken SyntheticPlugin) sys recipient l
    amount w l' w' :
  transfer_out program_id token sys recipient l amount w = Ok (l', w') ->
  exists spl ata_program mi ata payer w1 rent ix,
    l = spl :: ata_program :: mi :: ata :: payer :: l' /\
    key spl = spl_token_2022_id /\ key ata_program = spl_associated_token_account_id /\
    key mi = mint (plugin_data token) /\
    create_program_address (with_bump hyperlane_token_mint_pda_seeds
      (mint_bump (plugin_data token))) program_id = Ok (key mi) /\
    key ata = get_associated_token_address_with_program_id (key recipient) (key mi)
      spl_token_2022_id /\
    create_program_address (with_bump hyperlane_token_ata_payer_pda_seeds
      (ata_payer_bump (plugin_data token))) program_id = Ok (key payer) /\
    sol_invoke_signed (create_associated_token_account_idempotent (key payer) (key recipient)
      (key mi) spl_token_2022_id) [payer; ata; recipient; mi; sys; spl]
      [with_bump hyperlane_token_ata_payer_pda_seeds (ata_payer_bump (plugin_data token))] w
      = Ok w1 /\
    Rent_get = Ok rent /\
    is_exempt rent (acc_lamports (get_account w1 (key ata))) (length (fst (content w1 (key ata))))
      = true /\
    mint_to_checked spl_token_2022_id (key mi) (key ata) (key mi) [] amount (decimals token)
      = Ok ix /\
    sol_invoke_signed ix [mi; ata; mi]
      [with_bump hyperlane_token_mint_pda_seeds (mint_bump (plugin_data token))] w1 = Ok w'.
Proof.
  intros Ht. unfold transfer_out in Ht. do 5 (prog_step Ht).
  apply st_bind_ok in Ht as ([] & w1 & Hv & Ht).
  apply verify_mint_ok in Hv as (Hm & Hc & _ & [= ->]). do 6 (prog_step Ht).
  apply st_bind_ok in Ht as ([] & w2 & Hr & Ht).
  apply verify_rent_exempt_ok in Hr as (_ & [= ->] & Hr). do 2 (prog_step Ht).
  injection Ht as <- <-.
  match goal with Hp : verify_ata_payer_account_info _ _ _ = Ok _ |- _ =>
    apply pda_check_ok in Hp end.
  by eexists _, _, _, _, _, _, _, _.
Qed.

#[export] Instance synthetic_laws : TokenPluginLaws SyntheticPlugin.
Proof.
  refine {| plugin_calls _ := [spl_token_2022_id; spl_associated_token_account_id];
            plugin_canonical _ _ := True |}.
  - intros program_id token sender l amount w l' w' Ht.
    apply synthetic_in_ok in Ht as (spl & mi & ata & ix & _ & _ & _ & _ & Hx & Hi).
    apply burn_program in Hx. apply call_foreign in Hi as [Hf Hi]. split; [done|].
    intros He. apply Hi. rewrite Hx. set_solver.
  - intros program_id token system recipient l amount w l' w' Ht.
    apply synthetic_out_ok in Ht as (spl & ap & mi & ata & payer & w1 & rent & ix & _ & _ & _ & _ &
      _ & _ & _ & Hi1 & _ & _ & Hx & Hi2).
    apply mint_program in Hx. apply call_foreign in Hi1 as [Hf1 Hi1].
    apply call_foreign in Hi2 as [Hf2 Hi2]. split; [by etrans|]. intros He.
    apply (foreign_trans w w1 w'); [done..| |].
    + apply Hi1. rewrite create_ata_program. set_solver.
    + apply Hi2. destruct Hf1 as [-> _]. rewrite Hx. set_solver.
  - intros program_id system token payer l w p l' w' Hi. cbn in Hi. unfold initialize in Hi.
    prog_step Hi. destruct (find_program_address _ _) as [mk mb]. do 2 (prog_step Hi).
    apply st_bind_ok in Hi as ([] & w1 & Hc1 & Hi). prog_step Hi.
    destruct (find_program_address _ _) as [ak ab]. prog_step Hi.
    apply st_bind_ok in Hi as ([] & w2 & Hc2 & Hi). injection Hi as <- <- <-.
    etrans; by eapply create_pda_account_frame.
  - done.
  - intros program_id token system recipient l amount w l' w' msg Ht _ Hr.
    apply synthetic_out_ok in Ht as (spl & ap & mi & ata & payer & w1 & rent & ix & -> & Hs & Hap &
      Hm & _ & Ha & Hp & _). exists [spl; ap; mi; ata; payer]. cbn.
    unfold transfer_out_account_metas. rewrite Hp. cbn. eexists _, _. split_and!; [done|done|].
    cbn. by rewrite Hs, Hap, Ha, <- Hr, Hm.
  - intros p. change (sized p) with 34%nat. lia.
Defined.

(** *** Collateral *)

Import Collateral.

(** The tokens that leave go from the account of the signing sender to the escrow. *)
Lemma collateral_in_ok program_id (token : HyperlaneToken CollateralPlugin) sender l amount w
    l' w' :
  transfer_in program_id token sender l amount w = Ok (l', w') ->
  exists spl mi ata ei ix, l = spl :: mi :: ata :: ei :: l' /\
    key spl = spl_token_program (plugin_data token) /\ key mi = mint (plugin_data token) /\
    snd (content w (key mi)) = spl_token_program (plugin_data token) /\
    key ata = get_associated_token_address_with_program_id (key sender) (key mi) (key spl) /\
    key ei = escrow (plugin_data token) /\
    transfer_checked (key spl) (key ata) (key mi) (key ei) (key sender) [] amount
      (decimals token) = Ok ix /\
    sol_invoke_signed ix [ata; mi; ei; sender] [] w = Ok w'.
Proof.
  intros Ht. unfold transfer_in in Ht. do 13 (prog_step Ht). injection Ht as <- <-. subst.
  eexists _, _, _, _, _. split_and!; try done.
  match goal with Ho : acc_owner (get_account _ _) = _ |- _ =>
    change (snd (content w (key i0)) = key i) in Ho end.
  congruence.
Qed.

(** The tokens that arrive come from the escrow; the payer of the recipient's account stays
    rent exempt. *)
Lemma collateral_out_ok program_id (token : HyperlaneToken CollateralPlugin) sys recipient l
    amount w l' w' :
  transfer_out program_id token sys recipient l amount w = Ok (l', w') ->
  exists spl ata_program mi ata payer ei w1 rent ix,
    l = spl :: ata_program :: mi :: ata :: payer :: ei :: l' /\
    key spl = spl_token_program (plugin_data token) /\
    key ata_program = spl_associated_token_account_id /\ key mi = mint (plugin_data token) /\
    key ata = get_associated_token_address_with_program_id (key recipient) (key mi) (key spl) /\
    create_program_address (with_bump hyperlane_token_ata_payer_pda_seeds
      (ata_payer_bump (plugin_data token))) program_id = Ok (key payer) /\
    key ei = escrow (plugin_data token) /\
    sol_invoke_signed (create_associated_token_account_idempotent (key payer) (key recipient)
      (key mi) (key spl)) [payer; ata; recipient; mi; sys; spl]
      [with_bump hyperlane_token_ata_payer_pda_seeds (ata_payer_bump (plugin_data token))] w
      = Ok w1 /\
    Rent_get = Ok rent /\
    is_exempt rent (acc_lamports (get_account w1 (key payer)))
      (length (fst (content w1 (key payer)))) = true /\
    transfer_checked (key spl) (key ei) (key mi) (key ata) (key ei) [] amount (decimals token)
      = Ok ix /\
    sol_invoke_signed ix [ei; mi; ata; ei]
      [with_bump hyperlane_token_escrow_pda_seeds (escrow_bump (plugin_data token))] w1 = Ok w'.
Proof.
  intros Ht. unfold transfer_out in Ht. do 17 (prog_step Ht).
  apply st_bind_ok in Ht as ([] & w2 & Hr & Ht).
  apply verify_rent_exempt_ok in Hr as (_ & [= ->] & Hr). do 2 (prog_step Ht).
  injection Ht as <- <-.
  match goal with Hp : verify_ata_payer_account_info _ _ _ = Ok _ |- _ =>
    apply pda_check_ok in Hp end.
  by eexists _, _, _, _, _, _, _, _, _.
Qed.

#[export] Instance collateral_laws : TokenPluginLaws CollateralPlugin.
Proof.
  refine {| plugin_calls token :=
              [spl_token_program (plugin_data token); spl_associated_token_account_id];
            plugin_canonical _ _ := True |}.
  - intros program_id token sender l amount w l' w' Ht.
    apply (collateral_in_ok program_id) in Ht as (spl & mi & ata & ei & ix & _ & Hs & _ & _ & _ & _ & Hx & Hi).
    apply transfer_checked_program in Hx. apply call_foreign in Hi as [Hf Hi]. split; [done|].
    intros He. apply Hi. rewrite Hx, Hs. set_solver.
  - intros program_id token system recipient l amount w l' w' Ht.
    apply collateral_out_ok in Ht as (spl & ap & mi & ata & payer & ei & w1 & rent & ix & _ & Hs &
      _ & _ & _ & _ & _ & Hi1 & _ & _ & Hx & Hi2).
    apply transfer_checked_program in Hx. apply call_foreign in Hi1 as [Hf1 Hi1].
    apply call_foreign in Hi2 as [Hf2 Hi2]. split; [by etrans|]. intros He.
    apply (foreign_trans w w1 w'); [done..| |].
    + apply Hi1. rewrite create_ata_program. set_solver.
    + apply Hi2. destruct Hf1 as [-> _]. rewrite Hx, Hs. set_solver.
  - intros program_id system token payer l w p l' w' Hi. cbn in Hi. unfold initialize in Hi.
    do 8 (prog_step Hi). destruct (find_program_address _ _) as [ek eb]. prog_step Hi.
    apply st_bind_ok in Hi as (size & w1 & Hz & Hi). prog_step Hi.
    apply st_bind_ok in Hi as ([] & w2 & Hc1 & Hi). do 3 (prog_step Hi).
    destruct (find_program_address _ _) as [ak ab]. prog_step Hi.
    apply st_bind_ok in Hi as ([] & w4 & Hc2 & Hi). injection Hi as <- <- <-.
    assert (Hf : frame w w1).
    { unfold account_data_size in Hz. do 4 (prog_step Hz).
      match goal with Ho : ok_or _ _ = Ok ?x |- _ => destruct x end.
      do 2 (prog_step Hz). injection Hz as <- <-. by eapply invoke_frame. }
    etrans; [exact Hf|]. etrans; [by eapply create_pda_account_frame|].
    etrans; [by eapply invoke_frame|by eapply create_pda_account_frame].
  - done.
  - intros program_id token system recipient l amount w l' w' msg Ht _ Hr.
    apply collateral_out_ok in Ht as (spl & ap & mi & ata & payer & ei & w1 & rent & ix & -> & Hs &
      Hap & Hm & Ha & Hp & He & _). exists [spl; ap; mi; ata; payer; ei]. cbn.
    unfold transfer_out_account_metas. rewrite Hp. cbn. eexists _, _. split_and!; [done|done|].
    cbn. by rewrite Hs, Hap, Ha, <- Hr, Hm, He, Hs.
  - intros p. change (sized p) with 98%nat. lia.
Defined.
End spl.
