(* ===== verification/ConcreteToken.v ===== *)
(** * Concrete instances for the warp routes

    The Borsh formats of the derived codecs of the token library and the native plugin and of
    the instructions of the mailbox, and a runtime in which one program is the mailbox. Only
    the witnesses use them. *)

From S2P Require Import Prelude.
From S2P Require Import Codec.
From S2P Require Import Keccak.
From S2P Require Import U256.
From S2P Require Import Sealevel.
From S2P Require Import AccountUtils.
From S2P Require Import Interfaces.
From S2P Require Import Mailbox.
From S2P Require Import Concrete.
From S2P Require Import Igp.
From S2P Require Import ConcreteIgp.
From S2P Require Import ConnectionClient.
From S2P Require Import Token.
From S2P Require Import TokenPlugins.
From stdpp Require Import base gmap list numbers strings sets.
From Stdlib Require Import ZArith Lia.

#[local] Open Scope Z_scope.

Import BorshModel RuntimeModel.

Module TokenModel.
Import Native.

(** ** The token account *)

Definition ser_igp (o : option (Pubkey * InterchainGasPaymasterType)) : bytes :=
  match o with
  | None => [byte 0]
  | Some (p, IgpType k) => [byte 1] ++ to_be p ++ [byte 0] ++ to_be k
  | Some (p, OverheadIgpType k) => [byte 1] ++ to_be p ++ [byte 1] ++ to_be k
  end.

Definition read_igp : slice_reader (option (Pubkey * InterchainGasPaymasterType)) :=
  b ← slice_read_exact 1;
  if uval (from_le 1 b) =? 0 then mret None
  else if uval (from_le 1 b) =? 1 then
    p ← slice_read_exact 32; t ← slice_read_exact 1; k ← slice_read_exact 32;
    if uval (from_le 1 t) =? 0 then mret (Some (from_be 32 p, IgpType (from_be 32 k)))
    else if uval (from_le 1 t) =? 1 then
      mret (Some (from_be 32 p, OverheadIgpType (from_be 32 k)))
    else throw InvalidData
  else throw InvalidData.

(** Reads the tag of an instruction and chooses its branch. *)
Ltac tagged n :=
  rewrite slice_read_app by reflexivity; change (uval (from_le 1 [byte n])) with n;
  cbn [Z.eqb Pos.eqb].

Lemma read_igp_app o rest : read_igp (ser_igp o ++ rest) = Ok (o, rest).
Proof.
  destruct o as [[p [k|k]]|]; unfold read_igp, ser_igp; rewrite <- ?app_assoc.
  - tagged 1. rewrite slice_read_app by apply length_to_be. tagged 0. decode.
    unfold mret, ST_ret. by autorewrite with hyp.
  - tagged 1. rewrite slice_read_app by apply length_to_be. tagged 1. decode.
    unfold mret, ST_ret. by autorewrite with hyp.
  - by tagged 0.
Qed.

Definition read_u64 : slice_reader u64 := b ← slice_read_exact 8; mret (from_le 8 b).
Definition read_h256 : slice_reader H256 := b ← slice_read_exact 32; mret (from_be 32 b).

Lemma token_read_u64_app (v : u64) rest : read_u64 (to_le v ++ rest) = Ok (v, rest).
Proof. unfold read_u64. decode. unfold mret, ST_ret. by autorewrite with hyp. Qed.
Lemma read_h256_app (v : H256) rest : read_h256 (to_be v ++ rest) = Ok (v, rest).
Proof. unfold read_h256. decode. unfold mret, ST_ret. by autorewrite with hyp. Qed.

#[export] Instance NativeToken_ser : BorshSerialize (HyperlaneToken NativePlugin) := λ t,
  gas ← ser_map to_le (tk_destination_gas t);
  routers ← ser_map to_be (remote_routers t);
  Ok (to_le (tk_bump t) ++ to_be (tk_mailbox t) ++ to_be (tk_mailbox_process_authority t)
      ++ to_le (dispatch_authority_bump t) ++ to_le (decimals t) ++ to_le (remote_decimals t)
      ++ ser_option (tk_owner t) ++ ser_option (tk_interchain_security_module t)
      ++ ser_igp (tk_interchain_gas_paymaster t) ++ gas ++ routers
      ++ to_le (native_collateral_bump (plugin_data t))).

#[export] Instance NativeToken_de : BorshDeserialize (HyperlaneToken NativePlugin) :=
  bump ← slice_read_exact 1; mailbox ← slice_read_exact 32; authority ← slice_read_exact 32;
  authority_bump ← slice_read_exact 1; decimals ← slice_read_exact 1;
  remote ← slice_read_exact 1; owner ← read_option; ism ← read_option; igp ← read_igp;
  gas ← read_map read_u64; routers ← read_map read_h256; collateral ← slice_read_exact 1;
  mret (MkHyperlaneToken (from_le 1 bump) (from_be 32 mailbox) (from_be 32 authority)
          (from_le 1 authority_bump) (from_le 1 decimals) (from_le 1 remote) owner ism igp gas
          routers (MkNativePlugin (from_le 1 collateral))).

#[export] Instance NativeToken_laws : BorshLaws (HyperlaneToken NativePlugin).
Proof.
  intros [b m a ab d rd o ism igp gas routers [cb]] s rest Hs.
  unfold serialize, NativeToken_ser in Hs.
  apply bind_ok in Hs as (sg & Hg & Hs). apply bind_ok in Hs as (sr & Hr & Hs).
  apply (inj Ok) in Hs as <-. unfold deserialize, NativeToken_de.
  cbn [tk_bump tk_mailbox tk_mailbox_process_authority dispatch_authority_bump decimals
    remote_decimals tk_owner tk_interchain_security_module tk_interchain_gas_paymaster
    tk_destination_gas remote_routers plugin_data native_collateral_bump] in *.
  decode. rewrite (st_bind_eq _ _ _ _ _ (read_option_app o _)).
  rewrite (st_bind_eq _ _ _ _ _ (read_option_app ism _)).
  rewrite (st_bind_eq _ _ _ _ _ (read_igp_app igp _)).
  rewrite (st_bind_eq _ _ _ _ _ (read_map_app _ _ token_read_u64_app gas _ _ Hg)).
  rewrite (st_bind_eq _ _ _ _ _ (read_map_app _ _ read_h256_app routers _ _ Hr)).
  decode. unfold mret, ST_ret. by autorewrite with hyp.
Qed.

#[export] Instance option_Pubkey_ser : BorshSerialize (option Pubkey) := λ o, Ok (ser_option o).
#[export] Instance H256_try : TryFromSlice H256 := whole read_h256.

Lemma H256_try_format (h : H256) : try_from_slice (to_be h) = Ok h.
Proof.
  unfold try_from_slice, H256_try, whole. rewrite <- (app_nil_r (to_be h)).
  by rewrite read_h256_app.
Qed.

(** The instructions of the owner that the witnesses run. *)
#[export] Instance TokenInstruction_try : TryFromSlice Token.Instruction :=
  whole (tag ← slice_read_exact 1;
    let tag := uval (from_le 1 tag) in
    if tag =? 2 then
      d ← slice_read_exact 4; s ← slice_read_exact 1;
      if uval (from_le 1 s) =? 0 then
        mret (EnrollRemoteRouter (MkRemoteRouterConfig (from_le 4 d) None))
      else r ← read_h256; mret (EnrollRemoteRouter (MkRemoteRouterConfig (from_le 4 d) (Some r)))
    else if tag =? 5 then o ← read_option; mret (SetInterchainSecurityModule o)
    else if tag =? 7 then o ← read_option; mret (TransferOwnershipIxn o)
    else throw InvalidData).

(** ** The instructions of the other programs *)

#[export] Instance PayForGas_ser : BorshSerialize Igp.Instruction := λ i,
  match i with
  | PayForGasIxn p =>
      Ok ([byte 3] ++ to_be (pay_message_id p) ++ to_le (pay_destination_domain p)
          ++ to_le (pay_gas_amount p))
  | _ => Err OtherIo
  end.

#[export] Instance MailboxInstruction_ser : BorshSerialize Mailbox.Instruction := λ i,
  match i with
  | Mailbox.InitIxn i =>
      Ok ([byte 0] ++ to_le (init_local_domain i) ++ to_be (init_default_ism i))
  | InboxProcessIxn p =>
      a ← ser_vec (process_metadata p); b ← ser_vec (process_message p);
      Ok ([byte 1] ++ a ++ b)
  | InboxSetDefaultIsm k => Ok ([byte 2] ++ to_be k)
  | InboxGetRecipientIsm k => Ok ([byte 3] ++ to_be k)
  | OutboxDispatchIxn d =>
      b ← ser_vec (message_body d);
      Ok ([byte 4] ++ to_be (dispatch_sender d) ++ to_le (destination_domain d)
          ++ to_be (dispatch_recipient d) ++ b)
  | OutboxGetCount => Ok [byte 5]
  | OutboxGetLatestCheckpoint => Ok [byte 6]
  | OutboxGetRoot => Ok [byte 7]
  | GetOwner => Ok [byte 8]
  | TransferOwnership o => Ok ([byte 9] ++ ser_option o)
  end.

Definition read_mailbox_instruction : slice_reader Mailbox.Instruction :=
  tag ← slice_read_exact 1;
  let tag := uval (from_le 1 tag) in
  if tag =? 0 then
    d ← slice_read_exact 4; k ← read_h256; mret (Mailbox.InitIxn (Mailbox.MkInit (from_le 4 d) k))
  else if tag =? 1 then
    a ← read_vec; b ← read_vec; mret (InboxProcessIxn (MkInboxProcess a b))
  else if tag =? 2 then k ← read_h256; mret (InboxSetDefaultIsm k)
  else if tag =? 3 then k ← read_h256; mret (InboxGetRecipientIsm k)
  else if tag =? 4 then
    s ← read_h256; d ← slice_read_exact 4; r ← read_h256; b ← read_vec;
    mret (OutboxDispatchIxn (MkOutboxDispatch s (from_le 4 d) r b))
  else if tag =? 5 then mret OutboxGetCount
  else if tag =? 6 then mret OutboxGetLatestCheckpoint
  else if tag =? 7 then mret OutboxGetRoot
  else if tag =? 8 then mret GetOwner
  else if tag =? 9 then o ← read_option; mret (TransferOwnership o)
  else throw InvalidData.

#[export] Instance MailboxInstruction_try : TryFromSlice Mailbox.Instruction :=
  whole read_mailbox_instruction.

#[export] Instance MailboxInstruction_laws : TryFromSliceLaws Mailbox.Instruction.
Proof.
  intros i s Hs. unfold try_from_slice, MailboxInstruction_try, whole.
  enough (Hr : forall rest, read_mailbox_instruction (s ++ rest) = Ok (i, rest))
    by (by rewrite <- (app_nil_r s), Hr).
  intros rest. unfold serialize, MailboxInstruction_ser in Hs.
  unfold read_mailbox_instruction. destruct i as [[d k]|[a b]|k|k|[s0 d r b]| | | | |o].
  - apply (inj Ok) in Hs as <-. rewrite <- app_assoc. tagged 0. decode.
    rewrite (st_bind_eq _ _ _ _ _ (read_h256_app k rest)). unfold mret, ST_ret.
    by autorewrite with hyp.
  - apply bind_ok in Hs as (sa & Ha & Hs). apply bind_ok in Hs as (sb & Hb & Hs).
    apply (inj Ok) in Hs as <-. rewrite <- !app_assoc. tagged 1.
    rewrite (st_bind_eq _ _ _ _ _ (read_vec_app _ _ _ Ha)).
    by rewrite (st_bind_eq _ _ _ _ _ (read_vec_app _ _ _ Hb)).
  - apply (inj Ok) in Hs as <-. rewrite <- app_assoc. tagged 2.
    by rewrite (st_bind_eq _ _ _ _ _ (read_h256_app k rest)).
  - apply (inj Ok) in Hs as <-. rewrite <- app_assoc. tagged 3.
    by rewrite (st_bind_eq _ _ _ _ _ (read_h256_app k rest)).
  - apply bind_ok in Hs as (sb & Hb & Hs). apply (inj Ok) in Hs as <-.
    rewrite <- !app_assoc. tagged 4. rewrite (st_bind_eq _ _ _ _ _ (read_h256_app s0 _)).
    decode. rewrite (st_bind_eq _ _ _ _ _ (read_h256_app r _)).
    rewrite (st_bind_eq _ _ _ _ _ (read_vec_app _ _ _ Hb)). unfold mret, ST_ret.
    by autorewrite with hyp.
  - apply (inj Ok) in Hs as <-. by tagged 5.
  - apply (inj Ok) in Hs as <-. by tagged 6.
  - apply (inj Ok) in Hs as <-. by tagged 7.
  - apply (inj Ok) in Hs as <-. by tagged 8.
  - apply (inj Ok) in Hs as <-. rewrite <- app_assoc. tagged 9.
    by rewrite (st_bind_eq _ _ _ _ _ (read_option_app o rest)).
Qed.
End TokenModel.

(** ** A runtime with a mailbox *)

Module MailboxRuntime.
Section deployed.
Context `{Keccak256}.
Import TokenModel.

(** A called program sees the accounts of the instruction; the system and the no-op programs
    are executable. *)
Definition callee_info (m : AccountMeta) : AccountInfo :=
  MkAccountInfo (meta_pubkey m) (meta_is_signer m) (meta_is_writable m)
    (bool_decide (meta_pubkey m = noop_id \/ meta_pubkey m = system_id)).

Definition call_mailbox (handler : list AccountInfo -> bytes -> prog unit) (mb : Pubkey)
    (ix : SolanaInstruction) (w : world) : outcome ProgramError world :=
  '(_, wc) ← handler (callee_info <$> ix_accounts ix) (ix_data ix) (entered w mb);
  Ok (left_world w wc).

(** The runtime in which the program [mb] runs [handler]. *)
Definition deployed (mb : Pubkey) (handler : list AccountInfo -> bytes -> prog unit) : Solana :=
  {| system_program_id := system_id;
     spl_noop_id := noop_id;
     find_program_address := @find_program_address runtime;
     create_program_address := @create_program_address runtime;
     Rent_get := @Rent_get runtime;
     Clock_get_slot := @Clock_get_slot runtime;
     sol_invoke_signed ix infos seeds w :=
       if decide (ix_program_id ix = mb) then call_mailbox handler mb ix w
       else run ix infos seeds w;
     sol_realloc := @sol_realloc runtime;
     system_transfer := @system_transfer runtime;
     system_allocate := @system_allocate runtime;
     system_assign := @system_assign runtime;
     system_create_account := @system_create_account runtime |}.

Lemma deployed_runs mb handler : Callee (deployed mb (handler mb)) mb handler.
Proof.
  split. intros ix infos seeds w w' Hp Hi. cbn in Hi. rewrite decide_True in Hi by done.
  unfold call_mailbox in Hi. apply bind_ok in Hi as ([[] wc] & Hh & Hi). injection Hi as <-.
  exists (callee_info <$> ix_accounts ix), wc. split_and!; [|done|done].
  clear Hh. induction (ix_accounts ix) as [|[] l IH]; [done|].
  cbn [fmap list_fmap]. by rewrite IH.
Qed.
End deployed.
End MailboxRuntime.
