(* ===== verification/TokenTheorems.v ===== *)
(** * Properties of the warp routes *)

From S2P Require Import Prelude.
From S2P Require Import Codec.
From S2P Require Import Keccak.
From S2P Require Import Accumulator.
From S2P Require Import Message.
From S2P Require Import MerkleSpec.
From S2P Require Import MerkleCorrect.
From S2P Require Import IncrementalCorrect.
From S2P Require Import U256.
From S2P Require Import Sealevel.
From S2P Require Import AccountUtils.
From S2P Require Import Interfaces.
From S2P Require Import Mailbox.
From S2P Require Import MailboxCorrect.
From S2P Require Import Igp.
From S2P Require Import ConnectionClient.
From S2P Require Import Token.
From S2P Require Import TokenPlugins.
From S2P Require Import TokenCorrect.
From S2P Require Import TokenPluginsCorrect.
From S2P Require Import Concrete.
From S2P Require Import ConcreteIsm.
From S2P Require Import ConcreteIgp.
From S2P Require Import ConcreteToken.
From stdpp Require Import base gmap list numbers strings sets.
From Stdlib Require Import ZArith Lia.

#[local] Open Scope Z_scope.

(** ** Amounts *)

Section amounts.
Context `{U256Laws} {T : Type}.

(** The conversions between local and remote amounts are exact. A local amount becomes the
    amount of the remote decimals, rounded down, and an error exactly when the power of ten
    or the result does not fit 256 bits; a remote amount the same the other way, with a panic
    when the result does not fit a [u64]. Between two tokens that agree on the remote decimals
    no value appears: what is released is worth at most what was sent, and between tokens of
    the same decimals, at most the remote ones, it is exactly what was sent. *)
Theorem token_amounts_spec (src dst : HyperlaneToken T) (local : u64) (remote : U256) :
  local_amount_to_remote_amount src local =
    (if convertible local (decimals src) (remote_decimals src)
     then Ok (uwrap 32 (converted local (decimals src) (remote_decimals src)))
     else Err InvalidArgument) /\
  remote_amount_to_local_amount src remote =
    (if convertible remote (remote_decimals src) (decimals src) then
       let v := converted remote (remote_decimals src) (decimals src) in
       if v <? 2 ^ 64 then Ok (uwrap 8 v) else Panic
     else Err InvalidArgument) /\
  forall sent received, remote_decimals dst = remote_decimals src ->
    local_amount_to_remote_amount src local = Ok sent ->
    remote_amount_to_local_amount dst sent = Ok received ->
    uval received * 10 ^ decimals src <= uval local * 10 ^ decimals dst /\
    (decimals dst = decimals src -> uval (decimals src) <= uval (remote_decimals src) ->
     received = local).
Proof.
  destruct (local_to_remote_val src local) as [Hl Hlv].
  split_and!; [exact Hl|apply remote_to_local_val|].
  intros sent received Hd Hs Hr. apply Hlv in Hs. apply remote_to_local_ok in Hr.
  rewrite Hd, Hs in Hr. urange (decimals src). urange (remote_decimals src).
  urange (decimals dst). split.
  - rewrite Hr. apply converted_twice; lia.
  - intros He Hle. apply uint_eq. rewrite Hr, He. apply converted_back. lia.
Qed.
End amounts.

(** ** The programs, by the interface of their plugin *)

Section programs.
Context `{SolanaLaws, U256Ops}.
Context `{BorshSerialize bool, BorshDeserialize bool, !BorshBool}.
Context `{HyperlaneSealevelTokenPlugin T, Default T, SizedData T, !TokenPluginLaws T}.
Context `{BorshSerialize (HyperlaneToken T), BorshDeserialize (HyperlaneToken T)}.
Context `{!BorshLaws (HyperlaneToken T)}.
Context `{BorshSerialize Mailbox.Instruction, BorshSerialize Igp.Instruction}.
Context `{TryFromSlice H256, BorshSerialize (option Pubkey)}.
Context `{BorshSerialize (SimulationReturnData (list SerializableAccountMeta))}.
Context `{TryFromSlice HandleInstruction, TryFromSlice Instruction}.

(** C11. Tokens are released only for a message that the mailbox delivered from an enrolled router.
    [transfer_from_remote] succeeds exactly when the body of the message is a token message,
    the token account is the one of its address, owned by the program, the process authority
    stored in it is the first account and signed, the sender is the router enrolled for the
    origin, the fourth account is the recipient the message names, its amount converts to a
    local amount, and the plugin pays that amount out to the recipient with exactly the
    accounts that are left. No account the program owns changes, so in particular the token
    account does not, unless the plugin calls the program itself. *)
Theorem transfer_from_remote_spec (program_id : Pubkey) accts (xfer : HandleInstruction) w r :
  (transfer_from_remote (T := T) program_id accts xfer w = Ok r <->
   exists authority system token_info recipient rest (token : HyperlaneToken T) msg local w',
     r = (tt, w') /\ accts = authority :: system :: token_info :: recipient :: rest /\
     key system = system_program_id /\ token_at program_id w (key token_info) token /\
     handle_message xfer = to_vec msg /\ key recipient = tm_recipient msg /\
     key authority = tk_mailbox_process_authority token /\ is_signer authority = true /\
     remote_routers token !! handle_origin xfer = Some (handle_sender xfer) /\
     remote_amount_to_local_amount token (tm_amount_or_id msg) = Ok local /\
     transfer_out program_id token system recipient rest local w = Ok ([], w')) /\
  (transfer_from_remote (T := T) program_id accts xfer w = Ok r ->
   executing w = program_id ->
   exists token_info (token : HyperlaneToken T), token_at program_id w (key token_info) token /\
     (program_id ∉ plugin_calls token ->
      (forall k, snd (content w k) = program_id -> content (snd r) k = content w k) /\
      token_at program_id (snd r) (key token_info) token)).
Proof.
  split.
  - rewrite transfer_from_remote_ok. split.
    + intros (ai & sys & ti & ri & token & msg & local & l & w' & -> & []).
      by exists ai, sys, ti, ri, l, token, msg, local, w'.
    + intros (ai & sys & ti & ri & l & token & msg & local & w' & -> & ? & ? & ? & ? & ? & ? & ? & ? & ? & ?).
      by exists ai, sys, ti, ri, token, msg, local, l, w'.
  - intros Hr <-. apply transfer_from_remote_ok in Hr
      as (ai & sys & ti & ri & token & msg & local & l & w' & -> & [_ _ Ht _ _ _ _ _ _ Ho]).
    exists ti, token. split; [done|]. intros Hp. apply transfer_out_ok in Ho as [[_ Hb] Ho].
    specialize (Ho Hp). split; [done|]. destruct Ht as (Hb0 & Hf & Hk & Hown). unfold token_at.
    cbn [snd]. rewrite (Ho _ Hown), Hb. by split_and!.
Qed.

(** The accounts the program asks for are the accounts its handler takes: whenever a delivery
    of a message succeeds on a token account made by [initialize], the accounts that
    [transfer_from_remote_account_metas] returns for this message are, in their order, those
    after the process authority. *)
Theorem handle_account_metas_agree (program_id : Pubkey) accts (xfer : HandleInstruction) w r
    (Hr : transfer_from_remote (T := T) program_id accts xfer w = Ok r) :
  exists authority system token_info rest (token : HyperlaneToken T),
    accts = authority :: system :: token_info :: rest /\
    token_at program_id w (key token_info) token /\
    (plugin_canonical program_id (plugin_data token) ->
     exists metas, (sam_pubkey <$> metas) = (key <$> tail accts) /\
       forall more b, serialize (SimulationReturnData_new metas) = Ok b ->
       transfer_from_remote_account_metas (T := T) program_id (token_info :: more) xfer w =
         set_return_data b w).
Proof.
  apply transfer_from_remote_ok in Hr as (ai & sys & ti & ri & token & msg & local & l & w' & -> &
    [-> Hsys Ht Hm Hri _ _ _ _ Ho]).
  exists ai, sys, ti, (ri :: l), token. split_and!; [done|exact Ht|]. intros Hc.
  destruct (transfer_out_metas _ _ _ _ _ _ _ _ _ _ Ho Hc Hri) as (used & metas & wr & -> & Hx & Hk).
  exists ((SerializableAccountMeta_from <$> [AccountMeta_new_readonly system_program_id false;
    AccountMeta_new_readonly (key ti) false; MkAccountMeta (tm_recipient msg) false wr]) ++ metas).
  split; [|intros more b Hb].
  2:{ unfold transfer_from_remote_account_metas. rewrite Hm.
      prog_run (lift_Ok _ _ w (read_token_message_to_vec msg)). prog_run (@next_cons ti more w).
      prog_run (proj2 (verify_token_ok program_id ti w _) (ex_intro _ token (conj Ht eq_refl))).
      prog_run (lift_Ok _ _ w Hx). cbv zeta.
      by prog_run (lift_Ok _ _ w (proj2 (borsh_err_ok _ _) Hb)). }
  rewrite app_nil_r. cbn. by rewrite Hk, Hsys, Hri.
Qed.

(** The configuration of a warp route changes only at the will of its owner. An instruction
    that enrolls routers, sets gas amounts, the security module or the paymaster, or transfers
    the ownership, is handled as such by [process_instruction] and succeeds only if the
    current owner signs; the token account is changed as the instruction says and nothing else
    is. A list of configurations sets, for every domain, what its last one says, and keeps the
    domains without one. *)
Theorem token_admin_spec (program_id : Pubkey) accts data ixn f w r
    (Hi : discriminator_decode (T := Instruction) data = Ok ixn)
    (Hf : token_update (T := T) ixn = Some f)
    (Hp : process_instruction (T := T) program_id accts data w = Ok r) :
  token_administered program_id accts f w r /\
  (forall (m : gmap u32 H256) configs d,
    foldl (apply_config router_domain config_router) m configs !! d =
    match last_config router_domain d configs with
    | Some c => config_router c | None => m !! d end) /\
  (forall (m : gmap u32 u64) configs d,
    foldl (apply_config gas_domain config_gas) m configs !! d =
    match last_config gas_domain d configs with
    | Some c => config_gas c | None => m !! d end).
Proof.
  split_and!; [|intros; apply configs_lookup..].
  unfold process_instruction in Hp. rewrite (decode_token_instruction _ _ Hi) in Hp.
  rewrite (st_bind_eq _ _ _ _ _ (lift_Ok _ _ w Hi)) in Hp.
  destruct ixn; try done; injection Hf as <-; revert Hp;
    first [apply update_and_resize_ok|apply update_in_place_ok];
    first [apply enroll_router_update|apply enroll_routers_update|apply destination_gas_update
          |by apply only_owner_update].
Qed.

(** Initialisation happens once. When [initialize] succeeds, the token account and the
    dispatch authority are the accounts of their addresses and did not exist; afterwards the
    token account holds the configuration of the instruction, with the payer as owner, no
    routers, no gas amounts, the process authority that the named mailbox has for this program
    and what the plugin made; and while the program owns the token account, no initialisation
    succeeds again. *)
Theorem token_initialize_once (program_id : Pubkey) accts init w r
    (Hsys : program_id <> system_program_id)
    (Hi : initialize (T := T) program_id accts init w = Ok r) :
  exists system token_info authority payer rest plugin bump authority_bump w1 w',
    accts = system :: token_info :: authority :: payer :: rest /\ r = (tt, w') /\
    is_signer payer = true /\
    content w (key token_info) = ([], system_program_id) /\
    content w (key authority) = ([], system_program_id) /\
    plugin_initialize program_id system token_info payer rest w = Ok ((plugin, []), w1) /\
    plugin_canonical program_id plugin /\
    token_at program_id w' (key token_info)
      (initial_token program_id init (key payer) bump authority_bump plugin) /\
    create_program_address
      (with_bump mailbox_message_dispatch_authority_pda_seeds authority_bump) program_id
      = Ok (key authority) /\
    content w' (key authority) = ([], program_id) /\
    (forall k, k <> key token_info -> k <> key authority -> content w' k = content w1 k) /\
    forall accts2 init2 w2 r2, snd (content w2 (key token_info)) = program_id ->
      initialize (T := T) program_id accts2 init2 w2 <> Ok r2.
Proof.
  destruct (token_initialize_ok _ _ _ _ _ Hsys Hi)
    as (sys & ti & ai & payer & l & plugin & bump & ab & w1 & w' & -> & -> & Hs & Hk & Hak & Hft &
        Hfa & Hp & Ht & Ha & _ & Hrest).
  exists sys, ti, ai, payer, l, plugin, bump, ab, w1, w'. split_and!; try done.
  - by eapply plugin_initialize_canonical.
  - by apply find_create.
  - intros accts2 init2 w2 r2 Ho Hi2. destruct (token_initialize_ok _ _ _ _ _ Hsys Hi2)
      as (sys2 & ti2 & ai2 & payer2 & l2 & plugin2 & bump2 & ab2 & w3 & w4 & -> & -> & _ & Hk2 & _ &
        Hft2 & _). rewrite Hk in Hk2. injection Hk2 as Hk2 _. rewrite <- Hk2 in Hft2.
    rewrite Hft2 in Ho. cbn in Ho. congruence.
Qed.
End programs.

(** ** Native lamports *)

Section native.
Import Native.
Context `{SolanaLaws}.

(** The collateral account of the token. *)
Definition collateral_key (program_id : Pubkey) (token : HyperlaneToken Native.NativePlugin) :
    outcome ProgramError Pubkey :=
  create_program_address (with_bump Native.hyperlane_token_native_collateral_pda_seeds
    (Native.native_collateral_bump (plugin_data token))) program_id.

(** The lamports [l] moved from one account to another, and nothing else did. *)
Definition moved (from to : Pubkey) (l : Z) (w w' : world) : Prop :=
  (forall k, content w' k = content w k) /\
  (from <> to ->
     lamports_at w' from = lamports_at w from - l /\
     lamports_at w' to = lamports_at w to + l /\
     forall k, k <> from -> k <> to -> lamports_at w' k = lamports_at w k).

Lemma transfer_moved from to (l : u64) infos seeds w w' :
  sol_invoke_signed (system_transfer from to l) infos seeds w = Ok w' ->
  moved from to (uval l) w w'.
Proof.
  intros Hi. split; [intros k; by eapply transfer_content|]. intros Hne.
  pose proof (λ k, transfer_lamports _ _ _ _ _ _ _ k Hne Hi) as Hl. split_and!.
  - by rewrite Hl, decide_True.
  - by rewrite Hl, decide_False, decide_True.
  - intros k H1k H2k. by rewrite Hl, !decide_False.
Qed.

(** The native route moves lamports between the users and the collateral account of the token,
    one for one: a transfer in takes exactly [local] lamports from the sender, a transfer out
    pays exactly [local] lamports to the recipient and leaves the collateral account rent
    exempt. No other balance and no data or owner changes. *)
Theorem native_collateral_spec (program_id : Pubkey)
    (token : HyperlaneToken Native.NativePlugin) system who l (local : u64) w l' w' :
  (transfer_in program_id token who l local w = Ok (l', w') ->
   exists sys ci, l = sys :: ci :: l' /\ collateral_key program_id token = Ok (key ci) /\
     moved (key who) (key ci) (uval local) w w') /\
  (transfer_out program_id token system who l local w = Ok (l', w') ->
   exists sys ci rent, l = sys :: ci :: l' /\ collateral_key program_id token = Ok (key ci) /\
     moved (key ci) (key who) (uval local) w w' /\ Rent_get = Ok rent /\
     is_exempt rent (acc_lamports (get_account w' (key ci)))
       (length (fst (content w' (key ci)))) = true).
Proof.
  split; intros Ht.
  - apply native_in_ok in Ht as (sys & ci & -> & _ & Hc & Hi). exists sys, ci.
    split_and!; [done|done|]. by eapply transfer_moved.
  - apply (native_out_ok program_id token system) in Ht
      as (sys & ci & rent & -> & _ & Hc & Hi & Hr & He). exists sys, ci, rent.
    split_and!; try done. by eapply transfer_moved.
Qed.
End native.

(** ** Composition with the mailbox *)

Section mailbox.
Context `{S : Solana, !SolanaLaws, Keccak256, !ZeroHashes, OverflowChecks}.
Context `{BorshSerialize bool, BorshDeserialize bool, !BorshBool}.
Context `{BorshSerialize Inbox, BorshDeserialize Inbox, !BorshLaws Inbox}.
Context `{BorshSerialize Outbox, BorshDeserialize Outbox, !BorshLaws Outbox}.
Context `{BorshSerialize ProcessedMessage}.
Context `{BorshSerialize VerifyInstruction, BorshSerialize HandleInstruction}.
Context `{TryFromSlice (option Pubkey), TryFromSlice Mailbox.Instruction}.
Context `{BorshSerialize Mailbox.Instruction, !TryFromSliceLaws Mailbox.Instruction}.
Context `{BorshSerialize (SimulationReturnData Pubkey),
  BorshSerialize (SimulationReturnData (option Pubkey)),
  BorshSerialize (SimulationReturnData byte_array), BorshSerialize (SimulationReturnData H256),
  BorshSerialize (SimulationReturnData bytes)}.
Variable debug_H256 : H256 -> bytes.

(** The program that a call of the mailbox runs. *)
Definition mailbox_handler : Pubkey -> list AccountInfo -> bytes -> prog unit :=
  Mailbox.process_instruction debug_H256.

(** The outbox of the mailbox holds the messages with the ids. *)
Definition outbox_holds (mb : Pubkey) (w : world) (k : Pubkey) (o : Outbox) (ids : list H256) :
    Prop :=
  outbox_at mb w k o /\ incr_ok (outbox_tree o) ids.

Lemma called_dispatch_commits mb infos data d w wc oi o ids :
  mb <> system_program_id ->
  Mailbox.into_instruction_data (OutboxDispatchIxn d) = Ok data ->
  (exists i l, infos = i :: l /\ key i = oi) ->
  outbox_holds mb w oi o ids ->
  mailbox_handler mb infos data (entered w mb) = Ok (tt, wc) ->
  let m := MkHyperlaneMessage VERSION (uwrap 4 (Z.of_nat (length ids)))
    (outbox_local_domain o) (dispatch_sender d) (destination_domain d)
    (dispatch_recipient d) (message_body d) in
  exists tree, outbox_holds mb (left_world w wc) oi (with_tree o tree) (ids ++ [id m]) /\
    Incremental.root tree = Some (tree_root 32 (ids ++ [id m])) /\
    return_data wc = Some (mb, to_be (id m)).
Proof.
  intros Hsys Hdata (i & l & -> & <-) [Ho Hids] Hp m. unfold mailbox_handler,
    Mailbox.process_instruction in Hp.
  assert (Hi : Mailbox.from_instruction_data data = Ok (OutboxDispatchIxn d)).
  { unfold Mailbox.into_instruction_data in Hdata. apply borsh_err_ok in Hdata.
    unfold Mailbox.from_instruction_data. by rewrite (try_from_slice_serialize _ _ Hdata). }
  rewrite (st_bind_eq _ _ _ _ _ (lift_Ok _ _ (entered w mb) Hi)) in Hp.
  destruct Ho as (Hb & Hf & Hk & Hown).
  assert (Ho' : outbox_at mb (entered w mb) (key i) o) by (by split_and!).
  destruct (dispatch_committed mb (i :: l) d (entered w mb) wc o i ids eq_refl Hsys eq_refl Ho' Hids Hp)
    as (si & um & di & tree & slot & b & _ & _ & _ & _ & _ & _ & _ & _ & _ & _ & Hat & Hok & Hr & Hret).
  exists tree. split_and!; try done. split; [|done].
  destruct Hat as (_ & Hf' & Hk' & Hown2).
  by split_and!.
Qed.
End mailbox.

Section composed.
(** The runtime as the warp route sees it, and as the mailbox does when it is called. *)
Variable inner : Solana.
Context `{inner_laws : !@SolanaLaws inner}.
Context `{Keccak256, !ZeroHashes, OverflowChecks, U256Laws}.
Context `{BorshSerialize bool, BorshDeserialize bool, !BorshBool}.
Context `{BorshSerialize Inbox, BorshDeserialize Inbox, !BorshLaws Inbox}.
Context `{BorshSerialize Outbox, BorshDeserialize Outbox, !BorshLaws Outbox}.
Context `{BorshSerialize ProcessedMessage}.
Context `{BorshSerialize VerifyInstruction, BorshSerialize HandleInstruction}.
Context `{TryFromSlice (option Pubkey), TryFromSlice Mailbox.Instruction}.
Context `{BorshSerialize Mailbox.Instruction, !TryFromSliceLaws Mailbox.Instruction}.
Context `{BorshSerialize (SimulationReturnData Pubkey),
  BorshSerialize (SimulationReturnData (option Pubkey)),
  BorshSerialize (SimulationReturnData byte_array), BorshSerialize (SimulationReturnData H256),
  BorshSerialize (SimulationReturnData bytes)}.
Variable debug_H256 : H256 -> bytes.
Context `{outer : Solana, HyperlaneSealevelTokenPlugin T, Default T, SizedData T}.
Context `{BorshSerialize (HyperlaneToken T), BorshDeserialize (HyperlaneToken T)}.
Context `{BorshSerialize Igp.Instruction, TryFromSlice H256}.
(** The format of the id that the mailbox returns. *)
Hypothesis H256_format : forall (h : H256), try_from_slice (to_be h) = Ok h.
(** The mailbox [mb] is the modelled program. *)
Variable mb : Pubkey.
Hypothesis mb_runs : Callee outer mb (mailbox_handler (S := inner) debug_H256).

(** C12. A transfer to a remote takes exactly what the message promises, and the message is
    committed. When [transfer_remote] succeeds on a token whose mailbox is [mb], the sender
    signed; the amount fits a [u64] and the plugin took exactly that amount in from the
    sender, with all the accounts left; the mailbox of the world after that dispatched, to the
    router enrolled for the destination, one message in the name of the program, whose body
    tells the recipient and the amount in remote decimals: its id is the next leaf of the
    outbox's tree. With a paymaster configured, the gas set for the destination is paid for
    this very message. *)
Theorem warp_transfer_commits (program_id : Pubkey) accts (xfer : TransferRemote) w r
    (Hsys : mb <> @system_program_id inner)
    (Hr : transfer_remote (T := T) program_id accts xfer w = Ok r) :
  exists token_info outbox_info sender (token : HyperlaneToken T) local remote rest w1 w2 id w',
    r = (tt, w') /\ accts !! 2%nat = Some token_info /\ accts !! 4%nat = Some outbox_info /\
    accts !! 6%nat = Some sender /\ rest `suffix_of` accts /\ token_at program_id w (key token_info) token /\
    is_signer sender = true /\ uval local = uval (xfer_amount_or_id xfer) /\
    uval remote = converted local (decimals token) (remote_decimals token) /\
    transfer_in program_id token sender rest local w = Ok ([], w1) /\
    (forall o ids, tk_mailbox token = mb ->
      outbox_holds (S := inner) mb w1 (key outbox_info) o ids ->
      exists router tree, remote_routers token !! xfer_destination_domain xfer = Some router /\
        let m := MkHyperlaneMessage VERSION (uwrap 4 (Z.of_nat (length ids)))
          (outbox_local_domain o) program_id (xfer_destination_domain xfer) router
          (to_vec (MkTokenMessage (xfer_recipient xfer) remote [])) in
        id = Message.id m /\
        outbox_holds (S := inner) mb w2 (key outbox_info) (with_tree o tree) (ids ++ [id]) /\
        Incremental.root tree = Some (tree_root 32 (ids ++ [id]))) /\
    match tk_interchain_gas_paymaster token with
    | None => w' = w2
    | Some (igp, _) => exists gas data metas infos,
        destination_gas token (xfer_destination_domain xfer) = Some gas /\
        serialize (PayForGasIxn (MkPayForGas id (xfer_destination_domain xfer) gas)) = Ok data /\
        sol_invoke_signed (MkInstruction igp metas data) infos [] w2 = Ok w'
    end.
Proof.
  apply transfer_remote_ok in Hr as (ti & oi & ai & si & ui & mi & token & local & remote & l &
    w1 & id & w2 & w' & -> & [(sys & noop & mbi & used & ->) Ht Hs _ Hl Hrm Hin [infos Hd] Hpaid]).
  exists ti, oi, si, token, local, remote, l, w1, w2, id, w'.
  rewrite u256_try_into_u64_exact in Hl. apply exactly_some in Hl as [Hl ->].
  split_and!; try done.
  - by exists (sys :: noop :: ti :: mbi :: oi :: ai :: si :: ui :: mi :: used).
  - by apply uval_uwrap_small.
  - by apply local_to_remote_val in Hrm.
  - intros o ids Hmb Ho. apply dispatch_ok in Hd as (router & data & w2' & ret & id' & Hrt & Hdata &
      Hi & Hret & Hid & [= <- <-]).
    change (mailbox token) with (tk_mailbox token) in Hi, Hret. rewrite Hmb in Hi, Hret.
    destruct (callee_runs _ _ _ _ _ eq_refl Hi) as (infos' & wc & Hm & Hrun & ->).
    destruct infos' as [|i infos']; [done|]. cbn in Hm. injection Hm as Hk _ _ Hm.
    destruct (called_dispatch_commits (S := inner) debug_H256 mb (i :: infos') data _ w1 wc
      (key oi) o ids Hsys Hdata (ex_intro _ i (ex_intro _ infos' (conj eq_refl Hk))) Ho Hrun)
      as (tree & Hat & Hroot & Hwc).
    cbn [left_world return_data] in Hret. rewrite Hwc in Hret. injection Hret as <-.
    rewrite H256_format in Hid. injection Hid as <-. exists router, tree. by split_and!.
Qed.
End composed.

(** ** The theorems at concrete inputs *)

Module TokenScenario.
Import BorshModel RuntimeModel IsmModel U256Model TokenModel MailboxRuntime Native.
#[local] Existing Instance keccak_concrete.

(** A mailbox on domain 7 and a native warp route of 9 decimals, 6 remotely, owned by the
    payer, with a router on domain 9. *)
Definition mb : Pubkey := uwrap 32 3000.
Definition pid : Pubkey := uwrap 32 1000.
Definition payer : AccountInfo := MkAccountInfo (uwrap 32 2000) true true false.
Definition unique : AccountInfo := MkAccountInfo (uwrap 32 5000) true false false.
Definition system_info : AccountInfo := MkAccountInfo system_program_id false false true.
Definition noop_info : AccountInfo := MkAccountInfo spl_noop_id false false true.
Definition mailbox_info : AccountInfo := MkAccountInfo mb false false true.
Definition pda (program : Pubkey) (seeds : list bytes) : AccountInfo :=
  MkAccountInfo (fst (find_program_address seeds program)) false true false.
Definition outbox_info : AccountInfo := pda mb mailbox_outbox_pda_seeds.
Definition token_info : AccountInfo := pda pid hyperlane_token_pda_seeds.
Definition authority_info : AccountInfo := pda pid mailbox_message_dispatch_authority_pda_seeds.
Definition collateral_info : AccountInfo := pda pid hyperlane_token_native_collateral_pda_seeds.
Definition process_authority : AccountInfo :=
  MkAccountInfo (key (pda mb (mailbox_process_authority_pda_seeds pid))) true false false.
Definition domain9 : u32 := uwrap 4 9.
Definition remote_router : H256 := uwrap 32 77.

Definition world0 : world := MkWorld ∅ ∅ None mb.
Definition world1 : world :=
  after (Mailbox.initialize mb
    [system_info; payer; pda mb mailbox_inbox_pda_seeds; outbox_info]
    (Mailbox.MkInit (uwrap 4 7) (uwrap 32 4000)) world0).
Definition world2 : world := MkWorld (accounts world1) ∅ None pid.
Definition token_init : Token.Init := Token.MkInit mb None None (uwrap 1 9) (uwrap 1 6).
Definition init_accounts : list AccountInfo :=
  [system_info; token_info; authority_info; payer; collateral_info].
Definition world3 : world :=
  after (Token.initialize (T := NativePlugin) pid init_accounts token_init world2).

Definition enroll_data : bytes :=
  PROGRAM_INSTRUCTION_DISCRIMINATOR ++ [byte 2] ++ to_le domain9 ++ [byte 1] ++ to_be remote_router.
Definition enroll_ixn : Token.Instruction :=
  EnrollRemoteRouter (MkRemoteRouterConfig domain9 (Some remote_router)).
Definition enroll_accounts : list AccountInfo := [system_info; token_info; payer].
Definition world4 : world :=
  after (Token.process_instruction (T := NativePlugin) pid enroll_accounts enroll_data world3).

(** The sender sends 5 * 10^9 lamports to domain 9. *)
Definition amount : U256 := uwrap 32 (5 * 10 ^ 9).
Definition xfer : TransferRemote := MkTransferRemote domain9 (uwrap 32 88) amount.
Definition transfer_accounts : list AccountInfo :=
  [system_info; noop_info; token_info; mailbox_info; outbox_info; authority_info; payer; unique;
   pda mb (mailbox_dispatched_message_pda_seeds (key unique)); system_info; collateral_info].
Definition debug (h : H256) : bytes := to_be h.
Definition outer : Solana := deployed mb (mailbox_handler debug mb).
Definition send : prog unit :=
  transfer_remote (H := outer) (H3 := @NativePlugin_plugin outer) pid transfer_accounts xfer.
Definition world5 : world := after (send world4).

(** Two of them come back. *)
Definition recipient_wallet : AccountInfo := MkAccountInfo (uwrap 32 88) false true false.
Definition back : HandleInstruction :=
  MkHandleInstruction domain9 remote_router
    (to_vec (MkTokenMessage (key recipient_wallet) (uwrap 32 (2 * 10 ^ 6)) [])).
Definition back_accounts : list AccountInfo :=
  [process_authority; system_info; token_info; recipient_wallet; system_info; collateral_info].
Definition receive : prog unit := transfer_from_remote (T := NativePlugin) pid back_accounts back.

Lemma initialize_token_runs :
  Token.initialize (T := NativePlugin) pid init_accounts token_init world2 = Ok (tt, world3).
Proof.
  apply (after_ok (Token.initialize (T := NativePlugin) pid init_accounts token_init)).
  vm_compute. reflexivity.
Qed.

Lemma enroll_runs :
  Token.process_instruction (T := NativePlugin) pid enroll_accounts enroll_data world3
    = Ok (tt, world4).
Proof.
  apply (after_ok (Token.process_instruction (T := NativePlugin) pid enroll_accounts enroll_data)).
  vm_compute. reflexivity.
Qed.

Lemma send_runs : send world4 = Ok (tt, world5).
Proof. apply (after_ok send). vm_compute. reflexivity. Qed.

Lemma receive_runs : receive world5 = Ok (tt, after (receive world5)).
Proof. apply (after_ok receive). vm_compute. reflexivity. Qed.

Lemma token_not_system : pid <> system_program_id.
Proof. intros Hk. apply (f_equal uval) in Hk. vm_compute in Hk. discriminate. Qed.

Lemma mailbox_not_system : mb <> system_program_id.
Proof. intros Hk. apply (f_equal uval) in Hk. vm_compute in Hk. discriminate. Qed.

(** The value of a successful computation. *)
Definition value_or {E A} (d : A) (o : outcome E A) : A :=
  match o with Ok a => a | _ => d end.

Lemma value_or_ok {E A} (d : A) (o : outcome E A) : is_ok o = true -> o = Ok (value_or d o).
Proof. by destruct o. Qed.

(** The token after the transfer. *)
Definition token5 : HyperlaneToken NativePlugin :=
  value_or default_value (AccountData.fetch (fst (content world5 (key token_info)))).

Lemma token5_fetched :
  AccountData.fetch (fst (content world5 (key token_info))) = Ok token5.
Proof. apply value_or_ok. vm_compute. reflexivity. Qed.

Lemma token5_canonical : plugin_canonical pid (plugin_data token5).
Proof.
  assert (Hb : native_collateral_bump (plugin_data token5) = byte 255).
  { match goal with |- ?a = ?b => apply (bool_decide_eq_true_1 (a = b)) end.
    vm_compute. reflexivity. }
  eexists. rewrite Hb. reflexivity.
Qed.

(** A token of 9 decimals and its remote one of 6. *)
Definition token9 (d r : Z) : HyperlaneToken NativePlugin :=
  MkHyperlaneToken (byte 0) mb mb (byte 0) (uwrap 1 d) (uwrap 1 r) None None None ∅ ∅
    (MkNativePlugin (byte 0)).

(** The plugin of the native route, field by field. *)
Lemma native_transfer_out `{S : Solana} program_id token system who l local w r :
  Token.transfer_out program_id token system who l local w = r ->
  Native.transfer_out program_id token system who l local w = r.
Proof. done. Qed.

Lemma native_transfer_in `{S : Solana} program_id token who l local w r :
  Token.transfer_in program_id token who l local w = r ->
  Native.transfer_in program_id token who l local w = r.
Proof. done. Qed.
End TokenScenario.

Section witnesses.
Import BorshModel RuntimeModel IsmModel U256Model TokenModel MailboxRuntime Native TokenScenario.
#[local] Existing Instance keccak_concrete.
#[local] Existing Instance zero_hashes_concrete.

Lemma token_amounts_spec_witness :
  local_amount_to_remote_amount (token9 9 6) (uwrap 8 5123456789) = Ok (uwrap 32 5123456) /\
  forall received,
    remote_amount_to_local_amount (token9 9 6) (uwrap 32 5123456) = Ok received ->
    uval received <= 5123456789.
Proof.
  assert (Hl : local_amount_to_remote_amount (token9 9 6) (uwrap 8 5123456789)
               = Ok (uwrap 32 5123456)) by (vm_compute; reflexivity).
  split; [exact Hl|]. intros received Hr.
  destruct (token_amounts_spec (token9 9 6) (token9 9 6) (uwrap 8 5123456789) (uwrap 32 0))
    as (_ & _ & Hm).
  destruct (Hm _ received eq_refl Hl Hr) as [Hle _].
  change (uval (decimals (token9 9 6))) with 9 in Hle.
  change (uval (uwrap 8 5123456789)) with 5123456789 in Hle. lia.
Defined.

Lemma transfer_from_remote_spec_witness :
  exists (token : HyperlaneToken NativePlugin), token_at pid world5 (key token_info) token /\
    remote_routers token !! domain9 = Some remote_router.
Proof.
  destruct (proj1 (proj1 (transfer_from_remote_spec (T := NativePlugin) pid back_accounts back
    world5 _)) receive_runs) as (ai & sys & ti & ri & rest & token & msg & local & w' & _ & Ha & _ &
      Ht & _ & _ & _ & _ & Hr & _).
  unfold back_accounts in Ha. injection Ha as <- <- <- <- <-.
  exists token. split; [exact Ht|exact Hr].
Defined.

Lemma handle_account_metas_agree_witness :
  exists metas, (sam_pubkey <$> metas) = (key <$> tail back_accounts) /\
    forall b, serialize (SimulationReturnData_new metas) = Ok b ->
    transfer_from_remote_account_metas (T := NativePlugin) pid [token_info] back world5 =
      set_return_data b world5.
Proof.
  destruct (handle_account_metas_agree (T := NativePlugin) pid back_accounts back world5 _
    receive_runs) as (ai & sys & ti & rest & token & Ha & (_ & Hf & _) & Hm).
  unfold back_accounts in Ha. injection Ha as <- <- <- <-.
  rewrite token5_fetched in Hf. apply (inj Ok) in Hf. subst token.
  destruct (Hm token5_canonical) as (metas & Hk & Hb).
  exists metas. split; [exact Hk|exact (Hb [])].
Defined.

Lemma token_admin_spec_witness :
  exists f, token_update (T := NativePlugin) enroll_ixn = Some f /\
    token_administered pid enroll_accounts f world3 (tt, world4).
Proof.
  assert (Hi : discriminator_decode (T := Token.Instruction) enroll_data = Ok enroll_ixn)
    by (vm_compute; reflexivity).
  eexists. split; [reflexivity|].
  destruct (token_admin_spec (T := NativePlugin) pid enroll_accounts enroll_data enroll_ixn _ world3
    _ Hi eq_refl enroll_runs) as [Hp _]. exact Hp.
Defined.

Lemma token_initialize_once_witness :
  exists bump authority_bump plugin,
    token_at pid world3 (key token_info)
      (initial_token pid token_init (key payer) bump authority_bump plugin) /\
    forall r, Token.initialize (T := NativePlugin) pid init_accounts token_init world3 <> Ok r.
Proof.
  destruct (token_initialize_once (T := NativePlugin) pid init_accounts token_init world2 _
    token_not_system initialize_token_runs) as (sys & ti & ai & p & rest & plugin & bump & ab & w1 &
      w' & Ha & Hw & _ & _ & _ & _ & _ & Ht & _ & _ & _ & Hagain).
  unfold init_accounts in Ha. injection Ha as <- <- <- <- <-.
  apply (f_equal snd) in Hw. cbn [snd] in Hw. subst w'.
  exists bump, ab, plugin. split; [exact Ht|]. intros r. apply Hagain. apply Ht.
Defined.

Lemma native_collateral_spec_witness :
  exists (token : HyperlaneToken NativePlugin) local w1 w2,
    Native.transfer_out pid token system_info recipient_wallet [system_info; collateral_info] local
      w1 = Ok ([], w2) /\
    moved (key collateral_info) (key recipient_wallet) (uval local) w1 w2.
Proof.
  pose proof receive_runs as Hr. apply (transfer_from_remote_ok (T := NativePlugin)) in Hr
    as (ai & sys & ti & ri & token & msg & local & l & w' & _ & [Ha _ _ _ _ _ _ _ _ Ho]).
  unfold back_accounts in Ha. injection Ha as <- <- <- <- <-.
  apply native_transfer_out in Ho.
  destruct (native_collateral_spec pid token system_info recipient_wallet
    [system_info; collateral_info] local world5 [] w') as [_ Hs].
  destruct (Hs Ho) as (sys & ci & rent & Hl & _ & Hm & _). injection Hl as <- <-.
  exists token, local, world5, w'. split; [exact Ho|exact Hm].
Defined.

(** The token and the outbox of the world in which the transfer starts. *)
Definition token4 : HyperlaneToken NativePlugin :=
  value_or default_value (AccountData.fetch (fst (content world4 (key token_info)))).
Definition outbox4 : Outbox :=
  value_or (MkOutbox (uwrap 4 0) (uwrap 1 0) None Incremental.default)
    (AccountData.fetch (fst (content world4 (key outbox_info)))).

Lemma token4_fetched :
  AccountData.fetch (fst (content world4 (key token_info))) = Ok token4.
Proof. apply value_or_ok. vm_compute. reflexivity. Qed.

Lemma token4_mailbox : tk_mailbox token4 = mb.
Proof. apply (bool_decide_eq_true_1 (tk_mailbox token4 = mb)). vm_compute. reflexivity. Qed.

Lemma token4_router : remote_routers token4 !! domain9 = Some remote_router.
Proof.
  match goal with |- ?a = ?b => apply (bool_decide_eq_true_1 (a = b)) end.
  vm_compute. reflexivity.
Qed.

Lemma outbox4_at : outbox_at mb world4 (key outbox_info) outbox4.
Proof.
  split_and!.
  - apply (bool_decide_eq_true_1 (key outbox_info ∉ borrowed world4)). vm_compute. reflexivity.
  - apply value_or_ok. vm_compute. reflexivity.
  - apply (f_equal (A := Pubkey) Ok).
    match goal with |- ?a = ?b => apply (bool_decide_eq_true_1 (a = b)) end.
    vm_compute. reflexivity.
  - match goal with |- ?a = ?b => apply (bool_decide_eq_true_1 (a = b)) end.
    vm_compute. reflexivity.
Qed.

Lemma outbox4_empty : outbox_tree outbox4 = Incremental.default.
Proof.
  assert (Hb : branch (outbox_tree outbox4) = branch Incremental.default).
  { match goal with |- ?a = ?b => apply (bool_decide_eq_true_1 (a = b)) end.
    vm_compute. reflexivity. }
  assert (Hc : count (outbox_tree outbox4) = count Incremental.default).
  { match goal with |- ?a = ?b => apply (bool_decide_eq_true_1 (a = b)) end.
    vm_compute. reflexivity. }
  destruct (outbox_tree outbox4), Incremental.default. cbn in *. by subst.
Qed.

Lemma content_outer w k : @content outer w k = @content runtime w k.
Proof. done. Qed.

(** A call of the system program by the route does not reach the mailbox. *)
Lemma outer_transfer from to l infos seeds w :
  @sol_invoke_signed outer (@system_transfer outer from to l) infos seeds w =
  @sol_invoke_signed runtime (@system_transfer runtime from to l) infos seeds w.
Proof.
  cbn. rewrite decide_False; [done|]. intros Hk. by apply mailbox_not_system.
Qed.

Lemma collected_outbox token rest local w :
  Token.transfer_in (HyperlaneSealevelTokenPlugin := @NativePlugin_plugin outer) pid token payer rest local world4 = Ok ([], w) ->
  outbox_at mb w (key outbox_info) outbox4.
Proof.
  intros Ht. apply (native_transfer_in (S := outer)) in Ht. apply (native_in_ok (H := outer)) in Ht
    as (sys & ci & _ & _ & _ & Hi). rewrite outer_transfer in Hi.
  destruct outbox4_at as (Hb & Hf & Hk & Ho). pose proof (invoke_frame _ _ _ _ _ Hi) as [_ Hbw].
  pose proof (transfer_content _ _ _ _ _ _ _ (key outbox_info) Hi) as Hc. unfold outbox_at.
  rewrite Hc, Hbw. exact (conj Hb (conj Hf (conj Hk Ho))).
Qed.

Lemma warp_transfer_commits_witness :
  exists m tree w2, outbox_holds mb w2 (key outbox_info) (with_tree outbox4 tree) [Message.id m] /\
    Message.recipient m = remote_router /\ Message.sender m = pid.
Proof.
  pose proof send_runs as Hs. unfold send in Hs.
  destruct (warp_transfer_commits runtime (H22 := @NativePlugin_plugin outer) (outer := outer) debug
    H256_try_format mb (deployed_runs mb (mailbox_handler debug)) pid transfer_accounts xfer
    world4 _ mailbox_not_system Hs) as (ti & oi & si & token & local & remote & rest & w1 & w2 & i &
      w' & _ & Hti & Hoi & Hsi & _ & Ht & _ & Hl & Hr & Hin & Hm & _).
  injection Hti as <-. injection Hoi as <-. injection Hsi as <-.
  assert (He : token = token4).
  { destruct Ht as (_ & Hf & _). rewrite content_outer, token4_fetched in Hf. exact (eq_sym (inj Ok _ _ Hf)). }
  destruct (Hm outbox4 []) as (router & tree & Hrt & Hi & Ho & _).
  - rewrite He. exact token4_mailbox.
  - split; [by eapply collected_outbox|]. rewrite outbox4_empty. exact incr_ok_default.
  - eexists _, tree, w2. rewrite Hi in Ho. split; [exact Ho|]. split; [|reflexivity].
    rewrite He in Hrt. change (xfer_destination_domain xfer) with domain9 in Hrt.
    rewrite token4_router in Hrt. exact (eq_sym (inj Some _ _ Hrt)).
Defined.
End witnesses.
