(* ===== verification/Database.v ===== *)
(** * The agents' database ([hyperlane-base/src/db/rocks])

    [mod.rs], [typed_db.rs], [storage_types.rs] and [hyperlane_db.rs]. RocksDB is the class
    [RocksDB]: a state with [put] and [get], which may fail. An operation is a computation over
    the state that keeps what was written before an error; the handle of the source is the name
    of its domain, [HyperlaneRocksDB] is a [HyperlaneDomain]. *)

From S2P Require Import Prelude.
From S2P Require Import Codec.
From S2P Require Import Keccak.
From S2P Require Import Message.
From S2P Require Import Chain.
From stdpp Require Import base gmap list numbers strings.
From Stdlib Require Import ZArith Lia.

#[local] Open Scope Z_scope.

(** ** [mod.rs] *)

Class RocksDB := {
  rocks : Type;
  rocks_error : Type;
  rocks_put : bytes -> bytes -> rocks -> rocks * outcome rocks_error unit;
  rocks_get : bytes -> rocks -> outcome rocks_error (option bytes)
}.

(** The documented behaviour: the database is a map. A write that succeeds is seen by the
    reads that follow, one that fails may or may not have been made, and a read that succeeds
    returns the last value written. *)
Class RocksDBLaws `{RocksDB} := {
  rocks_contents : rocks -> gmap bytes bytes;
  rocks_put_ok k v s s' :
    rocks_put k v s = (s', Ok tt) -> rocks_contents s' = <[k := v]> (rocks_contents s);
  rocks_put_err k v s s' e :
    rocks_put k v s = (s', Err e) ->
    rocks_contents s' = rocks_contents s \/ rocks_contents s' = <[k := v]> (rocks_contents s);
  rocks_put_total k v s : snd (rocks_put k v s) <> Panic;
  rocks_get_ok k s v : rocks_get k s = Ok v -> v = rocks_contents s !! k;
  rocks_get_total k s : rocks_get k s <> Panic
}.

Inductive DbError `{RocksDB} :=
  | RockError (e : rocks_error)
  | OpeningError (source : rocks_error) (path canonicalized : string)
  | InvalidDbPath (e : io_error) (path : string)
  | HyperlaneError (e : HyperlaneProtocolError).

Section db.
Context `{RocksDB}.

Definition db (A : Type) := eff rocks DbError A.

(** [DB::store] *)
Definition store (key value : bytes) : db unit := λ s,
  let '(s', r) := rocks_put key value s in (s', map_err RockError r).

(** [DB::retrieve] *)
Definition retrieve (key : bytes) : db (option bytes) := λ s,
  (s, map_err RockError (rocks_get key s)).

(** ** [typed_db.rs] *)

(** [TypedDB::new]: the prefix of the domain *)
Definition domain_prefix (domain : Domain.HyperlaneDomain) : bytes :=
  bstr (Domain.name domain) ++ bstr "_".

(** [TypedDB::prefixed_key] *)
Definition prefixed_key (domain : Domain.HyperlaneDomain) (prefix key : bytes) : bytes :=
  domain_prefix domain ++ prefix ++ key.

(** [TypedDB::store_encodable] *)
Definition store_encodable `{Encode V} (domain : Domain.HyperlaneDomain) (prefix key : bytes)
    (value : V) : db unit :=
  store (prefixed_key domain prefix key) (to_vec value).

(** [TypedDB::retrieve_decodable] *)
Definition retrieve_decodable `{Decode V} (domain : Domain.HyperlaneDomain)
    (prefix key : bytes) : db (option V) :=
  v ← retrieve (prefixed_key domain prefix key);
  match v with
  | None => mret None
  | Some v => eff_lift (map_err HyperlaneError (x ← eval_st read_from v; Ok (Some x)))
  end.

(** [TypedDB::store_keyed_encodable] *)
Definition store_keyed_encodable `{Encode K, Encode V} (domain : Domain.HyperlaneDomain)
    (prefix : bytes) (key : K) (value : V) : db unit :=
  store_encodable domain prefix (to_vec key) value.

(** [TypedDB::retrieve_keyed_decodable] *)
Definition retrieve_keyed_decodable `{Encode K, Decode V} (domain : Domain.HyperlaneDomain)
    (prefix : bytes) (key : K) : db (option V) :=
  retrieve_decodable domain prefix (to_vec key).
End db.

(** ** [storage_types.rs] *)

Record InterchainGasPaymentData := MkInterchainGasPaymentData {
  gpd_payment : U256;
  gpd_gas_amount : U256
}.

Record InterchainGasExpenditureData := MkInterchainGasExpenditureData {
  ged_tokens_used : U256;
  ged_gas_used : U256
}.

Definition U256_zero : U256 := MkU256 (uwrap 32 0).

Definition InterchainGasPaymentData_default : InterchainGasPaymentData :=
  MkInterchainGasPaymentData U256_zero U256_zero.

Definition InterchainGasPaymentData_complete (self : InterchainGasPaymentData)
    (message_id : H256) (destination : u32) : InterchainGasPayment :=
  MkInterchainGasPayment message_id destination (gpd_payment self) (gpd_gas_amount self).

Definition InterchainGasPaymentData_from (p : InterchainGasPayment) : InterchainGasPaymentData :=
  MkInterchainGasPaymentData (igp_payment p) (igp_gas_amount p).

#[export] Instance InterchainGasPaymentData_write_to : Encode InterchainGasPaymentData := λ d,
  n1 ← write_to (gpd_payment d); n2 ← write_to (gpd_gas_amount d); mret (n1 + n2).

#[export] Instance InterchainGasPaymentData_read_from : Decode InterchainGasPaymentData :=
  payment ← read_from; gas_amount ← read_from;
  mret (MkInterchainGasPaymentData payment gas_amount).

Definition InterchainGasExpenditureData_default : InterchainGasExpenditureData :=
  MkInterchainGasExpenditureData U256_zero U256_zero.

Definition InterchainGasExpenditureData_complete (self : InterchainGasExpenditureData)
    (message_id : H256) : InterchainGasExpenditure :=
  MkInterchainGasExpenditure message_id (ged_tokens_used self) (ged_gas_used self).

#[export] Instance InterchainGasExpenditureData_write_to :
    Encode InterchainGasExpenditureData := λ d,
  n1 ← write_to (ged_tokens_used d); n2 ← write_to (ged_gas_used d); mret (n1 + n2).

#[export] Instance InterchainGasExpenditureData_read_from :
    Decode InterchainGasExpenditureData :=
  tokens_used ← read_from; gas_used ← read_from;
  mret (MkInterchainGasExpenditureData tokens_used gas_used).

(** ** [hyperlane_db.rs] *)

Definition MESSAGE_ID : bytes := bstr "message_id_".
Definition MESSAGE_DISPATCHED_BLOCK_NUMBER : bytes := bstr "message_dispatched_block_number_".
Definition MESSAGE : bytes := bstr "message_".
Definition NONCE_PROCESSED : bytes := bstr "nonce_processed_".
Definition GAS_PAYMENT_FOR_MESSAGE_ID : bytes := bstr "gas_payment_for_message_id_v2_".
Definition GAS_PAYMENT_META_PROCESSED : bytes := bstr "gas_payment_meta_processed_v3_".
Definition GAS_EXPENDITURE_FOR_MESSAGE_ID : bytes := bstr "gas_expenditure_for_message_id_v2_".
Definition PENDING_MESSAGE_RETRY_COUNT_FOR_MESSAGE_ID : bytes :=
  bstr "pending_message_retry_count_for_message_id_".
Definition MERKLE_TREE_INSERTION : bytes := bstr "merkle_tree_insertion_".
Definition MERKLE_LEAF_INDEX_BY_MESSAGE_ID : bytes := bstr "merkle_leaf_index_by_message_id_".
Definition MERKLE_TREE_INSERTION_BLOCK_NUMBER_BY_LEAF_INDEX : bytes :=
  bstr "merkle_tree_insertion_block_number_by_leaf_index_".
Definition LATEST_INDEXED_GAS_PAYMENT_BLOCK : bytes := bstr "latest_indexed_gas_payment_block".

(** [U256::as_u64] of the crate [primitive-types] panics on overflow; [LogMeta] as the
    identity of a payment. *)
Definition InterchainGasPaymentMeta_from (meta : LogMeta) : option InterchainGasPaymentMeta :=
  if uval (u256 (log_index meta)) <? 2 ^ 64 then
    Some (MkInterchainGasPaymentMeta (transaction_id meta) (uwrap 8 (u256 (log_index meta))))
  else None.

Module HyperlaneDB.
Section hyperlane_db.
Context `{RocksDB, Keccak256}.
(** The handle: the domain the database is scoped to. *)
Variable self : Domain.HyperlaneDomain.

(** [make_store_and_retrieve!] *)

Definition store_message_id_by_nonce (key : u32) (val : H256) : db unit :=
  store_keyed_encodable self MESSAGE_ID key val.
Definition retrieve_message_id_by_nonce (key : u32) : db (option H256) :=
  retrieve_keyed_decodable self MESSAGE_ID key.

Definition store_message_by_id (key : H256) (val : HyperlaneMessage) : db unit :=
  store_keyed_encodable self MESSAGE key val.
Definition retrieve_message_by_id (key : H256) : db (option HyperlaneMessage) :=
  retrieve_keyed_decodable self MESSAGE key.

Definition store_dispatched_block_number_by_nonce (key : u32) (val : u64) : db unit :=
  store_keyed_encodable self MESSAGE_DISPATCHED_BLOCK_NUMBER key val.
Definition retrieve_dispatched_block_number_by_nonce (key : u32) : db (option u64) :=
  retrieve_keyed_decodable self MESSAGE_DISPATCHED_BLOCK_NUMBER key.

Definition store_processed_by_nonce (key : u32) (val : bool) : db unit :=
  store_keyed_encodable self NONCE_PROCESSED key val.
Definition retrieve_processed_by_nonce (key : u32) : db (option bool) :=
  retrieve_keyed_decodable self NONCE_PROCESSED key.

Definition store_processed_by_gas_payment_meta (key : InterchainGasPaymentMeta) (val : bool) :
    db unit :=
  store_keyed_encodable self GAS_PAYMENT_META_PROCESSED key val.
Definition retrieve_processed_by_gas_payment_meta (key : InterchainGasPaymentMeta) :
    db (option bool) :=
  retrieve_keyed_decodable self GAS_PAYMENT_META_PROCESSED key.

Definition store_interchain_gas_expenditure_data_by_message_id (key : H256)
    (val : InterchainGasExpenditureData) : db unit :=
  store_keyed_encodable self GAS_EXPENDITURE_FOR_MESSAGE_ID key val.
Definition retrieve_interchain_gas_expenditure_data_by_message_id (key : H256) :
    db (option InterchainGasExpenditureData) :=
  retrieve_keyed_decodable self GAS_EXPENDITURE_FOR_MESSAGE_ID key.

Definition store_interchain_gas_payment_data_by_gas_payment_key (key : GasPaymentKey)
    (val : InterchainGasPaymentData) : db unit :=
  store_keyed_encodable self GAS_PAYMENT_FOR_MESSAGE_ID key val.
Definition retrieve_interchain_gas_payment_data_by_gas_payment_key (key : GasPaymentKey) :
    db (option InterchainGasPaymentData) :=
  retrieve_keyed_decodable self GAS_PAYMENT_FOR_MESSAGE_ID key.

Definition store_pending_message_retry_count_by_message_id (key : H256) (val : u32) : db unit :=
  store_keyed_encodable self PENDING_MESSAGE_RETRY_COUNT_FOR_MESSAGE_ID key val.
Definition retrieve_pending_message_retry_count_by_message_id (key : H256) : db (option u32) :=
  retrieve_keyed_decodable self PENDING_MESSAGE_RETRY_COUNT_FOR_MESSAGE_ID key.

Definition store_merkle_tree_insertion_by_leaf_index (key : u32) (val : MerkleTreeInsertion) :
    db unit :=
  store_keyed_encodable self MERKLE_TREE_INSERTION key val.
Definition retrieve_merkle_tree_insertion_by_leaf_index (key : u32) :
    db (option MerkleTreeInsertion) :=
  retrieve_keyed_decodable self MERKLE_TREE_INSERTION key.

Definition store_merkle_leaf_index_by_message_id (key : H256) (val : u32) : db unit :=
  store_keyed_encodable self MERKLE_LEAF_INDEX_BY_MESSAGE_ID key val.
Definition retrieve_merkle_leaf_index_by_message_id (key : H256) : db (option u32) :=
  retrieve_keyed_decodable self MERKLE_LEAF_INDEX_BY_MESSAGE_ID key.

Definition store_merkle_tree_insertion_block_number_by_leaf_index (key : u32) (val : u64) :
    db unit :=
  store_keyed_encodable self MERKLE_TREE_INSERTION_BLOCK_NUMBER_BY_LEAF_INDEX key val.
Definition retrieve_merkle_tree_insertion_block_number_by_leaf_index (key : u32) :
    db (option u64) :=
  retrieve_keyed_decodable self MERKLE_TREE_INSERTION_BLOCK_NUMBER_BY_LEAF_INDEX key.

(** [if let Ok(Some(_)) = m]: whether a read found something; its errors are not reported. *)
Definition found {A} (m : db (option A)) : db bool :=
  r ← eff_try m;
  mret (match r with inr (Some _) => true | _ => false end).

(** [HyperlaneRocksDB::store_message] *)
Definition store_message (message : HyperlaneMessage) (dispatched_block_number : u64) :
    db bool :=
  stored ← found (retrieve_message_id_by_nonce (nonce message));
  if stored : bool then mret false
  else
    let id := Message.id message in
    store_message_by_id id message;;
    store_message_id_by_nonce (nonce message) id;;
    store_dispatched_block_number_by_nonce (nonce message) dispatched_block_number;;
    mret true.

(** [HyperlaneRocksDB::retrieve_message_by_nonce] *)
Definition retrieve_message_by_nonce (nonce : u32) : db (option HyperlaneMessage) :=
  id ← retrieve_message_id_by_nonce nonce;
  match id with
  | None => mret None
  | Some id => retrieve_message_by_id id
  end.

(** [HyperlaneRocksDB::retrieve_gas_payment_by_gas_payment_key] *)
Definition retrieve_gas_payment_by_gas_payment_key (gas_payment_key : GasPaymentKey) :
    db InterchainGasPayment :=
  data ← retrieve_interchain_gas_payment_data_by_gas_payment_key gas_payment_key;
  mret (InterchainGasPaymentData_complete (default InterchainGasPaymentData_default data)
          (gpk_message_id gas_payment_key) (gpk_destination gas_payment_key)).

(** [HyperlaneRocksDB::retrieve_gas_expenditure_by_message_id] *)
Definition retrieve_gas_expenditure_by_message_id (message_id : H256) :
    db InterchainGasExpenditure :=
  data ← retrieve_interchain_gas_expenditure_data_by_message_id message_id;
  mret (InterchainGasExpenditureData_complete
          (default InterchainGasExpenditureData_default data) message_id).

(** [HyperlaneRocksDB::update_gas_payment_by_gas_payment_key] *)
Definition update_gas_payment_by_gas_payment_key (event : InterchainGasPayment) : db unit :=
  let gas_payment_key := MkGasPaymentKey (igp_message_id event) (igp_destination event) in
  existing_payment ← retrieve_gas_payment_by_gas_payment_key gas_payment_key;
  total ← eff_lift (or_panic (InterchainGasPayment_add existing_payment event));
  store_interchain_gas_payment_data_by_gas_payment_key gas_payment_key
    (InterchainGasPaymentData_from total).

(** [HyperlaneRocksDB::update_gas_expenditure_by_message_id] *)
Definition update_gas_expenditure_by_message_id (event : InterchainGasExpenditure) : db unit :=
  existing_payment ← retrieve_gas_expenditure_by_message_id (ige_message_id event);
  total ← eff_lift (or_panic (InterchainGasExpenditure_add existing_payment event));
  store_interchain_gas_expenditure_data_by_message_id (ige_message_id total)
    (MkInterchainGasExpenditureData (ige_tokens_used total) (ige_gas_used total)).

(** [HyperlaneRocksDB::process_gas_payment] *)
Definition process_gas_payment (payment : InterchainGasPayment) (log_meta : LogMeta) :
    db bool :=
  payment_meta ← eff_lift (or_panic (InterchainGasPaymentMeta_from log_meta));
  processed ← retrieve_processed_by_gas_payment_meta payment_meta;
  if default false processed : bool then mret false
  else
    store_processed_by_gas_payment_meta payment_meta true;;
    update_gas_payment_by_gas_payment_key payment;;
    mret true.

(** [HyperlaneRocksDB::process_tree_insertion] *)
Definition process_tree_insertion (insertion : MerkleTreeInsertion)
    (insertion_block_number : u64) : db bool :=
  stored ← found (retrieve_merkle_tree_insertion_by_leaf_index (leaf_index insertion));
  if stored : bool then mret false
  else
    store_merkle_tree_insertion_by_leaf_index (leaf_index insertion) insertion;;
    store_merkle_leaf_index_by_message_id (message_id insertion) (leaf_index insertion);;
    store_merkle_tree_insertion_block_number_by_leaf_index (leaf_index insertion)
      insertion_block_number;;
    mret true.

(** [HyperlaneRocksDB::process_gas_expenditure] *)
Definition process_gas_expenditure (expenditure : InterchainGasExpenditure) : db unit :=
  update_gas_expenditure_by_message_id expenditure.

(** [HyperlaneLogStore::store_logs], by the operation that stores one log: how many were new;
    the first error ends it. The count is a [u32]. *)
Fixpoint store_logs_from {T} (store_log : T -> LogMeta -> db bool) (stored : u32)
    (logs : list (T * LogMeta)) : db u32 :=
  match logs with
  | [] => mret stored
  | (log, meta) :: logs =>
      new ← store_log log meta;
      store_logs_from store_log (if new : bool then uwrap 4 (stored + 1) else stored) logs
  end.

(** [HyperlaneLogStore<HyperlaneMessage>], [HyperlaneLogStore<InterchainGasPayment>] and
    [HyperlaneLogStore<MerkleTreeInsertion>] *)
Definition store_messages (messages : list (HyperlaneMessage * LogMeta)) : db u32 :=
  store_logs_from (λ message meta, store_message message (block_number meta)) (uwrap 4 0)
    messages.
Definition store_payments (payments : list (InterchainGasPayment * LogMeta)) : db u32 :=
  store_logs_from process_gas_payment (uwrap 4 0) payments.
Definition store_insertions (leaves : list (MerkleTreeInsertion * LogMeta)) : db u32 :=
  store_logs_from (λ insertion meta, process_tree_insertion insertion (block_number meta))
    (uwrap 4 0) leaves.

(** [HyperlaneSequenceIndexerStore<HyperlaneMessage>] *)
Definition retrieve_message_by_sequence (sequence : u32) : db (option HyperlaneMessage) :=
  retrieve_message_by_nonce sequence.
Definition retrieve_message_log_block_number (sequence : u32) : db (option u64) :=
  retrieve_dispatched_block_number_by_nonce sequence.

(** [HyperlaneSequenceIndexerStore<MerkleTreeInsertion>] *)
Definition retrieve_insertion_by_sequence (sequence : u32) : db (option MerkleTreeInsertion) :=
  retrieve_merkle_tree_insertion_by_leaf_index sequence.
Definition retrieve_insertion_log_block_number (sequence : u32) : db (option u64) :=
  retrieve_merkle_tree_insertion_block_number_by_leaf_index sequence.

(** [HyperlaneWatermarkedLogStore] *)
Definition retrieve_high_watermark : db (option u32) :=
  retrieve_decodable self [] LATEST_INDEXED_GAS_PAYMENT_BLOCK.
Definition store_high_watermark (block_number : u32) : db unit :=
  store_encodable self [] LATEST_INDEXED_GAS_PAYMENT_BLOCK block_number.
End hyperlane_db.
End HyperlaneDB.
