(* ===== verification/DatabaseCorrect.v ===== *)
(** * The database as typed tables

    Every row of every table has a key of its own, so the tables of [Database] are independent
    maps over the contents of RocksDB; the lemmas here say what each operation does to them,
    whether it succeeds or fails half-way. *)

From S2P Require Import Prelude.
From S2P Require Import Codec.
From S2P Require Import Keccak.
From S2P Require Import Message.
From S2P Require Import Chain.
From S2P Require Import Database.
From stdpp Require Import base gmap list numbers strings.
From Stdlib Require Import ZArith Lia.

#[local] Open Scope Z_scope.

(** ** Rows *)

#[export] Instance GasPaymentKey_eq_dec : EqDecision GasPaymentKey.
Proof. solve_decision. Defined.
#[export] Instance InterchainGasPaymentMeta_eq_dec : EqDecision InterchainGasPaymentMeta.
Proof. solve_decision. Defined.

(** The rows of the database of a domain, one constructor per table. *)
Inductive entry :=
  | MessageIdRow (nonce : u32)
  | MessageRow (id : H256)
  | BlockNumberRow (nonce : u32)
  | ProcessedRow (nonce : u32)
  | PaymentMetaRow (meta : InterchainGasPaymentMeta)
  | ExpenditureRow (id : H256)
  | PaymentRow (key : GasPaymentKey)
  | RetryRow (id : H256)
  | InsertionRow (leaf : u32)
  | LeafIndexRow (id : H256)
  | InsertionBlockRow (leaf : u32)
  | WatermarkRow.

#[export] Instance entry_eq_dec : EqDecision entry.
Proof. solve_decision. Defined.

Definition table_prefix (e : entry) : bytes :=
  match e with
  | MessageIdRow _ => MESSAGE_ID
  | MessageRow _ => MESSAGE
  | BlockNumberRow _ => MESSAGE_DISPATCHED_BLOCK_NUMBER
  | ProcessedRow _ => NONCE_PROCESSED
  | PaymentMetaRow _ => GAS_PAYMENT_META_PROCESSED
  | ExpenditureRow _ => GAS_EXPENDITURE_FOR_MESSAGE_ID
  | PaymentRow _ => GAS_PAYMENT_FOR_MESSAGE_ID
  | RetryRow _ => PENDING_MESSAGE_RETRY_COUNT_FOR_MESSAGE_ID
  | InsertionRow _ => MERKLE_TREE_INSERTION
  | LeafIndexRow _ => MERKLE_LEAF_INDEX_BY_MESSAGE_ID
  | InsertionBlockRow _ => MERKLE_TREE_INSERTION_BLOCK_NUMBER_BY_LEAF_INDEX
  | WatermarkRow => []
  end.

Definition row_key (e : entry) : bytes :=
  match e with
  | MessageIdRow n | BlockNumberRow n | ProcessedRow n | InsertionRow n | InsertionBlockRow n =>
      to_vec n
  | MessageRow h | ExpenditureRow h | RetryRow h | LeafIndexRow h => to_vec h
  | PaymentMetaRow m => to_vec m
  | PaymentRow k => to_vec k
  | WatermarkRow => LATEST_INDEXED_GAS_PAYMENT_BLOCK
  end.

(** The key of a row in the database of a domain. *)
Definition entry_key (self : Domain.HyperlaneDomain) (e : entry) : bytes :=
  prefixed_key self (table_prefix e) (row_key e).

(** The length of the keys of a table, after the domain. *)
Definition key_length (e : entry) : nat :=
  match e with
  | MessageIdRow _ => 15 | MessageRow _ => 40 | BlockNumberRow _ => 36 | ProcessedRow _ => 20
  | PaymentMetaRow _ => 102 | ExpenditureRow _ => 66 | PaymentRow _ => 66 | RetryRow _ => 75
  | InsertionRow _ => 26 | LeafIndexRow _ => 64 | InsertionBlockRow _ => 53 | WatermarkRow => 32
  end.

Lemma key_length_ok e : length (table_prefix e ++ row_key e) = key_length e.
Proof. destruct e; rewrite length_app; unfold row_key; rewrite ?length_to_vec; reflexivity. Qed.

Lemma to_vec_inj `{FixedCodec A n} (x y : A) : to_vec x = to_vec y -> x = y.
Proof.
  intros Hxy. pose proof (read_from_to_vec x []) as Hx. rewrite Hxy, read_from_to_vec in Hx.
  congruence.
Qed.

Lemma row_inj e e' : table_prefix e ++ row_key e = table_prefix e' ++ row_key e' -> e = e'.
Proof.
  intros Hk. pose proof (f_equal length Hk) as Hl. rewrite !key_length_ok in Hl.
  destruct e, e'; try discriminate Hl;
    try (apply app_inv_head, to_vec_inj in Hk; congruence); try done;
    exfalso; apply (f_equal (take 5)) in Hk;
    rewrite !take_app_le in Hk by (vm_compute; lia); vm_compute in Hk; discriminate.
Qed.

Lemma entry_key_inj self e e' : entry_key self e = entry_key self e' -> e = e'.
Proof. intros Hk. by apply app_inv_head, row_inj in Hk. Qed.

Lemma byte_of_ascii_inj c c' :
  byte (Z.of_nat (Ascii.nat_of_ascii c)) = byte (Z.of_nat (Ascii.nat_of_ascii c')) -> c = c'.
Proof.
  intros Hb. apply uwrap_inj in Hb;
    [|change (umax 1) with 256; pose proof (Ascii.nat_ascii_bounded c); lia
     |change (umax 1) with 256; pose proof (Ascii.nat_ascii_bounded c'); lia].
  apply Nat2Z.inj in Hb. by rewrite <- (Ascii.ascii_nat_embedding c), Hb, Ascii.ascii_nat_embedding.
Qed.

Lemma bstr_inj s t : bstr s = bstr t -> s = t.
Proof.
  revert t. induction s as [|c s IH]; intros [|c' t]; try done. unfold bstr in *. cbn.
  intros Hb. pose proof (f_equal head Hb) as Hc. apply (f_equal tail) in Hb.
  apply (inj Some), byte_of_ascii_inj in Hc as ->. f_equal. auto.
Qed.

(** ** Typed reads of the contents *)

Definition decoded `{Decode V} (b : bytes) : option V :=
  match eval_st read_from b with Ok v => Some v | _ => None end.

Class Stored (V : Type) `{Encode V, Decode V} :=
  decoded_to_vec (v : V) : decoded (to_vec v) = Some v.

#[export] Instance FixedCodec_Stored `{FixedCodec V n} : Stored V.
Proof.
  intros v. unfold decoded, eval_st. by rewrite <- (app_nil_r (to_vec v)), read_from_to_vec.
Qed.

#[export] Instance HyperlaneMessage_Stored : Stored HyperlaneMessage.
Proof. intros m. unfold decoded, eval_st. by rewrite HyperlaneMessage_read. Qed.

Lemma U256_read_long s :
  (32 <= length s)%nat -> exists a : U256, read_from s = Ok (a, drop 32 s).
Proof.
  intros Hl. exists (MkU256 (from_le 32 (take 32 s))). unfold read_from, U256_read_from.
  rewrite <- (take_drop 32 s) at 1. rewrite read_exact_bind by (rewrite length_take; lia).
  done.
Qed.

#[export] Instance InterchainGasPaymentData_codec : FixedCodec InterchainGasPaymentData 64.
Proof.
  apply (pair_codec (n := 32) (m := 32) gpd_payment gpd_gas_amount MkInterchainGasPaymentData);
    try done.
  - by intros [].
  - apply U256_read_long.
Qed.

#[export] Instance InterchainGasExpenditureData_codec :
  FixedCodec InterchainGasExpenditureData 64.
Proof.
  apply (pair_codec (n := 32) (m := 32) ged_tokens_used ged_gas_used
    MkInterchainGasExpenditureData); try done.
  - by intros [].
  - apply U256_read_long.
Qed.

Section tables.
Context `{RocksDBLaws}.
Variable self : Domain.HyperlaneDomain.
Implicit Types s : rocks.

(** The value of a row. *)
Definition row {V} `{Decode V} (e : entry) (c : gmap bytes bytes) : option V :=
  c !! entry_key self e ≫= decoded.

Lemma row_insert `{Stored V} (e e' : entry) (v : V) (c : gmap bytes bytes) :
  row e' (<[entry_key self e := to_vec v]> c) = if decide (e' = e) then Some v else row e' c.
Proof.
  unfold row. case_decide as He.
  - subst. rewrite lookup_insert, decide_True by done. apply decoded_to_vec.
  - rewrite lookup_insert_ne; [done|]. intros Hk. by apply entry_key_inj in Hk.
Qed.

Lemma row_insert_ne `{Encode W, Decode V} (e e' : entry) (w : W) (c : gmap bytes bytes) :
  e' <> e -> row (V := V) e' (<[entry_key self e := to_vec w]> c) = row e' c.
Proof.
  intros He. unfold row. rewrite lookup_insert_ne; [done|].
  intros Hk. by apply entry_key_inj in Hk.
Qed.

(** ** Writes and reads *)

(** A write of a row is made, or fails and may have been made. *)
Lemma store_row k b s :
  exists s' r, store k b s = (s', r) /\ r <> Panic /\
    (rocks_contents s' = <[k := b]> (rocks_contents s) \/
     (r <> Ok tt /\ rocks_contents s' = rocks_contents s)).
Proof.
  unfold store. destruct (rocks_put k b s) as [s' r] eqn:Hp. eexists _, _. split; [done|].
  pose proof (rocks_put_total k b s) as Ht. rewrite Hp in Ht. cbn in Ht.
  destruct r as [[]|e|]; [|apply rocks_put_err in Hp|done]; split; try done.
  - left. by apply rocks_put_ok.
  - destruct Hp; [right|left]; done.
Qed.

Lemma store_row_ok k b s s' :
  store k b s = (s', Ok tt) -> rocks_contents s' = <[k := b]> (rocks_contents s).
Proof.
  intros Hs. destruct (store_row k b s) as (s1 & r & Hs1 & _ & [Hc|[Hr _]]); congruence.
Qed.

Lemma store_preserves (P : gmap bytes bytes -> Prop) k b :
  (forall c, P c -> P (<[k := b]> c)) -> preserves (λ s, P (rocks_contents s)) (store k b).
Proof.
  intros HP s Hs. destruct (store_row k b s) as (s1 & r & -> & _ & [Hc|[_ Hc]]); cbn;
    rewrite Hc; auto.
Qed.

(** A read leaves the database alone and returns the row. *)
Lemma retrieve_state `{Encode K, Decode V} p (k : K) s :
  fst (retrieve_keyed_decodable (V := V) self p k s) = s.
Proof.
  unfold retrieve_keyed_decodable, retrieve_decodable, mbind, eff_bind, retrieve.
  destruct (rocks_get _ s) as [[v|]|e|]; done.
Qed.

Lemma retrieve_decodable_ok `{Decode V} p k s s' (v : option V) :
  retrieve_decodable self p k s = (s', Ok v) ->
  s' = s /\ v = rocks_contents s !! prefixed_key self p k ≫= decoded.
Proof.
  unfold retrieve_decodable, mbind, eff_bind, retrieve.
  destruct (rocks_get _ s) as [o|e|] eqn:Hg; [|done|done]. apply rocks_get_ok in Hg as <-.
  destruct o as [b|]; cbn; [|by intros [= <- <-]].
  unfold decoded. destruct (eval_st read_from b) as [x| |]; cbn; [|done|done].
  by intros [= <- <-].
Qed.

Lemma retrieve_preserves `{Encode K, Decode V} (P : rocks -> Prop) p (k : K) :
  preserves P (retrieve_keyed_decodable (V := V) self p k).
Proof. intros s Hs. by rewrite retrieve_state. Qed.

Lemma found_state {A} (m : db (option A)) s : fst (m s) = s -> fst (HyperlaneDB.found m s) = s.
Proof.
  unfold HyperlaneDB.found, mbind, eff_bind, eff_try. destruct (m s) as [s' [a|e|]]; cbn; done.
Qed.

Lemma found_ok {A} (m : db (option A)) s s' b :
  fst (m s) = s -> HyperlaneDB.found m s = (s', Ok b) ->
  s' = s /\ (b = true <-> exists a, m s = (s, Ok (Some a))).
Proof.
  unfold HyperlaneDB.found, mbind, eff_bind, eff_try. destruct (m s) as [s1 [[a|]|e|]]; cbn;
    intros -> [= -> <-]; naive_solver.
Qed.

Lemma lift_preserves {A} (P : rocks -> Prop) (m : outcome DbError A) : preserves P (eff_lift m).
Proof. by intros s. Qed.

Lemma found_preserves {A} (P : rocks -> Prop) (m : db (option A)) :
  preserves P m -> preserves P (HyperlaneDB.found m).
Proof.
  intros Hm s Hs. specialize (Hm s Hs). unfold HyperlaneDB.found, mbind, eff_bind, eff_try.
  destruct (m s) as [s1 [[a|]|e|]]; cbn in *; done.
Qed.

Lemma store_logs_preserves {T} (P : rocks -> Prop) (f : T -> LogMeta -> db bool) n logs :
  (forall x meta, preserves P (f x meta)) -> preserves P (HyperlaneDB.store_logs_from f n logs).
Proof.
  intros Hf. revert n. induction logs as [|[x meta] logs IH]; intros n; cbn.
  - apply preserves_ret.
  - apply preserves_bind; [apply Hf|]. intros []; apply IH.
Qed.
End tables.

(** Splits the preservation of a property into that of its steps. *)
Ltac preserving :=
  repeat first
    [ apply preserves_ret | apply lift_preserves | apply retrieve_preserves
    | apply found_preserves | apply preserves_bind; intros | case_match ].

(** Splits a hypothesis that a computation over the database succeeds at its first step. *)
Ltac db_step Hr :=
  let s1 := fresh "s" in let a := fresh "a" in let Hm := fresh "Hm" in
  apply eff_bind_ok in Hr as (s1 & a & Hm & Hr).
