(* ===== verification/DatabaseTheorems.v ===== *)
(** * Properties of the agents' database *)

From S2P Require Import Prelude.
From S2P Require Import Codec.
From S2P Require Import Keccak.
From S2P Require Import Message.
From S2P Require Import Chain.
From S2P Require Import Database.
From S2P Require Import DatabaseCorrect.
From stdpp Require Import base gmap list numbers strings.
From Stdlib Require Import ZArith Lia.

#[local] Open Scope Z_scope.

Import HyperlaneDB.

(** ** Keys *)

(** Names without an underscore, such as those of the known domains. *)
Definition plain_name (d : Domain.HyperlaneDomain) : bool :=
  forallb (λ b, negb (bool_decide (b = byte 95))) (bstr (Domain.name d)).

Lemma split_at_underscore (a b x y : bytes) :
  forallb (λ b, negb (bool_decide (b = byte 95))) a = true ->
  forallb (λ b, negb (bool_decide (b = byte 95))) b = true ->
  a ++ [byte 95] ++ x = b ++ [byte 95] ++ y -> a = b /\ x = y.
Proof.
  revert b. induction a as [|c a IH]; intros [|c' b]; cbn; intros Ha Hb He.
  - by injection He.
  - injection He as <- _. by rewrite bool_decide_eq_true_2 in Hb.
  - injection He as -> _. by rewrite bool_decide_eq_true_2 in Ha.
  - apply andb_prop in Ha as [_ Ha]. apply andb_prop in Hb as [_ Hb].
    injection He as <- He. destruct (IH b Ha Hb He) as [-> ->]. done.
Qed.

(** No two rows share a key. The keys of the database are the name of the domain, an underscore,
    the name of the table and the row; some of these names are prefixes of others, and yet the
    keys of two rows, of the same or of two domains whose names have no underscore, are equal
    only if the domains have the same name and the rows are the same. No known domain has an
    underscore in its name. *)
Theorem database_keys_distinct d d' e e' :
  plain_name d = true -> plain_name d' = true ->
  (entry_key d e = entry_key d' e' <-> Domain.name d = Domain.name d' /\ e = e') /\
  forall k, plain_name (Domain.Known k) = true.
Proof.
  intros Hd Hd'. split; [|intros []; vm_compute; reflexivity]. split.
  - unfold entry_key, prefixed_key, domain_prefix. rewrite <- !app_assoc. intros Hk.
    apply split_at_underscore in Hk as [Hn Hk]; [|done|done].
    apply row_inj in Hk as ->. split; [|done]. by apply bstr_inj.
  - intros [Hn ->]. unfold entry_key, prefixed_key, domain_prefix. by rewrite Hn.
Qed.

(** ** Messages *)

Section messages.
Context `{RocksDBLaws, Keccak256}.
Variable self : Domain.HyperlaneDomain.
Implicit Types s : rocks.

Local Abbreviation row := (row self).

(** Two messages with one id. *)
Definition id_collision (m m' : HyperlaneMessage) : Prop :=
  collision [to_vec m] [to_vec m'].

(** Every nonce that is known leads to a message with its id; the message has the nonce, unless
    its id collides with that of one that does. *)
Definition messages_linked (c : gmap bytes bytes) : Prop :=
  forall n h, row (MessageIdRow n) c = Some h ->
  exists m, row (MessageRow h) c = Some m /\ Message.id m = h /\
    (nonce m = n \/ exists m', nonce m' = n /\ id_collision m m').

Lemma linked_insert_other `{Encode V} e (v : V) c :
  (forall n, e <> MessageIdRow n) -> (forall h, e <> MessageRow h) ->
  messages_linked c -> messages_linked (<[entry_key self e := to_vec v]> c).
Proof.
  intros Hn Hm Hl n h. rewrite row_insert_ne by (intros <-; by eapply Hn).
  intros Hr. destruct (Hl n h Hr) as (m & Hrm & Hi).
  exists m. rewrite row_insert_ne by (intros <-; by eapply Hm). done.
Qed.

Lemma different_nonces m m' :
  Message.id m = Message.id m' -> nonce m <> nonce m' -> id_collision m m'.
Proof.
  unfold Message.id. intros Hi Hn. apply keccak256_inj in Hi as [Hv|Hc]; [|done].
  apply (f_equal (λ v, eval_st (read_from (A := HyperlaneMessage)) v)) in Hv. unfold eval_st in Hv.
  rewrite !HyperlaneMessage_read in Hv. congruence.
Qed.

Lemma linked_insert_message m c :
  messages_linked c ->
  messages_linked (<[entry_key self (MessageRow (Message.id m)) := to_vec m]> c).
Proof.
  intros Hl n h. rewrite row_insert_ne by done. intros Hr.
  destruct (Hl n h Hr) as (m0 & Hm0 & Hi & Hn). rewrite (row_insert self (V := HyperlaneMessage)).
  case_decide as He; [injection He as ->|by exists m0].
  exists m. split_and!; [done|done|]. destruct (decide (nonce m = n)) as [|Hne]; [by left|right].
  destruct Hn as [Hn|(m' & Hn & x & y & Hx & Hy & _ & Hk)].
  - exists m0. split; [done|]. apply different_nonces; congruence.
  - apply list_elem_of_singleton in Hx as ->. apply list_elem_of_singleton in Hy as ->.
    exists m'. split; [done|]. apply different_nonces; [|congruence].
    transitivity (Message.id m0); [done|exact Hk].
Qed.

(** The id is linked to the nonce only after the message is stored under it. *)
Lemma linked_insert_id m c :
  messages_linked c -> row (MessageRow (Message.id m)) c = Some m ->
  messages_linked (<[entry_key self (MessageIdRow (nonce m)) := to_vec (Message.id m)]> c).
Proof.
  intros Hl Hm n h. rewrite (row_insert self (V := H256)). case_decide as He.
  - injection He as ->. intros [= <-]. exists m. rewrite row_insert_ne by done. by split_and!; [| |left].
  - intros Hr. destruct (Hl n h Hr) as (m0 & Hm0 & Hi). exists m0.
    by rewrite row_insert_ne by done.
Qed.

Lemma store_message_preserves m b :
  preserves (λ s, messages_linked (rocks_contents s)) (store_message self m b).
Proof.
  intros s Hs. unfold store_message, mbind, eff_bind.
  pose proof (found_state (retrieve_message_id_by_nonce self (nonce m)) s
    (retrieve_state self _ _ s)) as Hf.
  destruct (found _ s) as [s0 [[]|e|]]; cbn in Hf; subst s0; [done| |done|done].
  destruct (store_row (entry_key self (MessageRow (Message.id m))) (to_vec m) s)
    as (s1 & r1 & Hw1 & Hp1 & Hc1).
  change (store_message_by_id self (Message.id m) m s) with
    (store (entry_key self (MessageRow (Message.id m))) (to_vec m) s). rewrite Hw1.
  assert (Hl1 : messages_linked (rocks_contents s1)).
  { destruct Hc1 as [->|[_ ->]]; [by apply linked_insert_message|done]. }
  destruct r1 as [[]|e|]; [|done|done]. destruct Hc1 as [Hc1|[]]; [|done].
  destruct (store_row (entry_key self (MessageIdRow (nonce m))) (to_vec (Message.id m)) s1)
    as (s2 & r2 & Hw2 & Hp2 & Hc2).
  change (store_message_id_by_nonce self (nonce m) (Message.id m) s1) with
    (store (entry_key self (MessageIdRow (nonce m))) (to_vec (Message.id m)) s1). rewrite Hw2.
  assert (Hl2 : messages_linked (rocks_contents s2)).
  { destruct Hc2 as [->|[_ ->]]; [|done]. apply linked_insert_id; [done|].
    by rewrite Hc1, (row_insert self (V := HyperlaneMessage)), decide_True. }
  destruct r2 as [[]|e|]; [|done|done].
  pose proof (store_preserves messages_linked (entry_key self (BlockNumberRow (nonce m)))
    (to_vec b) (λ c, linked_insert_other (BlockNumberRow (nonce m)) b c ltac:(done) ltac:(done)) s2 Hl2) as Hl3.
  unfold store_dispatched_block_number_by_nonce, store_keyed_encodable, store_encodable.
  unfold entry_key in Hl3. cbn [table_prefix row_key] in Hl3. by destruct (store _ _ s2) as [s3 [|e|]].
Qed.

(** What the agents do with the database. *)
Inductive db_operation : forall A, db A -> Prop :=
  | op_messages logs : db_operation _ (store_messages self logs)
  | op_payments logs : db_operation _ (store_payments self logs)
  | op_insertions logs : db_operation _ (store_insertions self logs)
  | op_expenditure e : db_operation _ (process_gas_expenditure self e)
  | op_processed n b : db_operation _ (store_processed_by_nonce self n b)
  | op_retries h n : db_operation _ (store_pending_message_retry_count_by_message_id self h n)
  | op_watermark n : db_operation _ (store_high_watermark self n).

Lemma store_other_preserves `{Encode K, Encode V} e p (k : K) (v : V) :
  prefixed_key self p (to_vec k) = entry_key self e ->
  (forall n, e <> MessageIdRow n) -> (forall h, e <> MessageRow h) ->
  preserves (λ s, messages_linked (rocks_contents s)) (store_keyed_encodable self p k v).
Proof.
  intros He Hn Hm. unfold store_keyed_encodable, store_encodable. rewrite He.
  apply (store_preserves messages_linked). intros c. by apply linked_insert_other.
Qed.

(** C35. The messages of the database never dangle. From any database in which every known nonce
    leads to a stored message with its id and this nonce (the empty one, for instance), every
    operation of the agents leads to such a database again, also when it fails half-way: a
    message is stored under its id before its nonce is made known. The nonce may be another
    one only if two messages have the same id. *)
Theorem messages_never_dangle {A} (op : db A) s s' r :
  db_operation A op -> messages_linked (rocks_contents s) -> op s = (s', r) ->
  messages_linked (rocks_contents s') /\ messages_linked ∅.
Proof.
  intros Hop Hs Hr. split; [|by intros n h].
  cut (preserves (λ s, messages_linked (rocks_contents s)) op).
  { intros Hp. specialize (Hp s Hs). by rewrite Hr in Hp. }
  destruct Hop.
  - apply store_logs_preserves. intros. apply store_message_preserves.
  - apply store_logs_preserves. intros. unfold process_gas_payment,
      update_gas_payment_by_gas_payment_key, retrieve_gas_payment_by_gas_payment_key.
    preserving.
    + by eapply (store_other_preserves (PaymentMetaRow _)).
    + by eapply (store_other_preserves (PaymentRow _)).
  - apply store_logs_preserves. intros. unfold process_tree_insertion. preserving.
    + by eapply (store_other_preserves (InsertionRow _)).
    + by eapply (store_other_preserves (LeafIndexRow _)).
    + by eapply (store_other_preserves (InsertionBlockRow _)).
  - unfold process_gas_expenditure, update_gas_expenditure_by_message_id,
      retrieve_gas_expenditure_by_message_id. preserving.
    by eapply (store_other_preserves (ExpenditureRow _)).
  - by eapply (store_other_preserves (ProcessedRow _)).
  - by eapply (store_other_preserves (RetryRow _)).
  - apply (store_preserves messages_linked). intros c. by apply (linked_insert_other WatermarkRow).
Qed.
End messages.

Section stores.
Context `{RocksDBLaws, Keccak256}.
Variable self : Domain.HyperlaneDomain.
Implicit Types s : rocks.

Local Abbreviation row := (row self).

Lemma retrieve_message_ok n s s' x :
  retrieve_message_by_nonce self n s = (s', Ok x) ->
  s' = s /\ x = row (MessageIdRow n) (rocks_contents s) ≫= λ h,
    row (MessageRow h) (rocks_contents s).
Proof.
  unfold retrieve_message_by_nonce. intros Hr. db_step Hr.
  apply retrieve_decodable_ok in Hm as [-> ->].
  change (rocks_contents s !! prefixed_key self MESSAGE_ID (to_vec n) ≫= decoded) with
    (DatabaseCorrect.row self (V := H256) (MessageIdRow n) (rocks_contents s)) in *.
  destruct (row _ _) as [h|]; cbn; [|by injection Hr as <- <-].
  apply retrieve_decodable_ok in Hr as [-> ->]. done.
Qed.

(** Storing a message. When [store_message] succeeds, either an id was known under the nonce,
    and nothing changes; or none was read, and then exactly three rows are written, the message
    under its id, the id and the block number under the nonce, and the message is what a read of
    the nonce returns, by number or by sequence. *)
Theorem store_message_spec m b s s' r :
  store_message self m b s = (s', Ok r) ->
  (r = false /\ s' = s /\ exists h : H256, row (MessageIdRow (nonce m)) (rocks_contents s) = Some h) \/
  (r = true /\
   (forall h, retrieve_message_id_by_nonce self (nonce m) s <> (s, Ok (Some h))) /\
   rocks_contents s' =
     <[entry_key self (BlockNumberRow (nonce m)) := to_vec b]>
       (<[entry_key self (MessageIdRow (nonce m)) := to_vec (Message.id m)]>
         (<[entry_key self (MessageRow (Message.id m)) := to_vec m]> (rocks_contents s))) /\
   (forall s2 x, retrieve_message_by_sequence self (nonce m) s' = (s2, Ok x) -> x = Some m) /\
   forall s2 x, retrieve_message_log_block_number self (nonce m) s' = (s2, Ok x) -> x = Some b).
Proof.
  unfold store_message. intros Hr. db_step Hr.
  apply found_ok in Hm as [-> Hf]; [|apply retrieve_state]. destruct a.
  - injection Hr as <- <-. left. split_and!; [done|done|].
    destruct (proj1 Hf eq_refl) as [h Hh]. exists h.
    apply retrieve_decodable_ok in Hh as [_ Hh]. exact (eq_sym Hh).
  - db_step Hr. destruct a. apply store_row_ok in Hm. db_step Hr. destruct a.
    apply store_row_ok in Hm0. db_step Hr. destruct a. apply store_row_ok in Hm1.
    injection Hr as <- <-. right. rewrite Hm0, Hm in Hm1.
    change (rocks_contents s2 = <[entry_key self (BlockNumberRow (nonce m)) := to_vec b]>
       (<[entry_key self (MessageIdRow (nonce m)) := to_vec (Message.id m)]>
         (<[entry_key self (MessageRow (Message.id m)) := to_vec m]> (rocks_contents s)))) in Hm1.
    assert (Hn : forall h, retrieve_message_id_by_nonce self (nonce m) s <> (s, Ok (Some h))).
    { intros h Hh. discriminate (proj2 Hf (ex_intro _ h Hh)). }
    split_and!; [done|exact Hn|exact Hm1| |].
    + intros s3 x Hx. apply retrieve_message_ok in Hx as [-> ->]. rewrite Hm1.
      rewrite row_insert_ne, (row_insert self (V := H256)), decide_True by done. cbn.
      by rewrite !row_insert_ne, (row_insert self (V := HyperlaneMessage)), decide_True by done.
    + intros s3 x Hx. apply retrieve_decodable_ok in Hx as [-> ->]. rewrite Hm1.
      change (row (BlockNumberRow (nonce m))
        (<[entry_key self (BlockNumberRow (nonce m)) := to_vec b]>
          (<[entry_key self (MessageIdRow (nonce m)) := to_vec (Message.id m)]>
            (<[entry_key self (MessageRow (Message.id m)) := to_vec m]> (rocks_contents s))))
        = Some b).
      by rewrite (row_insert self (V := u64)), decide_True.
Qed.
End stores.

(** ** Gas payments *)

Section payments.
Context `{RocksDBLaws}.
Variable self : Domain.HyperlaneDomain.
Implicit Types s : rocks.

(** The total recorded for a message and a destination. *)
Definition paid (c : gmap bytes bytes) (key : GasPaymentKey) : InterchainGasPaymentData :=
  default InterchainGasPaymentData_default (row self (PaymentRow key) c).

(** The payment event was processed. *)
Definition seen (c : gmap bytes bytes) (meta : InterchainGasPaymentMeta) : bool :=
  default false (row self (PaymentMetaRow meta) c).

(** The payments of the logs whose events are new, each event once. *)
Fixpoint fresh (known : InterchainGasPaymentMeta -> bool)
    (logs : list (InterchainGasPayment * LogMeta)) : list InterchainGasPayment :=
  match logs with
  | [] => []
  | (payment, meta) :: logs =>
      match InterchainGasPaymentMeta_from meta with
      | None => fresh known logs
      | Some k =>
          if known k then fresh known logs
          else payment :: fresh (λ k', bool_decide (k' = k) || known k') logs
      end
  end.

Definition payment_key (p : InterchainGasPayment) : GasPaymentKey :=
  MkGasPaymentKey (igp_message_id p) (igp_destination p).

(** The sum of a field of the payments for a key. *)
Definition sum_for (f : InterchainGasPayment -> U256) (key : GasPaymentKey)
    (l : list InterchainGasPayment) : Z :=
  foldr (λ p acc, (if decide (payment_key p = key) then uval (u256 (f p)) else 0) + acc) 0 l.

Lemma fresh_ext known known' logs :
  (forall k, known k = known' k) -> fresh known logs = fresh known' logs.
Proof.
  revert known known'. induction logs as [|[p meta] logs IH]; intros known known' Hk; cbn; [done|].
  case_match; [|by apply IH]. rewrite Hk. case_match; [by apply IH|]. f_equal. apply IH.
  intros k. by rewrite Hk.
Qed.

Lemma fresh_known known logs :
  (forall p meta k, (p, meta) ∈ logs -> InterchainGasPaymentMeta_from meta = Some k ->
     known k = true) ->
  fresh known logs = [].
Proof.
  induction logs as [|[p meta] logs IH]; intros Hk; cbn; [done|].
  destruct (InterchainGasPaymentMeta_from meta) as [k|] eqn:Hm.
  - rewrite (Hk p meta k) by (done || left). apply IH. intros. eapply Hk; [by right|done].
  - apply IH. intros. eapply Hk; [by right|done].
Qed.

Lemma sum_for_nonneg f key l : 0 <= sum_for f key l.
Proof.
  unfold sum_for. induction l as [|p l IH]; cbn; [lia|]. pose proof (uval_range (u256 (f p))).
  case_decide; lia.
Qed.

Lemma U256_add_ok a b t : U256_add a b = Some t -> uval (u256 t) = uval (u256 a) + uval (u256 b).
Proof.
  unfold U256_add. destruct (_ <? _) eqn:Hlt; [|done]. apply Z.ltb_lt in Hlt. intros [= <-]. cbn.
  pose proof (uval_range (u256 a)). pose proof (uval_range (u256 b)).
  rewrite uval_uwrap_small; [done|]. change (umax 32) with (2 ^ 256). lia.
Qed.

(** A field of the total grows by at most, and on success by exactly, the payment. *)
Definition grown (c c' : gmap bytes bytes) (new : list InterchainGasPayment) (exact : Prop) :
    Prop :=
  forall key,
    (uval (u256 (gpd_payment (paid c' key)))
       <= uval (u256 (gpd_payment (paid c key))) + sum_for igp_payment key new /\
     uval (u256 (gpd_gas_amount (paid c' key)))
       <= uval (u256 (gpd_gas_amount (paid c key))) + sum_for igp_gas_amount key new) /\
    (exact ->
     uval (u256 (gpd_payment (paid c' key)))
       = uval (u256 (gpd_payment (paid c key))) + sum_for igp_payment key new /\
     uval (u256 (gpd_gas_amount (paid c' key)))
       = uval (u256 (gpd_gas_amount (paid c key))) + sum_for igp_gas_amount key new).

Lemma grown_refl c c' : (forall key, paid c' key = paid c key) -> grown c c' [] True.
Proof. intros Hc key. rewrite Hc. cbn. lia. Qed.

Lemma grown_weaken c c' new : (forall key, paid c' key = paid c key) -> grown c c' new False.
Proof.
  intros Hc key. rewrite Hc. pose proof (sum_for_nonneg igp_payment key new).
  pose proof (sum_for_nonneg igp_gas_amount key new). split; [lia|done].
Qed.

Lemma sum_for_app f key l l' : sum_for f key (l ++ l') = sum_for f key l + sum_for f key l'.
Proof. unfold sum_for. induction l as [|p l IH]; cbn; [lia|]. rewrite IH. lia. Qed.

Lemma grown_trans c c1 c2 new new' P :
  grown c c1 new True -> grown c1 c2 new' P -> grown c c2 (new ++ new') P.
Proof.
  intros Hg Hg' key. destruct (Hg key) as [_ Hg1]. specialize (Hg1 I).
  destruct (Hg' key) as [Hle Heq]. rewrite !sum_for_app. split; [lia|].
  intros HP. specialize (Heq HP). lia.
Qed.

Lemma grown_more c c' new more P (Q : Prop) :
  grown c c' new P -> ~ Q -> grown c c' (new ++ more) Q.
Proof.
  intros Hg HQ key. destruct (Hg key) as [Hle _]. rewrite !sum_for_app.
  pose proof (sum_for_nonneg igp_payment key more).
  pose proof (sum_for_nonneg igp_gas_amount key more). split; [lia|done].
Qed.

Lemma paid_insert_other `{Encode V} e (v : V) c key :
  (forall k, e <> PaymentRow k) -> paid (<[entry_key self e := to_vec v]> c) key = paid c key.
Proof. intros He. unfold paid. by rewrite row_insert_ne by (intros <-; by eapply He). Qed.

Lemma seen_insert meta c k :
  seen (<[entry_key self (PaymentMetaRow meta) := to_vec true]> c) k
  = bool_decide (k = meta) || seen c k.
Proof.
  unfold seen. rewrite (row_insert self (V := bool)).
  destruct (decide (k = meta)) as [->|Hne].
  - by rewrite decide_True, bool_decide_eq_true_2.
  - rewrite decide_False by congruence. by rewrite bool_decide_eq_false_2.
Qed.

Lemma retrieve_payment_state key s :
  fst (retrieve_gas_payment_by_gas_payment_key self key s) = s.
Proof.
  pose proof (retrieve_state (V := InterchainGasPaymentData) self GAS_PAYMENT_FOR_MESSAGE_ID key s)
    as Hst. unfold retrieve_gas_payment_by_gas_payment_key, mbind, eff_bind,
    retrieve_interchain_gas_payment_data_by_gas_payment_key.
  by destruct (retrieve_keyed_decodable _ _ _ s) as [s0 [d|e|]].
Qed.

Lemma retrieve_payment_ok key s s' x :
  retrieve_gas_payment_by_gas_payment_key self key s = (s', Ok x) ->
  x = InterchainGasPaymentData_complete (paid (rocks_contents s) key) (gpk_message_id key)
        (gpk_destination key).
Proof.
  unfold retrieve_gas_payment_by_gas_payment_key. intros Hr. db_step Hr.
  apply retrieve_decodable_ok in Hm as [-> ->]. by injection Hr as _ <-.
Qed.

Lemma payment_add_ok a b t :
  InterchainGasPayment_add a b = Some t ->
  uval (u256 (igp_payment t)) = uval (u256 (igp_payment a)) + uval (u256 (igp_payment b)) /\
  uval (u256 (igp_gas_amount t))
    = uval (u256 (igp_gas_amount a)) + uval (u256 (igp_gas_amount b)).
Proof.
  unfold InterchainGasPayment_add. do 2 (case_decide; [|done]).
  destruct (U256_add (igp_payment a) _) as [tp|] eqn:Hp; [|done].
  destruct (U256_add (igp_gas_amount a) _) as [tg|] eqn:Hg; [|done]. intros [= <-].
  by apply U256_add_ok in Hp, Hg.
Qed.

(** The update of the total: made, or failed and perhaps made. *)
Lemma update_payment_spec p s s' r :
  update_gas_payment_by_gas_payment_key self p s = (s', r) ->
  grown (rocks_contents s) (rocks_contents s') [p] (r = Ok tt) /\
  forall k, seen (rocks_contents s') k = seen (rocks_contents s) k.
Proof.
  assert (Hsame : forall r' : outcome DbError unit, r' <> Ok tt ->
      grown (rocks_contents s) (rocks_contents s) [p] (r' = Ok tt) /\
      forall k, seen (rocks_contents s) k = seen (rocks_contents s) k).
  { intros r' Hr'. split; [|done]. intros key.
    destruct (grown_weaken (rocks_contents s) (rocks_contents s) [p] (λ _, eq_refl) key) as [Hle _].
    split; [exact Hle|done]. }
  unfold update_gas_payment_by_gas_payment_key, mbind, eff_bind. fold (payment_key p).
  pose proof (retrieve_payment_state (payment_key p) s) as Hst.
  destruct (retrieve_gas_payment_by_gas_payment_key self _ s) as [s0 [x|e|]] eqn:Hd;
    cbn in Hst; subst s0; [|intros [= <- <-]; by apply Hsame..].
  apply retrieve_payment_ok in Hd as ->. unfold eff_lift.
  destruct (InterchainGasPayment_add _ p) as [t|] eqn:Ha; cbn [or_panic];
    [|intros [= <- <-]; by apply Hsame].
  apply payment_add_ok in Ha as [Hp Hg]. cbn [igp_payment igp_gas_amount
    InterchainGasPaymentData_complete] in Hp, Hg. intros Hs.
  destruct (store_row (entry_key self (PaymentRow (payment_key p)))
    (to_vec (InterchainGasPaymentData_from t)) s) as (s1 & r1 & Hs1 & _ & Hc).
  change (store (entry_key self (PaymentRow (payment_key p)))
    (to_vec (InterchainGasPaymentData_from t)) s = (s', r)) in Hs.
  rewrite Hs1 in Hs. injection Hs as <- <-. destruct Hc as [->|[Hr ->]]; [|by apply Hsame].
  split; [|intros k; unfold seen; by rewrite row_insert_ne].
  intros key. assert (Hpd : paid (<[entry_key self (PaymentRow (payment_key p)) :=
      to_vec (InterchainGasPaymentData_from t)]> (rocks_contents s)) key =
    if decide (payment_key p = key) then InterchainGasPaymentData_from t
    else paid (rocks_contents s) key).
  { unfold paid. rewrite (row_insert self (V := InterchainGasPaymentData)).
    destruct (decide (payment_key p = key)) as [<-|Hne]; [by rewrite decide_True|].
    by rewrite decide_False by congruence. }
  rewrite Hpd. unfold sum_for. cbn [foldr].
  case_decide as Hk; [subst key; cbn [InterchainGasPaymentData_from gpd_payment gpd_gas_amount]|];
    lia.
Qed.

(** One event: new and counted, known and skipped, or not completed. *)
Lemma process_payment_spec p meta s s' r :
  process_gas_payment self p meta s = (s', r) ->
  let known := seen (rocks_contents s) in
  let new := fresh known [(p, meta)] in
  grown (rocks_contents s) (rocks_contents s') new (exists b, r = Ok b) /\
  forall b, r = Ok b -> exists k, InterchainGasPaymentMeta_from meta = Some k /\
    b = negb (known k) /\
    forall k', seen (rocks_contents s') k' = bool_decide (k' = k) || known k'.
Proof.
  intros Hr. cbn zeta.
  assert (Hfail : forall r' : outcome DbError bool, (forall b, r' <> Ok b) ->
    forall c', (forall key, paid c' key = paid (rocks_contents s) key) ->
      grown (rocks_contents s) c' (fresh (seen (rocks_contents s)) [(p, meta)])
        (exists b, r' = Ok b) /\
      forall b, r' = Ok b -> exists k, InterchainGasPaymentMeta_from meta = Some k /\
        b = negb (seen (rocks_contents s) k) /\
        forall k', seen c' k' = bool_decide (k' = k) || seen (rocks_contents s) k').
  { intros r' Hr' c' Hc'. split; [|intros b ->; by destruct (Hr' b)]. intros key.
    destruct (grown_weaken _ _ (fresh (seen (rocks_contents s)) [(p, meta)]) Hc' key) as [Hle _].
    split; [exact Hle|]. intros [b ->]. by destruct (Hr' b). }
  unfold process_gas_payment in Hr. unfold mbind, eff_bind, eff_lift in Hr. cbn [fresh] in *.
  destruct (InterchainGasPaymentMeta_from meta) as [k|] eqn:Hk; cbn [or_panic] in Hr;
    [|injection Hr as <- <-; by apply Hfail].
  pose proof (retrieve_state (V := bool) self GAS_PAYMENT_META_PROCESSED k s) as Hst.
  destruct (retrieve_processed_by_gas_payment_meta self k s) as [s0 [o|e|]] eqn:Ho;
    unfold retrieve_processed_by_gas_payment_meta in Ho; rewrite Ho in Hst; cbn in Hst; subst s0;
    [|injection Hr as <- <-; by apply Hfail..].
  apply retrieve_decodable_ok in Ho as [_ ->].
  change (default false _) with (seen (rocks_contents s) k) in Hr.
  destruct (seen (rocks_contents s) k) eqn:Hseen.
  - injection Hr as <- <-. split; [intros key; cbn; lia|].
    intros b [= <-]. exists k. split_and!; [done|by rewrite Hseen|]. intros k'.
    case_bool_decide; [by subst|done].
  - destruct (store_row (entry_key self (PaymentMetaRow k)) (to_vec true) s)
      as (s1 & r1 & Hs1 & _ & Hc).
    change (store_processed_by_gas_payment_meta self k true s) with
      (store (entry_key self (PaymentMetaRow k)) (to_vec true) s) in Hr. rewrite Hs1 in Hr.
    assert (Hpaid : forall key, paid (rocks_contents s1) key = paid (rocks_contents s) key).
    { intros key. destruct Hc as [->|[_ ->]]; [|done]. by apply paid_insert_other. }
    destruct r1 as [[]|e|]; [|injection Hr as <- <-; by apply Hfail..].
    destruct Hc as [Hc|[]]; [|done].
    destruct (update_gas_payment_by_gas_payment_key self p s1) as [s2 r2] eqn:Hu.
    apply update_payment_spec in Hu as [Hg Hsn].
    assert (Hg' : grown (rocks_contents s) (rocks_contents s2) [p] (r2 = Ok tt)).
    { intros key. rewrite <- Hpaid. apply Hg. }
    destruct r2 as [[]|e|]; injection Hr as <- <-.
    + split; [intros key; destruct (Hg' key) as [? Hx]; specialize (Hx eq_refl); by split|].
      intros b [= <-]. exists k. split_and!; [done|by rewrite Hseen|]. intros k'.
      by rewrite Hsn, Hc, seen_insert.
    + split; [|done]. intros key. destruct (Hg' key) as [Hle _]. split; [exact Hle|by intros []].
    + split; [|done]. intros key. destruct (Hg' key) as [Hle _]. split; [exact Hle|by intros []].
Qed.

Lemma fresh_cons known p meta logs k :
  InterchainGasPaymentMeta_from meta = Some k ->
  fresh known ((p, meta) :: logs) =
  fresh known [(p, meta)] ++ fresh (λ k', bool_decide (k' = k) || known k') logs.
Proof.
  intros Hk. cbn. rewrite Hk. destruct (known k) eqn:Hkn; [|done]. cbn. apply fresh_ext.
  intros k'. case_bool_decide; [by subst|done].
Qed.

Lemma store_payments_from_spec logs n s s' r :
  store_logs_from (process_gas_payment self) n logs s = (s', r) ->
  let new := fresh (seen (rocks_contents s)) logs in
  grown (rocks_contents s) (rocks_contents s') new (exists m, r = Ok m) /\
  forall m, r = Ok m -> m = uwrap 4 (n + Z.of_nat (length new)) /\
    (forall k, seen (rocks_contents s) k = true -> seen (rocks_contents s') k = true) /\
    forall p meta k, (p, meta) ∈ logs -> InterchainGasPaymentMeta_from meta = Some k ->
      seen (rocks_contents s') k = true.
Proof.
  revert n s. induction logs as [|[p meta] logs IH]; intros n s; cbn [store_logs_from].
  - intros [= <- <-]. split; [intros key; cbn; lia|]. intros m [= <-]. split_and!; [|done|set_solver].
    cbn. by rewrite Z.add_0_r, uwrap_uval.
  - intros Hr. unfold mbind, eff_bind in Hr.
    destruct (process_gas_payment self p meta s) as [s1 r1] eqn:Hp.
    apply process_payment_spec in Hp as [Hg Hok]. cbn zeta in *.
    destruct (InterchainGasPaymentMeta_from meta) as [k|] eqn:Hk.
    2:{ destruct r1 as [b|e|]; [by destruct (Hok b eq_refl) as (? & ? & _)|..];
          injection Hr as <- <-; (split; [|done]); cbn [fresh] in *; rewrite Hk in *;
          apply (grown_more _ _ [] _ _ _ Hg); by intros []. }
    rewrite (fresh_cons _ p meta logs k Hk).
    destruct r1 as [b|e|]; [|injection Hr as <- <-; (split; [|done]);
      apply (grown_more _ _ _ _ _ _ Hg); by intros []..].
    destruct (Hok b eq_refl) as (k0 & [= <-] & -> & Hs1).
    apply IH in Hr as [Hg' Hok'].
    rewrite (fresh_ext _ _ logs Hs1) in Hg', Hok'. split.
    + eapply grown_trans; [|exact Hg']. intros key. destruct (Hg key) as [Hle Heq].
      split; [exact Hle|]. intros _. apply Heq. by eexists.
    + intros m Hm. destruct (Hok' m Hm) as (-> & Hmono & Hall). split_and!.
      * rewrite length_app. cbn [fresh]. rewrite Hk.
        destruct (seen (rocks_contents s) k); cbn [negb length].
        -- done.
        -- apply uint_eq. rewrite !uval_uwrap, Zplus_mod_idemp_l. f_equal. lia.
      * intros k' Hk'. apply Hmono. rewrite Hs1, Hk'. apply orb_true_r.
      * intros p' meta' k' [[= -> ->]|Hin]%elem_of_cons Hk'; [|by eapply Hall].
        rewrite Hk in Hk'. injection Hk' as <-. apply Hmono. rewrite Hs1.
        by rewrite bool_decide_eq_true_2.
Qed.

(** Gas payments are counted once. However the storing of a list of payment events ends, no
    total grows by more than the payments of the events that were not processed before, each
    event, identified by its transaction and log index, counted once. When it succeeds, every
    total has grown by exactly that sum, the result is the number of these events modulo 2^32,
    and all events of the list are processed, so storing any of them again adds nothing. *)
Theorem gas_payments_counted_once logs s s' r :
  store_payments self logs s = (s', r) ->
  let new := fresh (seen (rocks_contents s)) logs in
  (forall key,
     uval (u256 (gpd_payment (paid (rocks_contents s') key)))
       <= uval (u256 (gpd_payment (paid (rocks_contents s) key))) + sum_for igp_payment key new /\
     uval (u256 (gpd_gas_amount (paid (rocks_contents s') key)))
       <= uval (u256 (gpd_gas_amount (paid (rocks_contents s) key)))
          + sum_for igp_gas_amount key new) /\
  forall n, r = Ok n ->
    (forall key,
     uval (u256 (gpd_payment (paid (rocks_contents s') key)))
       = uval (u256 (gpd_payment (paid (rocks_contents s) key))) + sum_for igp_payment key new /\
     uval (u256 (gpd_gas_amount (paid (rocks_contents s') key)))
       = uval (u256 (gpd_gas_amount (paid (rocks_contents s) key)))
         + sum_for igp_gas_amount key new) /\
    n = uwrap 4 (Z.of_nat (length new)) /\
    forall again, again ⊆ logs -> fresh (seen (rocks_contents s')) again = [].
Proof.
  intros Hr. apply store_payments_from_spec in Hr as [Hg Hok]. cbn zeta in *. split.
  - intros key. apply (Hg key).
  - intros n Hn. destruct (Hok n Hn) as (-> & _ & Hall). split_and!.
    + intros key. apply (Hg key). by eexists.
    + apply uint_eq. rewrite !uval_uwrap. done.
    + intros again Hsub. apply fresh_known. intros p meta k Hin. by eapply Hall, Hsub.
Qed.
End payments.

(** ** The theorems at concrete inputs *)

Module DatabaseModel.
(** A database in memory, which never fails. *)
#[export] Instance memory : RocksDB := {
  rocks := gmap bytes bytes;
  rocks_error := Empty_set;
  rocks_put k v s := (<[k := v]> s, Ok tt);
  rocks_get k s := Ok (s !! k)
}.

#[export] Instance memory_laws : RocksDBLaws.
Proof.
  refine {| rocks_contents := λ s : @rocks memory, s |}; cbn; try congruence.
Defined.

Definition origin : Domain.HyperlaneDomain := Domain.Known Domain.Ethereum.
Definition message (n : Z) : HyperlaneMessage :=
  MkHyperlaneMessage (uwrap 1 3) (uwrap 4 n) (uwrap 4 1) (uwrap 32 5) (uwrap 4 10) (uwrap 32 6)
    (blit [1; 2; 3]).
Definition log (n : Z) : LogMeta :=
  MkLogMeta (uwrap 32 1) (uwrap 8 100) (uwrap 32 2) (uwrap 64 77) (uwrap 8 0)
    (MkU256 (uwrap 32 n)).
Definition payment (n : Z) : InterchainGasPayment :=
  MkInterchainGasPayment (uwrap 32 9) (uwrap 4 10) (MkU256 (uwrap 32 n)) (MkU256 (uwrap 32 (2 * n))).

(** One event twice and another one. *)
Definition payments : list (InterchainGasPayment * LogMeta) :=
  [(payment 100, log 0); (payment 100, log 0); (payment 30, log 1)].
Definition paid_db : rocks := fst (store_payments origin payments ∅).
End DatabaseModel.

Section witnesses.
Import DatabaseModel.
#[local] Existing Instance keccak_concrete.

Lemma database_keys_distinct_witness :
  entry_key origin (MessageRow (uwrap 32 1)) <> entry_key origin (MessageIdRow (uwrap 4 1)) /\
  entry_key origin WatermarkRow <> entry_key (Domain.Known Domain.Goerli) WatermarkRow.
Proof.
  split; intros Hk.
  - apply (database_keys_distinct origin origin _ _ eq_refl eq_refl) in Hk as [_ Hk].
    discriminate Hk.
  - apply (database_keys_distinct origin (Domain.Known Domain.Goerli) _ _ eq_refl eq_refl) in Hk
      as [Hk _]. discriminate Hk.
Defined.

Lemma messages_never_dangle_witness :
  messages_linked origin (rocks_contents (fst (store_messages origin [(message 4, log 0)] ∅))).
Proof.
  destruct (store_messages origin [(message 4, log 0)] ∅) as [s' r] eqn:Hr.
  apply (messages_never_dangle origin (store_messages origin [(message 4, log 0)]) ∅ s' r
    (op_messages origin _)); [|exact Hr]. intros n h. done.
Defined.

Lemma store_message_spec_witness :
  exists s', store_message origin (message 4) (uwrap 8 100) ∅ = (s', Ok true) /\
    retrieve_message_by_sequence origin (uwrap 4 4) s' = (s', Ok (Some (message 4))).
Proof.
  destruct (store_message origin (message 4) (uwrap 8 100) ∅) as [s' r] eqn:Hr.
  assert (Ho : r = Ok true) by (apply (f_equal snd) in Hr; cbn [snd] in Hr; subst r;
    vm_compute; reflexivity). subst r.
  assert (Hk : is_ok (snd (retrieve_message_by_sequence origin (uwrap 4 4)
    (fst (store_message origin (message 4) (uwrap 8 100) ∅)))) = true) by (vm_compute; reflexivity).
  rewrite Hr in Hk. cbn [fst] in Hk. exists s'. split; [reflexivity|].
  destruct (store_message_spec origin (message 4) (uwrap 8 100) ∅ s' true Hr)
    as [(Hf & _)|(_ & _ & _ & Hm & _)]; [discriminate Hf|].
  destruct (retrieve_message_by_sequence origin (uwrap 4 4) s') as [s2 [x|e|]] eqn:Hx;
    [|discriminate Hk..].
  rewrite (Hm _ _ Hx). by apply retrieve_message_ok in Hx as [-> _].
Defined.

Lemma gas_payments_counted_once_witness :
  uval (u256 (gpd_payment (paid origin (rocks_contents paid_db)
    (MkGasPaymentKey (uwrap 32 9) (uwrap 4 10))))) = 130.
Proof.
  destruct (store_payments origin payments ∅) as [s' r] eqn:Hr.
  assert (Ho : r = Ok (uwrap 4 2)) by (apply (f_equal snd) in Hr; cbn [snd] in Hr; subst r;
    vm_compute; reflexivity).
  destruct (gas_payments_counted_once origin payments ∅ s' r Hr) as [_ Hok].
  destruct (Hok _ Ho) as (Ht & _). destruct (Ht (MkGasPaymentKey (uwrap 32 9) (uwrap 4 10))) as [Hp _].
  unfold paid_db. rewrite Hr. cbn [fst]. rewrite Hp. vm_compute. reflexivity.
Defined.
End witnesses.
