(* ===== verification/MatchingList.v ===== *)
(** * Matching lists ([agents/relayer/src/settings/matching_list.rs])

    The patterns that say which messages a relayer serves: their meaning, and how a
    configuration is read into them. The values of a configuration are those serde hands to the
    visitors; the parsers of addresses of other crates are the class [AddressParsers]. The
    module is the same in [agents/apiserver/src/settings/matching_list.rs]. *)

From S2P Require Import Prelude.
From S2P Require Import Message.
From stdpp Require Import base list numbers strings.
From Stdlib Require Import ZArith Lia Ascii.

#[local] Open Scope Z_scope.

(** ** Parsing ([hyperlane-core/src/utils.rs], [hyperlane-core/src/config/str_or_int.rs]) *)

(** [u32::from_str]: an optional plus sign and decimal digits that fit; [None] is an error. *)
Fixpoint parse_digits (acc : Z) (s : string) : option Z :=
  match s with
  | EmptyString => Some acc
  | String c s =>
      let d := Z.of_nat (nat_of_ascii c) - 48 in
      if (0 <=? d) && (d <=? 9) && (acc * 10 + d <? 2 ^ 32) then parse_digits (acc * 10 + d) s
      else None
  end.

Definition parse_u32 (s : string) : option u32 :=
  match s with
  | EmptyString => None
  | String "+" EmptyString => None
  | String "+" s => uwrap 4 <$> parse_digits 0 s
  | _ => uwrap 4 <$> parse_digits 0 s
  end.

Inductive StrOrInt := Str (s : string) | Int (v : Z).

(** [TryFrom<StrOrInt> for u32] *)
Definition u32_try_from (v : StrOrInt) : option u32 :=
  match v with
  | Str s => parse_u32 s
  | Int i => if (0 <=? i) && (i <? 2 ^ 32) then Some (uwrap 4 i) else None
  end.

Class AddressParsers := {
  H256_from_str : string -> option H256;
  H160_from_str : string -> option H160;
  (** [bs58::decode(..).into_vec()] *)
  bs58_decode : string -> option bytes
}.

(** [From<H160> for H256]: the address in the low bytes *)
Definition H256_from_H160 (h : H160) : H256 := uwrap 32 h.

(** [hex_or_base58_to_h256] *)
Definition hex_or_base58_to_h256 `{AddressParsers} (s : string) : option H256 :=
  if String.prefix "0x" s then
    match String.length s with
    | 66%nat => H256_from_str s
    | 42%nat => H256_from_H160 <$> H160_from_str s
    | _ => None
    end
  else
    bytes ← bs58_decode s;
    if decide (length bytes = 32%nat) then Some (from_be 32 bytes) else None.

(** ** Filters *)

Inductive Filter (T : Type) := Wildcard | Enumerated (list : list T).
Arguments Wildcard {T}.
Arguments Enumerated {T} list.

(** [Filter::matches] *)
Definition filter_matches `{EqDecision T} (self : Filter T) (v : T) : bool :=
  match self with
  | Wildcard => true
  | Enumerated list => existsb (λ i, bool_decide (i = v)) list
  end.

Record ListElement := MkListElement {
  origin_domain : Filter u32;
  sender_address : Filter H256;
  destination_domain : Filter u32;
  recipient_address : Filter H256
}.

(** [MatchingList], the inner option *)
Definition MatchingList := option (list ListElement).

Record MatchInfo := MkMatchInfo {
  src_domain : u32;
  src_addr : H256;
  dst_domain : u32;
  dst_addr : H256
}.

(** [From<&HyperlaneMessage> for MatchInfo] *)
Definition MatchInfo_from (msg : HyperlaneMessage) : MatchInfo :=
  MkMatchInfo (origin msg) (sender msg) (destination msg) (recipient msg).

(** [matches_any_rule] *)
Definition matches_any_rule (rules : list ListElement) (info : MatchInfo) : bool :=
  existsb (λ rule,
    filter_matches (origin_domain rule) (src_domain info)
    && filter_matches (sender_address rule) (src_addr info)
    && filter_matches (destination_domain rule) (dst_domain info)
    && filter_matches (recipient_address rule) (dst_addr info)) rules.

(** [MatchingList::matches] *)
Definition list_matches (self : MatchingList) (info : MatchInfo) (default : bool) : bool :=
  match self with Some rules => matches_any_rule rules info | None => default end.

(** [MatchingList::msg_matches] *)
Definition msg_matches (self : MatchingList) (msg : HyperlaneMessage) (default : bool) : bool :=
  list_matches self (MatchInfo_from msg) default.

(** ** Reading a configuration *)

(** What a deserializer finds for a filter. *)
Inductive filter_value :=
  | ValueU32 (v : Z)
  | ValueU64 (v : Z)
  | ValueStr (s : string)
  | ValueSeq (values : list StrOrInt).

(** [FilterVisitor<u32>] *)
Definition visit_domain (v : filter_value) : option (Filter u32) :=
  match v with
  | ValueU32 v => Some (Enumerated [uwrap 4 v])
  | ValueU64 v => if v <=? u32_MAX then Some (Enumerated [uwrap 4 v]) else None
  | ValueStr s => if bool_decide (s = "*"%string) then Some Wildcard
                  else v ← parse_u32 s; Some (Enumerated [v])
  | ValueSeq values => values ← mapM u32_try_from values; Some (Enumerated values)
  end.

Section visitors.
Context `{AddressParsers}.

(** [FilterVisitor<H256>]; a list holds strings only, and a number is refused by the default
    visitor. *)
Definition visit_address (v : filter_value) : option (Filter H256) :=
  match v with
  | ValueU32 _ | ValueU64 _ => None
  | ValueStr s => if bool_decide (s = "*"%string) then Some Wildcard
                  else h ← hex_or_base58_to_h256 s; Some (Enumerated [h])
  | ValueSeq values =>
      hs ← mapM (λ v, match v with Str s => hex_or_base58_to_h256 s | Int _ => None end) values;
      Some (Enumerated hs)
  end.

(** The fields of a rule; an absent one is the default, a wildcard. *)
Record rule_value := MkRuleValue {
  value_origin : option filter_value;
  value_sender : option filter_value;
  value_destination : option filter_value;
  value_recipient : option filter_value
}.

Definition field_or_wildcard {T} (visit : filter_value -> option (Filter T))
    (v : option filter_value) : option (Filter T) :=
  match v with None => Some Wildcard | Some v => visit v end.

(** [Deserialize for ListElement] *)
Definition visit_rule (v : rule_value) : option ListElement :=
  origin ← field_or_wildcard visit_domain (value_origin v);
  sender ← field_or_wildcard visit_address (value_sender v);
  destination ← field_or_wildcard visit_domain (value_destination v);
  recipient ← field_or_wildcard visit_address (value_recipient v);
  Some (MkListElement origin sender destination recipient).

(** [Deserialize for MatchingList]: [MatchingListVisitor] and [MatchingListArrayVisitor] *)
Definition visit_list (v : option (list rule_value)) : option MatchingList :=
  match v with
  | None => Some None
  | Some rules =>
      list ← mapM visit_rule rules;
      Some (match list with [] => None | _ => Some list end)
  end.
End visitors.

(** ** What a list means *)

(** A filter accepts a value. *)
Definition accepts {T} (f : Filter T) (v : T) : Prop :=
  match f with Wildcard => True | Enumerated l => v ∈ l end.

Lemma filter_matches_ok `{EqDecision T} (f : Filter T) v : filter_matches f v = true <-> accepts f v.
Proof.
  destruct f as [|l]; cbn; [done|]. rewrite existsb_exists. split.
  - intros (x & Hx & Hv). apply bool_decide_eq_true_1 in Hv as ->. by apply list_elem_of_In.
  - intros Hv. exists v. split; [by apply list_elem_of_In|by apply bool_decide_eq_true_2].
Qed.

Lemma matches_any_ok rules info :
  matches_any_rule rules info = true <->
  exists rule, rule ∈ rules /\ accepts (origin_domain rule) (src_domain info) /\
    accepts (sender_address rule) (src_addr info) /\
    accepts (destination_domain rule) (dst_domain info) /\
    accepts (recipient_address rule) (dst_addr info).
Proof.
  unfold matches_any_rule. rewrite existsb_exists.
  setoid_rewrite <- list_elem_of_In. setoid_rewrite andb_true_iff.
  setoid_rewrite andb_true_iff. setoid_rewrite andb_true_iff.
  setoid_rewrite filter_matches_ok. naive_solver.
Qed.
