(* ===== verification/GasPayment.v ===== *)
(** * Gas-payment enforcement ([agents/relayer/src/msg/gas_payment])

    [mod.rs] and [policies/]: whether enough gas was paid for a message to be relayed, and what
    relaying it has cost. A policy is a function, the enforcer a list of policies and matching
    lists over the database of the origin. [FixedPointNumber] wraps a number of the crate
    [bigdecimal], the class [BigDecimal]. *)

From S2P Require Import Prelude.
From S2P Require Import Codec.
From S2P Require Import Keccak.
From S2P Require Import U256.
From S2P Require Import Message.
From S2P Require Import Chain.
From S2P Require Import Database.
From S2P Require Import MatchingList.
From stdpp Require Import base gmap list numbers strings.
From Stdlib Require Import ZArith Lia.

#[local] Open Scope Z_scope.

(** ** [hyperlane-core]: fixed-point numbers, costs and outcomes *)

Class BigDecimal := {
  decimal : Type;
  (** [BigDecimal::from_str] of the decimal digits of an integer *)
  decimal_of_u256 : uint 32 -> option decimal;
  decimal_mul : decimal -> decimal -> decimal;
  (** [U256::from_dec_str] of the digits of [with_scale(0)] *)
  decimal_to_u256 : decimal -> option (uint 32)
}.

Section costs.
Context `{BigDecimal}.

Record FixedPointNumber := MkFixedPointNumber { fixed : decimal }.

(** [TryFrom<U256> for FixedPointNumber]; [None] is an error *)
Definition FixedPointNumber_try_from (val : uint 32) : option FixedPointNumber :=
  MkFixedPointNumber <$> decimal_of_u256 val.

(** [TryInto<U256> for FixedPointNumber]; [None] is an error *)
Definition FixedPointNumber_try_into (self : FixedPointNumber) : option (uint 32) :=
  decimal_to_u256 (fixed self).

(** [Mul for FixedPointNumber] *)
Definition FixedPointNumber_mul (self rhs : FixedPointNumber) : FixedPointNumber :=
  MkFixedPointNumber (decimal_mul (fixed self) (fixed rhs)).

Record TxCostEstimate := MkTxCostEstimate {
  estimate_gas_limit : uint 32;
  estimate_gas_price : FixedPointNumber;
  l2_gas_limit : option (uint 32)
}.

(** [TxCostEstimate::enforceable_gas_limit] *)
Definition enforceable_gas_limit (self : TxCostEstimate) : uint 32 :=
  default (estimate_gas_limit self) (l2_gas_limit self).

Record TxOutcome := MkTxOutcome {
  outcome_transaction_id : H512;
  executed : bool;
  outcome_gas_used : uint 32;
  outcome_gas_price : FixedPointNumber
}.
End costs.

(** An [eyre::Report]: an error of the database or of a chain. *)
Inductive Report `{RocksDB} := DbReport (e : DbError) | ChainReport.

Definition report_db `{RocksDB} {A} (m : db A) : eff rocks Report A := eff_map_err DbReport m.

(** ** Policies *)

Section policies.
Context `{RocksDB, BigDecimal, U256Ops}.

(** [GasPaymentPolicy::message_meets_gas_payment_requirement] of a policy *)
Definition GasPaymentPolicy : Type :=
  HyperlaneMessage -> InterchainGasPayment -> InterchainGasExpenditure -> TxCostEstimate ->
  outcome Report (option (uint 32)).

(** [policies/none.rs] *)
Definition GasPaymentPolicyNone : GasPaymentPolicy :=
  λ _message _current_payment _current_expenditure tx_cost_estimate,
  Ok (Some (estimate_gas_limit tx_cost_estimate)).

(** [policies/minimum.rs] *)
Definition GasPaymentPolicyMinimum (minimum_payment : uint 32) : GasPaymentPolicy :=
  λ _message current_payment _current_expenditure tx_cost_estimate,
  if uval minimum_payment <=? uval (u256 (igp_payment current_payment)) then
    Ok (Some (estimate_gas_limit tx_cost_estimate))
  else Ok None.

(** [policies/on_chain_fee_quoting.rs] *)
Definition GasPaymentPolicyOnChainFeeQuoting
    (fractional_numerator fractional_denominator : u64) : GasPaymentPolicy :=
  λ _message current_payment current_expenditure tx_cost_estimate,
  product ← or_panic (u256_mul (enforceable_gas_limit tx_cost_estimate)
    (u256_from fractional_numerator));
  fractional_gas_estimate ← or_panic (u256_div product (u256_from fractional_denominator));
  let gas_amount := u256_saturating_sub (u256 (igp_gas_amount current_payment))
    (u256 (ige_gas_used current_expenditure)) in
  if uval fractional_gas_estimate <=? uval gas_amount then
    Ok (Some (if uval (estimate_gas_limit tx_cost_estimate) <=? uval gas_amount then gas_amount
              else estimate_gas_limit tx_cost_estimate))
  else Ok None.

(** ** The enforcer *)

(** [settings/mod.rs]: [GasPaymentEnforcementPolicy] and [GasPaymentEnforcementConf] *)
Inductive GasPaymentEnforcementPolicy :=
  | PolicyNone
  | PolicyMinimum (payment : uint 32)
  | PolicyOnChainFeeQuoting (gas_fraction_numerator gas_fraction_denominator : u64).

Record GasPaymentEnforcementConf := MkGasPaymentEnforcementConf {
  conf_policy : GasPaymentEnforcementPolicy;
  conf_matching_list : MatchingList
}.

Record GasPaymentEnforcer := MkGasPaymentEnforcer {
  policies : list (GasPaymentPolicy * MatchingList);
  enforcer_db : Domain.HyperlaneDomain
}.

Definition policy_of (policy : GasPaymentEnforcementPolicy) : GasPaymentPolicy :=
  match policy with
  | PolicyNone => GasPaymentPolicyNone
  | PolicyMinimum payment => GasPaymentPolicyMinimum payment
  | PolicyOnChainFeeQuoting n d => GasPaymentPolicyOnChainFeeQuoting n d
  end.

(** [GasPaymentEnforcer::new] *)
Definition GasPaymentEnforcer_new (policy_configs : list GasPaymentEnforcementConf)
    (db : Domain.HyperlaneDomain) : GasPaymentEnforcer :=
  MkGasPaymentEnforcer
    ((λ cfg, (policy_of (conf_policy cfg), conf_matching_list cfg)) <$> policy_configs) db.

Context `{Keccak256}.

(** The loop over the policies: the first one whose list matches decides. *)
Fixpoint evaluate_policies (policies : list (GasPaymentPolicy * MatchingList))
    (message : HyperlaneMessage) (current_payment : InterchainGasPayment)
    (current_expenditure : InterchainGasExpenditure) (tx_cost_estimate : TxCostEstimate) :
    outcome Report (option (uint 32)) :=
  match policies with
  | [] => Ok None
  | (policy, whitelist) :: policies =>
      if msg_matches whitelist message true then
        policy message current_payment current_expenditure tx_cost_estimate
      else
        evaluate_policies policies message current_payment current_expenditure tx_cost_estimate
  end.

(** [GasPaymentEnforcer::message_meets_gas_payment_requirement] *)
Definition message_meets_gas_payment_requirement (self : GasPaymentEnforcer)
    (message : HyperlaneMessage) (tx_cost_estimate : TxCostEstimate) :
    eff rocks Report (option (uint 32)) :=
  let msg_id := Message.id message in
  let gas_payment_key := MkGasPaymentKey msg_id (destination message) in
  current_payment ← report_db
    (HyperlaneDB.retrieve_gas_payment_by_gas_payment_key (enforcer_db self) gas_payment_key);
  current_expenditure ← report_db
    (HyperlaneDB.retrieve_gas_expenditure_by_message_id (enforcer_db self) msg_id);
  eff_lift (evaluate_policies (policies self) message current_payment current_expenditure
    tx_cost_estimate).

(** [GasPaymentEnforcer::record_tx_outcome] *)
Definition record_tx_outcome (self : GasPaymentEnforcer) (message : HyperlaneMessage)
    (outcome : TxOutcome) : eff rocks Report unit :=
  gas ← eff_lift (ok_or (FixedPointNumber_try_from (outcome_gas_used outcome)) ChainReport);
  tokens_used ← eff_lift (ok_or
    (FixedPointNumber_try_into (FixedPointNumber_mul gas (outcome_gas_price outcome)))
    ChainReport);
  report_db (HyperlaneDB.process_gas_expenditure (enforcer_db self)
    (MkInterchainGasExpenditure (Message.id message) (MkU256 tokens_used)
       (MkU256 (outcome_gas_used outcome)))).
End policies.
