(* ===== verification/GasPaymentTheorems.v ===== *)
(** * Properties of matching lists and of gas-payment enforcement *)

From S2P Require Import Prelude.
From S2P Require Import Codec.
From S2P Require Import Keccak.
From S2P Require Import U256.
From S2P Require Import Message.
From S2P Require Import Chain.
From S2P Require Import Database.
From S2P Require Import DatabaseCorrect.
From S2P Require Import DatabaseTheorems.
From S2P Require Import MatchingList.
From S2P Require Import GasPayment.
From stdpp Require Import base gmap list numbers strings.
From Stdlib Require Import ZArith Lia.

#[local] Open Scope Z_scope.

Import HyperlaneDB.

(** ** Matching lists *)

(** What a matching list read from a configuration accepts. An absent list and an empty one
    leave the choice to the caller's default; any other accepts a message exactly if one of its
    rules does, a rule accepting it if its four filters accept the origin, the sender, the
    destination and the recipient, an absent field accepting everything. A list that holds a
    rule that cannot be read is refused as a whole. *)
Theorem matching_list_spec `{AddressParsers} v l msg default :
  visit_list v = Some l ->
  (l = None <-> v = None \/ v = Some []) /\
  (l = None -> msg_matches l msg default = default) /\
  forall rules, v = Some rules -> rules <> [] ->
    (msg_matches l msg default = true <->
     exists value rule, value ∈ rules /\ visit_rule value = Some rule /\
       accepts (origin_domain rule) (origin msg) /\ accepts (sender_address rule) (sender msg) /\
       accepts (destination_domain rule) (destination msg) /\
       accepts (recipient_address rule) (recipient msg)) /\
    forall value, value ∈ rules -> is_Some (visit_rule value).
Proof.
  intros Hv. destruct v as [rules|]; cbn in Hv.
  2:{ injection Hv as <-. split; [split; [by left|done]|]. by split. }
  destruct (mapM visit_rule rules) as [els|] eqn:Hm; [|done]. cbn in Hv.
  pose proof (mapM_Some_1 _ _ _ Hm) as Hall. injection Hv as <-. split_and!.
  - destruct Hall as [|value el values els Hel Hall]; split; [by right|done|done|].
    intros [?|[=]]; done.
  - by intros ->.
  - intros rules' [= <-] Hne. destruct Hall as [|value el values els Hel Hall]; [done|].
    assert (Hall' : Forall2 (λ v e, visit_rule v = Some e) (value :: values) (el :: els))
      by by constructor. split.
    + unfold msg_matches, list_matches. rewrite matches_any_ok. split.
      * intros (rule & Hin & Ha). apply list_elem_of_lookup_1 in Hin as [i Hi].
        destruct (Forall2_lookup_r _ _ _ _ _ Hall' Hi) as (v & Hi' & Hr).
        exists v, rule. by apply list_elem_of_lookup_2 in Hi'.
      * intros (v & rule & Hin & Hr & Ha). apply list_elem_of_lookup_1 in Hin as [i Hi].
        destruct (Forall2_lookup_l _ _ _ _ _ Hall' Hi) as (r' & Hi' & Hr').
        exists rule. split; [|done]. assert (rule = r') as -> by congruence.
        by apply list_elem_of_lookup_2 in Hi'.
    + intros v Hin. apply list_elem_of_lookup_1 in Hin as [i Hi].
      destruct (Forall2_lookup_l _ _ _ _ _ Hall' Hi) as (r' & _ & Hr'). by exists r'.
Qed.

(** ** What was spent *)

Section spending.
Context `{RocksDBLaws, BigDecimal, U256Laws, Keccak256}.
Variable self : Domain.HyperlaneDomain.
Implicit Types s : rocks.

(** The expenditure recorded for a message. *)
Definition spent (c : gmap bytes bytes) (id : H256) : InterchainGasExpenditureData :=
  default InterchainGasExpenditureData_default (row self (ExpenditureRow id) c).

Lemma retrieve_expenditure_ok id s s' x :
  retrieve_gas_expenditure_by_message_id self id s = (s', Ok x) ->
  s' = s /\ x = InterchainGasExpenditureData_complete (spent (rocks_contents s) id) id.
Proof.
  unfold retrieve_gas_expenditure_by_message_id. intros Hr. db_step Hr.
  apply retrieve_decodable_ok in Hm as [-> ->]. by injection Hr as <- <-.
Qed.

Lemma expenditure_add_ok a b t :
  InterchainGasExpenditure_add a b = Some t ->
  ige_message_id t = ige_message_id a /\
  uval (u256 (ige_tokens_used t)) = uval (u256 (ige_tokens_used a)) + uval (u256 (ige_tokens_used b)) /\
  uval (u256 (ige_gas_used t)) = uval (u256 (ige_gas_used a)) + uval (u256 (ige_gas_used b)).
Proof.
  unfold InterchainGasExpenditure_add. case_decide; [|done].
  destruct (U256_add (ige_tokens_used a) _) as [tp|] eqn:Hp; [|done].
  destruct (U256_add (ige_gas_used a) _) as [tg|] eqn:Hg; [|done]. intros [= <-].
  by apply U256_add_ok in Hp, Hg.
Qed.

Lemma report_ok {A} (m : db A) s s' (a : A) :
  report_db m s = (s', Ok a) -> m s = (s', Ok a).
Proof.
  unfold report_db, eff_map_err. destruct (m s) as [s1 [x|e|]]; cbn; congruence.
Qed.

Lemma record_outcome_ok enforcer msg outcome s s' :
  enforcer_db enforcer = self ->
  record_tx_outcome enforcer msg outcome s = (s', Ok tt) ->
  exists total,
    rocks_contents s' =
      <[entry_key self (ExpenditureRow (Message.id msg)) := to_vec total]> (rocks_contents s) /\
    uval (u256 (ged_gas_used total))
    = uval (u256 (ged_gas_used (spent (rocks_contents s) (Message.id msg))))
      + uval (outcome_gas_used outcome).
Proof.
  intros He. unfold record_tx_outcome, process_gas_expenditure,
    update_gas_expenditure_by_message_id. intros Hr. do 2 db_step Hr.
  injection Hm as -> Hm. injection Hm0 as -> Hm0. apply report_ok in Hr. rewrite He in Hr.
  db_step Hr. apply retrieve_expenditure_ok in Hm1 as [-> ->]. db_step Hr.
  injection Hm1 as -> Hm1. destruct (InterchainGasExpenditure_add _ _) as [t|] eqn:Ht; [|done].
  injection Hm1 as <-. apply expenditure_add_ok in Ht as (Hi & _ & Hg). cbn in Hi, Hg.
  rewrite Hi in Hr. apply store_row_ok in Hr. eexists. by split.
Qed.

Lemma spent_insert id id' (v : InterchainGasExpenditureData) c :
  spent (<[entry_key self (ExpenditureRow id) := to_vec v]> c) id'
  = if decide (id' = id) then v else spent c id'.
Proof.
  unfold spent. rewrite (row_insert self (V := InterchainGasExpenditureData)).
  destruct (decide (id' = id)) as [->|]; [by rewrite decide_True|by rewrite decide_False by congruence].
Qed.

(** ** The enforcer *)

(** A policy approves, with a gas limit: what was paid in tokens and in gas, the gas used. *)
Inductive approved : GasPaymentEnforcementPolicy -> Z -> Z -> Z -> TxCostEstimate -> Z -> Prop :=
  | approved_none payment gas used c :
      approved PolicyNone payment gas used c (uval (estimate_gas_limit c))
  | approved_minimum minimum payment gas used c :
      uval minimum <= payment ->
      approved (PolicyMinimum minimum) payment gas used c (uval (estimate_gas_limit c))
  | approved_quoting n d payment gas used c :
      0 < uval d -> uval (enforceable_gas_limit c) * uval n < 2 ^ 256 ->
      uval (enforceable_gas_limit c) * uval n / uval d <= Z.max 0 (gas - used) ->
      approved (PolicyOnChainFeeQuoting n d) payment gas used c
        (Z.max (uval (estimate_gas_limit c)) (Z.max 0 (gas - used))).

(** The first configuration whose list accepts the message. *)
Definition decides (configs : list GasPaymentEnforcementConf) (msg : HyperlaneMessage)
    (cfg : GasPaymentEnforcementConf) : Prop :=
  exists before after, configs = before ++ cfg :: after /\
    msg_matches (conf_matching_list cfg) msg true = true /\
    Forall (λ cfg', msg_matches (conf_matching_list cfg') msg true = false) before.

Lemma decides_cons cfg0 configs msg cfg :
  decides (cfg0 :: configs) msg cfg <->
  if msg_matches (conf_matching_list cfg0) msg true then cfg = cfg0 else decides configs msg cfg.
Proof.
  destruct (msg_matches (conf_matching_list cfg0) msg true) eqn:Hm; split.
  - intros ([|c before] & after & He & Hc & Hf); injection He; [done|]. intros _ <-.
    apply Forall_inv in Hf. congruence.
  - intros ->. by exists [], configs.
  - intros ([|c before] & after & He & Hc & Hf); injection He as <- He; [congruence|].
    apply Forall_inv_tail in Hf. by exists before, after.
  - intros (before & after & -> & Hc & Hf). exists (cfg0 :: before), after.
    split_and!; [done|done|]. by constructor.
Qed.

Lemma evaluate_decides configs msg payment used c r :
  evaluate_policies (policies (GasPaymentEnforcer_new configs self)) msg payment used c = r ->
  (exists cfg, decides configs msg cfg /\ r = policy_of (conf_policy cfg) msg payment used c) \/
  (~ (exists cfg, decides configs msg cfg) /\ r = Ok None).
Proof.
  induction configs as [|cfg configs IH]; cbn.
  - intros <-. right. split; [|done]. intros (cfg & [|] & ? & [=] & _).
  - setoid_rewrite decides_cons.
    destruct (msg_matches (conf_matching_list cfg) msg true); [|exact IH].
    intros <-. left. by exists cfg.
Qed.

Lemma decides_unique configs msg cfg cfg' :
  decides configs msg cfg -> decides configs msg cfg' -> cfg = cfg'.
Proof.
  induction configs as [|cfg0 configs IH]; [by intros ([|] & ? & [=] & _)|].
  rewrite !decides_cons. destruct (msg_matches _ msg true); [congruence|exact IH].
Qed.

Lemma quoting_spec n d msg payment used c :
  let limit := uval (enforceable_gas_limit c) in
  let left := Z.max 0 (uval (u256 (igp_gas_amount payment)) - uval (u256 (ige_gas_used used))) in
  exists r, GasPaymentPolicyOnChainFeeQuoting n d msg payment used c = r /\
  (r = Panic <-> uval d = 0 \/ 2 ^ 256 <= limit * uval n) /\
  (forall g, r = Ok (Some g) <->
     (0 < uval d /\ limit * uval n < 2 ^ 256 /\ limit * uval n / uval d <= left) /\
     uval g = Z.max (uval (estimate_gas_limit c)) left) /\
  forall e, r <> Err e.
Proof.
  cbn zeta. eexists. split; [done|]. unfold GasPaymentPolicyOnChainFeeQuoting.
  set (limit := enforceable_gas_limit c). pose proof (uval_range limit) as Hl.
  pose proof (uval_range n) as Hn. pose proof (uval_range d) as Hd.
  change (umax 32) with (2 ^ 256) in Hl.
  rewrite u256_mul_exact, u256_from_exact by lia.
  assert (Hpos : 0 <= uval limit * uval n) by nia.
  destruct (exactly 32 _) as [product|] eqn:Hp; cbn.
  2:{ apply (exactly_none 32 _ Hpos) in Hp. change (umax 32) with (2 ^ 256) in Hp.
      split_and!; [naive_solver| |done]. intros g. split; [done|lia]. }
  apply exactly_some in Hp as [Hp ->]. change (umax 32) with (2 ^ 256) in Hp.
  destruct (decide (uval d = 0)) as [Hz|Hz].
  { rewrite u256_div_zero by (rewrite u256_from_exact by lia; done). cbn.
    split_and!; [naive_solver| |done]. intros g. split; [done|lia]. }
  rewrite u256_div_exact by (rewrite u256_from_exact by lia; lia).
  rewrite u256_from_exact by lia. rewrite uval_uwrap_small by done.
  assert (Hq : 0 <= uval limit * uval n / uval d <= uval limit * uval n).
  { split; [apply Z.div_pos; lia|]. apply Z.div_le_upper_bound; [lia|]. nia. }
  rewrite exactly_fits by (change (umax 32) with (2 ^ 256); lia). cbn.
  rewrite uval_uwrap_small by (change (umax 32) with (2 ^ 256); lia).
  set (gas := u256_saturating_sub _ _).
  assert (Hgas : uval gas = Z.max 0 (uval (u256 (igp_gas_amount payment))
    - uval (u256 (ige_gas_used used)))) by apply u256_saturating_sub_exact.
  rewrite <- Hgas. split_and!.
  - split; [by case_match|lia].
  - intros g. destruct (Z.leb_spec (uval limit * uval n / uval d) (uval gas)).
    + destruct (Z.leb_spec (uval (estimate_gas_limit c)) (uval gas)); split.
      * intros [= <-]. lia.
      * intros [_ Hg]. rewrite Z.max_r in Hg by lia. do 2 f_equal. by apply uint_eq.
      * intros [= <-]. lia.
      * intros [_ Hg]. rewrite Z.max_l in Hg by lia. do 2 f_equal. by apply uint_eq.
    + split; [done|lia].
  - intros e. by case_match.
Qed.

Lemma policy_spec policy msg payment used c :
  let r := policy_of policy msg payment used c in
  (forall g, r = Ok (Some g) <->
     approved policy (uval (u256 (igp_payment payment))) (uval (u256 (igp_gas_amount payment)))
       (uval (u256 (ige_gas_used used))) c (uval g)) /\
  (r = Panic <-> exists n d, policy = PolicyOnChainFeeQuoting n d /\
     (uval d = 0 \/ 2 ^ 256 <= uval (enforceable_gas_limit c) * uval n)).
Proof.
  cbn zeta. destruct policy as [|minimum|n d]; cbn [policy_of].
  - unfold GasPaymentPolicyNone. split; [|naive_solver]. intros g. split.
    + intros [= <-]. constructor.
    + inversion 1. do 2 f_equal. by apply uint_eq.
  - unfold GasPaymentPolicyMinimum. destruct (Z.leb_spec (uval minimum) (uval (u256 (igp_payment payment))));
      (split; [|naive_solver]); intros g; split; try done.
    + intros [= <-]. by constructor.
    + inversion 1. do 2 f_equal. by apply uint_eq.
    + inversion 1. lia.
  - destruct (quoting_spec n d msg payment used c) as (r & -> & Hp & Hg & _). split.
    + intros g. rewrite Hg. split.
      * intros ((? & ? & ?) & ->). by constructor.
      * inversion 1; subst. auto.
    + rewrite Hp. split; [eauto|]. by intros (? & ? & [= <- <-] & ?).
Qed.

Lemma retrieve_no_panic `{Encode K, Decode V} p (k : K) s :
  (forall b, eval_st (read_from (A := V)) b <> Panic) ->
  snd (retrieve_keyed_decodable (V := V) self p k s) <> Panic.
Proof.
  intros Hd. unfold retrieve_keyed_decodable, retrieve_decodable, mbind, eff_bind, retrieve.
  pose proof (rocks_get_total (prefixed_key self p (to_vec k)) s) as Ht.
  destruct (rocks_get _ s) as [[v|]|e|]; cbn; try done. specialize (Hd v).
  by destruct (eval_st read_from v).
Qed.

Lemma read_data_no_panic {A} (f : Codec.U256 -> Codec.U256 -> A) b :
  eval_st (payment ← read_from; gas ← read_from; mret (f payment gas)) b <> Panic.
Proof.
  unfold eval_st, read_from, U256_read_from, mbind, ST_bind, mret, ST_ret, read_exact.
  by repeat (case_match; cbn in *; simplify_eq).
Qed.

Lemma meets_spec configs msg c s s' r :
  message_meets_gas_payment_requirement (GasPaymentEnforcer_new configs self) msg c s = (s', r) ->
  (exists e, r = Err e) \/
  (s' = s /\
   r = evaluate_policies (policies (GasPaymentEnforcer_new configs self)) msg
         (InterchainGasPaymentData_complete (paid self (rocks_contents s)
            (MkGasPaymentKey (Message.id msg) (destination msg))) (Message.id msg) (destination msg))
         (InterchainGasExpenditureData_complete (spent (rocks_contents s) (Message.id msg))
            (Message.id msg)) c).
Proof.
  unfold message_meets_gas_payment_requirement, mbind, eff_bind, report_db, eff_map_err.
  cbn [enforcer_db GasPaymentEnforcer_new].
  set (key := MkGasPaymentKey (Message.id msg) (destination msg)).
  pose proof (retrieve_payment_state self key s) as Hst.
  destruct (retrieve_gas_payment_by_gas_payment_key self key s) as [s1 [p|e|]] eqn:Hp;
    cbn in Hst; subst s1; cbn [map_err].
  2:{ intros [= <- <-]. left. eauto. }
  2:{ exfalso. unfold retrieve_gas_payment_by_gas_payment_key, mbind, eff_bind in Hp.
      pose proof (retrieve_no_panic (V := InterchainGasPaymentData) GAS_PAYMENT_FOR_MESSAGE_ID key s
        (read_data_no_panic MkInterchainGasPaymentData)) as Hn.
      unfold retrieve_interchain_gas_payment_data_by_gas_payment_key in Hp.
      by destruct (retrieve_keyed_decodable _ _ key s) as [s1 [d|e|]]. }
  apply retrieve_payment_ok in Hp as ->.
  destruct (retrieve_gas_expenditure_by_message_id self _ s) as [s1 [x|e|]] eqn:Hx;
    cbn [map_err].
  - apply retrieve_expenditure_ok in Hx as [-> ->]. unfold eff_lift. intros [= <- <-]. by right.
  - intros [= <- <-]. left. eauto.
  - exfalso. unfold retrieve_gas_expenditure_by_message_id, mbind, eff_bind in Hx.
    pose proof (retrieve_no_panic (V := InterchainGasExpenditureData)
      GAS_EXPENDITURE_FOR_MESSAGE_ID (Message.id msg) s
      (read_data_no_panic MkInterchainGasExpenditureData)) as Hn.
    unfold retrieve_interchain_gas_expenditure_data_by_message_id in Hx.
    by destruct (retrieve_keyed_decodable _ _ (Message.id msg) s) as [s2 [d|e|]].
Qed.

(** The payments and the expenditure of a message in the database, for its first policy. *)
Definition approved_in (c : gmap bytes bytes) (policy : GasPaymentEnforcementPolicy)
    (msg : HyperlaneMessage) (cost : TxCostEstimate) (g : Z) : Prop :=
  let total := paid self c (MkGasPaymentKey (Message.id msg) (destination msg)) in
  approved policy (uval (u256 (gpd_payment total))) (uval (u256 (gpd_gas_amount total)))
    (uval (u256 (ged_gas_used (spent c (Message.id msg))))) cost g.

(** When gas was paid for. Unless reading the database fails, the enforcer decides from the
    first configured policy whose matching list accepts the message, and from what the database
    holds on the message: the policy that requires nothing approves; the one with a minimum
    approves if the payments to the message's destination reach it; the one that trusts the
    quotes on chain approves if the gas paid for, less the gas already used, covers the given
    fraction of the estimate. The approved gas limit is the estimate, or for the last policy
    what is left of the gas paid for, if that is more. A message no policy matches is not
    approved. The enforcer panics exactly when the deciding policy has a fraction over 0, or
    the estimate times the numerator is not a 256-bit number. The database is not changed. *)
Theorem gas_payment_enforced configs msg cost s s' r :
  message_meets_gas_payment_requirement (GasPaymentEnforcer_new configs self) msg cost s
    = (s', r) ->
  (forall e, r <> Err e) ->
  s' = s /\
  (forall g, r = Ok (Some g) <->
     exists cfg, decides configs msg cfg /\
       approved_in (rocks_contents s) (conf_policy cfg) msg cost (uval g)) /\
  (r = Panic <->
     exists cfg n d, decides configs msg cfg /\ conf_policy cfg = PolicyOnChainFeeQuoting n d /\
       (uval d = 0 \/ 2 ^ 256 <= uval (enforceable_gas_limit cost) * uval n)).
Proof.
  intros Hr He. apply meets_spec in Hr as [[e ->]|[-> Hr]]; [by destruct (He e)|]. split; [done|].
  symmetry in Hr. apply evaluate_decides in Hr as [(cfg & Hcfg & ->)|[Hno ->]].
  - destruct (policy_spec (conf_policy cfg) msg
      (InterchainGasPaymentData_complete (paid self (rocks_contents s)
            (MkGasPaymentKey (Message.id msg) (destination msg))) (Message.id msg) (destination msg))
      (InterchainGasExpenditureData_complete (spent (rocks_contents s) (Message.id msg))
            (Message.id msg)) cost) as [Hg Hp]. split.
    + intros g. rewrite Hg. split; [intros Ha; by exists cfg|].
      intros (cfg' & Hcfg' & Ha). by rewrite (decides_unique _ _ _ _ Hcfg Hcfg').
    + rewrite Hp. split; [naive_solver|]. intros (cfg' & n & d & Hcfg' & Hc).
      rewrite (decides_unique _ _ _ _ Hcfg Hcfg'). eauto.
  - split; [|naive_solver]. intros g. split; [done|naive_solver].
Qed.

(** ** Repeated attempts *)

(** Attempts to relay a message: each is approved, uses at most the gas that the policy asks to be
    paid for, and its outcome is recorded; other messages may be relayed, and no payment arrives,
    in between. What the policy counts is the limit on the L2 where the estimate has one. The
    transaction is submitted with the whole estimate, so that on such a chain the bound on what
    is used is an assumption; on the others it is what a gas limit means. *)
Inductive attempts (configs : list GasPaymentEnforcementConf) (msg : HyperlaneMessage)
    (n d : u64) : rocks -> rocks -> Prop :=
  | attempts_none s : attempts configs msg n d s s
  | attempts_one s s1 s2 s3 cost g outcome :
      message_meets_gas_payment_requirement (GasPaymentEnforcer_new configs self) msg cost s
        = (s1, Ok (Some g)) ->
      uval (outcome_gas_used outcome) <= uval (enforceable_gas_limit cost) ->
      uval (enforceable_gas_limit cost) = 0 \/
        uval d <= uval (enforceable_gas_limit cost) * uval n ->
      record_tx_outcome (GasPaymentEnforcer_new configs self) msg outcome s1 = (s2, Ok tt) ->
      attempts configs msg n d s2 s3 -> attempts configs msg n d s s3
  | attempts_other s s2 s3 msg' outcome :
      Message.id msg' <> Message.id msg ->
      record_tx_outcome (GasPaymentEnforcer_new configs self) msg' outcome s = (s2, Ok tt) ->
      attempts configs msg n d s2 s3 -> attempts configs msg n d s s3.

Lemma record_keeps_payments enforcer msg outcome s s' key :
  enforcer_db enforcer = self -> record_tx_outcome enforcer msg outcome s = (s', Ok tt) ->
  paid self (rocks_contents s') key = paid self (rocks_contents s) key.
Proof.
  intros He Hr. apply record_outcome_ok in Hr as (t & -> & _); [|done].
  by apply paid_insert_other.
Qed.

Lemma approval_covers configs msg cost s s' g n d :
  message_meets_gas_payment_requirement (GasPaymentEnforcer_new configs self) msg cost s
    = (s', Ok (Some g)) ->
  (forall cfg, decides configs msg cfg -> conf_policy cfg = PolicyOnChainFeeQuoting n d) ->
  let total := paid self (rocks_contents s) (MkGasPaymentKey (Message.id msg) (destination msg)) in
  s' = s /\ 0 < uval d /\
  uval (enforceable_gas_limit cost) * uval n / uval d
    <= Z.max 0 (uval (u256 (gpd_gas_amount total))
                - uval (u256 (ged_gas_used (spent (rocks_contents s) (Message.id msg))))).
Proof.
  intros Hr Hq. apply meets_spec in Hr as [[e Hr]|[-> Hr]]; [done|]. split; [done|].
  symmetry in Hr. apply evaluate_decides in Hr as [(cfg & Hcfg & Hr)|[_ [=]]].
  rewrite (Hq cfg Hcfg) in Hr. symmetry in Hr. apply policy_spec in Hr. by inversion Hr; subst.
Qed.

(** What a fraction [n / d] of the estimates lets be used when [p] is paid for. *)
Definition spending_limit (n d p : Z) : Z := Z.max p (((p + 1) * d - 1) / n).

Lemma spending_step n d p used e u :
  0 <= n -> 0 < d -> 0 <= used -> 0 <= u <= e -> (e = 0 \/ d <= e * n) ->
  e * n / d <= Z.max 0 (p - used) ->
  used + u <= Z.max (spending_limit n d p) used.
Proof.
  intros Hn Hd Hp Hu He Hle. destruct He as [->|He]; [lia|].
  assert (Hpos : 0 < n) by nia.
  assert (Hone : 1 <= e * n / d) by (apply Z.div_le_lower_bound; lia).
  rewrite Z.max_r in Hle by lia.
  pose proof (Z.mul_succ_div_gt (e * n) d Hd) as Hgt.
  assert (Hen : e * n <= (p - used + 1) * d - 1) by nia.
  unfold spending_limit. destruct (Z.le_gt_cases d n).
  - assert (Hlt : e * n < (p - used + 1) * n) by nia. apply Z.mul_lt_mono_pos_r in Hlt; lia.
  - enough (used + u <= ((p + 1) * d - 1) / n) by lia. apply Z.div_le_lower_bound; [done|].
    assert (n * used <= d * used) by (apply Z.mul_le_mono_nonneg_r; lia).
    assert (n * u <= n * e) by (apply Z.mul_le_mono_nonneg_l; lia). lia.
Qed.

(** C33. What a quoting policy lets the relayer spend. If the policy that decides on a message is
    [OnChainFeeQuoting] with the fraction [n / d], then over any sequence of approved attempts
    at this message, without payments in between, each of which uses at most the gas limit that
    the policy counts ([enforceable_gas_limit], the part on the L2 where there is one), and
    needs at least [d / n] gas, the gas recorded as used stays within [spending_limit]: the gas
    paid for when the fraction is one or more, and about [d / n] times the gas paid for, twice
    for the default of one half, when it is less; or within what was used before. The other two
    policies count no gas and bound nothing. *)
Theorem gas_spending_bounded configs msg s s' n d
    (Hq : forall cfg, decides configs msg cfg -> conf_policy cfg = PolicyOnChainFeeQuoting n d)
    (Hat : attempts configs msg n d s s') :
  let total := paid self (rocks_contents s) (MkGasPaymentKey (Message.id msg) (destination msg)) in
  let before := uval (u256 (ged_gas_used (spent (rocks_contents s) (Message.id msg)))) in
  let after := uval (u256 (ged_gas_used (spent (rocks_contents s') (Message.id msg)))) in
  let bought := uval (u256 (gpd_gas_amount total)) in
  after <= Z.max (spending_limit (uval n) (uval d) bought) before /\
  (0 < uval d <= uval n -> after <= Z.max bought before).
Proof.
  cbn zeta. match goal with |- ?A /\ _ => assert (Hb : A) end.
  { induction Hat as [s|s s1 s2 s3 cost g outcome Hm Hle He Hr _ IH|
      s s2 s3 msg' outcome Hid Hr _ IH].
    - lia.
    - eapply approval_covers in Hm as (-> & Hd & Hc); [|exact Hq].
      rewrite (record_keeps_payments (GasPaymentEnforcer_new configs self) _ _ _ _ _ eq_refl Hr)
        in IH.
      apply record_outcome_ok in Hr as (t & Ht & Hg); [|done].
      rewrite Ht, spent_insert, decide_True, Hg in IH by done.
      urange n. urange (outcome_gas_used outcome).
      match type of Hc with _ <= Z.max 0 (?p - ?used) =>
        pose proof (spending_step (uval n) (uval d) p used (uval (enforceable_gas_limit cost))
          (uval (outcome_gas_used outcome)) ltac:(lia) Hd ltac:(apply uval_range) ltac:(lia) He Hc)
      end. lia.
    - rewrite (record_keeps_payments (GasPaymentEnforcer_new configs self) _ _ _ _ _ eq_refl Hr)
        in IH.
      apply record_outcome_ok in Hr as (t & Ht & _); [|done].
      rewrite Ht, spent_insert, decide_False in IH by done. done. }
  split; [done|]. intros Hnd. etransitivity; [exact Hb|]. unfold spending_limit.
  match goal with |- context [(?p + 1) * _ - 1] =>
    assert (((p + 1) * uval d - 1) / uval n <= p) end; [|lia].
  apply Z.lt_succ_r, Z.div_lt_upper_bound; [lia|].
  match goal with |- (uval ?p + 1) * _ - 1 < _ => pose proof (uval_range p) end. nia.
Qed.
End spending.

(** ** The theorems at concrete inputs *)

Module GasPaymentModel.
Import DatabaseModel.

(** Hexadecimal addresses; nothing is base 58. *)
Definition hex_digit (c : Ascii.ascii) : option Z :=
  let n := Z.of_nat (Ascii.nat_of_ascii c) in
  if (48 <=? n) && (n <=? 57) then Some (n - 48)
  else if (97 <=? n) && (n <=? 102) then Some (n - 87) else None.

Fixpoint hex_digits (acc : Z) (s : string) : option Z :=
  match s with
  | EmptyString => Some acc
  | String c s => d ← hex_digit c; hex_digits (16 * acc + d) s
  end.

Definition hex (n : nat) (s : string) : option (uint n) :=
  match s with String _ (String _ s) => uwrap n <$> hex_digits 0 s | _ => None end.

#[export] Instance parsers : AddressParsers := {
  H256_from_str := hex 32;
  H160_from_str := hex 20;
  bs58_decode _ := None
}.

(** Decimals that are integers. *)
#[export] Instance integers : BigDecimal := {
  decimal := Z;
  decimal_of_u256 x := Some (uval x);
  decimal_mul := Z.mul;
  decimal_to_u256 := exactly 32
}.

(** Every message to domain 10 whose sender ends in 05. *)
Definition rules : list rule_value :=
  [MkRuleValue (Some (ValueStr "*")) (Some (ValueStr "0x0000000000000000000000000000000000000005"))
     (Some (ValueSeq [Str "7"; Int 10])) None].

(** The estimate plus a tenth for the messages of the rules, anything for the others. *)
Definition configs : list GasPaymentEnforcementConf :=
  [MkGasPaymentEnforcementConf (PolicyOnChainFeeQuoting (uwrap 8 11) (uwrap 8 10))
     (default None (visit_list (Some rules)));
   MkGasPaymentEnforcementConf PolicyNone None].

Definition cost : TxCostEstimate :=
  MkTxCostEstimate (uwrap 32 120) (MkFixedPointNumber (2 : @decimal integers)) (Some (uwrap 32 100)).
Definition tx_outcome : TxOutcome :=
  MkTxOutcome (uwrap 64 1) true (uwrap 32 90) (MkFixedPointNumber (2 : @decimal integers)).
End GasPaymentModel.

Section witnesses.
Import DatabaseModel GasPaymentModel.
#[local] Existing Instance keccak_concrete.
#[local] Existing Instances U256Model.ops U256Model.laws.

Definition gas_paid_db : rocks :=
  fst (store_payments origin
    [(MkInterchainGasPayment (Message.id (message 4)) (uwrap 4 10) (MkU256 (uwrap 32 7))
        (MkU256 (uwrap 32 200)), log 0)] ∅).

Lemma matching_list_spec_witness :
  msg_matches (default None (visit_list (Some rules))) (message 4) false = true.
Proof.
  destruct (visit_list (Some rules)) as [l|] eqn:Hv; [|vm_compute in Hv; discriminate Hv].
  destruct (matching_list_spec (Some rules) l (message 4) false Hv) as (_ & _ & Hr).
  destruct (Hr rules eq_refl ltac:(discriminate)) as [Hm _]. apply Hm.
  destruct (visit_rule (MkRuleValue (Some (ValueStr "*"))
    (Some (ValueStr "0x0000000000000000000000000000000000000005"))
    (Some (ValueSeq [Str "7"; Int 10])) None)) as [rule|] eqn:Hrule;
    [|vm_compute in Hrule; discriminate Hrule].
  eexists _, rule. split_and!; [left|exact Hrule|..];
    vm_compute in Hrule; injection Hrule as <-; apply filter_matches_ok; vm_compute; reflexivity.
Defined.

Lemma decides_first : decides configs (message 4) (hd (MkGasPaymentEnforcementConf PolicyNone None) configs).
Proof. exists [], (tail configs). split_and!; [done|vm_compute; reflexivity|done]. Qed.

Lemma gas_payment_enforced_witness :
  exists cfg, decides configs (message 4) cfg /\
    approved_in origin (rocks_contents gas_paid_db) (conf_policy cfg) (message 4) cost 200.
Proof.
  destruct (message_meets_gas_payment_requirement (GasPaymentEnforcer_new configs origin)
    (message 4) cost gas_paid_db) as [s' r] eqn:Hr.
  assert (Ho : r = Ok (Some (uwrap 32 200))) by (apply (f_equal snd) in Hr; cbn [snd] in Hr;
    subst r; vm_compute; reflexivity). subst r.
  destruct (gas_payment_enforced origin configs (message 4) cost gas_paid_db s' _ Hr
    ltac:(intros e; discriminate)) as (_ & Hg & _).
  apply (Hg (uwrap 32 200)). reflexivity.
Defined.

Lemma gas_spending_bounded_witness :
  exists s', attempts origin configs (message 4) (uwrap 8 11) (uwrap 8 10) gas_paid_db s' /\
    uval (u256 (ged_gas_used (spent origin (rocks_contents s') (Message.id (message 4))))) <= 200.
Proof.
  destruct (message_meets_gas_payment_requirement (GasPaymentEnforcer_new configs origin)
    (message 4) cost gas_paid_db) as [s1 r] eqn:Hr.
  assert (Ho : r = Ok (Some (uwrap 32 200))) by (apply (f_equal snd) in Hr; cbn [snd] in Hr;
    subst r; vm_compute; reflexivity). subst r.
  assert (s1 = gas_paid_db) as -> by by apply meets_spec in Hr as [[e [=]]|[-> _]].
  destruct (record_tx_outcome (GasPaymentEnforcer_new configs origin) (message 4) tx_outcome
    gas_paid_db) as [s2 r] eqn:Ht.
  assert (Ho : r = Ok tt) by (apply (f_equal snd) in Ht; cbn [snd] in Ht;
    subst r; vm_compute; reflexivity). subst r.
  assert (Hat : attempts origin configs (message 4) (uwrap 8 11) (uwrap 8 10) gas_paid_db s2).
  { eapply attempts_one; [exact Hr| | |exact Ht|apply attempts_none].
    - vm_compute. discriminate.
    - right. vm_compute. discriminate. }
  exists s2. split; [exact Hat|].
  destruct (gas_spending_bounded origin configs (message 4) gas_paid_db s2 (uwrap 8 11)
    (uwrap 8 10)) as [_ Hb]; [|exact Hat|].
  - intros cfg Hcfg. by rewrite (decides_unique _ _ _ _ Hcfg decides_first).
  - etransitivity; [apply Hb; vm_compute; split; [reflexivity|discriminate]|].
    vm_compute. discriminate.
Defined.
End witnesses.
