(* ===== verification/PendingOperation.v ===== *)
(** * Pending operations ([agents/relayer/src/msg/pending_operation.rs])

    What the submitter runs: the trait [PendingOperation] as a class, the results of its
    methods. A method works on the operation and on the environment it shares with the rest of
    the agent; it may panic. *)

From S2P Require Import Prelude.
From S2P Require Import Database.
From S2P Require Import GasPayment.
From stdpp Require Import base list.
From Stdlib Require Import ZArith.

#[local] Open Scope Z_scope.

(** [std::time]: an instant is a number of nanoseconds, and so is a duration. *)
Definition Instant : Type := Z.
Definition Duration : Type := Z.
Definition from_secs (secs : Z) : Duration := secs * 10 ^ 9.

Inductive PendingOperationResult `{RocksDB} :=
  | Success
  | NotReady
  | Reprepare
  | Drop
  | CriticalFailure (e : Report).

(** A method: [Err] is not used. *)
Definition method (S A : Type) : Type := eff S Empty_set A.

Class PendingOperation `{RocksDB} := {
  operation : Type;
  environment : Type;
  prepare : method (environment * operation) PendingOperationResult;
  submit : method (environment * operation) PendingOperationResult;
  confirm : method (environment * operation) PendingOperationResult;
  (** [Ord::cmp] *)
  cmp : operation -> operation -> comparison
}.

(** What a method does when it returns. *)
Definition ensures {S A} (m : method S A) (s : S) (Q : S -> A -> Prop) : Prop :=
  forall s' a, m s = (s', Ok a) -> Q s' a.

(** What the submitter relies on: an operation goes through its stages in order. [identity] is
    what does not change; an operation waits to be prepared when it is [fresh], to be submitted
    when it is [prepared], to be confirmed when it is [submitted_op]. *)
Class PendingOperationLaws `{PendingOperation} := {
  op_identity : Type;
  identity : operation -> op_identity;
  fresh_op : operation -> Prop;
  prepared_op : operation -> Prop;
  submitted_op : operation -> Prop;
  prepare_law e op :
    fresh_op op ->
    ensures prepare (e, op) (λ '(_, op') r, identity op' = identity op /\
      match r with
      | Success => prepared_op op'
      | NotReady | Reprepare => fresh_op op'
      | Drop | CriticalFailure _ => True
      end);
  submit_law e op :
    prepared_op op ->
    ensures submit (e, op) (λ '(_, op') r, identity op' = identity op /\
      match r with
      | Success => submitted_op op'
      | Reprepare => fresh_op op'
      | NotReady => False
      | Drop | CriticalFailure _ => True
      end);
  confirm_law e op :
    submitted_op op ->
    ensures confirm (e, op) (λ '(_, op') r, identity op' = identity op /\
      match r with
      | NotReady => submitted_op op'
      | Reprepare => fresh_op op'
      | Success | Drop | CriticalFailure _ => True
      end)
}.
