(* ===== verification/PendingMessage.v ===== *)
(** * Pending messages ([agents/relayer/src/msg/pending_message.rs])

    The life of a message in the relayer: [prepare], [submit] and [confirm] with their early
    returns, the retry counter and its backoff. The clients of the destination chain are the
    class [Destination], whose calls may change the chain and fail; [Instant::now] is one of
    them. Metrics and logs are left out. *)

From S2P Require Import Prelude.
From S2P Require Import Codec.
From S2P Require Import Keccak.
From S2P Require Import U256.
From S2P Require Import Message.
From S2P Require Import Chain.
From S2P Require Import Database.
From S2P Require Import MatchingList.
From S2P Require Import GasPayment.
From S2P Require Import PendingOperation.
From stdpp Require Import base gmap list numbers strings.
From Stdlib Require Import ZArith Lia.

#[local] Open Scope Z_scope.

(** [Duration::from_secs(60 * 10)], without the features of tests *)
Definition CONFIRM_DELAY : Duration := from_secs (60 * 10).

(** [PendingMessage::calculate_msg_backoff] *)
Definition calculate_msg_backoff (num_retries : u32) : option Duration :=
  let i := uval num_retries in
  if i <? 1 then None
  else Some (from_secs (
    if i <? 12 then 10
    else if i <? 24 then (i - 11) * 90
    else if i <? 36 then 60 * 30
    else if i <? 48 then 60 * 60
    else 60 * 60 * 3)).

(** The clients of a destination chain, and the builder of metadata. *)
Class Destination `{BigDecimal} := {
  chain : Type;
  chain_error : Type;
  metadata_builder : Type;
  instant_now : chain -> chain * Instant;
  (** [Mailbox::delivered], [HyperlaneProvider::is_contract], [Mailbox::recipient_ism] *)
  delivered : H256 -> eff chain chain_error bool;
  is_contract : H256 -> eff chain chain_error bool;
  recipient_ism : H256 -> eff chain chain_error H256;
  (** [MessageMetadataBuilder::new] and [build] *)
  MessageMetadataBuilder_new : H256 -> HyperlaneMessage -> eff chain chain_error metadata_builder;
  build : metadata_builder -> H256 -> HyperlaneMessage -> eff chain chain_error (option bytes);
  (** [Mailbox::process_estimate_costs], [Mailbox::process] *)
  process_estimate_costs : HyperlaneMessage -> bytes -> eff chain chain_error TxCostEstimate;
  process : HyperlaneMessage -> bytes -> option U256 -> eff chain chain_error TxOutcome
}.

Section pending_message.
Context `{RocksDB, BigDecimal, U256Ops, Keccak256, !Destination}.

(** The database of the agent and the destination. *)
Record Env := MkEnv { env_db : rocks; env_chain : chain }.

(** [MessageContext], less the clients of the destination. *)
Record MessageContext := MkMessageContext {
  origin_db : Domain.HyperlaneDomain;
  origin_gas_payment_enforcer : GasPaymentEnforcer;
  transaction_gas_limit : option U256
}.

Record SubmissionData := MkSubmissionData {
  data_metadata : bytes;
  data_gas_limit : U256
}.

Record PendingMessage := MkPendingMessage {
  message : HyperlaneMessage;
  ctx : MessageContext;
  submitted : bool;
  submission_data : option SubmissionData;
  num_retries : u32;
  last_attempted_at : Instant;
  next_attempt_after : option Instant
}.

(** [PartialEq for PendingMessage] *)
Definition pending_eq (self other : PendingMessage) : bool :=
  bool_decide (num_retries self = num_retries other)
  && bool_decide (nonce (message self) = nonce (message other))
  && bool_decide (origin (message self) = origin (message other)).

Definition compare_uint {n} (a b : uint n) : comparison := uval a ?= uval b.

(** [Ord for DynPendingOperation] *)
Definition pending_cmp (self other : PendingMessage) : comparison :=
  match next_attempt_after self, next_attempt_after other with
  | Some a, Some b => a ?= b
  | None, Some _ => Lt
  | Some _, None => Gt
  | None, None =>
      if bool_decide (origin (message self) = origin (message other)) then
        compare_uint (nonce (message self)) (nonce (message other))
      else compare_uint (Message.id (message self)) (Message.id (message other))
  end.

(** ** Methods

    The body of a method works on the environment and on [self]; [Err] is an early return. *)

Definition body (A : Type) : Type := eff (Env * PendingMessage) PendingOperationResult A.

Definition self : body PendingMessage := λ '(e, pm), (e, pm, Ok pm).
Definition update (f : PendingMessage -> PendingMessage) : body unit :=
  λ '(e, pm), (e, f pm, Ok tt).
Definition early {A} (r : PendingOperationResult) : body A := eff_lift (Err r).

(** A call of the chain and a call of the database: their errors are values. *)
Definition on_chain {A} (m : eff chain chain_error A) : body (chain_error + A) := λ '(e, pm),
  let '(c, r) := eff_try (E' := PendingOperationResult) m (env_chain e) in
  (MkEnv (env_db e) c, pm, r).
Definition on_db {E A} (m : eff rocks E A) : body (E + A) := λ '(e, pm),
  let '(d, r) := eff_try (E' := PendingOperationResult) m (env_db e) in
  (MkEnv d (env_chain e), pm, r).
Definition now : body Instant := λ '(e, pm),
  let '(c, t) := instant_now (env_chain e) in (MkEnv (env_db e) c, pm, Ok t).

(** [op_try!]: on an error, [on_retry] runs and its result is returned. *)
Definition op_try {E A} (on_retry : body PendingOperationResult) (m : body (E + A)) : body A :=
  r ← m;
  match r with
  | inr a => mret a
  | inl _ => r ← on_retry; early r
  end.

(** [op_try!(critical: ..)] *)
Definition op_try_critical {A} (m : body (Report + A)) : body A :=
  r ← m;
  match r with
  | inr a => mret a
  | inl e => early (CriticalFailure e)
  end.

(** The method of a body. *)
Definition returning (m : body PendingOperationResult) :
    method (Env * PendingMessage) PendingOperationResult := λ s,
  match m s with
  | (s', Ok r) | (s', Err r) => (s', Ok r)
  | (s', Panic) => (s', Panic)
  end.

Definition set_submitted (b : bool) (pm : PendingMessage) : PendingMessage :=
  MkPendingMessage (message pm) (ctx pm) b (submission_data pm) (num_retries pm)
    (last_attempted_at pm) (next_attempt_after pm).
Definition set_submission_data (d : option SubmissionData) (pm : PendingMessage) :
    PendingMessage :=
  MkPendingMessage (message pm) (ctx pm) (submitted pm) d (num_retries pm)
    (last_attempted_at pm) (next_attempt_after pm).
Definition set_num_retries (n : u32) (pm : PendingMessage) : PendingMessage :=
  MkPendingMessage (message pm) (ctx pm) (submitted pm) (submission_data pm) n
    (last_attempted_at pm) (next_attempt_after pm).
Definition set_last_attempted_at (t : Instant) (pm : PendingMessage) : PendingMessage :=
  MkPendingMessage (message pm) (ctx pm) (submitted pm) (submission_data pm) (num_retries pm)
    t (next_attempt_after pm).
Definition set_next_attempt_after (t : option Instant) (pm : PendingMessage) : PendingMessage :=
  MkPendingMessage (message pm) (ctx pm) (submitted pm) (submission_data pm) (num_retries pm)
    (last_attempted_at pm) t.

(** [PendingMessage::persist_retries]: a failure is only logged. *)
Definition persist_retries : body unit :=
  pm ← self;
  on_db (HyperlaneDB.store_pending_message_retry_count_by_message_id (origin_db (ctx pm))
    (Message.id (message pm)) (num_retries pm));;
  mret tt.

(** [PendingMessage::set_retries] *)
Definition set_retries (retries : u32) : body unit :=
  update (set_num_retries retries);;
  persist_retries.

(** [PendingMessage::inc_attempts] *)
Definition inc_attempts : body unit :=
  pm ← self;
  set_retries (uwrap 4 (num_retries pm + 1));;
  t ← now;
  update (set_last_attempted_at t);;
  pm ← self;
  update (set_next_attempt_after
    ((λ dur, last_attempted_at pm + dur) <$> calculate_msg_backoff (num_retries pm))).

(** [PendingMessage::reset_attempts] *)
Definition reset_attempts : body unit :=
  set_retries (uwrap 4 0);;
  update (set_next_attempt_after None);;
  t ← now;
  update (set_last_attempted_at t).

(** [PendingMessage::on_reprepare] *)
Definition on_reprepare : body PendingOperationResult :=
  inc_attempts;;
  update (set_submitted false);;
  mret Reprepare.

(** [PendingMessage::is_ready] *)
Definition is_ready : body bool :=
  pm ← self;
  match next_attempt_after pm with
  | Some a => t ← now; mret (a <=? t)
  | None => mret true
  end.

(** [PendingMessage::record_message_process_success], less the metrics *)
Definition record_message_process_success : body (Report + unit) :=
  pm ← self;
  on_db (report_db (HyperlaneDB.store_processed_by_nonce (origin_db (ctx pm))
    (nonce (message pm)) true)).

(** [PendingMessage::prepare] *)
Definition prepare_body : body PendingOperationResult :=
  ready ← is_ready;
  if negb ready then mret NotReady
  else
    pm ← self;
    let msg := message pm in
    is_already_delivered ← op_try on_reprepare (on_chain (delivered (Message.id msg)));
    if is_already_delivered : bool then
      update (set_submitted true);;
      t ← now;
      update (set_next_attempt_after (Some (t + CONFIRM_DELAY)));;
      mret Success
    else
      contract ← op_try on_reprepare (on_chain (is_contract (recipient msg)));
      if negb contract then mret Drop
      else
        ism_address ← op_try on_reprepare (on_chain (recipient_ism (recipient msg)));
        message_metadata_builder ← op_try on_reprepare
          (on_chain (MessageMetadataBuilder_new ism_address msg));
        metadata ← op_try on_reprepare
          (on_chain (build message_metadata_builder ism_address msg));
        match metadata with
        | None => on_reprepare
        | Some metadata =>
            tx_cost_estimate ← op_try on_reprepare (on_chain (process_estimate_costs msg metadata));
            gas_limit ← op_try on_reprepare
              (on_db (message_meets_gas_payment_requirement
                (origin_gas_payment_enforcer (ctx pm)) msg tx_cost_estimate));
            match gas_limit with
            | None => on_reprepare
            | Some _ =>
                let gas_limit := estimate_gas_limit tx_cost_estimate in
                if match transaction_gas_limit (ctx pm) with
                   | Some max_limit => uval max_limit <? uval gas_limit
                   | None => false
                   end
                then on_reprepare
                else
                  update (set_submission_data (Some (MkSubmissionData metadata gas_limit)));;
                  mret Success
            end
        end.

(** [PendingMessage::submit] *)
Definition submit_body : body PendingOperationResult :=
  pm ← self;
  if submitted pm then mret Success
  else
    update (set_submission_data None);;
    state ← eff_lift (or_panic (submission_data pm));
    tx_outcome ← op_try on_reprepare
      (on_chain (process (message pm) (data_metadata state) (Some (data_gas_limit state))));
    op_try_critical (on_db (record_tx_outcome (origin_gas_payment_enforcer (ctx pm))
      (message pm) tx_outcome));;
    if executed tx_outcome then
      update (set_submitted true);;
      reset_attempts;;
      t ← now;
      update (set_next_attempt_after (Some (t + CONFIRM_DELAY)));;
      mret Success
    else on_reprepare.

(** [PendingMessage::confirm] *)
Definition confirm_body : body PendingOperationResult :=
  ready ← is_ready;
  if negb ready then mret NotReady
  else
    pm ← self;
    is_delivered ← op_try (inc_attempts;; mret NotReady)
      (on_chain (delivered (Message.id (message pm))));
    if is_delivered : bool then
      op_try_critical record_message_process_success;;
      mret Success
    else
      reset_attempts;;
      on_reprepare.

#[export] Instance PendingMessage_operation : PendingOperation := {
  operation := PendingMessage;
  environment := Env;
  prepare := returning prepare_body;
  submit := returning submit_body;
  confirm := returning confirm_body;
  cmp := pending_cmp
}.

(** [PendingMessage::new] *)
Definition PendingMessage_new (message : HyperlaneMessage) (ctx : MessageContext) (now : Instant) :
    PendingMessage :=
  MkPendingMessage message ctx false None (uwrap 4 0) now None.

(** [PendingMessage::from_persisted_retries] *)
Definition from_persisted_retries (message : HyperlaneMessage) (ctx : MessageContext) :
    eff Env Empty_set PendingMessage := λ e,
  let '(c, t) := instant_now (env_chain e) in
  let pm := PendingMessage_new message ctx t in
  match HyperlaneDB.retrieve_pending_message_retry_count_by_message_id (origin_db ctx)
          (Message.id message) (env_db e) with
  | (d, Ok (Some retries)) =>
      match calculate_msg_backoff retries with
      | None => (MkEnv d c, Ok (set_next_attempt_after None (set_num_retries retries pm)))
      | Some dur =>
          let '(c, t) := instant_now c in
          (MkEnv d c, Ok (set_next_attempt_after (Some (t + dur)) (set_num_retries retries pm)))
      end
  | (d, Panic) => (MkEnv d c, Panic)
  | (d, _) => (MkEnv d c, Ok pm)
  end.
End pending_message.
