(* ===== verification/PendingMessageCorrect.v ===== *)
(** * The life of a pending message

    A small logic for the bodies of the methods, [triple], over the operation alone: the
    environment may answer anything. With it, that [PendingMessage] keeps what the submitter
    relies on. *)

From S2P Require Import Prelude.
From S2P Require Import Codec.
From S2P Require Import Keccak.
From S2P Require Import U256.
From S2P Require Import Message.
From S2P Require Import Chain.
From S2P Require Import Database.
From S2P Require Import DatabaseCorrect.
From S2P Require Import GasPayment.
From S2P Require Import PendingOperation.
From S2P Require Import PendingMessage.
From stdpp Require Import base gmap list numbers strings.
From Stdlib Require Import ZArith Lia.

#[local] Open Scope Z_scope.

Section logic.
Context `{RocksDB, BigDecimal, U256Ops, Keccak256, !Destination}.
Implicit Types pm : PendingMessage.

(** From an operation in [P], the body ends with [Q], or returns early with [R]; a panic ends
    the task. *)
Definition triple {A} (P : PendingMessage -> Prop) (m : body A)
    (Q : A -> PendingMessage -> Prop) (R : PendingOperationResult -> PendingMessage -> Prop) :
    Prop :=
  forall e pm, P pm ->
  match m (e, pm) with
  | (_, pm', Ok a) => Q a pm'
  | (_, pm', Err r) => R r pm'
  | (_, _, Panic) => True
  end.

Lemma triple_bind {A B} P (m : body A) (f : A -> body B) Q' Q R :
  triple P m Q' R -> (forall a, triple (Q' a) (f a) Q R) -> triple P (m ≫= f) Q R.
Proof.
  intros Hm Hf e pm HP. specialize (Hm e pm HP). unfold mbind, eff_bind.
  destruct (m (e, pm)) as [[e' pm'] [a|r|]]; [by apply Hf|done|done].
Qed.

Lemma triple_ret {A} P (a : A) (Q : A -> PendingMessage -> Prop) R :
  (forall pm, P pm -> Q a pm) -> triple P (mret a) Q R.
Proof. intros HQ e pm HP. by apply HQ. Qed.

Lemma triple_early {A} P r (Q : A -> PendingMessage -> Prop) R :
  (forall pm, P pm -> R r pm) -> triple P (early r) Q R.
Proof. intros HR e pm HP. by apply HR. Qed.

Lemma triple_self P Q R :
  (forall pm, P pm -> Q pm pm) -> triple P self Q R.
Proof. intros HQ e pm HP. by apply HQ. Qed.

Lemma triple_self_bind {A} P (f : PendingMessage -> body A) Q R :
  (forall pm, P pm -> triple (eq pm) (f pm) Q R) -> triple P (self ≫= f) Q R.
Proof. intros Hf e pm HP. by apply (Hf pm HP). Qed.

Lemma triple_pure {A} (phi : Prop) P (m : body A) Q R :
  (phi -> triple P m Q R) -> triple (λ pm, phi /\ P pm) m Q R.
Proof. intros Hm e pm [Hphi HP]. by apply Hm. Qed.

Lemma triple_update P f Q R :
  (forall pm, P pm -> Q tt (f pm)) -> triple P (update f) Q R.
Proof. intros HQ e pm HP. by apply HQ. Qed.

Lemma triple_now P Q R : (forall t pm, P pm -> Q t pm) -> triple P now Q R.
Proof. intros HQ e pm HP. unfold now. destruct (instant_now _). by apply HQ. Qed.

Lemma triple_on_chain {A} P (m : eff chain chain_error A) Q R :
  (forall a pm, P pm -> Q a pm) -> triple P (on_chain m) Q R.
Proof.
  intros HQ e pm HP. unfold on_chain, eff_try. destruct (m _) as [c [a|err|]]; auto.
Qed.

Lemma triple_on_db {E A} P (m : eff rocks E A) Q R :
  (forall a pm, P pm -> Q a pm) -> triple P (on_db m) Q R.
Proof.
  intros HQ e pm HP. unfold on_db, eff_try. destruct (m _) as [c [a|err|]]; auto.
Qed.

Lemma triple_lift {A} P (m : outcome PendingOperationResult A) Q R :
  (forall a pm, m = Ok a -> P pm -> Q a pm) -> (forall r pm, m = Err r -> P pm -> R r pm) ->
  triple P (eff_lift m) Q R.
Proof. intros HQ HR e pm HP. unfold eff_lift. destruct m; auto. Qed.

Lemma triple_consequence {A} (P P' : PendingMessage -> Prop) (m : body A) Q Q' R R' :
  triple P m Q R -> (forall pm, P' pm -> P pm) -> (forall a pm, Q a pm -> Q' a pm) ->
  (forall r pm, R r pm -> R' r pm) -> triple P' m Q' R'.
Proof.
  intros Hm HP HQ HR e pm HP'. specialize (Hm e pm (HP _ HP')).
  destruct (m (e, pm)) as [[e' pm'] [a|r|]]; auto.
Qed.

(** A call that may fail: on success the operation is as it was, otherwise [on_retry] decides. *)
Lemma triple_op_try {E A} P (on_retry : body PendingOperationResult) (m : body (E + A)) Q R :
  triple P m (λ r pm, match r with inr a => Q a pm | inl _ => P pm end) R ->
  triple P on_retry R R -> triple P (op_try on_retry m) Q R.
Proof.
  intros Hm Hr. eapply triple_bind; [exact Hm|]. intros [err|a].
  - eapply triple_bind; [exact Hr|]. intros r. by apply triple_early.
  - by apply triple_ret.
Qed.

Lemma triple_op_try_critical {A} P (m : body (Report + A)) Q R :
  triple P m (λ r pm, match r with inr a => Q a pm | inl e => R (CriticalFailure e) pm end) R ->
  triple P (op_try_critical m) Q R.
Proof.
  intros Hm. eapply triple_bind; [exact Hm|]. intros [err|a]; [by apply triple_early|].
  by apply triple_ret.
Qed.

(** What a body with this triple does as a method. *)
Lemma triple_returning P m (Q : PendingOperationResult -> PendingMessage -> Prop) e pm :
  triple P m Q Q -> P pm -> ensures (returning m) (e, pm) (λ '(_, pm') r, Q r pm').
Proof.
  intros Hm HP [e' pm'] r Hr. specialize (Hm e pm HP). unfold returning in Hr.
  destruct (m (e, pm)) as [[e1 pm1] [a|r1|]]; by simplify_eq.
Qed.

(** ** The stages *)

Definition pending_identity (pm : PendingMessage) : HyperlaneMessage * MessageContext :=
  (message pm, ctx pm).

Definition pending_fresh (pm : PendingMessage) : Prop :=
  submitted pm = false /\ submission_data pm = None.
Definition pending_prepared (pm : PendingMessage) : Prop :=
  if submitted pm then submission_data pm = None else is_Some (submission_data pm).
Definition pending_submitted (pm : PendingMessage) : Prop :=
  submitted pm = true /\ submission_data pm = None.

(** The fields that the counters and times leave alone. *)
Definition same_stage (i : HyperlaneMessage * MessageContext) (b : bool)
    (d : option SubmissionData) (pm : PendingMessage) : Prop :=
  pending_identity pm = i /\ submitted pm = b /\ submission_data pm = d.

Definition keeps {A} (m : body A) : Prop :=
  forall i b d R, triple (same_stage i b d) m (λ _, same_stage i b d) R.

Lemma keeps_bind {A B} (m : body A) (f : A -> body B) :
  keeps m -> (forall a, keeps (f a)) -> keeps (m ≫= f).
Proof. intros Hm Hf i b d R. eapply triple_bind; [apply Hm|]. intros a. apply Hf. Qed.

Lemma keeps_update f :
  (forall pm, pending_identity (f pm) = pending_identity pm /\ submitted (f pm) = submitted pm /\
     submission_data (f pm) = submission_data pm) -> keeps (update f).
Proof.
  intros Hf i b d R. apply triple_update. intros pm (Hi & Hb & Hd).
  destruct (Hf pm) as (Hi' & Hb' & Hd'). unfold same_stage. by rewrite Hi', Hb', Hd'.
Qed.

Lemma keeps_self : keeps self.
Proof. intros i b d R. by apply triple_self. Qed.
Lemma keeps_ret {A} (a : A) : keeps (mret a).
Proof. intros i b d R. by apply triple_ret. Qed.
Lemma keeps_now : keeps now.
Proof. intros i b d R. by apply triple_now. Qed.
Lemma keeps_on_chain {A} (m : eff chain chain_error A) : keeps (on_chain m).
Proof. intros i b d R. by apply triple_on_chain. Qed.
Lemma keeps_on_db {E A} (m : eff rocks E A) : keeps (on_db m).
Proof. intros i b d R. by apply triple_on_db. Qed.
End logic.

Ltac keeping :=
  repeat first
    [ apply keeps_ret | apply keeps_self | apply keeps_now | apply keeps_on_chain
    | apply keeps_on_db | (apply keeps_update; by intros []) | apply keeps_bind; intros
    | case_match ].

Section stages.
Context `{RocksDB, BigDecimal, U256Ops, Keccak256, !Destination}.
Implicit Types pm : PendingMessage.

Lemma set_retries_keeps n : keeps (set_retries n).
Proof. unfold set_retries, persist_retries. keeping. Qed.
Lemma inc_attempts_keeps : keeps inc_attempts.
Proof. unfold inc_attempts, set_retries, persist_retries. keeping. Qed.
Lemma reset_attempts_keeps : keeps reset_attempts.
Proof. unfold reset_attempts, set_retries, persist_retries. keeping. Qed.
Lemma is_ready_keeps : keeps is_ready.
Proof. unfold is_ready. keeping. Qed.
Lemma record_success_keeps : keeps record_message_process_success.
Proof. unfold record_message_process_success. keeping. Qed.

(** Where an operation goes after each result of a method. *)
Definition after_method (i : HyperlaneMessage * MessageContext)
    (success : PendingMessage -> Prop) (not_ready : PendingMessage -> Prop)
    (r : PendingOperationResult) (pm : PendingMessage) : Prop :=
  pending_identity pm = i /\
  match r with
  | Success => success pm
  | NotReady => not_ready pm
  | Reprepare => pending_fresh pm
  | Drop | CriticalFailure _ => True
  end.

Lemma on_reprepare_triple i b success not_ready R :
  triple (same_stage i b None) on_reprepare (after_method i success not_ready) R.
Proof.
  unfold on_reprepare. eapply triple_bind; [apply inc_attempts_keeps|]. intros [].
  eapply triple_bind with (Q' := λ _, same_stage i false None).
  - apply triple_update. by intros pm (Hi & Hb & Hd).
  - intros []. apply triple_ret. intros pm (Hi & Hb & Hd). by split.
Qed.

(** A failed call of the chain or of the database during a method. *)
Lemma try_reprepare {E A} i b success not_ready (m : body (E + A)) :
  keeps m ->
  triple (same_stage i b None) (op_try on_reprepare m) (λ _, same_stage i b None)
    (after_method i success not_ready).
Proof.
  intros Hm. apply triple_op_try; [|apply on_reprepare_triple].
  eapply triple_consequence; [apply (Hm i b None (after_method i success not_ready))|done| |done].
  by intros [].
Qed.

Lemma prepare_triple i :
  triple (same_stage i false None) prepare_body
    (after_method i pending_prepared pending_fresh)
    (after_method i pending_prepared pending_fresh).
Proof.
  unfold prepare_body. eapply triple_bind; [apply is_ready_keeps|]. intros [|]; cbn [negb].
  2:{ apply triple_ret. intros pm (Hi & Hb & Hd). by split. }
  eapply triple_bind; [apply keeps_self|]. intros pm0.
  eapply triple_bind; [apply try_reprepare, keeps_on_chain|]. intros [|].
  - eapply triple_bind with (Q' := λ _, same_stage i true None).
    { apply triple_update. by intros pm (Hi & Hb & Hd). }
    intros []. eapply triple_bind; [apply keeps_now|]. intros t.
    eapply triple_bind with (Q' := λ _, same_stage i true None); [apply keeps_update; by intros []|].
    intros []. apply triple_ret. intros pm (Hi & Hb & Hd). split; [done|].
    unfold pending_prepared. by rewrite Hb.
  - eapply triple_bind; [apply try_reprepare, keeps_on_chain|]. intros [|]; cbn [negb].
    2:{ apply triple_ret. intros pm (Hi & _). by split. }
    do 3 (eapply triple_bind; [apply try_reprepare, keeps_on_chain|]; intros ?).
    case_match; [|apply on_reprepare_triple].
    eapply triple_bind; [apply try_reprepare, keeps_on_chain|]. intros cost.
    eapply triple_bind; [apply try_reprepare, keeps_on_db|]. intros [g|];
      [|apply on_reprepare_triple].
    destruct (match transaction_gas_limit (ctx pm0) with Some _ => _ | None => _ end);
      [apply on_reprepare_triple|].
    eapply triple_bind with (Q' := λ _, after_method i pending_prepared pending_fresh Success).
    + apply triple_update. intros pm (Hi & Hb & Hd). split; [done|].
      unfold pending_prepared. cbn. rewrite Hb. eauto.
    + intros []. by apply triple_ret.
Qed.

(** The rest of [submit], once the prepared data is taken. *)
Lemma submit_taken i pm0 st :
  triple (same_stage i false None)
    (tx_outcome ← op_try on_reprepare
       (on_chain (process (message pm0) (data_metadata st) (Some (data_gas_limit st))));
     op_try_critical (on_db (record_tx_outcome (origin_gas_payment_enforcer (ctx pm0))
       (message pm0) tx_outcome));;
     if executed tx_outcome then
       update (set_submitted true);;
       reset_attempts;;
       t ← now;
       update (set_next_attempt_after (Some (t + CONFIRM_DELAY)));;
       mret Success
     else on_reprepare)
    (after_method i pending_submitted (λ _, False))
    (after_method i pending_submitted (λ _, False)).
Proof.
  eapply triple_bind; [apply try_reprepare, keeps_on_chain|]. intros o.
  eapply triple_bind with (Q' := λ _, same_stage i false None).
  { apply triple_op_try_critical.
    eapply triple_consequence; [apply (keeps_on_db _ i false None (λ _ _, False))|done| |done].
    intros [e|] pm Hs; [|done]. split; [by destruct Hs|done]. }
  intros []. destruct (executed o); [|apply on_reprepare_triple].
  eapply triple_bind with (Q' := λ _, same_stage i true None).
  { apply triple_update. by intros pm (Hi & Hb & Hd). }
  intros []. eapply triple_bind; [apply reset_attempts_keeps|]. intros [].
  eapply triple_bind; [apply keeps_now|]. intros t.
  eapply triple_bind with (Q' := λ _, same_stage i true None); [apply keeps_update; by intros []|].
  intros []. apply triple_ret. by intros pm (Hi & Hb & Hd).
Qed.

Lemma submit_triple i :
  triple (λ pm, pending_identity pm = i /\ pending_prepared pm) submit_body
    (after_method i pending_submitted (λ _, False))
    (after_method i pending_submitted (λ _, False)).
Proof.
  apply triple_self_bind. intros pm0 [Hi Hp]. unfold pending_prepared in Hp.
  destruct (submitted pm0) eqn:Hb.
  { apply triple_ret. intros pm <-. by split. }
  destruct Hp as [st Hst]. rewrite Hst. cbn [or_panic].
  eapply triple_bind with (Q' := λ _, same_stage i false None).
  { apply triple_update. intros pm <-. by split. }
  intros []. eapply triple_bind with (Q' := λ st' pm, st' = st /\ same_stage i false None pm).
  { apply triple_lift; [|done]. intros st' pm [= <-] Hs. by split. }
  intros st'. apply triple_pure. intros ->. apply submit_taken.
Qed.

Lemma confirm_triple i :
  triple (same_stage i true None) confirm_body
    (after_method i (λ _, True) pending_submitted)
    (after_method i (λ _, True) pending_submitted).
Proof.
  unfold confirm_body. eapply triple_bind; [apply is_ready_keeps|]. intros [|]; cbn [negb].
  2:{ apply triple_ret. by intros pm (Hi & Hb & Hd). }
  eapply triple_bind; [apply keeps_self|]. intros pm0.
  eapply triple_bind with (Q' := λ _, same_stage i true None).
  { apply triple_op_try.
    - eapply triple_consequence; [apply (keeps_on_chain _ i true None
        (after_method i (λ _, True) pending_submitted))|done| |done]. by intros [].
    - eapply triple_bind; [apply inc_attempts_keeps|]. intros [].
      apply triple_ret. by intros pm (Hi & Hb & Hd). }
  intros [|].
  - eapply triple_bind with (Q' := λ _, same_stage i true None).
    { apply triple_op_try_critical.
      eapply triple_consequence; [apply (record_success_keeps i true None (λ _ _, False))|done| |done].
      intros [e|] pm Hs; [|done]. split; [by destruct Hs|done]. }
    intros []. apply triple_ret. intros pm (Hi & _). by split.
  - eapply triple_bind; [apply reset_attempts_keeps|]. intros []. apply on_reprepare_triple.
Qed.

#[export] Instance PendingMessage_laws : PendingOperationLaws.
Proof.
  refine {| op_identity := HyperlaneMessage * MessageContext; identity := pending_identity;
    fresh_op := pending_fresh; prepared_op := pending_prepared;
    submitted_op := pending_submitted |}.
  - intros e pm [Hb Hd] [e' pm'] r Hr.
    apply (triple_returning _ _ _ e pm (prepare_triple (pending_identity pm))) in Hr; [|done].
    exact Hr.
  - intros e pm Hp [e' pm'] r Hr.
    apply (triple_returning _ _ _ e pm (submit_triple (pending_identity pm))) in Hr; [|done].
    exact Hr.
  - intros e pm [Hb Hd] [e' pm'] r Hr.
    apply (triple_returning _ _ _ e pm (confirm_triple (pending_identity pm))) in Hr; [|done].
    exact Hr.
Defined.
End stages.
