(* ===== verification/SerialSubmitter.v ===== *)
(** * The serial submitter ([agents/relayer/src/msg/serial_submitter.rs])

    The four tasks of [SerialSubmitter::run] over an unbounded channel, two queues and a channel
    of one slot, as a step relation: a step is what a task does between two points at which it
    may wait, so the tasks interleave in every way. A call of a method is one step. Metrics are
    left out, and so are the delays between the rounds of a task. *)

From S2P Require Import Prelude.
From S2P Require Import Database.
From S2P Require Import GasPayment.
From S2P Require Import PendingOperation.
From stdpp Require Import base list.
From Stdlib Require Import ZArith Lia.

Section submitter.
Context `{PendingOperation}.

(** What a task is at: nothing, an operation it works on, one it waits to send; or it has
    ended, with an error or a panic. *)
Inductive task := Idle | Working (op : operation) | Sending (op : operation) | Stopped.

Record Submitter := MkSubmitter {
  env : environment;
  (** the channel [rx], and whether a sender is left *)
  rx : list operation;
  rx_open : bool;
  receiving : bool;
  prepare_queue : list operation;
  preparing : task;
  (** the channel of one slot between the tasks *)
  slot : option operation;
  submitting : task;
  confirm_queue : list operation;
  confirming : task
}.

(** Why an operation leaves the submitter. *)
Inductive ending :=
  | Confirmed
  | Dropped
  | Failed
  | Panicked  (** a method panics *)
  | PanickedNotReady  (** "Pending operation was prepared and therefore must be ready" *)
  | ChannelClosed.

Inductive event := Received (op : operation) | Ended (op : operation) (why : ending).

(** [Submitter::run] at its start *)
Definition initial (e : environment) : Submitter :=
  MkSubmitter e [] true true [] Idle None Idle [] Idle.

(** ** The queues: [BinaryHeap<Reverse<..>>]

    [pop] takes a least operation, as long as [cmp] is an order on the queue; if it is not,
    which one is taken is not specified. *)

Definition consistent (q : list operation) : Prop :=
  (forall x y, x ∈ q -> y ∈ q -> cmp y x = CompOpp (cmp x y)) /\
  forall x y z, x ∈ q -> y ∈ q -> z ∈ q -> cmp x y <> Gt -> cmp y z <> Gt -> cmp x z <> Gt.

Definition pops (q : list operation) (op : operation) (q' : list operation) : Prop :=
  q ≡ₚ op :: q' /\ (consistent q -> forall y, y ∈ q' -> cmp op y <> Gt).

(** ** The tasks, after a call of a method that took [op0] to [op] *)

Definition set_env (e : environment) (s : Submitter) : Submitter :=
  MkSubmitter e (rx s) (rx_open s) (receiving s) (prepare_queue s) (preparing s) (slot s)
    (submitting s) (confirm_queue s) (confirming s).
Definition set_rx (l : list operation) (s : Submitter) : Submitter :=
  MkSubmitter (env s) l (rx_open s) (receiving s) (prepare_queue s) (preparing s) (slot s)
    (submitting s) (confirm_queue s) (confirming s).
Definition set_rx_open (b : bool) (s : Submitter) : Submitter :=
  MkSubmitter (env s) (rx s) b (receiving s) (prepare_queue s) (preparing s) (slot s)
    (submitting s) (confirm_queue s) (confirming s).
Definition set_receiving (b : bool) (s : Submitter) : Submitter :=
  MkSubmitter (env s) (rx s) (rx_open s) b (prepare_queue s) (preparing s) (slot s)
    (submitting s) (confirm_queue s) (confirming s).
Definition set_prepare_queue (q : list operation) (s : Submitter) : Submitter :=
  MkSubmitter (env s) (rx s) (rx_open s) (receiving s) q (preparing s) (slot s)
    (submitting s) (confirm_queue s) (confirming s).
Definition set_preparing (t : task) (s : Submitter) : Submitter :=
  MkSubmitter (env s) (rx s) (rx_open s) (receiving s) (prepare_queue s) t (slot s)
    (submitting s) (confirm_queue s) (confirming s).
Definition set_slot (o : option operation) (s : Submitter) : Submitter :=
  MkSubmitter (env s) (rx s) (rx_open s) (receiving s) (prepare_queue s) (preparing s) o
    (submitting s) (confirm_queue s) (confirming s).
Definition set_submitting (t : task) (s : Submitter) : Submitter :=
  MkSubmitter (env s) (rx s) (rx_open s) (receiving s) (prepare_queue s) (preparing s) (slot s)
    t (confirm_queue s) (confirming s).
Definition set_confirm_queue (q : list operation) (s : Submitter) : Submitter :=
  MkSubmitter (env s) (rx s) (rx_open s) (receiving s) (prepare_queue s) (preparing s) (slot s)
    (submitting s) q (confirming s).
Definition set_confirming (t : task) (s : Submitter) : Submitter :=
  MkSubmitter (env s) (rx s) (rx_open s) (receiving s) (prepare_queue s) (preparing s) (slot s)
    (submitting s) (confirm_queue s) t.

Definition push_prepare (op : operation) (s : Submitter) : Submitter :=
  set_prepare_queue (op :: prepare_queue s) s.
Definition push_confirm (op : operation) (s : Submitter) : Submitter :=
  set_confirm_queue (op :: confirm_queue s) s.

(** [prepare_task], after [op.prepare()] *)
Definition after_prepare (op0 op : operation) (r : outcome Empty_set PendingOperationResult)
    (s : Submitter) : Submitter * list event :=
  match r with
  | Ok Success => (set_preparing (Sending op) s, [])
  | Ok NotReady | Ok Reprepare => (push_prepare op (set_preparing Idle s), [])
  | Ok Drop => (set_preparing Idle s, [Ended op Dropped])
  | Ok (CriticalFailure _) => (set_preparing Stopped s, [Ended op Failed])
  | _ => (set_preparing Stopped s, [Ended op0 Panicked])
  end.

(** [submit_task], after [op.submit()] *)
Definition after_submit (op0 op : operation) (r : outcome Empty_set PendingOperationResult)
    (s : Submitter) : Submitter * list event :=
  match r with
  | Ok Success => (push_confirm op (set_submitting Idle s), [])
  | Ok NotReady => (set_submitting Stopped s, [Ended op PanickedNotReady])
  | Ok Reprepare => (push_prepare op (set_submitting Idle s), [])
  | Ok Drop => (set_submitting Idle s, [Ended op Dropped])
  | Ok (CriticalFailure _) => (set_submitting Stopped s, [Ended op Failed])
  | _ => (set_submitting Stopped s, [Ended op0 Panicked])
  end.

(** [confirm_task], after [op.confirm()] *)
Definition after_confirm (op0 op : operation) (r : outcome Empty_set PendingOperationResult)
    (s : Submitter) : Submitter * list event :=
  match r with
  | Ok Success => (set_confirming Idle s, [Ended op Confirmed])
  | Ok NotReady => (push_confirm op (set_confirming Idle s), [])
  | Ok Reprepare => (push_prepare op (set_confirming Idle s), [])
  | Ok Drop => (set_confirming Idle s, [Ended op Dropped])
  | Ok (CriticalFailure _) => (set_confirming Stopped s, [Ended op Failed])
  | _ => (set_confirming Stopped s, [Ended op0 Panicked])
  end.

(** ** Steps

    [waits] marks the steps that put an operation back because it is not ready. *)

Definition not_ready (r : outcome Empty_set PendingOperationResult) : bool :=
  match r with Ok NotReady => true | _ => false end.

Inductive task_step (s : Submitter) : bool -> list event -> Submitter -> Prop :=
  | receive_op op l :
      receiving s = true -> rx s = op :: l ->
      task_step s false [] (push_prepare op (set_rx l s))
  | receive_closed :
      receiving s = true -> rx s = [] -> rx_open s = false ->
      task_step s false [] (set_receiving false s)
  | prepare_pop op q :
      preparing s = Idle -> pops (prepare_queue s) op q ->
      task_step s false [] (set_preparing (Working op) (set_prepare_queue q s))
  | prepare_call op e op' r s' es :
      preparing s = Working op -> prepare (env s, op) = (e, op', r) ->
      after_prepare op op' r (set_env e s) = (s', es) ->
      task_step s (not_ready r) es s'
  | prepare_send op :
      preparing s = Sending op -> slot s = None -> submitting s <> Stopped ->
      task_step s false [] (set_slot (Some op) (set_preparing Idle s))
  | prepare_send_closed op :
      preparing s = Sending op -> submitting s = Stopped ->
      task_step s false [Ended op ChannelClosed] (set_preparing Stopped s)
  | submit_receive op :
      submitting s = Idle -> slot s = Some op ->
      task_step s false [] (set_submitting (Working op) (set_slot None s))
  | submit_closed :
      submitting s = Idle -> slot s = None -> preparing s = Stopped ->
      task_step s false [] (set_submitting Stopped s)
  | submit_call op e op' r s' es :
      submitting s = Working op -> submit (env s, op) = (e, op', r) ->
      after_submit op op' r (set_env e s) = (s', es) ->
      task_step s (not_ready r) es s'
  | confirm_pop op q :
      confirming s = Idle -> pops (confirm_queue s) op q ->
      task_step s false [] (set_confirming (Working op) (set_confirm_queue q s))
  | confirm_call op e op' r s' es :
      confirming s = Working op -> confirm (env s, op) = (e, op', r) ->
      after_confirm op op' r (set_env e s) = (s', es) ->
      task_step s (not_ready r) es s'.

(** What happens around the submitter: the environment moves, a processor sends an operation,
    the last sender goes away. *)
Inductive outside_step (moves : environment -> environment -> Prop) (sends : operation -> Prop)
    (s : Submitter) : list event -> Submitter -> Prop :=
  | environment_moves e : moves (env s) e -> outside_step moves sends s [] (set_env e s)
  | operation_sent op :
      sends op -> rx_open s = true ->
      outside_step moves sends s [Received op] (set_rx (rx s ++ [op]) s)
  | senders_dropped : outside_step moves sends s [] (set_rx_open false s).

Inductive run (moves : environment -> environment -> Prop) (sends : operation -> Prop)
    (s : Submitter) : list event -> Submitter -> Prop :=
  | run_done : run moves sends s [] s
  | run_task es waits es' s1 s2 :
      run moves sends s es s1 -> task_step s1 waits es' s2 -> run moves sends s (es ++ es') s2
  | run_outside es es' s1 s2 :
      run moves sends s es s1 -> outside_step moves sends s1 es' s2 ->
      run moves sends s (es ++ es') s2.

(** Steps of the tasks alone, with their number and how many of them wait. *)
Inductive task_run (s : Submitter) : nat -> nat -> list event -> Submitter -> Prop :=
  | task_run_done : task_run s 0 0 [] s
  | task_run_step n w es waits es' s1 s2 :
      task_run s n w es s1 -> task_step s1 waits es' s2 ->
      task_run s (S n) (if waits : bool then S w else w) (es ++ es') s2.
End submitter.
