(* ===== verification/SubmitterTheorems.v ===== *)
(** * Properties of the serial submitter *)

From S2P Require Import Prelude.
From S2P Require Import Database.
From S2P Require Import GasPayment.
From S2P Require Import PendingOperation.
From S2P Require Import SerialSubmitter.
From stdpp Require Import base list list_tactics sets.
From Stdlib Require Import ZArith Lia.

Section conservation.
Context `{PendingOperationLaws}.
Implicit Types s : Submitter.

(** The operations a task has. *)
Definition in_task (t : task) : list operation :=
  match t with Working op | Sending op => [op] | Idle | Stopped => [] end.

(** The operations in the submitter. *)
Definition held s : list operation :=
  rx s ++ prepare_queue s ++ in_task (preparing s) ++ option_list (slot s)
  ++ in_task (submitting s) ++ confirm_queue s ++ in_task (confirming s).

Definition received (es : list event) : list operation :=
  omap (λ ev, match ev with Received op => Some op | _ => None end) es.
Definition ended (es : list event) : list operation :=
  omap (λ ev, match ev with Ended op _ => Some op | _ => None end) es.

(** Every operation is at the stage of its place. *)
Definition staged s : Prop :=
  Forall fresh_op (rx s) /\ Forall fresh_op (prepare_queue s) /\
  match preparing s with Working op => fresh_op op | Sending op => prepared_op op | _ => True end /\
  Forall prepared_op (option_list (slot s)) /\
  match submitting s with Working op => prepared_op op | Sending _ => False | _ => True end /\
  Forall submitted_op (confirm_queue s) /\
  match confirming s with Working op => submitted_op op | Sending _ => False | _ => True end.

Local Abbreviation ids := (map identity).

Definition balanced s (es : list event) s' : Prop :=
  ids (ended es) ++ ids (held s') ≡ₚ ids (received es) ++ ids (held s).

Lemma balanced_trans s es s1 es' s2 :
  balanced s es s1 -> balanced s1 es' s2 -> balanced s (es ++ es') s2.
Proof.
  unfold balanced, ended, received. rewrite !omap_app, !map_app. intros Hb1 Hb2.
  rewrite <- app_assoc, Hb2. rewrite (Permutation_app_comm (ids (omap _ es)) (ids (omap _ es'))).
  rewrite <- (app_assoc (ids (omap _ es'))). rewrite <- Hb1. solve_Permutation.
Qed.

(** What is left of a step after its case is known. *)
Ltac balance := cbn; rewrite ?map_app; cbn; rewrite ?map_app; cbn; try solve_Permutation.

(** The results of a call of a method that satisfies its law. *)
Ltac results Hlaw Hm Ha r :=
  destruct r as [r|[]|]; cbn in Ha;
  [ let Hi := fresh "Hi" in let Hst := fresh "Hst" in
    destruct (Hlaw r Hm) as [Hi Hst]; destruct r; simplify_eq; cbn; split_and!; auto;
    try set_solver; balance; rewrite Hi; balance
  | simplify_eq; cbn; split_and!; auto; try set_solver; balance ].

(** What a step that calls no method leaves to prove. *)
Ltac settle := split_and!; auto; try set_solver; balance.

Lemma task_step_ok s waits es s' :
  staged s -> task_step s waits es s' ->
  staged s' /\ balanced s es s' /\ (forall op, Ended op PanickedNotReady ∉ es).
Proof.
  intros (Hrx & Hpq & Hp & Hsl & Hs & Hcq & Hc) Hstep. destruct s as [env rx ro rc pq p sl t cq c].
  destruct Hstep as [op l Hr Hl|Hr Hl Ho|op q Ht [Hq _]|op e op' r s' es Ht Hm Ha|op Ht Hsl' Hsub|
    op Ht Hsub|op Ht Hsl'|Ht Hsl' Hpr|op e op' r s' es Ht Hm Ha|op q Ht [Hq _]|
    op e op' r s' es Ht Hm Ha]; cbn in *; subst; unfold staged, balanced, held; cbn.
  - inversion_clear Hrx. settle.
  - settle.
  - rewrite Hq in Hpq. inversion_clear Hpq. split_and!; auto; [|set_solver].
    rewrite !map_app, Hq. balance.
  - pose proof (prepare_law env op Hp (e, op')) as Hlaw. results Hlaw Hm Ha r.
  - settle.
  - settle.
  - inversion_clear Hsl. settle.
  - settle.
  - pose proof (submit_law env op Hs (e, op')) as Hlaw. results Hlaw Hm Ha r.
  - rewrite Hq in Hcq. inversion_clear Hcq. split_and!; auto; [|set_solver].
    rewrite !map_app, Hq. balance.
  - pose proof (confirm_law env op Hc (e, op')) as Hlaw. results Hlaw Hm Ha r.
Qed.

Lemma outside_step_ok moves sends s es s' :
  (forall op, sends op -> fresh_op op) ->
  staged s -> outside_step moves sends s es s' ->
  staged s' /\ balanced s es s' /\ (forall op, Ended op PanickedNotReady ∉ es).
Proof.
  intros Hsends (Hrx & Hst) Hstep. destruct s as [env rx ro rc pq p sl t cq c].
  destruct Hstep as [e He|op Hop Ho|]; cbn in *; unfold staged, balanced, held; cbn.
  - split_and!; auto; try naive_solver. set_solver.
  - split; [split; [apply Forall_app; auto|done]|]. split; [balance|set_solver].
  - split; [split; auto|]. split; [done|set_solver].
Qed.

Lemma submitter_run_ok moves sends s es s' :
  (forall op, sends op -> fresh_op op) ->
  staged s -> run moves sends s es s' ->
  staged s' /\ balanced s es s' /\ (forall op, Ended op PanickedNotReady ∉ es).
Proof.
  intros Hsends Hs Hrun. induction Hrun as [|es waits es' s1 s2 _ IH Hstep|es es' s1 s2 _ IH Hstep].
  - split_and!; [done|unfold balanced; reflexivity|set_solver].
  - destruct IH as (Hs1 & Hb & Hn). destruct (task_step_ok _ _ _ _ Hs1 Hstep) as (Hs2 & Hb' & Hn').
    split_and!; [done|by eapply balanced_trans|]. intros op. rewrite elem_of_app. naive_solver.
  - destruct IH as (Hs1 & Hb & Hn).
    destruct (outside_step_ok _ _ _ _ _ Hsends Hs1 Hstep) as (Hs2 & Hb' & Hn').
    split_and!; [done|by eapply balanced_trans|]. intros op. rewrite elem_of_app. naive_solver.
Qed.

(** C14. No operation is lost or duplicated. In every run of the submitter from its start, whatever
    its environment does and however the tasks interleave, the operations it received are, by
    identity, exactly those it has ended with and those it still holds; each one it holds is
    at the stage of its place: fresh in the channel and the queue to prepare, prepared on the
    way to the submission, submitted in the queue to confirm. So an operation is only submitted
    after it was prepared, and the panic for a submission that is not ready cannot happen. *)
Theorem submitter_conserves moves sends e es s :
  (forall op, sends op -> fresh_op op) ->
  run moves sends (initial e) es s ->
  ids (received es) ≡ₚ ids (ended es) ++ ids (held s) /\ staged s /\
  forall op, Ended op PanickedNotReady ∉ es.
Proof.
  intros Hsends Hrun. apply submitter_run_ok in Hrun as (Hs & Hb & Hn); [|done|repeat constructor].
  split_and!; [|done|done]. unfold balanced in Hb. by rewrite Hb, app_nil_r.
Qed.

(** What holds of the identities of the operations held goes on to hold. *)
Lemma held_identities (P : op_identity -> Prop) s es s' :
  balanced s es s' -> received es = [] -> Forall (λ op, P (identity op)) (held s) ->
  Forall (λ op, P (identity op)) (held s').
Proof.
  unfold balanced. intros Hb Hr Hf. rewrite Hr in Hb. cbn in Hb.
  rewrite <- (Forall_map identity P) in Hf |- *. rewrite <- Hb in Hf.
  by apply Forall_app in Hf as [_ Hf].
Qed.

Lemma task_step_receives_none s waits es s' : task_step s waits es s' -> received es = [].
Proof.
  destruct 1 as [| | |op e op' r s' es Ht Hm Ha| | | | |op e op' r s' es Ht Hm Ha| |
    op e op' r s' es Ht Hm Ha]; try done; destruct r as [[]|[]|]; cbn in Ha; by simplify_eq.
Qed.
End conservation.

(** ** Progress *)

Section progress.
Context `{PendingOperationLaws}.
Implicit Types s : Submitter.

Lemma consistent_cons x q : consistent (x :: q) -> consistent q.
Proof.
  intros [Ho Ht]. split; [intros; apply Ho; by right|]. intros a b c Ha Hb Hc.
  apply Ht; by right.
Qed.

(** Something can be taken from a queue that is not empty. *)
Lemma pops_exists q : q <> [] -> exists op q', pops q op q'.
Proof.
  induction q as [|x q IH]; [done|]. intros _. destruct q as [|y q].
  { exists x, []. split; [done|]. by intros _ y Hy%elem_of_nil. }
  destruct IH as (op & q' & Hq & Hl); [done|]. destruct (cmp x op) eqn:Hc.
  1, 2: exists x, (y :: q); split; [done|]; intros Hcon z Hz; rewrite Hq in Hz;
    apply elem_of_cons in Hz as [->|Hz]; [by rewrite Hc|];
    pose proof (Hl (consistent_cons _ _ Hcon) z Hz) as Hz'; destruct Hcon as [_ Ht];
    (apply (Ht x op z); [by left| | |by rewrite Hc|done]); right; rewrite Hq;
    [by left|by right].
  exists op, (x :: q'). split.
  { rewrite Hq. apply perm_swap. }
  intros Hcon z [->|Hz]%elem_of_cons; [|by apply Hl; [eapply consistent_cons|]].
  destruct Hcon as [Ho _]. rewrite (Ho x op); [by rewrite Hc|by left|right; rewrite Hq; by left].
Qed.

(** How many steps an operation has before it at most. *)
Definition task_rank (working sending : nat) (t : task) : nat :=
  match t with Working _ => working | Sending _ => sending | Idle | Stopped => 0 end.
Definition rank s : nat :=
  8 * length (rx s) + 7 * length (prepare_queue s) + task_rank 6 5 (preparing s)
  + 4 * length (option_list (slot s)) + task_rank 3 0 (submitting s)
  + 2 * length (confirm_queue s) + task_rank 1 0 (confirming s).

Lemma rank_held s : rank s <= 8 * length (held s).
Proof.
  unfold rank, held. rewrite !length_app.
  destruct (preparing s), (submitting s), (confirming s); cbn; lia.
Qed.

(** No task has ended, and there is a sender. *)
Definition running s : Prop :=
  rx_open s = true /\ receiving s = true /\ preparing s <> Stopped /\ submitting s <> Stopped /\
  confirming s <> Stopped.

(** In which environments an operation, as it is now, is fine. While an operation is fine, its
    next method does not panic and succeeds, or is not ready yet; and no call of a method makes
    an operation that is fine another one. *)
Variable fine : environment -> operation -> Prop.

Definition answers (m : method (environment * operation) PendingOperationResult)
    (stage : operation -> Prop) (ready : bool) : Prop :=
  forall e op, fine e op -> stage op ->
  exists e' op' r, m (e, op) = (e', op', Ok r) /\ fine e' op' /\
    (forall op2, fine e op2 -> fine e' op2) /\
    (r = Success \/ (ready = false /\ r = NotReady)).

Hypothesis prepare_answers : answers prepare fresh_op false.
Hypothesis submit_answers : answers submit prepared_op true.
Hypothesis confirm_answers : answers confirm submitted_op false.

Definition well s : Prop := staged s /\ running s /\ Forall (fine (env s)) (held s).

(** The operations held after a step are fine: the one at hand, and those held before. *)
Ltac still_fine :=
  rewrite Forall_forall in *; intros x Hx;
  match goal with Hh : forall x, x ∈ _ -> fine _ x |- _ => apply Hh; set_solver end.
Ltac fine_after op1 :=
  rewrite Forall_forall in *; intros x Hx;
  match goal with
  | Hh : forall x, x ∈ ?old -> fine _ x |- _ =>
      let Hor := fresh in
      assert (Hor : x = op1 \/ x ∈ old) by set_solver; destruct Hor as [->|Hor]; auto
  end.

(** A step of a well submitter: it stays well, only confirms operations, and comes closer to
    the end, unless it waits. *)
Lemma task_step_well s waits es s' :
  well s -> task_step s waits es s' ->
  well s' /\ rank s' + 1 <= rank s + (if waits then 2 else 0) /\
  Forall (λ ev, exists op, ev = Ended op Confirmed) es.
Proof.
  intros (Hst & (Ho & Hr & Hp & Hs & Hc) & Hh) Hstep.
  pose proof (task_step_ok _ _ _ _ Hst Hstep) as (Hst' & _ & _).
  destruct Hst as (_ & _ & Hsp & _ & Hss & _ & Hsc).
  cut (running s' /\ Forall (fine (env s')) (held s') /\
    rank s' + 1 <= rank s + (if waits then 2 else 0) /\
    Forall (λ ev, exists op, ev = Ended op Confirmed) es).
  { unfold well. naive_solver. }
  clear Hst'. unfold running, rank, held in *. destruct s as [env rx ro rc pq p sl t cq c].
  destruct Hstep as [op l Hr' Hl|Hr' Hl Ho'|op q Ht [Hq _]|op e op' r s' es Ht Hm Ha|op Ht Hsl' Hsub|
    op Ht Hsub|op Ht Hsl'|Ht Hsl' Hpr|op e op' r s' es Ht Hm Ha|op q Ht [Hq _]|
    op e op' r s' es Ht Hm Ha]; cbn in *; subst; cbn in *; try done.
  - split_and!; try done; try lia; still_fine.
  - pose proof (Permutation_length Hq) as Hl. cbn in Hl. rewrite Hq in Hh.
    split_and!; try done; try lia; still_fine.
  - assert (Hf : fine env op) by (rewrite Forall_forall in Hh; apply Hh; set_solver).
    destruct (prepare_answers env op Hf Hsp) as (e1 & op1 & r1 & Hm' & He1 & Hmono & [->|[_ ->]]);
      rewrite Hm in Hm'; simplify_eq; cbn in *; simplify_eq; cbn;
      (split_and!; try done; try lia; fine_after op1).
  - split_and!; try done; try lia; still_fine.
  - split_and!; try done; try lia; still_fine.
  - assert (Hf : fine env op) by (rewrite Forall_forall in Hh; apply Hh; set_solver).
    destruct (submit_answers env op Hf Hss) as (e1 & op1 & r1 & Hm' & He1 & Hmono & [->|[? _]]);
      [|done]; rewrite Hm in Hm'; simplify_eq; cbn in *; simplify_eq; cbn;
      (split_and!; try done; try lia; fine_after op1).
  - pose proof (Permutation_length Hq) as Hl. cbn in Hl. rewrite Hq in Hh.
    split_and!; try done; try lia; still_fine.
  - assert (Hf : fine env op) by (rewrite Forall_forall in Hh; apply Hh; set_solver).
    destruct (confirm_answers env op Hf Hsc) as (e1 & op1 & r1 & Hm' & He1 & Hmono & [->|[_ ->]]);
      rewrite Hm in Hm'; simplify_eq; cbn in *; simplify_eq; cbn;
      (split_and!; try done; try lia; try fine_after op1); repeat constructor; by eexists.
Qed.

(** As long as an operation is left, a task can go on. *)
Lemma task_step_exists s :
  well s -> held s <> [] -> exists waits es s', task_step s waits es s'.
Proof.
  intros (Hst & (Ho & Hr & Hp & Hs & Hc) & Hh) Hne.
  destruct Hst as (_ & _ & _ & _ & Hss & _ & Hsc).
  destruct (confirming s) as [|op|op|] eqn:Hcf; [|..|done]; [|clear Hc|by destruct Hsc].
  2:{ destruct (confirm (env s, op)) as [[e op'] r] eqn:Hm.
      destruct (after_confirm op op' r (set_env e s)) as [s' es] eqn:Ha.
      exists (not_ready r), es, s'. by eapply confirm_call. }
  destruct (submitting s) as [|op|op|] eqn:Hsb; [|..|done]; [|clear Hs|by destruct Hss].
  2:{ destruct (submit (env s, op)) as [[e op'] r] eqn:Hm.
      destruct (after_submit op op' r (set_env e s)) as [s' es] eqn:Ha.
      exists (not_ready r), es, s'. by eapply submit_call. }
  destruct (slot s) as [op|] eqn:Hsl; [do 3 eexists; by eapply submit_receive|].
  destruct (preparing s) as [|op|op|] eqn:Hpr; [|..|done].
  2:{ destruct (prepare (env s, op)) as [[e op'] r] eqn:Hm.
      destruct (after_prepare op op' r (set_env e s)) as [s' es] eqn:Ha.
      exists (not_ready r), es, s'. by eapply prepare_call. }
  2:{ do 3 eexists. eapply prepare_send; [done|done|]. by rewrite Hsb. }
  destruct (prepare_queue s) as [|op q] eqn:Hpq.
  2:{ destruct (pops_exists (op :: q)) as (x & q' & Hpop); [done|].
      do 3 eexists. eapply prepare_pop; [done|]. by rewrite Hpq. }
  destruct (rx s) as [|op q] eqn:Hrx; [|do 3 eexists; by eapply receive_op].
  destruct (confirm_queue s) as [|op q] eqn:Hcq.
  2:{ destruct (pops_exists (op :: q)) as (x & q' & Hpop); [done|].
      do 3 eexists. eapply confirm_pop; [done|]. by rewrite Hcq. }
  unfold held in Hne. by rewrite Hcf, Hsb, Hsl, Hpr, Hpq, Hrx, Hcq in Hne.
Qed.

Lemma task_run_well s n w es s' :
  well s -> task_run s n w es s' ->
  well s' /\ rank s' + n <= rank s + 2 * w /\ balanced s es s' /\
  Forall (λ ev, exists op, ev = Ended op Confirmed) es.
Proof.
  intros Hw Hrun. induction Hrun as [|n w es waits es' s1 s2 _ IH Hstep].
  - split_and!; [done|lia|unfold balanced; reflexivity|done].
  - destruct IH as (Hw1 & Hr1 & Hb1 & Hf1).
    pose proof (task_step_ok _ _ _ _ (proj1 Hw1) Hstep) as (_ & Hb2 & _).
    destruct (task_step_well _ _ _ _ Hw1 Hstep) as (Hw2 & Hr2 & Hf2).
    split_and!; [done|destruct waits; lia|by eapply balanced_trans|by apply Forall_app].
Qed.

(** C15. Every operation is confirmed in the end. Take a submitter whose tasks run, that holds
    operations each at its stage and each fine: its methods succeed or, to prepare and to
    confirm, answer that it is too early, and leave it and the others fine. However the tasks
    interleave, the only way an operation leaves is confirmed; the tasks can go on exactly as
    long as one is left; and a run has at most eight steps for each operation and two for each
    answer that it was too early. So unless it is too early infinitely often, the run ends, and
    then the confirmed operations are, by identity, all that were held. *)
Theorem submitter_drains s n w es s' :
  well s -> task_run s n w es s' ->
  n <= 8 * length (held s) + 2 * w /\
  ((exists waits es'' s'', task_step s' waits es'' s'') <-> held s' <> []) /\
  Forall (λ ev, exists op, ev = Ended op Confirmed) es /\
  map identity (ended es) ++ map identity (held s') ≡ₚ map identity (held s).
Proof.
  intros Hw Hrun. destruct (task_run_well _ _ _ _ _ Hw Hrun) as (Hw' & Hr & Hb & Hf).
  split_and!.
  - pose proof (rank_held s). lia.
  - split; [|by apply task_step_exists]. intros (waits & es2 & s2 & Hstep) Hn.
    destruct (task_step_well _ _ _ _ Hw' Hstep) as (_ & Hr2 & _).
    pose proof (rank_held s') as Hz. rewrite Hn in Hz.
    change (8 * length []) with 0 in Hz. destruct waits; [|lia].
    unfold held in Hn.
    inversion Hstep; subst; match goal with Ht : _ = Working _ |- _ => rewrite Ht in Hn end;
      cbn in Hn; by repeat apply app_eq_nil in Hn as [_ Hn].
  - done.
  - unfold balanced in Hb. rewrite Hb. assert (Hre : received es = []); [|by rewrite Hre].
    clear -Hf. induction Hf as [|ev es [op ->] _ IH]; [done|]. exact IH.
Qed.
End progress.
