(* ===== verification/ProcessedOnce.v ===== *)
(** * What the relayer records as processed

    The methods of a pending message leave the flags of the processed messages alone, except
    that [confirm] sets the one of its message, after the destination said that it is
    delivered; and so for every run of the submitter. *)

From S2P Require Import Prelude.
From S2P Require Import Codec.
From S2P Require Import Keccak.
From S2P Require Import U256.
From S2P Require Import Message.
From S2P Require Import Chain.
From S2P Require Import Database.
From S2P Require Import DatabaseCorrect.
From S2P Require Import DatabaseTheorems.
From S2P Require Import GasPayment.
From S2P Require Import PendingOperation.
From S2P Require Import PendingMessage.
From S2P Require Import PendingMessageCorrect.
From S2P Require Import SerialSubmitter.
From S2P Require Import SubmitterTheorems.
From stdpp Require Import base gmap list numbers strings sets.
From Stdlib Require Import ZArith Lia.

#[local] Open Scope Z_scope.

Import HyperlaneDB.

(** The parts of the methods that leave the flags alone. *)
Create HintDb flags.

Section processed.
Context `{RocksDBLaws, BigDecimal, U256Ops, Keccak256, !Destination}.

(** The flag of a message, by its origin and nonce. *)
Definition processed_row (c : gmap bytes bytes) (d : Domain.HyperlaneDomain) (n : u32) : option bytes :=
  c !! entry_key d (ProcessedRow n).

(** The flags of the domains with plain names did not change. *)
Definition same_flags (c0 c : gmap bytes bytes) : Prop :=
  forall d n, plain_name d = true -> processed_row c d n = processed_row c0 d n.

Lemma entry_key_plain d d' e e' :
  plain_name d = true -> plain_name d' = true -> entry_key d e = entry_key d' e' -> e = e'.
Proof.
  intros Hd Hd' Hk. unfold entry_key, prefixed_key, domain_prefix in Hk.
  rewrite <- !app_assoc in Hk. apply split_at_underscore in Hk as [_ Hk]; [|done..].
  by apply row_inj in Hk.
Qed.

Lemma same_flags_insert c0 c d e v :
  plain_name d = true -> (forall n, e <> ProcessedRow n) -> same_flags c0 c ->
  same_flags c0 (<[entry_key d e := v]> c).
Proof.
  intros Hd He Hs d' n Hd'. unfold processed_row. rewrite lookup_insert_ne; [by apply Hs|].
  intros Hk. apply entry_key_plain in Hk; [|done..]. by eapply He.
Qed.

(** A message between domains with plain names. *)
Definition plain_op (pm : PendingMessage) : Prop :=
  plain_name (origin_db (ctx pm)) = true /\
  plain_name (enforcer_db (origin_gas_payment_enforcer (ctx pm))) = true.

Section one_method.
Variable i : HyperlaneMessage * MessageContext.
Variable c0 : gmap bytes bytes.
Hypothesis plain_origin : plain_name (origin_db (snd i)) = true.
Hypothesis plain_enforcer : plain_name (enforcer_db (origin_gas_payment_enforcer (snd i))) = true.

Definition unflagged (s : Env * PendingMessage) : Prop :=
  pending_identity (snd s) = i /\ same_flags c0 (rocks_contents (env_db (fst s))).

Local Abbreviation keeps_flags := (preserves unflagged).

Lemma flags_self {A} (f : PendingMessage -> body A) :
  (forall pm, pending_identity pm = i -> keeps_flags (f pm)) -> keeps_flags (self ≫= f).
Proof. intros Hf [e pm] [Hi Hs]. by apply (Hf pm Hi). Qed.

Lemma flags_update f :
  (forall pm, pending_identity (f pm) = pending_identity pm) -> keeps_flags (update f).
Proof. intros Hf [e pm] [Hi Hs]. split; cbn in *; [by rewrite Hf|done]. Qed.

Lemma flags_now : keeps_flags now.
Proof. intros [e pm] [Hi Hs]. unfold now. by destruct (instant_now _). Qed.

Lemma flags_lift {A} (m : outcome PendingOperationResult A) : keeps_flags (eff_lift m).
Proof. by intros [e pm] Hs. Qed.

Lemma flags_on_chain {A} (m : eff chain chain_error A) : keeps_flags (on_chain m).
Proof.
  intros [e pm] [Hi Hs]. unfold on_chain, eff_try. by destruct (m _) as [c [a|err|]].
Qed.

Lemma flags_on_db {E A} (m : eff rocks E A) :
  preserves (λ s, same_flags c0 (rocks_contents s)) m -> keeps_flags (on_db m).
Proof.
  intros Hm [e pm] [Hi Hs]. specialize (Hm _ Hs). unfold on_db, eff_try.
  by destruct (m _) as [d [a|err|]].
Qed.

Lemma report_preserves {A} (P : rocks -> Prop) (m : db A) : preserves P m -> preserves P (report_db m).
Proof.
  intros Hm s Hs. specialize (Hm s Hs). unfold report_db, eff_map_err. by destruct (m s).
Qed.

Lemma flags_store d e v :
  plain_name d = true -> (forall n, e <> ProcessedRow n) ->
  preserves (λ s, same_flags c0 (rocks_contents s)) (store (entry_key d e) v).
Proof.
  intros Hd He. apply (store_preserves (same_flags c0)). intros c. by apply same_flags_insert.
Qed.

Lemma flags_op_try {E A} on_retry (m : body (E + A)) :
  keeps_flags on_retry -> keeps_flags m -> keeps_flags (op_try on_retry m).
Proof.
  intros Hr Hm. apply preserves_bind; [done|]. intros [err|a]; [|apply preserves_ret].
  apply preserves_bind; [done|]. intros r. apply flags_lift.
Qed.

Lemma flags_op_try_critical {A} (m : body (Report + A)) :
  keeps_flags m -> keeps_flags (op_try_critical m).
Proof.
  intros Hm. apply preserves_bind; [done|]. intros [err|a]; [apply flags_lift|apply preserves_ret].
Qed.

Ltac flags :=
  repeat first
    [ solve [auto with flags nocore] | apply preserves_ret | apply flags_now | apply flags_lift | apply flags_on_chain
    | (apply flags_update; by intros []) | (apply flags_self; intros) | apply flags_op_try
    | apply flags_op_try_critical | apply preserves_bind; intros | case_match ].

Lemma flags_set_retries n : keeps_flags (set_retries n).
Proof.
  unfold set_retries, persist_retries. flags. apply flags_on_db.
  apply (flags_store _ (RetryRow _)); [|done].
  match goal with Hi : pending_identity ?pm = i |- _ => change (ctx pm) with (snd (pending_identity pm)) end.
  congruence.
Qed.
#[local] Hint Resolve flags_set_retries : flags.

Lemma flags_inc_attempts : keeps_flags inc_attempts.
Proof. unfold inc_attempts. flags. Qed.
#[local] Hint Resolve flags_inc_attempts : flags.

Lemma flags_reset_attempts : keeps_flags reset_attempts.
Proof. unfold reset_attempts. flags. Qed.
#[local] Hint Resolve flags_reset_attempts : flags.

Lemma flags_on_reprepare : keeps_flags on_reprepare.
Proof. unfold on_reprepare. flags. Qed.
#[local] Hint Resolve flags_on_reprepare : flags.

Lemma flags_is_ready : keeps_flags is_ready.
Proof. unfold is_ready. flags. Qed.
#[local] Hint Resolve flags_is_ready : flags.

Lemma flags_requirement enforcer msg cost :
  preserves (λ s, same_flags c0 (rocks_contents s))
    (message_meets_gas_payment_requirement enforcer msg cost).
Proof.
  unfold message_meets_gas_payment_requirement, retrieve_gas_payment_by_gas_payment_key,
    retrieve_gas_expenditure_by_message_id.
  apply preserves_bind; [apply report_preserves; preserving|]. intros p.
  apply preserves_bind; [apply report_preserves; preserving|]. intros x. by intros s Hs.
Qed.

Lemma flags_record_outcome enforcer msg outcome :
  plain_name (enforcer_db enforcer) = true ->
  preserves (λ s, same_flags c0 (rocks_contents s)) (record_tx_outcome enforcer msg outcome).
Proof.
  intros Hp. unfold record_tx_outcome.
  apply preserves_bind; [by intros s Hs|]. intros g.
  apply preserves_bind; [by intros s Hs|]. intros used.
  apply report_preserves. unfold process_gas_expenditure, update_gas_expenditure_by_message_id,
    retrieve_gas_expenditure_by_message_id.
  apply preserves_bind; [preserving|]. intros x. apply preserves_bind; [by intros s Hs|]. intros t.
  by apply (flags_store _ (ExpenditureRow _)).
Qed.

Lemma flags_prepare : keeps_flags prepare_body.
Proof.
  unfold prepare_body. flags. apply flags_on_db, flags_requirement.
Qed.

Lemma flags_submit : keeps_flags submit_body.
Proof.
  unfold submit_body. flags.
  apply flags_on_db, flags_record_outcome.
  match goal with Hi : pending_identity ?pm = i |- _ => change (ctx pm) with (snd (pending_identity pm)) end.
  congruence.
Qed.

Lemma bind_flags {A B} (m : body A) (f : A -> body B) s s' o :
  keeps_flags m -> unflagged s -> (m ≫= f) s = (s', o) ->
  unflagged s' \/ exists s1 a, m s = (s1, Ok a) /\ unflagged s1 /\ f a s1 = (s', o).
Proof.
  intros Hm Hs. specialize (Hm s Hs). unfold mbind, eff_bind.
  destruct (m s) as [s1 [a|x|]]; cbn in Hm; [|left; by simplify_eq..]. intros Hf. right. eauto.
Qed.

Lemma on_chain_ok {A} (m : eff chain chain_error A) e pm s1 (r : chain_error + A) :
  on_chain m (e, pm) = (s1, Ok r) ->
  exists c, s1 = (MkEnv (env_db e) c, pm) /\
    match r with inr a => m (env_chain e) = (c, Ok a) | inl err => m (env_chain e) = (c, Err err) end.
Proof.
  unfold on_chain, eff_try. destruct (m (env_chain e)) as [c [a|err|]]; intros [= <- <-]; eauto.
Qed.

(** [confirm] sets the flag only after the destination said the message is delivered. *)
Lemma confirm_flags s s' o :
  unflagged s -> confirm_body s = (s', o) ->
  unflagged s' \/
  (pending_identity (snd s') = i /\
   (exists c c', delivered (Message.id (fst i)) c = (c', Ok true)) /\
   (o = Ok Success \/ exists x, o = Err (CriticalFailure x)) /\
   exists c, same_flags c0 c /\
     rocks_contents (env_db (fst s'))
     = <[entry_key (origin_db (snd i)) (ProcessedRow (nonce (fst i))) := to_vec true]> c).
Proof.
  intros Hs Hr. unfold confirm_body in Hr.
  apply bind_flags in Hr as [|(s1 & ready & _ & Hs1 & Hr)]; [by left| |auto with flags|done].
  destruct ready; cbn [negb] in Hr; [|left; by injection Hr as <- _].
  apply bind_flags in Hr as [|(s2 & pm & Hpm & Hs2 & Hr)]; [by left| |by intros [? ?] Hp|done].
  assert (pending_identity pm = i) as Hi.
  { destruct s1 as [e1 pm1]. injection Hpm as <- <-. apply Hs1. }
  apply bind_flags in Hr as [|(s3 & is_delivered & Hd & Hs3 & Hr)]; [by left| |flags|done].
  destruct is_delivered.
  2:{ left. assert (Hk : keeps_flags (reset_attempts;; on_reprepare)) by flags.
      specialize (Hk s3 Hs3). by rewrite Hr in Hk. }
  assert (Hdel : exists c c', delivered (Message.id (fst i)) c = (c', Ok true)).
  { destruct s2 as [e2 pm2]. unfold op_try in Hd.
    apply eff_bind_ok in Hd as (s4 & ans & Hans & Hd). apply on_chain_ok in Hans as (c & -> & Hans).
    rewrite <- Hi. destruct ans as [err|b]; [|injection Hd as <- ->; eauto].
    apply eff_bind_ok in Hd as (? & ? & _ & [=]). }
  clear Hd. destruct s3 as [e3 pm3]. destruct Hs3 as [Hi3 Hs3]. cbn [fst snd] in Hi3, Hs3.
  unfold op_try_critical, record_message_process_success in Hr.
  unfold mbind, eff_bind, self, on_db, report_db, eff_map_err, eff_try, store_processed_by_nonce,
    store_keyed_encodable, store_encodable in Hr.
  destruct (store_row (entry_key (origin_db (ctx pm3)) (ProcessedRow (nonce (message pm3))))
    (to_vec true) (env_db e3)) as (d & w & Hw & Hp & Hc).
  unfold entry_key in Hw. cbn [table_prefix row_key] in Hw. rewrite Hw in Hr.
  rewrite <- Hi3. cbn [fst snd pending_identity].
  destruct Hc as [Hc|[Hne Hc]].
  - right. rewrite <- Hi3 in Hdel.
    destruct w as [[]|x|]; cbn in Hr; [| |done]; injection Hr as <- <-;
      (split_and!; [done|done|eauto|]); by exists (rocks_contents (env_db e3)).
  - left. destruct w as [[]|x|]; cbn in Hr; [done| |done]; injection Hr as <- <-.
    split; cbn; [done|by rewrite Hc].
Qed.

Lemma returning_flags (m : body PendingOperationResult) e pm e' pm' r :
  keeps_flags m -> unflagged (e, pm) -> returning m (e, pm) = (e', pm', r) ->
  same_flags c0 (rocks_contents (env_db e')).
Proof.
  intros Hm Hs Hr. specialize (Hm _ Hs). unfold returning in Hr.
  destruct (m (e, pm)) as [[e1 pm1] [x|x|]]; injection Hr as <- <- <-; by destruct Hm.
Qed.
End one_method.

(** ** Runs *)

Definition plain_id (i : HyperlaneMessage * MessageContext) : Prop :=
  plain_name (origin_db (snd i)) = true /\
  plain_name (enforcer_db (origin_gas_payment_enforcer (snd i))) = true.

(** A message of the origin with the nonce left the submitter, and was delivered. *)
Definition delivered_in (es : list event) (d : Domain.HyperlaneDomain) (n : u32) : Prop :=
  exists (op : PendingMessage) why, Ended op why ∈ es /\ (why = Confirmed \/ why = Failed) /\
    Domain.name (origin_db (ctx op)) = Domain.name d /\ nonce (message op) = n /\
    exists c c', delivered (Message.id (message op)) c = (c', Ok true).

(** Every flag is as it was, or set and explained. *)
Definition explained (c0 : gmap bytes bytes) (es : list event) (c : gmap bytes bytes) : Prop :=
  forall d n, plain_name d = true ->
    processed_row c d n = processed_row c0 d n \/
    (processed_row c d n = Some (to_vec true) /\ delivered_in es d n).

Lemma explained_same c0 es es' c c' :
  explained c0 es c -> same_flags c c' -> explained c0 (es ++ es') c'.
Proof.
  intros He Hs d n Hd. rewrite (Hs d n Hd). destruct (He d n Hd) as [|[Hr Hx]]; [by left|right].
  split; [done|]. destruct Hx as (op & why & Hin & Hx). exists op, why.
  split; [|done]. apply elem_of_app. by left.
Qed.

Lemma same_flags_refl c : same_flags c c.
Proof. by intros d n Hd. Qed.

(** The flag that [confirm] sets is explained by its event. *)
Lemma explained_confirm c0 es es' c c1 (op op' : PendingMessage) why :
  plain_id (pending_identity op) -> pending_identity op' = pending_identity op ->
  explained c0 es c -> same_flags c c1 -> Ended op' why ∈ es' -> (why = Confirmed \/ why = Failed) ->
  (exists k k', delivered (Message.id (message op)) k = (k', Ok true)) ->
  explained c0 (es ++ es')
    (<[entry_key (origin_db (ctx op)) (ProcessedRow (nonce (message op))) := to_vec true]> c1).
Proof.
  intros [Hp _] Hi He Hs Hin Hw Hk d n Hd. injection Hi as Hm Hc.
  unfold processed_row. destruct (decide (entry_key (origin_db (ctx op))
    (ProcessedRow (nonce (message op))) = entry_key d (ProcessedRow n))) as [Hkey|Hne].
  - right. rewrite Hkey, lookup_insert, decide_True by done. split; [done|]. exists op', why.
    split_and!; [apply elem_of_app; by right|done| | |by rewrite Hm].
    + rewrite Hc. unfold entry_key, prefixed_key, domain_prefix in Hkey.
      rewrite <- !app_assoc in Hkey. apply split_at_underscore in Hkey as [Hkey _]; [|done..].
      by apply bstr_inj.
    + rewrite Hm. pose proof (entry_key_plain _ _ _ _ Hp Hd Hkey) as Hrow. congruence.
  - rewrite lookup_insert_ne by done. apply (explained_same c0 es es' c c1 He Hs d n Hd).
Qed.

Definition flags_inv (c0 : gmap bytes bytes) (es : list event) (s : Submitter) : Prop :=
  Forall (λ op, plain_id (pending_identity op)) (held s) /\
  explained c0 es (rocks_contents (env_db (env s))).

Lemma task_step_flags c0 es s waits es' s' :
  staged s -> flags_inv c0 es s -> task_step s waits es' s' -> flags_inv c0 (es ++ es') s'.
Proof.
  intros Hst [Hpl He] Hstep.
  pose proof (task_step_ok _ _ _ _ Hst Hstep) as (_ & Hb & _).
  split.
  { exact (held_identities plain_id _ _ _ Hb (task_step_receives_none _ _ _ _ Hstep) Hpl). }
  clear Hb Hst. unfold held in Hpl. rewrite !Forall_app in Hpl.
  destruct Hpl as (_ & _ & Hpp & _ & Hps & _ & Hpc).
  destruct Hstep as [op l Hr' Hl|Hr' Hl Ho'|op q Ht _|op e op' r s' es' Ht Hm Ha|op Ht Hsl' Hsub|
    op Ht Hsub|op Ht Hsl'|Ht Hsl' Hpr|op e op' r s' es' Ht Hm Ha|op q Ht _|
    op e op' r s' es' Ht Hm Ha]; try (eapply explained_same; [exact He|apply same_flags_refl]).
  - assert (Henv : env s' = e) by (destruct r as [[]|[]|]; cbn in Ha; by simplify_eq).
    rewrite Henv. rewrite Ht in Hpp. apply Forall_cons in Hpp as [[Hp1 Hp2] _].
    eapply explained_same; [exact He|].
    eapply (returning_flags (pending_identity op)); [by apply flags_prepare| |exact Hm].
    by split.
  - assert (Henv : env s' = e) by (destruct r as [[]|[]|]; cbn in Ha; by simplify_eq).
    rewrite Henv. rewrite Ht in Hps. apply Forall_cons in Hps as [[Hp1 Hp2] _].
    eapply explained_same; [exact He|].
    eapply (returning_flags (pending_identity op)); [by apply flags_submit| |exact Hm].
    by split.
  - assert (Henv : env s' = e) by (destruct r as [[]|[]|]; cbn in Ha; by simplify_eq).
    rewrite Henv. rewrite Ht in Hpc. apply Forall_cons in Hpc as [[Hp1 Hp2] _].
    destruct (confirm_body (env s, op)) as [[e1 op1] o] eqn:Hb.
    assert (Hret : (e, op', r) = (e1, op1, match o with Ok x | Err x => Ok x | Panic => Panic end)).
    { rewrite <- Hm. cbn [confirm PendingMessage_operation]. unfold returning. rewrite Hb.
      by destruct o. }
    injection Hret as -> -> ->.
    apply (confirm_flags (pending_identity op) (rocks_contents (env_db (env s)))) in Hb
      as [[_ Hsame]|(Hi & Hdel & Ho & c & Hc & Heq)]; [|..|done|done|done].
    + by eapply explained_same.
    + cbn [fst] in Heq. rewrite Heq. destruct Ho as [->|[x ->]]; cbn in Ha; injection Ha as <- <-.
      * eapply (explained_confirm _ _ _ _ _ op op1 Confirmed); try done; [set_solver|by left].
      * eapply (explained_confirm _ _ _ _ _ op op1 Failed); try done; [set_solver|by right].
Qed.

(** C13. A message is recorded as processed only if it was delivered. In every run of the submitter
    over pending messages, in which nothing else touches the flags of the processed messages,
    every flag is as it was at the start, or it is set, and then a message of this origin and
    nonce has left the submitter through [confirm], confirmed or with a failed write, after
    the destination answered that the message with its id is delivered. *)
Theorem processed_only_if_delivered moves sends e es s :
  (forall op, sends op -> pending_fresh op /\ plain_id (pending_identity op)) ->
  (forall e1 e2, moves e1 e2 ->
     same_flags (rocks_contents (env_db e1)) (rocks_contents (env_db e2))) ->
  run moves sends (initial e) es s ->
  explained (rocks_contents (env_db e)) es (rocks_contents (env_db (env s))).
Proof.
  intros Hsends Hmoves Hrun.
  cut (flags_inv (rocks_contents (env_db e)) es s /\ staged s); [by intros [[_ He] _]|].
  induction Hrun as [|es waits es' s1 s2 _ [IH Hst] Hstep|es es' s1 s2 _ [IH Hst] Hstep].
  - split; [|repeat constructor]. split; [constructor|]. intros d n Hd. by left.
  - split; [by eapply task_step_flags|]. by apply task_step_ok in Hstep as [? _].
  - pose proof (outside_step_ok moves sends s1 es' s2 (λ op Hop, proj1 (Hsends op Hop)) Hst Hstep)
      as (Hst2 & _). split; [|done]. destruct IH as [Hpl He].
    destruct Hstep as [e' He'|op Hop Ho|]; split; try done.
    + eapply explained_same; [exact He|by apply Hmoves].
    + unfold held in *. cbn. rewrite !Forall_app in *. split_and!; try apply Hpl.
      repeat constructor; by apply Hsends.
    + eapply explained_same; [exact He|apply same_flags_refl].
    + eapply explained_same; [exact He|apply same_flags_refl].
Qed.
End processed.
