(* ===== verification/PendingMessageTheorems.v ===== *)
(** * Properties of pending messages *)

From S2P Require Import Prelude.
From S2P Require Import Codec.
From S2P Require Import Keccak.
From S2P Require Import U256.
From S2P Require Import Message.
From S2P Require Import Chain.
From S2P Require Import Database.
From S2P Require Import DatabaseCorrect.
From S2P Require Import DatabaseTheorems.
From S2P Require Import MatchingList.
From S2P Require Import GasPayment.
From S2P Require Import PendingOperation.
From S2P Require Import PendingMessage.
From S2P Require Import PendingMessageCorrect.
From S2P Require Import SerialSubmitter.
From S2P Require Import SubmitterTheorems.
From S2P Require Import ProcessedOnce.
From stdpp Require Import base gmap list numbers strings sets.
From Stdlib Require Import ZArith Lia.

#[local] Open Scope Z_scope.

(** ** Backoff *)

(** How long a message waits. A message that was not retried does not wait; after that it waits
    ten seconds at least and three hours at most, and never less for more retries. Twelve to
    twenty-three retries wait 90 seconds to 18 minutes. *)
Theorem backoff_bounded (n m : u32) d d' :
  calculate_msg_backoff n = Some d -> calculate_msg_backoff m = Some d' -> uval n <= uval m ->
  calculate_msg_backoff (uwrap 4 0) = None /\ 1 <= uval n /\
  from_secs 10 <= d <= from_secs (60 * 60 * 3) /\ d <= d' /\
  (12 <= uval n < 24 -> from_secs 90 <= d <= from_secs (60 * 18)).
Proof.
  unfold calculate_msg_backoff, from_secs. intros Hd Hd' Hle. pose proof (uval_range n).
  split; [reflexivity|].
  repeat match type of Hd with context [if ?b <? ?c then _ else _] =>
    destruct (Z.ltb_spec b c); try discriminate Hd end;
  repeat match type of Hd' with context [if ?b <? ?c then _ else _] =>
    destruct (Z.ltb_spec b c); try discriminate Hd' end;
  injection Hd as <-; injection Hd' as <-; lia.
Qed.

(** ** Priority *)

Section order.
Context `{RocksDB, BigDecimal, U256Ops, Keccak256, !Destination}.

Lemma compare_uint_trans {n} (a b c : uint n) :
  compare_uint a b <> Gt -> compare_uint b c <> Gt -> compare_uint a c <> Gt.
Proof. unfold compare_uint. rewrite !Z.compare_gt_iff. lia. Qed.

Lemma pending_cmp_antisym x y : pending_cmp y x = CompOpp (pending_cmp x y).
Proof.
  unfold pending_cmp, compare_uint.
  destruct (next_attempt_after x) as [a|], (next_attempt_after y) as [b|]; try done;
    rewrite <- ?Z.compare_antisym; try done.
  case_bool_decide as Hxy; case_bool_decide as Hyx; try congruence; by rewrite <- Z.compare_antisym.
Qed.

(** C36. The order in which operations are attempted. Messages that were not tried come before the
    ones that wait, among messages of one origin the smaller nonce first; the ones that wait
    come by the time of their next attempt. Comparing is antisymmetric, and it is an order, so
    that the queue works as intended, on every collection in which the messages not tried yet
    have one origin. *)
Theorem pending_order (q : list PendingMessage) x y :
  (forall a b, a ∈ q -> b ∈ q -> next_attempt_after a = None -> next_attempt_after b = None ->
     origin (message a) = origin (message b)) ->
  consistent q /\
  (next_attempt_after x = None -> next_attempt_after y <> None -> pending_cmp x y = Lt) /\
  (next_attempt_after x = None -> next_attempt_after y = None ->
   origin (message x) = origin (message y) ->
   (pending_cmp x y = Lt <-> uval (nonce (message x)) < uval (nonce (message y)))) /\
  (forall a b, next_attempt_after x = Some a -> next_attempt_after y = Some b ->
     (pending_cmp x y = Lt <-> a < b)).
Proof.
  intros Hone. split_and!.
  - split; [intros a b _ _; apply pending_cmp_antisym|]. intros a b c Ha Hb Hc. cbn.
    specialize (Hone a c Ha Hc) as Hac. pose proof (Hone a b Ha Hb) as Hab.
    pose proof (Hone b c Hb Hc) as Hbc. unfold pending_cmp.
    destruct (next_attempt_after a), (next_attempt_after b), (next_attempt_after c); try done.
    + rewrite !Z.compare_gt_iff. lia.
    + rewrite Hab, Hbc by done. rewrite !bool_decide_eq_true_2 by done. apply compare_uint_trans.
  - unfold pending_cmp. intros ->. by destruct (next_attempt_after y).
  - unfold pending_cmp, compare_uint. intros -> -> Ho. rewrite bool_decide_eq_true_2 by done.
    apply Z.compare_lt_iff.
  - unfold pending_cmp. intros a b -> ->. apply Z.compare_lt_iff.
Qed.
End order.

(** ** What is submitted *)

Section methods.
Context `{RocksDBLaws, BigDecimal, U256Ops, Keccak256, !Destination}.

Definition succeeds (o : outcome PendingOperationResult PendingOperationResult) : Prop :=
  o = Ok Success \/ o = Err Success.

Lemma on_reprepare_result s s' o : on_reprepare s = (s', o) -> o = Ok Reprepare \/ o = Panic.
Proof.
  destruct s as [e pm]. unfold on_reprepare, mbind, eff_bind.
  pose proof (inc_attempts_keeps (pending_identity pm) (submitted pm) (submission_data pm)
    (λ _ _, False) e pm ltac:(done)) as Hi.
  destruct (inc_attempts (e, pm)) as [[e1 pm1] [[]|r|]]; cbn; [|done|];
    intros [= <- <-]; auto.
Qed.

Lemma on_reprepare_fails s s' o : on_reprepare s = (s', o) -> ~ succeeds o.
Proof. intros Hr. apply on_reprepare_result in Hr as [->| ->]; by intros [[=]|[=]]. Qed.

(** A step of a method that succeeds in the end was answered. *)
Lemma try_chain_inv {A B} (m : eff chain chain_error A) (f : A -> body B) e pm s' o :
  (op_try on_reprepare (on_chain m) ≫= f) (e, pm) = (s', o) ->
  (exists c a, m (env_chain e) = (c, Ok a) /\ f a (MkEnv (env_db e) c, pm) = (s', o)) \/
  o = Err Reprepare \/ o = Panic.
Proof.
  unfold op_try, mbind, eff_bind, on_chain, eff_try.
  destruct (m (env_chain e)) as [c [a|err|]]; cbn; [eauto|..].
  - destruct (on_reprepare _) as [s1 o1] eqn:Hr. apply on_reprepare_result in Hr as [->| ->];
      cbn; intros [= <- <-]; auto.
  - intros [= <- <-]. auto.
Qed.

Lemma try_db_inv {E A B} (m : eff rocks E A) (f : A -> body B) e pm s' o :
  (op_try on_reprepare (on_db m) ≫= f) (e, pm) = (s', o) ->
  (exists d a, m (env_db e) = (d, Ok a) /\ f a (MkEnv d (env_chain e), pm) = (s', o)) \/
  o = Err Reprepare \/ o = Panic.
Proof.
  unfold op_try, mbind, eff_bind, on_db, eff_try.
  destruct (m (env_db e)) as [d [a|err|]]; cbn; [eauto|..].
  - destruct (on_reprepare _) as [s1 o1] eqn:Hr. apply on_reprepare_result in Hr as [->| ->];
      cbn; intros [= <- <-]; auto.
  - intros [= <- <-]. auto.
Qed.

Lemma is_ready_inv {B} (f : bool -> body B) e pm s' o :
  (is_ready ≫= f) (e, pm) = (s', o) ->
  exists c ready, f ready (MkEnv (env_db e) c, pm) = (s', o) /\
    (ready = true -> forall a, next_attempt_after pm = Some a ->
       exists t, instant_now (env_chain e) = (c, t) /\ a <= t).
Proof.
  unfold is_ready, mbind, eff_bind, self, now. destruct (next_attempt_after pm) as [a|] eqn:Ha.
  - destruct (instant_now (env_chain e)) as [c t] eqn:Ht. cbn. intros Hf. exists c, (a <=? t).
    split; [done|]. intros Hr a' [= <-]. exists t. split; [done|]. by apply Z.leb_le.
  - cbn. intros Hf. exists (env_chain e), true. split; [by destruct e|]. done.
Qed.

Lemma returning_success m s s' :
  returning m s = (s', Ok Success) -> exists o, m s = (s', o) /\ succeeds o.
Proof.
  unfold returning, succeeds. destruct (m s) as [s1 [r|r|]]; intros [= <- ?]; subst; eauto.
Qed.

(** C40. What a prepared message is. When [prepare] succeeds, the time of the next attempt, if there
    was one, had passed, and either the destination answered that the message is delivered,
    which is to be confirmed after the delay; or it answered that it is not, that the recipient
    is a contract and which module it uses, the builder for that module made metadata, and the
    gas paid for the message meets the enforcer's requirement at the estimated cost, which
    is within the limit for a transaction. Then the message is left to be submitted with this
    metadata and with the gas limit of this estimate. *)
Theorem prepare_success e pm e' pm' :
  prepare (e, pm) = (e', pm', Ok Success) ->
  let msg := message pm in
  (forall a, next_attempt_after pm = Some a ->
     exists c t, instant_now (env_chain e) = (c, t) /\ a <= t) /\
  exists c1 c2 b, delivered (Message.id msg) c1 = (c2, Ok b) /\
  if b : bool then
    exists c3 t, instant_now c2 = (c3, t) /\ e' = MkEnv (env_db e) c3 /\
      pm' = set_next_attempt_after (Some (t + CONFIRM_DELAY)) (set_submitted true pm)
  else
    exists c3 c4 c5 c6 ism builder metadata cost gas,
      is_contract (recipient msg) c2 = (c3, Ok true) /\
      recipient_ism (recipient msg) c3 = (c4, Ok ism) /\
      MessageMetadataBuilder_new ism msg c4 = (c5, Ok builder) /\
      build builder ism msg c5 = (c6, Ok (Some metadata)) /\
      process_estimate_costs msg metadata c6 = (env_chain e', Ok cost) /\
      message_meets_gas_payment_requirement (origin_gas_payment_enforcer (ctx pm)) msg cost
        (env_db e) = (env_db e', Ok (Some gas)) /\
      (forall limit, transaction_gas_limit (ctx pm) = Some limit ->
         uval (estimate_gas_limit cost) <= uval limit) /\
      pm' = set_submission_data (Some (MkSubmissionData metadata (estimate_gas_limit cost))) pm.
Proof.
  cbn zeta. intros Hr. apply returning_success in Hr as (o & Hr & Ho). unfold prepare_body in Hr.
  apply is_ready_inv in Hr as (c1 & ready & Hr & Hready).
  destruct ready; cbn [negb] in Hr; [|injection Hr as _ _ <-; by destruct Ho].
  split; [intros a Ha; destruct (Hready eq_refl a Ha) as (t & Ht); eauto|]. clear Hready.
  unfold self in Hr. unfold mbind at 1, eff_bind at 1 in Hr.
  apply try_chain_inv in Hr as [(c2 & b & Hb & Hr)|[->| ->]]; [|by destruct Ho..].
  cbn [env_db env_chain] in *. exists c1, c2, b. split; [done|]. destruct b.
  - unfold mbind, eff_bind, update, now in Hr. cbn in Hr.
    destruct (instant_now c2) as [c3 t]. injection Hr as <- <- _. by exists c3, t.
  - apply try_chain_inv in Hr as [(c3 & contract & Hc3 & Hr)|[->| ->]]; [|by destruct Ho..].
    destruct contract; cbn [negb] in Hr; [|injection Hr as _ _ <-; by destruct Ho].
    apply try_chain_inv in Hr as [(c4 & ism & Hc4 & Hr)|[->| ->]]; [|by destruct Ho..].
    apply try_chain_inv in Hr as [(c5 & builder & Hc5 & Hr)|[->| ->]]; [|by destruct Ho..].
    apply try_chain_inv in Hr as [(c6 & [metadata|] & Hc6 & Hr)|[->| ->]]; [| |by destruct Ho..];
      [|by apply on_reprepare_fails in Hr].
    apply try_chain_inv in Hr as [(c7 & cost & Hc7 & Hr)|[->| ->]]; [|by destruct Ho..].
    apply try_db_inv in Hr as [(d & [gas|] & Hd & Hr)|[->| ->]]; [| |by destruct Ho..];
      [|by apply on_reprepare_fails in Hr].
    destruct (match transaction_gas_limit (ctx pm) with Some _ => _ | None => _ end) eqn:Hl;
      [by apply on_reprepare_fails in Hr|].
    injection Hr as <- <- _. cbn [env_db env_chain] in *.
    exists c3, c4, c5, c6, ism, builder, metadata, cost, gas. split_and!; try done.
    intros limit Hlim. rewrite Hlim in Hl. apply Z.ltb_ge in Hl. done.
Qed.

(** A message to be prepared again waits for the backoff of one retry more. *)
Definition waits_again (pm pm' : PendingMessage) : Prop :=
  num_retries pm' = uwrap 4 (num_retries pm + 1) /\ submitted pm' = false /\
  exists c c' t, instant_now c = (c', t) /\
    next_attempt_after pm' = (λ dur, t + dur) <$> calculate_msg_backoff (num_retries pm').

Lemma on_reprepare_waits e pm e' pm' r :
  on_reprepare (e, pm) = (e', pm', Ok r) ->
  r = Reprepare /\ waits_again pm pm' /\ submission_data pm' = submission_data pm.
Proof.
  unfold on_reprepare, inc_attempts, set_retries, persist_retries, mbind, eff_bind, update, self,
    on_db, now, eff_try, mret, eff_ret.
  destruct (HyperlaneDB.store_pending_message_retry_count_by_message_id _ _ _ _) as [d [u|err|]];
    [| |done]; cbn; destruct (instant_now (env_chain e)) as [c t] eqn:Ht; cbn;
    intros [= <- <- <-]; split_and!; try done; split_and!; try done; cbn; eauto 10.
Qed.

Lemma reset_attempts_run e pm e' pm' x :
  reset_attempts (e, pm) = (e', pm', x) ->
  x = Panic \/ (x = Ok tt /\ exists t, pm' =
    set_last_attempted_at t (set_next_attempt_after None (set_num_retries (uwrap 4 0) pm))).
Proof.
  unfold reset_attempts, set_retries, persist_retries, mbind, eff_bind, update, self,
    on_db, now, eff_try, mret, eff_ret.
  destruct (HyperlaneDB.store_pending_message_retry_count_by_message_id _ _ _ _) as [d [u|err|]];
    [| |intros [= <- <- <-]; by left]; cbn;
    destruct (instant_now (env_chain e)) as [c t] eqn:Ht; cbn;
    intros [= <- <- <-]; right; eauto.
Qed.

Lemma self_bind {A} (f : PendingMessage -> body A) e pm : (self ≫= f) (e, pm) = f pm (e, pm).
Proof. done. Qed.
Lemma update_bind {A} g (f : unit -> body A) e pm : (update g ≫= f) (e, pm) = f tt (e, g pm).
Proof. done. Qed.
Lemma lift_bind {A B} (a : A) (f : A -> body B) s : (eff_lift (Ok a) ≫= f) s = f a s.
Proof. done. Qed.

Lemma try_chain_bind {A B} on_retry (m : eff chain chain_error A) (f : A -> body B) e pm :
  (op_try on_retry (on_chain m) ≫= f) (e, pm) =
  match m (env_chain e) with
  | (c, Ok a) => f a (MkEnv (env_db e) c, pm)
  | (c, Err _) =>
      let '(s, o) := on_retry (MkEnv (env_db e) c, pm) in
      (s, match o with Ok r | Err r => Err r | Panic => Panic end)
  | (c, Panic) => (MkEnv (env_db e) c, pm, Panic)
  end.
Proof.
  unfold op_try, mbind, eff_bind, on_chain, eff_try.
  destruct (m (env_chain e)) as [c [a|err|]]; cbn; [done| |done].
  by destruct (on_retry _) as [s [r|r|]].
Qed.

Lemma try_db_bind {E A B} on_retry (m : eff rocks E A) (f : A -> body B) e pm :
  (op_try on_retry (on_db m) ≫= f) (e, pm) =
  match m (env_db e) with
  | (d, Ok a) => f a (MkEnv d (env_chain e), pm)
  | (d, Err _) =>
      let '(s, o) := on_retry (MkEnv d (env_chain e), pm) in
      (s, match o with Ok r | Err r => Err r | Panic => Panic end)
  | (d, Panic) => (MkEnv d (env_chain e), pm, Panic)
  end.
Proof.
  unfold op_try, mbind, eff_bind, on_db, eff_try.
  destruct (m (env_db e)) as [d [a|err|]]; cbn; [done| |done].
  by destruct (on_retry _) as [s [r|r|]].
Qed.

Lemma now_bind {A} (f : Instant -> body A) e pm :
  (now ≫= f) (e, pm) =
  f (snd (instant_now (env_chain e))) (MkEnv (env_db e) (fst (instant_now (env_chain e))), pm).
Proof. unfold mbind, eff_bind, now. by destruct (instant_now (env_chain e)). Qed.

Lemma is_ready_bind {A} (f : bool -> body A) e pm :
  (is_ready ≫= f) (e, pm) =
  match next_attempt_after pm with
  | None => f true (e, pm)
  | Some a =>
      f (a <=? snd (instant_now (env_chain e)))
        (MkEnv (env_db e) (fst (instant_now (env_chain e))), pm)
  end.
Proof.
  unfold mbind, eff_bind, is_ready, self, now, mbind, eff_bind.
  destruct (next_attempt_after pm); [|done]. by destruct (instant_now (env_chain e)).
Qed.

Lemma critical_db_bind {A B} (m : eff rocks Report A) (f : A -> body B) e pm :
  (op_try_critical (on_db m) ≫= f) (e, pm) =
  match m (env_db e) with
  | (d, Ok a) => f a (MkEnv d (env_chain e), pm)
  | (d, Err x) => (MkEnv d (env_chain e), pm, Err (CriticalFailure x))
  | (d, Panic) => (MkEnv d (env_chain e), pm, Panic)
  end.
Proof.
  unfold op_try_critical, mbind, eff_bind, on_db, eff_try.
  by destruct (m (env_db e)) as [d [a|err|]].
Qed.

(** What [submit] does. A message that was found delivered is passed on. Any other that was
    prepared is processed on the destination exactly once, with the prepared metadata and gas
    limit, which are used up. An error sends it back to be prepared again; otherwise the
    outcome is recorded as spent, a failure of which stops the submitter, and the message is
    submitted if the transaction was executed, to be confirmed after the delay, its retries
    forgotten, and sent back if it was reverted. A message that is sent back waits for the
    backoff of one retry more. Submitting panics only if a client of the chain or the
    database does, never for lack of data. *)
Theorem submit_spec e pm e' pm' r :
  pending_prepared pm -> submit (e, pm) = (e', pm', Ok r) ->
  if submitted pm then e' = e /\ pm' = pm /\ r = Success
  else
    exists data c answer, submission_data pm = Some data /\
      process (message pm) (data_metadata data) (Some (data_gas_limit data)) (env_chain e)
        = (c, answer) /\ submission_data pm' = None /\
      match answer with
      | Ok outcome =>
          exists d w, record_tx_outcome (origin_gas_payment_enforcer (ctx pm)) (message pm) outcome
            (env_db e) = (d, w) /\
          match w with
          | Ok _ => if executed outcome then r = Success else r = Reprepare
          | Err x => r = CriticalFailure x
          | Panic => False
          end
      | Err _ => r = Reprepare
      | Panic => False
      end /\
      (r = Reprepare -> waits_again pm pm') /\
      (r = Success -> submitted pm' = true /\ num_retries pm' = uwrap 4 0 /\
         exists c1 c2 t, instant_now c1 = (c2, t) /\
           next_attempt_after pm' = Some (t + CONFIRM_DELAY)).
Proof.
  intros Hp Hr. unfold pending_prepared in Hp. cbn [submit PendingMessage_operation] in Hr.
  unfold returning, submit_body in Hr. rewrite self_bind in Hr.
  destruct (submitted pm) eqn:Hs; [by injection Hr as <- <- <-|].
  destruct Hp as [data Hd].
  rewrite update_bind, Hd in Hr. cbn [or_panic] in Hr.
  rewrite lift_bind, try_chain_bind in Hr. cbn [env_db env_chain] in Hr.
  destruct (process _ _ _ (env_chain e)) as [c answer] eqn:Hpr.
  exists data, c, answer. split; [done|]. split; [done|]. destruct answer as [outcome|err|]; [|..|done].
  2:{ destruct (on_reprepare _) as [[e1 pm1] o] eqn:Hre.
      destruct (on_reprepare_result _ _ _ Hre) as [->| ->]; [|done].
      apply on_reprepare_waits in Hre as (_ & Hw & Hd1). by injection Hr as <- <- <-. }
  rewrite critical_db_bind in Hr. cbn [env_db env_chain] in Hr.
  destruct (record_tx_outcome _ _ outcome (env_db e)) as [d w] eqn:Hw.
  destruct w as [[]|x|]; [| |done].
  2:{ injection Hr as <- <- <-. split_and!; [done| |done|done]. by eexists _, _. }
  destruct (executed outcome) eqn:Hex.
  - rewrite update_bind in Hr. unfold mbind at 1, eff_bind at 1 in Hr.
    destruct (reset_attempts _) as [[e1 pm1] x] eqn:Hre.
    apply reset_attempts_run in Hre as [->|(-> & t & ->)]; [done|].
    unfold now, update, mbind, eff_bind in Hr. destruct (instant_now (env_chain e1)) as [c2 t2] eqn:Ht.
    injection Hr as <- <- <-. split_and!; [done| |done|].
    + by exists d, (Ok tt).
    + intros _. split_and!; [done|done|]. cbn. eauto.
  - destruct (on_reprepare _) as [[e1 pm1] o] eqn:Hre.
    destruct (on_reprepare_result _ _ _ Hre) as [->| ->]; [|done].
    apply on_reprepare_waits in Hre as (_ & Hwt & Hd1). injection Hr as <- <- <-.
    split_and!; [done| |done|done]. by exists d, (Ok tt).
Qed.
End methods.
