(* ===== verification/SubmitterScenario.v ===== *)
(** * A submitter at work: the theorems on pending messages at concrete inputs *)

From S2P Require Import Prelude.
From S2P Require Import Codec.
From S2P Require Import Keccak.
From S2P Require Import U256.
From S2P Require Import Message.
From S2P Require Import Chain.
From S2P Require Import Database.
From S2P Require Import DatabaseCorrect.
From S2P Require Import DatabaseTheorems.
From S2P Require Import MatchingList.
From S2P Require Import GasPayment.
From S2P Require Import GasPaymentTheorems.
From S2P Require Import PendingOperation.
From S2P Require Import PendingMessage.
From S2P Require Import PendingMessageCorrect.
From S2P Require Import PendingMessageTheorems.
From S2P Require Import SerialSubmitter.
From S2P Require Import SubmitterTheorems.
From S2P Require Import ProcessedOnce.
From stdpp Require Import base gmap list numbers strings sets.
From Stdlib Require Import ZArith Lia.

#[local] Open Scope Z_scope.

Module SubmitterModel.
Import DatabaseModel GasPaymentModel.

(** Reading the bytes as the hash. *)
#[export] Instance hash : Keccak256 := λ b, from_be 32 b.

(** A destination whose clock moves ten minutes whenever it is read, and where every message
    can be processed at no cost. *)
Record world := MkWorld { clock : Z; arrived : list H256 }.

#[export] Instance destination : Destination := {
  chain := world;
  chain_error := unit;
  metadata_builder := unit;
  instant_now c := (MkWorld (clock c + from_secs 600) (arrived c), clock c);
  delivered id c := (c, Ok (bool_decide (id ∈ arrived c)));
  is_contract _ c := (c, Ok true);
  recipient_ism _ c := (c, Ok (uwrap 32 1));
  MessageMetadataBuilder_new _ _ c := (c, Ok tt);
  build _ _ _ c := (c, Ok (Some []));
  process_estimate_costs _ _ c :=
    (c, Ok (MkTxCostEstimate (uwrap 32 50) (MkFixedPointNumber (2 : @decimal integers)) None));
  process msg _ _ c := (MkWorld (clock c) (Message.id msg :: arrived c),
    Ok (MkTxOutcome (uwrap 64 1) true (uwrap 32 0) (MkFixedPointNumber (2 : @decimal integers))))
}.

#[export] Existing Instance U256Model.ops.
#[export] Existing Instance U256Model.laws.

Definition context : MessageContext :=
  MkMessageContext origin
    (GasPaymentEnforcer_new [MkGasPaymentEnforcementConf PolicyNone None] origin) None.
Definition fresh_message (n : Z) : PendingMessage := PendingMessage_new (message n) context 0.
Definition start : Env := MkEnv (∅ : rocks) (MkWorld 0 []).
End SubmitterModel.

Import DatabaseModel GasPaymentModel SubmitterModel.

Section calls.
Context `{PendingOperation}.

(** The calls of the tasks as functions. *)
Definition called {A} (m : method (environment * operation) A)
    (after : operation -> operation -> outcome Empty_set A -> Submitter -> Submitter * list event)
    (s : Submitter) (op : operation) : Submitter * list event :=
  after op (snd (fst (m (env s, op)))) (snd (m (env s, op))) (set_env (fst (fst (m (env s, op)))) s).

Lemma called_prepare s op :
  preparing s = Working op ->
  task_step s (not_ready (snd (prepare (env s, op)))) (snd (called prepare after_prepare s op))
    (fst (called prepare after_prepare s op)).
Proof.
  intros Hp. eapply (prepare_call s op); [done| |apply surjective_pairing].
  by destruct (prepare (env s, op)) as [[]].
Qed.
Lemma called_submit s op :
  submitting s = Working op ->
  task_step s (not_ready (snd (submit (env s, op)))) (snd (called submit after_submit s op))
    (fst (called submit after_submit s op)).
Proof.
  intros Hp. eapply (submit_call s op); [done| |apply surjective_pairing].
  by destruct (submit (env s, op)) as [[]].
Qed.
Lemma called_confirm s op :
  confirming s = Working op ->
  task_step s (not_ready (snd (confirm (env s, op)))) (snd (called confirm after_confirm s op))
    (fst (called confirm after_confirm s op)).
Proof.
  intros Hp. eapply (confirm_call s op); [done| |apply surjective_pairing].
  by destruct (confirm (env s, op)) as [[]].
Qed.

Lemma pops_one op : pops [op] op [].
Proof. split; [done|]. by intros _ y Hy%elem_of_nil. Qed.

(** ** One operation from the channel to its confirmation *)

Variable start : environment.
Variable op0 : operation.

Definition in_hand (t : task) : operation :=
  match t with Working op | Sending op => op | _ => op0 end.

Definition s1 : Submitter := set_rx [op0] (initial start).
Definition s2 : Submitter := push_prepare op0 (set_rx [] s1).
Definition s3 : Submitter := set_preparing (Working op0) (set_prepare_queue [] s2).
Definition s4 : Submitter := fst (called prepare after_prepare s3 op0).
Definition op4 : operation := in_hand (preparing s4).
Definition s5 : Submitter := set_slot (Some op4) (set_preparing Idle s4).
Definition s6 : Submitter := set_submitting (Working op4) (set_slot None s5).
Definition s7 : Submitter := fst (called submit after_submit s6 op4).
Definition op7 : operation := hd op0 (confirm_queue s7).
Definition s8 : Submitter := set_confirming (Working op7) (set_confirm_queue [] s7).
Definition s9 : Submitter := fst (called confirm after_confirm s8 op7).
Definition events9 : list event := snd (called confirm after_confirm s8 op7).
Definition op9 : operation := match events9 with [Ended op _] => op | _ => op0 end.

(** What the states are, by tests that are cheap to evaluate. *)
Definition is_sending (t : task) : bool := match t with Sending _ => true | _ => false end.
Definition is_idle (t : task) : bool := match t with Idle => true | _ => false end.
Definition is_confirmed (es : list event) : bool :=
  match es with [Ended _ Confirmed] => true | _ => false end.
Definition nothing {A} (l : list A) : bool := match l with [] => true | _ => false end.
Definition one {A} (l : list A) : bool := match l with [_] => true | _ => false end.

Definition all_succeed : bool :=
  is_sending (preparing s4) && nothing (snd (called prepare after_prepare s3 op0))
  && nothing (option_list (slot s4)) && is_idle (submitting s4) && is_idle (submitting s5)
  && nothing (snd (called submit after_submit s6 op4)) && one (confirm_queue s7)
  && is_idle (confirming s7) && is_confirmed events9 && nothing (held s9)
  && negb (not_ready (snd (prepare (env s3, op0)))) && negb (not_ready (snd (submit (env s6, op4))))
  && negb (not_ready (snd (confirm (env s8, op7)))).

Lemma all_succeed_run : all_succeed = true ->
  task_run s1 8 0 events9 s9 /\ events9 = [Ended op9 Confirmed] /\ held s9 = [].
Proof.
  unfold all_succeed. rewrite !andb_true_iff, !negb_true_iff.
  intros ((((((((((((T4 & E4) & L4) & U4) & U5) & E7) & C7) & K7) & E9) & H9) & W4) & W7) & W9).
  assert (P4 : preparing s4 = Sending op4) by (unfold op4; by destruct (preparing s4)).
  assert (N4 : slot s4 = None) by by destruct (slot s4).
  assert (I4 : submitting s4 = Idle) by by destruct (submitting s4).
  assert (I5 : submitting s5 = Idle) by by destruct (submitting s5).
  assert (I7 : confirming s7 = Idle) by by destruct (confirming s7).
  assert (Q7 : confirm_queue s7 = [op7]).
  { unfold op7. by destruct (confirm_queue s7) as [|x [|]]. }
  split_and!.
  2:{ unfold op9. by destruct events9 as [|[|op []] [|]]. }
  2:{ by destruct (held s9). }
  pose proof (called_prepare s3 op0 eq_refl) as H4. rewrite W4 in H4.
  pose proof (called_submit s6 op4 eq_refl) as H7. rewrite W7 in H7.
  pose proof (called_confirm s8 op7 eq_refl) as H9'. rewrite W9 in H9'.
  destruct (snd (called prepare _ _ _)); [|done]. destruct (snd (called submit _ _ _)); [|done].
  assert (R2 : task_run s1 1 0 [] s2).
  { eapply (task_run_step _ 0 0 [] false []); [constructor|]. by apply (receive_op s1 op0 []). }
  assert (R3 : task_run s1 2 0 [] s3).
  { eapply (task_run_step _ 1 0 [] false []); [exact R2|].
    apply (prepare_pop s2 op0 []); [done|apply pops_one]. }
  pose proof (task_run_step _ 2 0 [] false [] _ _ R3 H4) as R4.
  assert (R5 : task_run s1 4 0 [] s5).
  { eapply (task_run_step _ 3 0 [] false []); [exact R4|].
    apply (prepare_send s4 op4); [done|done|]. by rewrite I4. }
  assert (R6 : task_run s1 5 0 [] s6).
  { eapply (task_run_step _ 4 0 [] false []); [exact R5|]. by apply (submit_receive s5 op4). }
  pose proof (task_run_step _ 5 0 [] false [] _ _ R6 H7) as R7.
  assert (R8 : task_run s1 7 0 [] s8).
  { eapply (task_run_step _ 6 0 [] false []); [exact R7|].
    apply (confirm_pop s7 op7 []); [done|]. rewrite Q7. apply pops_one. }
  exact (task_run_step _ 7 0 [] false _ _ _ R8 H9').
Qed.

(** The run of the tasks within a run of the whole. *)
Lemma task_run_run moves sends s0 es0 s n w es s' :
  run moves sends s0 es0 s -> task_run s n w es s' -> run moves sends s0 (es0 ++ es) s'.
Proof.
  intros Hr Ht. induction Ht as [|n w es waits es' s1' s2' _ IH Hstep]; [by rewrite app_nil_r|].
  rewrite app_assoc. by eapply run_task.
Qed.

Lemma all_succeed_whole (moves : environment -> environment -> Prop) (sends : operation -> Prop) :
  all_succeed = true -> sends op0 ->
  run moves sends (initial start) ([Received op0] ++ events9) s9.
Proof.
  intros Ht Hs. eapply task_run_run; [|by apply all_succeed_run].
  eapply (run_outside _ _ _ [] [Received op0]); [constructor|].
  by apply (operation_sent moves sends (initial start) op0).
Qed.
End calls.

(** ** The destination is healthy *)

(** No gas was paid for or used: the database of the model is its contents. *)
Definition no_gas (c : gmap bytes bytes) : Prop :=
  (forall key, c !! entry_key origin (PaymentRow key) = None) /\
  forall id, c !! entry_key origin (ExpenditureRow id) = None \/
    c !! entry_key origin (ExpenditureRow id) = Some (to_vec InterchainGasExpenditureData_default).

Lemma no_gas_insert c row v :
  no_gas c -> (forall k, row <> PaymentRow k) -> (forall id, row <> ExpenditureRow id) ->
  no_gas (<[entry_key origin row := v]> c).
Proof.
  intros [Hp Hx] Hnp Hnx. split.
  - intros key. rewrite lookup_insert_ne; [apply Hp|].
    intros Hk. apply entry_key_inj in Hk. by eapply Hnp.
  - intros id. rewrite lookup_insert_ne; [apply Hx|].
    intros Hk. apply entry_key_inj in Hk. by eapply Hnx.
Qed.

Lemma no_gas_insert_zero c id :
  no_gas c -> no_gas (<[entry_key origin (ExpenditureRow id) :=
    to_vec InterchainGasExpenditureData_default]> c).
Proof.
  intros [Hp Hx]. split.
  - intros key. rewrite lookup_insert_ne; [apply Hp|].
    intros Hk. by apply entry_key_inj in Hk.
  - intros id'. destruct (decide (entry_key origin (ExpenditureRow id)
      = entry_key origin (ExpenditureRow id'))) as [Hk|Hk].
    + rewrite Hk, lookup_insert, decide_True by done. by right.
    + rewrite lookup_insert_ne by done. apply Hx.
Qed.

Lemma retrieve_memory `{Encode K, Decode V} row p (k : K) (c : @rocks memory) :
  prefixed_key origin p (to_vec k) = entry_key origin row ->
  retrieve_keyed_decodable (V := V) origin p k c =
  match (c : gmap bytes bytes) !! entry_key origin row with
  | None => (c, Ok None)
  | Some v => (c, map_err HyperlaneError (x ← eval_st (read_from (A := V)) v; Ok (Some x)))
  end.
Proof.
  intros Hk. unfold retrieve_keyed_decodable, retrieve_decodable, mbind, eff_bind, retrieve.
  rewrite Hk. unfold rocks_get, memory. by destruct (_ !! _).
Qed.

Lemma no_gas_expenditure (c : @rocks memory) id :
  no_gas c ->
  HyperlaneDB.retrieve_gas_expenditure_by_message_id origin id c =
  (c, Ok (InterchainGasExpenditureData_complete InterchainGasExpenditureData_default id)).
Proof.
  intros [_ Hx]. specialize (Hx id).
  unfold HyperlaneDB.retrieve_gas_expenditure_by_message_id, mbind, eff_bind,
    HyperlaneDB.retrieve_interchain_gas_expenditure_data_by_message_id.
  rewrite (retrieve_memory (ExpenditureRow id)) by done.
  destruct Hx as [-> | ->]; [done|].
  unfold eval_st. rewrite <- (app_nil_r (to_vec _)), read_from_to_vec. done.
Qed.

Lemma no_gas_payment (c : @rocks memory) key :
  no_gas c ->
  HyperlaneDB.retrieve_gas_payment_by_gas_payment_key origin key c =
  (c, Ok (InterchainGasPaymentData_complete InterchainGasPaymentData_default
     (gpk_message_id key) (gpk_destination key))).
Proof.
  intros [Hp _]. specialize (Hp key).
  unfold HyperlaneDB.retrieve_gas_payment_by_gas_payment_key, mbind, eff_bind,
    HyperlaneDB.retrieve_interchain_gas_payment_data_by_gas_payment_key.
  rewrite (retrieve_memory (PaymentRow key)) by done. by rewrite Hp.
Qed.

Lemma no_gas_meets (c : @rocks memory) msg cost :
  no_gas c ->
  message_meets_gas_payment_requirement (origin_gas_payment_enforcer context) msg cost c
  = (c, Ok (Some (estimate_gas_limit cost))).
Proof.
  intros Hc. unfold message_meets_gas_payment_requirement, mbind, eff_bind, report_db, eff_map_err.
  cbn [enforcer_db origin_gas_payment_enforcer context GasPaymentEnforcer_new].
  by rewrite no_gas_payment, no_gas_expenditure.
Qed.

Lemma zero_gas :
  FixedPointNumber_try_from (uwrap 32 0) = Some (MkFixedPointNumber (0 : @decimal integers)).
Proof.
  change (FixedPointNumber_try_from (uwrap 32 0)) with
    (Some (MkFixedPointNumber (uval (uwrap 32 0) : @decimal integers))).
  by rewrite uval_uwrap_small by (split; [done|apply umax_pos]).
Qed.

Lemma zero_tokens price :
  FixedPointNumber_try_into (FixedPointNumber_mul (MkFixedPointNumber (0 : @decimal integers)) price)
  = Some (uwrap 32 0).
Proof. reflexivity. Qed.

Lemma zero_expenditure id :
  InterchainGasExpenditure_add
    (InterchainGasExpenditureData_complete InterchainGasExpenditureData_default id)
    (MkInterchainGasExpenditure id (MkU256 (uwrap 32 0)) (MkU256 (uwrap 32 0)))
  = Some (InterchainGasExpenditureData_complete InterchainGasExpenditureData_default id).
Proof.
  unfold InterchainGasExpenditure_add. rewrite decide_True by done. reflexivity.
Qed.

Lemma no_gas_record (c : @rocks memory) msg outcome :
  no_gas c -> outcome_gas_used outcome = uwrap 32 0 ->
  record_tx_outcome (origin_gas_payment_enforcer context) msg outcome c
  = (<[entry_key origin (ExpenditureRow (Message.id msg)) :=
      to_vec InterchainGasExpenditureData_default]> (c : gmap bytes bytes), Ok tt).
Proof.
  intros Hc Ho. unfold record_tx_outcome. rewrite Ho, zero_gas. cbn [ok_or].
  unfold mbind at 1, eff_bind at 1. unfold eff_lift at 1.
  rewrite zero_tokens. cbn [ok_or].
  unfold mbind at 1, eff_bind at 1. unfold eff_lift at 1.
  unfold report_db, eff_map_err, HyperlaneDB.process_gas_expenditure,
    HyperlaneDB.update_gas_expenditure_by_message_id.
  cbn [enforcer_db origin_gas_payment_enforcer context GasPaymentEnforcer_new ige_message_id].
  unfold mbind at 1, eff_bind at 1. rewrite no_gas_expenditure by done.
  unfold mbind at 1, eff_bind at 1. rewrite zero_expenditure. reflexivity.
Qed.

(** A message of the context, and if it is taken for submitted it has arrived. *)
Definition fine_in (e : Env) (pm : PendingMessage) : Prop :=
  no_gas (env_db e) /\ ctx pm = context /\
  (submitted pm = true -> Message.id (PendingMessage.message pm) ∈ arrived (env_chain e)).

Definition well_run (m : body PendingOperationResult) (e : Env) (pm : PendingMessage)
    (ready : bool) : Prop :=
  exists e' pm' r, m (e, pm) = (e', pm', Ok r) /\ fine_in e' pm' /\
    arrived (env_chain e) ⊆ arrived (env_chain e') /\
    (r = Success \/ (ready = false /\ r = NotReady)).

(** A body that begins with the readiness check. *)
Lemma well_run_ready (f : bool -> body PendingOperationResult) e pm :
  fine_in e pm -> f false = mret NotReady ->
  (forall c, arrived c = arrived (env_chain e) -> well_run (f true) (MkEnv (env_db e) c) pm false) ->
  well_run (is_ready ≫= f) e pm false.
Proof.
  intros He Hf Ht. unfold well_run. rewrite is_ready_bind.
  destruct (next_attempt_after pm) as [a|].
  - destruct (a <=? _); [by apply Ht|]. rewrite Hf. do 3 eexists. split; [done|].
    split_and!; [done|done|auto].
  - destruct e as [d c]. by apply (Ht c).
Qed.

Ltac ends := do 3 eexists; split; [done|]; split_and!; [|done|by left]; split_and!.

Lemma prepare_well_run e pm : fine_in e pm -> well_run prepare_body e pm false.
Proof.
  intros He. apply well_run_ready; [done|done|]. intros c Hc. destruct He as (He & Hx & Hs).
  unfold well_run. cbn [negb]. rewrite self_bind, try_chain_bind.
  cbn [delivered destination env_chain env_db].
  destruct (bool_decide _) eqn:Hb.
  - apply bool_decide_eq_true_1 in Hb. rewrite update_bind, now_bind, update_bind. by ends.
  - rewrite try_chain_bind. cbn [is_contract destination env_chain env_db negb].
    rewrite try_chain_bind. cbn [recipient_ism destination env_chain env_db].
    rewrite try_chain_bind. cbn [MessageMetadataBuilder_new destination env_chain env_db].
    rewrite try_chain_bind. cbn [build destination env_chain env_db].
    rewrite try_chain_bind. cbn [process_estimate_costs destination env_chain env_db].
    rewrite try_db_bind, Hx. cbn [env_chain env_db].
    rewrite no_gas_meets by done. cbn [transaction_gas_limit context].
    rewrite update_bind. ends; [done|done|]. cbn. intros Hsub. rewrite Hc. by apply Hs.
Qed.

Lemma persist_run (d : rocks) c pm :
  ctx pm = context ->
  persist_retries (MkEnv d c, pm) =
  (MkEnv (<[entry_key origin (RetryRow (Message.id (PendingMessage.message pm))) :=
     to_vec (num_retries pm)]> (d : gmap bytes bytes) : rocks) c, pm, Ok tt).
Proof. intros Hc. unfold persist_retries. rewrite self_bind, Hc. reflexivity. Qed.

Lemma reset_well (d : rocks) c pm :
  no_gas d -> ctx pm = context ->
  exists e' pm', reset_attempts (MkEnv d c, pm) = (e', pm', Ok tt) /\ no_gas (env_db e') /\
    arrived (env_chain e') = arrived c /\ pending_identity pm' = pending_identity pm.
Proof.
  intros Hd Hc. unfold reset_attempts, set_retries.
  unfold mbind at 1, eff_bind at 1. rewrite update_bind, persist_run by done.
  rewrite update_bind, now_bind. do 2 eexists. split; [done|]. split_and!; [|done|done].
  by apply no_gas_insert.
Qed.

Lemma submit_well_run e pm :
  fine_in e pm -> pending_prepared pm -> well_run submit_body e pm true.
Proof.
  intros (He & Hc & Hs) Hp. unfold well_run, submit_body. rewrite self_bind.
  unfold pending_prepared in Hp. destruct (submitted pm) eqn:Hsub.
  { ends; [done|done|auto]. }
  destruct Hp as [data Hd]. rewrite update_bind, Hd. cbn [or_panic].
  rewrite lift_bind, try_chain_bind. cbn [process destination env_chain env_db].
  rewrite critical_db_bind, Hc. cbn [env_chain env_db].
  rewrite no_gas_record by done. cbn [executed env_chain env_db].
  rewrite update_bind. unfold mbind at 1, eff_bind at 1.
  edestruct reset_well as (e1 & pm1 & -> & He1 & Ha & Hi);
    [apply (no_gas_insert_zero _ _ He)|exact Hc|].
  rewrite now_bind, update_bind. injection Hi as Hm Hx. cbn in Ha, Hm, Hx.
  do 3 eexists. split; [done|]. split_and!; [split_and!| |by left]; cbn.
  - done.
  - by rewrite Hx.
  - intros _. rewrite Ha, Hm. left.
  - rewrite Ha. set_solver.
Qed.

Lemma confirm_well_run e pm :
  fine_in e pm -> pending_submitted pm -> well_run confirm_body e pm false.
Proof.
  intros He Hp. apply well_run_ready; [done|done|]. intros c Hc.
  destruct He as (He & Hx & Hs), Hp as [Hsub Hd]. unfold well_run. cbn [negb].
  rewrite self_bind, try_chain_bind. cbn [delivered destination env_chain env_db].
  rewrite bool_decide_eq_true_2 by (rewrite Hc; auto).
  unfold op_try_critical, record_message_process_success.
  unfold mbind at 1 2, eff_bind at 1 2. rewrite self_bind, Hx.
  do 3 eexists. split; [reflexivity|]. split_and!; [split_and!| |by left].
  - by apply (no_gas_insert (env_db e) (ProcessedRow (nonce (PendingMessage.message pm)))).
  - done.
  - cbn. intros _. rewrite Hc. auto.
  - done.
Qed.

(** The methods of the operations that are fine, as the submitter needs them. *)
Lemma fine_mono e e' pm :
  no_gas (env_db e') -> arrived (env_chain e) ⊆ arrived (env_chain e') ->
  fine_in e pm -> fine_in e' pm.
Proof. intros Hn Ha (_ & Hc & Hs). split_and!; auto. Qed.

Lemma returning_ok m s s' r : m s = (s', Ok r) -> returning m s = (s', Ok r).
Proof. unfold returning. by intros ->. Qed.

Lemma well_run_answers m (stage : PendingMessage -> Prop) ready :
  (forall e pm, fine_in e pm -> stage pm -> well_run m e pm ready) ->
  answers fine_in (returning m) stage ready.
Proof.
  intros Hm e pm He Hst. destruct (Hm e pm He Hst) as (e' & pm' & r & Hr & Hf & Ha & Hok).
  exists e', pm', r. split_and!; [exact (returning_ok _ _ _ _ Hr)|done| |done].
  - intros op2. apply fine_mono; [apply Hf|done].
Qed.

Section witnesses.
Definition op_sent : PendingMessage := fresh_message 4.

Lemma scenario_succeeds : all_succeed start op_sent = true.
Proof. vm_compute. reflexivity. Qed.

Lemma well_start : well fine_in (s1 start op_sent).
Proof.
  split_and!; [..|split_and!|].
  - split; [|repeat constructor]. repeat constructor.
  - done.
  - done.
  - done.
  - done.
  - done.
  - change (Forall (fine_in start) [op_sent]). apply Forall_cons. split; [|done].
    split_and!; [split|done|done]; [done|by left].
Qed.

Definition no_moves (e1 e2 : Env) : Prop := e1 = e2.
Definition sends_op (op : PendingMessage) : Prop := op = op_sent.

Lemma submitter_conserves_witness :
  run no_moves sends_op (initial start) ([Received op_sent] ++ events9 start op_sent)
    (s9 start op_sent) /\
  map identity (received ([Received op_sent] ++ events9 start op_sent))
  ≡ₚ map identity (ended ([Received op_sent] ++ events9 start op_sent))
     ++ map identity (held (s9 start op_sent)).
Proof.
  pose proof (all_succeed_whole start op_sent no_moves sends_op scenario_succeeds eq_refl) as Hrun.
  split; [exact Hrun|].
  eapply submitter_conserves; [|exact Hrun]. by intros op ->.
Defined.

Lemma submitter_drains_witness :
  task_run (s1 start op_sent) 8 0 (events9 start op_sent) (s9 start op_sent) /\
  ~ exists waits es s', task_step (s9 start op_sent) waits es s'.
Proof.
  destruct (all_succeed_run _ _ scenario_succeeds) as (Hrun & _ & Hh).
  split; [exact Hrun|].
  destruct (@submitter_drains memory PendingMessage_operation PendingMessage_laws fine_in
    (well_run_answers _ _ _ (λ e pm He _, prepare_well_run e pm He))
    (well_run_answers _ _ _ submit_well_run) (well_run_answers _ _ _ confirm_well_run)
    _ _ _ _ _ well_start Hrun) as (_ & Hgo & _).
  intros Hstep. exact (proj1 Hgo Hstep Hh).
Defined.

Lemma processed_only_if_delivered_witness :
  explained (rocks_contents (env_db start)) ([Received op_sent] ++ events9 start op_sent)
    (rocks_contents (env_db (env (s9 start op_sent)))) /\
  processed_row (rocks_contents (env_db (env (s9 start op_sent)))) origin (uwrap 4 4)
  = Some (to_vec true).
Proof.
  split.
  - eapply processed_only_if_delivered; [| |].
    3: exact (all_succeed_whole start op_sent no_moves sends_op scenario_succeeds eq_refl).
    + by intros op ->.
    + by intros e1 e2 ->.
  - vm_compute. reflexivity.
Defined.
End witnesses.

(** ** Single methods *)

Section method_witnesses.
#[local] Abbreviation prepare := (@prepare memory PendingMessage_operation).
#[local] Abbreviation submit := (@submit memory PendingMessage_operation).

Lemma backoff_bounded_witness :
  exists d d', calculate_msg_backoff (uwrap 4 15) = Some d /\
    calculate_msg_backoff (uwrap 4 40) = Some d' /\ d <= d'.
Proof.
  do 2 eexists. split_and!; [vm_compute; reflexivity|vm_compute; reflexivity|].
  eapply (backoff_bounded (uwrap 4 15) (uwrap 4 40)); vm_compute; [reflexivity|reflexivity|done].
Defined.

Lemma pending_order_witness :
  pending_cmp (fresh_message 4) (fresh_message 5) = Lt /\
  consistent [fresh_message 4; fresh_message 5].
Proof.
  destruct (pending_order [fresh_message 4; fresh_message 5] (fresh_message 4) (fresh_message 5))
    as (Hc & _ & Hn & _).
  { intros a b Ha Hb _ _. apply elem_of_cons in Ha, Hb.
    destruct Ha as [->|Ha%list_elem_of_singleton], Hb as [->|Hb%list_elem_of_singleton];
      by subst. }
  split; [|exact Hc]. apply Hn; [done|done|done|vm_compute; reflexivity].
Defined.

Definition prepared4 : Env * PendingMessage := fst (prepare (start, op_sent)).

Lemma prepare_success_witness :
  delivered (Message.id (message 4)) (env_chain start) = (env_chain start, Ok false) /\
  is_Some (submission_data (snd prepared4)).
Proof.
  destruct (prepare (start, op_sent)) as [[e' pm'] o] eqn:Hr.
  assert (Ho : match snd (prepare (start, op_sent)) with Ok Success => true | _ => false end = true)
    by (vm_compute; reflexivity).
  rewrite Hr in Ho. cbn [snd] in Ho. destruct o as [[]|[]|]; try discriminate Ho.
  unfold prepared4. rewrite Hr. cbn [fst snd].
  destruct (prepare_success start op_sent e' pm' Hr) as (_ & c1 & c2 & b & Hd & Hb).
  split; [reflexivity|].
  destruct b.
  - exfalso. assert (Hs : match submission_data (snd (fst (prepare (start, op_sent)))) with
      | Some _ => true | None => false end = true) by (vm_compute; reflexivity).
    destruct Hb as (c3 & t & _ & _ & Hb). rewrite Hr in Hs. cbn [fst snd] in Hs.
    rewrite Hb in Hs. discriminate Hs.
  - destruct Hb as (? & ? & ? & ? & ? & ? & metadata & cost & ? & Hb).
    destruct Hb as (_ & _ & _ & _ & _ & _ & _ & ->). by eexists.
Defined.

Lemma submit_spec_witness :
  submitted (snd (fst (submit prepared4))) = true /\
  num_retries (snd (fst (submit prepared4))) = uwrap 4 0.
Proof.
  destruct prepared4 as [e pm] eqn:Hp.
  destruct (submit (e, pm)) as [[e' pm'] o] eqn:Hr.
  assert (Ho : match snd (submit prepared4) with Ok Success => true | _ => false end = true)
    by (vm_compute; reflexivity).
  assert (Hs : submitted (snd prepared4) = false) by (vm_compute; reflexivity).
  assert (Hd : match submission_data (snd prepared4) with Some _ => true | None => false end = true)
    by (vm_compute; reflexivity).
  rewrite Hp in Ho, Hs, Hd. rewrite Hr in Ho. cbn [snd] in Ho, Hs, Hd.
  destruct o as [[]|[]|]; try discriminate Ho.
  assert (Hpp : pending_prepared pm).
  { unfold pending_prepared. rewrite Hs. destruct (submission_data pm); [by eexists|discriminate Hd]. }
  pose proof (submit_spec e pm e' pm' Success Hpp Hr) as Hspec. rewrite Hs in Hspec.
  destruct Hspec as (data & c & answer & _ & _ & _ & _ & _ & Hok).
  destruct (Hok eq_refl) as (Hsub & Hret & _). cbn [fst snd]. by split.
Defined.
End method_witnesses.

Section cycle.
#[local] Existing Instance keccak_concrete | 0.

(** The message with nonce [n] of origin [o]. *)
Definition of_origin (o n : Z) : PendingMessage :=
  PendingMessage_new (MkHyperlaneMessage (uwrap 1 3) (uwrap 4 n) (uwrap 4 o) (uwrap 32 5)
    (uwrap 4 10) (uwrap 32 6) []) context 0.

(** Comparing is not an order on messages of several origins: of these three, each comes before
    the next, and the last before the first, the messages of one origin being compared by nonce
    and those of different origins by id. *)
Theorem pending_order_cycle :
  pending_cmp (of_origin 1 1) (of_origin 1 2) = Lt /\
  pending_cmp (of_origin 1 2) (of_origin 2 1) = Lt /\
  pending_cmp (of_origin 2 1) (of_origin 1 1) = Lt.
Proof. split_and!; vm_compute; reflexivity. Qed.
End cycle.
