(* ===== verification/MessageProcessor.v ===== *)
(** * The message processor ([agents/relayer/src/msg/processor.rs])

    [MessageProcessor]: it scans the database of its origin by nonce, and sends the messages
    that are to be relayed to the submitter of their destination. The handles it holds are the
    variables of the section; what it changes is the record. Metrics and logs are left out. *)

From S2P Require Import Prelude.
From S2P Require Import Codec.
From S2P Require Import Keccak.
From S2P Require Import U256.
From S2P Require Import Message.
From S2P Require Import Chain.
From S2P Require Import Database.
From S2P Require Import DatabaseCorrect.
From S2P Require Import DatabaseTheorems.
From S2P Require Import MatchingList.
From S2P Require Import GasPayment.
From S2P Require Import PendingOperation.
From S2P Require Import PendingMessage.
From S2P Require Import PendingMessageCorrect.
From stdpp Require Import base gmap list numbers strings.
From Stdlib Require Import ZArith Lia.

#[local] Open Scope Z_scope.

Section message_processor.
Context `{RocksDB, BigDecimal, U256Ops, Keccak256, !Destination}.

(** An unbounded channel: what was sent, and whether the receiver is there. *)
Record Channel := MkChannel { sent : list PendingMessage; receiver : bool }.

(** [UnboundedSender::send] *)
Definition send (op : PendingMessage) (c : Channel) : option Channel :=
  if receiver c then Some (MkChannel (sent c ++ [op]) true) else None.

Record MessageProcessor := MkMessageProcessor {
  processor_env : Env;
  send_channels : gmap Z Channel;
  message_nonce : u32
}.

Variable db_domain : Domain.HyperlaneDomain.
Variable whitelist blacklist : MatchingList.
Variable destination_ctxs : gmap Z MessageContext.

Definition processor (A : Type) : Type := eff MessageProcessor Report A.

Definition set_nonce (n : u32) (p : MessageProcessor) : MessageProcessor :=
  MkMessageProcessor (processor_env p) (send_channels p) n.
Definition set_processor_env (e : Env) (p : MessageProcessor) : MessageProcessor :=
  MkMessageProcessor e (send_channels p) (message_nonce p).

(** A call of the database. *)
Definition processor_db {A} (m : db A) : processor A := λ p,
  let '(d, r) := report_db m (env_db (processor_env p)) in
  (set_processor_env (MkEnv d (env_chain (processor_env p))) p, r).

(** [self.message_nonce += 1] *)
Definition next_nonce : processor unit := λ p,
  (set_nonce (uwrap 4 (message_nonce p + 1)) p, Ok tt).

(** [MessageProcessor::try_get_unprocessed_message], for at most [fuel] rounds of its loop; the
    outer [None] says that more are needed. *)
Fixpoint try_get_unprocessed_message (fuel : nat) :
    processor (option (option HyperlaneMessage)) :=
  match fuel with
  | O => mret None
  | S fuel =>
      p ← eff_get;
      message ← processor_db (HyperlaneDB.retrieve_message_by_nonce db_domain (message_nonce p));
      match message with
      | None => mret (Some None)
      | Some message =>
          processed ← processor_db
            (HyperlaneDB.retrieve_processed_by_nonce db_domain (message_nonce p));
          if negb (default false processed) then mret (Some (Some message))
          else next_nonce;; try_get_unprocessed_message fuel
      end
  end.

(** [PendingMessage::from_persisted_retries] on the environment of the processor *)
Definition make_pending (msg : HyperlaneMessage) (ctx : MessageContext) :
    processor PendingMessage := λ p,
  match from_persisted_retries msg ctx (processor_env p) with
  | (e, Ok pm) => (set_processor_env e p, Ok pm)
  | (e, _) => (set_processor_env e p, Panic)
  end.

(** [self.send_channels[&destination].send(..)?] *)
Definition send_to (destination : u32) (op : PendingMessage) : processor unit := λ p,
  match send_channels p !! uval destination with
  | None => (p, Panic)
  | Some c =>
      match send op c with
      | None => (p, Err ChainReport)
      | Some c =>
          (MkMessageProcessor (processor_env p) (<[uval destination := c]> (send_channels p))
             (message_nonce p), Ok tt)
      end
  end.

(** [MessageProcessor::tick], less the pause when there is no message; [None] says that its
    inner loop needs more fuel. *)
Definition processor_tick (fuel : nat) : processor (option unit) :=
  msg ← try_get_unprocessed_message fuel;
  match msg with
  | None => mret None
  | Some None => mret (Some tt)
  | Some (Some msg) =>
      let dst := destination msg in
      p ← eff_get;
      if negb (msg_matches whitelist msg true) then next_nonce;; mret (Some tt)
      else if msg_matches blacklist msg false then next_nonce;; mret (Some tt)
      else if bool_decide (dst = Domain.id db_domain) then next_nonce;; mret (Some tt)
      else if bool_decide (send_channels p !! uval dst = None) then next_nonce;; mret (Some tt)
      else
        ctx ← eff_lift (or_panic (destination_ctxs !! uval dst));
        pending_msg ← make_pending msg ctx;
        send_to dst pending_msg;;
        next_nonce;;
        mret (Some tt)
  end.

(** [Processor::main_loop], for some rounds; an error ends it. *)
Fixpoint processor_ticks (fuel rounds : nat) : processor (option unit) :=
  match rounds with
  | O => mret (Some tt)
  | S rounds =>
      r ← processor_tick fuel;
      match r with
      | None => mret None
      | Some _ => processor_ticks fuel rounds
      end
  end.

End message_processor.
