(* ===== verification/MessageProcessorTheorems.v ===== *)
(** * Properties of the message processor *)

From S2P Require Import Prelude.
From S2P Require Import Codec.
From S2P Require Import Keccak.
From S2P Require Import U256.
From S2P Require Import Message.
From S2P Require Import Chain.
From S2P Require Import Database.
From S2P Require Import DatabaseCorrect.
From S2P Require Import DatabaseTheorems.
From S2P Require Import MatchingList.
From S2P Require Import GasPayment.
From S2P Require Import PendingOperation.
From S2P Require Import PendingMessage.
From S2P Require Import PendingMessageCorrect.
From S2P Require Import MessageProcessor.
From S2P Require Import GasPaymentTheorems.
From S2P Require Import SerialSubmitter.
From S2P Require Import SubmitterScenario.
From stdpp Require Import base gmap list numbers strings.
From Stdlib Require Import ZArith Lia.

#[local] Open Scope Z_scope.

Section processor.
Context `{RocksDBLaws, BigDecimal, U256Ops, Keccak256, !Destination}.
Variable dom : Domain.HyperlaneDomain.
Variable whitelist blacklist : MatchingList.
Variable ctxs : gmap Z MessageContext.

(** A database that is not written to, and can be read. *)
Variable d : rocks.
Definition readable : Prop :=
  forall n, (exists x, HyperlaneDB.retrieve_message_by_nonce dom n d = (d, Ok x)) /\
    (exists x, HyperlaneDB.retrieve_processed_by_nonce dom n d = (d, Ok x)) /\
    forall id, snd (HyperlaneDB.retrieve_pending_message_retry_count_by_message_id dom id d) <> Panic.

(** The message with a nonce, and whether it is recorded as processed. *)
Definition message_at (n : u32) : option HyperlaneMessage :=
  match HyperlaneDB.retrieve_message_by_nonce dom n d with (_, Ok x) => x | _ => None end.
Definition processed_at (n : u32) : bool :=
  match HyperlaneDB.retrieve_processed_by_nonce dom n d with
  | (_, Ok x) => default false x | _ => false end.

(** The messages of [k] nonces from [n] that are not processed, in order. *)
Fixpoint pending_from (k : nat) (n : Z) : list HyperlaneMessage :=
  match k with
  | O => []
  | S k =>
      match message_at (uwrap 4 n) with
      | Some m => if processed_at (uwrap 4 n) then [] else [m]
      | None => []
      end ++ pending_from k (n + 1)
  end.

(** There are messages with [k] nonces from [n], and none after. *)
Definition stored_to (k : nat) (n : Z) : Prop :=
  0 <= n /\ n + Z.of_nat k < 2 ^ 32 /\
  (forall i : Z, n <= i < n + Z.of_nat k -> is_Some (message_at (uwrap 4 i))) /\
  message_at (uwrap 4 (n + Z.of_nat k)) = None.

Lemma stored_to_S k n : stored_to (S k) n -> stored_to k (n + 1).
Proof.
  intros (Hn & Hk & Hs & Hl). split_and!; [lia|lia| |].
  - intros i Hi. apply Hs. lia.
  - rewrite <- Hl. do 2 f_equal. lia.
Qed.

Lemma next_nonce_val n : 0 <= n -> n + 1 < 2 ^ 32 -> uwrap 4 (uval (uwrap 4 n) + 1) = uwrap 4 (n + 1).
Proof.
  intros Hn Hl. rewrite uval_uwrap_small; [done|]. change (umax 4) with (2 ^ 32). lia.
Qed.

Implicit Types ch : gmap Z Channel.

Lemma db_message c ch n :
  readable ->
  processor_db (HyperlaneDB.retrieve_message_by_nonce dom n)
    (MkMessageProcessor (MkEnv d c) ch n) =
  (MkMessageProcessor (MkEnv d c) ch n, Ok (message_at n)).
Proof.
  intros Hr. destruct (Hr n) as ((x & Hx) & _). unfold processor_db, report_db, eff_map_err, message_at.
  cbn [processor_env env_db env_chain]. by rewrite Hx.
Qed.

Lemma db_processed c ch n :
  readable ->
  exists x, processor_db (HyperlaneDB.retrieve_processed_by_nonce dom n)
    (MkMessageProcessor (MkEnv d c) ch n) =
  (MkMessageProcessor (MkEnv d c) ch n, Ok x) /\ default false x = processed_at n.
Proof.
  intros Hr. destruct (Hr n) as (_ & (x & Hx) & _). exists x.
  unfold processor_db, report_db, eff_map_err, processed_at.
  cbn [processor_env env_db env_chain]. by rewrite Hx.
Qed.

(** The inner loop passes over the processed messages. *)
Lemma try_get_spec k fuel n c ch :
  readable -> stored_to k n -> (k < fuel)%nat ->
  exists j r, (j <= k)%nat /\ pending_from k n = pending_from (k - j) (n + Z.of_nat j) /\
    try_get_unprocessed_message dom fuel (MkMessageProcessor (MkEnv d c) ch (uwrap 4 n)) =
      (MkMessageProcessor (MkEnv d c) ch (uwrap 4 (n + Z.of_nat j)), Ok (Some r)) /\
    match r with
    | None => j = k
    | Some m => (j < k)%nat /\ message_at (uwrap 4 (n + Z.of_nat j)) = Some m /\
        processed_at (uwrap 4 (n + Z.of_nat j)) = false
    end.
Proof.
  intros Hr. revert fuel n. induction k as [|k IH]; intros fuel n Hst Hf;
    (destruct fuel as [|fuel]; [lia|]); cbn [try_get_unprocessed_message];
    unfold mbind at 1, eff_bind at 1, eff_get; cbn [message_nonce];
    unfold mbind at 1, eff_bind at 1; rewrite db_message by done;
    destruct (Hst) as (Hn & Hk & Hs & Hl).
  - rewrite Z.add_0_r in Hl. rewrite Hl. exists 0%nat, None. rewrite Z.add_0_r. by split_and!.
  - destruct (Hs n) as [m Hm]; [lia|]. rewrite Hm.
    unfold mbind at 1, eff_bind at 1.
    destruct (db_processed c ch (uwrap 4 n) Hr) as (x & -> & ->).
    destruct (processed_at (uwrap 4 n)) eqn:Hp; cbn [negb].
    + unfold mbind at 1, eff_bind at 1, next_nonce, set_nonce.
      cbn [message_nonce processor_env send_channels]. rewrite next_nonce_val by lia.
      destruct (IH fuel (n + 1)) as (j & r & Hj & Hpend & Hrun & Hres);
        [by apply stored_to_S|lia|].
      exists (S j), r. replace (n + Z.of_nat (S j)) with (n + 1 + Z.of_nat j) by lia.
      split_and!; [lia| |done|destruct r; [|lia]; by destruct Hres as (? & ? & ?); split_and!; [lia| |]].
      cbn [pending_from]. rewrite Hm, Hp. exact Hpend.
    + exists 0%nat, (Some m). rewrite Z.add_0_r. split_and!; try done; lia.
Qed.

(** ** What is sent *)

(** A message is to be sent to the submitter of domain [k]. *)
Definition relay_to (k : Z) (m : HyperlaneMessage) : bool :=
  msg_matches whitelist m true && negb (msg_matches blacklist m false)
  && negb (bool_decide (destination m = Domain.id dom)) && bool_decide (uval (destination m) = k).

(** Every channel has received exactly the messages of a list that are for it, in order, each
    fresh and in the context of its destination. *)
Definition relayed ch (msgs : list HyperlaneMessage) ch' : Prop :=
  forall k, match ch !! k with
  | None => ch' !! k = None
  | Some chan => exists ops, ch' !! k = Some (MkChannel (sent chan ++ ops) (receiver chan)) /\
      map message ops = filter (λ m, relay_to k m = true) msgs /\
      Forall (λ op, pending_fresh op /\ ctxs !! k = Some (ctx op)) ops
  end.

Lemma relayed_none ch m :
  (forall k, is_Some (ch !! k) -> relay_to k m = false) -> relayed ch [m] ch.
Proof.
  intros Hm k. destruct (ch !! k) as [[l b]|] eqn:Hk; [|done]. exists []. rewrite app_nil_r.
  split_and!; [done| |done]. cbn. rewrite decide_False; [done|]. rewrite Hm; [done|by eexists].
Qed.

Lemma relayed_nil ch : relayed ch [] ch.
Proof.
  intros k. destruct (ch !! k) as [[l b]|] eqn:Hk; [|done]. exists []. by rewrite app_nil_r.
Qed.

Lemma relayed_trans ch ch1 ch2 l1 l2 :
  relayed ch l1 ch1 -> relayed ch1 l2 ch2 -> relayed ch (l1 ++ l2) ch2.
Proof.
  intros Hr1 Hr2 k. specialize (Hr1 k). specialize (Hr2 k).
  destruct (ch !! k) as [chan|]; [|by rewrite Hr1 in Hr2].
  destruct Hr1 as (ops1 & Hk1 & Hm1 & Hf1). rewrite Hk1 in Hr2.
  destruct Hr2 as (ops2 & Hk2 & Hm2 & Hf2). exists (ops1 ++ ops2). cbn [sent receiver] in Hk2.
  rewrite app_assoc, map_app, filter_app, Hm1, Hm2. split_and!; [done|done|by apply Forall_app].
Qed.

(** Channels that can be sent to: the receiver is there, and the context. *)
Definition served ch : Prop :=
  forall k chan, ch !! k = Some chan -> receiver chan = true /\ is_Some (ctxs !! k).

Lemma relayed_served ch l ch' : served ch -> relayed ch l ch' -> served ch'.
Proof.
  intros Hs Hr k chan Hk. specialize (Hr k). destruct (ch !! k) as [chan0|] eqn:Hk0; [|congruence].
  destruct Hr as (ops & Hk' & _). rewrite Hk in Hk'. injection Hk' as ->. cbn. by apply Hs.
Qed.

Lemma make_pending_run msg ctx c ch n :
  readable -> origin_db ctx = dom -> exists c' pm,
    make_pending msg ctx (MkMessageProcessor (MkEnv d c) ch n) =
      (MkMessageProcessor (MkEnv d c') ch n, Ok pm) /\
    message pm = msg /\ PendingMessage.ctx pm = ctx /\ pending_fresh pm.
Proof.
  intros Hr Ho. destruct (Hr n) as (_ & _ & Hp). specialize (Hp (Message.id msg)).
  unfold make_pending, from_persisted_retries. cbn [processor_env env_db env_chain].
  destruct (instant_now c) as [c1 t1]. rewrite Ho.
  pose proof (retrieve_state (V := u32) dom PENDING_MESSAGE_RETRY_COUNT_FOR_MESSAGE_ID
    (Message.id msg) d) as Hst.
  unfold HyperlaneDB.retrieve_pending_message_retry_count_by_message_id in *.
  destruct (retrieve_keyed_decodable _ _ _ d) as [d1 [[n1|]|e|]]; cbn in Hst, Hp; subst d1; [..|done].
  - destruct (calculate_msg_backoff n1).
    + destruct (instant_now c1) as [c2 t2]. by do 2 eexists.
    + by do 2 eexists.
  - by do 2 eexists.
  - by do 2 eexists.
Qed.

(** The contexts are those of the origin. *)
Definition own_contexts : Prop := forall k ctx, ctxs !! k = Some ctx -> origin_db ctx = dom.

(** One round: some messages are passed, and at most one of them sent. *)
Lemma tick_spec k fuel n c ch :
  readable -> own_contexts -> stored_to k n -> (k < fuel)%nat -> served ch ->
  exists j c' ch' l, (j <= k)%nat /\ (j = 0%nat -> k = 0%nat) /\
    pending_from k n = l ++ pending_from (k - j) (n + Z.of_nat j) /\ relayed ch l ch' /\
    processor_tick dom whitelist blacklist ctxs fuel
      (MkMessageProcessor (MkEnv d c) ch (uwrap 4 n)) =
    (MkMessageProcessor (MkEnv d c') ch' (uwrap 4 (n + Z.of_nat j)), Ok (Some tt)).
Proof.
  intros Hr Ho Hst Hf Hs. pose proof Hst as (Hn & Hk & _).
  destruct (try_get_spec k fuel n c ch Hr Hst Hf) as (j & r & Hj & Hp & Hrun & Hres).
  unfold processor_tick. unfold mbind at 1, eff_bind at 1. rewrite Hrun.
  destruct r as [m|].
  2:{ subst j. exists k, c, ch, []. split_and!; [lia|lia|done|apply relayed_nil|done]. }
  destruct Hres as (Hjk & Hm & Hpr).
  assert (Hpend : pending_from k n = [m] ++ pending_from (k - S j) (n + Z.of_nat (S j))).
  { rewrite Hp. replace (k - j)%nat with (S (k - S j)) by lia. cbn [pending_from].
    rewrite Hm, Hpr. do 2 f_equal. lia. }
  unfold mbind at 1, eff_bind at 1, eff_get. cbn [send_channels].
  assert (Hnext : forall c' ch', (next_nonce;; mret (Some tt)) (MkMessageProcessor (MkEnv d c') ch'
      (uwrap 4 (n + Z.of_nat j))) =
    (MkMessageProcessor (MkEnv d c') ch' (uwrap 4 (n + Z.of_nat (S j))),
     Ok (Some tt) : outcome Report (option unit))).
  { intros c' ch'. unfold mbind, eff_bind, next_nonce, set_nonce.
    cbn [message_nonce processor_env send_channels]. rewrite next_nonce_val by lia.
    replace (n + Z.of_nat j + 1) with (n + Z.of_nat (S j)) by lia. done. }
  assert (Hskip : (forall k', is_Some (ch !! k') -> relay_to k' m = false) ->
    exists j0 c' ch' l, (j0 <= k)%nat /\ (j0 = 0%nat -> k = 0%nat) /\
      pending_from k n = l ++ pending_from (k - j0) (n + Z.of_nat j0) /\ relayed ch l ch' /\
      (next_nonce;; mret (Some tt)) (MkMessageProcessor (MkEnv d c) ch (uwrap 4 (n + Z.of_nat j))) =
      (MkMessageProcessor (MkEnv d c') ch' (uwrap 4 (n + Z.of_nat j0)),
       Ok (Some tt) : outcome Report (option unit))).
  { intros Hno. exists (S j), c, ch, [m].
    split_and!; [lia|lia|done|by apply relayed_none|apply Hnext]. }
  destruct (msg_matches whitelist m true) eqn:Hw; cbn [negb].
  2:{ apply Hskip. intros k' _. unfold relay_to. by rewrite Hw. }
  destruct (msg_matches blacklist m false) eqn:Hb.
  { apply Hskip. intros k' _. unfold relay_to. by rewrite Hb, andb_false_r. }
  case_bool_decide as Hself.
  { apply Hskip. intros k' _. unfold relay_to. rewrite bool_decide_eq_true_2 by done.
    by rewrite andb_false_r. }
  case_bool_decide as Hnone.
  { apply Hskip. intros k' [x Hx]. unfold relay_to.
    rewrite (bool_decide_eq_false_2 (uval (destination m) = k')); [by rewrite andb_false_r|].
    intros <-. congruence. }
  destruct (ch !! uval (destination m)) as [chan|] eqn:Hchan; [|done].
  destruct (Hs _ _ Hchan) as [Hrecv [cx Hcx]]. rewrite Hcx. cbn [or_panic].
  unfold mbind at 1, eff_bind at 1, eff_lift.
  unfold mbind at 1, eff_bind at 1.
  destruct (make_pending_run m cx c ch (uwrap 4 (n + Z.of_nat j)) Hr (Ho _ _ Hcx))
    as (c' & pm & -> & Hpm & Hcpm & Hfresh).
  unfold mbind at 1, eff_bind at 1, send_to. cbn [send_channels processor_env message_nonce].
  rewrite Hchan. unfold send. rewrite Hrecv, Hnext.
  eexists (S j), c', _, [m]. split_and!; [lia|lia|exact Hpend| |done].
  intros k'. destruct (decide (k' = uval (destination m))) as [->|Hne].
  - rewrite Hchan, lookup_insert, decide_True by done. exists [pm]. rewrite Hrecv.
    split_and!; [done| |repeat constructor; rewrite ?Hcpm; by destruct Hfresh].
    cbn. rewrite decide_True; [by rewrite Hpm|]. unfold relay_to.
    rewrite Hw, Hb, bool_decide_eq_false_2, bool_decide_eq_true_2 by done. done.
  - rewrite lookup_insert_ne by done. destruct (ch !! k') as [[l b]|] eqn:Hk'; [|done].
    exists []. rewrite app_nil_r. split_and!; [done| |done]. cbn. rewrite decide_False; [done|].
    unfold relay_to. rewrite (bool_decide_eq_false_2 (uval (destination m) = k')) by congruence.
    by rewrite andb_false_r.
Qed.

(** C32. Which messages are relayed. Over a database that is not written to and can be read, from a
    nonce from which [k] messages are stored and no more, [k] rounds of the processor, or any
    larger number, do the following: the processor ends at the first nonce without a message,
    and every submitter has been sent exactly the messages that are not recorded as processed,
    are whitelisted, not blacklisted, not for the origin itself and for its domain, in the order
    of their nonces, each once, fresh and in the context of the destination. Nothing is sent
    for a domain without a submitter, and no round fails or runs out of the given fuel. *)
Theorem processor_relays rounds k fuel n c ch :
  readable -> own_contexts -> stored_to k n -> (k < fuel)%nat -> (k <= rounds)%nat -> served ch ->
  exists c' ch', relayed ch (pending_from k n) ch' /\
    processor_ticks dom whitelist blacklist ctxs fuel rounds
      (MkMessageProcessor (MkEnv d c) ch (uwrap 4 n)) =
    (MkMessageProcessor (MkEnv d c') ch' (uwrap 4 (n + Z.of_nat k)), Ok (Some tt)).
Proof.
  intros Hr Ho. revert k n c ch. induction rounds as [|rounds IH]; intros k n c ch Hst Hf Hk Hs.
  - assert (k = 0%nat) as -> by lia. exists c, ch. split; [apply relayed_nil|].
    by rewrite Z.add_0_r.
  - cbn [processor_ticks]. unfold mbind at 1, eff_bind at 1.
    destruct (tick_spec k fuel n c ch Hr Ho Hst Hf Hs) as (j & c1 & ch1 & l & Hj & Hz & Hp & Hrel & ->).
    destruct Hst as (Hn & Hlt & Hall & Hlast).
    destruct (IH (k - j)%nat (n + Z.of_nat j) c1 ch1) as (c2 & ch2 & Hrel2 & Hrun).
    + split_and!; [lia|lia|intros i Hi; apply Hall; lia|]. rewrite <- Hlast. do 2 f_equal. lia.
    + lia.
    + lia.
    + by eapply relayed_served.
    + exists c2, ch2. split; [rewrite Hp; by eapply relayed_trans|]. rewrite Hrun.
      do 3 f_equal. lia.
Qed.
End processor.

(** ** At a concrete database *)

Section witness.
Import DatabaseModel GasPaymentModel SubmitterModel.

(** A database with one message, of nonce 0. *)
Definition one_message : gmap bytes bytes :=
  <[entry_key origin (MessageIdRow (uwrap 4 0)) := to_vec (Message.id (DatabaseModel.message 0))]>
    (<[entry_key origin (MessageRow (Message.id (DatabaseModel.message 0))) :=
       to_vec (DatabaseModel.message 0)]> ∅).

Lemma one_message_id n :
  one_message !! entry_key origin (MessageIdRow n)
  = if decide (n = uwrap 4 0) then Some (to_vec (Message.id (DatabaseModel.message 0))) else None.
Proof.
  unfold one_message. case_decide as Hn.
  - subst n. by rewrite lookup_insert, decide_True.
  - rewrite lookup_insert_ne by (intros Hk; apply entry_key_inj in Hk; congruence).
    rewrite lookup_insert_ne by (intros Hk; by apply entry_key_inj in Hk). done.
Qed.

Lemma one_message_other e :
  (forall n, e <> MessageIdRow n) -> (forall id, e <> MessageRow id) ->
  one_message !! entry_key origin e = None.
Proof.
  intros Hn Hm. unfold one_message.
  rewrite lookup_insert_ne by (intros Hk; apply entry_key_inj in Hk; by eapply Hn).
  rewrite lookup_insert_ne by (intros Hk; apply entry_key_inj in Hk; by eapply Hm). done.
Qed.

Lemma read_one_message n :
  HyperlaneDB.retrieve_message_by_nonce origin n (one_message : rocks)
  = (one_message : rocks, Ok (if decide (n = uwrap 4 0) then Some (DatabaseModel.message 0) else None)).
Proof.
  unfold HyperlaneDB.retrieve_message_by_nonce, mbind, eff_bind,
    HyperlaneDB.retrieve_message_id_by_nonce.
  rewrite (retrieve_memory (MessageIdRow n)), one_message_id by done.
  case_decide as Hn; [|done]. unfold eval_st at 1.
  rewrite <- (app_nil_r (to_vec (Message.id _))), (read_from_to_vec (A := H256)).
  unfold HyperlaneDB.retrieve_message_by_id.
  cbn [map_err mbind outcome_bind].
  rewrite (retrieve_memory (MessageRow (Message.id (DatabaseModel.message 0)))) by done.
  unfold one_message.
  rewrite lookup_insert_ne by (intros Hk; by apply entry_key_inj in Hk).
  rewrite lookup_insert, decide_True by done. unfold eval_st. by rewrite HyperlaneMessage_read.
Qed.

Lemma one_message_readable : readable origin (one_message : rocks).
Proof.
  intros n. split_and!.
  - eexists. apply read_one_message.
  - eexists. unfold HyperlaneDB.retrieve_processed_by_nonce.
    rewrite (retrieve_memory (ProcessedRow n)), one_message_other by done. done.
  - intros id. unfold HyperlaneDB.retrieve_pending_message_retry_count_by_message_id.
    rewrite (retrieve_memory (RetryRow id)), one_message_other by done. done.
Qed.

Lemma processor_relays_witness :
  exists ch' chan, relayed origin None None {[10 := context]} {[10 := MkChannel [] true]}
      [DatabaseModel.message 0] ch' /\
    ch' !! 10 = Some chan /\ map PendingMessage.message (sent chan) = [DatabaseModel.message 0].
Proof.
  destruct (processor_relays origin None None {[10 := context]} (one_message : @rocks memory) 1 1 2 0
    (env_chain start) {[10 := MkChannel [] true]}) as (c' & ch' & Hrel & _).
  - exact one_message_readable.
  - intros k ctx [_ <-]%lookup_singleton_Some. reflexivity.
  - split_and!; [done|done| |].
    + intros i Hi. assert (i = 0) as -> by lia. unfold message_at. rewrite read_one_message.
      rewrite decide_True by done. by eexists.
    + unfold message_at. rewrite read_one_message. rewrite decide_False; [done|].
      intros Hu. apply (f_equal uval) in Hu. vm_compute in Hu. discriminate Hu.
  - lia.
  - lia.
  - intros k chan [<- <-]%lookup_singleton_Some. split; [done|]. rewrite lookup_singleton.
    by eexists.
  - assert (Hp : pending_from origin (one_message : @rocks memory) 1 0 = [DatabaseModel.message 0]).
    { cbn [pending_from]. unfold message_at, processed_at. rewrite read_one_message.
      rewrite decide_True by done. unfold HyperlaneDB.retrieve_processed_by_nonce.
      rewrite (retrieve_memory (ProcessedRow _)), one_message_other by done. done. }
    rewrite Hp in Hrel. pose proof (Hrel 10) as H10. rewrite lookup_singleton in H10.
    rewrite decide_True in H10 by done.
    destruct H10 as (ops & Hch & Hops & _). eexists ch', _. split_and!; [exact Hrel|exact Hch|].
    cbn [sent app]. rewrite Hops. vm_compute. reflexivity.
Defined.
End witness.
