(* ===== verification/CheckpointStorage.v ===== *)
(** * Where validators keep their checkpoints ([hyperlane-base/src])

    [traits/checkpoint_syncer.rs]: the trait of storages; [types/local_storage.rs] and
    [types/s3_storage.rs]: its implementations over a file system and over S3;
    [settings/checkpoint_syncer.rs]: the storage a location names. The file system, the client
    of S3 and the JSON of the records are parameters; metrics are left out. *)

From S2P Require Import Prelude.
From S2P Require Import Codec.
From S2P Require Import Keccak.
From S2P Require Import Message.
From S2P Require Import MatchingList.
From stdpp Require Import base gmap list numbers strings pretty.
From Stdlib Require Import ZArith Lia Ascii.

#[local] Open Scope Z_scope.

(** ** Strings of the standard library *)

(** [str::split] by a pattern: the pieces between its leftmost occurrences; [skip] characters
    are the rest of an occurrence, [piece] is the present piece, reversed. *)
Fixpoint split_go (pattern : string) (skip : nat) (piece s : string) : list string :=
  match s with
  | EmptyString => [String.rev piece]
  | String c s' =>
      match skip with
      | S skip => split_go pattern skip piece s'
      | O =>
          if String.prefix pattern s
          then String.rev piece :: split_go pattern (String.length pattern - 1) "" s'
          else split_go pattern 0 (String c piece) s'
      end
  end.

Definition str_split (pattern s : string) : list string := split_go pattern 0 "" s.

(** [u32::to_string] *)
Definition u32_to_string (x : u32) : string := pretty (Z.to_N (uval x)).

(** [PathBuf::join] with a relative path, on Unix. *)
Definition ends_with_slash (path : string) : bool :=
  bool_decide (String.substring (String.length path - 1) 1 path = "/"%string).
Definition path_join (path component : string) : string :=
  if bool_decide (path = ""%string) || ends_with_slash path then path +:+ component
  else path +:+ "/" +:+ component.

Definition string_of_bytes (l : bytes) : string :=
  String.string_of_list_ascii ((λ b : u8, ascii_of_nat (Z.to_nat (uval b))) <$> l).

(** ** The outside world *)

Inductive GetObjectResult := Body (body : bytes) | NoBody | NoSuchKey.

Class StorageIO := {
  storage : Type;
  (** [eyre::Report] *)
  report : Type;
  (** [Path::exists], [create_dir_all], [tokio::fs::read] and [write] *)
  path_exists : string -> storage -> bool;
  create_dir_all : string -> eff storage report unit;
  fs_read : string -> eff storage report bytes;
  fs_write : string -> bytes -> eff storage report unit;
  (** [rusoto_core::Region] *)
  Region : Type;
  region_from_str : string -> option Region;
  region_name : Region -> string;
  (** [S3Client::get_object] of the anonymous client and [put_object] of the authenticated one,
      of a region, a bucket and a key, under the timeout; an elapsed timeout is an error *)
  get_object : Region -> string -> string -> eff storage report GetObjectResult;
  put_object : Region -> string -> string -> bytes -> eff storage report unit
}.

(** [serde_json] on the records, and [ParseIntError] as a report. *)
Class SyncerJson `{StorageIO} := {
  checkpoint_to_json : SignedCheckpointWithMessageId -> outcome report bytes;
  checkpoint_from_json : bytes -> outcome report SignedCheckpointWithMessageId;
  announcement_to_json : SignedType Announcement -> outcome report bytes;
  index_to_json : u32 -> outcome report bytes;
  index_from_json : bytes -> outcome report u32;
  parse_int_error : report
}.

(** [option.map(f).transpose()] *)
Definition map_transpose {E A B} (f : A -> outcome E B) (o : option A) : outcome E (option B) :=
  match o with
  | Some a => b ← f a; Ok (Some b)
  | None => Ok None
  end.

(** ** [traits/checkpoint_syncer.rs] *)

Class CheckpointSyncer `{StorageIO} (A : Type) := {
  latest_index : A -> eff storage report (option u32);
  write_latest_index : A -> u32 -> eff storage report unit;
  fetch_checkpoint : A -> u32 -> eff storage report (option SignedCheckpointWithMessageId);
  write_checkpoint : A -> SignedCheckpointWithMessageId -> eff storage report unit;
  write_announcement : A -> SignedType Announcement -> eff storage report unit;
  announcement_location : A -> string
}.

(** The provided method. *)
Definition update_latest_index `{CheckpointSyncer A} (self : A) (index : u32) :
    eff storage report unit :=
  latest ← latest_index self;
  let curr := from_option uval 0 latest in
  if curr <? uval index then write_latest_index self index else mret tt.

Section storages.
Context `{StorageIO, !SyncerJson}.

(** ** [types/local_storage.rs] *)

Record LocalStorage := MkLocalStorage { local_path : string }.

(** [LocalStorage::new] *)
Definition LocalStorage_new (path : string) : eff storage report LocalStorage := λ s,
  (if path_exists path s then mret (MkLocalStorage path)
   else create_dir_all path;; mret (MkLocalStorage path)) s.

Definition checkpoint_file_path (self : LocalStorage) (index : u32) : string :=
  path_join (local_path self) (u32_to_string index +:+ "_with_id.json").
Definition latest_index_file_path (self : LocalStorage) : string :=
  path_join (local_path self) "index.json".
Definition announcement_file_path (self : LocalStorage) : string :=
  path_join (local_path self) "announcement.json".

#[export] Instance LocalStorage_syncer : CheckpointSyncer LocalStorage := {|
  latest_index := λ self,
    data ← eff_try (fs_read (latest_index_file_path self));
    match data with
    | inr data =>
        if utf8_valid data then
          match parse_u32 (string_of_bytes data) with
          | Some index => mret (Some index)
          | None => eff_lift (Err parse_int_error)
          end
        else mret None
    | inl _ => mret None
    end;
  write_latest_index := λ self index,
    fs_write (latest_index_file_path self) (bstr (u32_to_string index));
  fetch_checkpoint := λ self index,
    data ← eff_try (fs_read (checkpoint_file_path self index));
    match data with
    | inr data => checkpoint ← eff_lift (checkpoint_from_json data); mret (Some checkpoint)
    | inl _ => mret None
    end;
  write_checkpoint := λ self signed_checkpoint,
    serialized_checkpoint ← eff_lift (checkpoint_to_json signed_checkpoint);
    fs_write
      (checkpoint_file_path self (checkpoint_index (checkpoint (value signed_checkpoint))))
      serialized_checkpoint;
  write_announcement := λ self signed_announcement,
    serialized_announcement ← eff_lift (announcement_to_json signed_announcement);
    fs_write (announcement_file_path self) serialized_announcement;
  announcement_location := λ self, "file://" +:+ local_path self
|}.

(** ** [types/s3_storage.rs] *)

Record S3Storage := MkS3Storage {
  s3_bucket : string;
  s3_folder : option string;
  s3_region : Region
}.

Definition get_composite_key (self : S3Storage) (key : string) : string :=
  match s3_folder self with
  | None => key
  | Some folder_str =>
      if bool_decide (folder_str = ""%string) then key else folder_str +:+ "/" +:+ key
  end.

Definition write_to_bucket (self : S3Storage) (key : string) (body : bytes) :
    eff storage report unit :=
  put_object (s3_region self) (s3_bucket self) (get_composite_key self key) body.

Definition anonymously_read_from_bucket (self : S3Storage) (key : string) :
    eff storage report (option bytes) :=
  get_object_result ← get_object (s3_region self) (s3_bucket self) (get_composite_key self key);
  match get_object_result with
  | Body body => mret (Some body)
  | NoBody => mret None
  | NoSuchKey => mret None
  end.

Definition checkpoint_key (index : u32) : string :=
  "checkpoint_" +:+ u32_to_string index +:+ "_with_id.json".
Definition latest_index_key : string := "checkpoint_latest_index.json".
Definition announcement_key : string := "announcement.json".

#[export] Instance S3Storage_syncer : CheckpointSyncer S3Storage := {|
  latest_index := λ self,
    data ← anonymously_read_from_bucket self latest_index_key;
    eff_lift (map_transpose index_from_json data);
  write_latest_index := λ self index,
    serialized_index ← eff_lift (index_to_json index);
    write_to_bucket self latest_index_key serialized_index;
  fetch_checkpoint := λ self index,
    data ← anonymously_read_from_bucket self (checkpoint_key index);
    eff_lift (map_transpose checkpoint_from_json data);
  write_checkpoint := λ self signed_checkpoint,
    serialized_checkpoint ← eff_lift (checkpoint_to_json signed_checkpoint);
    write_to_bucket self
      (checkpoint_key (checkpoint_index (checkpoint (value signed_checkpoint))))
      serialized_checkpoint;
  write_announcement := λ self signed_announcement,
    serialized_announcement ← eff_lift (announcement_to_json signed_announcement);
    write_to_bucket self announcement_key serialized_announcement;
  announcement_location := λ self,
    match s3_folder self with
    | None => "s3://" +:+ s3_bucket self +:+ "/" +:+ region_name (s3_region self)
    | Some folder_str =>
        if bool_decide (folder_str = ""%string) then
          "s3://" +:+ s3_bucket self +:+ "/" +:+ region_name (s3_region self)
        else
          "s3://" +:+ s3_bucket self +:+ "/" +:+ region_name (s3_region self)
            +:+ "/" +:+ folder_str
    end
|}.

(** ** [settings/checkpoint_syncer.rs] *)

Inductive CheckpointSyncerConf :=
  | LocalStorageConf (path : string)
  | S3Conf (bucket : string) (folder : option string) (region : Region).

(** [CheckpointSyncerConf::from_str]; [None] is an error. *)
Definition CheckpointSyncerConf_from_str (s : string) : option CheckpointSyncerConf :=
  match str_split "://" s with
  | [prefix; suffix] =>
      if bool_decide (prefix = "s3"%string) then
        match str_split "/" suffix with
        | [] | [_] => None
        | [bucket; region] => region ← region_from_str region; Some (S3Conf bucket None region)
        | bucket :: region :: rest =>
            region ← region_from_str region;
            Some (S3Conf bucket (Some (String.concat "/" rest)) region)
        end
      else if bool_decide (prefix = "file"%string) then Some (LocalStorageConf suffix)
      else None
  | _ => None
  end.

(** [Box<dyn CheckpointSyncer>] *)
Inductive AnySyncer := Local (s : LocalStorage) | S3 (s : S3Storage).

#[export] Instance AnySyncer_syncer : CheckpointSyncer AnySyncer := {|
  latest_index := λ self,
    match self with Local s => latest_index s | S3 s => latest_index s end;
  write_latest_index := λ self,
    match self with Local s => write_latest_index s | S3 s => write_latest_index s end;
  fetch_checkpoint := λ self,
    match self with Local s => fetch_checkpoint s | S3 s => fetch_checkpoint s end;
  write_checkpoint := λ self,
    match self with Local s => write_checkpoint s | S3 s => write_checkpoint s end;
  write_announcement := λ self,
    match self with Local s => write_announcement s | S3 s => write_announcement s end;
  announcement_location := λ self,
    match self with Local s => announcement_location s | S3 s => announcement_location s end
|}.

(** [CheckpointSyncerConf::build] *)
Definition CheckpointSyncerConf_build (self : CheckpointSyncerConf) :
    eff storage report AnySyncer :=
  match self with
  | LocalStorageConf path => s ← LocalStorage_new path; mret (Local s)
  | S3Conf bucket folder region => mret (S3 (MkS3Storage bucket folder region))
  end.
End storages.
