(* ===== verification/CheckpointStorageTheorems.v ===== *)
(** * Announced locations and latest indices

    The location that a storage announces is read back as the same storage, exactly when it can
    be; what the update of the latest index does. An instance of the outside world in memory. *)

From S2P Require Import Prelude.
From S2P Require Import Codec.
From S2P Require Import Keccak.
From S2P Require Import Message.
From S2P Require Import MatchingList.
From S2P Require Import CheckpointStorage.
From stdpp Require Import base gmap list numbers strings pretty.
From Stdlib Require Import ZArith Lia Ascii.

#[local] Open Scope Z_scope.

(** ** Storages keep and locate what is written

    What agents rely on in a storage of checkpoints, as the class [SyncerLaws], discharged by the
    local storage and by S3 from the documented behaviour of the file system and of S3; and the
    location a validator announces names its storage. *)

(** ** Decimal numbers *)

Lemma pretty_char_digit d :
  (d < 10)%N -> Z.of_nat (nat_of_ascii (pretty_N_char d)) - 48 = Z.of_N d.
Proof.
  intros Hd. assert (Hin : d ∈ [0; 1; 2; 3; 4; 5; 6; 7; 8; 9]%N).
  { destruct d as [|p]; [left|]. do 4 (try destruct p as [p|p|]); try lia; set_solver. }
  repeat (apply elem_of_cons in Hin as [->|Hin]; [reflexivity|]). set_solver.
Qed.

Lemma parse_pretty_go x s :
  (0 < x)%N -> Z.of_N x < 2 ^ 32 ->
  parse_digits 0 (pretty_N_go x s) = parse_digits (Z.of_N x) s.
Proof.
  revert s. induction (N.lt_wf_0 x) as [x _ IH]; intros s Hx Hlt.
  rewrite pretty_N_go_step by done.
  assert (Hm : (x mod 10 < 10)%N) by (apply N.mod_lt; lia).
  assert (Hdiv : Z.of_N x = Z.of_N (x / 10) * 10 + Z.of_N (x mod 10)).
  { pose proof (N.div_mod x 10). lia. }
  assert (Hone : forall acc, acc = Z.of_N (x / 10) ->
    parse_digits acc (String (pretty_N_char (x mod 10)) s) = parse_digits (Z.of_N x) s).
  { intros acc ->. cbn [parse_digits]. rewrite pretty_char_digit by done.
    rewrite (proj2 (andb_true_iff _ _)); [by rewrite Hdiv|].
    rewrite andb_true_iff, !Z.leb_le, Z.ltb_lt.
    generalize dependent (x / 10)%N. generalize dependent (x mod 10)%N. intros; lia. }
  destruct (decide (x / 10 = 0)%N) as [E|E].
  - rewrite E, pretty_N_go_0. apply Hone. by rewrite E.
  - rewrite IH; [by apply Hone|apply N.div_lt; lia|by apply N.neq_0_lt_0|].
    clear -Hdiv Hlt. revert Hdiv. generalize (x / 10)%N, (x mod 10)%N. intros; lia.
Qed.

Lemma pretty_go_nonempty x s : pretty_N_go x s = EmptyString -> s = EmptyString.
Proof.
  revert s. induction (N.lt_wf_0 x) as [x _ IH]; intros s E.
  destruct (decide (x = 0)%N) as [->|Hx]; [by rewrite pretty_N_go_0 in E|].
  rewrite pretty_N_go_step in E by lia. apply IH in E; [done|apply N.div_lt; lia].
Qed.

Lemma parse_digits_to_string x : parse_digits 0 (u32_to_string x) = Some (uval x).
Proof.
  urange x. unfold u32_to_string, pretty, pretty_N. case_decide as E.
  - cbn. f_equal. change (0 = uval x). lia.
  - rewrite parse_pretty_go by lia. cbn. f_equal. lia.
Qed.

(** The first character is a digit. *)
Lemma u32_to_string_head x : exists c s, u32_to_string x = String c s /\
  48 <= Z.of_nat (nat_of_ascii c) <= 57.
Proof.
  pose proof (parse_digits_to_string x) as Hd. destruct (u32_to_string x) as [|c s] eqn:E.
  - exfalso. revert E. unfold u32_to_string, pretty, pretty_N. case_decide; [done|].
    rewrite pretty_N_go_step by lia. intros E. by apply pretty_go_nonempty in E.
  - exists c, s. split; [done|]. cbn [parse_digits] in Hd. case_match eqn:Hc; [|done].
    rewrite !andb_true_iff, !Z.leb_le in Hc. lia.
Qed.

Lemma parse_u32_to_string x : parse_u32 (u32_to_string x) = Some x.
Proof.
  pose proof (parse_digits_to_string x) as Hd.
  destruct (u32_to_string_head x) as (c & s & E & Hc). rewrite E in *.
  assert (Hp : parse_u32 (String c s) = uwrap 4 <$> parse_digits 0 (String c s)).
  { destruct (decide (c = "+"%char)) as [->|Hn]; [by destruct Hc as [[] _]|].
    destruct c as [[] [] [] [] [] [] [] []]; try reflexivity. by destruct Hn. }
  rewrite Hp, Hd. cbn. by rewrite uwrap_uval.
Qed.

#[export] Instance u32_to_string_inj : Inj (=) (=) u32_to_string.
Proof. intros x y E. apply (f_equal parse_u32) in E. rewrite !parse_u32_to_string in E. congruence. Qed.

(** ** Names of files and keys *)

Lemma string_app_cons c s t : String c s +:+ t = String c (s +:+ t).
Proof. done. Qed.

Lemma string_app_nil_l t : "" +:+ t = t.
Proof. done. Qed.

Lemma string_app_assoc s t u : s +:+ t +:+ u = (s +:+ t) +:+ u.
Proof.
  induction s as [|c s IH]; [done|]. by rewrite !string_app_cons, IH.
Qed.

Lemma string_app_nil_r s : s +:+ "" = s.
Proof. induction s as [|c s IH]; [done|]. by rewrite string_app_cons, IH. Qed.

Lemma length_app_string s t :
  String.length (s +:+ t) = (String.length s + String.length t)%nat.
Proof.
  induction s as [|c s IH]; [done|]. rewrite string_app_cons. cbn. by rewrite IH.
Qed.

#[export] Instance app_string_inj_r (t : string) : Inj (=) (=) (λ s, s +:+ t).
Proof.
  intros s. induction s as [|c s IH]; intros [|c' s'] E;
    rewrite ?string_app_nil_l, ?string_app_cons in E; [done| | |].
  1-2: apply (f_equal String.length) in E; cbn in E; rewrite length_app_string in E; lia.
  injection E as -> E. f_equal. by apply IH.
Qed.

#[export] Instance path_join_inj path : Inj (=) (=) (path_join path).
Proof. intros a b. unfold path_join. case_match; intros E; by repeat apply (inj _) in E. Qed.

(** A numbered name is not one that starts with a letter. *)
Lemma numbered_ne x suffix c s :
  57 < Z.of_nat (nat_of_ascii c) -> u32_to_string x +:+ suffix <> String c s.
Proof.
  intros Hc. destruct (u32_to_string_head x) as (d & u & -> & Hd).
  rewrite string_app_cons. intros [= -> _]. lia.
Qed.

(** ** The documented behaviour of the outside world *)

(** A file system and a store of objects: a write that succeeds is read back and touches nothing
    else, a read changes nothing, and what it returns is what is there. *)
Class StorageIOLaws `{StorageIO} := {
  fs_files : storage -> gmap string bytes;
  s3_objects : storage -> gmap (string * string * string) bytes;
  create_dir_all_ok path s s' :
    create_dir_all path s = (s', Ok tt) ->
    fs_files s' = fs_files s /\ s3_objects s' = s3_objects s;
  fs_write_ok path b s s' :
    fs_write path b s = (s', Ok tt) ->
    fs_files s' = <[path := b]> (fs_files s) /\ s3_objects s' = s3_objects s;
  fs_read_same path s :
    fs_files (fst (fs_read path s)) = fs_files s /\
    s3_objects (fst (fs_read path s)) = s3_objects s;
  fs_read_ok path s s' b : fs_read path s = (s', Ok b) -> fs_files s !! path = Some b;
  put_object_ok region bucket key b s s' :
    put_object region bucket key b s = (s', Ok tt) ->
    fs_files s' = fs_files s /\
    s3_objects s' = <[(region_name region, bucket, key) := b]> (s3_objects s);
  get_object_same region bucket key s :
    fs_files (fst (get_object region bucket key s)) = fs_files s /\
    s3_objects (fst (get_object region bucket key s)) = s3_objects s;
  get_object_ok region bucket key s s' r :
    get_object region bucket key s = (s', Ok r) ->
    match r with
    | Body b => s3_objects s !! (region_name region, bucket, key) = Some b
    | NoSuchKey => s3_objects s !! (region_name region, bucket, key) = None
    | NoBody => True
    end
}.

Class SyncerJsonLaws `{SyncerJson} := {
  checkpoint_json c b : checkpoint_to_json c = Ok b -> checkpoint_from_json b = Ok c;
  index_json i b : index_to_json i = Ok b -> index_from_json b = Ok i
}.

(** ** What agents rely on *)

(** A storage holds checkpoints by their index, and the latest index: one that was written is
    there, in the place of the one of that index and of no other; what is read is there, and
    reading changes nothing. *)
Class SyncerLaws `{CheckpointSyncer A} := {
  published : A -> storage -> u32 -> option SignedCheckpointWithMessageId;
  latest : A -> storage -> option u32;
  write_checkpoint_law a c s s' :
    write_checkpoint a c s = (s', Ok tt) ->
    latest a s' = latest a s /\
    forall i, published a s' i =
      if decide (i = checkpoint_index (checkpoint (value c))) then Some c else published a s i;
  fetch_checkpoint_law a i s s' r :
    fetch_checkpoint a i s = (s', r) ->
    latest a s' = latest a s /\ (forall j, published a s' j = published a s j) /\
    (forall c, r = Ok (Some c) -> published a s i = Some c);
  write_latest_index_law a n s s' :
    write_latest_index a n s = (s', Ok tt) ->
    latest a s' = Some n /\ forall i, published a s' i = published a s i;
  latest_index_law a s s' r :
    latest_index a s = (s', r) ->
    latest a s' = latest a s /\ (forall i, published a s' i = published a s i) /\
    (forall n, r = Ok (Some n) -> latest a s = Some n)
}.
#[global] Hint Mode SyncerLaws - + - : typeclass_instances.

Section laws.
Context `{StorageIO, !StorageIOLaws, !SyncerJson, !SyncerJsonLaws}.

(** What the bytes of a file or an object say. *)
Definition parsed (b : option bytes) : option SignedCheckpointWithMessageId :=
  b ← b; match checkpoint_from_json b with Ok c => Some c | _ => None end.

Definition local_published (a : LocalStorage) (s : storage) (i : u32) :
    option SignedCheckpointWithMessageId :=
  parsed (fs_files s !! checkpoint_file_path a i).

Definition local_latest (a : LocalStorage) (s : storage) : option u32 :=
  b ← fs_files s !! latest_index_file_path a;
  if utf8_valid b then parse_u32 (string_of_bytes b) else None.

#[export] Instance checkpoint_file_path_inj a : Inj (=) (=) (checkpoint_file_path a).
Proof.
  intros x y E. apply (inj (path_join _)), (inj (λ s, s +:+ "_with_id.json")) in E.
  by apply (inj u32_to_string).
Qed.

Lemma checkpoint_file_not_index a i : latest_index_file_path a <> checkpoint_file_path a i.
Proof. intros E. apply (inj (path_join _)) in E. symmetry in E. revert E. by apply numbered_ne. Qed.

(** The views of a storage depend on its files alone. *)
Lemma local_same a s s' :
  fs_files s' = fs_files s ->
  local_latest a s' = local_latest a s /\
  forall i, local_published a s' i = local_published a s i.
Proof. intros E. unfold local_latest, local_published. by rewrite E. Qed.

Lemma local_write_checkpoint a c s s' :
  write_checkpoint a c s = (s', Ok tt) ->
  local_latest a s' = local_latest a s /\
  forall i, local_published a s' i =
    if decide (i = checkpoint_index (checkpoint (value c))) then Some c
    else local_published a s i.
Proof.
  intros Hw. cbn in Hw. apply eff_bind_ok in Hw as (s1 & b & Hb & Hw).
  injection Hb as <- Hb. apply fs_write_ok in Hw as [Hw _].
  unfold local_published, local_latest. rewrite Hw. split.
  - rewrite lookup_insert_ne; [done|]. intros E. symmetry in E.
    by apply checkpoint_file_not_index in E.
  - intros i. case_decide as Hi.
    + subst i. rewrite lookup_insert_eq. cbn. by rewrite (checkpoint_json _ _ Hb).
    + rewrite lookup_insert_ne; [done|]. intros E. by apply (inj _) in E.
Qed.

Lemma local_fetch_checkpoint a i s s' r :
  fetch_checkpoint a i s = (s', r) ->
  local_latest a s' = local_latest a s /\
  (forall j, local_published a s' j = local_published a s j) /\
  (forall c, r = Ok (Some c) -> local_published a s i = Some c).
Proof.
  intros Hf. cbn in Hf. unfold mbind, eff_bind, eff_try, eff_lift, mret, eff_ret in Hf.
  pose proof (fs_read_same (checkpoint_file_path a i) s) as [Hs _].
  pose proof (fs_read_ok (checkpoint_file_path a i) s) as Hr.
  destruct (fs_read _ s) as [s1 [b|e|]]; cbn in Hs, Hf;
    [destruct (checkpoint_from_json b) as [c|e|] eqn:Hc|..]; simplify_eq.
  all: apply and_assoc; split; [by apply local_same|]; intros c' Hc'; simplify_eq.
  unfold local_published. rewrite (Hr _ _ eq_refl). cbn. by rewrite Hc.
Qed.

Lemma string_of_bstr s : string_of_bytes (bstr s) = s.
Proof.
  unfold string_of_bytes, bstr. rewrite <- list_fmap_compose.
  rewrite <- (String.string_of_list_ascii_of_string s) at 2. f_equal.
  rewrite <- (list_fmap_id (String.list_ascii_of_string s)) at 2.
  apply list_fmap_ext. intros _ c _. cbn. unfold byte. rewrite uval_uwrap_small.
  - rewrite Nat2Z.id. apply ascii_nat_embedding.
  - change (umax 1) with 256. pose proof (nat_ascii_bounded c). lia.
Qed.

(** Decimal digits are text. *)
Lemma digits_valid acc s n : parse_digits acc s = Some n -> utf8_valid (bstr s) = true.
Proof.
  revert acc. induction s as [|c s IH]; intros acc; [done|].
  cbn [parse_digits]. case_match eqn:Hc; [|done]. intros Hs. apply IH in Hs.
  rewrite !andb_true_iff, !Z.leb_le in Hc. change (utf8_valid
    (byte (Z.of_nat (nat_of_ascii c)) :: bstr s) = true). cbn [utf8_valid].
  unfold byte. rewrite uval_uwrap_small; [|change (umax 1) with 256; lia].
  by rewrite (proj2 (Z.leb_le _ _)) by lia.
Qed.

Lemma local_write_latest a n s s' :
  write_latest_index a n s = (s', Ok tt) ->
  local_latest a s' = Some n /\ forall i, local_published a s' i = local_published a s i.
Proof.
  intros Hw. cbn in Hw. apply fs_write_ok in Hw as [Hw _].
  unfold local_published, local_latest. rewrite Hw. split.
  - rewrite lookup_insert_eq. cbn.
    rewrite (digits_valid 0 _ _ (parse_digits_to_string n)), string_of_bstr.
    apply parse_u32_to_string.
  - intros i. rewrite lookup_insert_ne; [done|apply checkpoint_file_not_index].
Qed.

Lemma local_latest_index a s s' r :
  latest_index a s = (s', r) ->
  local_latest a s' = local_latest a s /\
  (forall i, local_published a s' i = local_published a s i) /\
  (forall n, r = Ok (Some n) -> local_latest a s = Some n).
Proof.
  intros Hf. cbn in Hf. unfold mbind, eff_bind, eff_try, eff_lift, mret, eff_ret in Hf.
  pose proof (fs_read_same (latest_index_file_path a) s) as [Hs _].
  pose proof (fs_read_ok (latest_index_file_path a) s) as Hr.
  destruct (fs_read _ s) as [s1 [b|e|]]; cbn in Hs, Hf; [destruct (utf8_valid b) eqn:Hu;
    [destruct (parse_u32 _) as [n|] eqn:Hn|]|..]; simplify_eq.
  all: apply and_assoc; split; [by apply local_same|]; intros m Hm; simplify_eq.
  unfold local_latest. rewrite (Hr _ _ eq_refl). cbn. by rewrite Hu.
Qed.

#[export] Instance LocalStorage_laws : SyncerLaws (A := LocalStorage) := {|
  published := local_published;
  latest := local_latest;
  write_checkpoint_law := local_write_checkpoint;
  fetch_checkpoint_law := local_fetch_checkpoint;
  write_latest_index_law := local_write_latest;
  latest_index_law := local_latest_index
|}.

(** ** S3 *)

(** The object under a key. *)
Definition s3_object (a : S3Storage) (s : storage) (key : string) : option bytes :=
  s3_objects s !! (region_name (s3_region a), s3_bucket a, get_composite_key a key).
Definition s3_published (a : S3Storage) (s : storage) (i : u32) :
    option SignedCheckpointWithMessageId := parsed (s3_object a s (checkpoint_key i)).
Definition s3_latest (a : S3Storage) (s : storage) : option u32 :=
  b ← s3_object a s latest_index_key;
  match index_from_json b with Ok n => Some n | _ => None end.

#[export] Instance composite_key_inj a : Inj (=) (=) (get_composite_key a).
Proof.
  intros x y. unfold get_composite_key. destruct (s3_folder a) as [f|]; [|done].
  case_match; [done|]. intros E. by apply (inj (String.app f)), (inj (String.app "/")) in E.
Qed.

#[export] Instance checkpoint_key_inj : Inj (=) (=) checkpoint_key.
Proof.
  intros x y E. apply (inj (String.app _)), (inj (λ s, s +:+ "_with_id.json")) in E.
  by apply (inj u32_to_string).
Qed.

Lemma checkpoint_key_not_latest i : latest_index_key <> checkpoint_key i.
Proof.
  intros E. apply (inj (String.app "checkpoint_") "latest_index.json") in E.
  symmetry in E. revert E. by apply numbered_ne.
Qed.

Lemma s3_same a s s' :
  s3_objects s' = s3_objects s ->
  s3_latest a s' = s3_latest a s /\ forall i, s3_published a s' i = s3_published a s i.
Proof. intros E. unfold s3_latest, s3_published, s3_object. by rewrite E. Qed.

Lemma write_to_bucket_ok a key b s s' k :
  write_to_bucket a key b s = (s', Ok tt) ->
  s3_object a s' k = if decide (k = key) then Some b else s3_object a s k.
Proof.
  intros Hw. apply put_object_ok in Hw as [_ Hw]. unfold s3_object. rewrite Hw.
  case_decide as Hk; [subst k; by rewrite lookup_insert_eq|].
  rewrite lookup_insert_ne; [done|]. intros [= E]. by apply (inj _) in E.
Qed.

Lemma s3_read_ok a key s s' r :
  anonymously_read_from_bucket a key s = (s', r) ->
  s3_objects s' = s3_objects s /\ (forall b, r = Ok (Some b) -> s3_object a s key = Some b).
Proof.
  intros Hr. unfold anonymously_read_from_bucket, mbind, eff_bind, mret, eff_ret in Hr.
  pose proof (get_object_same (s3_region a) (s3_bucket a) (get_composite_key a key) s) as [_ Hs].
  pose proof (get_object_ok (s3_region a) (s3_bucket a) (get_composite_key a key) s) as Hg.
  destruct (get_object _ _ _ s) as [s1 [[b| |]|e|]]; cbn in Hs; simplify_eq.
  all: split; [done|]; intros c Hc; simplify_eq. apply (Hg _ _ eq_refl).
Qed.

(** Reading an object and its JSON. *)
Lemma s3_read_json {T} (f : bytes -> outcome report T) a key s s' r :
  (data ← anonymously_read_from_bucket a key; eff_lift (map_transpose f data)) s = (s', r) ->
  s3_objects s' = s3_objects s /\
  (forall x, r = Ok (Some x) -> exists b, s3_object a s key = Some b /\ f b = Ok x).
Proof.
  unfold mbind, eff_bind. destruct (anonymously_read_from_bucket a key s) as [s1 o] eqn:Hr.
  apply s3_read_ok in Hr as [Hs Hb]. unfold eff_lift.
  destruct o as [[b|]|e|]; intros Hf; cbn in Hf; simplify_eq; split; try done.
  intros x Hx. exists b. split; [by apply Hb|]. destruct (f b); by simplify_eq/=.
Qed.

Lemma s3_write_checkpoint a c s s' :
  write_checkpoint a c s = (s', Ok tt) ->
  s3_latest a s' = s3_latest a s /\
  forall i, s3_published a s' i =
    if decide (i = checkpoint_index (checkpoint (value c))) then Some c else s3_published a s i.
Proof.
  intros Hw. cbn in Hw. apply eff_bind_ok in Hw as (s1 & b & Hb & Hw).
  injection Hb as <- Hb. unfold s3_latest, s3_published. split.
  - rewrite (write_to_bucket_ok _ _ _ _ _ _ Hw), decide_False; [done|].
    apply checkpoint_key_not_latest.
  - intros i. rewrite (write_to_bucket_ok _ _ _ _ _ _ Hw). case_decide as Hi; case_decide as Hj.
    + cbn. by rewrite (checkpoint_json _ _ Hb).
    + by apply (inj checkpoint_key) in Hi.
    + subst i. done.
    + done.
Qed.

Lemma s3_fetch_checkpoint a i s s' r :
  fetch_checkpoint a i s = (s', r) ->
  s3_latest a s' = s3_latest a s /\
  (forall j, s3_published a s' j = s3_published a s j) /\
  (forall c, r = Ok (Some c) -> s3_published a s i = Some c).
Proof.
  intros Hf. apply s3_read_json in Hf as [Hs Hf].
  apply and_assoc. split; [by apply s3_same|]. intros c Hc.
  apply Hf in Hc as (b & Hb & Hc). unfold s3_published. rewrite Hb. cbn. by rewrite Hc.
Qed.

Lemma s3_write_latest a n s s' :
  write_latest_index a n s = (s', Ok tt) ->
  s3_latest a s' = Some n /\ forall i, s3_published a s' i = s3_published a s i.
Proof.
  intros Hw. cbn in Hw. apply eff_bind_ok in Hw as (s1 & b & Hb & Hw).
  injection Hb as <- Hb. unfold s3_latest, s3_published. split.
  - rewrite (write_to_bucket_ok _ _ _ _ _ _ Hw), decide_True by done. cbn.
    by rewrite (index_json _ _ Hb).
  - intros i. rewrite (write_to_bucket_ok _ _ _ _ _ _ Hw), decide_False; [done|].
    intros E. symmetry in E. by apply checkpoint_key_not_latest in E.
Qed.

Lemma s3_latest_index a s s' r :
  latest_index a s = (s', r) ->
  s3_latest a s' = s3_latest a s /\
  (forall i, s3_published a s' i = s3_published a s i) /\
  (forall n, r = Ok (Some n) -> s3_latest a s = Some n).
Proof.
  intros Hf. apply s3_read_json in Hf as [Hs Hf].
  apply and_assoc. split; [by apply s3_same|]. intros n Hn.
  apply Hf in Hn as (b & Hb & Hn). unfold s3_latest. rewrite Hb. cbn. by rewrite Hn.
Qed.

#[export] Instance S3Storage_laws : SyncerLaws (A := S3Storage) := {|
  published := s3_published;
  latest := s3_latest;
  write_checkpoint_law := s3_write_checkpoint;
  fetch_checkpoint_law := s3_fetch_checkpoint;
  write_latest_index_law := s3_write_latest;
  latest_index_law := s3_latest_index
|}.

#[export] Program Instance AnySyncer_laws : SyncerLaws (A := AnySyncer) :=
  {| published := λ a, match a with Local a => published a | S3 a => published a end;
     latest := λ a, match a with Local a => latest a | S3 a => latest a end |}.
Next Obligation.
  intros [a|a]; [exact (write_checkpoint_law (A := LocalStorage) a)|exact (write_checkpoint_law (A := S3Storage) a)].
Qed.
Next Obligation.
  intros [a|a]; [exact (fetch_checkpoint_law (A := LocalStorage) a)|exact (fetch_checkpoint_law (A := S3Storage) a)].
Qed.
Next Obligation.
  intros [a|a]; [exact (write_latest_index_law (A := LocalStorage) a)|exact (write_latest_index_law (A := S3Storage) a)].
Qed.
Next Obligation.
  intros [a|a]; [exact (latest_index_law (A := LocalStorage) a)|exact (latest_index_law (A := S3Storage) a)].
Qed.
End laws.

(** ** Splitting *)

(** [pattern] occurs in [s]. *)
Fixpoint occurs (pattern s : string) : bool :=
  String.prefix pattern s ||
  match s with
  | EmptyString => false
  | String _ s => occurs pattern s
  end.

Lemma rev_app_spec s t : String.rev_app s t = String.rev s +:+ t.
Proof.
  unfold String.rev. revert t. induction s as [|c s IH]; intros t; [done|]. cbn.
  rewrite (IH (String c t)), (IH (String c "")), <- string_app_assoc. done.
Qed.

Lemma rev_cons c s t : String.rev (String c s) +:+ t = String.rev s +:+ String c t.
Proof. unfold String.rev at 1. cbn. rewrite rev_app_spec, <- string_app_assoc. done. Qed.

Lemma split_go_whole pattern piece s :
  occurs pattern s = false -> split_go pattern 0 piece s = [String.rev piece +:+ s].
Proof.
  revert piece. induction s as [|c s IH]; intros piece Ho; cbn [split_go].
  - by rewrite string_app_nil_r.
  - cbn [occurs] in Ho. apply orb_false_iff in Ho as [-> Ho].
    rewrite IH by done. by rewrite rev_cons.
Qed.

Lemma prefix_nil s : String.prefix "" s = true.
Proof. by destruct s. Qed.

Lemma prefix_slash c s : String.prefix "/" (String c s) = bool_decide (c = "/"%char).
Proof.
  change (String.prefix "/" (String c s))
    with (if ascii_dec "/" c then String.prefix "" s else false).
  destruct (ascii_dec "/" c) as [<-|Hc]; [by rewrite prefix_nil|].
  by rewrite bool_decide_eq_false_2.
Qed.

Lemma split_go_slash piece a b :
  occurs "/" a = false ->
  split_go "/" 0 piece (a +:+ String "/" b) = (String.rev piece +:+ a) :: str_split "/" b.
Proof.
  revert piece. induction a as [|c a IH]; intros piece Ho.
  - rewrite string_app_nil_l, (string_app_nil_r (String.rev piece)). cbn.
    by rewrite prefix_nil.
  - cbn [occurs] in Ho. apply orb_false_iff in Ho as [Hc Ho].
    rewrite string_app_cons. cbn [split_go].
    replace (String.prefix "/" (String c (a +:+ String "/" b))) with false.
    + rewrite IH by done. by rewrite rev_cons.
    + by rewrite prefix_slash in *.
Qed.

Lemma concat_cons s l :
  l <> [] -> String.concat "/" (s :: l) = s +:+ "/" +:+ String.concat "/" l.
Proof. by destruct l. Qed.

Lemma split_go_nonempty pattern skip piece s : split_go pattern skip piece s <> [].
Proof.
  revert skip piece. induction s as [|c s IH]; intros [|skip] piece; cbn [split_go]; try done.
  by case_match.
Qed.

Lemma split_go_join piece s :
  String.concat "/" (split_go "/" 0 piece s) = String.rev piece +:+ s.
Proof.
  revert piece. induction s as [|c s IH]; intros piece; cbn [split_go].
  - cbn. by rewrite string_app_nil_r.
  - destruct (String.prefix "/" (String c s)) eqn:Hp.
    + rewrite concat_cons by apply split_go_nonempty. cbn [String.length Nat.sub].
      rewrite prefix_slash in Hp. apply bool_decide_eq_true in Hp as ->. by rewrite IH.
    + rewrite IH. by rewrite rev_cons.
Qed.

Lemma split_join s : String.concat "/" (str_split "/" s) = s.
Proof. apply split_go_join. Qed.

Lemma split_once a b :
  occurs "/" a = false -> str_split "/" (a +:+ "/" +:+ b) = a :: str_split "/" b.
Proof. apply (split_go_slash ""). Qed.

Lemma split_none pattern s : occurs pattern s = false -> str_split pattern s = [s].
Proof. apply (split_go_whole pattern ""). Qed.

Lemma split_go_found pattern piece s :
  occurs pattern s = true -> pattern <> ""%string ->
  (2 <= length (split_go pattern 0 piece s))%nat.
Proof.
  intros Ho Hn. revert piece Ho. induction s as [|c s IH]; intros piece Ho; cbn [occurs] in Ho.
  - destruct pattern; [done|]. done.
  - cbn [split_go]. destruct (String.prefix pattern (String c s)); [|by apply IH].
    cbn [length]. pose proof (split_go_nonempty pattern (String.length pattern - 1) "" s).
    destruct (split_go _ _ _ s); [done|cbn; lia].
Qed.

Lemma split_scheme piece s :
  split_go "://" 0 piece ("://" +:+ s) = String.rev piece :: str_split "://" s.
Proof.
  change (split_go "://" 0 piece ("://" +:+ s)) with
    (if String.prefix "" s then String.rev piece :: split_go "://" 0 "" s
     else split_go "://" 0 (String ":" piece) ("//" +:+ s)).
  by rewrite prefix_nil.
Qed.

Lemma split_file s : str_split "://" ("file://" +:+ s) = "file"%string :: str_split "://" s.
Proof.
  change (str_split "://" ("file://" +:+ s)) with (split_go "://" 0 "elif" ("://" +:+ s)).
  by rewrite split_scheme.
Qed.

Lemma split_s3 s : str_split "://" ("s3://" +:+ s) = "s3"%string :: str_split "://" s.
Proof.
  change (str_split "://" ("s3://" +:+ s)) with (split_go "://" 0 "3s" ("://" +:+ s)).
  by rewrite split_scheme.
Qed.

(** ** Locations *)

Section locations.
Context `{StorageIO, !SyncerJson}.

(** What comes after the scheme in a location. *)
Definition location_path (a : AnySyncer) : string :=
  match a with
  | Local a => local_path a
  | S3 a =>
      let base := s3_bucket a +:+ "/" +:+ region_name (s3_region a) in
      match s3_folder a with
      | Some folder => if bool_decide (folder = ""%string) then base
                       else base +:+ "/" +:+ folder
      | None => base
      end
  end.

(** A location that can be read: the scheme's separator occurs once, and the names of the bucket
    and the region have no slash. *)
Definition locatable (a : AnySyncer) : Prop :=
  occurs "://" (location_path a) = false /\
  match a with
  | Local _ => True
  | S3 a => occurs "/" (s3_bucket a) = false /\
            occurs "/" (region_name (s3_region a)) = false /\
            region_from_str (region_name (s3_region a)) = Some (s3_region a)
  end.

(** Storages that do the same. *)
Definition same_storage (a b : AnySyncer) : Prop :=
  latest_index a = latest_index b /\ write_latest_index a = write_latest_index b /\
  fetch_checkpoint a = fetch_checkpoint b /\ write_checkpoint a = write_checkpoint b /\
  write_announcement a = write_announcement b.

Lemma same_storage_refl a : same_storage a a.
Proof. done. Qed.

Lemma location_split a :
  locatable a ->
  str_split "://" (announcement_location a) =
    [match a with Local _ => "file"%string | S3 _ => "s3"%string end; location_path a].
Proof.
  intros [Ho _]. destruct a as [a|a].
  - cbn in Ho. change (announcement_location (Local a)) with ("file://" +:+ local_path a).
    by rewrite split_file, split_none.
  - replace (announcement_location (S3 a)) with ("s3://" +:+ location_path (S3 a)).
    + by rewrite split_s3, split_none.
    + cbn. destruct (s3_folder a) as [f|]; [case_bool_decide|]; by rewrite <- ?string_app_assoc.
Qed.

Lemma location_read a :
  locatable a ->
  CheckpointSyncerConf_from_str (announcement_location a) = Some
    match a with
    | Local a => LocalStorageConf (local_path a)
    | S3 a => S3Conf (s3_bucket a)
                (f ← s3_folder a; if bool_decide (f = ""%string) then None else Some f)
                (s3_region a)
    end.
Proof.
  intros Hl. unfold CheckpointSyncerConf_from_str. rewrite location_split by done.
  destruct a as [a|a]; [done|]. destruct Hl as (_ & Hb & Hr & Hfr). cbn [location_path].
  rewrite bool_decide_eq_true_2 by done.
  destruct (s3_folder a) as [f|]; cbn [mbind option_bind]; [case_bool_decide|].
  - rewrite split_once, split_none by done. cbn. by rewrite Hfr.
  - rewrite <- !string_app_assoc, !split_once by done.
    pose proof (split_join f) as Hj. pose proof (split_go_nonempty "/" 0 "" f) as Hn.
    fold (str_split "/" f) in Hn. destruct (str_split "/" f) as [|x l]; [done|].
    cbn [mbind option_bind]. rewrite Hfr. by rewrite Hj.
  - rewrite split_once, split_none by done. cbn. by rewrite Hfr.
Qed.

(** C37. The location a validator announces names its storage, when it can be read: there is no
    [://] in the path (the local path, or bucket, region and folder), the names of an S3 bucket
    and its region have no slash and the region is one that the parser of regions knows
    ([locatable]). Then the location is parsed as a configuration that builds a storage which
    reads and writes the same files or objects, with or without a folder; an S3 storage is always
    built, and a local one unless its directory is missing and cannot be created.
    [local_location_unreadable] below is what happens to a path with [://]. *)
Theorem announced_location_found (a : AnySyncer) s (Hl : locatable a) :
  exists conf, CheckpointSyncerConf_from_str (announcement_location a) = Some conf /\
    match snd (CheckpointSyncerConf_build conf s) with
    | Ok a' => same_storage a' a
    | _ => exists a', a = Local a' /\ path_exists (local_path a') s = false
    end.
Proof.
  rewrite (location_read a Hl). eexists. split; [done|]. destruct a as [a|a].
  - cbn [CheckpointSyncerConf_build]. unfold mbind, eff_bind, LocalStorage_new.
    destruct (path_exists (local_path a) s) eqn:Hp; [by destruct a|].
    unfold mbind, eff_bind. destruct (create_dir_all (local_path a) s) as [s1 [[]|e|]];
      [by destruct a|by exists a..].
  - cbn. destruct a as [b [f|] r]; [|done]. cbn [s3_folder mbind option_bind].
    case_bool_decide as Hf; [subst f|done]. done.
Qed.

(** A local storage whose path has the separator in it is announced in vain. *)
Theorem local_location_unreadable (a : LocalStorage) :
  CheckpointSyncerConf_from_str (announcement_location a) =
    if occurs "://" (local_path a) then None else Some (LocalStorageConf (local_path a)).
Proof.
  destruct (occurs "://" (local_path a)) eqn:Ho; [|by apply (location_read (Local a))].
  unfold CheckpointSyncerConf_from_str.
  change (announcement_location a) with ("file://" +:+ local_path a). rewrite split_file.
  pose proof (split_go_found "://" "" _ Ho ltac:(done)) as Hlen. unfold str_split.
  destruct (split_go _ _ _ _) as [|x [|y l]]; cbn in Hlen; [lia|lia|done].
Qed.
End locations.

(** The latest index. A successful update leaves what is published alone; it writes the index if
    it is greater than the one that was read, 0 when none was. So the index 0 is never written:
    the storage of a validator that has signed the first checkpoint only has no latest index. *)
Theorem update_latest_index_spec `{SyncerLaws A} (a : A) n s s'
    (Hu : update_latest_index a n s = (s', Ok tt)) :
  (forall i, published a s' i = published a s i) /\
  exists s1 read, latest_index a s = (s1, Ok read) /\
    (forall m, read = Some m -> latest a s = Some m) /\
    latest a s' = if from_option uval 0 read <? uval n then Some n else latest a s.
Proof.
  unfold update_latest_index in Hu. apply eff_bind_ok in Hu as (s1 & read & Hr & Hu).
  pose proof (latest_index_law _ _ _ _ Hr) as (Hl & Hp & Hread).
  apply and_comm. split.
  - exists s1, read. split; [done|]. split; [intros m ->; by apply Hread|].
    destruct (_ <? uval n).
    + by apply write_latest_index_law in Hu as [Hu _].
    + injection Hu as <-. done.
  - intros i. rewrite <- Hp. destruct (_ <? uval n).
    + by apply write_latest_index_law in Hu as [_ Hu].
    + by injection Hu as <-.
Qed.
