(* ===== verification/CheckpointQuorum.v ===== *)
(** * Quorums of signed checkpoints ([hyperlane-base/src/types/multisig.rs])

    [MultisigCheckpointSyncer]: what the validators of a set have published is read from their
    storages, until enough of them have signed the same checkpoint. The storages are any
    [CheckpointSyncer]; recovering a signer is the function of the crate ethers; metrics are
    left out. *)

From S2P Require Import Prelude.
From S2P Require Import Codec.
From S2P Require Import Keccak.
From S2P Require Import Message.
From S2P Require Import Sealevel.
From S2P Require Import MatchingList.
From S2P Require Import CheckpointStorage.
From stdpp Require Import base gmap list numbers sorting.
From Stdlib Require Import ZArith Lia.

#[local] Open Scope Z_scope.

(** [ethers_core::types::Signature::recover] of a hash: the address, or an error. *)
Class Ethers := signature_recover : Codec.Signature -> H256 -> option H160.

(** [SignedType::recover] *)
Definition recover `{Keccak256, Ethers, Signable T} (self : SignedType T) : option H160 :=
  signature_recover (signature self) (eth_signed_message_hash (value self)).

(** [From<H256> for H160]: the low bytes *)
Definition H160_from_H256 (h : H256) : H160 := uwrap 20 h.

(** What [?] turns into a report. *)
Inductive QuorumError := RecoverError | MultisigError (e : MultisigSignedCheckpointError).

Section multisig.
Context `{CheckpointSyncer A, Keccak256, Ethers, OverflowChecks}.

Record MultisigCheckpointSyncer := MkMultisigCheckpointSyncer {
  checkpoint_syncers : gmap H160 A
}.

(** The loop of [get_validator_latest_checkpoints_and_update_metrics]. *)
Fixpoint collect_latest (self : MultisigCheckpointSyncer) (validators : list H256)
    (latest_indices : gmap H160 (option u32)) :
    eff storage QuorumError (gmap H160 (option u32)) :=
  match validators with
  | [] => mret latest_indices
  | validator :: validators =>
      let address := H160_from_H256 validator in
      match checkpoint_syncers self !! address with
      | Some checkpoint_syncer =>
          result ← eff_try (latest_index checkpoint_syncer);
          let latest := match result with inr (Some index) => Some index | _ => None end in
          collect_latest self validators (<[address := latest]> latest_indices)
      | None => collect_latest self validators latest_indices
      end
  end.

(** [get_validator_latest_checkpoints_and_update_metrics] *)
Definition get_validator_latest_checkpoints (self : MultisigCheckpointSyncer)
    (validators : list H256) : eff storage QuorumError (list u32) :=
  latest_indices ← collect_latest self validators ∅;
  mret (omap snd (map_to_list latest_indices)).

(** The loop of [fetch_checkpoint]. *)
Fixpoint fetch_loop (self : MultisigCheckpointSyncer) (validators : list H256)
    (threshold : usize) (index : u32)
    (signed_checkpoints_per_root : gmap H256 (list SignedCheckpointWithMessageId)) :
    eff storage QuorumError (option MultisigSignedCheckpoint) :=
  match validators with
  | [] => mret None
  | validator :: validators =>
      let continue := fetch_loop self validators threshold index in
      match checkpoint_syncers self !! H160_from_H256 validator with
      | Some checkpoint_syncer =>
          fetched ← eff_try (CheckpointStorage.fetch_checkpoint checkpoint_syncer index);
          match fetched with
          | inr (Some signed_checkpoint) =>
              if bool_decide
                   (checkpoint_index (checkpoint (value signed_checkpoint)) <> index)
              then continue signed_checkpoints_per_root
              else
                signer ← eff_lift (ok_or (recover signed_checkpoint) RecoverError);
                if bool_decide (H256_from_H160 signer <> validator)
                then continue signed_checkpoints_per_root
                else
                  let root := checkpoint_root (checkpoint (value signed_checkpoint)) in
                  let signed_checkpoints :=
                    default [] (signed_checkpoints_per_root !! root) ++ [signed_checkpoint] in
                  let signature_count := Z.of_nat (length signed_checkpoints) in
                  if uval threshold <=? signature_count then
                    checkpoint ← eff_lift
                      (map_err MultisigError (MultisigSignedCheckpoint_try_from signed_checkpoints));
                    mret (Some checkpoint)
                  else continue (<[root := signed_checkpoints]> signed_checkpoints_per_root)
          | _ => continue signed_checkpoints_per_root
          end
      | None => continue signed_checkpoints_per_root
      end
  end.

(** [MultisigCheckpointSyncer::fetch_checkpoint] *)
Definition multisig_fetch_checkpoint (self : MultisigCheckpointSyncer) (validators : list H256)
    (threshold : usize) (index : u32) :
    eff storage QuorumError (option MultisigSignedCheckpoint) :=
  fetch_loop self validators threshold index ∅.

(** The loop over [(minimum_index..=start_index).rev()], with [n] indices left. *)
Fixpoint search_down (self : MultisigCheckpointSyncer) (validators : list H256)
    (threshold : usize) (minimum_index : u32) (n : nat) :
    eff storage QuorumError (option MultisigSignedCheckpoint) :=
  match n with
  | O => mret None
  | S n =>
      fetched ← eff_try (multisig_fetch_checkpoint self validators threshold
        (uwrap 4 (uval minimum_index + Z.of_nat n)));
      match fetched with
      | inr (Some checkpoint) => mret (Some checkpoint)
      | _ => search_down self validators threshold minimum_index n
      end
  end.

(** [sort_by(|a, b| b.cmp(a))] on integers *)
Definition descending (a b : u32) : Prop := uval b <= uval a.
#[export] Instance descending_dec : RelDecision descending :=
  λ a b, decide (uval b <= uval a).
Definition sort_descending (l : list u32) : list u32 := merge_sort descending l.

(** [Vec::get] *)
Definition get_index {T} (l : list T) (i : usize) : option T :=
  if uval i <? Z.of_nat (length l) then l !! Z.to_nat (uval i) else None.

(** [MultisigCheckpointSyncer::fetch_checkpoint_in_range] *)
Definition fetch_checkpoint_in_range (self : MultisigCheckpointSyncer)
    (validators : list H256) (threshold : usize) (minimum_index maximum_index : u32) :
    eff storage QuorumError (option MultisigSignedCheckpoint) :=
  latest_indices ← get_validator_latest_checkpoints self validators;
  if bool_decide (latest_indices = []) then mret None
  else
    let latest_indices := sort_descending latest_indices in
    n ← eff_lift (arith 8 (uval threshold - 1));
    match get_index latest_indices n with
    | Some highest_quorum_index =>
        let start_index := Z.min (uval highest_quorum_index) (uval maximum_index) in
        if start_index <? uval minimum_index then mret None
        else search_down self validators threshold minimum_index
               (Z.to_nat (start_index - uval minimum_index + 1))
    | None => mret None
    end.
End multisig.
