(* ===== verification/QuorumTheorems.v ===== *)
(** * The quorum of published checkpoints

    What [MultisigCheckpointSyncer] returns carries the signatures it needs, and it is found when
    enough validators have published; what can keep it from being found. *)

From S2P Require Import Prelude.
From S2P Require Import Codec.
From S2P Require Import Keccak.
From S2P Require Import Message.
From S2P Require Import Sealevel.
From S2P Require Import MatchingList.
From S2P Require Import CheckpointStorage.
From S2P Require Import CheckpointQuorum.
From stdpp Require Import base gmap list numbers sorting.
From Stdlib Require Import ZArith Lia.

#[local] Open Scope Z_scope.

Section quorum.
Context `{CheckpointSyncer A, Keccak256, Ethers, OverflowChecks}.

(** The validator [v], a padded address, has made the signature [s] over [c]. *)
Definition vouches (v : H256) (c : CheckpointWithMessageId) (s : Codec.Signature) : Prop :=
  exists a, recover (MkSignedType c s) = Some a /\ v = H256_from_H160 a.

(** The number of signatures a quorum has: a threshold of 0 still takes one. *)
Definition quorum_size (threshold : usize) : Z := Z.max 1 (uval threshold).

(** A quorum: signatures on one checkpoint by validators of the set, in its order. *)
Definition is_quorum (validators : list H256) (threshold : usize)
    (ms : MultisigSignedCheckpoint) : Prop :=
  exists vs, sublist vs validators /\
    Forall2 (λ v s, vouches v (ms_checkpoint ms) s) vs (ms_signatures ms) /\
    Z.of_nat (length vs) = quorum_size threshold.

(** What the loop keeps for a root: fewer signatures than needed, by validators it has seen. *)
Definition collected (seen : list H256) (threshold : usize) (index : u32)
    (per_root : gmap H256 (list SignedCheckpointWithMessageId)) : Prop :=
  forall root l, per_root !! root = Some l ->
    Z.of_nat (length l) < quorum_size threshold /\
    exists vs, sublist vs seen /\
      Forall2 (λ v c, vouches v (value c) (signature c) /\
                      checkpoint_index (checkpoint (value c)) = index) vs l.

Lemma collected_seen seen v t index per_root :
  collected seen t index per_root -> collected (seen ++ [v]) t index per_root.
Proof.
  intros Hc root l Hl. destruct (Hc root l Hl) as (Hlt & vs & Hs & Hf).
  split; [done|]. exists vs. split; [by apply sublist_inserts_r|done].
Qed.

Lemma try_from_ok (l : list SignedCheckpointWithMessageId) ms :
  MultisigSignedCheckpoint_try_from l = Ok ms ->
  Forall (λ c, value c = ms_checkpoint ms) l /\ ms_signatures ms = signature <$> l /\ l <> [].
Proof.
  unfold MultisigSignedCheckpoint_try_from. destruct l as [|c0 l]; [done|].
  destruct (forallb _ (c0 :: l)) eqn:Hall; [|done]. intros [= <-]. split_and!; [|done|done].
  apply Forall_forall. intros c Hc. rewrite forallb_forall in Hall. symmetry.
  eapply bool_decide_eq_true_1, Hall, list_elem_of_In, Hc.
Qed.

(** One more signature of a validator that comes after those seen. *)
Lemma collect_one seen v t index per_root (c : SignedCheckpointWithMessageId) :
  collected seen t index per_root ->
  vouches v (value c) (signature c) -> checkpoint_index (checkpoint (value c)) = index ->
  let l := default [] (per_root !! checkpoint_root (checkpoint (value c))) ++ [c] in
  Z.of_nat (length l) <= quorum_size t /\
  exists vs, sublist vs (seen ++ [v]) /\
    Forall2 (λ v c, vouches v (value c) (signature c) /\
                    checkpoint_index (checkpoint (value c)) = index) vs l.
Proof.
  intros Hc Hv Hi l. subst l. unfold quorum_size.
  destruct (per_root !! _) as [k|] eqn:Hk; cbn [from_option Datatypes.id].
  - destruct (Hc _ _ Hk) as (Hlt & vs & Hs & Hf). unfold quorum_size in Hlt.
    rewrite length_app. cbn [length]. split; [lia|]. exists (vs ++ [v]).
    split; [by apply sublist_app|]. apply Forall2_app; [done|]. by repeat constructor.
  - cbn [app length]. split; [lia|]. exists [v]. split; [|by repeat constructor].
    by apply sublist_inserts_l.
Qed.

Lemma fetch_loop_sound (self : MultisigCheckpointSyncer) validators t index seen per_root :
  collected seen t index per_root ->
  yields (fetch_loop self validators t index per_root)
    (λ r, match r with
          | Some ms => checkpoint_index (checkpoint (ms_checkpoint ms)) = index /\
                       is_quorum (seen ++ validators) t ms
          | None => True
          end).
Proof.
  revert seen per_root. induction validators as [|v validators IH]; intros seen per_root Hc;
    cbn [fetch_loop]; [by apply yields_ret|].
  pose proof (IH (seen ++ [v]) per_root (collected_seen _ _ _ _ _ Hc)) as Hskip.
  rewrite <- app_assoc in Hskip. cbn [app] in Hskip.
  destruct (checkpoint_syncers self !! _) as [syncer|]; [|done].
  apply yields_any. intros [e|[c|]]; [done| |done].
  case_bool_decide as Hi; [done|].
  apply yields_bind with (λ signer, recover c = Some signer).
  { apply yields_lift. intros a. destruct (recover c); cbn; congruence. }
  intros signer Hrec. case_bool_decide as Hs; [done|].
  assert (Hv : vouches v (value c) (signature c)) by (exists signer; by destruct c).
  destruct (collect_one seen v t index per_root c Hc Hv Hi) as (Hle & vs & Hsub & Hf).
  set (l := default [] _ ++ [c]) in *.
  destruct (Z.leb_spec (uval t) (Z.of_nat (length l))) as [Ht|Ht].
  - apply yields_bind with (λ ms, MultisigSignedCheckpoint_try_from l = Ok ms).
    { apply yields_lift. intros ms Hms. by apply map_err_inv in Hms. }
    intros ms Hms. apply yields_ret. apply try_from_ok in Hms as (Hall & Hsig & Hne).
    assert (Hlen : Z.of_nat (length l) = quorum_size t).
    { unfold quorum_size in *. destruct l; [done|]. cbn [length] in *. lia. }
    split.
    + destruct l as [|c' l]; [done|]. apply Forall2_cons_inv_r in Hf as (v' & ? & [_ <-] & _ & _).
      apply Forall_cons in Hall as [<- _]. done.
    + exists vs. split_and!.
      * change (v :: validators) with ([v] ++ validators). rewrite app_assoc.
        by apply sublist_inserts_r.
      * rewrite Hsig. apply Forall2_fmap_r.
        clear -Hall Hf. induction Hf as [|v' c' vs l [Hx _] _ IHf]; [constructor|].
        apply Forall_cons in Hall as [Hc' Hall]. constructor; [|by apply IHf].
        cbn. by rewrite <- Hc'.
      * by rewrite (Forall2_length _ _ _ Hf).
  - specialize (IH (seen ++ [v]) (<[checkpoint_root (checkpoint (value c)) := l]> per_root)).
    rewrite <- app_assoc in IH. apply IH. intros root k [[<- <-]|[_ Hk]]%lookup_insert_Some.
    + split; [unfold quorum_size; lia|]. by exists vs.
    + by apply (collected_seen seen v t index per_root Hc root k).
Qed.

Lemma multisig_fetch_sound (self : MultisigCheckpointSyncer) validators t index :
  yields (multisig_fetch_checkpoint self validators t index)
    (λ r, match r with
          | Some ms => checkpoint_index (checkpoint (ms_checkpoint ms)) = index /\
                       is_quorum validators t ms
          | None => True
          end).
Proof.
  apply (fetch_loop_sound self validators t index [] ∅).
  intros root l Hl. by rewrite lookup_empty in Hl.
Qed.

Lemma search_down_sound (self : MultisigCheckpointSyncer) validators t minimum n :
  uval minimum + Z.of_nat n <= 2 ^ 32 ->
  yields (search_down self validators t minimum n)
    (λ r, match r with
          | Some ms =>
              uval minimum <= uval (checkpoint_index (checkpoint (ms_checkpoint ms)))
                < uval minimum + Z.of_nat n /\ is_quorum validators t ms
          | None => True
          end).
Proof.
  intros Hn. induction n as [|n IH]; cbn [search_down]; [by apply yields_ret|].
  apply yields_bind with (λ r, match r with
    | inr (Some ms) =>
        uval (checkpoint_index (checkpoint (ms_checkpoint ms))) = uval minimum + Z.of_nat n /\
        is_quorum validators t ms
    | _ => True
    end).
  - intros s s' r Hr. unfold eff_try in Hr.
    destruct (multisig_fetch_checkpoint _ _ _ _ s) as [s1 [ms|e|]] eqn:E; simplify_eq; [|done].
    apply multisig_fetch_sound in E. destruct ms as [ms|]; [|done].
    destruct E as [-> Hq]. split; [|done]. urange minimum.
    apply uval_uwrap_small. change (umax 4) with (2 ^ 32). lia.
  - assert (Hlow : yields (search_down self validators t minimum n) (λ r, match r with
      | Some ms =>
          uval minimum <= uval (checkpoint_index (checkpoint (ms_checkpoint ms)))
            < uval minimum + Z.of_nat (S n) /\ is_quorum validators t ms
      | None => True
      end)).
    { intros s s' r Hr. apply IH in Hr; [|lia]. destruct r as [ms|]; [|done].
      split; [lia|apply Hr]. }
    intros [e|[ms|]] Hr; [done| |done]. apply yields_ret. split; [lia|apply Hr].
Qed.

Lemma fetch_in_range_sound (self : MultisigCheckpointSyncer) validators t minimum maximum :
  yields (fetch_checkpoint_in_range self validators t minimum maximum)
    (λ r, match r with
          | Some ms =>
              uval minimum <= uval (checkpoint_index (checkpoint (ms_checkpoint ms)))
                <= uval maximum /\ is_quorum validators t ms
          | None => True
          end).
Proof.
  unfold fetch_checkpoint_in_range. apply yields_any. intros latest.
  case_bool_decide; [by apply yields_ret|]. apply yields_any. intros n.
  destruct (get_index _ n) as [highest|]; [|by apply yields_ret].
  destruct (Z.ltb_spec (Z.min (uval highest) (uval maximum)) (uval minimum)) as [Hlt|Hle];
    [by apply yields_ret|].
  urange minimum. urange maximum. urange highest.
  intros s s' r Hr. apply search_down_sound in Hr; [|lia].
  destruct r as [ms|]; [|done]. split; [lia|apply Hr].
Qed.

(** ** Storages that answer *)

(** At [w], every storage answers for [index] without a panic, and [published] is what the
    validators have published there. *)
Definition reads (self : MultisigCheckpointSyncer) (index : u32) (w : storage)
    (published : H160 -> option SignedCheckpointWithMessageId) : Prop :=
  forall a, match checkpoint_syncers self !! a with
            | Some s => exists r, CheckpointStorage.fetch_checkpoint s index w = (w, r) /\
                          r <> Panic /\
                          published a = match r with Ok o => o | _ => None end
            | None => published a = None
            end.

Section published.
Context (self : MultisigCheckpointSyncer (A := A)) (t : usize) (index : u32) (w : storage).
Context (published : H160 -> option SignedCheckpointWithMessageId).
Hypothesis Hreads : reads self index w published.

(** The checkpoint that counts for [v]: at [index], and signed by [v]. *)
Definition counts (v : H256) : option SignedCheckpointWithMessageId :=
  c ← published (H160_from_H256 v);
  if bool_decide (checkpoint_index (checkpoint (value c)) = index) &&
     bool_decide (H256_from_H160 <$> recover c = Some v)
  then Some c else None.

(** The checkpoints that count for [root]. *)
Definition at_root (root : H256) (validators : list H256) : list SignedCheckpointWithMessageId :=
  omap (λ v, c ← counts v;
             if bool_decide (checkpoint_root (checkpoint (value c)) = root) then Some c else None)
    validators.

(** No published checkpoint at [index] has a signature that recovers to nobody. *)
Definition recoverable (validators : list H256) : Prop :=
  forall v c, v ∈ validators -> published (H160_from_H256 v) = Some c ->
    checkpoint_index (checkpoint (value c)) = index -> recover c <> None.

(** Checkpoints that count and have the same root are the same. *)
Definition consistent (validators : list H256) : Prop :=
  forall v v' c c', v ∈ validators -> v' ∈ validators -> counts v = Some c ->
    counts v' = Some c' -> checkpoint_root (checkpoint (value c)) =
    checkpoint_root (checkpoint (value c')) -> value c = value c'.

Lemma at_root_app root l k : at_root root (l ++ k) = at_root root l ++ at_root root k.
Proof. apply omap_app. Qed.

Lemma at_root_skip root l v : counts v = None -> at_root root (l ++ [v]) = at_root root l.
Proof. intros Hv. rewrite at_root_app. cbn. by rewrite Hv, app_nil_r. Qed.

Lemma at_root_same validators l root c c' :
  consistent validators -> (forall v, v ∈ l -> v ∈ validators) ->
  c ∈ at_root root l -> c' ∈ at_root root l -> value c = value c'.
Proof.
  intros Hc Hl Hx Hx'. apply list_elem_of_omap in Hx as (v & Hv & Hx), Hx' as (v' & Hv' & Hx').
  destruct (counts v) as [x|] eqn:E, (counts v') as [x'|] eqn:E'; try done. cbn in Hx, Hx'.
  case_bool_decide; case_bool_decide; simplify_eq. eapply (Hc v v'); eauto.
Qed.

Lemma try_from_same (l : list SignedCheckpointWithMessageId) :
  l <> [] -> (forall c c', c ∈ l -> c' ∈ l -> value c = value c') ->
  exists ms, MultisigSignedCheckpoint_try_from l = Ok ms.
Proof.
  unfold MultisigSignedCheckpoint_try_from. destruct l as [|c0 l]; [done|]. intros _ Hs.
  rewrite (proj2 (forallb_forall _ (c0 :: l))); [eauto|]. intros c Hc.
  apply bool_decide_eq_true_2, Hs; [left|by apply list_elem_of_In].
Qed.

Lemma fetch_loop_complete validators seen per_root :
  recoverable (seen ++ validators) -> consistent (seen ++ validators) ->
  (forall root, default [] (per_root !! root) = at_root root seen /\
                Z.of_nat (length (at_root root seen)) < quorum_size t) ->
  exists r, fetch_loop self validators t index per_root w = (w, Ok r) /\
    (is_Some r <-> exists root,
       quorum_size t <= Z.of_nat (length (at_root root (seen ++ validators)))).
Proof.
  revert seen per_root. induction validators as [|v validators IH];
    intros seen per_root Hrec Hcons Hinv; cbn [fetch_loop].
  { exists None. split; [done|]. rewrite app_nil_r. split; [by intros []|].
    intros [root Hr]. destruct (Hinv root). lia. }
  replace (seen ++ v :: validators) with ((seen ++ [v]) ++ validators) in *
    by by rewrite <- app_assoc.
  assert (Hskip : counts v = None -> exists r,
    fetch_loop self validators t index per_root w = (w, Ok r) /\
    (is_Some r <-> exists root,
       quorum_size t <= Z.of_nat (length (at_root root ((seen ++ [v]) ++ validators))))).
  { intros Hv. apply IH; [done|done|]. intros root. by rewrite at_root_skip. }
  specialize (Hreads (H160_from_H256 v)). unfold counts in Hskip.
  destruct (checkpoint_syncers self !! _) as [syncer|]; [|apply Hskip; by rewrite Hreads].
  destruct Hreads as (r & Hr & Hp & Hpub). rewrite Hpub in Hskip.
  destruct r as [[c|]|e|]; [| | |done].
  2-3: (erewrite eff_bind_eq by (by unfold eff_try; rewrite Hr)); by apply Hskip.
  erewrite eff_bind_eq by (by unfold eff_try; rewrite Hr). cbn [mbind option_bind] in Hskip.
  destruct (decide (checkpoint_index (checkpoint (value c)) = index)) as [Hi|Hi].
  2: { rewrite bool_decide_eq_true_2 by done. apply Hskip. by rewrite bool_decide_eq_false_2. }
  rewrite (bool_decide_eq_false_2 (_ <> index)) by (intros Hn; by apply Hn).
  rewrite (bool_decide_eq_true_2 _ Hi) in Hskip. cbn [andb] in Hskip.
  assert (Hv : v ∈ (seen ++ [v]) ++ validators) by set_solver.
  destruct (recover c) as [signer|] eqn:Hs; [|by destruct (Hrec v c Hv Hpub Hi)].
  cbn [ok_or fmap option_fmap option_map] in Hskip. cbn [ok_or]. rewrite eff_lift_Ok_bind.
  destruct (decide (H256_from_H160 signer = v)) as [Hsv|Hsv].
  2: { rewrite bool_decide_eq_true_2 by done. apply Hskip.
       rewrite bool_decide_eq_false_2; [done|congruence]. }
  rewrite (bool_decide_eq_false_2 (_ <> v)) by (intros Hn; by apply Hn). clear Hskip. set (root := checkpoint_root (checkpoint (value c))).
  assert (Hcv : counts v = Some c).
  { unfold counts. rewrite Hpub. cbn. rewrite Hs, !bool_decide_eq_true_2; [done| |done].
    cbn. by rewrite Hsv. }
  assert (Hat : forall r, at_root r (seen ++ [v]) =
    at_root r seen ++ (if bool_decide (root = r) then [c] else [])).
  { intros r. rewrite at_root_app. f_equal. cbn. rewrite Hcv. cbn. subst root.
    by case_bool_decide. }
  destruct (Hinv root) as [Hl Hlt]. rewrite Hl.
  assert (Hnew : at_root root seen ++ [c] = at_root root (seen ++ [v])).
  { by rewrite Hat, bool_decide_eq_true_2. }
  rewrite Hnew.
  destruct (Z.leb_spec (uval t) (Z.of_nat (length (at_root root (seen ++ [v]))))) as [Ht|Ht].
  - destruct (try_from_same (at_root root (seen ++ [v]))) as [ms Hms].
    + rewrite <- Hnew. by destruct (at_root root seen).
    + intros x y Hx Hy. eapply (at_root_same _ (seen ++ [v])); [done| |exact Hx|exact Hy].
      intros u Hu. by apply elem_of_app; left.
    + rewrite Hms. exists (Some ms). split; [done|]. split; [|done]. intros _. exists root.
      rewrite at_root_app, length_app. rewrite <- Hnew, length_app in Ht |- *.
      unfold quorum_size. cbn [length] in *. lia.
  - apply IH; [done|done|]. intros r. destruct (Hinv r) as [Hr1 Hr2].
    clearbody root. destruct (decide (root = r)) as [<-|Hrr].
    + rewrite lookup_insert_eq. split; [done|]. unfold quorum_size. lia.
    + rewrite lookup_insert_ne, (Hat r), (bool_decide_eq_false_2 _ Hrr), app_nil_r by done. done.
Qed.

(** The quorum is found. When every storage answers, no published signature is malformed and
    the validators who published a root agree on the rest of the checkpoint, a checkpoint is
    returned if and only if some root has the signatures of enough validators. *)
Theorem quorum_complete validators
    (Hrec : recoverable validators) (Hcons : consistent validators) :
  exists r, multisig_fetch_checkpoint self validators t index w = (w, Ok r) /\
    (is_Some r <-> exists root,
       quorum_size t <= Z.of_nat (length (at_root root validators))).
Proof.
  apply (fetch_loop_complete validators [] ∅ Hrec Hcons). intros root.
  rewrite lookup_empty. split; [done|]. cbn. unfold quorum_size. lia.
Qed.

Lemma fetch_loop_blocked pre v post c per_root :
  (forall u, u ∈ pre -> published (H160_from_H256 u) = None) ->
  published (H160_from_H256 v) = Some c ->
  checkpoint_index (checkpoint (value c)) = index -> recover c = None ->
  fetch_loop self (pre ++ v :: post) t index per_root w = (w, Err RecoverError).
Proof.
  intros Hpre Hv Hi Hrec. induction pre as [|u pre IH]; cbn [app fetch_loop].
  - pose proof (Hreads (H160_from_H256 v)) as Hr.
    destruct (checkpoint_syncers self !! _) as [syncer|]; [|congruence].
    destruct Hr as (r & Hr & Hp & Hpub). rewrite Hv in Hpub.
    destruct r as [[c'|]|e|]; try done. injection Hpub as <-.
    erewrite eff_bind_eq by (by unfold eff_try; rewrite Hr).
    cbn beta iota. rewrite bool_decide_eq_false_2 by (intros Hn; by apply Hn). by rewrite Hrec.
  - assert (Hu : published (H160_from_H256 u) = None) by (apply Hpre; left).
    pose proof (Hreads (H160_from_H256 u)) as Hr.
    assert (Hskip : fetch_loop self (pre ++ v :: post) t index per_root w = (w, Err RecoverError)).
    { apply IH. intros x Hx. apply Hpre. by right. }
    destruct (checkpoint_syncers self !! _) as [syncer|]; [|done].
    destruct Hr as (r & Hr & Hp & Hpub). rewrite Hu in Hpub.
    destruct r as [[c'|]|e|]; try done; by (erewrite eff_bind_eq by (by unfold eff_try; rewrite Hr)).
Qed.
End published.

(** One malformed signature blocks an index. If the first validator of the set that has
    published anything at [index] published a checkpoint whose signature recovers to nobody,
    the call fails, whatever all the other validators have signed. *)
Theorem quorum_blocked (self : MultisigCheckpointSyncer) t index w published pre v post c
    (Hreads : reads self index w published)
    (Hpre : forall u, u ∈ pre -> published (H160_from_H256 u) = None)
    (Hv : published (H160_from_H256 v) = Some c)
    (Hi : checkpoint_index (checkpoint (value c)) = index) (Hrec : recover c = None) :
  multisig_fetch_checkpoint self (pre ++ v :: post) t index w = (w, Err RecoverError).
Proof. by eapply fetch_loop_blocked. Qed.

(** A checkpoint found in a range is in it and has a quorum, whatever the storages hold. *)
Theorem quorum_in_range (self : MultisigCheckpointSyncer) validators t minimum maximum s s' ms
    (Hfetch : fetch_checkpoint_in_range self validators t minimum maximum s = (s', Ok (Some ms))) :
  uval minimum <= uval (checkpoint_index (checkpoint (ms_checkpoint ms))) <= uval maximum /\
  is_quorum validators t ms.
Proof. exact (fetch_in_range_sound self validators t minimum maximum _ _ _ Hfetch). Qed.

(** C16. Quorum soundness. Whatever the storages hold and answer, a checkpoint returned for an index
    is at that index and carries exactly as many signatures as the threshold asks (one for a
    threshold of 0), every one of them recovered to the validator it stands for, by
    validators of the set in the order of the set. *)
Theorem quorum_sound (self : MultisigCheckpointSyncer) validators t index s s' ms
    (Hfetch : multisig_fetch_checkpoint self validators t index s = (s', Ok (Some ms))) :
  checkpoint_index (checkpoint (ms_checkpoint ms)) = index /\ is_quorum validators t ms.
Proof. exact (multisig_fetch_sound self validators t index _ _ _ Hfetch). Qed.
End quorum.
