(* ===== verification/ConcreteStorage.v ===== *)
(** * An outside world in memory, and quorums in it

    One instance of the files, objects and JSON of [CheckpointStorage], with proofs of their
    laws, and the theorems on storages and quorums at concrete inputs. *)

From S2P Require Import Prelude.
From S2P Require Import Codec.
From S2P Require Import Keccak.
From S2P Require Import Message.
From S2P Require Import Sealevel.
From S2P Require Import MatchingList.
From S2P Require Import CheckpointStorage.
From S2P Require Import CheckpointStorageTheorems.
From S2P Require Import CheckpointQuorum.
From S2P Require Import QuorumTheorems.
From stdpp Require Import base gmap list numbers strings.
From Stdlib Require Import ZArith Lia.

#[local] Open Scope Z_scope.

Module StorageModel.

Record memory := MkMemory {
  files : gmap string bytes;
  objects : gmap (string * string * string) bytes
}.

#[export] Instance io : StorageIO := {|
  storage := memory;
  report := unit;
  path_exists _ _ := true;
  create_dir_all _ s := (s, Ok tt);
  fs_read path s := (s, ok_or (files s !! path) tt);
  fs_write path b s := (MkMemory (<[path := b]> (files s)) (objects s), Ok tt);
  Region := string;
  region_from_str := Some;
  region_name region := region;
  get_object region bucket key s :=
    (s, Ok match objects s !! (region, bucket, key) with Some b => Body b | None => NoSuchKey end);
  put_object region bucket key b s :=
    (MkMemory (files s) (<[(region, bucket, key) := b]> (objects s)), Ok tt)
|}.

#[export] Program Instance io_laws : StorageIOLaws :=
  {| fs_files := files; s3_objects := objects |}.
Next Obligation. by intros path s s' [= <-]. Qed.
Next Obligation. by intros path b s s' [= <-]. Qed.
Next Obligation. done. Qed.
Next Obligation.
  intros path s s' b [= _ Hb]. destruct (files s !! path); cbn in Hb; congruence.
Qed.
Next Obligation. by intros region bucket key b s s' [= <-]. Qed.
Next Obligation. done. Qed.
Next Obligation. intros region bucket key s s' r [= _ <-]. cbn. by destruct (objects s !! _). Qed.

(** The fields of a signed checkpoint one after the other, for its JSON. *)
Definition encode_checkpoint (c : SignedCheckpointWithMessageId) : bytes :=
  let k := checkpoint (value c) in
  to_be (merkle_tree_hook_address k) ++ to_be (mailbox_domain k) ++ to_be (checkpoint_root k) ++
  to_be (checkpoint_index k) ++ to_be (checkpoint_message_id (value c)) ++
  to_be (u256 (r (signature c))) ++ to_be (u256 (s (signature c))) ++ to_be (v (signature c)).
Definition decode_checkpoint (b : bytes) : option SignedCheckpointWithMessageId :=
  hook ← slice b 0 32;
  domain ← slice b 32 36;
  root ← slice b 36 68;
  index ← slice b 68 72;
  id ← slice b 72 104;
  r ← slice b 104 136;
  s ← slice b 136 168;
  v ← slice_from b 168;
  Some (MkSignedType
    (MkCheckpointWithMessageId
       (MkCheckpoint (from_be 32 hook) (from_be 4 domain) (from_be 32 root) (from_be 4 index))
       (from_be 32 id))
    (MkSignature (MkU256 (from_be 32 r)) (MkU256 (from_be 32 s)) (from_be 8 v))).

#[export] Instance json : SyncerJson := {|
  checkpoint_to_json c := Ok (encode_checkpoint c);
  checkpoint_from_json b := ok_or (decode_checkpoint b) tt;
  announcement_to_json a := Ok (storage_location (value a));
  index_to_json i := Ok (to_be i);
  index_from_json b := Ok (from_be 4 b);
  parse_int_error := tt
|}.

#[export] Instance json_laws : SyncerJsonLaws.
Proof.
  split.
  - intros c b Hb. cbn in Hb. injection Hb as <-. cbn. unfold decode_checkpoint, encode_checkpoint.
    slices. cbn [ok_or]. rewrite !from_be_to_be.
    by destruct c as [[[] ?] [[?] [?] ?]].
  - intros i b Hb. cbn in Hb. injection Hb as <-. cbn. by rewrite from_be_to_be.
Qed.
End StorageModel.

(** Two validators who have signed the first checkpoint; the signer of a signature is its [r],
    and a signature with [v = 0] is malformed. *)
Module QuorumScenario.
Import StorageModel.

#[export] Instance hash : Keccak256 := λ b, from_be 32 b.
#[export] Instance ethers : Ethers := λ sig _,
  if uval (v sig) =? 0 then None else Some (uwrap 20 (uval (u256 (r sig)))).
#[export] Instance checks : OverflowChecks := false.

Definition first_checkpoint : CheckpointWithMessageId :=
  MkCheckpointWithMessageId (MkCheckpoint (uwrap 32 1) (uwrap 4 9) (uwrap 32 2) (uwrap 4 0))
    (uwrap 32 3).
Definition signed_by (a : Z) (v : Z) : SignedCheckpointWithMessageId :=
  MkSignedType first_checkpoint
    (MkSignature (MkU256 (uwrap 32 a)) (MkU256 (uwrap 32 5)) (uwrap 8 v)).
Definition address (a : Z) : H256 := uwrap 32 a.

Definition alice : LocalStorage := MkLocalStorage "/alice".
Definition bob : LocalStorage := MkLocalStorage "/bob/".
Definition bucket : AnySyncer :=
  S3 (MkS3Storage "bucket" (Some "a/b"%string) ("us-east-1"%string : @Region io)).
Definition syncers : MultisigCheckpointSyncer (A := LocalStorage) :=
  MkMultisigCheckpointSyncer (<[uwrap 20 7 := alice]> (<[uwrap 20 8 := bob]> ∅)).
Definition validators : list H256 := [address 7; address 8].

(** What the validators publish, [v] being the recovery byte of the first. *)
Definition world (v : Z) : storage :=
  MkMemory
    (<["/alice/0_with_id.json" := encode_checkpoint (signed_by 7 v)]>
     (<["/bob/0_with_id.json" := encode_checkpoint (signed_by 8 27)]>
      (<["/alice/index.json" := bstr "0"]> (<["/bob/index.json" := bstr "0"]> ∅)))) ∅.
Definition on_file (v : Z) (a : H160) : option SignedCheckpointWithMessageId :=
  if decide (a = uwrap 20 7) then Some (signed_by 7 v)
  else if decide (a = uwrap 20 8) then Some (signed_by 8 27) else None.

Lemma world_reads v (Hv : v = 0 \/ v = 28) :
  reads syncers (uwrap 4 0) (world v) (on_file v).
Proof.
  intros a. unfold on_file. case_decide as H7; [|case_decide as H8].
  - subst a. exists (Ok (Some (signed_by 7 v))).
    destruct Hv as [-> | ->]; (split; [vm_compute; reflexivity|done]).
  - subst a. exists (Ok (Some (signed_by 8 27))).
    destruct Hv as [-> | ->]; (split; [vm_compute; reflexivity|done]).
  - cbn [checkpoint_syncers syncers]. rewrite !lookup_insert_ne by congruence.
    by rewrite lookup_empty.
Qed.

Definition found (m : outcome QuorumError (option MultisigSignedCheckpoint)) : bool :=
  match m with Ok (Some _) => true | _ => false end.

Lemma found_some m : found m = true -> exists ms, m = Ok (Some ms).
Proof. destruct m as [[ms|]|e|]; [eauto|done..]. Qed.

(** A run that finds a checkpoint. *)
Lemma runs (m : eff storage QuorumError (option MultisigSignedCheckpoint)) w :
  found (snd (m w)) = true -> exists w' ms, m w = (w', Ok (Some ms)).
Proof.
  intros Hf. destruct (m w) as [w' o] eqn:E. apply found_some in Hf as [ms Hms].
  cbn in Hms. rewrite Hms. eauto.
Qed.
End QuorumScenario.

Section witnesses.
Import StorageModel QuorumScenario.

Lemma announced_location_found_witness :
  exists conf built, CheckpointSyncerConf_from_str "s3://bucket/us-east-1/a/b" = Some conf /\
    CheckpointSyncerConf_build conf (world 0) = (world 0, Ok built) /\ same_storage built bucket.
Proof.
  assert (Hl : locatable bucket)
    by (repeat split; vm_compute; reflexivity).
  destruct (announced_location_found bucket (world 0) Hl) as (conf & Hc & Hb).
  assert (Hr : CheckpointSyncerConf_from_str "s3://bucket/us-east-1/a/b" =
    Some (S3Conf "bucket" (Some "a/b"%string) ("us-east-1"%string : @Region io)))
    by (vm_compute; reflexivity).
  change (announcement_location bucket) with "s3://bucket/us-east-1/a/b"%string in Hc.
  rewrite Hr in Hc. apply (inj Some) in Hc. subst conf. eexists _, _. split; [exact Hr|].
  split; [reflexivity|exact Hb].
Defined.

Lemma update_latest_index_spec_witness :
  exists s', update_latest_index alice (uwrap 4 3) (world 0) = (s', Ok tt) /\
    latest alice s' = Some (uwrap 4 3).
Proof.
  set (s' := fst (update_latest_index alice (uwrap 4 3) (world 0))).
  assert (Hu : update_latest_index alice (uwrap 4 3) (world 0) = (s', Ok tt))
    by (vm_compute; reflexivity).
  exists s'. split; [exact Hu|].
  destruct (update_latest_index_spec alice (uwrap 4 3) (world 0) s' Hu)
    as (_ & s1 & read & Hr & _ & Hl).
  rewrite Hl. assert (Hread : read = Some (uwrap 4 0)).
  { assert (Hc : snd (latest_index alice (world 0)) = Ok (Some (uwrap 4 0)))
      by (vm_compute; reflexivity).
    rewrite Hr in Hc. cbn in Hc. congruence. }
  rewrite Hread. reflexivity.
Defined.

Lemma quorum_sound_witness :
  exists w' ms, multisig_fetch_checkpoint syncers validators (uwrap 8 2) (uwrap 4 0) (world 28)
    = (w', Ok (Some ms)) /\ is_quorum validators (uwrap 8 2) ms.
Proof.
  destruct (runs (multisig_fetch_checkpoint syncers validators (uwrap 8 2) (uwrap 4 0)) (world 28))
    as (w' & ms & Hf); [vm_compute; reflexivity|].
  exists w', ms. split; [exact Hf|].
  exact (proj2 (quorum_sound syncers validators (uwrap 8 2) (uwrap 4 0) (world 28) w' ms Hf)).
Defined.

Lemma quorum_in_range_witness :
  exists w' ms, fetch_checkpoint_in_range syncers validators (uwrap 8 2) (uwrap 4 0) (uwrap 4 5)
    (world 28) = (w', Ok (Some ms)) /\ is_quorum validators (uwrap 8 2) ms.
Proof.
  destruct (runs (fetch_checkpoint_in_range syncers validators (uwrap 8 2) (uwrap 4 0) (uwrap 4 5))
    (world 28)) as (w' & ms & Hf); [vm_compute; reflexivity|].
  exists w', ms. split; [exact Hf|].
  exact (proj2 (quorum_in_range syncers validators (uwrap 8 2) (uwrap 4 0) (uwrap 4 5) (world 28)
    w' ms Hf)).
Defined.

Lemma quorum_complete_witness :
  exists r, multisig_fetch_checkpoint syncers validators (uwrap 8 2) (uwrap 4 0) (world 28)
    = (world 28, Ok r) /\ is_Some r.
Proof.
  destruct (quorum_complete syncers (uwrap 8 2) (uwrap 4 0) (world 28) (on_file 28)
    (world_reads 28 (or_intror eq_refl)) validators) as (r & Hr & Hs).
  - intros v c Hv Hp Hi Hn.
    assert (Hc : c = signed_by 7 28 \/ c = signed_by 8 27).
    { unfold on_file in Hp. repeat case_decide; naive_solver. }
    destruct Hc as [-> | ->]; vm_compute in Hn; discriminate.
  - intros v v' c c' Hv Hv' Hc Hc' _.
    assert (Hall : forall u d, counts (uwrap 4 0) (on_file 28) u = Some d -> value d = first_checkpoint).
    { intros u d Hd. unfold counts in Hd.
      destruct (on_file 28 _) as [x|] eqn:Hx; [|discriminate]. cbn in Hd. case_match; [|discriminate].
      injection Hd as <-. unfold on_file in Hx. repeat case_decide; naive_solver. }
    rewrite (Hall v c Hc), (Hall v' c' Hc'). reflexivity.
  - exists r. split; [exact Hr|]. apply Hs. exists (uwrap 32 2). vm_compute. discriminate.
Defined.

Lemma quorum_blocked_witness :
  multisig_fetch_checkpoint syncers validators (uwrap 8 1) (uwrap 4 0) (world 0)
    = (world 0, Err RecoverError).
Proof.
  apply (quorum_blocked syncers (uwrap 8 1) (uwrap 4 0) (world 0) (on_file 0) [] (address 7)
    [address 8] (signed_by 7 0)).
  - exact (world_reads 0 (or_introl eq_refl)).
  - intros u Hu. apply not_elem_of_nil in Hu. destruct Hu.
  - vm_compute. reflexivity.
  - reflexivity.
  - vm_compute. reflexivity.
Defined.
End witnesses.
