(* ===== verification/Aggregation.v ===== *)
(** * The metadata of aggregation modules ([agents/relayer/src/msg/metadata/aggregation.rs])

    The layout of the metadata of several modules, and the choice of the cheapest: the parts of
    the builder that only compute, with their properties. The calls of the chain are in
    [Metadata]. *)

From S2P Require Import Prelude.
From stdpp Require Import base list numbers sorting sets.
From Stdlib Require Import ZArith Lia.

#[local] Open Scope Z_scope.

(** [slice::sort_by] of a comparison by a key: the sort is stable. *)
Fixpoint insert_by {A} (key : A -> Z) (x : A) (l : list A) : list A :=
  match l with
  | [] => [x]
  | y :: l => if key x <=? key y then x :: y :: l else y :: insert_by key x l
  end.
Definition sort_by_key {A} (key : A -> Z) (l : list A) : list A := foldr (insert_by key) [] l.

Definition METADATA_RANGE_SIZE : nat := 4.

Record SubModuleMetadata := MkSubModuleMetadata { sub_index : nat; sub_metadata : bytes }.

(** [encode_byte_index] *)
Definition encode_byte_index (i : nat) : bytes := to_be (uwrap 4 (Z.of_nat i)).

(** [buffer.splice(a..b, replacement)]; [None] is a panic. *)
Definition splice {A} (buffer : list A) (a b : nat) (replacement : list A) : option (list A) :=
  if decide (a <= b /\ b <= length buffer)%nat
  then Some (take a buffer ++ replacement ++ drop b buffer) else None.

(** The loop of [format_metadata]. *)
Fixpoint format_loop (metadatas : list SubModuleMetadata) (buffer : bytes) : option bytes :=
  match metadatas with
  | [] => Some buffer
  | m :: metadatas =>
      let range_start := length buffer in
      let buffer := buffer ++ sub_metadata m in
      let range_end := length buffer in
      let encoded_range_start := (METADATA_RANGE_SIZE * 2 * sub_index m)%nat in
      buffer ← splice buffer encoded_range_start (encoded_range_start + METADATA_RANGE_SIZE * 2)
                 (encode_byte_index range_start ++ encode_byte_index range_end);
      format_loop metadatas buffer
  end.

(** [AggregationIsmMetadataBuilder::format_metadata] *)
Definition format_metadata (metadatas : list SubModuleMetadata) (ism_count : nat) :
    option bytes :=
  let range_tuples_size := (METADATA_RANGE_SIZE * 2 * ism_count)%nat in
  format_loop metadatas (replicate range_tuples_size (byte 0)).

(** [AggregationIsmMetadataBuilder::n_cheapest_metas], with the gas as a number *)
Definition n_cheapest_metas (metas_and_gas : list (SubModuleMetadata * Z)) (n : nat) :
    option (list SubModuleMetadata) :=
  let metas_and_gas := sort_by_key snd metas_and_gas in
  cheapest ← slice metas_and_gas 0 n;
  let cheapest := sort_by_key (λ m, Z.of_nat (sub_index (fst m))) cheapest in
  Some (fst <$> cheapest).

(** ** Sorting *)

Section sorting.
Context {A : Type} (key : A -> Z).

Definition key_le (x y : A) : Prop := key x <= key y.

Lemma insert_by_perm x l : insert_by key x l ≡ₚ x :: l.
Proof.
  induction l as [|y l IH]; cbn; [done|]. case_match; [done|]. rewrite IH. constructor.
Qed.

Lemma sort_by_key_perm l : sort_by_key key l ≡ₚ l.
Proof.
  induction l as [|x l IH]; cbn; [done|]. rewrite insert_by_perm. by constructor.
Qed.

Lemma insert_by_sorted x l : StronglySorted key_le l -> StronglySorted key_le (insert_by key x l).
Proof.
  intros Hs. induction Hs as [|y l Hs IH Hy]; cbn; [by repeat constructor|].
  destruct (Z.leb_spec (key x) (key y)) as [Hle|Hlt].
  - constructor; [by constructor|]. constructor; [done|].
    eapply Forall_impl; [exact Hy|]. unfold key_le. intros z Hz. lia.
  - constructor; [done|]. apply Forall_forall. intros z Hz.
    apply (elem_of_Permutation_proper z _ _ (insert_by_perm x l)) in Hz.
    apply elem_of_cons in Hz as [->|Hz]; [unfold key_le; lia|].
    by eapply Forall_forall in Hy.
Qed.

Lemma sort_by_key_sorted l : StronglySorted key_le (sort_by_key key l).
Proof. induction l as [|x l IH]; cbn; [constructor|]. by apply insert_by_sorted. Qed.
End sorting.

(** ** The choice of modules *)

Lemma n_cheapest_ok (l : list (SubModuleMetadata * Z)) (n : nat) :
  match n_cheapest_metas l n with
  | Some metas =>
      (n <= length l)%nat /\ length metas = n /\
      StronglySorted (λ a b, (sub_index a <= sub_index b)%nat) metas /\
      exists chosen rest, l ≡ₚ chosen ++ rest /\ metas ≡ₚ fst <$> chosen /\
        forall c r, c ∈ chosen -> r ∈ rest -> snd c <= snd r
  | None => (length l < n)%nat
  end.
Proof.
  unfold n_cheapest_metas, slice. pose proof (sort_by_key_perm snd l) as Hp.
  pose proof (sort_by_key_sorted snd l) as Hs. set (s := sort_by_key snd l) in *.
  rewrite (Permutation_length Hp). case_decide as Hn; cbn [mbind option_bind]; [|lia].
  rewrite Nat.sub_0_r, drop_0. set (f := λ m : SubModuleMetadata * Z, _).
  pose proof (sort_by_key_perm f (take n s)) as Hp'.
  pose proof (sort_by_key_sorted f (take n s)) as Hs'. set (s' := sort_by_key f (take n s)) in *.
  split_and!; [lia| | |].
  - rewrite length_fmap, (Permutation_length Hp'), length_take, (Permutation_length Hp). lia.
  - clear -Hs'. induction Hs' as [|x k Hk IH Hx]; cbn; [constructor|]. constructor; [done|].
    apply Forall_fmap. eapply Forall_impl; [exact Hx|]. unfold key_le, f. intros y Hy. cbn. lia.
  - exists (take n s), (drop n s). rewrite take_drop. split; [done|]. split; [by rewrite Hp'|].
    intros c r Hc Hr. rewrite <- (take_drop n s) in Hs.
    apply StronglySorted_app in Hs as (Hcr & _ & _). by apply Hcr.
Qed.

(** The cheapest modules. Enough metadata for the threshold give a choice of exactly the threshold:
    it is part of what was offered, in the order of the modules, and no module that was left
    out is cheaper than one that was chosen. Too few make the slice panic. *)
Theorem n_cheapest_spec (l : list (SubModuleMetadata * Z)) (n : nat) :
  match n_cheapest_metas l n with
  | Some metas =>
      (n <= length l)%nat /\ length metas = n /\
      StronglySorted (λ a b, (sub_index a <= sub_index b)%nat) metas /\
      exists chosen rest, l ≡ₚ chosen ++ rest /\ metas ≡ₚ fst <$> chosen /\
        forall c r, c ∈ chosen -> r ∈ rest -> snd c <= snd r
  | None => (length l < n)%nat
  end.
Proof. apply n_cheapest_ok. Qed.

(** ** The layout *)

Lemma slice_ext {A} (l l' : list A) x y :
  (y <= length l)%nat -> (y <= length l')%nat ->
  (forall k, (x <= k < y)%nat -> l !! k = l' !! k) -> slice l x y = slice l' x y.
Proof.
  intros Hl Hl' Hk. destruct (decide (x <= y)%nat) as [Hxy|Hxy].
  - rewrite !slice_in by lia. f_equal. apply list_eq. intros k.
    destruct (decide (k < y - x)%nat) as [Hlt|Hge].
    + rewrite !lookup_take_lt, !lookup_drop by lia. apply Hk. lia.
    + rewrite !lookup_take_ge by lia. done.
  - unfold slice. rewrite !decide_False by lia. done.
Qed.

Lemma slice_middle {A} (l : list A) x s :
  (forall k a, s !! k = Some a -> l !! (x + k)%nat = Some a) -> (x + length s <= length l)%nat ->
  slice l x (x + length s) = Some s.
Proof.
  intros Hk Hl. rewrite slice_in by lia. f_equal.
  replace (x + length s - x)%nat with (length s) by lia. apply list_eq. intros k.
  destruct (s !! k) as [a|] eqn:Hs.
  - rewrite lookup_take_lt, lookup_drop by (by apply lookup_lt_Some in Hs). by apply Hk.
  - apply lookup_ge_None in Hs. by rewrite lookup_take_ge by done.
Qed.

Lemma splice_lookup {A} (l r : list A) a :
  (a + length r <= length l)%nat -> exists l', splice l a (a + length r) r = Some l' /\
    length l' = length l /\
    forall k, l' !! k = if decide (a <= k < a + length r)%nat then r !! (k - a)%nat else l !! k.
Proof.
  intros Hl. unfold splice. rewrite decide_True by lia. eexists. split; [done|]. split.
  { rewrite !length_app, length_take, length_drop. lia. }
  intros k. destruct (decide (a <= k < a + length r)%nat) as [Hk|Hk].
  - rewrite lookup_app_r, length_take by (rewrite length_take; lia).
    rewrite Nat.min_l, lookup_app_l by lia. done.
  - destruct (decide (k < a)%nat) as [Hlt|Hge].
    + rewrite lookup_app_l, lookup_take_lt by (rewrite ?length_take; lia). done.
    + rewrite lookup_app_r, length_take by (rewrite length_take; lia).
      rewrite Nat.min_l, lookup_app_r, lookup_drop by lia. f_equal. lia.
Qed.

(** How [AggregationIsmMetadata.sol], which the source names, reads the metadata: two big-endian
    words per module, the start and the end, and a start of 0 for a module without metadata. *)
Definition metadata_range (b : bytes) (i : nat) : option (nat * nat) :=
  s ← slice b (8 * i) (8 * i + 4);
  e ← slice b (8 * i + 4) (8 * i + 8);
  Some (Z.to_nat (be_val s), Z.to_nat (be_val e)).
Definition metadata_at (b : bytes) (i : nat) : option bytes :=
  '(s, e) ← metadata_range b i; if bool_decide (s = 0)%nat then None else slice b s e.

(** The bytes of all metadata. *)
Definition payload (metadatas : list SubModuleMetadata) : nat :=
  foldr (λ m n, length (sub_metadata m) + n)%nat 0%nat metadatas.

Lemma payload_app l k : payload (l ++ k) = (payload l + payload k)%nat.
Proof. induction l as [|m l IH]; cbn; [done|]. fold (payload (l ++ k)). rewrite IH. unfold payload. lia. Qed.

Lemma be_val_encode i : Z.of_nat i < 2 ^ 32 -> Z.to_nat (be_val (encode_byte_index i)) = i.
Proof.
  intros Hi. unfold encode_byte_index. pose proof (from_be_to_be (uwrap 4 (Z.of_nat i))) as E.
  apply (f_equal uval) in E. unfold from_be in E.
  rewrite uval_uwrap_small in E.
  - rewrite E, uval_uwrap_small; [lia|]. change (umax 4) with (2 ^ 32). lia.
  - unfold be_val. pose proof (le_val_range (rev (to_be (uwrap 4 (Z.of_nat i))))) as Hr.
    by rewrite length_rev, length_to_be in Hr.
Qed.

(** One round of the loop: its metadata is there, and nothing else has moved. *)
Lemma format_round count m b :
  (sub_index m < count)%nat -> (8 * count <= length b)%nat ->
  Z.of_nat (length b + length (sub_metadata m)) < 2 ^ 32 ->
  let range_start := length b in
  let buffer := b ++ sub_metadata m in
  exists b', splice buffer (8 * sub_index m) (8 * sub_index m + 8)
      (encode_byte_index range_start ++ encode_byte_index (length buffer)) = Some b' /\
    length b' = (length b + length (sub_metadata m))%nat /\
    metadata_range b' (sub_index m) = Some (length b, length b') /\
    slice b' (length b) (length b') = Some (sub_metadata m) /\
    (forall i, i <> sub_index m -> (i < count)%nat -> metadata_range b' i = metadata_range b i) /\
    (forall s e, (8 * count <= s)%nat -> (e <= length b)%nat -> slice b' s e = slice b s e).
Proof.
  intros Hi Hb Hlen range_start buffer.
  set (r := encode_byte_index range_start ++ encode_byte_index (length buffer)).
  assert (Hr : length r = 8%nat).
  { subst r. unfold encode_byte_index. by rewrite length_app, !length_to_be. }
  assert (Hbuf : length buffer = (length b + length (sub_metadata m))%nat)
    by (subst buffer; apply length_app).
  destruct (splice_lookup buffer r (8 * sub_index m)) as (b' & Hs & Hl & Hlook);
    [rewrite Hr; lia|].
  rewrite Hr in Hs, Hlook. exists b'. rewrite Hs, Hl, Hbuf.
  assert (Hkeep : forall x y, (y <= length b)%nat ->
    (y <= 8 * sub_index m \/ 8 * sub_index m + 8 <= x)%nat -> slice b' x y = slice b x y).
  { intros x y Hy Hd. apply slice_ext; [lia|lia|]. intros k Hk. rewrite Hlook.
    rewrite decide_False by lia. subst buffer. by rewrite lookup_app_l by lia. }
  split_and!; [done|done| | | |].
  - unfold metadata_range.
    assert (Hw : forall x w, length w = 4%nat -> (x + 4 <= 8)%nat ->
      (forall k a, w !! k = Some a -> r !! (x + k)%nat = Some a) ->
      slice b' (8 * sub_index m + x) (8 * sub_index m + x + 4) = Some w).
    { intros x w Hwl Hx Hwr. rewrite <- Hwl. apply slice_middle; [|lia].
      intros k a Ha. pose proof (lookup_lt_Some _ _ _ Ha). rewrite Hlook.
      rewrite decide_True by lia. rewrite <- (Hwr k a Ha). f_equal. lia. }
    pose proof (Hw 0%nat (encode_byte_index range_start)) as H0.
    pose proof (Hw 4%nat (encode_byte_index (length buffer))) as H4.
    rewrite Nat.add_0_r in H0. rewrite <- Nat.add_assoc in H4. change (4 + 4)%nat with 8%nat in H4.
    rewrite H0, some_bind, H4, some_bind.
    + rewrite !be_val_encode by lia. by rewrite Hbuf.
    + apply length_to_be.
    + lia.
    + intros k a Ha. subst r. rewrite lookup_app_r.
      * unfold encode_byte_index. rewrite length_to_be.
        by replace (4 + k - 4)%nat with k by lia.
      * unfold encode_byte_index. rewrite length_to_be. lia.
    + apply length_to_be.
    + lia.
    + intros k a Ha. subst r. by apply lookup_app_l_Some.
  - rewrite <- Hbuf, <- Hl. replace (length b') with (length b + length (sub_metadata m))%nat by lia.
    apply slice_middle; [|lia]. intros k a Ha. rewrite Hlook, decide_False by lia.
    subst buffer. rewrite lookup_app_r by lia. by replace (length b + k - length b)%nat with k by lia.
  - intros i Hne Hlt. unfold metadata_range. by rewrite !Hkeep by lia.
  - intros s e Hse He. apply Hkeep; lia.
Qed.

(** The modules of [seen] have their metadata in [b], the others have an empty range. *)
Definition laid_out (count : nat) (seen : list SubModuleMetadata) (b : bytes) : Prop :=
  length b = (8 * count + payload seen)%nat /\
  (forall m, m ∈ seen -> exists s e, metadata_range b (sub_index m) = Some (s, e) /\
    (8 * count <= s)%nat /\ (e <= length b)%nat /\ slice b s e = Some (sub_metadata m)) /\
  (forall i, (i < count)%nat -> i ∉ sub_index <$> seen -> metadata_range b i = Some (0, 0)%nat).

Lemma laid_out_round count seen m b :
  laid_out count seen b -> (sub_index m < count)%nat -> sub_index m ∉ sub_index <$> seen ->
  Z.of_nat (8 * count + payload (seen ++ [m])) < 2 ^ 32 ->
  (forall m', m' ∈ seen -> (sub_index m' < count)%nat) ->
  exists b', splice (b ++ sub_metadata m) (8 * sub_index m) (8 * sub_index m + 8)
      (encode_byte_index (length b) ++ encode_byte_index (length (b ++ sub_metadata m))) = Some b' /\
    laid_out count (seen ++ [m]) b'.
Proof.
  intros (Hl & Hseen & Hzero) Hi Hni Hlen Hin.
  assert (Hp : payload (seen ++ [m]) = (payload seen + length (sub_metadata m))%nat).
  { rewrite payload_app. cbn. lia. }
  destruct (format_round count m b) as (b' & Hs & Hl' & Hr & Hmd & Hrs & Hsl); [done|lia|lia|].
  exists b'. split; [done|]. split_and!; [lia| |].
  - intros m' [Hm'|Hm']%elem_of_app.
    + destruct (Hseen m' Hm') as (s & e & Hre & Hs1 & He & Hse). exists s, e.
      split_and!; [|done|lia|by rewrite Hsl by lia].
      rewrite Hrs; [done| |by apply Hin]. intros E. apply Hni, list_elem_of_fmap. by exists m'.
    + apply list_elem_of_singleton in Hm' as ->. exists (length b), (length b').
      split_and!; [done|lia|lia|done].
  - intros i Hic Hn. rewrite fmap_app, not_elem_of_app in Hn. destruct Hn as [Hn1 Hn2].
    rewrite Hrs; [by apply Hzero| |done]. intros ->. apply Hn2. left.
Qed.

Lemma format_loop_laid_out count metadatas seen b :
  laid_out count seen b -> NoDup (sub_index <$> seen ++ metadatas) ->
  (forall m, m ∈ seen ++ metadatas -> (sub_index m < count)%nat) ->
  Z.of_nat (8 * count + payload (seen ++ metadatas)) < 2 ^ 32 ->
  exists b', format_loop metadatas b = Some b' /\ laid_out count (seen ++ metadatas) b'.
Proof.
  revert seen b. induction metadatas as [|m metadatas IH]; intros seen b Hb Hnd Hin Hlen.
  { exists b. rewrite app_nil_r. done. }
  cbn [format_loop]. change (METADATA_RANGE_SIZE * 2)%nat with 8%nat.
  replace (seen ++ m :: metadatas) with ((seen ++ [m]) ++ metadatas) in *
    by by rewrite <- app_assoc.
  destruct (laid_out_round count seen m b) as (b' & Hs & Hb'); [done| | | | |].
  - apply Hin. set_solver.
  - rewrite !fmap_app, <- app_assoc in Hnd. apply NoDup_app in Hnd as (_ & Hd & _).
    intros Hm. apply (Hd _ Hm). left.
  - rewrite !payload_app in *. lia.
  - intros m' Hm'. apply Hin. set_solver.
  - rewrite Hs, some_bind. by apply IH.
Qed.

Lemma format_metadata_laid_out (metadatas : list SubModuleMetadata) (ism_count : nat)
    (Hnd : NoDup (sub_index <$> metadatas))
    (Hin : forall m, m ∈ metadatas -> (sub_index m < ism_count)%nat)
    (Hlen : Z.of_nat (8 * ism_count + payload metadatas) < 2 ^ 32) :
  exists b, format_metadata metadatas ism_count = Some b /\
    length b = (8 * ism_count + payload metadatas)%nat /\
    (forall m, m ∈ metadatas -> metadata_at b (sub_index m) = Some (sub_metadata m)) /\
    (forall i, (i < ism_count)%nat -> i ∉ sub_index <$> metadatas -> metadata_at b i = None).
Proof.
  unfold format_metadata. change (METADATA_RANGE_SIZE * 2 * ism_count)%nat with (8 * ism_count)%nat.
  destruct (format_loop_laid_out ism_count metadatas [] (replicate (8 * ism_count) (byte 0)))
    as (b & Hb & Hl & Hseen & Hzero); [|done|done|done|].
  - split_and!; [rewrite length_replicate; cbn; lia|set_solver|]. intros i Hi _.
    unfold metadata_range. rewrite !slice_in by (rewrite ?length_replicate; lia).
    rewrite !drop_replicate, !take_replicate, !Nat.min_l by lia.
    replace (8 * i + 4 - 8 * i)%nat with 4%nat by lia.
    replace (8 * i + 8 - (8 * i + 4))%nat with 4%nat by lia. reflexivity.
  - exists b. split_and!; [done|done| |].
    + intros m Hm. pose proof (Hin m Hm) as Hi.
      destruct (Hseen m Hm) as (s & e & Hr & Hs & He & Hse).
      unfold metadata_at. rewrite Hr, some_bind, bool_decide_eq_false_2 by lia. done.
    + intros i Hi Hn. unfold metadata_at. by rewrite (Hzero i Hi Hn).
Qed.

Lemma splice_length {A} (l r l' : list A) a b :
  splice l a b r = Some l' -> length r = (b - a)%nat -> length l' = length l.
Proof.
  unfold splice. case_decide; [|done]. intros [= <-] Hr.
  rewrite !length_app, length_take, length_drop. lia.
Qed.

Lemma format_metadata_length metadatas count b :
  format_metadata metadatas count = Some b -> length b = (8 * count + payload metadatas)%nat.
Proof.
  unfold format_metadata. change (METADATA_RANGE_SIZE * 2 * count)%nat with (8 * count)%nat.
  rewrite <- (length_replicate (8 * count) (byte 0)) at 2.
  generalize (replicate (8 * count) (byte 0)). clear count.
  induction metadatas as [|m l IH]; intros buf; cbn [format_loop].
  - intros [= <-]. cbn. lia.
  - destruct (splice _ _ _ _) as [buf'|] eqn:Hs; [|done]. cbn [mbind option_bind]. intros Hf.
    apply IH in Hf. apply splice_length in Hs.
    + rewrite length_app in Hs. cbn. fold (payload l). lia.
    + unfold encode_byte_index. rewrite length_app, !length_to_be. unfold METADATA_RANGE_SIZE. lia.
Qed.

(** The layout of aggregated metadata reads back. For the metadata of distinct modules, of less
    than 4 GiB in total, the buffer is built without a panic; the contract's reader finds each
    module's metadata at its index, and none for every other index. *)
Theorem aggregation_roundtrip (metadatas : list SubModuleMetadata) (ism_count : nat)
    (Hnd : NoDup (sub_index <$> metadatas))
    (Hin : forall m, m ∈ metadatas -> (sub_index m < ism_count)%nat)
    (Hlen : Z.of_nat (8 * ism_count + payload metadatas) < 2 ^ 32) :
  exists b, format_metadata metadatas ism_count = Some b /\
    length b = (8 * ism_count + payload metadatas)%nat /\
    (forall m, m ∈ metadatas -> metadata_at b (sub_index m) = Some (sub_metadata m)) /\
    (forall i, (i < ism_count)%nat -> i ∉ sub_index <$> metadatas -> metadata_at b i = None).
Proof. by apply format_metadata_laid_out. Qed.

(** ** Samples, among them those of the source's tests *)

Example format_empty :
  format_metadata [MkSubModuleMetadata 0 []] 1 = Some (blit [0; 0; 0; 8; 0; 0; 0; 8]).
Proof. vm_compute. reflexivity. Qed.

Example format_two_of_three :
  format_metadata [MkSubModuleMetadata 0 (blit [1; 2]); MkSubModuleMetadata 2 (blit [3])] 3 =
  Some (blit [0; 0; 0; 24; 0; 0; 0; 26;  0; 0; 0; 0; 0; 0; 0; 0;  0; 0; 0; 26; 0; 0; 0; 27;
              1; 2; 3]).
Proof. vm_compute. reflexivity. Qed.

Example n_cheapest_two :
  n_cheapest_metas [(MkSubModuleMetadata 3 [], 3); (MkSubModuleMetadata 2 [], 2);
                    (MkSubModuleMetadata 1 [], 1)] 2 =
  Some [MkSubModuleMetadata 1 []; MkSubModuleMetadata 2 []].
Proof. vm_compute. reflexivity. Qed.

Lemma aggregation_roundtrip_witness :
  exists b, format_metadata [MkSubModuleMetadata 0 (blit [1; 2]);
                             MkSubModuleMetadata 2 (blit [3])] 3 = Some b /\
    metadata_at b 2 = Some (blit [3]) /\ metadata_at b 1 = None.
Proof.
  set (l := [MkSubModuleMetadata 0 (blit [1; 2]); MkSubModuleMetadata 2 (blit [3])]).
  assert (Hnd : NoDup (sub_index <$> l)).
  { apply (bool_decide_unpack (NoDup [0; 2]%nat)). exact I. }
  assert (Hin : forall m, m ∈ l -> (sub_index m < 3)%nat).
  { apply Forall_forall. repeat constructor; cbn; lia. }
  destruct (aggregation_roundtrip l 3 Hnd Hin ltac:(vm_compute; reflexivity))
    as (b & Hb & _ & Hm & Hn).
  exists b. split; [exact Hb|]. split.
  - apply (Hm (MkSubModuleMetadata 2 (blit [3]))). right. left.
  - apply (Hn 1%nat); [lia|]. apply (bool_decide_unpack (1%nat ∉ [0; 2]%nat)). exact I.
Defined.
