(* ===== verification/Metadata.v ===== *)
(** * The builders of metadata ([agents/relayer/src/msg/metadata])

    [base.rs], [multisig/base.rs], [multisig/message_id_multisig.rs],
    [multisig/merkle_root_multisig.rs], [routing.rs], [aggregation.rs], [null_metadata.rs],
    [ccip_read.rs]: what the relayer gives to the security module of a message. The clients of
    the chains, of HTTP and the shared tree and database are the class [Clients], over the
    outside world of [CheckpointStorage]; the futures of a [join_all] run in their order; the
    classification of messages for metrics is at the end. *)

From S2P Require Import Prelude.
From S2P Require Import Codec.
From S2P Require Import Keccak.
From S2P Require Import U256.
From S2P Require Import Accumulator.
From S2P Require Import Message.
From S2P Require Import Chain.
From S2P Require Import Relayer.
From S2P Require Import Sealevel.
From S2P Require Import Database.
From S2P Require Import MatchingList.
From S2P Require Import PendingOperation.
From S2P Require Import CheckpointStorage.
From S2P Require Import CheckpointQuorum.
From S2P Require Import Aggregation.
From stdpp Require Import base gmap list numbers strings.
From Stdlib Require Import ZArith Lia.

#[local] Open Scope Z_scope.

(** ** Data *)

(** [ModuleType] of [hyperlane-core/src/traits/interchain_security_module.rs] *)
Inductive ModuleType :=
  | Unused
  | Routing
  | Aggregation
  | LegacyMultisig
  | MerkleRootMultisig
  | MessageIdMultisig
  | Null
  | CcipRead.

(** The revert data of the off-chain lookup, with the texts of the sender and the call data. *)
Record OffchainLookup := MkOffchainLookup {
  lookup_sender : string;
  lookup_urls : list string;
  lookup_call_data : string
}.

Class Clients `{StorageIO, RocksDB} := {
  (** Security modules of the destination: [build_ism], [build_routing_ism] and so on, and the
      methods of their traits *)
  ism : Type;
  routing_ism : Type;
  multisig_ism : Type;
  aggregation_ism : Type;
  ccip_read_ism : Type;
  build_ism : H256 -> eff storage report ism;
  build_routing_ism : H256 -> eff storage report routing_ism;
  build_multisig_ism : H256 -> eff storage report multisig_ism;
  build_aggregation_ism : H256 -> eff storage report aggregation_ism;
  build_ccip_read_ism : H256 -> eff storage report ccip_read_ism;
  module_type : ism -> eff storage report ModuleType;
  dry_run_verify : ism -> HyperlaneMessage -> bytes -> eff storage report (option U256);
  route : routing_ism -> HyperlaneMessage -> eff storage report H256;
  validators_and_threshold : multisig_ism -> HyperlaneMessage ->
    eff storage report (list H256 * u8);
  modules_and_threshold : aggregation_ism -> HyperlaneMessage ->
    eff storage report (list H256 * u8);
  (** the text of the error on failure *)
  get_offchain_verify_info : ccip_read_ism -> bytes -> eff storage string unit;
  (** [Mailbox::default_ism] of the destination *)
  default_ism : eff storage report H256;
  (** [ValidatorAnnounce] of the origin *)
  get_announced_storage_locations : list H256 -> eff storage report (list (list string));
  (** The relayer's tree and database, which other tasks write *)
  origin_prover_sync : storage -> MerkleTreeBuilder;
  origin_db : storage -> rocks;
  (** [Instant::now] *)
  instant_now : storage -> storage * Instant;
  (** [ethers::abi::encode] of fixed 32-byte words *)
  abi_encode : list H256 -> bytes;
  (** The first match of [0x[[:xdigit:]]+]; [hex::decode]; [OffchainLookup::decode] *)
  captures_hex : string -> option string;
  hex_decode : string -> outcome report bytes;
  offchain_lookup_decode : bytes -> outcome report OffchainLookup;
  (** [reqwest]: the response of a POST with data and sender, of a GET, and its JSON's [data] *)
  http_response : Type;
  http_post : string -> string -> string -> eff storage report http_response;
  http_get : string -> eff storage report http_response;
  http_json : http_response -> eff storage report string
}.

Inductive MetadataError `{StorageIO, RocksDB} :=
  | ClientError (e : report)
  | DatabaseError (e : DbError)
  | QuorumFailed (e : QuorumError)
  | ProofFailed (e : MerkleTreeBuilderError)
  | UnsupportedModuleType (module_type : ModuleType)
  | MaxDepthExceeded (depth : u32).

Record MultisigMetadata := MkMultisigMetadata {
  quorum_checkpoint : MultisigSignedCheckpoint;
  merkle_leaf_index : u32;
  proof : option Proof
}.

Module MetadataToken.
Inductive MetadataToken :=
  | CheckpointMerkleRoot
  | CheckpointIndex
  | CheckpointMerkleTreeHook
  | MessageId
  | MerkleProof
  | MessageMerkleLeafIndex
  | Signatures.
End MetadataToken.

(** [BaseMetadataBuilder]: the configuration of the builders. *)
Record BaseMetadataBuilder := MkBaseMetadataBuilder {
  origin_domain : Domain.HyperlaneDomain;
  allow_local_checkpoint_syncers : bool;
  max_depth : u32
}.

(** [s.replace(pattern, replacement)] *)
Definition str_replace (pattern replacement s : string) : string :=
  String.concat replacement (str_split pattern s).

(** [s.contains(pattern)] *)
Definition contains (pattern s : string) : bool :=
  (1 <? Z.of_nat (length (str_split pattern s))).

(** [&s[2..]]: [None] is the panic on an index that is past the end or inside a character. *)
Definition str_from_2 (s : string) : option string :=
  match s with
  | String _ (String _ EmptyString) => Some EmptyString
  | String _ (String _ (String c s)) =>
      if continuation (byte (Z.of_nat (Ascii.nat_of_ascii c))) then None else Some (String c s)
  | _ => None
  end.

Section builders.
Context `{Clients, !SyncerJson, Keccak256, Ethers, OverflowChecks}.

Definition builder (A : Type) : Type := eff storage MetadataError A.

(** A call of a client. *)
Definition client {A} (m : eff storage report A) : builder A := eff_map_err ClientError m.
(** A read of the database. *)
Definition read_db {A} (m : db A) : builder A := λ w,
  (w, map_err DatabaseError (snd (m (origin_db w)))).
(** The shared tree, under its read lock. *)
Definition read_prover : builder MerkleTreeBuilder := λ w, (w, Ok (origin_prover_sync w)).

(** [unwrap_or_none_result!] *)
Definition unwrap_or_none {A B} (o : option A) (f : A -> builder (option B)) :
    builder (option B) :=
  match o with Some a => f a | None => mret None end.

(** ** [base.rs]: [BaseMetadataBuilder] *)

(** [get_proof]; a root that is not the checkpoint's is only logged. *)
Definition get_proof (leaf_index : u32) (checkpoint : Checkpoint) : builder Proof :=
  prover_sync ← read_prover;
  eff_lift (map_err ProofFailed
    (Builder.get_proof prover_sync leaf_index (checkpoint_index checkpoint))).

Definition highest_known_leaf_index : builder (option u32) :=
  prover_sync ← read_prover;
  let count := uval (Builder.count prover_sync) in
  mret (if 1 <=? count then Some (uwrap 4 (count - 1)) else None).

Definition get_merkle_leaf_id_by_message_id (self : BaseMetadataBuilder) (message_id : H256) :
    builder (option u32) :=
  read_db (HyperlaneDB.retrieve_merkle_leaf_index_by_message_id (origin_domain self) message_id).

(** The loop over the locations of a validator, the latest first. *)
Fixpoint first_syncer (self : BaseMetadataBuilder) (locations : list string) :
    builder (option AnySyncer) :=
  match locations with
  | [] => mret None
  | storage_location :: locations =>
      match CheckpointSyncerConf_from_str storage_location with
      | None => first_syncer self locations
      | Some config =>
          if negb (allow_local_checkpoint_syncers self) &&
             match config with LocalStorageConf _ => true | S3Conf _ _ _ => false end
          then first_syncer self locations
          else
            built ← eff_try (CheckpointSyncerConf_build config);
            match built with
            | inr checkpoint_syncer => mret (Some checkpoint_syncer)
            | inl _ => first_syncer self locations
            end
      end
  end.

(** The loop over the validators and their locations. *)
Fixpoint build_syncers (self : BaseMetadataBuilder)
    (validators : list (H256 * list string)) (checkpoint_syncers : gmap H160 AnySyncer) :
    builder (gmap H160 AnySyncer) :=
  match validators with
  | [] => mret checkpoint_syncers
  | (validator, validator_storage_locations) :: validators =>
      found ← first_syncer self (rev validator_storage_locations);
      build_syncers self validators
        (match found with
         | Some checkpoint_syncer =>
             <[H160_from_H256 validator := checkpoint_syncer]> checkpoint_syncers
         | None => checkpoint_syncers
         end)
  end.

Definition build_checkpoint_syncer (self : BaseMetadataBuilder) (validators : list H256) :
    builder (MultisigCheckpointSyncer (A := AnySyncer)) :=
  storage_locations ← client (get_announced_storage_locations validators);
  checkpoint_syncers ← build_syncers self (zip validators storage_locations) ∅;
  mret (MkMultisigCheckpointSyncer checkpoint_syncers).

(** ** [multisig/base.rs] *)

(** [build_token] *)
Definition build_token (metadata : MultisigMetadata) (token : MetadataToken.MetadataToken) :
    builder bytes :=
  let c := ms_checkpoint (quorum_checkpoint metadata) in
  match token with
  | MetadataToken.CheckpointMerkleRoot => mret (to_be (checkpoint_root (checkpoint c)))
  | MetadataToken.MessageMerkleLeafIndex => mret (to_be (merkle_leaf_index metadata))
  | MetadataToken.CheckpointIndex => mret (to_be (checkpoint_index (checkpoint c)))
  | MetadataToken.CheckpointMerkleTreeHook =>
      mret (to_be (merkle_tree_hook_address (checkpoint c)))
  | MetadataToken.MessageId => mret (to_be (checkpoint_message_id c))
  | MetadataToken.MerkleProof =>
      p ← eff_lift (or_panic (proof metadata)); mret (abi_encode (path p))
  | MetadataToken.Signatures =>
      mret (concat (signature_bytes <$> ms_signatures (quorum_checkpoint metadata)))
  end.

(** [MultisigIsmMetadataBuilder::format_metadata] over a [token_layout] *)
Fixpoint format_tokens (metadata : MultisigMetadata)
    (token_layout : list MetadataToken.MetadataToken) : builder bytes :=
  match token_layout with
  | [] => mret []
  | token :: token_layout =>
      b ← build_token metadata token;
      bs ← format_tokens metadata token_layout;
      mret (b ++ bs)
  end.

(** The kinds of multisig modules: what their [token_layout] and [fetch_metadata] are. *)
Definition fetcher : Type :=
  list H256 -> u8 -> HyperlaneMessage -> MultisigCheckpointSyncer (A := AnySyncer) ->
  builder (option MultisigMetadata).

(** [MetadataBuilder::build] of a [MultisigIsmMetadataBuilder] *)
Definition build_multisig (self : BaseMetadataBuilder)
    (token_layout : list MetadataToken.MetadataToken) (fetch_metadata : fetcher)
    (ism_address : H256) (message : HyperlaneMessage) : builder (option bytes) :=
  multisig_ism ← client (build_multisig_ism ism_address);
  '(validators, threshold) ← client (validators_and_threshold multisig_ism message);
  if bool_decide (validators = []) then mret None
  else
    checkpoint_syncer ← build_checkpoint_syncer self validators;
    metadata ← fetch_metadata validators threshold message checkpoint_syncer;
    match metadata with
    | Some metadata =>
        b ← format_tokens metadata token_layout;
        mret (Some b)
    | None => mret None
    end.

(** A call of the quorum search. *)
Definition quorum {A} (m : eff storage QuorumError A) : builder A := eff_map_err QuorumFailed m.

(** ** [multisig/message_id_multisig.rs] *)

Definition message_id_layout : list MetadataToken.MetadataToken :=
  [MetadataToken.CheckpointMerkleTreeHook; MetadataToken.CheckpointMerkleRoot;
   MetadataToken.CheckpointIndex; MetadataToken.Signatures].

Definition message_id_fetch (self : BaseMetadataBuilder) : fetcher :=
  λ validators threshold message checkpoint_syncer,
  let message_id := Message.id message in
  leaf_index ← get_merkle_leaf_id_by_message_id self message_id;
  unwrap_or_none leaf_index (λ leaf_index,
  (* the latest indices are fetched for the metrics only *)
  quorum (get_validator_latest_checkpoints checkpoint_syncer validators);;
  quorum_checkpoint ← quorum (multisig_fetch_checkpoint checkpoint_syncer validators
    (uwrap 8 threshold) leaf_index);
  unwrap_or_none quorum_checkpoint (λ quorum_checkpoint,
  if bool_decide (checkpoint_message_id (ms_checkpoint quorum_checkpoint) <> message_id)
  then mret None
  else mret (Some (MkMultisigMetadata quorum_checkpoint leaf_index None)))).

(** ** [multisig/merkle_root_multisig.rs] *)

Definition merkle_root_layout : list MetadataToken.MetadataToken :=
  [MetadataToken.CheckpointMerkleTreeHook; MetadataToken.MessageMerkleLeafIndex;
   MetadataToken.MessageId; MetadataToken.MerkleProof; MetadataToken.CheckpointIndex;
   MetadataToken.Signatures].

Definition merkle_root_fetch (self : BaseMetadataBuilder) : fetcher :=
  λ validators threshold message checkpoint_syncer,
  highest_leaf_index ← highest_known_leaf_index;
  unwrap_or_none highest_leaf_index (λ highest_leaf_index,
  leaf_index ← get_merkle_leaf_id_by_message_id self (Message.id message);
  unwrap_or_none leaf_index (λ leaf_index,
  quorum_checkpoint ← quorum (fetch_checkpoint_in_range checkpoint_syncer validators
    (uwrap 8 threshold) leaf_index highest_leaf_index);
  unwrap_or_none quorum_checkpoint (λ quorum_checkpoint,
  proof ← get_proof leaf_index (checkpoint (ms_checkpoint quorum_checkpoint));
  mret (Some (MkMultisigMetadata quorum_checkpoint leaf_index (Some proof)))))).

(** ** [ccip_read.rs] *)

(** The loop over the URLs. *)
Fixpoint try_urls (info : OffchainLookup) (urls : list string) : builder (option bytes) :=
  match urls with
  | [] => mret None
  | url :: urls =>
      let interpolated_url :=
        str_replace "{data}" (lookup_call_data info)
          (str_replace "{sender}" (lookup_sender info) url) in
      res ←
        client (if negb (contains "{data}" url)
                then http_post interpolated_url (lookup_call_data info) (lookup_sender info)
                else http_get interpolated_url);
      json ← eff_try (http_json res);
      match json with
      | inr data =>
          digits ← eff_lift (or_panic (str_from_2 data));
          metadata ← client (eff_lift (hex_decode digits));
          mret (Some metadata)
      | inl _ => try_urls info urls
      end
  end.

Definition build_ccip_read (ism_address : H256) (message : HyperlaneMessage) :
    builder (option bytes) :=
  ism ← client (build_ccip_read_ism ism_address);
  response ← eff_try (get_offchain_verify_info ism (RawHyperlaneMessage_from message));
  match response with
  | inr _ => mret None
  | inl raw_error =>
      match captures_hex raw_error with
      | Some matching =>
          (* [&matching[0][2..]]: the match starts with 0x *)
          digits ← eff_lift (or_panic (str_from_2 matching));
          data ← client (eff_lift (hex_decode digits));
          info ← client (eff_lift (offchain_lookup_decode data));
          try_urls info (lookup_urls info)
      | None => mret None
      end
  end.

(** ** [routing.rs], [aggregation.rs], [null_metadata.rs], and the recursion of [base.rs] *)

Record IsmWithMetadataAndType := MkIsmWithMetadataAndType {
  built_ism : ism;
  built_metadata : option bytes;
  built_type : ModuleType
}.

(** [build_ism_and_metadata] of the builder one level deeper. *)
Definition level : Type := H256 -> HyperlaneMessage -> builder IsmWithMetadataAndType.

(** [MessageMetadataBuilder::build] *)
Definition build_message (build_ism_and_metadata : level) (ism_address : H256)
    (message : HyperlaneMessage) : builder (option bytes) :=
  ism_with_metadata ← build_ism_and_metadata ism_address message;
  mret (built_metadata ism_with_metadata).

(** [RoutingIsmMetadataBuilder::build] *)
Definition build_routing (base : level) (ism_address : H256) (message : HyperlaneMessage) :
    builder (option bytes) :=
  ism ← client (build_routing_ism ism_address);
  module ← client (route ism message);
  build_message base module message.

(** [join_all]: the results as values. *)
Fixpoint join_all {S E E' A} (futures : list (eff S E A)) : eff S E' (list (E + A)) :=
  match futures with
  | [] => mret []
  | f :: futures => r ← eff_try f; rs ← join_all futures; mret (r :: rs)
  end.

(** The left part of [partition_map]: the modules with metadata, with their indices. *)
Definition ok_sub_modules (results : list (MetadataError + IsmWithMetadataAndType)) :
    list (ism * SubModuleMetadata) :=
  omap (λ '(index, result),
    match result with
    | inr r => m ← built_metadata r; Some (built_ism r, MkSubModuleMetadata index m)
    | inl _ => None
    end) (imap pair results).

(** [cheapest_valid_metas] *)
Definition cheapest_valid_metas (sub_modules : list (ism * SubModuleMetadata))
    (message : HyperlaneMessage) (threshold : nat) : builder (option (list SubModuleMetadata)) :=
  gas_cost_results ←
    join_all ((λ m, dry_run_verify (fst m) message (sub_metadata (snd m))) <$> sub_modules);
  let metas_and_gas :=
    omap (λ '(m, gas_cost), match gas_cost with
                            | inr (Some gc) => Some (snd m, uval gc)
                            | _ => None
                            end) (zip sub_modules gas_cost_results) in
  if (length metas_and_gas <? threshold)%nat then mret None
  else
    metas ← eff_lift (or_panic (n_cheapest_metas metas_and_gas threshold));
    mret (Some metas).

(** [AggregationIsmMetadataBuilder::build] *)
Definition build_aggregation (base : level) (ism_address : H256) (message : HyperlaneMessage) :
    builder (option bytes) :=
  ism ← client (build_aggregation_ism ism_address);
  '(ism_addresses, threshold) ← client (modules_and_threshold ism message);
  sub_modules_and_metas ← join_all ((λ a, base a message) <$> ism_addresses);
  metas ← cheapest_valid_metas (ok_sub_modules sub_modules_and_metas) message
            (Z.to_nat (uval threshold));
  match metas with
  | Some metas =>
      b ← eff_lift (or_panic (format_metadata metas (length ism_addresses)));
      mret (Some b)
  | None => mret None
  end.

(** [NullMetadataBuilder::build] *)
Definition build_null (_ism_address : H256) (_message : HyperlaneMessage) :
    builder (option bytes) :=
  mret (Some []).

(** [clone_with_incremented_depth] *)
Definition clone_with_incremented_depth (self : BaseMetadataBuilder) (depth : u32) :
    outcome MetadataError u32 :=
  depth ← arith 4 (uval depth + 1);
  if uval (max_depth self) <? uval depth then Err (MaxDepthExceeded depth) else Ok depth.

(** The builder for a module type, with [base] the builder one level deeper. *)
Definition build_by_type (self : BaseMetadataBuilder) (base : level) (t : ModuleType)
    (ism_address : H256) (message : HyperlaneMessage) : builder (option bytes) :=
  match t with
  | MerkleRootMultisig =>
      build_multisig self merkle_root_layout (merkle_root_fetch self) ism_address message
  | MessageIdMultisig =>
      build_multisig self message_id_layout (message_id_fetch self) ism_address message
  | Routing => build_routing base ism_address message
  | Aggregation => build_aggregation base ism_address message
  | Null => build_null ism_address message
  | CcipRead => build_ccip_read ism_address message
  | t => eff_lift (Err (UnsupportedModuleType t))
  end.

(** [MessageMetadataBuilder::build_ism_and_metadata] at [depth]; [stuck] is what stands for the
    calls past the fuel. *)
Fixpoint build_ism_and_metadata (stuck : level) (fuel : nat) (self : BaseMetadataBuilder)
    (depth : u32) (ism_address : H256) (message : HyperlaneMessage) :
    builder IsmWithMetadataAndType :=
  match fuel with
  | O => stuck ism_address message
  | S fuel =>
      ism ← client (build_ism ism_address);
      module_type ← client (module_type ism);
      depth ← eff_lift (clone_with_incremented_depth self depth);
      meta ← build_by_type self (build_ism_and_metadata stuck fuel self depth) module_type
               ism_address message;
      mret (MkIsmWithMetadataAndType ism meta module_type)
  end.

(** ** The classification of messages for metrics ([DefaultIsmCache], [AppContextClassifier]) *)

(** [DefaultIsmCache::TTL] *)
Definition TTL : Duration := from_secs (60 * 10).

(** A computation over the cached value and the outside world. *)
Definition cached (A : Type) : Type := eff (option (H256 * Instant) * storage) report A.
Definition on_world {A} (m : eff storage report A) : cached A := λ '(value, w),
  let '(w, r) := m w in ((value, w), r).
(** The write under the lock. *)
Definition cache (value : H256 * Instant) : cached unit := λ '(_, w), ((Some value, w), Ok tt).
Definition now : eff storage report Instant := λ w,
  let '(w, t) := instant_now w in (w, Ok t).
(** [instant.elapsed()] *)
Definition elapsed (t : Instant) : eff storage report Duration :=
  n ← now; mret (Z.max 0 (n - t)).

(** [DefaultIsmCache::get] *)
Definition DefaultIsmCache_get : cached H256 :=
  '(value, _) ← eff_get;
  fresh ← match value with
          | Some (v, t) =>
              age ← on_world (elapsed t);
              mret (if age <? TTL then Some v else None)
          | None => mret None
          end;
  match fresh with
  | Some v => mret v
  | None =>
      d ← on_world default_ism;
      n ← on_world now;
      cache (d, n);;
      mret d
  end.

(** The loop over [app_matching_lists]. *)
Fixpoint first_match (app_matching_lists : list (MatchingList * string))
    (message : HyperlaneMessage) : option string :=
  match app_matching_lists with
  | [] => None
  | (matching_list, app_context) :: app_matching_lists =>
      if msg_matches matching_list message false then Some app_context
      else first_match app_matching_lists message
  end.

(** [AppContextClassifier::get_app_context] *)
Definition get_app_context (app_matching_lists : list (MatchingList * string))
    (message : HyperlaneMessage) (root_ism : H256) : cached (option string) :=
  match first_match app_matching_lists message with
  | Some app_context => mret (Some app_context)
  | None =>
      default_ism ← DefaultIsmCache_get;
      if bool_decide (root_ism = default_ism) then mret (Some "default_ism"%string)
      else mret None
  end.

(** [MessageMetadataBuilder::new]: the depth and the context of a new builder. *)
Definition MessageMetadataBuilder_new (app_matching_lists : list (MatchingList * string))
    (ism_address : H256) (message : HyperlaneMessage) : cached (u32 * option string) :=
  app_context ← get_app_context app_matching_lists message ism_address;
  mret (uwrap 4 0, app_context).
End builders.
