(* ===== verification/MetadataTheorems.v ===== *)
(** * The metadata the relayer builds

    The metadata of a message-id multisig module is accepted by the program of that module; the
    proofs of a Merkle-root module are those of the tree; the recursion over modules ends. *)

From S2P Require Import Prelude.
From S2P Require Import Codec.
From S2P Require Import Keccak.
From S2P Require Import Accumulator.
From S2P Require Import Message.
From S2P Require Import U256.
From S2P Require Import Chain.
From S2P Require Import MerkleSpec.
From S2P Require Import MerkleCorrect.
From S2P Require Import IncrementalCorrect.
From S2P Require Import SparseCorrect.
From S2P Require Import Relayer.
From S2P Require Import RelayerCorrect.
From S2P Require Import Sealevel.
From S2P Require Import AccountUtils.
From S2P Require Import Multisig.
From S2P Require Import MessageIdIsm.
From S2P Require Import MessageIdIsmCorrect.
From S2P Require Import Concrete.
From S2P Require Import ConcreteIsm.
From S2P Require Import MultisigTheorems.
From S2P Require Import Database.
From S2P Require Import DatabaseCorrect.
From S2P Require Import DatabaseTheorems.
From S2P Require Import MatchingList.
From S2P Require Import PendingOperation.
From S2P Require Import CheckpointStorage.
From S2P Require Import CheckpointQuorum.
From S2P Require Import QuorumTheorems.
From S2P Require Import ConcreteStorage.
From S2P Require Import Aggregation.
From S2P Require Import Metadata.
From stdpp Require Import base gmap list numbers strings.
From Stdlib Require Import ZArith Lia.

#[local] Open Scope Z_scope.

(** ** Signatures on the wire *)

(** The recovery byte of a signature without EIP-155: 27 or 28, or its bare parity. *)
Definition canonical (s : Codec.Signature) : Prop :=
  uval (v s) = 0 \/ uval (v s) = 1 \/ uval (v s) = 27 \/ uval (v s) = 28.

(** Ethers and the Solana runtime recover the same signer. *)
Class EthersLaws `{Keccak256, Secp256k1, Ethers} : Prop :=
  recover_agrees s h a e :
    signature_recover s h = Some a -> canonical s ->
    EcdsaSignature_from_bytes (signature_bytes s) = Ok e ->
    secp256k1_recover_ethereum_address e (to_be h) = Some a.

Lemma length_signature_bytes s : length (signature_bytes s) = SIGNATURE_LENGTH.
Proof. unfold signature_bytes. by rewrite !length_app, !length_to_be. Qed.

Lemma canonical_parses s :
  canonical s -> exists e, EcdsaSignature_from_bytes (signature_bytes s) = Ok e.
Proof.
  intros Hc. unfold EcdsaSignature_from_bytes. rewrite length_signature_bytes.
  change (negb (SIGNATURE_LENGTH =? 65)%nat) with false. cbv iota.
  unfold signature_bytes. rewrite app_assoc.
  assert (Hl : length (to_be (u256 (r s)) ++ to_be (u256 (Codec.s s))) = 64%nat)
    by by rewrite length_app, !length_to_be.
  rewrite slice_first by done. cbn [or_panic mbind outcome_bind].
  rewrite lookup_app_r by lia. rewrite Hl.
  change ([byte (v s)] !! (64 - 64)%nat) with (Some (byte (v s))).
  cbn [or_panic mbind outcome_bind].
  assert (Hv : uval (byte (v s)) = uval (v s)).
  { unfold byte. apply uval_uwrap_small. change (umax 1) with 256.
    destruct Hc as [->|[->|[->| ->]]]; lia. }
  rewrite Hv.
  destruct Hc as [E|[E|[E|E]]]; rewrite E; cbn [Z.eqb orb Pos.eqb].
  all: eexists; reflexivity.
Qed.

(** Reading signatures from their bytes. *)
Lemma read_signatures_raw p chunks l n i :
  length p = (SIGNATURES_OFFSET + i * SIGNATURE_LENGTH)%nat -> n = length l ->
  Forall2 (λ b s, length b = SIGNATURE_LENGTH /\ EcdsaSignature_from_bytes b = Ok s) chunks l ->
  read_signatures (p ++ concat chunks) n i = Ok l.
Proof.
  intros Hp -> Hl. revert p i Hp.
  induction Hl as [|b s chunks l [Hb Hs] Hl IH]; intros p i Hp; [done|].
  cbn [concat length read_signatures].
  erewrite slice_skip by (try exact Hp; lia). rewrite Nat.sub_diag, Nat.add_comm, Nat.add_sub.
  rewrite slice_first by done. cbn [or_panic mbind outcome_bind].
  rewrite Hs. cbn [map_err mbind outcome_bind]. rewrite app_assoc, IH; [done|].
  rewrite length_app, Hp, Hb. lia.
Qed.

Lemma length_chunks chunks l :
  Forall2 (λ b s, length b = SIGNATURE_LENGTH /\ EcdsaSignature_from_bytes b = Ok s) chunks l ->
  length (concat chunks) = (length l * SIGNATURE_LENGTH)%nat.
Proof.
  induction 1 as [|b s chunks l [Hb _] _ IH]; [done|]. cbn [concat length].
  rewrite length_app, Hb, IH. lia.
Qed.

(** The metadata of a message-id module, from raw signatures. *)
Lemma metadata_read_raw (hook root : H256) (index : u32) chunks l :
  l <> [] ->
  Forall2 (λ b s, length b = SIGNATURE_LENGTH /\ EcdsaSignature_from_bytes b = Ok s) chunks l ->
  Metadata_try_from (to_be hook ++ to_be root ++ to_be index ++ concat chunks) =
    Ok (MkMetadata hook root index l).
Proof.
  intros Hne Hf. unfold Metadata_try_from. rewrite !length_app, !length_to_be.
  rewrite (length_chunks _ _ Hf).
  assert (Hn : (1 <= length l)%nat) by (destruct l; [done|cbn; lia]).
  rewrite (proj2 (Nat.ltb_ge _ _)) by (unfold SIGNATURES_OFFSET, SIGNATURE_LENGTH; lia).
  replace (32 + (32 + (4 + length l * SIGNATURE_LENGTH)) - SIGNATURES_OFFSET)%nat
    with (length l * SIGNATURE_LENGTH)%nat by (unfold SIGNATURES_OFFSET; lia).
  rewrite Nat.Div0.mod_mul, Nat.div_mul by done. cbn [Nat.eqb negb].
  unfold ORIGIN_MAILBOX_OFFSET, MERKLE_ROOT_OFFSET, MERKLE_INDEX_OFFSET, SIGNATURES_OFFSET.
  slices. cbn [or_panic mbind outcome_bind].
  rewrite 2!app_assoc, (read_signatures_raw _ _ l _ 0) by
    (first [done | by rewrite !length_app, !length_to_be]).
  cbn [mbind outcome_bind]. by rewrite !from_be_to_be.
Qed.

Lemma H256_from_H160_inj : Inj (=) (=) H256_from_H160.
Proof.
  intros a b E. apply (f_equal uval) in E. unfold H256_from_H160 in E. urange a. urange b.
  rewrite !uval_uwrap_small in E; [by apply uint_eq| |];
    change (umax 32) with (2 ^ 256); lia.
Qed.

Lemma sublist_fmap_inv {A B} (f : A -> B) k l :
  sublist k (f <$> l) -> exists k', k = f <$> k' /\ sublist k' l.
Proof.
  revert k. induction l as [|x l IH]; intros k Hs; cbn in Hs.
  - inv Hs. by exists [].
  - inv Hs as [|? k' ? Hk|? k' ? Hk].
    + apply IH in Hk as (u & -> & Hk). exists (x :: u). split; [done|by constructor].
    + apply IH in Hk as (u & -> & Hk). exists u. split; [done|by constructor].
Qed.

Section metadata.
Context `{Clients, !SyncerJson, Keccak256, Secp256k1, Ethers, !EthersLaws, OverflowChecks}.

Lemma yields_unwrap {A B} (o : option A) (f : A -> builder (option B)) (Q : option B -> Prop) :
  Q None -> (forall a, o = Some a -> yields (f a) Q) -> yields (unwrap_or_none o f) Q.
Proof. intros Hn Hf. destruct o as [a|]; [by apply Hf|by apply yields_ret]. Qed.

(** The bytes of the tokens of a message-id module. *)
Definition message_id_bytes (ms : MultisigSignedCheckpoint) : bytes :=
  let c := checkpoint (ms_checkpoint ms) in
  to_be (merkle_tree_hook_address c) ++ to_be (checkpoint_root c) ++
  to_be (checkpoint_index c) ++ concat (signature_bytes <$> ms_signatures ms).

Lemma format_message_id md w :
  format_tokens md message_id_layout w = (w, Ok (message_id_bytes (quorum_checkpoint md))).
Proof.
  unfold message_id_bytes. rewrite <- (app_nil_r (concat _)). reflexivity.
Qed.

(** What a builder of a message-id module returns. *)
Definition quorum_metadata (self : BaseMetadataBuilder) (validators : list H256) (threshold : u8)
    (m : HyperlaneMessage) (ms : MultisigSignedCheckpoint) : Prop :=
  checkpoint_message_id (ms_checkpoint ms) = Message.id m /\
  is_quorum validators (uwrap 8 threshold) ms.

Lemma message_id_fetch_yields self validators threshold m syncer :
  yields (message_id_fetch self validators threshold m syncer)
    (λ r, match r with
          | Some md => quorum_metadata self validators threshold m (quorum_checkpoint md) /\
                       checkpoint_index (checkpoint (ms_checkpoint (quorum_checkpoint md))) =
                         merkle_leaf_index md /\ proof md = None
          | None => True
          end).
Proof.
  unfold message_id_fetch. apply yields_any. intros leaf. apply yields_unwrap; [done|].
  intros leaf_index _. apply yields_any. intros _.
  eapply yields_bind; [apply yields_map_err, multisig_fetch_sound|].
  intros r Hr. apply yields_unwrap; [done|]. intros ms ->. destruct Hr as [Hi Hq].
  case_bool_decide as Hid; [by apply yields_ret|]. apply yields_ret.
  by split_and!.
Qed.

Lemma build_message_id_yields self ism_address m vs t :
  (forall i, yields (validators_and_threshold i m) (λ r, r = (vs, t))) ->
  yields (build_multisig self message_id_layout (message_id_fetch self) ism_address m)
    (λ r, match r with
          | Some b => exists ms, quorum_metadata self vs t m ms /\ b = message_id_bytes ms
          | None => True
          end).
Proof.
  intros Hset. unfold build_multisig. apply yields_any. intros i.
  eapply yields_bind; [apply yields_map_err, Hset|]. intros r ->. cbn beta iota.
  case_bool_decide; [by apply yields_ret|]. apply yields_any. intros syncer.
  eapply yields_bind; [apply message_id_fetch_yields|]. intros [md|] Hmd; [|by apply yields_ret].
  apply yields_bind with (λ b, b = message_id_bytes (quorum_checkpoint md)).
  - intros w w' b. rewrite format_message_id. congruence.
  - intros b ->. apply yields_ret. exists (quorum_checkpoint md). by destruct Hmd as [Hq _].
Qed.

(** The quorum, as the program counts it. *)
Lemma quorum_passes (vs : list H160) (t : u8) m ms md :
  is_quorum (H256_from_H160 <$> vs) (uwrap 8 t) ms ->
  Forall canonical (ms_signatures ms) ->
  checkpoint_message_id (ms_checkpoint ms) = Message.id m ->
  mailbox_domain (checkpoint (ms_checkpoint ms)) = origin m ->
  checkpoint_index (checkpoint (ms_checkpoint ms)) = nonce m ->
  origin_merkle_tree_hook md = merkle_tree_hook_address (checkpoint (ms_checkpoint ms)) ->
  merkle_root md = checkpoint_root (checkpoint (ms_checkpoint ms)) ->
  Forall2 (λ s e, EcdsaSignature_from_bytes (signature_bytes s) = Ok e)
    (ms_signatures ms) (validator_signatures md) ->
  multisig_verify (quorum_check m md (MkValidatorsAndThreshold vs t)) = Ok tt.
Proof.
  intros (ws & Hsub & Hf & Hlen) Hcan Hid Hdom Hidx Hhook Hroot Hsigs.
  apply multisig_verify_ok.
  assert (Hsc : signed_checkpoint m md = ms_checkpoint ms).
  { unfold signed_checkpoint. destruct (ms_checkpoint ms) as [[hook dom root idx] mid].
    cbn in *. congruence. }
  destruct (sublist_fmap_inv _ _ _ Hsub) as (as_ & -> & Has).
  exists (take (Z.to_nat (uval t)) as_). cbn [quorum_check ism_threshold threshold].
  split; [split|].
  - rewrite length_fmap in Hlen. rewrite length_take. unfold quorum_size in Hlen.
    urange t. rewrite uval_uwrap_small in Hlen by (change (umax 8) with (2 ^ 64); lia). lia.
  - intros i a [Hi _]%lookup_take_Some.
    destruct (Forall2_lookup_l _ _ _ i (H256_from_H160 a) Hf) as (s & Hs & b & Hb & Hab).
    { by rewrite list_lookup_fmap, Hi. }
    apply H256_from_H160_inj in Hab as <-.
    destruct (Forall2_lookup_l _ _ _ i s Hsigs Hs) as (e & He & Hse).
    exists e. split; [done|]. unfold digest. cbn [quorum_check signed_data]. rewrite Hsc.
    eapply recover_agrees; [exact Hb| |done]. by eapply Forall_lookup_1.
  - etrans; [apply sublist_take|done].
Qed.
(** ** The proofs of Merkle-root modules *)

(** The bytes of the tokens of a Merkle-root module. *)
Definition merkle_root_bytes (ms : MultisigSignedCheckpoint) (leaf_index : u32) (p : Proof) :
    bytes :=
  let c := ms_checkpoint ms in
  to_be (merkle_tree_hook_address (checkpoint c)) ++ to_be leaf_index ++
  to_be (checkpoint_message_id c) ++ abi_encode (path p) ++
  to_be (checkpoint_index (checkpoint c)) ++ concat (signature_bytes <$> ms_signatures ms).

Lemma format_merkle_root md p w :
  proof md = Some p ->
  format_tokens md merkle_root_layout w =
    (w, Ok (merkle_root_bytes (quorum_checkpoint md) (merkle_leaf_index md) p)).
Proof.
  intros Hp. unfold merkle_root_layout, merkle_root_bytes. cbn [format_tokens build_token].
  rewrite Hp. generalize (concat (signature_bytes <$> ms_signatures (quorum_checkpoint md))).
  intros sigs. rewrite <- (app_nil_r sigs) at 1. reflexivity.
Qed.

(** A proof of the leaf [leaf_index] of [chain] against the root its tree had after the leaf
    [root_index]. *)
Definition proves (chain : list H256) (leaf_index root_index : u32) (p : Proof) : Prop :=
  uval leaf_index <= uval root_index < Z.of_nat (length chain) /\
  chain !! Z.to_nat (uval leaf_index) = Some (leaf p) /\ index p = uwrap 8 leaf_index /\
  length (path p) = TREE_DEPTH /\
  MerkleTree.Proof_root p =
    Some (tree_root 32 (take (S (Z.to_nat (uval root_index))) chain)).

Section chain.
Context `{!ZeroHashes} (self : BaseMetadataBuilder) (chain : list H256).
(** However far their tasks have come, the shared tree holds leaves of the origin's hook from the
    first on, and the database names the leaf of a message only where the hook has it. *)
Hypothesis tree_follows : forall w, exists n,
  builder_ok (origin_prover_sync w) (take n chain) /\ (length (take n chain) < 2 ^ 32)%nat.
Hypothesis rows_follow : forall w id i,
  snd (HyperlaneDB.retrieve_merkle_leaf_index_by_message_id (origin_domain self) id (origin_db w))
    = Ok (Some i) -> chain !! Z.to_nat (uval i) = Some id.

Lemma get_proof_ok leaf_index c w w' p :
  uval leaf_index <= uval (checkpoint_index c) ->
  get_proof leaf_index c w = (w', Ok p) ->
  proves chain leaf_index (checkpoint_index c) p.
Proof.
  intros Hle Hg. destruct (tree_follows w) as (n & Hb & Hl).
  unfold get_proof in Hg. apply eff_bind_ok in Hg as (w1 & b & Hr & Hg).
  injection Hr as <- <-. injection Hg as _ Hg. apply map_err_inv in Hg.
  urange (checkpoint_index c). urange leaf_index.
  assert (Hri : uval (checkpoint_index c) < Z.of_nat (length (take n chain))).
  { unfold Builder.get_proof in Hg. apply map_err_inv in Hg. destruct Hb as [[Hc _ _] _].
    unfold Prover.prove_against_previous, u32_MAX in Hg.
    rewrite uval_usize, (proj2 (Z.ltb_ge _ _)), Hc in Hg by lia.
    destruct (Z.leb_spec (Z.of_nat (length (take n chain))) (uval (checkpoint_index c)));
      [done|lia]. }
  destruct (builder_proof_ok _ (take n chain) leaf_index (checkpoint_index c) Hb)
    as (pf & Hpf & Hleaf & Hidx & Hpath & Hroot); [lia|].
  rewrite Hpf in Hg. injection Hg as <-. rewrite length_take in Hri.
  apply lookup_take_Some in Hleaf as [Hleaf _].
  rewrite take_take, Nat.min_l in Hroot by lia. split_and!; [lia..|done|done|done|done].
Qed.

Lemma leaf_of_message id :
  yields (get_merkle_leaf_id_by_message_id self id)
    (λ o, forall i, o = Some i -> chain !! Z.to_nat (uval i) = Some id).
Proof.
  intros w w' o Ho i ->. unfold get_merkle_leaf_id_by_message_id, read_db in Ho.
  injection Ho as _ Ho. apply map_err_inv in Ho. by apply rows_follow in Ho.
Qed.

(** What is fetched for a message, whatever other tasks do to the tree and whatever the storages
    hold. *)
Definition merkle_fetched (validators : list H256) (t : u8) (m : HyperlaneMessage)
    (md : MultisigMetadata) : Prop :=
  let c := checkpoint (ms_checkpoint (quorum_checkpoint md)) in
  is_quorum validators (uwrap 8 t) (quorum_checkpoint md) /\
  exists p, proof md = Some p /\ leaf p = Message.id m /\
    proves chain (merkle_leaf_index md) (checkpoint_index c) p.

Lemma merkle_root_fetch_yields validators t m syncer :
  yields (merkle_root_fetch self validators t m syncer)
    (λ r, match r with Some md => merkle_fetched validators t m md | None => True end).
Proof.
  unfold merkle_root_fetch. apply yields_any. intros highest.
  apply yields_unwrap; [done|]. intros highest_leaf _.
  eapply yields_bind; [apply leaf_of_message|]. intros leaf Hleaf.
  apply yields_unwrap; [done|]. intros leaf_index ->. specialize (Hleaf leaf_index eq_refl).
  eapply yields_bind; [apply yields_map_err, fetch_in_range_sound|].
  intros r Hr. apply yields_unwrap; [done|]. intros ms ->. destruct Hr as [Hin Hq].
  apply yields_bind with
    (λ p, proves chain leaf_index (checkpoint_index (checkpoint (ms_checkpoint ms))) p).
  - intros w w' p Hp. apply get_proof_ok in Hp; [done|lia].
  - intros p Hp. apply yields_ret. split; [done|]. exists p. split; [done|]. split; [|done].
    destruct Hp as (_ & Hl & _). cbn in Hl. congruence.
Qed.
End chain.

(** C24. Merkle-root metadata. When metadata is built for a message, the shared tree holds leaves of
    the origin's hook ([chain], from the first on) whenever it is read and the database names as
    the leaf of a message only a place where the hook has it, then the metadata is of a
    checkpoint with the signatures of a quorum of the module's validators, at or after the leaf
    of the message, and of a proof: of the id of this very message, at the index where the hook
    has it, whose root is the one the hook had after the leaf of the checkpoint. This is the
    signed root when the checkpoint is the hook's; when it is not, the builder logs the mismatch
    and returns the metadata all the same. The bytes are the hook, the leaf index, the id in the
    checkpoint, the path, the index of the checkpoint and the signatures. *)
Theorem merkle_root_metadata `{!ZeroHashes} self (chain : list H256) ism_address m
    (vs : list H256) (t : u8) w w' b
    (tree_follows : forall w, exists n,
       builder_ok (origin_prover_sync w) (take n chain) /\ (length (take n chain) < 2 ^ 32)%nat)
    (rows_follow : forall w id i,
       snd (HyperlaneDB.retrieve_merkle_leaf_index_by_message_id (origin_domain self) id
              (origin_db w)) = Ok (Some i) ->
       chain !! Z.to_nat (uval i) = Some id)
    (Hset : forall i s s' r, validators_and_threshold i m s = (s', Ok r) -> r = (vs, t))
    (Hbuild : build_multisig self merkle_root_layout (merkle_root_fetch self) ism_address m w =
       (w', Ok (Some b))) :
  exists ms leaf_index p, let c := checkpoint (ms_checkpoint ms) in
    is_quorum vs (uwrap 8 t) ms /\ b = merkle_root_bytes ms leaf_index p /\
    uval leaf_index <= uval (checkpoint_index c) < Z.of_nat (length chain) /\
    chain !! Z.to_nat (uval leaf_index) = Some (Message.id m) /\
    leaf p = Message.id m /\ index p = uwrap 8 leaf_index /\ length (path p) = TREE_DEPTH /\
    let hook_root := tree_root 32 (take (S (Z.to_nat (uval (checkpoint_index c)))) chain) in
    MerkleTree.Proof_root p = Some hook_root /\
    (MerkleTree.Proof_root p = Some (checkpoint_root c) <-> checkpoint_root c = hook_root).
Proof.
  revert w w' b Hbuild. cut (yields
    (build_multisig self merkle_root_layout (merkle_root_fetch self) ism_address m)
    (λ r, match r with
      | Some b => exists md p, merkle_fetched chain vs t m md /\ proof md = Some p /\
          b = merkle_root_bytes (quorum_checkpoint md) (merkle_leaf_index md) p
      | None => True
      end)).
  { intros Hy w w' b Hb. apply Hy in Hb as (md & p & [Hq (p' & Hp' & Hid & Hpr)] & Hp & ->).
    rewrite Hp in Hp'. injection Hp' as <-. destruct Hpr as (Hi & Hl & Hx & Hpath & Hroot).
    exists (quorum_checkpoint md), (merkle_leaf_index md), p. cbn zeta.
    rewrite Hid in Hl. rewrite Hroot. split_and!; [done..|lia|lia|done|done|done|done|done|].
    split; [by intros [= ->]|by intros ->]. }
  unfold build_multisig. apply yields_any. intros i.
  apply yields_bind with (λ r, r = (vs, t)); [apply yields_map_err; exact (Hset i)|]. intros r ->. cbn beta iota.
  case_bool_decide; [by apply yields_ret|]. apply yields_any. intros syncer.
  eapply yields_bind; [by apply merkle_root_fetch_yields|].
  intros [md|] Hmd; [|by apply yields_ret]. pose proof Hmd as (_ & p & Hp & _).
  apply yields_bind with
    (λ b, b = merkle_root_bytes (quorum_checkpoint md) (merkle_leaf_index md) p).
  - intros w w' b. rewrite (format_merkle_root _ _ _ Hp). congruence.
  - intros b ->. apply yields_ret. by exists md, p.
Qed.

(** ** The recursion over modules *)

Lemma join_all_ext {X S E E' A} (f g : X -> eff S E A) l s :
  (forall x s', f x s' = g x s') ->
  join_all (E' := E') (f <$> l) s = join_all (g <$> l) s.
Proof.
  intros Hf. revert s. induction l as [|x l IH]; intros s; [done|].
  cbn [fmap list_fmap join_all].
  rewrite (eff_bind_ext_l (eff_try (f x)) (eff_try (g x))).
  - apply eff_bind_ext. intros r s'. apply eff_bind_ext_l, IH.
  - unfold eff_try. by rewrite Hf.
Qed.

Lemma build_by_type_ext self (base base' : level) t a m w :
  (forall a m w, base a m w = base' a m w) ->
  build_by_type self base t a m w = build_by_type self base' t a m w.
Proof.
  intros Hb. destruct t; try done; cbn [build_by_type].
  - unfold build_routing. do 2 (apply eff_bind_ext; intros ? ?). unfold build_message.
    apply eff_bind_ext_l, Hb.
  - unfold build_aggregation. do 2 (apply eff_bind_ext; intros ? ?). case_match.
    apply eff_bind_ext_l, join_all_ext. intros x s. apply Hb.
Qed.

(** C25. The depth bounds the recursion. Fuel for one call more than the levels left is enough: the
    result depends neither on the fuel nor on what stands for the calls past it, so such calls
    are never made. *)
Theorem metadata_depth self depth fuel fuel' stuck stuck' a m w
    (Hmax : uval (max_depth self) < 2 ^ 32 - 1)
    (Hf : uval (max_depth self) - uval depth < Z.of_nat fuel)
    (Hf' : uval (max_depth self) - uval depth < Z.of_nat fuel')
    (Hd : uval depth <= uval (max_depth self)) :
  build_ism_and_metadata stuck fuel self depth a m w =
  build_ism_and_metadata stuck' fuel' self depth a m w.
Proof.
  revert fuel' depth a m w Hf Hf' Hd.
  induction fuel as [|fuel IH]; intros [|fuel'] depth a m w Hf Hf' Hd; try lia.
  cbn [build_ism_and_metadata]. do 2 (apply eff_bind_ext; intros ? ?).
  unfold clone_with_incremented_depth. urange depth.
  rewrite arith_fits by (change (umax 4) with (2 ^ 32); lia). cbn [mbind outcome_bind].
  rewrite uval_uwrap_small by (change (umax 4) with (2 ^ 32); lia).
  destruct (Z.ltb_spec (uval (max_depth self)) (uval depth + 1)) as [Hlt|Hge]; [done|].
  apply eff_lift_ext, eff_bind_ext_l, build_by_type_ext.
  intros a' m' w'. apply IH; rewrite uval_uwrap_small by (change (umax 4) with (2 ^ 32); lia); lia.
Qed.

(** ** Aggregation *)

Lemma sublist_omap {X Y K} (F : X -> option Y) (g : X -> K) (h : Y -> K) l :
  (forall x y, F x = Some y -> h y = g x) -> sublist (h <$> omap F l) (g <$> l).
Proof.
  intros HF. induction l as [|x l IH]; [constructor|]. cbn.
  destruct (F x) as [y|] eqn:Hy; cbn; [|by constructor]. rewrite (HF x y Hy). by constructor.
Qed.

Lemma sublist_zip_l {X Y} (l : list X) (k : list Y) : sublist (fst <$> zip l k) l.
Proof.
  revert k. induction l as [|x l IH]; intros [|y k]; cbn; [constructor..| |];
    [apply sublist_nil_l|by constructor].
Qed.

Lemma imap_fst_seq {X} (l : list X) k : fst <$> imap (λ i x, ((k + i)%nat, x)) l = seq k (length l).
Proof.
  revert k. induction l as [|x l IH]; intros k; cbn; [done|]. f_equal; [lia|].
  rewrite <- (IH (S k)). f_equal. apply imap_ext. intros i y _. cbn. f_equal. lia.
Qed.

(** The modules with metadata, each at its place among the results. *)
Lemma ok_sub_modules_index results :
  sublist (sub_index ∘ snd <$> ok_sub_modules results) (seq 0 (length results)).
Proof.
  rewrite <- (imap_fst_seq results 0). unfold ok_sub_modules.
  apply (sublist_omap _ fst (sub_index ∘ snd)). intros [i [e|r]] y Hy; [done|].
  destruct (built_metadata r); cbn in Hy; by simplify_eq.
Qed.

Lemma ok_sub_modules_from results x :
  x ∈ ok_sub_modules results -> exists r,
    results !! sub_index (snd x) = Some (inr r) /\ built_metadata r = Some (sub_metadata (snd x)).
Proof.
  intros Hx. apply list_elem_of_omap in Hx as ([i o] & Hi & Hx).
  apply list_elem_of_lookup in Hi as [j Hj]. rewrite list_lookup_imap in Hj.
  destruct (results !! j) as [o'|] eqn:Ho; [|done]. cbn in Hj. simplify_eq.
  destruct o as [e|r]; [done|]. destruct (built_metadata r) as [b|] eqn:Hb; cbn in Hx; [|done].
  simplify_eq. cbn. by exists r.
Qed.

Lemma join_all_yields {X S E E' A} (f : X -> eff S E A) (P : X -> A -> Prop) l :
  (forall x, yields (f x) (P x)) ->
  yields (join_all (E' := E') (f <$> l)) (λ rs,
    Forall2 (λ x r, match r with inr a => P x a | inl _ => True end) l rs).
Proof.
  intros Hf. induction l as [|x l IH]; cbn [fmap list_fmap join_all].
  { apply yields_ret. constructor. }
  apply yields_bind with (λ r, match r with inr a => P x a | inl _ => True end).
  - intros s s' r Hr. unfold eff_try in Hr.
    destruct (f x s) as [s1 [a|e|]] eqn:Hx; simplify_eq; [|done]. by apply Hf in Hx.
  - intros r Hr. eapply yields_bind; [exact IH|]. intros rs Hrs. apply yields_ret.
    by constructor.
Qed.

(** What is chosen is chosen from the modules, at distinct indices. *)
Lemma cheapest_valid_yields sub_modules m n :
  yields (cheapest_valid_metas sub_modules m n) (λ r, match r with
    | Some metas => length metas = n /\
        (forall md, md ∈ metas -> md ∈ snd <$> sub_modules) /\
        (NoDup (sub_index ∘ snd <$> sub_modules) -> NoDup (sub_index <$> metas))
    | None => True
    end).
Proof.
  unfold cheapest_valid_metas. apply yields_any. intros gas. set (offers := omap _ _).
  destruct (Nat.ltb_spec (length offers) n) as [|Hn]; [by apply yields_ret|].
  apply yields_bind with (λ metas, n_cheapest_metas offers n = Some metas).
  { apply yields_lift. intros metas. apply or_panic_ok. }
  intros metas Hm. apply yields_ret. pose proof (n_cheapest_ok offers n) as Hc. rewrite Hm in Hc.
  destruct Hc as (_ & Hl & _ & chosen & rest & Hperm & Hch & _). split; [done|].
  assert (Hoff : forall K (g : SubModuleMetadata -> K),
    sublist (g ∘ fst <$> offers) (g ∘ snd <$> sub_modules)).
  { intros K g. etrans; [apply (sublist_omap _ (g ∘ snd ∘ fst))|].
    - intros [x r] y Hy. destruct r as [e|[u|]]; by simplify_eq.
    - rewrite (list_fmap_compose fst (g ∘ snd)). apply fmap_sublist, sublist_zip_l. }
  split.
  - intros md Hmd. eapply elem_of_sublist; [|apply (Hoff _ (λ x, x))].
    rewrite Hch in Hmd. rewrite Hperm, fmap_app. apply elem_of_app. by left.
  - intros Hnd. rewrite Hch. pose proof (sublist_NoDup _ _ Hnd (Hoff _ sub_index)) as Hnd'.
    rewrite Hperm, fmap_app, NoDup_app in Hnd'. rewrite <- list_fmap_compose. apply Hnd'.
Qed.

(** C26. Aggregated metadata. Metadata of an aggregation module holds the metadata of exactly as many
    modules as its threshold asks, of different modules, at their indices, and the contract's
    reader finds none at the other indices; whatever the builder one level deeper guarantees of
    the metadata of a module ([P]), the parts have. *)
Theorem aggregation_metadata (base : level) (P : H256 -> bytes -> Prop) a m w w' b
    (addresses : list H256) (t : u8)
    (Hbase : forall x s s' r md, base x m s = (s', Ok r) -> built_metadata r = Some md -> P x md)
    (Hset : forall i s s' r, modules_and_threshold i m s = (s', Ok r) -> r = (addresses, t))
    (Hbuild : build_aggregation base a m w = (w', Ok (Some b)))
    (Hsize : Z.of_nat (length b) < 2 ^ 32) :
  exists metas, length metas = Z.to_nat (uval t) /\ NoDup (sub_index <$> metas) /\
    (forall md, md ∈ metas -> exists x, addresses !! sub_index md = Some x /\
       P x (sub_metadata md) /\ metadata_at b (sub_index md) = Some (sub_metadata md)) /\
    (forall i, (i < length addresses)%nat -> i ∉ sub_index <$> metas -> metadata_at b i = None).
Proof.
  assert (Hy : yields (build_aggregation base a m) (λ r, match r with
    | Some b => exists metas, length metas = Z.to_nat (uval t) /\ NoDup (sub_index <$> metas) /\
        (forall md, md ∈ metas -> exists x, addresses !! sub_index md = Some x /\
           P x (sub_metadata md)) /\
        format_metadata metas (length addresses) = Some b
    | None => True
    end)).
  { unfold build_aggregation. apply yields_any. intros i.
    eapply yields_bind; [apply yields_map_err; intros ? ? ?; apply Hset|].
    intros r ->. cbn beta iota. eapply yields_bind.
    { apply (join_all_yields (λ x, base x m)
        (λ x r, forall md, built_metadata r = Some md -> P x md)).
      intros x s s' r Hr md. by apply (Hbase x s s'). }
    intros results Hres. eapply yields_bind; [apply cheapest_valid_yields|].
    intros [metas|] Hm; [|by apply yields_ret]. destruct Hm as (Hl & Hin & Hnd).
    apply yields_bind with (λ b, format_metadata metas (length addresses) = Some b).
    { apply yields_lift. intros x. apply or_panic_ok. }
    intros b' Hb'. apply yields_ret. exists metas. split_and!; [done| | |done].
    - apply Hnd. eapply sublist_NoDup; [apply NoDup_seq|apply ok_sub_modules_index].
    - intros md Hmd. apply Hin, list_elem_of_fmap in Hmd as (x & -> & Hx).
      apply ok_sub_modules_from in Hx as (r & Hr & Hb).
      destruct (Forall2_lookup_r _ _ _ _ _ Hres Hr) as (y & Hy & HP). exists y. auto. }
  apply Hy in Hbuild as (metas & Hl & Hnd & Hin & Hf). clear Hy.
  assert (Hidx : forall md, md ∈ metas -> (sub_index md < length addresses)%nat).
  { intros md Hmd. destruct (Hin md Hmd) as (x & Hx & _). by apply lookup_lt_Some in Hx. }
  destruct (format_metadata_laid_out metas (length addresses) Hnd Hidx) as (b' & Hb' & Hlen & Hat & Hno).
  { rewrite <- (format_metadata_length _ _ _ Hf). done. }
  assert (b' = b) as -> by congruence. exists metas. split_and!; [done|done| |done].
  intros md Hmd. destruct (Hin md Hmd) as (x & Hx & HP). exists x. auto.
Qed.

(** ** Off-chain lookups *)

(** One URL decides. The first request that fails makes the whole lookup fail, the URLs after it
    are not tried; a response whose data is shorter than its prefix makes the relayer's task
    panic; the next URL is tried only when a response is no JSON of the expected form. *)
Theorem ccip_url_failures info url urls w :
  let interpolated :=
    str_replace "{data}" (lookup_call_data info) (str_replace "{sender}" (lookup_sender info) url) in
  let request := if contains "{data}" url then http_get interpolated
                 else http_post interpolated (lookup_call_data info) (lookup_sender info) in
  (forall w1 e, request w = (w1, Err e) ->
     try_urls info (url :: urls) w = (w1, Err (ClientError e))) /\
  (forall w1 w2 res data, request w = (w1, Ok res) -> http_json res w1 = (w2, Ok data) ->
     (String.length data < 2)%nat -> try_urls info (url :: urls) w = (w2, Panic)) /\
  (forall w1 w2 res e, request w = (w1, Ok res) -> http_json res w1 = (w2, Err e) ->
     try_urls info (url :: urls) w = try_urls info urls w2).
Proof.
  intros interpolated request. cbn [try_urls]. rewrite negb_if. fold interpolated. fold request.
  split_and!.
  - intros w1 e Hr. unfold mbind, eff_bind, client, eff_map_err. by rewrite Hr.
  - intros w1 w2 res data Hr Hj Hd. unfold mbind, eff_bind, client, eff_map_err, eff_try.
    rewrite Hr. cbn [map_err]. rewrite Hj. by destruct data as [|c [|d data]]; [..|cbn in Hd; lia].
  - intros w1 w2 res e Hr Hj. unfold mbind at 1, eff_bind at 1, client at 1, eff_map_err at 1.
    rewrite Hr. cbn [map_err]. unfold mbind at 1, eff_bind at 1, eff_try. by rewrite Hj.
Qed.

(** ** The cached default module *)

(** The default module used for metrics is at most ten minutes old: it is the cached one, younger
    than the limit, with the cache as it was, or the chain's answer of this very call, which is
    then cached with the time it was read at. A failed call leaves the cache alone. *)
Theorem default_ism_fresh value w value' w' r
    (Hget : DefaultIsmCache_get (value, w) = ((value', w'), r)) :
  match r with
  | Ok d =>
      (exists t n, value = Some (d, t) /\ value' = value /\ instant_now w = (w', n) /\
         n - t < TTL) \/
      (exists w1 w2 n, default_ism w1 = (w2, Ok d) /\ instant_now w2 = (w', n) /\
         value' = Some (d, n) /\
         match value with
         | Some (_, t) => exists n0, instant_now w = (w1, n0) /\ TTL <= n0 - t
         | None => w1 = w
         end)
  | _ => value' = value
  end.
Proof.
  unfold DefaultIsmCache_get, cache, elapsed, on_world, now, eff_get, mbind, eff_bind, mret, eff_ret in Hget.
  destruct value as [[v t]|].
  - destruct (instant_now w) as [w1 n] eqn:Hn. unfold TTL, from_secs in *.
    destruct (Z.ltb_spec (Z.max 0 (n - t)) (60 * 10 * 10 ^ 9)) as [Hlt|Hge].
    + simplify_eq. left. exists t, n. split_and!; try done. lia.
    + destruct (default_ism w1) as [w2 [d|e|]] eqn:Hd; [|by simplify_eq..].
      destruct (instant_now w2) as [w3 n'] eqn:Hn'. simplify_eq. right.
      exists w1, w2, n'. split_and!; try done. exists n. split; [done|lia].
  - destruct (default_ism w) as [w2 [d|e|]] eqn:Hd; [|by simplify_eq..].
    destruct (instant_now w2) as [w3 n'] eqn:Hn'. simplify_eq. right.
    exists w, w2, n'. by split_and!.
Qed.

(** What the builder of message-id modules returns. Metadata is returned for a message only with a
    checkpoint of that very message that a quorum of the module's validators has signed: the
    hook, the root and the index of the checkpoint, then the signatures in the order of the
    validators. *)
Theorem message_id_metadata self ism_address m (vs : list H256) (t : u8) w w' b
    (Hset : forall i s s' r, validators_and_threshold i m s = (s', Ok r) -> r = (vs, t))
    (Hbuild : build_multisig self message_id_layout (message_id_fetch self) ism_address m w =
       (w', Ok (Some b))) :
  exists ms, checkpoint_message_id (ms_checkpoint ms) = Message.id m /\
    is_quorum vs (uwrap 8 t) ms /\
    let c := checkpoint (ms_checkpoint ms) in
    b = to_be (merkle_tree_hook_address c) ++ to_be (checkpoint_root c) ++
        to_be (checkpoint_index c) ++ concat (signature_bytes <$> ms_signatures ms).
Proof.
  pose proof (build_message_id_yields self ism_address m _ _ Hset _ _ _ Hbuild)
    as (ms & [Hid Hq] & ->).
  by exists ms.
Qed.

End metadata.

(** ** The program accepts the metadata *)

Section accepted.
Context `{Clients, !SyncerJson, Keccak256, Secp256k1, Ethers, !EthersLaws, OverflowChecks}.
Context `{Solana, !SolanaLaws, BorshSerialize bool, BorshDeserialize bool, !BorshBool}.
Context `{BorshSerialize DomainData, BorshDeserialize DomainData, !BorshLaws DomainData}.

(** C4. The relayer's metadata is accepted. Metadata fetched for the set [vs] with the threshold [t]
    and formatted by the builder of message-id modules makes the module's program verify the
    message, on every ledger where the program is configured with the same set for the message's
    origin; provided that the signatures have plain recovery bytes, and that the checkpoint is
    of the message's origin and at the message's nonce, which the program takes for the
    checkpoint's index. *)
Theorem metadata_accepted self m (vs : list H160) (t : u8) syncer w w1 w2 md b
    program_id i rest ledger d
    (Hfetch : message_id_fetch self (H256_from_H160 <$> vs) t m syncer w = (w1, Ok (Some md)))
    (Hformat : format_tokens md message_id_layout w1 = (w2, Ok b))
    (Hcan : Forall canonical (ms_signatures (quorum_checkpoint md)))
    (Hdom : mailbox_domain (checkpoint (ms_checkpoint (quorum_checkpoint md))) = origin m)
    (Hidx : checkpoint_index (checkpoint (ms_checkpoint (quorum_checkpoint md))) = nonce m)
    (Hd : domain_at program_id ledger (origin m) (key i) d)
    (Hvt : MessageIdIsm.validators_and_threshold d = MkValidatorsAndThreshold vs t) :
  MessageIdIsm.verify program_id (i :: rest) b (to_vec m) ledger = Ok (tt, ledger).
Proof.
  apply message_id_fetch_yields in Hfetch as ([Hid Hq] & _ & _).
  rewrite format_message_id in Hformat. injection Hformat as <- <-.
  set (ms := quorum_checkpoint md) in *.
  assert (Hsigs : exists es, Forall2 (λ s e, EcdsaSignature_from_bytes (signature_bytes s) = Ok e)
    (ms_signatures ms) es).
  { clear -Hcan. induction Hcan as [|s l Hs _ [es IH]]; [by exists []|].
    destruct (canonical_parses s Hs) as [e He]. exists (e :: es). by constructor. }
  destruct Hsigs as [es Hes].
  set (meta := MkMetadata (merkle_tree_hook_address (checkpoint (ms_checkpoint ms)))
    (checkpoint_root (checkpoint (ms_checkpoint ms)))
    (checkpoint_index (checkpoint (ms_checkpoint ms))) es).
  apply verify_ok. exists meta, m, i, rest, d. split_and!.
  - unfold message_id_bytes, meta.
    rewrite (metadata_read_raw _ _ _ (signature_bytes <$> ms_signatures ms) es); [done|..].
    + intros ->. destruct Hq as (vs' & _ & Hf & Hlen). apply Forall2_length in Hes, Hf.
      unfold quorum_size in Hlen. cbn in Hes. lia.
    + apply Forall2_fmap_l. eapply Forall2_impl; [exact Hes|]. intros s e He. cbn.
      split; [apply length_signature_bytes|done].
  - apply HyperlaneMessage_from_to_vec.
  - done.
  - done.
  - rewrite Hvt. eapply quorum_passes; [exact Hq|done..].
  - done.
Qed.
End accepted.

(** ** A relayer building metadata: the theorems on metadata at concrete inputs *)

Module MetadataModel.
Import BorshModel RuntimeModel IsmModel StorageModel DatabaseModel.
#[export] Existing Instance keccak_concrete.

(** The recovery of the runtime, from the bytes of a signature. *)
#[export] Instance ethers : Ethers := λ sig h,
  match EcdsaSignature_from_bytes (signature_bytes sig) with
  | Ok e => secp256k1_recover_ethereum_address e (to_be h)
  | _ => None
  end.

#[export] Instance ethers_laws : EthersLaws.
Proof. intros sig h a e Hr _ He. unfold signature_recover, ethers in Hr. by rewrite He in Hr. Qed.

#[export] Instance checks : OverflowChecks := false.

Definition message : HyperlaneMessage := IsmScenario.message.
Definition set : list H160 :=
  [uwrap 20 5; IsmScenario.validator_of IsmScenario.signature1].

(** The tree after the message was dispatched, and the database that names its leaf. *)
Definition tree : MerkleTreeBuilder :=
  default (MkMerkleTreeBuilder (MkProver (uwrap 8 0) (Leaf (uwrap 32 0)))
             Incremental.default)
    (b ← Builder.new; '(b, _) ← Builder.ingest_message_id b (Message.id message); Some b).
Definition leaf_rows : gmap bytes bytes :=
  <[entry_key origin (LeafIndexRow (Message.id message)) := to_vec (uwrap 4 0 : u32)]> ∅.
Definition leaf_db : rocks := leaf_rows.

(** Modules by address: 1 routes to itself, 2 aggregates two modules, 3 is looked up off chain,
    the others are multisig modules. *)
Definition type_at (a : Z) : ModuleType :=
  if a =? 1 then Routing else if a =? 2 then Aggregation else if a =? 3 then CcipRead
  else MessageIdMultisig.

#[export] Instance clients : Clients := {|
  ism := H256; routing_ism := H256; multisig_ism := H256; aggregation_ism := H256;
  ccip_read_ism := H256;
  build_ism a w := (w, Ok a);
  build_routing_ism a w := (w, Ok a);
  build_multisig_ism a w := (w, Ok a);
  build_aggregation_ism a w := (w, Ok a);
  build_ccip_read_ism a w := (w, Ok a);
  module_type a w := (w, Ok (type_at (uval a)));
  dry_run_verify _ _ _ w := (w, Ok (Some (uwrap 32 5)));
  route a _ w := (w, Ok a);
  Metadata.validators_and_threshold _ _ w := (w, Ok (H256_from_H160 <$> set, byte 1));
  modules_and_threshold _ _ w := (w, Ok ([uwrap 32 4; uwrap 32 9], byte 1));
  get_offchain_verify_info _ _ w := (w, Err "0x00"%string);
  default_ism w := (w, Ok (uwrap 32 4));
  get_announced_storage_locations _ w :=
    (w, Ok [[]; ["file:///v"%string; "ftp://v"%string]]);
  origin_prover_sync _ := tree;
  origin_db _ := leaf_db;
  instant_now w := (w, from_secs 5);
  abi_encode l := concat (to_be <$> l);
  captures_hex s := Some s;
  hex_decode _ := Ok [];
  offchain_lookup_decode _ := Ok (MkOffchainLookup "0x01" ["u"%string] "0x02");
  http_response := unit;
  http_post _ _ _ w := (w, Ok tt);
  http_get _ w := (w, Ok tt);
  http_json _ w := (w, Ok "0x"%string)
|}.

Definition config : BaseMetadataBuilder := MkBaseMetadataBuilder origin true (uwrap 4 13).

(** The checkpoint of the message, signed by the second validator. *)
Definition signed : SignedCheckpointWithMessageId :=
  MkSignedType
    (MkCheckpointWithMessageId
       (MkCheckpoint (uwrap 32 1) (uwrap 4 9) (uwrap 32 2) (uwrap 4 0)) (Message.id message))
    (MkSignature (MkU256 (uwrap 32 0)) (MkU256 (uwrap 32 11)) (uwrap 8 28)).
Definition world : storage :=
  MkMemory (<["/v/0_with_id.json" := encode_checkpoint signed]> (<["/v/index.json" := bstr "0"]> ∅))
    ∅.

Definition some_bytes (r : outcome MetadataError (option bytes)) : bool :=
  match r with Ok (Some _) => true | _ => false end.

Lemma metadata_runs (m : builder (option bytes)) :
  some_bytes (snd (m world)) = true -> exists w' b, m world = (w', Ok (Some b)).
Proof.
  intros Hf. destruct (m world) as [w' r]. cbn in Hf.
  destruct r as [[b|]|e|]; try discriminate. eauto.
Qed.
End MetadataModel.

Section witnesses.
Import BorshModel RuntimeModel IsmModel StorageModel DatabaseModel MetadataModel.

Lemma set_reported i s s' r :
  Metadata.validators_and_threshold i message s = (s', Ok r) ->
  r = (H256_from_H160 <$> set, byte 1).
Proof. intros Hr. injection Hr as _ Hr. symmetry. exact Hr. Qed.

Lemma message_id_metadata_witness :
  exists w' b, build_multisig config message_id_layout (message_id_fetch config) (uwrap 32 4)
    message world = (w', Ok (Some b)) /\
    exists ms, is_quorum (H256_from_H160 <$> set) (uwrap 8 (byte 1)) ms.
Proof.
  destruct (metadata_runs (build_multisig config message_id_layout (message_id_fetch config) (uwrap 32 4)
    message)) as (w' & b & Hb); [vm_compute; reflexivity|].
  exists w', b. split; [exact Hb|].
  destruct (message_id_metadata config (uwrap 32 4) message _ (byte 1) world w' b set_reported Hb)
    as (ms & _ & Hq & _).
  exists ms. exact Hq.
Defined.

(** The account of the program for the domain of the message. *)
Lemma configured :
  exists d, domain_at IsmScenario.pid IsmScenario.world2 (Message.origin message)
      (key IsmScenario.domain_info) d /\
    MessageIdIsm.validators_and_threshold d = MkValidatorsAndThreshold set (byte 1).
Proof.
  pose proof IsmScenario.verify_runs as Hv. apply verify_ok in Hv
    as (md & m & i & rest & a & _ & Hm & [= <- <-] & Hd & _).
  rewrite HyperlaneMessage_from_to_vec in Hm. injection Hm as <-.
  exists a. split; [exact Hd|].
  pose proof (proj2 (get_set_ok IsmScenario.pid IsmScenario.domain_info [] _
    IsmScenario.world2 _) (ex_intro _ a (conj Hd eq_refl))) as Hg.
  assert (Hs : match get_set IsmScenario.pid [IsmScenario.domain_info]
                       (Message.origin IsmScenario.message) IsmScenario.world2 with
               | Ok (s, _) => bool_decide (validators s = set) &&
                              bool_decide (threshold s = byte 1)
               | _ => false
               end = true) by (vm_compute; reflexivity).
  rewrite Hg in Hs. apply andb_prop in Hs as [H1 H2].
  apply bool_decide_eq_true in H1, H2. destruct (MessageIdIsm.validators_and_threshold a).
  cbn in H1, H2. congruence.
Qed.

Definition syncers : MultisigCheckpointSyncer (A := AnySyncer) :=
  MkMultisigCheckpointSyncer
    (<[IsmScenario.validator_of IsmScenario.signature1 := Local (MkLocalStorage "/v")]> ∅).

(** What the program asks of a checkpoint, as a test. *)
Definition usable (ms : MultisigSignedCheckpoint) : bool :=
  let c := checkpoint (ms_checkpoint ms) in
  forallb (λ sig, uval (v sig) =? 28) (ms_signatures ms) &&
  (uval (mailbox_domain c) =? uval (Message.origin message)) &&
  (uval (checkpoint_index c) =? uval (nonce message)).

Lemma fetched :
  exists w md, message_id_fetch config (H256_from_H160 <$> set) (byte 1) message syncers world =
    (w, Ok (Some md)) /\ usable (quorum_checkpoint md) = true.
Proof.
  assert (Hb : match snd (message_id_fetch config (H256_from_H160 <$> set) (byte 1) message
      syncers world) with Ok (Some md) => usable (quorum_checkpoint md) | _ => false end = true)
    by (vm_compute; reflexivity).
  destruct (message_id_fetch config (H256_from_H160 <$> set) (byte 1) message syncers world)
    as [w r] eqn:Hf.
  destruct r as [[md|]|e|]; try discriminate Hb. exists w, md. split; [reflexivity|exact Hb].
Qed.

Lemma metadata_accepted_witness :
  exists ms, MessageIdIsm.verify IsmScenario.pid [IsmScenario.domain_info] (message_id_bytes ms)
    (to_vec message) IsmScenario.world2 = Ok (tt, IsmScenario.world2).
Proof.
  destruct configured as (d & Hd & Hvt). destruct fetched as (w & md & Hf & Hu).
  apply andb_prop in Hu as [Hu Hi]. apply andb_prop in Hu as [Hc Ho].
  apply Z.eqb_eq in Hi, Ho. apply uint_eq in Hi, Ho.
  exists (quorum_checkpoint md).
  refine (metadata_accepted config message set (byte 1) syncers world w w md _
    IsmScenario.pid IsmScenario.domain_info [] IsmScenario.world2 d Hf (format_message_id md w)
    _ Ho Hi Hd Hvt).
  apply Forall_forall. intros sig Hsig. rewrite forallb_forall in Hc.
  right. right. right. apply Z.eqb_eq, Hc, list_elem_of_In, Hsig.
Defined.

(** ** The proof of a Merkle-root module *)

Lemma tree_holds : builder_ok tree [Message.id message].
Proof.
  destruct (@builder_new_ok keccak_concrete zero_hashes_concrete) as (b0 & Hn & Hb0).
  destruct (@builder_ingest_ok keccak_concrete zero_hashes_concrete b0 [] (Message.id message) Hb0)
    as (b1 & Hi & Hb1).
  { apply (Nat.pow_le_mono_r 2 1 32); lia. }
  unfold tree. rewrite Hn, some_bind, Hi, some_bind. exact Hb1.
Qed.

Lemma leaf_index_row `{RocksDBLaws} d id s i :
  snd (HyperlaneDB.retrieve_merkle_leaf_index_by_message_id d id s) = Ok (Some i) ->
  row (V := u32) d (LeafIndexRow id) (rocks_contents s) = Some i.
Proof.
  destruct (HyperlaneDB.retrieve_merkle_leaf_index_by_message_id d id s) as [s' r] eqn:He.
  cbn [snd]. intros ->. by apply retrieve_decodable_ok in He as [_ He].
Qed.

Lemma leaf_row_found id i :
  snd (HyperlaneDB.retrieve_merkle_leaf_index_by_message_id origin id leaf_db) = Ok (Some i) ->
  [Message.id message] !! Z.to_nat (uval i) = Some id.
Proof.
  intros He%leaf_index_row. change (rocks_contents leaf_db) with leaf_rows in He.
  unfold leaf_rows in He. rewrite (row_insert origin (V := u32)) in He. case_decide as Hi; [|discriminate].
  injection Hi as ->. injection He as <-. reflexivity.
Qed.

Lemma merkle_root_metadata_witness :
  exists w' b, build_multisig config merkle_root_layout (merkle_root_fetch config) (uwrap 32 4)
      message world = (w', Ok (Some b)) /\
    exists ms leaf_index p, b = merkle_root_bytes ms leaf_index p /\ leaf p = Message.id message /\
      MerkleTree.Proof_root p = Some (tree_root 32
        (take (S (Z.to_nat (uval (checkpoint_index (checkpoint (ms_checkpoint ms))))))
           [Message.id message])).
Proof.
  pose proof zero_hashes_concrete as Hz.
  destruct (metadata_runs (build_multisig config merkle_root_layout (merkle_root_fetch config)
    (uwrap 32 4) message)) as (w' & b & Hb); [vm_compute; reflexivity|].
  exists w', b. split; [exact Hb|].
  destruct (merkle_root_metadata config [Message.id message] (uwrap 32 4) message
    (H256_from_H160 <$> set) (byte 1) world w' b) as
    (ms & leaf_index & p & _ & Hbytes & _ & _ & Hleaf & _ & _ & Hroot & _).
  - intros w. exists 1%nat. split; [exact tree_holds|].
    change (length (take 1 [Message.id message])) with 1%nat. apply Nat.pow_gt_1; [lia|discriminate].
  - intros w id i. exact (leaf_row_found id i).
  - exact set_reported.
  - exact Hb.
  - exists ms, leaf_index, p. split; [exact Hbytes|]. split; [exact Hleaf|exact Hroot].
Defined.

(** ** The recursion, aggregation and the cache *)

Definition too_deep (r : outcome MetadataError IsmWithMetadataAndType) : bool :=
  match r with Err (MaxDepthExceeded d) => uval d =? 14 | _ => false end.

Lemma metadata_depth_witness :
  too_deep (snd (build_ism_and_metadata (λ _ _ w, (w, Panic)) 20 config (uwrap 4 0) (uwrap 32 1)
    message world)) = true.
Proof.
  rewrite (metadata_depth config (uwrap 4 0) 20 14 (λ _ _ w, (w, Panic)) (λ _ _ w, (w, Panic))).
  - vm_compute. reflexivity.
  - vm_compute. reflexivity.
  - vm_compute. reflexivity.
  - vm_compute. reflexivity.
  - vm_compute. discriminate.
Defined.

Lemma aggregation_metadata_witness :
  exists w' b, build_aggregation
      (build_ism_and_metadata (λ _ _ w, (w, Panic)) 3 config (uwrap 4 1)) (uwrap 32 2) message world
      = (w', Ok (Some b)) /\
    exists metas, length metas = 1%nat /\ NoDup (sub_index <$> metas).
Proof.
  set (base := build_ism_and_metadata (λ _ _ w, (w, Panic)) 3 config (uwrap 4 1)).
  assert (Hb : match snd (build_aggregation base (uwrap 32 2) message world) with
               | Ok (Some b) => Z.of_nat (length b) <? 2 ^ 32 | _ => false end = true)
    by (vm_compute; reflexivity).
  destruct (build_aggregation base (uwrap 32 2) message world) as [w' r] eqn:Hf.
  destruct r as [[b|]|e|]; try discriminate Hb. apply Z.ltb_lt in Hb.
  exists w', b. split; [reflexivity|].
  destruct (aggregation_metadata base (λ _ _, True) (uwrap 32 2) message world w' b
    [uwrap 32 4; uwrap 32 9] (byte 1)) as (metas & Hl & Hnd & _).
  - intros. exact I.
  - intros i s s' r Hr. injection Hr as _ Hr. symmetry. exact Hr.
  - exact Hf.
  - exact Hb.
  - exists metas. split; [exact Hl|exact Hnd].
Defined.

Lemma default_ism_fresh_witness :
  exists t n, Some (uwrap 32 8 : H256, from_secs 1) = Some (uwrap 32 8 : H256, t) /\ n - t < TTL.
Proof.
  assert (Hg : DefaultIsmCache_get (Some (uwrap 32 8, from_secs 1), world) =
    ((Some (uwrap 32 8, from_secs 1), world), Ok (uwrap 32 8))) by (vm_compute; reflexivity).
  pose proof (default_ism_fresh _ _ _ _ _ Hg) as [Hr|Hr].
  - destruct Hr as (t & n & Hv & _ & _ & Hlt). exists t, n. split; [exact Hv|exact Hlt].
  - destruct Hr as (w1 & w2 & n & _ & _ & Hv & _). exists n, n. split; [exact Hv|].
    rewrite Z.sub_diag. reflexivity.
Defined.
End witnesses.
