(* ===== verification/Validator.v ===== *)
(** * The validator ([agents/validator/src])

    [submit.rs]: the tree of the insertions that have been indexed, and the checkpoints that are
    signed once they are known to be right; [validator.rs]: the announcement, which is all that
    [run] does in this version, and the start of the submitters, which it no longer calls. The
    chain, the signer, the clock and the database that the indexer writes are the class
    [ValidatorClients], over the outside world of [CheckpointStorage]; metrics are left out. A
    loop that waits runs on fuel, [stuck] is what stands for the rounds past it. *)

From S2P Require Import Prelude.
From S2P Require Import Codec.
From S2P Require Import Keccak.
From S2P Require Import Accumulator.
From S2P Require Import Message.
From S2P Require Import Chain.
From S2P Require Import Sealevel.
From S2P Require Import Database.
From S2P Require Import MatchingList.
From S2P Require Import PendingOperation.
From S2P Require Import CheckpointStorage.
From stdpp Require Import base gmap list numbers strings.
From Stdlib Require Import ZArith Lia.

#[local] Open Scope Z_scope.

Class ValidatorClients `{StorageIO, RocksDB} := {
  (** [MerkleTreeHook] of the origin; the argument is the period to lag by *)
  hook_address : H256;
  hook_domain : u32;
  latest_checkpoint : option u64 -> eff storage report Checkpoint;
  hook_tree : option u64 -> eff storage report IncrementalMerkle;
  (** [HyperlaneSigner] *)
  eth_address : H160;
  sign_hash : H256 -> eff storage report Codec.Signature;
  (** The database, which the indexer writes *)
  message_db : storage -> rocks;
  (** [tokio::time::sleep] *)
  sleep : Duration -> storage -> storage;
  (** [Mailbox] and [ValidatorAnnounce] of the origin, and the address of the chain's signer *)
  mailbox : H256;
  mailbox_domain_id : u32;
  announced_locations : list H256 -> eff storage report (list (list string));
  chain_signer : eff storage report (option string);
  announce_tokens_needed : SignedType Announcement -> storage -> storage * option Codec.U256;
  announce_on_chain : SignedType Announcement -> eff storage report unit
}.

Inductive ValidatorError `{StorageIO, RocksDB} :=
  | ReportError (e : report)
  | MessageDbError (e : DbError)
  (** the text of [bail!] *)
  | IncorrectTreeRoot.

(** [ValidatorSubmitter] *)
Record ValidatorSubmitter (A : Type) := MkValidatorSubmitter {
  interval : Duration;
  reorg_period : option u64;
  checkpoint_syncer : A;
  db_domain : Domain.HyperlaneDomain
}.
Arguments MkValidatorSubmitter {A} interval reorg_period checkpoint_syncer db_domain.
Arguments interval {A}.
Arguments reorg_period {A}.
Arguments checkpoint_syncer {A}.
Arguments db_domain {A}.

Section submitter.
Context `{ValidatorClients, !CheckpointSyncer A, Keccak256, OverflowChecks}.

Definition task (T : Type) : Type := eff storage ValidatorError T.
Definition try_report {T} (m : eff storage report T) : task T := eff_map_err ReportError m.
Definition sleep_for (d : Duration) : task unit := λ w, (sleep d w, Ok tt).
Definition read_message_db {T} (m : db T) : task T := λ w,
  (w, map_err MessageDbError (snd (m (message_db w)))).

(** [ValidatorSubmitter::new]: [NonZeroU64::new] is [None] for 0. *)
Definition ValidatorSubmitter_new (interval : Duration) (reorg_period : u64) (syncer : A)
    (domain : Domain.HyperlaneDomain) : ValidatorSubmitter A :=
  MkValidatorSubmitter interval (if uval reorg_period =? 0 then None else Some reorg_period)
    syncer domain.

(** [ValidatorSubmitter::checkpoint]; [None] is a panic. *)
Definition tree_checkpoint (tree : IncrementalMerkle) : option Checkpoint :=
  root ← Incremental.root tree;
  index ← Incremental.index tree;
  Some (MkCheckpoint hook_address hook_domain root index).

(** [tree_exceeds_checkpoint] *)
Definition tree_exceeds_checkpoint (c : Checkpoint) (tree : IncrementalMerkle) :
    outcome ValidatorError bool :=
  next ← arith 4 (uval (checkpoint_index c) + 1);
  Ok (uval next <? uval (uwrap 4 (count tree))).

(** [HyperlaneSignerExt::sign] *)
Definition sign (value : CheckpointWithMessageId) : task SignedCheckpointWithMessageId :=
  signature ← try_report (sign_hash (signing_hash value));
  mret (MkSignedType value signature).

(** The loop of [sign_and_submit_checkpoints]. *)
Fixpoint sign_each (self : ValidatorSubmitter A) (checkpoints : list CheckpointWithMessageId) :
    task unit :=
  match checkpoints with
  | [] => mret tt
  | queued_checkpoint :: checkpoints =>
      existing ← try_report (fetch_checkpoint (checkpoint_syncer self)
        (checkpoint_index (checkpoint queued_checkpoint)));
      match existing with
      | Some _ => sign_each self checkpoints
      | None =>
          signed_checkpoint ← sign queued_checkpoint;
          try_report (write_checkpoint (checkpoint_syncer self) signed_checkpoint);;
          sleep_for (10 ^ 8);;
          sign_each self checkpoints
      end
  end.

(** [sign_and_submit_checkpoints] *)
Definition sign_and_submit_checkpoints (self : ValidatorSubmitter A)
    (checkpoints : list CheckpointWithMessageId) : task unit :=
  last_checkpoint ← eff_lift (or_panic (last checkpoints));
  sign_each self checkpoints;;
  try_report (update_latest_index (checkpoint_syncer self)
    (checkpoint_index (checkpoint last_checkpoint))).

Section waiting.
(** What stands for a wait that exceeds the fuel. *)
Context (stuck : forall T, task T).

(** The [while] loop of [submit_checkpoints_until_correctness_checkpoint]: the tree and the queue
    at its end. *)
Fixpoint ingest_until (fuel : nat) (self : ValidatorSubmitter A) (target : u32)
    (tree : IncrementalMerkle) (checkpoint_queue : list CheckpointWithMessageId) :
    task (IncrementalMerkle * list CheckpointWithMessageId) :=
  match fuel with
  | O => stuck _
  | S fuel =>
      if uval (uwrap 4 (count tree)) <=? uval target then
        insertion ← read_message_db
          (HyperlaneDB.retrieve_merkle_tree_insertion_by_leaf_index (db_domain self)
             (uwrap 4 (count tree)));
        match insertion with
        | Some insertion =>
            let message_id := message_id insertion in
            tree ← eff_lift (or_panic (Incremental.ingest tree message_id));
            checkpoint ← eff_lift (or_panic (tree_checkpoint tree));
            ingest_until fuel self target tree
              (checkpoint_queue ++ [MkCheckpointWithMessageId checkpoint message_id])
        | None =>
            sleep_for (10 ^ 8);;
            ingest_until fuel self target tree checkpoint_queue
        end
      else mret (tree, checkpoint_queue)
  end.

(** [submit_checkpoints_until_correctness_checkpoint]: the tree afterwards *)
Definition submit_checkpoints_until_correctness_checkpoint (fuel : nat)
    (self : ValidatorSubmitter A) (tree : IncrementalMerkle) (correctness_checkpoint : Checkpoint) :
    task IncrementalMerkle :=
  exceeds ← eff_lift (tree_exceeds_checkpoint correctness_checkpoint tree);
  if exceeds : bool then eff_lift Panic
  else
    ingested ← ingest_until fuel self (checkpoint_index correctness_checkpoint) tree [];
    let '(tree, checkpoint_queue) := ingested : IncrementalMerkle * list CheckpointWithMessageId in
    index ← eff_lift (or_panic (Incremental.index tree));
    if bool_decide (checkpoint_index correctness_checkpoint <> index) then eff_lift Panic
    else
      checkpoint ← eff_lift (or_panic (tree_checkpoint tree));
      if bool_decide (checkpoint <> correctness_checkpoint)
      then eff_lift (Err IncorrectTreeRoot)
      else
        (if bool_decide (checkpoint_queue = []) then mret tt
         else sign_and_submit_checkpoints self checkpoint_queue);;
        mret tree.

(** [backfill_checkpoint_submitter], until it idles *)
Definition backfill_checkpoint_submitter (fuel : nat) (self : ValidatorSubmitter A)
    (target_checkpoint : Checkpoint) : task IncrementalMerkle :=
  submit_checkpoints_until_correctness_checkpoint fuel self Incremental.default target_checkpoint.

(** One round of [checkpoint_submitter]. *)
Definition submitter_round (fuel : nat) (self : ValidatorSubmitter A) (tree : IncrementalMerkle) :
    task IncrementalMerkle :=
  latest_checkpoint ← try_report (latest_checkpoint (reorg_period self));
  exceeds ← eff_lift (tree_exceeds_checkpoint latest_checkpoint tree);
  if exceeds : bool then sleep_for (interval self);; mret tree
  else
    tree ← submit_checkpoints_until_correctness_checkpoint fuel self tree latest_checkpoint;
    sleep_for (interval self);;
    mret tree.

(** [n] rounds of [checkpoint_submitter]. *)
Fixpoint checkpoint_submitter (n fuel : nat) (self : ValidatorSubmitter A)
    (tree : IncrementalMerkle) : task IncrementalMerkle :=
  match n with
  | O => mret tree
  | S n => tree ← submitter_round fuel self tree; checkpoint_submitter n fuel self tree
  end.

(** ** [validator.rs] *)

(** The loop of [announce]. *)
Fixpoint announce_loop (fuel : nat) (interval : Duration) (announcement_location : string)
    (signed_announcement : SignedType Announcement) : task unit :=
  match fuel with
  | O => stuck _
  | S fuel =>
      locations ← try_report (announced_locations [H256_from_H160 eth_address]);
      match head locations with
      | Some locations =>
          if bool_decide (announcement_location ∈ locations) then mret tt
          else
            signer ← try_report chain_signer;
            match signer with
            | Some _ =>
                needed ← (λ w, let '(w, r) := announce_tokens_needed signed_announcement w in
                               (w, Ok r));
                let balance_delta := match needed with Some d => uval (u256 d) | None => 0 end in
                (if 0 <? balance_delta then mret tt
                 else (_ ← eff_try (announce_on_chain signed_announcement); mret tt))
            | None => mret tt
            end;;
            sleep_for interval;;
            announce_loop fuel interval announcement_location signed_announcement
      | None => announce_loop fuel interval announcement_location signed_announcement
      end
  end.

(** [Validator::announce] *)
Definition announce (fuel : nat) (interval : Duration) (syncer : A) : task unit :=
  let location := announcement_location syncer in
  let announcement := MkAnnouncement eth_address mailbox mailbox_domain_id (bstr location) in
  signature ← try_report (sign_hash (signing_hash announcement));
  let signed_announcement := MkSignedType announcement signature in
  try_report (write_announcement syncer signed_announcement);;
  announce_loop fuel interval location signed_announcement.

(** [Validator::run] before it waits for the signer's task: a failed announcement panics. The
    rest of its body, which starts the indexer and the submitters, is commented out in this
    version. *)
Definition run (fuel : nat) (interval : Duration) (syncer : A) : task unit := λ w,
  let '(w, r) := announce fuel interval syncer w in (w, expect r).

(** [run_checkpoint_submitters]: the tip tree and the target of the backfill that the two tasks
    it spawns start from, [backfill_checkpoint_submitter] of the target and
    [checkpoint_submitter] of the tip tree. Nothing calls it in this version. *)
Definition run_checkpoint_submitters (self : ValidatorSubmitter A) :
    task (IncrementalMerkle * Checkpoint) :=
  tip_tree ← (λ w, let '(w, r) := hook_tree (reorg_period self) w in (w, expect r));
  if uval (count tip_tree) =? 0 then eff_lift Panic
  else
    backfill_target ← eff_lift (or_panic (tree_checkpoint tip_tree));
    mret (tip_tree, backfill_target).
End waiting.
End submitter.
