(* ===== verification/ValidatorTheorems.v ===== *)
(** * The validator publishes the chain's checkpoints

    The two tasks that [run_checkpoint_submitters] starts, run side by side: each takes the
    other's writes as steps of its environment and is itself such a step, and once the backfill
    is done and the tip submitter has caught up the storage has a signed checkpoint of every leaf
    and nothing that is not a checkpoint of the chain, unless two different trees that were
    hashed collide. A round of the submitter ends, and either submits what is new, or fails in a
    world where it has only waited because the database disagrees with the chain, or fails in the
    storage or the signer. An announcement that returns is on the chain. ([run], in this version,
    announces and leaves the two tasks unstarted; the theorems are on the tasks.) *)

From S2P Require Import Prelude.
From S2P Require Import Codec.
From S2P Require Import Keccak.
From S2P Require Import Accumulator.
From S2P Require Import Message.
From S2P Require Import Chain.
From S2P Require Import MerkleSpec.
From S2P Require Import MerkleCorrect.
From S2P Require Import IncrementalCorrect.
From S2P Require Import Relayer.
From S2P Require Import RelayerCorrect.
From S2P Require Import Sealevel.
From S2P Require Import Database.
From S2P Require Import DatabaseCorrect.
From S2P Require Import DatabaseTheorems.
From S2P Require Import MatchingList.
From S2P Require Import PendingOperation.
From S2P Require Import CheckpointStorage.
From S2P Require Import CheckpointStorageTheorems.
From S2P Require Import CheckpointQuorum.
From S2P Require Import ConcreteStorage.
From S2P Require Import Validator.
From stdpp Require Import base gmap list numbers strings.
From Stdlib Require Import ZArith Lia.

#[local] Open Scope Z_scope.

(** ** What the validator's tasks do to its tree and its storage

    Two trees with one root hold the same leaves or show a collision; the lemmas on the loops of
    [submit_checkpoints_until_correctness_checkpoint], for a storage that obeys [SyncerLaws] and
    an environment, the class [ValidatorEnv], that may itself publish honest checkpoints while
    the validator waits. *)

(** ** Trees with the same root *)

Section roots.
Context `{Keccak256}.

(** The inputs hashed for the root of the complete tree over [f]. *)
Fixpoint tree_inputs (d : nat) (f : nat -> H256) : list bytes :=
  match d with
  | O => []
  | S d =>
      (to_be (droot d f) ++ to_be (droot d (rhalf d f))) ::
      (tree_inputs d f ++ tree_inputs d (rhalf d f))
  end.

Lemma droot_sound d f g :
  droot d f = droot d g ->
  (forall i, (i < 2 ^ d)%nat -> f i = g i) \/ collision (tree_inputs d f) (tree_inputs d g).
Proof.
  revert f g. induction d as [|d IH]; intros f g E.
  - left. intros i Hi. cbn in Hi. assert (i = O) as -> by lia. exact E.
  - cbn [droot tree_inputs] in *. apply hash_concat_inj in E as [[El Er]|Hc].
    2: right; eapply collision_mono; [exact Hc|set_solver|set_solver].
    destruct (IH _ _ El) as [Hl|Hc];
      [|right; eapply collision_mono; [exact Hc|set_solver|set_solver]].
    destruct (IH _ _ Er) as [Hr|Hc];
      [|right; eapply collision_mono; [exact Hc|set_solver|set_solver]].
    left. intros i Hi. rewrite Nat.pow_succ_r' in Hi.
    destruct (decide (i < 2 ^ d)%nat) as [Hlt|Hge]; [by apply Hl|].
    specialize (Hr (i - 2 ^ d)%nat). unfold rhalf in Hr.
    replace (2 ^ d + (i - 2 ^ d))%nat with i in Hr by lia. apply Hr. lia.
Qed.

(** Trees of equally many leaves. *)
Lemma tree_root_sound d l k :
  length l = length k -> (length l <= 2 ^ d)%nat -> tree_root d l = tree_root d k ->
  l = k \/ collision (tree_inputs d (leaf_at l)) (tree_inputs d (leaf_at k)).
Proof.
  intros Hlen Hd E. apply droot_sound in E as [E|]; [left|by right].
  apply (list_eq_same_length _ _ (length l)); [done|done|]. intros i x y Hi Hx Hy.
  specialize (E i). unfold leaf_at in E. rewrite Hx, Hy in E. apply E. lia.
Qed.
End roots.

#[local] Opaque droot tree_root tree_inputs.

(** ** The environment *)

Section honest.
Context `{ValidatorClients, !CheckpointSyncer A, !SyncerLaws (A := A), Keccak256, Ethers}.
Context (a : A) (leaves : list H256).

(** The checkpoint of the chain's hook, whose leaves are [leaves], after its leaf [i]. *)
Definition chain_checkpoint (i : u32) : Checkpoint :=
  MkCheckpoint hook_address hook_domain
    (tree_root 32 (take (S (Z.to_nat (uval i))) leaves)) i.

(** A checkpoint of the chain with the message id of its leaf. *)
Definition honest (c : CheckpointWithMessageId) : Prop :=
  checkpoint c = chain_checkpoint (checkpoint_index (checkpoint c)) /\
  leaves !! Z.to_nat (uval (checkpoint_index (checkpoint c))) = Some (checkpoint_message_id c).

(** Everything the storage holds is honest, under its index, and signed by the validator. *)
Definition storage_honest (w : storage) : Prop :=
  forall i c, published a w i = Some c ->
    checkpoint_index (checkpoint (value c)) = i /\ honest (value c) /\
    recover c = Some eth_address.

Definition extends (w w' : storage) : Prop :=
  forall i, is_Some (published a w i) -> is_Some (published a w' i).

(** A step that keeps the storage honest and what it holds. *)
Definition step (w w' : storage) : Prop :=
  storage_honest w -> storage_honest w' /\ extends w w'.

#[export] Instance step_preorder : PreOrder step.
Proof.
  split.
  - intros w Hw. split; [done|]. by intros i.
  - intros w1 w2 w3 S1 S2 Hw. destruct (S1 Hw) as [Hw2 E1]. destruct (S2 Hw2) as [Hw3 E2].
    split; [done|]. intros i Hi. by apply E2, E1.
Qed.

(** A step that leaves the storage as it is. *)
Lemma step_same w w' : (forall i, published a w' i = published a w i) -> step w w'.
Proof.
  intros E Hw. split.
  - intros i c. rewrite E. apply Hw.
  - intros i. by rewrite E.
Qed.

Lemma update_latest_step n w w' :
  update_latest_index a n w = (w', Ok tt) -> step w w'.
Proof.
  intros Hu. unfold update_latest_index in Hu.
  apply eff_bind_ok in Hu as (w1 & r & Hr & Hu).
  destruct (latest_index_law _ _ _ _ Hr) as (_ & Hs & _).
  trans w1; [by apply step_same|]. case_match.
  - apply write_latest_index_law in Hu as [_ Hu]. by apply step_same.
  - injection Hu as <-. reflexivity.
Qed.
End honest.

(** What is assumed of the chain, the signer, the clock and the database. [stored] is what the
    indexer writes as the id of each leaf (it never replaces one), right or not. *)
Class ValidatorEnv `{ValidatorClients, !CheckpointSyncer A, !SyncerLaws (A := A), Keccak256,
    Ethers} (a : A) (db_domain : Domain.HyperlaneDomain) (leaves : list H256)
    (stored : nat -> H256) := {
  sign_step h w w' sig :
    sign_hash h w = (w', Ok sig) ->
    step a leaves w w' /\
    signature_recover sig
      (hash_message (to_be h)) = Some eth_address;
  sleep_step d w : step a leaves w (sleep d w);
  chain_step p w w' c :
    latest_checkpoint p w = (w', Ok c) ->
    step a leaves w w' /\ c = chain_checkpoint leaves (checkpoint_index c) /\
    uval (checkpoint_index c) < Z.of_nat (length leaves);
  tree_step p w w' t :
    hook_tree p w = (w', Ok t) ->
    step a leaves w w' /\ exists n, (n <= length leaves)%nat /\ incr_ok t (take n leaves);
  database_rows i w s ins :
    HyperlaneDB.retrieve_merkle_tree_insertion_by_leaf_index db_domain i (message_db w)
      = (s, Ok (Some ins)) ->
    message_id ins = stored (Z.to_nat (uval i))
}.

(** ** The loops *)

Section loops.
Context `{ValidatorClients, !CheckpointSyncer A, !SyncerLaws (A := A), Keccak256, !ZeroHashes,
  Ethers, OverflowChecks}.
Context (self : ValidatorSubmitter A) (leaves : list H256) (stored : nat -> H256).
Context `{!ValidatorEnv (checkpoint_syncer self) (db_domain self) leaves stored}.
Local Abbreviation storage_step := (step (checkpoint_syncer self) leaves).
Local Abbreviation is_published w i := (is_Some (published (checkpoint_syncer self) w i)).

Lemma try_report_ok {T} (m : eff storage report T) w w' r :
  try_report m w = (w', Ok r) -> m w = (w', Ok r).
Proof.
  unfold try_report, eff_map_err. destruct (m w) as [w1 o]. intros [= <- Ho].
  by apply map_err_inv in Ho as ->.
Qed.

Lemma task_or_panic_ok {T} (o : option T) w w' r :
  @eff_lift storage ValidatorError T (or_panic o) w = (w', Ok r) -> w' = w /\ o = Some r.
Proof. unfold eff_lift. destruct o; intros; by simplify_eq/=. Qed.

Lemma task_lift {T U} (x : T) (f : T -> task U) w : (eff_lift (Ok x) ≫= f) w = f x w.
Proof. done. Qed.

Lemma sign_each_ok q w w' :
  Forall (honest leaves) q -> sign_each self q w = (w', Ok tt) ->
  storage_step w w' /\
  (storage_honest (checkpoint_syncer self) leaves w ->
   forall c, c ∈ q -> is_published w' (checkpoint_index (checkpoint c))).
Proof.
  revert w. induction q as [|c q IH]; intros w Hq Hs; cbn [sign_each] in Hs.
  { injection Hs as <-. split; [reflexivity|]. intros _ c Hc. by apply elem_of_nil in Hc. }
  apply Forall_cons in Hq as [Hc Hq]. apply eff_bind_ok in Hs as (w1 & o & Hf & Hs).
  apply try_report_ok, fetch_checkpoint_law in Hf as (_ & Hsame & Hf).
  assert (S1 : storage_step w w1) by by apply step_same.
  enough (exists w2, storage_step w1 w2 /\ sign_each self q w2 = (w', Ok tt) /\
    (storage_honest (checkpoint_syncer self) leaves w1 ->
     is_published w2 (checkpoint_index (checkpoint c)))) as (w2 & S2 & Hs2 & Hp).
  { destruct (IH w2 Hq Hs2) as [S3 Hall]. split; [by trans w1; [|trans w2]|].
    intros Hw d Hd. destruct (S1 Hw) as [Hw1 _]. destruct (S2 Hw1) as [Hw2 _].
    destruct (S3 Hw2) as [_ E3].
    apply elem_of_cons in Hd as [->|Hd]; [by apply E3, Hp|by apply Hall]. }
  destruct o as [e|].
  { exists w1. split; [reflexivity|]. split; [done|]. intros _. rewrite Hsame. eauto. }
  apply eff_bind_ok in Hs as (w2 & sc & Hsign & Hs). unfold sign in Hsign.
  apply eff_bind_ok in Hsign as (w2' & sig & Hsign & Hret). injection Hret as -> <-.
  apply try_report_ok, sign_step in Hsign as [S2 Hrec].
  apply eff_bind_ok in Hs as (w3 & [] & Hwr & Hs).
  apply try_report_ok, write_checkpoint_law in Hwr as [_ Hwr]. cbn [value] in Hwr.
  apply eff_bind_ok in Hs as (w4 & [] & Hsl & Hs). injection Hsl as <-.
  assert (S3 : storage_step w2 w3).
  { intros Hw. split.
    - intros i d. rewrite Hwr. case_decide as Hi; [|apply Hw]. intros [= <-].
      split; [by rewrite Hi|]. split; [exact Hc|exact Hrec].
    - intros i Hi. rewrite Hwr. case_decide; [by eexists|done]. }
  exists (sleep (10 ^ 8) w3). split; [trans w2; [done|trans w3; [done|apply sleep_step]]|].
  split; [done|]. intros Hw1. destruct (S2 Hw1) as [Hw2 _]. destruct (S3 Hw2) as [Hw3 _].
  apply (sleep_step (10 ^ 8) w3 Hw3). rewrite Hwr, decide_True by done. by eexists.
Qed.

(** What is queued while the leaves [k] are added to the tree over [l]. *)
Fixpoint queued (l k : list H256) : list CheckpointWithMessageId :=
  match k with
  | [] => []
  | e :: k =>
      MkCheckpointWithMessageId
        (MkCheckpoint hook_address hook_domain (tree_root 32 (l ++ [e]))
           (uwrap 4 (Z.of_nat (length l)))) e :: queued (l ++ [e]) k
  end.

Lemma incr_small tree l : incr_ok tree l -> 0 <= Z.of_nat (length l) < umax 4.
Proof.
  intros [_ Hs _ _]. pose proof (pow2_Z 32) as Hp. change (Z.of_nat 32) with 32 in Hp.
  change (umax 4) with (2 ^ 32). lia.
Qed.

Lemma count_small tree l :
  incr_ok tree l -> uval (uwrap 4 (count tree)) = Z.of_nat (length l).
Proof. intros Ht. rewrite (ok_count _ _ Ht). apply uval_uwrap_small, (incr_small _ _ Ht). Qed.

Lemma index_ok tree l :
  incr_ok tree l -> 0 < Z.of_nat (length l) ->
  Incremental.index tree = Some (uwrap 4 (Z.of_nat (length l) - 1)).
Proof.
  intros Ht Hl. unfold Incremental.index.
  rewrite (count_small _ _ Ht), (ok_count _ _ Ht), (proj2 (Z.ltb_lt _ _)) by done. done.
Qed.

Lemma tree_checkpoint_ok tree l :
  incr_ok tree l -> 0 < Z.of_nat (length l) ->
  tree_checkpoint tree = Some (MkCheckpoint hook_address hook_domain (tree_root 32 l)
    (uwrap 4 (Z.of_nat (length l) - 1))).
Proof.
  intros Ht Hl. unfold tree_checkpoint. by rewrite (incr_root _ _ Ht), (index_ok _ _ Ht).
Qed.

(** The next ids of the database, from the position [n]. *)
Definition next_ids (n k : nat) : list H256 := stored <$> seq n k.

Lemma length_next_ids n k : length (next_ids n k) = k.
Proof. unfold next_ids. by rewrite length_fmap, length_seq. Qed.

Context (stuck : forall T, task T).
Hypothesis stuck_fails : forall T w w' (r : T), stuck T w <> (w', Ok r).

Lemma ingest_until_ok fuel target tree l queue w w' tree' queue' :
  incr_ok tree l ->
  ingest_until stuck fuel self target tree queue w = (w', Ok (tree', queue')) ->
  exists k, incr_ok tree' (l ++ next_ids (length l) k) /\
    queue' = queue ++ queued l (next_ids (length l) k) /\
    uval target < Z.of_nat (length l + k) /\ storage_step w w'.
Proof.
  revert tree l queue w. induction fuel as [|fuel IH]; intros tree l queue w Ht Hi;
    cbn [ingest_until] in Hi; [by apply stuck_fails in Hi|].
  rewrite (count_small _ _ Ht) in Hi. destruct (Z.leb_spec (Z.of_nat (length l)) (uval target)).
  2: { injection Hi as <- <- <-. exists O. rewrite !app_nil_r, Nat.add_0_r. done. }
  apply eff_bind_ok in Hi as (w1 & o & Hd & Hi). unfold read_message_db in Hd.
  destruct (HyperlaneDB.retrieve_merkle_tree_insertion_by_leaf_index _ _ _) as [s r] eqn:Hrow.
  injection Hd as <- Hd. apply map_err_inv in Hd. cbn in Hd. subst r.
  destruct o as [ins|].
  2: { apply eff_bind_ok in Hi as (w2 & [] & Hs & Hi). injection Hs as <-.
       apply (IH _ _ _ _ Ht) in Hi as (k & ? & ? & ? & ?). exists k. split_and!; [done..|].
       trans (sleep (10 ^ 8) w); [apply sleep_step|done]. }
  apply (database_rows (leaves := leaves)) in Hrow.
  rewrite (count_small _ _ Ht), Nat2Z.id in Hrow.
  apply eff_bind_ok in Hi as (w2 & t1 & Hg & Hi). apply task_or_panic_ok in Hg as [-> Hg].
  apply eff_bind_ok in Hi as (w2 & c & Hc & Hi). apply task_or_panic_ok in Hc as [-> Hc].
  assert (Hlen : (S (length l) < 2 ^ 32)%nat).
  { destruct (decide (length l = 2 ^ 32 - 1)%nat) as [E|E].
    - by rewrite (incr_ingest_full _ _ _ Ht E) in Hg.
    - pose proof (ok_small _ _ Ht). lia. }
  destruct (incr_ingest _ _ (message_id ins) Ht Hlen) as (t2 & Hg' & Ht1).
  rewrite Hg' in Hg. injection Hg as ->.
  rewrite (tree_checkpoint_ok _ _ Ht1) in Hc by (rewrite length_app; cbn; lia).
  injection Hc as <-. apply (IH _ _ _ _ Ht1) in Hi as (k & Ht' & Hq & Hk & Hs).
  rewrite length_app in Ht', Hk, Hq. cbn [length] in Ht', Hk, Hq.
  exists (S k). rewrite Hq, Hrow in *.
  change (next_ids (length l) (S k)) with
    (stored (length l) :: next_ids (S (length l)) k).
  rewrite Nat.add_1_r in *. split_and!; [|cbn [queued]|lia|done].
  - by rewrite <- app_assoc in Ht'.
  - rewrite <- app_assoc. cbn [app].
    replace (Z.of_nat (S (length l)) - 1) with (Z.of_nat (length l)) by lia. done.
Qed.

Lemma queued_elem l k c :
  c ∈ queued l k ->
  exists k1 e k2, k = k1 ++ e :: k2 /\ c = MkCheckpointWithMessageId
    (MkCheckpoint hook_address hook_domain (tree_root 32 (l ++ k1 ++ [e]))
       (uwrap 4 (Z.of_nat (length (l ++ k1))))) e.
Proof.
  revert l. induction k as [|e k IH]; intros l Hc; [by apply elem_of_nil in Hc|].
  cbn [queued] in Hc. apply elem_of_cons in Hc as [->|Hc].
  - exists [], e, k. by rewrite app_nil_r.
  - destruct (IH _ Hc) as (k1 & e' & k2 & -> & ->). exists (e :: k1), e', k2.
    split; [done|]. by rewrite <- !app_assoc.
Qed.

Lemma queued_covers l k i :
  (length l <= i < length (l ++ k))%nat ->
  exists c, c ∈ queued l k /\ checkpoint_index (checkpoint c) = uwrap 4 (Z.of_nat i).
Proof.
  revert l. induction k as [|e k IH]; intros l Hi; rewrite length_app in Hi; cbn [length] in Hi;
    [lia|]. destruct (decide (i = length l)) as [->|Hn].
  - eexists. split; [left|done].
  - destruct (IH (l ++ [e])) as (c & Hc & E); [rewrite !length_app; cbn [length]; lia|].
    exists c. split; [by right|done].
Qed.

Lemma queued_honest l k :
  l ++ k `prefix_of` leaves -> Z.of_nat (length (l ++ k)) < umax 4 ->
  Forall (honest leaves) (queued l k).
Proof.
  intros [rest Hr] Hlen. apply Forall_forall. intros c Hc.
  apply queued_elem in Hc as (k1 & e & k2 & -> & ->).
  rewrite !length_app in Hlen. cbn [length] in Hlen.
  assert (Hi : Z.to_nat (uval (uwrap 4 (Z.of_nat (length (l ++ k1))))) = length (l ++ k1)).
  { rewrite uval_uwrap_small; [apply Nat2Z.id|]. rewrite length_app. lia. }
  assert (Hl : leaves = (l ++ k1) ++ e :: (k2 ++ rest)).
  { rewrite Hr, <- !app_assoc. done. }
  unfold honest, chain_checkpoint. cbn [checkpoint checkpoint_index checkpoint_message_id].
  rewrite Hi, Hl. split.
  - rewrite (take_S_r _ _ e) by (by apply list_lookup_middle).
    by rewrite take_app_length, <- app_assoc.
  - by apply list_lookup_middle.
Qed.

(** The database and the chain do not agree on the leaves, but on the root of some tree. *)
Definition forged : Prop :=
  exists n m, (n <= m <= length leaves)%nat /\
    take n leaves ++ next_ids n (m - n) <> take m leaves /\
    collision (tree_inputs 32 (leaf_at (take n leaves ++ next_ids n (m - n))))
      (tree_inputs 32 (leaf_at (take m leaves))).

Lemma submit_until_ok fuel tree n (i : u32) w w' tree' :
  incr_ok tree (take n leaves) -> (n <= length leaves)%nat ->
  uval i < Z.of_nat (length leaves) -> storage_honest (checkpoint_syncer self) leaves w ->
  submit_checkpoints_until_correctness_checkpoint stuck fuel self tree (chain_checkpoint leaves i) w
    = (w', Ok tree') ->
  forged \/
  (let m := S (Z.to_nat (uval i)) in
   (n <= m)%nat /\ incr_ok tree' (take m leaves) /\ storage_step w w' /\
   forall j : u32, (n <= Z.to_nat (uval j) < m)%nat -> is_published w' j).
Proof.
  intros Ht Hn Hi Hw Hs. unfold submit_checkpoints_until_correctness_checkpoint in Hs.
  apply eff_bind_ok in Hs as (w0 & ex & He & Hs). injection He as <- _.
  destruct ex; [done|]. apply eff_bind_ok in Hs as (w1 & [t1 q] & Hg & Hs).
  apply (ingest_until_ok _ _ _ _ _ _ _ _ _ Ht) in Hg as (k & Ht1 & Hq & Hk & S1).
  rewrite length_take, Nat.min_l in * by done.
  change (checkpoint_index (chain_checkpoint leaves i)) with i in *.
  apply eff_bind_ok in Hs as (w2 & ix & Hx & Hs). apply task_or_panic_ok in Hx as [-> Hx].
  set (got := take n leaves ++ next_ids n k) in *.
  assert (Hlen : length got = (n + k)%nat).
  { unfold got. rewrite length_app, length_next_ids, length_take. lia. }
  assert (Hcp : tree_checkpoint t1 = Some (MkCheckpoint hook_address hook_domain
    (tree_root 32 got) (uwrap 4 (Z.of_nat (length got) - 1)))).
  { apply tree_checkpoint_ok; [done|]. urange i. lia. }
  case_bool_decide as Hix; [done|]. apply eff_bind_ok in Hs as (w2 & cp & Hc & Hs).
  apply task_or_panic_ok in Hc as [-> Hc]. rewrite Hcp in Hc. injection Hc as <-.
  case_bool_decide as Hcc; [done|].
  pose proof (f_equal checkpoint_root Hcc) as Hroot. pose proof (f_equal checkpoint_index Hcc) as Hidx.
  cbn [checkpoint_root checkpoint_index chain_checkpoint] in Hroot, Hidx.
  pose proof (incr_small _ _ Ht1) as Hsm. fold got in Hsm. urange i.
  assert (Hm : (n + k)%nat = S (Z.to_nat (uval i))).
  { apply (f_equal uval) in Hidx. rewrite uval_uwrap_small in Hidx; lia. }
  rewrite <- Hm in *. apply tree_root_sound in Hroot;
    [|rewrite length_take; lia|exact (Nat.lt_le_incl _ _ (ok_small _ _ Ht1))].
  destruct (decide (got = take (n + k) leaves)) as [Heq|Hne].
  2: { left. destruct Hroot as [|Hc]; [done|]. exists n, (n + k)%nat.
       replace (n + k - n)%nat with k by lia. split; [lia|]. done. }
  right. cbn zeta. apply eff_bind_ok in Hs as (w3 & [] & Hsub & Hs). injection Hs as <- <-.
  split; [lia|]. split; [by rewrite <- Heq|].
  destruct k as [|k].
  { assert (q = []) as -> by done. rewrite bool_decide_eq_true_2 in Hsub by done.
    injection Hsub as <-. split; [done|]. lia. }
  rewrite bool_decide_eq_false_2 in Hsub by (by rewrite Hq). cbn [app] in Hq.
  unfold sign_and_submit_checkpoints in Hsub.
  apply eff_bind_ok in Hsub as (w4 & lc & Hl & Hsub). apply task_or_panic_ok in Hl as [-> _].
  apply eff_bind_ok in Hsub as (w5 & [] & Heach & Hsub).
  apply sign_each_ok in Heach as [S2 Hall].
  2: { rewrite Hq. apply queued_honest; fold got; [|lia]. rewrite Heq. apply prefix_take. }
  apply try_report_ok, update_latest_step with (leaves := leaves) in Hsub as S3.
  assert (S123 : storage_step w w3) by (trans w1; [done|trans w5; done]).
  split; [done|]. intros j Hj. destruct (S1 Hw) as [Hw1 _]. destruct (S2 Hw1) as [Hw5 _].
  apply (S3 Hw5). destruct (queued_covers (take n leaves) (next_ids n (S k)) (Z.to_nat (uval j)))
    as (c & Hcq & Hcj).
  { fold got. rewrite Hlen, length_take. lia. }
  rewrite <- Hq in Hcq. specialize (Hall Hw1 c Hcq). rewrite Hcj in Hall. urange j.
  rewrite Z2Nat.id, uwrap_uval in Hall by lia. done.
Qed.
End loops.


Section tasks.
Context `{ValidatorClients, !CheckpointSyncer A, !SyncerLaws (A := A), Keccak256, !ZeroHashes,
  Ethers, OverflowChecks}.
Context (self : ValidatorSubmitter A) (leaves : list H256) (stored : nat -> H256).
Context `{!ValidatorEnv (checkpoint_syncer self) (db_domain self) leaves stored}.
Local Abbreviation is_published w i := (is_Some (published (checkpoint_syncer self) w i)).
Local Abbreviation honest_storage := (storage_honest (checkpoint_syncer self) leaves).
Local Abbreviation storage_step := (step (checkpoint_syncer self) leaves).

Section safety.
Context (stuck : forall T, task T).
Hypothesis stuck_fails : forall T w w' (r : T), stuck T w <> (w', Ok r).

(** What a submitter has done that held the first [n] leaves: it holds the first [m], the
    storage is as honest as before and has the checkpoints in between. *)
Definition caught_up (n m : nat) (tree : IncrementalMerkle) (w w' : storage) : Prop :=
  (n <= m <= length leaves)%nat /\ incr_ok tree (take m leaves) /\ honest_storage w' /\
  extends (checkpoint_syncer self) w w' /\
  forall j : u32, (n <= Z.to_nat (uval j) < m)%nat -> is_published w' j.

Lemma caught_up_trans n m m' t t' w w' w'' :
  caught_up n m t w w' -> caught_up m m' t' w' w'' -> caught_up n m' t' w w''.
Proof.
  intros (Hn & _ & _ & E & P) (Hm & Ht & Hw & E' & P'). split; [lia|]. split; [done|].
  split; [done|]. split; [intros i Hi; by apply E', E|]. intros j Hj.
  destruct (decide (Z.to_nat (uval j) < m)%nat); [apply E', P|apply P']; lia.
Qed.

Lemma caught_up_refl n t w :
  (n <= length leaves)%nat -> incr_ok t (take n leaves) -> honest_storage w ->
  caught_up n n t w w.
Proof.
  intros Hn Ht Hw. split; [lia|]. do 2 (split; [done|]). split; [by intros i|]. intros j Hj. lia.
Qed.

Lemma submit_caught_up fuel tree n (i : u32) w w' tree' :
  incr_ok tree (take n leaves) -> (n <= length leaves)%nat ->
  uval i < Z.of_nat (length leaves) -> honest_storage w ->
  submit_checkpoints_until_correctness_checkpoint stuck fuel self tree (chain_checkpoint leaves i) w
    = (w', Ok tree') ->
  forged leaves stored \/ caught_up n (S (Z.to_nat (uval i))) tree' w w'.
Proof.
  intros Ht Hn Hi Hw Hs.
  destruct (submit_until_ok self leaves stored stuck stuck_fails _ _ _ _ _ _ _ Ht Hn Hi Hw Hs)
    as [|(Hm & Ht' & S1 & Hp)]; [by left|right]. urange i.
  destruct (S1 Hw) as [Hw' E]. split; [lia|]. done.
Qed.

Lemma sleep_caught_up n t d w :
  (n <= length leaves)%nat -> incr_ok t (take n leaves) -> honest_storage w ->
  caught_up n n t w (sleep d w).
Proof.
  intros Hn Ht Hw. destruct (sleep_step (leaves := leaves) d w Hw) as [Hw' E].
  split; [lia|]. do 3 (split; [done|]). intros j Hj. lia.
Qed.

Lemma round_caught_up fuel tree n w w' tree' :
  incr_ok tree (take n leaves) -> (n <= length leaves)%nat -> honest_storage w ->
  submitter_round stuck fuel self tree w = (w', Ok tree') ->
  forged leaves stored \/ exists m, caught_up n m tree' w w'.
Proof.
  intros Ht Hn Hw Hr. unfold submitter_round in Hr.
  apply eff_bind_ok in Hr as (w1 & c & Hc & Hr). apply try_report_ok, chain_step in Hc
    as (S1 & Hc & Hi). destruct (S1 Hw) as [Hw1 E1].
  assert (C1 : caught_up n n tree w w1).
  { split; [lia|]. do 3 (split; [done|]). intros j Hj. lia. }
  apply eff_bind_ok in Hr as (w2 & ex & He & Hr). injection He as <- _. destruct ex.
  - apply eff_bind_ok in Hr as (w2 & [] & Hs & Hr). injection Hs as <-. injection Hr as <- <-.
    right. exists n. eapply caught_up_trans; [exact C1|by apply sleep_caught_up].
  - apply eff_bind_ok in Hr as (w2 & t2 & Hs & Hr). rewrite Hc in Hs.
    apply submit_caught_up with (n := n) in Hs as [|C2]; [by left| |done..].
    apply eff_bind_ok in Hr as (w3 & [] & Hsl & Hr). injection Hsl as <-. injection Hr as <- <-.
    right. eexists. eapply caught_up_trans; [exact C1|]. eapply caught_up_trans; [exact C2|].
    destruct C2 as (? & ? & ? & _). apply sleep_caught_up; [lia|done|done].
Qed.

Lemma rounds_caught_up rounds fuel tree n w w' tree' :
  incr_ok tree (take n leaves) -> (n <= length leaves)%nat -> honest_storage w ->
  checkpoint_submitter stuck rounds fuel self tree w = (w', Ok tree') ->
  forged leaves stored \/ exists m, caught_up n m tree' w w'.
Proof.
  revert tree n w. induction rounds as [|rounds IH]; intros tree n w Ht Hn Hw Hr;
    cbn [checkpoint_submitter] in Hr.
  - injection Hr as <- <-. right. exists n. by apply caught_up_refl.
  - apply eff_bind_ok in Hr as (w1 & t1 & Hr1 & Hr).
    destruct (round_caught_up _ _ _ _ _ _ Ht Hn Hw Hr1) as [|[m C]]; [by left|].
    pose proof C as (Hm & Ht1 & Hw1 & _).
    destruct (IH t1 m w1 Ht1 (proj2 Hm) Hw1 Hr) as [|[m' C']]; [by left|].
    right. exists m'. by eapply caught_up_trans.
Qed.

(** Where the two tasks start: the tree of the first [n] leaves, at least one, and the chain's
    checkpoint of the last of them. *)
Lemma tasks_start w w1 tip target :
  honest_storage w -> run_checkpoint_submitters self w = (w1, Ok (tip, target)) ->
  exists n, (n <= length leaves)%nat /\ incr_ok tip (take n leaves) /\
    uval (count tip) = Z.of_nat n /\ target = chain_checkpoint leaves (uwrap 4 (Z.of_nat n - 1)) /\
    (S (Z.to_nat (uval (uwrap 4 (Z.of_nat n - 1)))) = n /\
     uval (uwrap 4 (Z.of_nat n - 1)) < Z.of_nat (length leaves)) /\ honest_storage w1.
Proof.
  intros Hw Hrun. unfold run_checkpoint_submitters in Hrun.
  apply eff_bind_ok in Hrun as (w0 & t & Htree & Hrun).
  destruct (hook_tree (reorg_period self) w) as [w0' r] eqn:Hhook.
  assert (Hok : r = Ok t /\ w0' = w0) by (destruct r; by simplify_eq/=). destruct Hok as [-> ->].
  apply tree_step in Hhook as [S0 (n & Hn & Ht)]. destruct (S0 Hw) as [Hw0 _].
  assert (Hlen : length (take n leaves) = n) by (rewrite length_take; lia).
  pose proof (ok_count _ _ Ht) as Hc. rewrite Hlen in Hc.
  case_match eqn:Hz; [done|]. apply Z.eqb_neq in Hz.
  apply eff_bind_ok in Hrun as (w1' & bt & Hbt & Hrun). apply task_or_panic_ok in Hbt as [-> Hbt].
  injection Hrun as <- <- <-.
  pose proof (incr_small _ _ Ht) as Hsm. rewrite Hlen in Hsm.
  assert (Hi : uval (uwrap 4 (Z.of_nat n - 1)) = Z.of_nat n - 1) by (apply uval_uwrap_small; lia).
  rewrite (tree_checkpoint_ok _ _ Ht), Hlen in Hbt by lia.
  exists n. do 3 (split; [done|]). unfold chain_checkpoint. rewrite Hi.
  replace (S (Z.to_nat (Z.of_nat n - 1))) with n by lia.
  split; [congruence|]. split; [lia|done].
Qed.

Lemma caught_up_step n m tree w w' : caught_up n m tree w w' -> storage_step w w'.
Proof. by intros (_ & _ & Hw' & E & _). Qed.

(** What each of the tasks has done. *)
Lemma backfill_caught_up fuel w w1 wb wb' tip target full :
  honest_storage w -> run_checkpoint_submitters self w = (w1, Ok (tip, target)) ->
  storage_step w1 wb -> backfill_checkpoint_submitter stuck fuel self target wb = (wb', Ok full) ->
  forged leaves stored \/ caught_up 0 (Z.to_nat (uval (count tip))) full wb wb'.
Proof.
  intros Hw Hrun Sb Hback.
  destruct (tasks_start _ _ _ _ Hw Hrun) as (n & Hn & Ht & -> & -> & [Hi Hl] & Hw1).
  destruct (Sb Hw1) as [Hwb _]. rewrite Nat2Z.id, <- Hi at 1.
  by apply (submit_caught_up fuel Incremental.default 0 _ _ _ _ incr_ok_default (Nat.le_0_l _)).
Qed.

Lemma tip_caught_up rounds fuel w w1 wt wt' tip target tree :
  honest_storage w -> run_checkpoint_submitters self w = (w1, Ok (tip, target)) ->
  storage_step w1 wt -> checkpoint_submitter stuck rounds fuel self tip wt = (wt', Ok tree) ->
  forged leaves stored \/ exists m, caught_up (Z.to_nat (uval (count tip))) m tree wt wt'.
Proof.
  intros Hw Hrun St Htip.
  destruct (tasks_start _ _ _ _ Hw Hrun) as (n & Hn & Ht & -> & _ & _ & Hw1).
  destruct (St Hw1) as [Hwt _]. rewrite Nat2Z.id. by eapply rounds_caught_up.
Qed.
End safety.

(** C5. The two tasks that [run_checkpoint_submitters] starts publish every checkpoint of the chain and
    only right ones, however they are interleaved. Both start from one world [w1]; the backfill
    takes place between [wb] and [wb'], any number of rounds at the tip between [wt] and [wt'],
    and [wf] is any later world. Up to each start, at every wait and up to [wf] the rest of the
    agent may act, as long as it keeps the storage honest and removes nothing ([step]); each of
    the two tasks is itself such a step, so each can be the environment of the other. Then [wf]
    holds, for the first [m] leaves of the chain's hook and at least for those of its tree at the
    start, the checkpoint after each leaf with that leaf's message id under the leaf's index,
    signed by the validator, and under no index anything else than the chain's checkpoint of that
    index; otherwise the database holds ids that are not the chain's and two hashed nodes of the
    two trees collide. It is a theorem on the tasks: [Validator::run] of this version only
    announces, its call of [run_checkpoint_submitters] is commented out. *)
Theorem validator_publishes (stuck : forall T, task T)
    (stuck_fails : forall T w w' (r : T), stuck T w <> (w', Ok r))
    (rounds fuel : nat) (w w1 wb wb' wt wt' wf : storage) (tip full tree : IncrementalMerkle)
    (target : Checkpoint) (Hw : honest_storage w)
    (Hrun : run_checkpoint_submitters self w = (w1, Ok (tip, target)))
    (Sb : storage_step w1 wb) (St : storage_step w1 wt)
    (Hback : backfill_checkpoint_submitter stuck fuel self target wb = (wb', Ok full))
    (Htip : checkpoint_submitter stuck rounds fuel self tip wt = (wt', Ok tree))
    (Sbf : storage_step wb' wf) (Stf : storage_step wt' wf) :
  forged leaves stored \/
  storage_step wb wb' /\ storage_step wt wt' /\
  exists m, uval (count tip) <= Z.of_nat m <= Z.of_nat (length leaves) /\
    incr_ok tree (take m leaves) /\
    forall j : u32,
      match published (checkpoint_syncer self) wf j with
      | Some c => checkpoint_index (checkpoint (value c)) = j /\ honest leaves (value c) /\
          recover c = Some eth_address
      | None => Z.of_nat m <= uval j
      end.
Proof.
  destruct (backfill_caught_up stuck stuck_fails _ _ _ _ _ _ _ _ Hw Hrun Sb Hback) as [|Cb];
    [by left|].
  destruct (tip_caught_up stuck stuck_fails _ _ _ _ _ _ _ _ _ Hw Hrun St Htip) as [|[m Ct]];
    [by left|right].
  split; [by eapply caught_up_step|]. split; [by eapply caught_up_step|].
  destruct Cb as (_ & _ & Hwb' & _ & Pb), Ct as (Hm & Htr & Hwt' & _ & Pt).
  destruct (Sbf Hwb') as [Hwf Eb], (Stf Hwt') as [_ Et].
  exists m. split; [lia|]. split; [done|]. intros j.
  destruct (published _ wf j) as [c|] eqn:Hj; [by apply Hwf|].
  destruct (Z.le_gt_cases (Z.of_nat m) (uval j)); [done|]. urange j.
  assert (Hp : is_published wf j).
  { destruct (decide (uval j < uval (count tip))); [apply Eb, Pb|apply Et, Pt]; lia. }
  rewrite Hj in Hp. by destruct Hp.
Qed.

(** ** The loops end *)

Section progress.
Context (lag : storage -> nat).
(** The indexer makes progress: each wait reduces what it lags by, and it has the rows of the
    hook's leaves when it lags by nothing. *)
Hypothesis sleep_lag : forall w, (lag (sleep (10 ^ 8)%Z w) <= pred (lag w))%nat.
Hypothesis read_lag : forall w (i : u32), uval i < Z.of_nat (length leaves) ->
  exists s o, HyperlaneDB.retrieve_merkle_tree_insertion_by_leaf_index (db_domain self) i
    (message_db w) = (s, Ok o) /\ (lag w = O -> is_Some o).

(** Only waits for the indexer lead from [w] to [w'], at most as many as it lags by. *)
Definition waited (w w' : storage) : Prop :=
  exists k, (k <= lag w)%nat /\ w' = Nat.iter k (sleep (10 ^ 8)) w.

Lemma waited_refl w : waited w w.
Proof. exists O. split; [lia|done]. Qed.

Lemma waited_sleep w w' : lag w <> O -> waited (sleep (10 ^ 8) w) w' -> waited w w'.
Proof.
  intros Hlag (k & Hk & ->). exists (S k). pose proof (sleep_lag w).
  split; [lia|]. by rewrite Nat.iter_succ_r.
Qed.

Lemma ingest_until_ends fuel target tree l queue w :
  incr_ok tree l -> uval target < Z.of_nat (length leaves) -> uval target + 1 < umax 4 ->
  (S (S (Z.to_nat (uval target)) - length l + lag w) <= fuel)%nat ->
  exists w' tree' k, incr_ok tree' (l ++ next_ids stored (length l) k) /\
    k = (S (Z.to_nat (uval target)) - length l)%nat /\ waited w w' /\
    forall stuck, ingest_until stuck fuel self target tree queue w =
      (w', Ok (tree', queue ++ queued l (next_ids stored (length l) k))).
Proof.
  intros Ht Htl Ht4 Hf. urange target. revert tree l queue w Ht Hf.
  induction fuel as [|fuel IH]; intros tree l queue w Ht Hf; [lia|].
  cbn [ingest_until]. rewrite (count_small _ _ Ht).
  destruct (Z.leb_spec (Z.of_nat (length l)) (uval target)) as [Hle|Hgt].
  2: { exists w, tree, O. change (next_ids stored (length l) 0) with (@nil H256).
       cbn [queued]. rewrite !app_nil_r. split; [done|]. split; [lia|].
       split; [apply waited_refl|done]. }
  assert (Hi : uval (uwrap 4 (count tree)) = Z.of_nat (length l)) by by apply count_small.
  destruct (read_lag w (uwrap 4 (count tree))) as (s & o & Hrow & Hlag); [rewrite Hi; lia|].
  assert (Hr : forall T (f : _ -> task T), (read_message_db
    (HyperlaneDB.retrieve_merkle_tree_insertion_by_leaf_index (db_domain self)
       (uwrap 4 (count tree))) ≫= f) w = f o w).
  { intros T f. apply eff_bind_eq. unfold read_message_db. by rewrite Hrow. }
  destruct o as [ins|].
  - apply (database_rows (leaves := leaves)) in Hrow. rewrite Hi, Nat2Z.id in Hrow.
    destruct (incr_ingest _ _ (message_id ins) Ht) as (t1 & Hg & Ht1).
    { pose proof (pow2_Z 32) as Hp. change (Z.of_nat 32) with 32 in Hp.
      change (umax 4) with (2 ^ 32) in Ht4. lia. }
    assert (Hl1 : length (l ++ [message_id ins]) = S (length l)).
    { rewrite length_app. cbn [length]. lia. }
    pose proof (tree_checkpoint_ok _ _ Ht1) as Hc. rewrite Hl1 in Hc.
    destruct (IH t1 _ (queue ++ [MkCheckpointWithMessageId (MkCheckpoint hook_address hook_domain
      (tree_root 32 (l ++ [message_id ins])) (uwrap 4 (Z.of_nat (S (length l)) - 1)))
      (message_id ins)]) w Ht1) as (w' & t' & k & Ht' & Hk & Hwait & Hall); [rewrite Hl1; lia|].
    rewrite Hl1, <- !app_assoc in Ht'. rewrite Hl1 in Hk, Hall.
    exists w', t', (S k). change (next_ids stored (length l) (S k)) with
      (stored (length l) :: next_ids stored (S (length l)) k). rewrite <- Hrow.
    split; [done|]. split; [lia|]. split; [exact Hwait|]. intros stuck. rewrite Hr.
    cbn [message_id].
    rewrite Hg. cbn [or_panic]. rewrite task_lift, Hc by lia. cbn [or_panic].
    rewrite task_lift, Hall, <- app_assoc. cbn [app queued].
    replace (Z.of_nat (S (length l)) - 1) with (Z.of_nat (length l)) by lia. done.
  - assert (lag w <> O) by (intros E; by destruct (Hlag E)).
    pose proof (sleep_lag w). destruct (IH tree l queue (sleep (10 ^ 8) w) Ht)
      as (w' & t' & k & Ht' & Hk & Hwait & Hall); [lia|].
    exists w', t', k. do 2 (split; [done|]). split; [by apply waited_sleep|].
    intros stuck. rewrite Hr.
    rewrite <- (Hall stuck). done.
Qed.

(** C23. A round ends, and how: with fuel for the leaves that are missing and the waits for the
    indexer, whatever stands for an exceeded wait, a submitter that holds the first [n] leaves
    reaches the chain's checkpoint [i] with the ids of the database, in the world that is left
    after at most as many waits of 100 ms as the indexer lags by and nothing else, so that
    nothing has been signed, fetched or written. When their root is not the chain's it fails
    there, with the message of [bail!]; otherwise it signs and submits from there one checkpoint
    per new leaf, in order, and returns the longer tree. No assertion fails and nothing panics
    before. *)
Theorem submit_until_ends (fuel n : nat) (i : u32) (tree : IncrementalMerkle) (w : storage)
    (Ht : incr_ok tree (take n leaves)) (Hn : Z.of_nat n <= uval i + 1)
    (Hi : uval i < Z.of_nat (length leaves)) (Hmax : uval i + 1 < umax 4)
    (Hfuel : (S (S (Z.to_nat (uval i)) - n + lag w) <= fuel)%nat) :
  exists w' tree', let ids := next_ids stored n (S (Z.to_nat (uval i)) - n) in
    incr_ok tree' (take n leaves ++ ids) /\
    (exists k, (k <= lag w)%nat /\ w' = Nat.iter k (sleep (10 ^ 8)) w) /\
    forall stuck,
      submit_checkpoints_until_correctness_checkpoint stuck fuel self tree
        (chain_checkpoint leaves i) w =
      if decide (tree_root 32 (take n leaves ++ ids) =
                 tree_root 32 (take (S (Z.to_nat (uval i))) leaves))
      then ((if decide (ids = []) then mret tt
             else sign_and_submit_checkpoints self (queued (take n leaves) ids));;
            mret tree') w'
      else (w', Err IncorrectTreeRoot).
Proof.
  assert (Hlen : length (take n leaves) = n) by (rewrite length_take; lia).
  destruct (ingest_until_ends fuel i tree (take n leaves) [] w Ht Hi Hmax) as
    (w' & t' & k & Ht' & Hk & Hwait & Hall); [rewrite Hlen; lia|].
  rewrite Hlen in Ht', Hk, Hall. exists w', t'. rewrite <- Hk. cbn zeta. split; [done|].
  split; [exact Hwait|]. intros stuck. unfold submit_checkpoints_until_correctness_checkpoint. urange i.
  assert (Hex : tree_exceeds_checkpoint (chain_checkpoint leaves i) tree = Ok false).
  { unfold tree_exceeds_checkpoint. cbn [checkpoint_index chain_checkpoint].
    rewrite arith_fits, (count_small _ _ Ht), Hlen by lia. cbn [mbind outcome_bind].
    by rewrite uval_uwrap_small, (proj2 (Z.ltb_ge _ _)) by lia. }
  rewrite Hex. etrans; [by apply (eff_bind_eq _ _ w w false)|]. cbn iota beta.
  cbn [checkpoint_index chain_checkpoint].
  rewrite (eff_bind_eq _ _ _ _ _ (Hall stuck)). cbn [app].
  set (got := take n leaves ++ next_ids stored n k) in *.
  assert (Hgot : Z.of_nat (length got) - 1 = uval i).
  { unfold got. rewrite length_app, length_next_ids, Hlen. lia. }
  rewrite (index_ok _ _ Ht'), (tree_checkpoint_ok _ _ Ht'), Hgot, uwrap_uval by lia.
  cbn [or_panic]. etrans; [by apply (eff_bind_eq _ _ w' w' i)|]. cbn beta.
  rewrite bool_decide_eq_false_2 by (intros E; by apply E).
  etrans; [by eapply (eff_bind_eq _ _ w' w')|]. cbn beta. case_decide as Hroot.
  - rewrite bool_decide_eq_false_2; [|intros E; apply E; unfold chain_checkpoint; congruence].
    apply eff_bind_ext_l. case_decide as Hids.
    + by rewrite Hids, bool_decide_eq_true_2.
    + rewrite bool_decide_eq_false_2; [done|]. by destruct (next_ids stored n k).
  - rewrite bool_decide_eq_true_2; [done|]. intros E. apply Hroot.
    by apply (f_equal checkpoint_root) in E.
Qed.
End progress.
End tasks.

(** ** Announcing *)

Section announcing.
Context `{ValidatorClients, !CheckpointSyncer A, Keccak256}.
Context (stuck : forall T, task T).
Hypothesis stuck_fails : forall T w w' (r : T), stuck T w <> (w', Ok r).

Lemma announce_loop_sound fuel interval location signed w w' :
  announce_loop stuck fuel interval location signed w = (w', Ok tt) ->
  exists w1 locations rest,
    announced_locations [H256_from_H160 eth_address] w1 = (w', Ok (locations :: rest)) /\
    location ∈ locations.
Proof.
  revert w. induction fuel as [|fuel IH]; intros w Hl; cbn [announce_loop] in Hl;
    [by apply stuck_fails in Hl|].
  apply eff_bind_ok in Hl as (w1 & ls & Hls & Hl). apply try_report_ok in Hls.
  destruct ls as [|l rest]; cbn [head] in Hl; [by apply IH in Hl|].
  case_bool_decide as Hin; [injection Hl as <-; eauto|].
  apply eff_bind_ok in Hl as (w2 & s & _ & Hl). apply eff_bind_ok in Hl as (w3 & [] & _ & Hl).
  apply eff_bind_ok in Hl as (w4 & [] & _ & Hl). by apply IH in Hl.
Qed.

(** [announce] returns only when the validator can be found: it has signed an announcement with
    its own address, the mailbox and the location of its storage, has written it to that
    storage, and the last thing it saw of the chain is its location among those announced. *)
Theorem announce_found (fuel : nat) (interval : Duration) (syncer : A) (w w' : storage)
    (Hann : announce stuck fuel interval syncer w = (w', Ok tt)) :
  let location := announcement_location syncer in
  let announcement := MkAnnouncement eth_address mailbox mailbox_domain_id (bstr location) in
  exists w1 sig w2 w3 locations rest,
    sign_hash (signing_hash announcement) w = (w1, Ok sig) /\
    write_announcement syncer (MkSignedType announcement sig) w1 = (w2, Ok tt) /\
    announced_locations [H256_from_H160 eth_address] w3 = (w', Ok (locations :: rest)) /\
    location ∈ locations.
Proof.
  intros location announcement. unfold announce in Hann.
  apply eff_bind_ok in Hann as (w1 & sig & Hs & Hann).
  apply eff_bind_ok in Hann as (w2 & [] & Hwr & Hann).
  apply announce_loop_sound in Hann as (w3 & ls & rest & Hl & Hin).
  apply try_report_ok in Hs, Hwr. exists w1, sig, w2, w3, ls, rest. done.
Qed.
End announcing.

(** ** A validator of two leaves: the theorems on the validator at concrete inputs

    The database is empty until the first wait and then holds the two insertions; the signer
    signs with a fixed signature, whose [r] is the signer's address. *)

Module ValidatorModel.
Import StorageModel DatabaseModel.
#[export] Existing Instance keccak_concrete.
#[export] Instance checks : OverflowChecks := false.
#[export] Instance zero_hashes : ZeroHashes := zero_hashes_concrete.
#[export] Instance ethers : Ethers := λ sig _, Some (uwrap 20 (uval (u256 (r sig)))).

Definition leaves : list H256 := [uwrap 32 3; uwrap 32 5].
Definition insertion (i : Z) : MerkleTreeInsertion :=
  MkMerkleTreeInsertion (uwrap 4 i) (leaves !!! Z.to_nat i).
Definition contents : gmap bytes bytes :=
  <[entry_key origin (InsertionRow (uwrap 4 0)) := to_vec (insertion 0)]>
    (<[entry_key origin (InsertionRow (uwrap 4 1)) := to_vec (insertion 1)]> ∅).
Definition rows : rocks := contents.

Definition no_rows : rocks := ∅.

Definition synced (w : StorageModel.memory) : bool := bool_decide (is_Some (files w !! "synced"%string)).
Definition tree_of (n : nat) : IncrementalMerkle :=
  default Incremental.default (incremental_all Incremental.default (take n leaves)).
Definition signature : Codec.Signature :=
  MkSignature (MkU256 (uwrap 32 7)) (MkU256 (uwrap 32 5)) (uwrap 8 28).

Definition tip_checkpoint : Checkpoint :=
  MkCheckpoint (uwrap 32 1) (uwrap 4 9)
    (default (uwrap 32 0) (Incremental.root (tree_of 2))) (uwrap 4 1).

#[export] Instance clients : ValidatorClients := {|
  hook_address := uwrap 32 1;
  hook_domain := uwrap 4 9;
  latest_checkpoint _ w := (w, Ok tip_checkpoint);
  hook_tree _ w := (w, Ok (tree_of 1));
  eth_address := uwrap 20 7;
  sign_hash _ w := (w, Ok signature);
  message_db w := if synced w then rows else no_rows;
  sleep _ w := MkMemory (<["synced"%string := []]> (files w)) (objects w);
  mailbox := uwrap 32 2;
  mailbox_domain_id := uwrap 4 9;
  announced_locations _ w := (w, Ok [["file:///v"%string]]);
  chain_signer w := (w, Ok None);
  announce_tokens_needed _ w := (w, None);
  announce_on_chain _ w := (w, Ok tt)
|}.

Definition self : ValidatorSubmitter LocalStorage :=
  ValidatorSubmitter_new 5 (uwrap 8 0) (MkLocalStorage "/v") origin.
Definition stored (i : nat) : H256 := leaves !!! i.
Definition stuck (T : Type) : task T := eff_lift Panic.
Definition world : storage := MkMemory ∅ ∅.

Lemma stuck_fails T w w' (r : T) : stuck T w <> (w', Ok r).
Proof. discriminate. Qed.

Lemma tree_of_ok n : (n <= 2)%nat -> incr_ok (tree_of n) (take n leaves).
Proof.
  intros Hn. unfold tree_of.
  destruct (incremental_all_ok Incremental.default [] (take n leaves) incr_ok_default)
    as (t & -> & Ht); [|exact Ht].
  cbn [app]. rewrite length_take. apply Nat.le_lt_trans with 2%nat.
  - change (length leaves) with 2%nat. lia.
  - change 2%nat with (2 ^ 1)%nat at 1. apply Nat.pow_lt_mono_r; lia.
Qed.

#[export] Instance insertion_stored : Stored MerkleTreeInsertion := FixedCodec_Stored.

Lemma row_found i s ins :
  HyperlaneDB.retrieve_merkle_tree_insertion_by_leaf_index origin i rows = (s, Ok (Some ins)) ->
  message_id ins = stored (Z.to_nat (uval i)).
Proof.
  intros Hr. apply retrieve_decodable_ok in Hr as [_ Hr]. symmetry in Hr.
  change (row (V := MerkleTreeInsertion) origin (InsertionRow i) rows = Some ins) in Hr.
  unfold rows, contents in Hr. rewrite (row_insert (H3 := insertion_stored) origin) in Hr.
  case_decide as E.
  { injection E as ->. injection Hr as <-. reflexivity. }
  rewrite (row_insert (H3 := insertion_stored) origin) in Hr.
  case_decide as E'; [|discriminate].
  injection E' as ->. injection Hr as <-. reflexivity.
Qed.

Lemma row_none i s ins :
  HyperlaneDB.retrieve_merkle_tree_insertion_by_leaf_index origin i no_rows <> (s, Ok (Some ins)).
Proof.
  intros Hr. apply retrieve_decodable_ok in Hr as [_ Hr].
  change (rocks_contents no_rows) with (∅ : gmap bytes bytes) in Hr.
  by rewrite lookup_empty in Hr.
Qed.

Lemma returned {T} (w w' : storage) (x y : T) :
  (w, Ok (E := report) x) = (w', Ok y) -> w = w' /\ x = y.
Proof. by intros [= -> ->]. Qed.

Lemma tip_honest : tip_checkpoint = chain_checkpoint leaves (checkpoint_index tip_checkpoint).
Proof.
  unfold chain_checkpoint, tip_checkpoint. cbn [checkpoint_index].
  rewrite (incr_root _ _ (tree_of_ok 2 (le_n 2))). reflexivity.
Qed.

Lemma published_sleep d w i :
  published (MkLocalStorage "/v") (sleep d w) i = published (MkLocalStorage "/v") w i.
Proof.
  cbn. unfold local_published. cbn. rewrite lookup_insert_ne; [done|]. discriminate.
Qed.

#[export] Instance env : ValidatorEnv (checkpoint_syncer self) (db_domain self) leaves stored.
Proof.
  split.
  - intros h w w' sig [= <- <-]. split; [reflexivity|done].
  - intros d w. apply step_same. intros i. apply published_sleep.
  - intros p w w' c Hc. apply returned in Hc as [<- <-]. split; [reflexivity|].
    split; [apply tip_honest|done].
  - intros p w w' t Ht. apply returned in Ht as [<- <-]. split; [reflexivity|].
    exists 1%nat. split; [change (length leaves) with 2%nat; lia|]. apply tree_of_ok. lia.
  - intros i w s ins Hr. cbn in Hr. destruct (synced w); [by eapply row_found|].
    by apply row_none in Hr.
Qed.

Lemma honest_empty : storage_honest (checkpoint_syncer self) leaves world.
Proof. intros i c Hc. cbn in Hc. unfold local_published in Hc. cbn in Hc.
  by rewrite lookup_empty in Hc. Qed.

Definition succeeds {T} (m : storage * outcome ValidatorError T) : bool :=
  match m with (_, Ok _) => true | _ => false end.

Lemma run_succeeds {T} (m : task T) w : succeeds (m w) = true -> exists w' r, m w = (w', Ok r).
Proof. intros Hs. destruct (m w) as [w' [r|e|]]; try discriminate. eauto. Qed.

(** What the indexer lags by, in waits. *)
Definition lag (w : storage) : nat := if synced w then 0 else 1.

Lemma sleep_lag w : (lag (sleep (10 ^ 8)%Z w) <= pred (lag w))%nat.
Proof.
  change (lag (sleep (10 ^ 8) w)) with
    (lag (MkMemory (<["synced"%string := []]> (files w)) (objects w))).
  unfold lag, synced. cbn [files]. rewrite lookup_insert_eq, bool_decide_eq_true_2 by (by eexists).
  lia.
Qed.

Lemma row_read i ins :
  contents !! entry_key origin (InsertionRow i) = Some (to_vec (ins : MerkleTreeInsertion)) ->
  HyperlaneDB.retrieve_merkle_tree_insertion_by_leaf_index origin i rows = (rows, Ok (Some ins)).
Proof.
  intros Hr. unfold HyperlaneDB.retrieve_merkle_tree_insertion_by_leaf_index,
    retrieve_keyed_decodable, retrieve_decodable, mbind, eff_bind, retrieve, eff_lift.
  change (rocks_get (prefixed_key origin MERKLE_TREE_INSERTION (to_vec i)) rows)
    with (Ok (E := rocks_error) (contents !! entry_key origin (InsertionRow i))).
  rewrite Hr. cbn [map_err]. pose proof (decoded_to_vec ins) as Hd. unfold decoded in Hd.
  destruct (eval_st read_from (to_vec ins)) as [x|e|]; [|done|done]. cbn. congruence.
Qed.

Lemma read_lag w (i : u32) : uval i < Z.of_nat (length leaves) ->
  exists s o, HyperlaneDB.retrieve_merkle_tree_insertion_by_leaf_index (db_domain self) i
    (message_db w) = (s, Ok o) /\ (lag w = O -> is_Some o).
Proof.
  intros Hi. urange i. change (length leaves) with 2%nat in Hi.
  change (message_db w) with (if synced w then rows else no_rows). unfold lag.
  destruct (synced w); [|eexists _, None; split; [reflexivity|discriminate]].
  assert (Hc : i = uwrap 4 0 \/ i = uwrap 4 1).
  { rewrite <- (uwrap_uval i). destruct (decide (uval i = 0)) as [->|]; [by left|right].
    f_equal. lia. }
  destruct Hc as [-> | ->];
    (eexists _, (Some _); split; [apply row_read|by eexists]).
  - unfold contents. by rewrite lookup_insert_eq.
  - unfold contents. rewrite lookup_insert_ne by (intros E; by apply entry_key_inj in E).
    by rewrite lookup_insert_eq.
Qed.

(** The first checkpoint, signed and on file. *)
Definition first_signed : SignedCheckpointWithMessageId :=
  MkSignedType (MkCheckpointWithMessageId
    (MkCheckpoint (uwrap 32 1) (uwrap 4 9)
       (default (uwrap 32 0) (Incremental.root (tree_of 1))) (uwrap 4 0)) (uwrap 32 3)) signature.
Definition first_file : storage :=
  MkMemory (<[checkpoint_file_path (MkLocalStorage "/v") (uwrap 4 0) :=
               encode_checkpoint first_signed]> ∅) ∅.

Lemma first_published i :
  published (MkLocalStorage "/v") first_file i =
    if decide (i = uwrap 4 0) then Some first_signed else None.
Proof.
  cbn. unfold local_published, first_file. cbn [fs_files io_laws files]. case_decide as Hi.
  - rewrite Hi, lookup_insert_eq. cbn [parsed mbind option_bind].
    by rewrite (@checkpoint_json _ json json_laws first_signed _ eq_refl).
  - rewrite lookup_insert_ne; [by rewrite lookup_empty|]. intros E.
    by apply (inj _) in E.
Qed.

Lemma first_honest : storage_honest (MkLocalStorage "/v") leaves first_file.
Proof.
  intros i c. rewrite first_published. case_decide as Hi; [|discriminate]. intros Hc.
  assert (first_signed = c) as <- by congruence. split; [by rewrite Hi|].
  split; [split; [|done]|done].
  unfold first_signed, chain_checkpoint. cbn [value checkpoint checkpoint_index].
  rewrite (incr_root _ _ (tree_of_ok 1 ltac:(lia))). reflexivity.
Qed.

(** The start, the backfill and one round. *)
Definition history : task IncrementalMerkle :=
  started ← run_checkpoint_submitters self;
  backfill_checkpoint_submitter stuck 3 self (snd started);;
  checkpoint_submitter stuck 1 3 self (fst started).

Lemma not_forged : ~ forged leaves stored.
Proof.
  intros (n & m & [Hn Hm] & Hne & _). change (length leaves) with 2%nat in Hm. apply Hne.
  destruct m as [|[|[|m]]], n as [|[|[|n]]]; first [reflexivity|lia].
Qed.

End ValidatorModel.

Section witnesses.
Import StorageModel DatabaseModel ValidatorModel.

Lemma validator_publishes_witness :
  exists w1 w2 w3 tip target full tree,
    run_checkpoint_submitters self world = (w1, Ok (tip, target)) /\
    backfill_checkpoint_submitter stuck 3 self target w1 = (w2, Ok full) /\
    checkpoint_submitter stuck 1 3 self tip w2 = (w3, Ok tree) /\
    exists m, uval (count tip) <= Z.of_nat m <= 2 /\ incr_ok tree (take m leaves) /\
      forall j : u32, uval j < Z.of_nat m ->
        is_Some (published (checkpoint_syncer self) w3 j).
Proof.
  destruct (run_succeeds history world) as (w3 & tree & Hh); [vm_compute; reflexivity|].
  apply eff_bind_ok in Hh as (w1 & [tip target] & Hrun & Hh).
  apply eff_bind_ok in Hh as (w2 & full & Hback & Htip). cbn [fst snd] in Hback, Htip.
  exists w1, w2, w3, tip, target, full, tree. do 3 (split; [assumption|]).
  destruct (backfill_caught_up self leaves stored stuck stuck_fails 3 world w1 w1 w2 tip target
    full honest_empty Hrun (reflexivity w1) Hback) as [Hf|Cb]; [destruct (not_forged Hf)|].
  pose proof (caught_up_step self leaves _ _ _ _ _ Cb) as Sb.
  destruct (tip_caught_up self leaves stored stuck stuck_fails 1 3 world w1 w2 w3 tip target tree
    honest_empty Hrun Sb Htip) as [Hf|[k Ct]]; [destruct (not_forged Hf)|].
  pose proof (caught_up_step self leaves _ _ _ _ _ Ct) as Sbf.
  destruct (validator_publishes self leaves stored stuck stuck_fails 1 3 world w1 w1 w2 w2 w3 w3
    tip full tree target honest_empty Hrun (reflexivity w1) Sb Hback Htip Sbf (reflexivity w3))
    as [Hf|(_ & _ & m & Hm & Ht & Hp)]; [destruct (not_forged Hf)|].
  exists m. split; [exact Hm|]. split; [exact Ht|]. intros j Hj. specialize (Hp j).
  destruct (published _ w3 j); [by eexists|lia].
Defined.

Lemma submit_until_ends_witness :
  exists w' tree', incr_ok tree' (take 1 leaves ++ next_ids stored 1 1) /\
    (exists k, (k <= 1)%nat /\ w' = Nat.iter k (sleep (10 ^ 8)) world) /\
    succeeds (submit_checkpoints_until_correctness_checkpoint stuck 4 self (tree_of 1)
      (chain_checkpoint leaves (uwrap 4 1)) world) =
    succeeds ((sign_and_submit_checkpoints self (queued (take 1 leaves) (next_ids stored 1 1));;
               mret tree') w').
Proof.
  destruct (submit_until_ends self leaves stored lag sleep_lag read_lag 4 1 (uwrap 4 1)
    (tree_of 1) world) as (w' & tree' & Ht & Hwait & Hall).
  - apply tree_of_ok. lia.
  - done.
  - done.
  - done.
  - change (lag world) with 1%nat. change (Z.to_nat (uval (uwrap 4 1))) with 1%nat. lia.
  - change (S (Z.to_nat (uval (uwrap 4 1))) - 1)%nat with 1%nat in Ht, Hall.
    exists w', tree'. split; [exact Ht|]. split; [exact Hwait|]. rewrite (Hall stuck).
    rewrite decide_True by reflexivity. rewrite decide_False by discriminate. reflexivity.
Defined.

Lemma announce_found_witness :
  exists w' w3 locations rest,
    announce stuck 2 5 (MkLocalStorage "/v") world = (w', Ok tt) /\
    announced_locations [H256_from_H160 eth_address] w3 = (w', Ok (locations :: rest)) /\
    announcement_location (MkLocalStorage "/v") ∈ locations.
Proof.
  destruct (run_succeeds (announce stuck 2 5 (MkLocalStorage "/v")) world) as (w' & [] & Ha);
    [vm_compute; reflexivity|].
  destruct (announce_found stuck stuck_fails 2 5 (MkLocalStorage "/v") world w' Ha)
    as (w1 & sig & w2 & w3 & locations & rest & _ & _ & Hl & Hin).
  exists w', w3, locations, rest. split; [exact Ha|]. split; [exact Hl|exact Hin].
Defined.
End witnesses.
