(* ===== verification/ContractSync.v ===== *)
(** * Syncing the database with a contract ([hyperlane-base/src/contract_sync])

    [cursor.rs]: which blocks or sequences to query next, the three cursors over them; [mod.rs]:
    the loop that fetches and stores the logs. The indexer of the chain, the database, the clock
    and the order in which a hash set is iterated are the class [SyncEnv]. A cursor and the
    outside world are the state of its operations. The estimate of the time to sync, which is
    only logged, is left out, and so are metrics; a loop that reads on until the database has
    nothing more runs on fuel and panics beyond it. *)

From S2P Require Import Prelude.
From S2P Require Import Message.
From S2P Require Import Chain.
From S2P Require Import Sealevel.
From S2P Require Import PendingOperation.
From stdpp Require Import base list numbers.
From Stdlib Require Import ZArith Lia.

#[local] Open Scope Z_scope.

Inductive SyncDirection := Forward | Backward.

(** [CursorAction]; a range includes its bounds. *)
Inductive CursorAction := Query (from to : u32) | Sleep (duration : Duration).

(** What the syncing of events of type [T] calls. *)
Class SyncEnv (T : Type) := {
  world : Type;
  (** [ChainCommunicationError], and the errors of the database *)
  chain_error : Type;
  no_max_sequence : chain_error;
  store_error : Type;
  (** [Sequenced] *)
  sequence : T -> u32;
  (** [Indexer] and [SequenceIndexer] *)
  fetch_logs : u32 -> u32 -> eff world chain_error (list (T * LogMeta));
  get_finalized_block_number : eff world chain_error u32;
  sequence_and_tip : eff world chain_error (option u32 * u32);
  (** [HyperlaneLogStore], [HyperlaneSequenceIndexerStore], [HyperlaneWatermarkedLogStore] *)
  store_logs : list (T * LogMeta) -> eff world store_error u32;
  db_retrieve_by_sequence : u32 -> eff world store_error (option T);
  db_retrieve_log_block_number : u32 -> eff world store_error (option u64);
  db_retrieve_high_watermark : eff world store_error (option u32);
  db_store_high_watermark : u32 -> eff world store_error unit;
  (** [HashSet::from_iter] and back *)
  deduped : list (T * LogMeta) -> list (T * LogMeta);
  (** [tokio::time::sleep], [Instant::now] *)
  sleep : Duration -> world -> world;
  instant_now : world -> world * Instant
}.

Definition MAX_SEQUENCE_RANGE : Z := 100.

Record SyncState := MkSyncState {
  chunk_size : u32;
  start_block : u32;
  next_block : u32;
  mode : Domain.IndexMode;
  next_sequence : u32;
  direction : SyncDirection
}.

Definition set_next_block (b : u32) (s : SyncState) : SyncState :=
  MkSyncState (chunk_size s) (start_block s) b (mode s) (next_sequence s) (direction s).
Definition set_next_sequence (n : u32) (s : SyncState) : SyncState :=
  MkSyncState (chunk_size s) (start_block s) (next_block s) (mode s) n (direction s).

(** [u32::min], [u32::max], [saturating_sub], [saturating_add] *)
Definition u32_min (a b : u32) : u32 := if uval a <=? uval b then a else b.
Definition u32_max (a b : u32) : u32 := if uval a <=? uval b then b else a.
Definition saturating_sub (a : u32) (b : Z) : u32 := uwrap 4 (Z.max 0 (uval a - b)).
Definition saturating_add (a : u32) (b : Z) : u32 := uwrap 4 (Z.min u32_MAX (uval a + b)).

Section state.
Context `{OverflowChecks} {E : Type}.

Definition modify {S} (f : S -> S) : eff S E unit := λ s, (f s, Ok tt).

(** [SyncState::block_range] *)
Definition block_range (tip : u32) : eff SyncState E (u32 * u32) :=
  self ← eff_get;
  match direction self with
  | Forward =>
      let from := next_block self in
      to ← eff_lift (arith 4 (uval from + uval (chunk_size self)));
      let to := u32_min to tip in
      next ← eff_lift (arith 4 (uval to + 1));
      modify (set_next_block next);;
      mret (from, to)
  | Backward =>
      let to := next_block self in
      let from := saturating_sub to (uval (chunk_size self)) in
      modify (set_next_block (saturating_sub from 1));;
      mret (from, to)
  end.

(** [SyncState::sequence_range] *)
Definition sequence_range (max_sequence : u32) : eff SyncState E (option (u32 * u32)) :=
  self ← eff_get;
  match direction self with
  | Forward =>
      let sequence_start := next_sequence self in
      sequence_end ← eff_lift (arith 4 (uval sequence_start + MAX_SEQUENCE_RANGE));
      if uval max_sequence <=? uval (next_sequence self) then mret None
      else
        let sequence_end := u32_min sequence_end (saturating_sub max_sequence 1) in
        next ← eff_lift (arith 4 (uval sequence_end + 1));
        modify (set_next_sequence next);;
        mret (Some (sequence_start, sequence_end))
  | Backward =>
      let sequence_end := next_sequence self in
      let sequence_start := saturating_sub sequence_end MAX_SEQUENCE_RANGE in
      modify (set_next_sequence (saturating_sub sequence_start 1));;
      mret (Some (sequence_start, sequence_end))
  end.

(** [SyncState::get_next_range]; [no_max] is the error for a missing maximum. *)
Definition state_next_range (no_max : E) (max_sequence : option u32) (tip : u32) :
    eff SyncState E (option (u32 * u32)) :=
  self ← eff_get;
  range ← match mode self with
          | Domain.Block => range ← block_range tip; mret (Some range)
          | Domain.Sequence =>
              max_sequence ← eff_lift (ok_or max_sequence no_max);
              sequence_range max_sequence
          end;
  match range : option (u32 * u32) with
  | Some (from, to) => mret (if uval to <? uval from then None else Some (from, to))
  | None => mret None
  end.
End state.

(** ** Computations over a cursor and the outside world *)

Section lenses.
Context `{SyncEnv T}.

Definition on_world {C E A} (m : eff world E A) : eff (C * world) E A := λ '(c, w),
  let '(w, r) := m w in ((c, w), r).
Definition on_cursor {C E A} (m : eff C E A) : eff (C * world) E A := λ '(c, w),
  let '(c, r) := m c in ((c, w), r).
Definition cursor {C E} : eff (C * world) E C := λ '(c, w), ((c, w), Ok c).
(** A computation over a part of a cursor. *)
Definition zoom {C D E A} (get : D -> C) (set : C -> D -> D) (m : eff (C * world) E A) :
    eff (D * world) E A := λ '(d, w),
  let '((c, w), r) := m (get d, w) in ((set c d, w), r).
End lenses.

(** [ContractSyncCursor] *)
Class ContractSyncCursor (T C : Type) `{SyncEnv T} := {
  next_action : nat -> eff (C * world) chain_error CursorAction;
  latest_block : C -> u32;
  update : list (T * LogMeta) -> eff (C * world) store_error unit
}.

Section cursors.
Context `{SyncEnv T, OverflowChecks}.

(** *** [SequenceSyncCursor] *)

(** [SequenceSyncCursor::retrieve_by_sequence]: [.ok().flatten()] *)
Definition retrieve_by_sequence {C E} (sequence : u32) : eff (C * world) E (option T) :=
  r ← eff_try (on_world (db_retrieve_by_sequence sequence));
  mret match r with inr o => o | inl _ => None end.

(** [SequenceSyncCursor::retrieve_log_block_number] *)
Definition retrieve_log_block_number {C E} (sequence : u32) : eff (C * world) E (option u32) :=
  r ← eff_try (on_world (db_retrieve_log_block_number sequence));
  match r with
  | inr (Some num) =>
      if uval num <=? u32_MAX then mret (Some (uwrap 4 (uval num))) else eff_lift Panic
  | _ => mret None
  end.

(** [SequenceSyncCursor::update] *)
Definition sequence_update (logs : list (T * LogMeta)) (prev_sequence : u32) :
    eff (SyncState * world) store_error unit :=
  self ← cursor;
  if negb (bool_decide (logs = [])) &&
     negb (existsb (λ m, bool_decide (sequence m.1 = next_sequence self)) logs)
  then
    block_number ← retrieve_log_block_number prev_sequence;
    match block_number with
    | Some block_number => on_cursor (modify (set_next_block block_number))
    | None => on_cursor (modify (set_next_block (start_block self)))
    end
  else mret tt.

(** *** [ForwardSequenceSyncCursor] *)

Definition ForwardSequenceSyncCursor_new (chunk_size start_block next_block : u32)
    (mode : Domain.IndexMode) (next_sequence : u32) : SyncState :=
  MkSyncState chunk_size start_block next_block mode next_sequence Forward.

(** The loop of [get_next_range]. *)
Fixpoint fast_forward (fuel : nat) : eff (SyncState * world) chain_error unit :=
  match fuel with
  | O => eff_lift Panic
  | S fuel =>
      self ← cursor;
      log ← retrieve_by_sequence (next_sequence self);
      match log with
      | Some _ =>
          block_number ← retrieve_log_block_number (next_sequence self);
          match block_number with
          | Some block_number => on_cursor (modify (set_next_block block_number))
          | None => mret tt
          end;;
          next ← eff_lift (arith 4 (uval (next_sequence self) + 1));
          on_cursor (modify (set_next_sequence next));;
          fast_forward fuel
      | None => mret tt
      end
  end.

(** [ForwardSequenceSyncCursor::get_next_range] *)
Definition forward_next_range (fuel : nat) :
    eff (SyncState * world) chain_error (option (u32 * u32)) :=
  fast_forward fuel;;
  found ← on_world sequence_and_tip;
  match found with
  | (Some mailbox_count, tip) =>
      self ← cursor;
      match uval (next_sequence self) ?= uval mailbox_count with
      | Eq => on_cursor (modify (set_next_block tip));; mret None
      | Lt => on_cursor (state_next_range no_max_sequence (Some mailbox_count) tip)
      | Gt => mret None
      end
  | (None, _) => mret None
  end.

(** [ForwardSequenceSyncCursor::next_action] *)
Definition forward_next_action (fuel : nat) : eff (SyncState * world) chain_error CursorAction :=
  range ← forward_next_range fuel;
  match range with
  | Some (from, to) => mret (Query from to)
  | None => mret (Sleep (from_secs 5))
  end.

(** [ForwardSequenceSyncCursor::update] *)
Definition forward_update (logs : list (T * LogMeta)) :
    eff (SyncState * world) store_error unit :=
  self ← cursor;
  let prev_sequence := saturating_sub (next_sequence self) 1 in
  let filtered_logs :=
    List.filter (λ m, uval (next_sequence self) <=? uval (sequence m.1)) logs in
  sequence_update filtered_logs prev_sequence.

#[export] Instance ForwardSequenceSyncCursor : ContractSyncCursor T SyncState := {|
  next_action := forward_next_action;
  latest_block self := saturating_sub (next_block self) 1;
  update := forward_update
|}.

(** *** [BackwardSequenceSyncCursor] *)

Record BackwardSequenceSyncCursor := MkBackwardSequenceSyncCursor {
  backward_cursor : SyncState;
  synced : bool
}.

Definition BackwardSequenceSyncCursor_new (chunk_size start_block next_block : u32)
    (mode : Domain.IndexMode) (next_sequence : u32) (synced : bool) : BackwardSequenceSyncCursor :=
  MkBackwardSequenceSyncCursor
    (MkSyncState chunk_size start_block next_block mode next_sequence Backward) synced.

Definition set_synced (c : BackwardSequenceSyncCursor) : BackwardSequenceSyncCursor :=
  MkBackwardSequenceSyncCursor (backward_cursor c) true.
Definition set_backward_cursor (s : SyncState) (c : BackwardSequenceSyncCursor) :
    BackwardSequenceSyncCursor := MkBackwardSequenceSyncCursor s (synced c).
Definition on_state {E A} (m : eff (SyncState * world) E A) :
    eff (BackwardSequenceSyncCursor * world) E A :=
  zoom backward_cursor set_backward_cursor m.

(** The loop of [get_next_range]. *)
Fixpoint rewind (fuel : nat) : eff (BackwardSequenceSyncCursor * world) chain_error unit :=
  match fuel with
  | O => eff_lift Panic
  | S fuel =>
      self ← cursor;
      let state := backward_cursor self in
      if synced self then mret tt
      else
        log ← retrieve_by_sequence (next_sequence state);
        match log with
        | None => mret tt
        | Some _ =>
            if (uval (next_sequence state) =? 0) || (uval (next_block state) =? 0)
            then on_cursor (modify set_synced)
            else
              block_number ← retrieve_log_block_number (next_sequence state);
              match block_number with
              | Some block_number => on_state (on_cursor (modify (set_next_block block_number)))
              | None => mret tt
              end;;
              on_state (on_cursor (modify
                (set_next_sequence (saturating_sub (next_sequence state) 1))));;
              rewind fuel
        end
  end.

(** [BackwardSequenceSyncCursor::get_next_range] *)
Definition backward_next_range (fuel : nat) :
    eff (BackwardSequenceSyncCursor * world) chain_error (option (u32 * u32)) :=
  rewind fuel;;
  self ← cursor;
  if synced self then mret None
  else
    '(count, tip) ← on_world sequence_and_tip;
    on_state (on_cursor (state_next_range no_max_sequence count tip)).

(** [BackwardSequenceSyncCursor::update] *)
Definition backward_update (logs : list (T * LogMeta)) :
    eff (BackwardSequenceSyncCursor * world) store_error unit :=
  self ← cursor;
  let next := next_sequence (backward_cursor self) in
  let prev_sequence := saturating_add next 1 in
  let filtered_logs := List.filter (λ m, uval (sequence m.1) <=? uval next) logs in
  on_state (sequence_update filtered_logs prev_sequence).

(** *** [ForwardBackwardSequenceSyncCursor] *)

Record ForwardBackwardSequenceSyncCursor := MkForwardBackwardSequenceSyncCursor {
  forward : SyncState;
  backward : BackwardSequenceSyncCursor;
  sync_direction : SyncDirection
}.

Definition set_forward (s : SyncState) (c : ForwardBackwardSequenceSyncCursor) :
    ForwardBackwardSequenceSyncCursor :=
  MkForwardBackwardSequenceSyncCursor s (backward c) (sync_direction c).
Definition set_backward (s : BackwardSequenceSyncCursor) (c : ForwardBackwardSequenceSyncCursor) :
    ForwardBackwardSequenceSyncCursor :=
  MkForwardBackwardSequenceSyncCursor (forward c) s (sync_direction c).
Definition set_direction (d : SyncDirection) (c : ForwardBackwardSequenceSyncCursor) :
    ForwardBackwardSequenceSyncCursor :=
  MkForwardBackwardSequenceSyncCursor (forward c) (backward c) d.

(** [ForwardBackwardSequenceSyncCursor::new] *)
Definition ForwardBackwardSequenceSyncCursor_new (chunk_size : u32) (mode : Domain.IndexMode) :
    eff world chain_error ForwardBackwardSequenceSyncCursor :=
  '(sequence, tip) ← sequence_and_tip;
  sequence ← eff_lift (ok_or sequence no_max_sequence);
  mret (MkForwardBackwardSequenceSyncCursor
    (ForwardSequenceSyncCursor_new chunk_size tip tip mode sequence)
    (BackwardSequenceSyncCursor_new chunk_size tip tip mode (saturating_sub sequence 1)
       (uval sequence =? 0))
    Forward).

(** [ForwardBackwardSequenceSyncCursor::next_action] *)
Definition forward_backward_next_action (fuel : nat) :
    eff (ForwardBackwardSequenceSyncCursor * world) chain_error CursorAction :=
  forward_range ← zoom forward set_forward (forward_next_range fuel);
  match forward_range with
  | Some (from, to) => on_cursor (modify (set_direction Forward));; mret (Query from to)
  | None =>
      backward_range ← zoom backward set_backward (backward_next_range fuel);
      match backward_range with
      | Some (from, to) => on_cursor (modify (set_direction Backward));; mret (Query from to)
      | None => mret (Sleep (from_secs 5))
      end
  end.

#[export] Instance ForwardBackward_cursor :
    ContractSyncCursor T ForwardBackwardSequenceSyncCursor := {|
  next_action := forward_backward_next_action;
  latest_block self := saturating_sub (next_block (forward self)) 1;
  update logs :=
    self ← cursor;
    match sync_direction self with
    | Forward => zoom forward set_forward (forward_update logs)
    | Backward => zoom backward set_backward (backward_update logs)
    end
|}.

(** *** [RateLimitedContractSyncCursor] *)

Record RateLimitedContractSyncCursor := MkRateLimitedContractSyncCursor {
  rl_tip : u32;
  rl_max_sequence : option u32;
  last_tip_update : Instant;
  sync_state : SyncState
}.

Definition set_tip (tip : u32) (t : Instant) (c : RateLimitedContractSyncCursor) :
    RateLimitedContractSyncCursor :=
  MkRateLimitedContractSyncCursor tip (rl_max_sequence c) t (sync_state c).
Definition set_ends (max_sequence : option u32) (tip : u32) (c : RateLimitedContractSyncCursor) :
    RateLimitedContractSyncCursor :=
  MkRateLimitedContractSyncCursor tip max_sequence (last_tip_update c) (sync_state c).
Definition set_sync_state (s : SyncState) (c : RateLimitedContractSyncCursor) :
    RateLimitedContractSyncCursor :=
  MkRateLimitedContractSyncCursor (rl_tip c) (rl_max_sequence c) (last_tip_update c) s.
Definition now {E} : eff world E Instant := λ w, let '(w, t) := instant_now w in (w, Ok t).

(** [RateLimitedContractSyncCursor::new] *)
Definition RateLimitedContractSyncCursor_new (chunk_size initial_height : u32)
    (mode : Domain.IndexMode) : eff world chain_error RateLimitedContractSyncCursor :=
  '(max_sequence, tip) ← sequence_and_tip;
  t ← now;
  mret (MkRateLimitedContractSyncCursor tip max_sequence t
    (MkSyncState chunk_size initial_height initial_height mode (uwrap 4 0) Forward)).

(** [RateLimitedContractSyncCursor::get_rate_limit] *)
Definition get_rate_limit :
    eff (RateLimitedContractSyncCursor * world) chain_error (option Duration) :=
  self ← cursor;
  let s := sync_state self in
  reach ← eff_lift (arith 4 (uval (next_block s) + uval (chunk_size s)));
  if uval reach <? uval (rl_tip self) then mret None
  else
    t ← on_world now;
    let elapsed := Z.max 0 (t - last_tip_update self) in
    if elapsed <=? from_secs 30 then mret (Some (from_secs 30 - elapsed))
    else
      tip ← eff_try (on_world get_finalized_block_number);
      match tip with
      | inr tip =>
          t ← on_world now;
          on_cursor (modify (set_tip tip t));;
          mret None
      | inl e => on_world (λ w, (sleep (from_secs 10) w, Ok tt));; eff_lift (Err e)
      end.

Definition sync_end (self : RateLimitedContractSyncCursor) : outcome chain_error u32 :=
  match mode (sync_state self) with
  | Domain.Block => Ok (rl_tip self)
  | Domain.Sequence => ok_or (rl_max_sequence self) no_max_sequence
  end.
Definition sync_position (self : RateLimitedContractSyncCursor) : u32 :=
  match mode (sync_state self) with
  | Domain.Block => next_block (sync_state self)
  | Domain.Sequence => next_sequence (sync_state self)
  end.
Definition sync_step (self : RateLimitedContractSyncCursor) : Z :=
  match mode (sync_state self) with
  | Domain.Block => uval (chunk_size (sync_state self))
  | Domain.Sequence => MAX_SEQUENCE_RANGE
  end.

(** [RateLimitedContractSyncCursor::next_action] *)
Definition rate_limited_next_action :
    eff (RateLimitedContractSyncCursor * world) chain_error CursorAction :=
  self ← cursor;
  (* the bounds are for the estimate only, but computing them can fail *)
  eff_lift (sync_end self);;
  eff_lift (E := chain_error) (arith 4 (uval (sync_position self) + sync_step self));;
  rate_limit ← get_rate_limit;
  match rate_limit with
  | Some rate_limit => mret (Sleep rate_limit)
  | None =>
      '(max_sequence, tip) ← on_world sequence_and_tip;
      on_cursor (modify (set_ends max_sequence tip));;
      range ← zoom sync_state set_sync_state
        (on_cursor (state_next_range no_max_sequence max_sequence tip));
      match range with
      | Some (from, to) => mret (Query from to)
      | None => mret (Sleep (from_secs 5))
      end
  end.

(** [RateLimitedContractSyncCursor::update] *)
Definition rate_limited_update (_logs : list (T * LogMeta)) :
    eff (RateLimitedContractSyncCursor * world) store_error unit :=
  self ← cursor;
  let s := sync_state self in
  on_world (db_store_high_watermark
    (u32_max (start_block s) (saturating_sub (next_block s) (uval (chunk_size s))))).

#[export] Instance RateLimited_cursor : ContractSyncCursor T RateLimitedContractSyncCursor := {|
  next_action _ := rate_limited_next_action;
  latest_block self := saturating_sub (next_block (sync_state self)) 1;
  update := rate_limited_update
|}.

(** [WatermarkContractSync::rate_limited_cursor] *)
Definition rate_limited_cursor (chunk_size from : u32) (mode : Domain.IndexMode) :
    eff world chain_error RateLimitedContractSyncCursor := λ w,
  let '(w, watermark) := db_retrieve_high_watermark w in
  match watermark with
  | Ok watermark =>
      let '(w, c) := RateLimitedContractSyncCursor_new chunk_size (default from watermark) mode w in
      (w, expect c)
  | _ => (w, Panic)
  end.

(** ** [ContractSync::sync] *)

Inductive SyncError := ChainError (e : chain_error) | StoreError (e : store_error).

Section sync.
Context `{!ContractSyncCursor T C}.

(** One round of the loop. *)
Definition sync_round (fuel : nat) : eff (C * world) SyncError unit :=
  action ← eff_try (next_action fuel);
  match action with
  | inl _ => mret tt
  | inr (Query from to) =>
      logs ← eff_map_err ChainError (on_world (fetch_logs from to));
      let logs := deduped logs in
      eff_map_err StoreError (on_world (store_logs logs));;
      eff_map_err StoreError (update logs)
  | inr (Sleep duration) => on_world (λ w, (sleep duration w, Ok tt))
  end.

(** [n] rounds. *)
Fixpoint sync (n fuel : nat) : eff (C * world) SyncError unit :=
  match n with
  | O => mret tt
  | S n => sync_round fuel;; sync n fuel
  end.
End sync.
End cursors.
