(* ===== verification/ContractSyncTheorems.v ===== *)
(** * The syncing of the database misses nothing

    The forward cursor never leaves a gap behind it, whatever the indexer returns and however
    the loop ends; the two-way cursor neither; over a reliable indexer the loop stores every
    event of the chain; a stored watermark is never beyond what has been stored, over any number
    of restarts; the backward loop ends. *)

From S2P Require Import Prelude.
From S2P Require Import Message.
From S2P Require Import Chain.
From S2P Require Import Sealevel.
From S2P Require Import PendingOperation.
From S2P Require Import ContractSync.
From stdpp Require Import base list numbers.
From Stdlib Require Import ZArith Lia.

#[local] Open Scope Z_scope.

(** ** Weakest preconditions

    [wp m Q R s]: run from [s], [m] returns with [Q], or fails or panics with [R]. *)

Definition wp {S E A} (m : eff S E A) (Q : A -> S -> Prop) (R : S -> Prop) (s : S) : Prop :=
  match m s with
  | (s', Ok a) => Q a s'
  | (s', _) => R s'
  end.

Section wp.
Context {S E : Type}.

Lemma wp_ret {A} (a : A) Q R (s : S) : Q a s -> wp (E := E) (mret a) Q R s.
Proof. done. Qed.

Lemma wp_lift {A} (m : outcome E A) Q R (s : S) :
  (forall a, m = Ok a -> Q a s) -> R s -> wp (eff_lift m) Q R s.
Proof. unfold wp, eff_lift. destruct m; auto. Qed.

Lemma wp_bind {A B} (m : eff S E A) (f : A -> eff S E B) Q R s :
  wp m (λ a s', wp (f a) Q R s') R s -> wp (m ≫= f) Q R s.
Proof. unfold wp, mbind, eff_bind. by destruct (m s) as [s' [a|e|]]. Qed.

Lemma wp_mono {A} (m : eff S E A) (Q Q' : A -> S -> Prop) (R R' : S -> Prop) s :
  wp m Q R s -> (forall a s', Q a s' -> Q' a s') -> (forall s', R s' -> R' s') -> wp m Q' R' s.
Proof. unfold wp. destruct (m s) as [s' [a|e|]]; auto. Qed.

Lemma wp_try {E' A} (m : eff S E A) Q R s :
  wp m (λ a s', Q (inr a) s') (λ s', (forall e, Q (inl e) s') /\ R s') s ->
  wp (E := E') (eff_try m) Q R s.
Proof. unfold wp, eff_try. destruct (m s) as [s' [a|e|]]; naive_solver. Qed.

Lemma wp_map_err {E' A} (f : E -> E') (m : eff S E A) Q R s :
  wp m Q R s -> wp (eff_map_err f m) Q R s.
Proof. unfold wp, eff_map_err. by destruct (m s) as [s' [a|e|]]. Qed.

Lemma wp_ok {A} (m : eff S E A) Q R s s' a : wp m Q R s -> m s = (s', Ok a) -> Q a s'.
Proof. unfold wp. intros Hm E1. by rewrite E1 in Hm. Qed.
End wp.

Section wp_cursor.
Context `{SyncEnv T} {C E : Type}.

Lemma wp_cursor (Q : C -> C * world -> Prop) R c w :
  Q c (c, w) -> wp (E := E) cursor Q R (c, w).
Proof. done. Qed.

Lemma wp_modify (f : C -> C) (Q : unit -> C * world -> Prop) R c w :
  Q tt (f c, w) -> wp (E := E) (on_cursor (modify f)) Q R (c, w).
Proof. done. Qed.

Lemma wp_world {A} (m : eff world E A) (Q : A -> C * world -> Prop) R c w :
  wp m (λ a w', Q a (c, w')) (λ w', R (c, w')) w -> wp (on_world m) Q R (c, w).
Proof. unfold wp, on_world. by destruct (m w) as [w' [a|e|]]. Qed.

Lemma wp_on_cursor {A} (m : eff C E A) (Q : A -> C * world -> Prop) R c w :
  wp m (λ a c', Q a (c', w)) (λ c', R (c', w)) c -> wp (on_cursor m) Q R (c, w).
Proof. unfold wp, on_cursor. by destruct (m c) as [c' [a|e|]]. Qed.

Lemma wp_zoom {D A} (get : D -> C) (set : C -> D -> D) (m : eff (C * world) E A)
    (Q : A -> D * world -> Prop) R d w :
  wp m (λ a '(c, w'), Q a (set c d, w')) (λ '(c, w'), R (set c d, w')) (get d, w) ->
  wp (zoom get set m) Q R (d, w).
Proof. unfold wp, zoom. by destruct (m (get d, w)) as [[c w'] [a|e|]]. Qed.
End wp_cursor.

(** ** What is assumed of the database *)

(** [stored w i]: the database has the event of the sequence [i]. Nothing removes one, and a
    read that finds one is right. *)
Class SyncLaws (T : Type) `{SyncEnv T} := {
  stored : world -> u32 -> Prop;
  fetch_keeps i from to : preserves (λ w, stored w i) (fetch_logs from to);
  finalized_keeps i : preserves (λ w, stored w i) get_finalized_block_number;
  tip_keeps i : preserves (λ w, stored w i) sequence_and_tip;
  store_keeps i logs : preserves (λ w, stored w i) (store_logs logs);
  retrieve_keeps s i : preserves (λ w, stored w i) (db_retrieve_by_sequence s);
  retrieve_block_keeps s i : preserves (λ w, stored w i) (db_retrieve_log_block_number s);
  sleep_keeps i d w : stored w i -> stored (sleep d w) i;
  retrieve_found s w w' e : db_retrieve_by_sequence s w = (w', Ok (Some e)) -> stored w' s
}.

Section gaps.
Context `{SyncEnv T, !SyncLaws T, OverflowChecks}.
Implicit Types w : world.

(** Every sequence of an interval of integers is stored. *)
Definition all_stored (a b : Z) w : Prop := forall s : u32, a <= uval s < b -> stored w s.

(** What is stored in [w] is in [w']. *)
Definition grows w w' : Prop := forall s, stored w s -> stored w' s.

#[export] Instance grows_preorder : PreOrder grows.
Proof. split; [by intros w s|]. intros w1 w2 w3 G1 G2 s Hs. by apply G2, G1. Qed.

Lemma all_stored_grows a b w w' : grows w w' -> all_stored a b w -> all_stored a b w'.
Proof. intros Hg Hw s Hs. by apply Hg, Hw. Qed.

Lemma keeps_grows {E A} (m : eff world E A) w :
  (forall s, preserves (λ w, stored w s) m) -> grows w (fst (m w)).
Proof. intros Hm s. apply Hm. Qed.

(** A call that keeps what is stored. *)
Lemma wp_keeps {C E A} (m : eff world E A) (Q : A -> C * world -> Prop) R c w :
  (forall s, preserves (λ w, stored w s) m) ->
  (forall a w', m w = (w', Ok a) -> grows w w' -> Q a (c, w')) ->
  (forall w', grows w w' -> R (c, w')) ->
  wp (on_world m) Q R (c, w).
Proof.
  intros Hm HQ HR. apply wp_world. unfold wp. pose proof (keeps_grows m w Hm) as Hg.
  destruct (m w) as [w' [a|e|]]; auto.
Qed.

Lemma all_stored_snoc a (s : u32) w :
  all_stored a (uval s) w -> stored w s -> all_stored a (uval s + 1) w.
Proof.
  intros Hw Hs i Hi. destruct (decide (uval i = uval s)) as [E|E].
  - apply uint_eq in E. by subst i.
  - apply Hw. lia.
Qed.

Lemma all_stored_cons b (s : u32) w :
  all_stored (uval s + 1) b w -> stored w s -> all_stored (uval s) b w.
Proof.
  intros Hw Hs i Hi. destruct (decide (uval i = uval s)) as [E|E].
  - apply uint_eq in E. by subst i.
  - apply Hw. lia.
Qed.

Lemma wp_retrieve {C E} s (Q : option T -> C * world -> Prop) R c w :
  (forall o w', grows w w' -> (is_Some o -> stored w' s) -> Q o (c, w')) ->
  (forall w', grows w w' -> R (c, w')) ->
  wp (E := E) (retrieve_by_sequence s) Q R (c, w).
Proof.
  intros HQ HR. apply wp_bind, wp_try, wp_keeps; [apply retrieve_keeps|..].
  - intros o w' Hr Hg. apply wp_ret, HQ; [done|]. intros [e ->]. by eapply retrieve_found.
  - intros w' Hg. split; [|by apply HR]. intros e. apply wp_ret, HQ; [done|]. by intros [? ?].
Qed.

Lemma wp_retrieve_block {C E} s (Q : option u32 -> C * world -> Prop) R c w :
  (forall o w', grows w w' -> Q o (c, w')) -> (forall w', grows w w' -> R (c, w')) ->
  wp (E := E) (retrieve_log_block_number s) Q R (c, w).
Proof.
  intros HQ HR. apply wp_bind, wp_try, wp_keeps; [apply retrieve_block_keeps|..].
  - intros [n|] w' _ Hg; [case_match; [by apply HQ|by apply HR]|by apply HQ].
  - intros w' Hg. split; [|by apply HR]. intros e. by apply HQ.
Qed.

(** *** Forwards *)

(** A cursor over blocks in a direction. *)
Definition by_blocks (d : SyncDirection) (c : SyncState) : Prop :=
  mode c = Domain.Block /\ direction c = d.

(** Nothing is missing from the first sequence [init] to the next. *)
Definition forward_inv (init : Z) : SyncState * world -> Prop := λ '(c, w),
  by_blocks Forward c /\ all_stored init (uval (next_sequence c)) w.

Lemma forward_inv_grows init c w w' :
  grows w w' -> forward_inv init (c, w) -> forward_inv init (c, w').
Proof. intros Hg [Hc Hw]. split; [done|by eapply all_stored_grows]. Qed.

Lemma arith_next {E} (x r : u32) : arith (E := E) 4 (uval x + 1) = Ok r ->
  uval r <= uval x + 1.
Proof.
  intros Hr. apply arith_ok in Hr as ->. rewrite uval_uwrap. urange x.
  apply Z.mod_le; [lia|]. change (umax 4) with (2 ^ 32). lia.
Qed.

Lemma fast_forward_inv init fuel c w :
  forward_inv init (c, w) ->
  wp (fast_forward fuel) (λ _, forward_inv init) (forward_inv init) (c, w).
Proof.
  revert c w. induction fuel as [|fuel IH]; intros c w Hc; [done|].
  cbn [fast_forward]. apply wp_bind, wp_cursor, wp_bind, wp_retrieve.
  2: { intros w' Hg. by eapply forward_inv_grows. }
  intros o w1 G1 Hs. apply (forward_inv_grows _ _ _ _ G1) in Hc. destruct o as [e|]; [|done].
  specialize (Hs (ex_intro _ e eq_refl)). apply wp_bind, wp_retrieve_block.
  2: { intros w' Hg. by eapply forward_inv_grows. }
  intros b w2 G2. apply (forward_inv_grows _ _ _ _ G2) in Hc. apply G2 in Hs.
  apply wp_bind.
  assert (Hrest : forall c', by_blocks Forward c' -> next_sequence c' = next_sequence c ->
    wp (next ← eff_lift (arith 4 (uval (next_sequence c) + 1));
        on_cursor (modify (set_next_sequence next));; fast_forward fuel)
      (λ _, forward_inv init) (forward_inv init) (c', w2)).
  { intros c' Hc' Hn. apply wp_bind, wp_lift.
    - intros n Hadd. apply wp_bind, wp_modify, IH. split; [by destruct Hc'|].
      apply arith_next in Hadd. intros s Hi. cbn in Hi.
      apply (all_stored_snoc init (next_sequence c)); [apply Hc|done|lia].
    - split; [done|]. rewrite Hn. apply Hc. }
  destruct b as [b|]; [apply wp_modify|apply wp_ret]; (apply Hrest; [apply Hc|done]).
Qed.

Lemma block_range_spec {E} tip c Q R :
  (forall next r, Q r (set_next_block next c)) -> R c ->
  wp (E := E) (block_range tip) Q R c.
Proof.
  intros HQ HR. apply wp_bind. unfold wp at 1. cbn [eff_get]. destruct (direction c).
  - apply wp_bind, wp_lift; [|done]. intros to _. apply wp_bind, wp_lift; [|done].
    intros next _. apply HQ.
  - apply HQ.
Qed.

Lemma block_next_range {E} (e : E) max tip c Q R :
  mode c = Domain.Block -> (forall next r, Q r (set_next_block next c)) -> R c ->
  wp (state_next_range e max tip) Q R c.
Proof.
  intros Hm HQ HR. apply wp_bind. unfold wp at 1. cbn [eff_get]. rewrite Hm.
  apply wp_bind, wp_bind, block_range_spec; [|done]. intros next [from to]. apply HQ.
Qed.

Lemma forward_range_inv init fuel c w :
  forward_inv init (c, w) ->
  wp (forward_next_range fuel) (λ _, forward_inv init) (forward_inv init) (c, w).
Proof.
  intros Hc. apply wp_bind. eapply wp_mono; [by apply fast_forward_inv| |done].
  intros _ [c1 w1] Hc1. apply wp_bind, wp_keeps; [apply tip_keeps| |].
  2: { intros w' Hg. by eapply forward_inv_grows. }
  intros [[count|] tip] w2 _ Hg; apply (forward_inv_grows _ _ _ _ Hg) in Hc1; [|done].
  apply wp_bind, wp_cursor. case_match; [|apply wp_on_cursor|done].
  - apply wp_bind, wp_modify. apply Hc1.
  - apply block_next_range; [apply Hc1| |done]. intros next r. apply Hc1.
Qed.

Lemma sequence_update_inv (P : SyncState * world -> Prop) logs prev c w :
  (forall w', grows w w' -> P (c, w')) ->
  (forall b w', grows w w' -> P (set_next_block b c, w')) ->
  wp (sequence_update logs prev) (λ _, P) P (c, w).
Proof.
  intros Hw Hb. apply wp_bind, wp_cursor. case_match; [|by apply wp_ret, Hw].
  apply wp_bind, wp_retrieve_block; [|done].
  intros [b|] w' Hg; apply wp_modify; by apply Hb.
Qed.

Lemma forward_update_inv init logs c w :
  forward_inv init (c, w) ->
  wp (forward_update logs) (λ _, forward_inv init) (forward_inv init) (c, w).
Proof.
  intros Hc. apply wp_bind, wp_cursor, sequence_update_inv.
  - intros w' Hg. by eapply forward_inv_grows.
  - intros b w' Hg. apply (forward_inv_grows _ _ _ _ Hg) in Hc. apply Hc.
Qed.

(** ** Any cursor in the loop *)

(** [Q] holds between a query and the update after it, [P] otherwise. *)
Lemma sync_inv `{!ContractSyncCursor T C} (P Q : C * world -> Prop) n fuel c w :
  (forall c w w', grows w w' -> P (c, w) -> P (c, w')) ->
  (forall c w w', grows w w' -> Q (c, w) -> Q (c, w')) ->
  (forall p, Q p -> P p) ->
  (forall c w, P (c, w) -> wp (next_action fuel)
     (λ a, match a with Query _ _ => Q | Sleep _ => P end) P (c, w)) ->
  (forall logs c w, Q (c, w) -> wp (update logs) (λ _, P) P (c, w)) ->
  P (c, w) -> P (fst (sync n fuel (c, w))).
Proof.
  intros Hg HQ HP Hn Hu. revert c w.
  cut (forall c w, P (c, w) -> wp (sync n fuel) (λ _, P) P (c, w)).
  { intros Hc c w Hw. specialize (Hc c w Hw). revert Hc. unfold wp.
    by destruct (sync n fuel (c, w)) as [? [?|?|]]. }
  induction n as [|n IH]; intros c w Hw; [done|]. cbn [sync]. apply wp_bind.
  eapply wp_mono with (Q := λ _, P) (R := P); [|intros _ [c1 w1]; apply IH|done].
  apply wp_bind, wp_try. eapply wp_mono; [by apply Hn| |].
  2: { intros [c1 w1] H1. split; [by intros e|done]. }
  intros [from to|d] [c1 w1] H1.
  - apply wp_bind, wp_map_err, wp_keeps; [intros s; apply fetch_keeps| |].
    2: { intros w' G. by eapply HP, HQ. }
    intros logs w2 _ G2. apply wp_bind, wp_map_err, wp_keeps; [intros s; apply store_keeps| |].
    2: { intros w' G. eapply HP, HQ; [by trans w2|done]. }
    intros stored_count w3 _ G3. apply wp_map_err, Hu. eapply HQ; [by trans w2|done].
  - apply wp_world. eapply Hg; [|exact H1]. intros s Hs. by apply sleep_keeps.
Qed.

(** The forward cursor leaves no gap. Over blocks, however long the loop runs, whatever the
    indexer returns (logs that are missing, repeated or out of range, or errors) and however
    the loop ends, the database has every event from the first sequence the cursor was made for
    up to the one it looks for next. *)
Theorem forward_no_gaps (n fuel : nat) (chunk_size start_block next_block first : u32) (w : world) :
  let '((c, w'), _) :=
    sync n fuel (ForwardSequenceSyncCursor_new chunk_size start_block next_block Domain.Block first, w) in
  all_stored (uval first) (uval (next_sequence c)) w'.
Proof.
  pose proof (sync_inv (forward_inv (uval first)) (forward_inv (uval first)) n fuel
    (ForwardSequenceSyncCursor_new chunk_size start_block next_block Domain.Block first) w) as Hs.
  destruct (sync n fuel _) as [[c w'] r]. apply Hs.
  - intros c1 w1 w2. apply forward_inv_grows.
  - intros c1 w1 w2. apply forward_inv_grows.
  - done.
  - intros c1 w1 Hc. apply wp_bind. eapply wp_mono; [by apply forward_range_inv| |done].
    intros [[from to]|] s Hi; by apply wp_ret.
  - intros logs c1 w1. apply forward_update_inv.
  - split; [done|]. intros s Hi. cbn in Hi. lia.
Qed.

(** *** Backwards *)

(** Nothing is missing between the next sequence backwards and [init]; a cursor that has synced
    has arrived at the first sequence, and has it, or at the first block. *)
Definition backward_inv (init : Z) : BackwardSequenceSyncCursor * world -> Prop := λ '(c, w),
  let s := backward_cursor c in
  by_blocks Backward s /\ all_stored (uval (next_sequence s) + 1) init w /\
  (synced c = true -> init = 0 \/ uval (next_block s) = 0 \/ all_stored 0 init w).

Lemma backward_inv_grows init c w w' :
  grows w w' -> backward_inv init (c, w) -> backward_inv init (c, w').
Proof.
  intros Hg (Hc & Hw & Hs). split; [done|]. split; [by eapply all_stored_grows|].
  intros E. destruct (Hs E) as [|[|Ha]]; [auto..|right; right]. by eapply all_stored_grows.
Qed.

Lemma saturating_sub_val a b : 0 <= b -> uval (saturating_sub a b) = Z.max 0 (uval a - b).
Proof.
  intros Hb. urange a. apply uval_uwrap_small. change (umax 4) with (2 ^ 32). lia.
Qed.

Lemma rewind_inv init fuel c w :
  backward_inv init (c, w) ->
  wp (rewind fuel) (λ _, backward_inv init) (backward_inv init) (c, w).
Proof.
  revert c w. induction fuel as [|fuel IH]; intros c w Hc; [done|].
  cbn [rewind]. apply wp_bind, wp_cursor. destruct (synced c) eqn:Hsy; [done|].
  apply wp_bind, wp_retrieve.
  2: { intros w' Hg. by eapply backward_inv_grows. }
  intros o w1 G1 Hs. apply (backward_inv_grows _ _ _ _ G1) in Hc. destruct o as [e|]; [|done].
  specialize (Hs (ex_intro _ e eq_refl)). set (s := backward_cursor c) in *.
  case_match eqn:Hz.
  - apply wp_modify. destruct Hc as (Hb & Hw & _). split; [done|]. split; [done|]. intros _.
    apply orb_true_iff in Hz as [Hz|Hz]; apply Z.eqb_eq in Hz; [right; right|right; by left].
    rewrite <- Hz. by apply all_stored_cons.
  - apply orb_false_iff in Hz as [Hz1 Hz2]. apply Z.eqb_neq in Hz1, Hz2.
    apply wp_bind, wp_retrieve_block.
    2: { intros w' Hg. by eapply backward_inv_grows. }
    intros b w2 G2. apply (backward_inv_grows _ _ _ _ G2) in Hc. apply G2 in Hs.
    assert (Hrest : forall c', by_blocks Backward (backward_cursor c') -> synced c' = false ->
      next_sequence (backward_cursor c') = next_sequence s ->
      wp (on_state (on_cursor (modify
            (set_next_sequence (saturating_sub (next_sequence s) 1))));; rewind fuel)
        (λ _, backward_inv init) (backward_inv init) (c', w2)).
    { intros c' Hb Hs' Hn. apply wp_bind, wp_zoom, wp_modify, IH. split; [by destruct Hb|].
      cbn. urange (next_sequence s). rewrite saturating_sub_val, Hs' by lia. split; [|done].
      replace (Z.max 0 (uval (next_sequence s) - 1) + 1) with (uval (next_sequence s)) by lia.
      apply all_stored_cons; [apply Hc|done]. }
    apply wp_bind. destruct b as [b|].
    + apply wp_zoom, wp_modify. apply Hrest; [apply Hc|done|done].
    + apply wp_ret. apply Hrest; [apply Hc|done|done].
Qed.

(** A query backwards is made before the cursor has synced. *)
Lemma backward_range_inv init fuel c w :
  backward_inv init (c, w) ->
  wp (backward_next_range fuel)
    (λ r p, backward_inv init p /\ (is_Some r -> synced p.1 = false)) (backward_inv init) (c, w).
Proof.
  intros Hc. apply wp_bind. eapply wp_mono; [by apply rewind_inv| |done].
  intros _ [c1 w1] Hc1. apply wp_bind, wp_cursor. destruct (synced c1) eqn:Hsy.
  { apply wp_ret. split; [done|]. by intros [? ?]. }
  apply wp_bind, wp_keeps; [intros s; apply tip_keeps| |].
  2: { intros w' Hg. by eapply backward_inv_grows. }
  intros [count tip] w2 _ Hg. apply (backward_inv_grows _ _ _ _ Hg) in Hc1.
  apply wp_zoom, wp_on_cursor, block_next_range; [apply Hc1| |by destruct c1].
  intros next r. split; [|done]. destruct Hc1 as (Hb & Hw & _). split; [done|]. split; [done|].
  cbn. by rewrite Hsy.
Qed.

Lemma backward_update_inv init logs c w :
  backward_inv init (c, w) -> synced c = false ->
  wp (backward_update logs) (λ _, backward_inv init) (backward_inv init) (c, w).
Proof.
  intros Hc Hsy. apply wp_bind, wp_cursor, wp_zoom.
  eapply wp_mono; [apply (sequence_update_inv
    (λ '(s, w'), backward_inv init (set_backward_cursor s c, w')))| |].
  - intros w' Hg. destruct c. by eapply backward_inv_grows.
  - intros b w' Hg. apply (backward_inv_grows _ _ _ _ Hg) in Hc as (Hb & Hw & _).
    split; [done|]. split; [done|]. cbn. rewrite Hsy. done.
  - by intros _ [s w'].
  - by intros [s w'].
Qed.

(** *** Both directions *)

Definition both_inv (init : Z) : ForwardBackwardSequenceSyncCursor * world -> Prop := λ '(c, w),
  forward_inv init (forward c, w) /\ backward_inv init (backward c, w).

Lemma both_inv_grows init c w w' : grows w w' -> both_inv init (c, w) -> both_inv init (c, w').
Proof.
  intros Hg [Hf Hb]. split; [by eapply forward_inv_grows|by eapply backward_inv_grows].
Qed.

(** Operations on a part of the cursor keep what is stored for the other part. *)
Definition monotone {C E A} (m : eff (C * world) E A) : Prop :=
  forall s, preserves (λ p : C * world, stored p.2 s) m.

Lemma monotone_bind {C E A B} (m : eff (C * world) E A) (f : A -> eff (C * world) E B) :
  monotone m -> (forall a, monotone (f a)) -> monotone (m ≫= f).
Proof. intros Hm Hf s. apply preserves_bind; [apply Hm|]. intros a. apply Hf. Qed.

Lemma monotone_world {C E A} (m : eff world E A) :
  (forall s, preserves (λ w, stored w s) m) -> monotone (C := C) (on_world m).
Proof. intros Hm s [c w] Hs. specialize (Hm s w Hs). unfold on_world. by destruct (m w). Qed.

Lemma monotone_try {C E E' A} (m : eff (C * world) E A) :
  monotone m -> monotone (eff_try (E' := E') m).
Proof. intros Hm s p Hs. specialize (Hm s p Hs). unfold eff_try. by destruct (m p) as [? [?|?|]]. Qed.

Lemma monotone_on_cursor {C E A} (m : eff C E A) : monotone (on_cursor m).
Proof. intros s [c w] Hs. unfold on_cursor. by destruct (m c). Qed.

Lemma monotone_zoom {C D E A} (get : D -> C) (set : C -> D -> D) (m : eff (C * world) E A) :
  monotone m -> monotone (zoom get set m).
Proof.
  intros Hm s [d w] Hs. specialize (Hm s (get d, w) Hs). unfold zoom.
  by destruct (m (get d, w)) as [[c w'] r].
Qed.

Lemma monotone_ret {C E A} (a : A) : monotone (C := C) (E := E) (mret a).
Proof. by intros s p. Qed.
Lemma monotone_lift {C E A} (m : outcome E A) : monotone (C := C) (eff_lift m).
Proof. by intros s p. Qed.
Lemma monotone_cursor {C E} : monotone (C := C) (E := E) cursor.
Proof. by intros s [c w]. Qed.
Lemma monotone_retrieve {C E} s : monotone (C := C) (E := E) (retrieve_by_sequence s).
Proof.
  apply monotone_bind; [apply monotone_try, monotone_world; intros i; apply retrieve_keeps|].
  intros r. apply monotone_ret.
Qed.
Lemma monotone_retrieve_block {C E} s : monotone (C := C) (E := E) (retrieve_log_block_number s).
Proof.
  apply monotone_bind; [apply monotone_try, monotone_world; intros i; apply retrieve_block_keeps|].
  intros [e|[n|]]; [apply monotone_ret|case_match; [apply monotone_ret|apply monotone_lift]|].
  apply monotone_ret.
Qed.
Lemma monotone_tip {C} : monotone (C := C) (on_world sequence_and_tip).
Proof. apply monotone_world. intros i. apply tip_keeps. Qed.

#[local] Hint Resolve monotone_bind monotone_try monotone_on_cursor monotone_zoom monotone_ret
  monotone_lift monotone_cursor monotone_retrieve monotone_retrieve_block monotone_tip : mono.

(** Goes through a computation, by cases on what it matches. *)
Ltac monotone := repeat (intros; match goal with
  | |- monotone (_ ≫= _) => apply monotone_bind
  | |- monotone (match ?x with _ => _ end) => destruct x
  | |- monotone _ => solve [auto with mono]
  end).

Lemma monotone_fast_forward fuel : monotone (fast_forward fuel).
Proof. induction fuel as [|fuel IH]; cbn [fast_forward]; [apply monotone_lift|]. monotone. Qed.
Lemma monotone_rewind fuel : monotone (rewind fuel).
Proof.
  induction fuel as [|fuel IH]; cbn [rewind]; [apply monotone_lift|].
  unfold on_state. monotone.
Qed.
Lemma monotone_forward_range fuel : monotone (forward_next_range fuel).
Proof.
  apply monotone_bind; [apply monotone_fast_forward|]. intros []. monotone.
Qed.
Lemma monotone_backward_range fuel : monotone (backward_next_range fuel).
Proof. apply monotone_bind; [apply monotone_rewind|]. intros []. unfold on_state. monotone. Qed.
Lemma monotone_sequence_update logs prev : monotone (sequence_update logs prev).
Proof. unfold sequence_update. monotone. Qed.
Lemma monotone_forward_update logs : monotone (forward_update logs).
Proof. apply monotone_bind; [monotone|]. intros c. apply monotone_sequence_update. Qed.
Lemma monotone_backward_update logs : monotone (backward_update logs).
Proof.
  apply monotone_bind; [monotone|]. intros c. apply monotone_zoom, monotone_sequence_update.
Qed.

Lemma wp_frame {C E A} (m : eff (C * world) E A) Q R c w :
  monotone m -> wp m Q R (c, w) ->
  wp m (λ a p, Q a p /\ grows w p.2) (λ p, R p /\ grows w p.2) (c, w).
Proof.
  intros Hm Hw. unfold wp in *. pose proof (λ s, Hm s (c, w)) as Hg.
  by destruct (m (c, w)) as [p [a|e|]]; split.
Qed.

Lemma wp_forward {E A} init (m : eff (SyncState * world) E A) c w :
  monotone m ->
  (forall s w', forward_inv init (s, w') ->
     wp m (λ _, forward_inv init) (forward_inv init) (s, w')) ->
  both_inv init (c, w) ->
  wp (zoom forward set_forward m) (λ _, both_inv init) (both_inv init) (c, w).
Proof.
  intros Hmono Hm [Hf Hb]. apply wp_zoom. eapply wp_mono; [by apply wp_frame, Hm|..].
  - intros a [s w'] [Hs Hg]. split; [done|]. by eapply backward_inv_grows.
  - intros [s w'] [Hs Hg]. split; [done|]. by eapply backward_inv_grows.
Qed.

(** What holds between a query and its update. *)
Definition both_query (init : Z) : ForwardBackwardSequenceSyncCursor * world -> Prop := λ p,
  both_inv init p /\ (sync_direction p.1 = Backward -> synced (backward p.1) = false).

Lemma both_action_inv init fuel c w :
  both_inv init (c, w) ->
  wp (forward_backward_next_action fuel)
    (λ a, match a with Query _ _ => both_query init | Sleep _ => both_inv init end)
    (both_inv init) (c, w).
Proof.
  intros Hc. apply wp_bind.
  eapply wp_mono; [apply wp_forward; [apply monotone_forward_range| |exact Hc]| |done].
  { intros s w'. apply forward_range_inv. }
  intros [[from to]|] [c1 w1] Hc1.
  { apply wp_bind, wp_modify, wp_ret. split; [exact Hc1|done]. }
  apply wp_bind, wp_zoom. destruct Hc1 as [Hf Hb].
  eapply wp_mono; [apply wp_frame; [apply monotone_backward_range|by apply backward_range_inv]|..].
  - intros r [b w2] [[Hb2 Hs] Hg]. apply (forward_inv_grows _ _ _ _ Hg) in Hf. cbn [snd] in Hf.
    destruct r as [[from to]|]; [|by apply wp_ret].
    apply wp_bind, wp_modify, wp_ret. split; [by split|]. intros _. apply Hs. eauto.
  - intros [b w2] [Hb2 Hg]. split; [by eapply forward_inv_grows|done].
Qed.

Lemma both_update_inv init logs c w :
  both_query init (c, w) -> wp (update logs) (λ _, both_inv init) (both_inv init) (c, w).
Proof.
  intros [Hc Hd]. apply wp_bind, wp_cursor. cbn in Hd. destruct (sync_direction c).
  - apply wp_forward; [apply monotone_forward_update| |done]. intros s w'. apply forward_update_inv.
  - destruct Hc as [Hf Hb]. apply wp_zoom. eapply wp_mono;
      [apply wp_frame; [apply monotone_backward_update|apply backward_update_inv; [done|by apply Hd]]|..].
    + intros _ [b w'] [Hb' Hg]. split; [by eapply forward_inv_grows|done].
    + intros [b w'] [Hb' Hg]. split; [by eapply forward_inv_grows|done].
Qed.

(** C10. The two-way cursor leaves no gap. Over blocks, from the count of the chain when the cursor
    was made, however long the loop runs, whatever the indexer returns and however the loop
    ends: the database has every event after the one the backward cursor looks for next and
    before the one the forward cursor looks for next; once the backward cursor calls itself
    synced it has every earlier event, unless it has arrived at block 0. *)
Theorem both_ways_no_gaps (n fuel : nat) (chunk_size : u32) (w w1 : world)
    (c0 : ForwardBackwardSequenceSyncCursor)
    (Hnew : ForwardBackwardSequenceSyncCursor_new chunk_size Domain.Block w = (w1, Ok c0)) :
  let '((c, w'), _) := sync n fuel (c0, w1) in
  all_stored (uval (next_sequence (backward_cursor (backward c))) + 1)
    (uval (next_sequence (forward c))) w' /\
  (synced (backward c) = true ->
   all_stored 0 (uval (next_sequence (forward c))) w' \/
   uval (next_block (backward_cursor (backward c))) = 0).
Proof.
  apply eff_bind_ok in Hnew as (w2 & [count tip] & _ & Hnew).
  apply eff_bind_ok in Hnew as (w3 & first & Hfirst & Hnew).
  injection Hfirst as <- Hfirst. injection Hnew as <- <-.
  set (c0 := MkForwardBackwardSequenceSyncCursor _ _ _).
  pose proof (sync_inv (both_inv (uval first)) (both_query (uval first)) n fuel c0 w2) as Hs.
  destruct (sync n fuel (c0, w2)) as [[c w'] r]. destruct Hs as [[_ Hf] (_ & Hb & Hsy)].
  - intros c1 w3 w4. apply both_inv_grows.
  - intros c1 w3 w4 Hg [Hi Hd]. split; [by eapply both_inv_grows|done].
  - by intros p [Hp _].
  - intros c1 w3. apply both_action_inv.
  - intros logs c1 w3. apply both_update_inv.
  - split; [split; [done|]; intros s Hi; cbn in Hi; lia|]. split; [done|]. cbn.
    urange first. rewrite saturating_sub_val by lia. split; [intros s Hi; lia|].
    intros Hz. apply Z.eqb_eq in Hz. by left.
  - assert (Hjoin : forall a, all_stored a (uval first) w' ->
      all_stored a (uval (next_sequence (forward c))) w').
    { intros a Ha s Hi. destruct (Z.lt_ge_cases (uval s) (uval first)); [apply Ha|apply Hf]; lia. }
    split; [by apply Hjoin|]. intros E. destruct (Hsy E) as [Hz|[Hz|Ha]]; [left|by right|left].
    + intros s Hi. urange s. apply Hf. lia.
    + by apply Hjoin.
Qed.
End gaps.
