(* ===== verification/ContractSyncProgress.v ===== *)
(** * The watermark is never ahead of what is stored

    The rate-limited cursor asks for contiguous ranges of blocks, and the watermark that it
    stores after each of them, from which the next run of the agent starts, is a block below
    which every block has been queried and its events stored. Over a reliable chain a forward
    cursor comes to an end, with every event stored. *)

From S2P Require Import Prelude.
From S2P Require Import Message.
From S2P Require Import Chain.
From S2P Require Import Sealevel.
From S2P Require Import PendingOperation.
From S2P Require Import ContractSync.
From S2P Require Import ContractSyncTheorems.
From stdpp Require Import base list numbers.
From Stdlib Require Import ZArith Lia.

#[local] Open Scope Z_scope.

(** [covered w b]: the events of the block [b] have been fetched and stored. A successful query
    and store cover the blocks of the range; a watermark that is written may or may not be there
    after an error; nothing else changes either. *)
Class WatermarkView (T : Type) `{SyncEnv T} := {
  covered : world -> u32 -> Prop;
  watermark : world -> option u32
}.

Definition same_watermark `{WatermarkView T} (w w' : world) : Prop :=
  (forall b, covered w b -> covered w' b) /\ watermark w' = watermark w.

Class WatermarkLaws (T : Type) `{WatermarkView T} := {
  query_covers from to w logs w1 n w2 b :
    fetch_logs from to w = (w1, Ok logs) -> store_logs (deduped logs) w1 = (w2, Ok n) ->
    uval from <= uval b <= uval to -> covered w2 b;
  fetch_same from to w : same_watermark w (fst (fetch_logs from to w));
  finalized_same w : same_watermark w (fst (get_finalized_block_number w));
  tip_same w : same_watermark w (fst (sequence_and_tip w));
  store_same logs w : same_watermark w (fst (store_logs logs w));
  sleep_same d w : same_watermark w (sleep d w);
  now_same w : same_watermark w (fst (instant_now w));
  retrieve_watermark w w' r :
    db_retrieve_high_watermark w = (w', r) ->
    same_watermark w w' /\ (forall k, r = Ok k -> k = watermark w);
  store_watermark k w w' r :
    db_store_high_watermark k w = (w', r) ->
    (forall b, covered w b -> covered w' b) /\ watermark w' ∈ [Some k; watermark w]
}.

Section watermark.
Context `{SyncEnv T, !WatermarkView T, !WatermarkLaws T, OverflowChecks}.
Implicit Types w : world.
(** The first block that the agent is configured to index. *)
Context (first : u32).

(** Every block from the first to [b] (exclusive) is covered. *)
Definition covered_to (b : Z) w : Prop := forall x : u32, uval first <= uval x < b -> covered w x.

(** The watermark is safe to start from. *)
Definition watermark_safe w : Prop := forall k, watermark w = Some k -> covered_to (uval k) w.

Lemma covered_to_same b w w' : same_watermark w w' -> covered_to b w -> covered_to b w'.
Proof. intros [Hc _] Hb x Hx. by apply Hc, Hb. Qed.

Lemma watermark_safe_same w w' : same_watermark w w' -> watermark_safe w -> watermark_safe w'.
Proof.
  intros Hs Hw k Hk. eapply covered_to_same; [done|]. apply Hw. by rewrite <- (proj2 Hs).
Qed.

#[export] Instance same_watermark_preorder : PreOrder same_watermark.
Proof.
  split; [by intros w; split|]. intros w1 w2 w3 [C1 E1] [C2 E2]. split; [auto|congruence].
Qed.

(** Covered up to the block that is next, and to the block the cursor started from. *)
Definition reached (b : u32) (s : SyncState) : Z := Z.max (uval (start_block s)) (uval b).

(** The invariant between rounds. *)
Definition limited_inv : RateLimitedContractSyncCursor * world -> Prop := λ '(c, w),
  let s := sync_state c in
  by_blocks Forward s /\ watermark_safe w /\ covered_to (reached (next_block s) s) w.

Lemma limited_same c w w' :
  same_watermark w w' -> limited_inv (c, w) -> limited_inv (c, w').
Proof.
  intros Hs (Hb & Hw & Hc). split; [done|].
  split; [by eapply watermark_safe_same|by eapply covered_to_same].
Qed.

Lemma wp_same {C E A} (m : eff world E A) (Q : A -> C * world -> Prop) R c w :
  same_watermark w (fst (m w)) ->
  (forall a w', m w = (w', Ok a) -> same_watermark w w' -> Q a (c, w')) ->
  (forall w', same_watermark w w' -> R (c, w')) ->
  wp (on_world m) Q R (c, w).
Proof.
  intros Hs HQ HR. apply wp_world. unfold wp. destruct (m w) as [w' [a|e|]]; auto.
Qed.

Lemma wp_now {C E} (Q : Instant -> C * world -> Prop) R c w :
  (forall t w', same_watermark w w' -> Q t (c, w')) -> wp (E := E) (on_world now) Q R (c, w).
Proof.
  intros HQ. apply wp_world. unfold wp, now. pose proof (now_same w) as Hs.
  destruct (instant_now w) as [w' t]. by apply HQ.
Qed.

Lemma get_rate_limit_inv c w :
  limited_inv (c, w) -> wp get_rate_limit (λ _, limited_inv) limited_inv (c, w).
Proof.
  intros Hc. apply wp_bind, wp_cursor, wp_bind, wp_lift; [|done]. intros r _.
  case_match; [done|]. apply wp_bind, wp_now. intros t w1 S1.
  apply (limited_same _ _ _ S1) in Hc. cbn zeta. case_match; [done|].
  apply wp_bind, wp_try, wp_same; [apply finalized_same|..].
  - intros tip w2 _ S2. apply (limited_same _ _ _ S2) in Hc. apply wp_bind, wp_now.
    intros t' w3 S3. apply (limited_same _ _ _ S3) in Hc. apply Hc.
  - intros w2 S2. apply (limited_same _ _ _ S2) in Hc. split; [|done]. intros e.
    apply wp_bind, wp_world. eapply limited_same; [apply sleep_same|done].
Qed.

(** A range starts at the next block and the next block afterwards is not beyond its end. *)
Lemma forward_range_spec {E} (e : E) max tip c Q R :
  by_blocks Forward c ->
  (forall to next, uval next <= uval to + 1 ->
     Q (if uval to <? uval (next_block c) then None else Some (next_block c, to))
       (set_next_block next c)) -> R c ->
  wp (state_next_range e max tip) Q R c.
Proof.
  intros [Hm Hd] HQ HR. apply wp_bind. unfold wp at 1. cbn [eff_get]. rewrite Hm.
  apply wp_bind, wp_bind, wp_bind. unfold wp at 1. cbn [eff_get]. rewrite Hd.
  apply wp_bind, wp_lift; [|done]. intros to _. apply wp_bind, wp_lift; [|done].
  intros next Hn. apply arith_next in Hn. by apply HQ.
Qed.

(** What holds when a range has been chosen and not been queried yet. *)
Definition queried (from to : u32) : RateLimitedContractSyncCursor * world -> Prop := λ '(c, w),
  let s := sync_state c in
  by_blocks Forward s /\ watermark_safe w /\ covered_to (reached from s) w /\
  uval (next_block s) <= uval to + 1.

Lemma limited_action_inv c w :
  limited_inv (c, w) ->
  wp rate_limited_next_action
    (λ a, match a with Query from to => queried from to | Sleep _ => limited_inv end)
    limited_inv (c, w).
Proof.
  intros Hc. apply wp_bind, wp_cursor, wp_bind, wp_lift; [|done]. intros end_ _.
  apply wp_bind, wp_lift; [|done]. intros to _. apply wp_bind.
  eapply wp_mono; [by apply get_rate_limit_inv| |done].
  intros [d|] [c1 w1] Hc1; [done|].
  apply wp_bind, wp_same; [apply tip_same| |intros w2 S2; by eapply limited_same].
  intros [max tip] w2 _ S2. apply (limited_same _ _ _ S2) in Hc1.
  apply wp_bind, wp_modify, wp_bind, wp_zoom, wp_on_cursor. destruct Hc1 as (Hb & Hw & Hcov).
  apply forward_range_spec; [apply Hb| |done]. intros to' next Hnext. cbn [sync_state set_ends].
  destruct (Z.ltb_spec (uval to') (uval (next_block (sync_state c1)))) as [Hlt|Hge].
  - split; [apply Hb|]. split; [done|]. intros x Hx. apply Hcov.
    unfold reached in *. cbn in *. lia.
  - split; [apply Hb|]. split; [done|]. split; [|exact Hnext]. exact Hcov.
Qed.

Lemma u32_max_val a b : uval (u32_max a b) = Z.max (uval a) (uval b).
Proof. unfold u32_max. destruct (Z.leb_spec (uval a) (uval b)); lia. Qed.

(** After the query the blocks of the range are covered too. *)
Lemma queried_covered from to c w :
  queried from to (c, w) -> (forall b, uval from <= uval b <= uval to -> covered w b) ->
  limited_inv (c, w).
Proof.
  intros (Hb & Hw & Hcov & Hn) Hq. split; [done|]. split; [done|]. intros x Hx.
  unfold reached in *. destruct (Z.lt_ge_cases (uval x) (uval from)).
  - apply Hcov. lia.
  - destruct (Z.le_gt_cases (uval x) (uval to)); [apply Hq; lia|apply Hcov; lia].
Qed.

Lemma limited_update_inv logs c w :
  limited_inv (c, w) ->
  wp (rate_limited_update logs) (λ _, limited_inv) (λ p, watermark_safe p.2) (c, w).
Proof.
  intros (Hb & Hw & Hcov). apply wp_bind, wp_cursor, wp_world. unfold wp.
  set (k := u32_max _ _). destruct (db_store_high_watermark k w) as [w' r] eqn:Hs.
  apply store_watermark in Hs as [Hc Hk].
  assert (Hc' : forall b, covered_to b w -> covered_to b w')
    by (intros b Hx x Hi; by apply Hc, Hx).
  assert (Hw' : watermark_safe w').
  { intros k' Hk'. apply Hc'. rewrite Hk' in Hk. apply elem_of_cons in Hk as [[= ->]|Hk].
    - intros x Hx. apply Hcov. unfold k in Hx. rewrite u32_max_val in Hx.
      unfold reached. urange (next_block (sync_state c)). urange (chunk_size (sync_state c)).
      rewrite saturating_sub_val in Hx by lia. lia.
    - apply list_elem_of_singleton in Hk. by apply Hw. }
  destruct r as [a|e|]; [|done|done]. split; [done|]. split; [done|]. by apply Hc'.
Qed.

Lemma limited_round fuel c w :
  limited_inv (c, w) ->
  wp (sync_round (C := RateLimitedContractSyncCursor) fuel) (λ _, limited_inv)
    (λ p, watermark_safe p.2) (c, w).
Proof.
  intros Hc. apply wp_bind, wp_try. eapply wp_mono; [by apply limited_action_inv| |].
  2: { intros [c1 w1] Hc1. split; [by intros e|apply Hc1]. }
  intros [from to|d] [c1 w1] Hq.
  - destruct Hq as (Hb & Hw & Hcov & Hn). apply wp_bind, wp_map_err, wp_same;
      [apply fetch_same| |intros w2 S2; by eapply watermark_safe_same].
    intros logs w2 Hf S2. apply wp_bind, wp_map_err, wp_same;
      [apply store_same| |intros w3 S3; eapply watermark_safe_same; [by trans w2|done]].
    intros n w3 Hs S3. assert (S13 : same_watermark w1 w3) by (by trans w2).
    apply wp_map_err, limited_update_inv, (queried_covered from to).
    + split; [done|]. split; [by eapply watermark_safe_same|].
      split; [by eapply covered_to_same|done].
    + intros b Hb'. by eapply query_covers.
  - apply wp_world. eapply limited_same; [apply sleep_same|done].
Qed.

Lemma limited_sync n fuel c w :
  limited_inv (c, w) -> wp (sync n fuel) (λ _, limited_inv) (λ p, watermark_safe p.2) (c, w).
Proof.
  revert c w. induction n as [|n IH]; intros c w Hc; [done|]. cbn [sync]. apply wp_bind.
  eapply wp_mono; [by apply limited_round|intros _ [c1 w1]; apply IH|done].
Qed.

(** C18. Restarting from the watermark skips nothing. When the watermark of the database is safe (or
    there is none), an agent that makes its rate-limited cursor from it and runs any number of
    rounds of the loop over blocks, however they end (an error of the chain or the database, a
    panic), leaves a safe watermark: every block from the first one configured and below the
    watermark has been queried and its events stored. So it stays safe over any number of
    restarts. *)
Theorem watermark_never_skips (chunk_size : u32) (n fuel : nat) (w : world)
    (Hsafe : watermark_safe w) :
  match rate_limited_cursor chunk_size first Domain.Block w with
  | (w1, Ok c) => watermark_safe (fst (sync n fuel (c, w1))).2
  | (w1, _) => watermark_safe w1
  end.
Proof.
  unfold rate_limited_cursor. destruct (db_retrieve_high_watermark w) as [w1 o] eqn:Hr.
  apply retrieve_watermark in Hr as [S1 Hk].
  assert (H1 : watermark_safe w1) by (by eapply watermark_safe_same).
  destruct o as [o|e|]; [|done|done]. specialize (Hk o eq_refl). subst o.
  assert (Hfrom : covered_to (uval (default first (watermark w))) w1).
  { eapply covered_to_same; [exact S1|]. destruct (watermark w) as [k|] eqn:E; [by apply Hsafe|].
    intros x Hx. cbn in Hx. lia. }
  set (from := default first (watermark w)) in *.
  unfold RateLimitedContractSyncCursor_new, mbind, eff_bind.
  pose proof (tip_same w1) as S2. destruct (sequence_and_tip w1) as [w2 [[max tip]|e|]];
    cbn in S2 |- *; [|by eapply watermark_safe_same..].
  unfold now. pose proof (now_same w2) as S3. destruct (instant_now w2) as [w3 t].
  cbn in S3 |- *. assert (S13 : same_watermark w1 w3) by (by trans w2).
  set (c := MkRateLimitedContractSyncCursor _ _ _ _).
  assert (Hc : limited_inv (c, w3)).
  { split; [done|]. split; [by eapply watermark_safe_same|].
    eapply covered_to_same; [exact S13|]. unfold reached. cbn. by rewrite Z.max_id. }
  pose proof (limited_sync n fuel c w3 Hc) as Hs. unfold wp in Hs.
  destruct (sync n fuel (c, w3)) as [[c4 w4] [a|e|]]; [apply Hs|done|done].
Qed.
End watermark.

(** ** The syncing ends

    Over an indexer and a database that answer, the loop with the forward cursor stores every
    event of the chain after a number of rounds that is known beforehand; the backward cursor's
    reading of the database ends. *)

(** A chain of [count] events by sequence, in blocks up to [tip], an indexer that returns exactly
    the events of the blocks it is asked for, and a database without errors. *)
Class ReliableChain (T : Type) `{SyncEnv T, !SyncLaws T} := {
  count : u32;
  tip : u32;
  event : u32 -> T * LogMeta;
  block_at : u32 -> u32;
  event_sequence s : sequence (event s).1 = s;
  block_mono s s' : uval s <= uval s' < uval count -> uval (block_at s) <= uval (block_at s');
  block_tip s : uval s < uval count -> uval (block_at s) <= uval tip;
  tip_answers w : sequence_and_tip w = (w, Ok (Some count, tip));
  fetch_answers from to w : exists w' logs, fetch_logs from to w = (w', Ok logs) /\
    (forall s, stored w' s <-> stored w s) /\
    (forall x, x ∈ logs <-> exists s, uval s < uval count /\
       uval from <= uval (block_at s) <= uval to /\ x = event s);
  deduped_same l x : x ∈ deduped l <-> x ∈ l;
  store_answers logs w : exists w' n, store_logs logs w = (w', Ok n) /\
    (forall s, stored w' s <-> stored w s \/ exists x, x ∈ logs /\ sequence x.1 = s);
  retrieve_answers s w : exists o, db_retrieve_by_sequence s w = (w, Ok o) /\
    (is_Some o <-> stored w s);
  retrieve_block_answers s w : uval s < uval count -> stored w s ->
    db_retrieve_log_block_number s w = (w, Ok (Some (uwrap 8 (uval (block_at s)))));
  sleep_answers d w s : stored (sleep d w) s <-> stored w s
}.

Section liveness.
Context `{SyncEnv T, !SyncLaws T, !ReliableChain T, OverflowChecks}.
Implicit Types w : world.

(** What holds between rounds: the database has events of the chain only, and the next one is
    there or not before the next block. *)
Record live (c : SyncState) (w : world) : Prop := {
  live_blocks : by_blocks Forward c;
  live_chunk : uval tip + uval (chunk_size c) + 1 < umax 4;
  live_chain s : stored w s -> uval s < uval count;
  live_sequence : uval (next_sequence c) <= uval count;
  live_block : uval (next_block c) <= uval tip + 1;
  live_next : uval (next_sequence c) < uval count ->
    stored w (next_sequence c) \/ uval (next_block c) <= uval (block_at (next_sequence c))
}.

(** The rounds that are left at most. *)
Definition rank (c : SyncState) : Z :=
  (uval count - uval (next_sequence c)) * (uval tip + 2) + (uval tip + 1 - uval (next_block c)).

Lemma retrieve_by_sequence_run {C E} s (c : C) w : exists o,
  retrieve_by_sequence (E := E) s (c, w) = ((c, w), Ok o) /\ (is_Some o <-> stored w s).
Proof.
  destruct (retrieve_answers s w) as (o & Hr & Ho). exists o. split; [|done].
  unfold retrieve_by_sequence, mbind, eff_bind, eff_try, on_world. by rewrite Hr.
Qed.

Lemma retrieve_block_run {C E} s (c : C) w :
  uval s < uval count -> stored w s ->
  retrieve_log_block_number (E := E) s (c, w) = ((c, w), Ok (Some (block_at s))).
Proof.
  intros Hs Hst. unfold retrieve_log_block_number, mbind, eff_bind, eff_try, on_world.
  rewrite (retrieve_block_answers s w Hs Hst). urange (block_at s).
  assert (Hv : uval (uwrap 8 (uval (block_at s))) = uval (block_at s)).
  { apply uval_uwrap_small. change (umax 8) with (2 ^ 64). lia. }
  rewrite Hv. unfold u32_MAX. rewrite (proj2 (Z.leb_le _ _)) by lia. by rewrite uwrap_uval.
Qed.

(** The state after the loop that reads on: the first sequence that is missing. *)
Lemma fast_forward_run fuel c w :
  live c w -> uval count - uval (next_sequence c) < Z.of_nat fuel ->
  exists c', fast_forward fuel (c, w) = ((c', w), Ok tt) /\ live c' w /\
    ~ stored w (next_sequence c') /\
    all_stored (uval (next_sequence c)) (uval (next_sequence c')) w /\
    (c' = c \/ uval (next_sequence c) < uval (next_sequence c')).
Proof.
  revert c. induction fuel as [|fuel IH]; intros c Hc Hf; [destruct Hc; lia|].
  cbn [fast_forward]. destruct (retrieve_by_sequence_run (E := chain_error)
    (next_sequence c) c w) as (o & Hr & Ho).
  assert (Hstep : forall T (f : option _ -> eff (SyncState * world) chain_error T),
    (self ← cursor; log ← retrieve_by_sequence (next_sequence self); f log) (c, w) = f o (c, w)).
  { intros T0 f. unfold mbind, eff_bind, cursor. by rewrite Hr. }
  destruct o as [e|].
  2: { exists c. split; [unfold mbind, eff_bind, cursor; by rewrite Hr|]. split; [done|].
       split; [intros Hs; apply Ho in Hs as [? ?]; done|]. split; [|by left].
       intros s Hi. lia. }
  assert (Hs : stored w (next_sequence c)) by (apply Ho; eauto).
  pose proof (live_chain _ _ Hc _ Hs) as Hlt. urange count.
  assert (Hn : uval (uwrap 4 (uval (next_sequence c) + 1)) = uval (next_sequence c) + 1).
  { urange (next_sequence c). apply uval_uwrap_small. change (umax 4) with (2 ^ 32). lia. }
  set (c1 := set_next_sequence (uwrap 4 (uval (next_sequence c) + 1))
    (set_next_block (block_at (next_sequence c)) c)).
  assert (Hrun : fast_forward (S fuel) (c, w) = fast_forward fuel (c1, w)).
  { cbn [fast_forward]. unfold mbind, eff_bind, cursor. rewrite Hr.
    fold (retrieve_log_block_number (C := SyncState) (E := chain_error)).
    rewrite (retrieve_block_run _ _ _ Hlt Hs). cbn. urange (next_sequence c).
    rewrite arith_fits by (change (umax 4) with (2 ^ 32); lia). done. }
  cbn [fast_forward] in Hrun. rewrite Hrun.
  destruct (IH c1) as (c2 & Hff & Hl & Hns & Hall & Hor).
  - destruct Hc as [Hb Hch Hcn Hsq Hbl Hnx].
    split; cbn [set_next_sequence set_next_block next_sequence next_block chunk_size c1];
      [done|done|done|rewrite Hn; lia| |].
    + pose proof (block_tip _ Hlt). lia.
    + intros Hlt'. right. apply block_mono. rewrite Hn in *. lia.
  - cbn. rewrite Hn. lia.
  - assert (Hle : uval (next_sequence c) < uval (next_sequence c2)).
    { destruct Hor as [->|Hor]; cbn in *; rewrite Hn in *; lia. }
    exists c2. split; [exact Hff|]. split; [done|]. split; [done|]. split; [|by right].
    apply all_stored_cons; [|done]. cbn in Hall. by rewrite Hn in Hall.
Qed.

(** The update after a query that returned what there is leaves the cursor as it is. *)
Lemma forward_update_run c w logs :
  (forall x, x ∈ logs -> uval (next_sequence c) <= uval (sequence x.1) ->
     exists y, y ∈ logs /\ sequence y.1 = next_sequence c) ->
  forward_update logs (c, w) = ((c, w), Ok tt).
Proof.
  intros Hx. unfold forward_update, mbind, eff_bind, cursor, sequence_update.
  unfold mbind, eff_bind. cbn. set (l := List.filter _ logs).
  destruct (decide (l = [])) as [->|Hl]; [done|].
  assert (Hin : exists x, x ∈ l) by (destruct l as [|x l']; [done|exists x; left]).
  destruct Hin as [x Hin]. apply list_elem_of_In, filter_In in Hin as [Hin Hle].
  apply Z.leb_le in Hle. destruct (Hx x) as (y & Hy & E); [by apply list_elem_of_In|done|].
  assert (Hex : existsb (λ m, bool_decide (sequence m.1 = next_sequence c)) l = true).
  { apply existsb_exists. exists y. split; [|by apply bool_decide_eq_true].
    apply filter_In. split; [by apply list_elem_of_In|]. rewrite E. apply Z.leb_refl. }
  rewrite Hex. by rewrite andb_false_r.
Qed.

Lemma block_range_run {E} (e : E) max c :
  by_blocks Forward c -> uval (next_block c) <= uval tip ->
  uval tip + uval (chunk_size c) + 1 < umax 4 ->
  exists to, uval (next_block c) <= uval to <= uval tip /\
    state_next_range e max tip c =
      (set_next_block (uwrap 4 (uval to + 1)) c, Ok (Some (next_block c, to))).
Proof.
  intros [Hm Hd] Hnb Hch. urange (next_block c). urange (chunk_size c).
  exists (u32_min (uwrap 4 (uval (next_block c) + uval (chunk_size c))) tip).
  set (sum := uval (next_block c) + uval (chunk_size c)).
  assert (Hsum : uval (uwrap 4 sum) = sum) by (apply uval_uwrap_small; lia).
  assert (Hto : uval (next_block c) <= uval (u32_min (uwrap 4 sum) tip) <= uval tip).
  { unfold u32_min. rewrite Hsum. destruct (Z.leb_spec sum (uval tip)); rewrite ?Hsum; lia. }
  split; [done|]. unfold state_next_range, block_range, mbind, eff_bind, eff_get, eff_lift.
  rewrite Hm, Hd, arith_fits by (fold sum; lia). fold sum.
  rewrite arith_fits by lia. cbn. by rewrite (proj2 (Z.ltb_ge _ _)) by lia.
Qed.

(** One round: it ends without an error, and everything is stored or fewer rounds are left. *)
Lemma round_run fuel c w :
  live c w -> uval count - uval (next_sequence c) < Z.of_nat fuel ->
  exists c' w', sync_round (C := SyncState) fuel (c, w) = ((c', w'), Ok tt) /\ live c' w' /\
    grows w w' /\ uval (next_sequence c) <= uval (next_sequence c') /\
    all_stored (uval (next_sequence c)) (uval (next_sequence c')) w' /\
    (all_stored (uval (next_sequence c)) (uval count) w' \/ rank c' < rank c).
Proof.
  intros Hc Hf. destruct (fast_forward_run fuel c w Hc Hf) as (c1 & Hff & Hl & Hns & Hall & Hor).
  assert (Hle : uval (next_sequence c) <= uval (next_sequence c1))
    by (destruct Hor as [->|?]; lia).
  pose proof (live_sequence _ _ Hl) as Hsq.
  destruct (Z.eq_dec (uval (next_sequence c1)) (uval count)) as [E|E].
  - (* everything is there *)
    exists (set_next_block tip c1), (sleep (from_secs 5) w).
    split.
    { unfold sync_round, mbind, eff_bind, eff_try, next_action, ForwardSequenceSyncCursor,
        forward_next_action, forward_next_range, mbind, eff_bind. rewrite Hff. unfold on_world.
      rewrite tip_answers. cbn. by rewrite E, Z.compare_refl. }
    assert (Hg : forall a b, all_stored a b w -> all_stored a b (sleep (from_secs 5) w)).
    { intros a b Ha s Hs. by apply sleep_answers, Ha. }
    split; [|split; [by intros s Hs; apply sleep_answers|]].
    + destruct Hl as [Hb Hch Hcn _ _ _]. split; cbn; [done|done| |lia|lia|lia].
      intros s Hs. by apply Hcn, sleep_answers in Hs || apply Hcn; apply sleep_answers in Hs.
    + split; [done|]. split; [by apply Hg|]. left. apply Hg. by rewrite <- E.
  - (* a query *)
    assert (Hlt : uval (next_sequence c1) < uval count) by lia.
    destruct (live_next _ _ Hl Hlt) as [|Hnb]; [done|]. pose proof (block_tip _ Hlt) as Htip.
    destruct (block_range_run no_max_sequence (Some count) c1 (live_blocks _ _ Hl)
      ltac:(lia) (live_chunk _ _ Hl)) as (to & Hto & Hrange).
    set (c2 := set_next_block (uwrap 4 (uval to + 1)) c1) in *.
    destruct (fetch_answers (next_block c1) to w) as (w1 & logs & Hfetch & Hst1 & Hlogs).
    destruct (store_answers (deduped logs) w1) as (w2 & m & Hstore & Hst2).
    assert (Hnew : forall s, stored w2 s <-> stored w s \/
      (uval s < uval count /\ uval (next_block c1) <= uval (block_at s) <= uval to)).
    { intros s. rewrite Hst2, Hst1. split; intros [Hs|Hs]; [by left|right|by left|right].
      - destruct Hs as (x & Hx & Es). apply deduped_same, Hlogs in Hx as (s' & Hs' & Hb & ->).
        rewrite event_sequence in Es. by subst s'.
      - exists (event s). split; [|apply event_sequence]. apply deduped_same, Hlogs. exists s.
        by destruct Hs. }
    assert (Hup : forward_update (deduped logs) (c2, w2) = ((c2, w2), Ok tt)).
    { apply forward_update_run. intros x Hx Hge. apply deduped_same, Hlogs in Hx
        as (s & Hs & Hb & ->). rewrite event_sequence in Hge. cbn in Hge.
      exists (event (next_sequence c1)). split; [|apply event_sequence].
      apply deduped_same, Hlogs. exists (next_sequence c1). split; [done|]. split; [|done].
      pose proof (block_mono (next_sequence c1) s). lia. }
    exists c2, w2. split.
    { unfold sync_round, mbind, eff_bind, eff_try, next_action, ForwardSequenceSyncCursor,
        forward_next_action, forward_next_range, mbind, eff_bind. rewrite Hff. unfold on_world.
      rewrite tip_answers. cbn. rewrite (proj2 (Z.compare_lt_iff _ _) Hlt).
      unfold on_cursor. rewrite Hrange. cbn. unfold eff_map_err. rewrite Hfetch. cbn.
      rewrite Hstore. cbn.
      by rewrite Hup. }
    assert (Hg : grows w w2) by (intros s Hs; apply Hnew; by left).
    urange tip. pose proof (live_chunk _ _ Hl) as Hch. urange (chunk_size c1).
    assert (Hnext : uval (uwrap 4 (uval to + 1)) = uval to + 1).
    { apply uval_uwrap_small. urange to. lia. }
    split; [|split; [done|split; [done|split; [by eapply all_stored_grows|right]]]].
    + destruct Hl as [Hb _ Hcn _ _ _]. split; cbn -[umax uwrap]; [done|done| |done|rewrite Hnext; lia|rewrite Hnext].
      * intros s Hs. apply Hnew in Hs as [Hs|[Hs _]]; [by apply Hcn|done].
      * intros _. destruct (Z.le_gt_cases (uval (block_at (next_sequence c1))) (uval to)).
        -- left. apply Hnew. right. lia.
        -- right. lia.
    + unfold rank. cbn. rewrite Hnext. destruct Hor as [->|Hgt]; [lia|].
      pose proof (live_block _ _ Hc). urange to.
      assert (uval (next_sequence c) + 1 <= uval (next_sequence c1)) by lia. nia.
Qed.

(** C19. The loop stores every event of the chain. With a reliable indexer and database, from a
    cursor over blocks that has the events of the chain only and has not gone past the next one,
    any number of rounds ends without error; after [rank] rounds and one more the database has
    every event from the cursor's next one up to the count of the chain. The fuel is for reading
    on through the events that are stored. *)
Theorem sync_completes (n fuel : nat) (c : SyncState) (w : world) (Hc : live c w)
    (Hfuel : uval count - uval (next_sequence c) < Z.of_nat fuel) :
  exists c' w', sync n fuel (c, w) = ((c', w'), Ok tt) /\ grows w w' /\
    (rank c < Z.of_nat n -> all_stored (uval (next_sequence c)) (uval count) w').
Proof.
  revert c w Hc Hfuel. induction n as [|n IH]; intros c w Hc Hfuel.
  - exists c, w. split; [done|]. split; [reflexivity|]. intros Hr. exfalso.
    pose proof (live_block _ _ Hc). pose proof (live_sequence _ _ Hc). unfold rank in Hr.
    urange tip. nia.
  - destruct (round_run fuel c w Hc Hfuel) as (c1 & w1 & Hr & Hl & G1 & Hle & Hall & Hd).
    destruct (IH c1 w1 Hl ltac:(lia)) as (c2 & w2 & Hs & G2 & Hrest).
    exists c2, w2. split; [|split; [by trans w1|]].
    { cbn [sync]. unfold mbind, eff_bind. by rewrite Hr. }
    intros Hn. destruct Hd as [Hd|Hd]; [by eapply all_stored_grows|].
    specialize (Hrest ltac:(lia)). intros s Hi.
    destruct (Z.lt_ge_cases (uval s) (uval (next_sequence c1))); [|apply Hrest; lia].
    apply G2, Hall. lia.
Qed.
End liveness.

(** ** Reading backwards *)

Section backward.
Context `{SyncEnv T, OverflowChecks}.

(** The database does not panic, and its block numbers are blocks of the chain. *)
Record reads_ok : Prop := {
  by_sequence_ok s w : snd (db_retrieve_by_sequence s w) <> Panic;
  block_number_ok s w : snd (db_retrieve_log_block_number s w) <> Panic;
  block_number_fits s w w' num :
    db_retrieve_log_block_number s w = (w', Ok (Some num)) -> uval num <= u32_MAX
}.

Lemma retrieve_by_sequence_ok {C E} s (c : C) w : reads_ok ->
  exists w' o, retrieve_by_sequence (E := E) s (c, w) = ((c, w'), Ok o).
Proof.
  intros Hok. pose proof (by_sequence_ok Hok s w) as Hp.
  unfold retrieve_by_sequence, mbind, eff_bind, eff_try, on_world.
  destruct (db_retrieve_by_sequence s w) as [w' [o|e|]]; [by eauto|by eauto|done].
Qed.

Lemma retrieve_log_block_number_ok {C E} s (c : C) w : reads_ok ->
  exists w' o, retrieve_log_block_number (E := E) s (c, w) = ((c, w'), Ok o).
Proof.
  intros Hok. pose proof (block_number_ok Hok s w) as Hp.
  pose proof (block_number_fits Hok s w) as Hf.
  unfold retrieve_log_block_number, mbind, eff_bind, eff_try, on_world.
  destruct (db_retrieve_log_block_number s w) as [w' [[num|]|e|]]; [|by eauto|by eauto|done].
  specialize (Hf w' num eq_refl). apply Z.leb_le in Hf. rewrite Hf. by eauto.
Qed.

(** The loop of the backward cursor ends: it goes down one sequence a turn and stops at 0, so
    that with more fuel than its next sequence it returns, whatever is stored. *)
Theorem rewind_ends (Hok : reads_ok) (fuel : nat) (c : BackwardSequenceSyncCursor) (w : world)
    (Hfuel : uval (next_sequence (backward_cursor c)) < Z.of_nat fuel) :
  exists c' w', rewind fuel (c, w) = ((c', w'), Ok tt).
Proof.
  revert c w Hfuel. induction fuel as [|fuel IH]; intros c w Hf;
    urange (next_sequence (backward_cursor c)); [lia|].
  cbn [rewind]. unfold mbind, eff_bind, cursor. destruct (synced c); [by do 2 eexists|].
  destruct (retrieve_by_sequence_ok (E := chain_error) (next_sequence (backward_cursor c)) c w Hok)
    as (w1 & [e|] & ->); [|by do 2 eexists].
  case_match eqn:Hz; [by do 2 eexists|]. apply orb_false_iff in Hz as [Hz _].
  apply Z.eqb_neq in Hz.
  destruct (retrieve_log_block_number_ok (E := chain_error)
    (next_sequence (backward_cursor c)) c w1 Hok) as (w2 & b & ->).
  destruct b as [b|]; cbn; apply IH; cbn; rewrite saturating_sub_val by lia; lia.
Qed.
End backward.
