(* ===== verification/ContractSyncScenario.v ===== *)
(** * A chain of three events: the theorems on contract syncing at concrete inputs

    The events 0, 1 and 2 are in the blocks 2, 5 and 5, and the tip of the chain is block 10. The
    indexer returns the events of the blocks it is asked for, the database is a list. *)

From S2P Require Import Prelude.
From S2P Require Import Codec.
From S2P Require Import Message.
From S2P Require Import Chain.
From S2P Require Import Sealevel.
From S2P Require Import PendingOperation.
From S2P Require Import ContractSync.
From S2P Require Import ContractSyncTheorems.
From S2P Require Import ContractSyncProgress.
From stdpp Require Import base list numbers.
From Stdlib Require Import ZArith Lia.

#[local] Open Scope Z_scope.

Module SyncModel.
#[export] Instance checks : OverflowChecks := true.

Record memory := MkMemory {
  rows : list (u32 * LogMeta);
  high_watermark : option u32;
  clock : Z
}.

Definition chain_tip : u32 := uwrap 4 10.
Definition chain_count : u32 := uwrap 4 3.
Definition block_of (s : u32) : u32 := uwrap 4 (if uval s =? 0 then 2 else 5).
Definition event_of (s : u32) : u32 * LogMeta :=
  (s, MkLogMeta (uwrap 32 0) (uwrap 8 (uval (block_of s))) (uwrap 32 0) (uwrap 64 0) (uwrap 8 0)
        (MkU256 (uwrap 32 0))).
Definition events : list (u32 * LogMeta) := event_of <$> [uwrap 4 0; uwrap 4 1; uwrap 4 2].
Definition in_blocks (from to : u32) (x : u32 * LogMeta) : bool :=
  (uval from <=? uval (block_of x.1)) && (uval (block_of x.1) <=? uval to).
Definition row_of (s : u32) (w : memory) : option (u32 * LogMeta) :=
  List.find (λ x, bool_decide (x.1 = s)) (rows w).

#[export] Instance env : SyncEnv u32 := {|
  world := memory;
  chain_error := unit;
  no_max_sequence := tt;
  store_error := unit;
  sequence s := s;
  fetch_logs from to := λ w, (w, Ok (List.filter (in_blocks from to) events));
  get_finalized_block_number := λ w, (w, Ok chain_tip);
  sequence_and_tip := λ w, (w, Ok (Some chain_count, chain_tip));
  store_logs logs := λ w,
    (MkMemory (logs ++ rows w) (high_watermark w) (clock w), Ok (uwrap 4 (Z.of_nat (length logs))));
  db_retrieve_by_sequence s := λ w, (w, Ok (fst <$> row_of s w));
  db_retrieve_log_block_number s := λ w,
    (w, Ok ((λ x, uwrap 8 (uval (block_of x.1))) <$> row_of s w));
  db_retrieve_high_watermark := λ w, (w, Ok (high_watermark w));
  db_store_high_watermark k := λ w, (MkMemory (rows w) (Some k) (clock w), Ok tt);
  deduped logs := logs;
  sleep d w := MkMemory (rows w) (high_watermark w) (clock w + d);
  instant_now w := (w, clock w)
|}.

Definition has_row (w : memory) (s : u32) : Prop := exists x, x ∈ rows w /\ x.1 = s.

Lemma row_of_some s w : is_Some (row_of s w) <-> has_row w s.
Proof.
  unfold row_of, has_row. split.
  - intros [x Hx]. apply List.find_some in Hx as [Hx E]. apply bool_decide_eq_true in E.
    exists x. by rewrite list_elem_of_In.
  - intros (x & Hx & E). destruct (List.find _ _) as [y|] eqn:Hf; [done|].
    apply list_elem_of_In in Hx. eapply List.find_none in Hf; [|done]. cbn in Hf.
    by rewrite bool_decide_eq_false in Hf.
Qed.

#[export] Instance laws : SyncLaws u32.
Proof.
  refine {| stored := has_row : world -> u32 -> Prop |}; try by (intros; intros ? ?).
  - intros i logs w (x & Hx & E). exists x. split; [|done]. apply elem_of_app. by right.
  - done.
  - intros s w w' e [= <- Hr]. apply row_of_some. by destruct (row_of s w).
Defined.

Lemma in_events x : x ∈ events <-> exists s, uval s < uval chain_count /\ x = event_of s.
Proof.
  unfold events. rewrite list_elem_of_fmap. split.
  - intros (s & -> & Hs). exists s. split; [|done].
    rewrite !elem_of_cons, elem_of_nil in Hs. by destruct Hs as [->|[->|[->|[]]]].
  - intros (s & Hs & ->). exists s. split; [done|]. change (uval chain_count) with 3 in Hs.
    urange s. rewrite !elem_of_cons.
    assert (uval s = 0 \/ uval s = 1 \/ uval s = 2) as [E|[E|E]] by lia;
      [left|right; left|right; right; left]; by apply uint_eq.
Qed.

Lemma in_fetched from to x :
  x ∈ List.filter (in_blocks from to) events <->
  x ∈ events /\ uval from <= uval (block_of x.1) <= uval to.
Proof.
  by rewrite list_elem_of_In, filter_In, <- list_elem_of_In; unfold in_blocks;
    rewrite andb_true_iff, !Z.leb_le.
Qed.

Lemma block_of_val s : uval (block_of s) = if uval s =? 0 then 2 else 5.
Proof. unfold block_of. by destruct (uval s =? 0). Qed.

#[export] Instance reliable : ReliableChain u32.
Proof.
  refine {| count := chain_count; tip := chain_tip; event := event_of; block_at := block_of |};
    try done.
  - intros s s' Hs. rewrite !block_of_val. destruct (Z.eqb_spec (uval s) 0);
      destruct (Z.eqb_spec (uval s') 0); lia || (urange s; lia).
  - intros s _. rewrite block_of_val. change (uval chain_tip) with 10. case_match; lia.
  - intros from to w. do 2 eexists. split; [done|]. split; [done|]. intros x.
    rewrite in_fetched, in_events. split.
    + intros [(s & Hs & ->) Hb]. by exists s.
    + intros (s & Hs & Hb & ->). split; [by exists s|done].
  - intros logs w. do 2 eexists. split; [done|]. intros s. unfold stored; cbn.
    unfold has_row; cbn. split.
    + intros (x & Hx & E). apply elem_of_app in Hx as [Hx|Hx]; [right|left]; by exists x.
    + intros [(x & Hx & E)|(x & Hx & E)]; exists x; (split; [|done]); apply elem_of_app; auto.
  - intros s w. eexists. split; [done|]. rewrite fmap_is_Some. apply row_of_some.
  - intros s w Hs Hst. apply row_of_some in Hst as [x Hx]. cbn. rewrite Hx. cbn.
    apply List.find_some in Hx as [_ E]. apply bool_decide_eq_true in E. by rewrite E.
Defined.

(** ** The theorems at concrete inputs *)

Definition empty : world (T := u32) := MkMemory [] None 0.
Definition start : SyncState :=
  ForwardSequenceSyncCursor_new (uwrap 4 3) (uwrap 4 0) (uwrap 4 0) Domain.Block (uwrap 4 0).

(** Four rounds store the three events. *)
Example sync_stores : (λ s, fst <$> row_of s (fst (sync 4 5 (start, empty))).2) <$> (fst <$> events)
  = Some <$> (fst <$> events).
Proof. by vm_compute. Qed.

Lemma sync_completes_witness : exists c' w',
  sync 50 5 (start, empty) = ((c', w'), Ok tt) /\ grows empty w' /\
  (rank start < 50 -> all_stored (uval (next_sequence start)) (uval count) w').
Proof.
  apply (sync_completes 50 5 start empty); [|by vm_compute].
  split; try by vm_compute.
  - by intros s (x & Hx & _); apply elem_of_nil in Hx.
  - intros _. right. by vm_compute.
Defined.

Lemma both_ways_no_gaps_witness : exists w1 c0,
  ForwardBackwardSequenceSyncCursor_new (uwrap 4 3) Domain.Block empty = (w1, Ok c0) /\
  let '((c, w'), _) := sync 6 5 (c0, w1) in
  all_stored (uval (next_sequence (backward_cursor (backward c))) + 1)
    (uval (next_sequence (forward c))) w' /\
  (synced (backward c) = true ->
   all_stored 0 (uval (next_sequence (forward c))) w' \/
   uval (next_block (backward_cursor (backward c))) = 0).
Proof.
  destruct (ForwardBackwardSequenceSyncCursor_new (uwrap 4 3) Domain.Block empty)
    as [w1 [c0|e|]] eqn:Hnew; [|by vm_compute in Hnew..].
  exists w1, c0. split; [done|]. exact (both_ways_no_gaps 6 5 (uwrap 4 3) empty w1 c0 Hnew).
Defined.

(** The blocks whose events are in the database. *)
#[export] Instance view : WatermarkView u32 := {|
  covered := λ (w : world) b, forall x, x ∈ events -> block_of x.1 = b -> stored w x.1;
  watermark := high_watermark
|}.

#[export] Instance watermark_laws : WatermarkLaws u32.
Proof.
  split; try by intros.
  - intros from to w logs w1 n w2 b [= <- <-] [= <- <-] Hb x Hx E. exists x. split; [|done].
    refine (proj2 (elem_of_app _ _ _) (or_introl _)). apply in_fetched. by rewrite E.
  - intros logs w. split; [|done]. intros b Hb x Hx E. destruct (Hb x Hx E) as (y & Hy & Ey).
    exists y. split; [|done]. cbn. apply elem_of_app. by right.
  - intros w w' r [= <- <-]. split; [done|]. by intros k [= <-].
  - intros k w w' r [= <- <-]. split; [done|]. left.
Defined.

Lemma watermark_never_skips_witness :
  watermark_safe (uwrap 4 1) empty /\
  match rate_limited_cursor (uwrap 4 3) (uwrap 4 1) Domain.Block empty with
  | (w1, Ok c) => watermark_safe (uwrap 4 1) (fst (sync 8 1 (c, w1))).2
  | (w1, _) => watermark_safe (uwrap 4 1) w1
  end.
Proof.
  assert (Hs : watermark_safe (uwrap 4 1) empty) by done.
  split; [exact Hs|]. exact (watermark_never_skips (uwrap 4 1) (uwrap 4 3) 8 1 empty Hs).
Defined.

Definition backward_start : BackwardSequenceSyncCursor :=
  BackwardSequenceSyncCursor_new (uwrap 4 3) (uwrap 4 10) (uwrap 4 10) Domain.Block (uwrap 4 2) false.
Definition filled : world (T := u32) := MkMemory events None 0.

Lemma rewind_ends_witness : exists c' w',
  rewind 3 (backward_start, filled) = ((c', w'), Ok tt).
Proof.
  apply (rewind_ends (T := u32)); [split; try done|by vm_compute].
  intros s w w' num [= <- Hr]. destruct (row_of s w) as [x|]; [|done].
  injection Hr as <-. rewrite (block_of_val x.1). by destruct (uval x.1 =? 0).
Defined.
End SyncModel.
