(* ===== verification/HelloWorld.v ===== *)
(** * The hello-world program ([sealevel/programs/helloworld/src])

    [accounts.rs], [instruction.rs] and [processor.rs]: a recipient and a sender of messages
    that counts them. *)

From S2P Require Import Prelude.
From S2P Require Import Codec.
From S2P Require Import Sealevel.
From S2P Require Import AccountUtils.
From S2P Require Import Interfaces.
From S2P Require Import Mailbox.
From S2P Require Import Igp.
From S2P Require Import ConnectionClient.
From stdpp Require Import base gmap list numbers strings sets.
From Stdlib Require Import ZArith Lia.

#[local] Open Scope Z_scope.

(** ** [accounts.rs] *)

Record HelloWorldStorage := MkHelloWorldStorage {
  local_domain : u32;
  hw_mailbox : Pubkey;
  hw_ism : option Pubkey;
  hw_igp : option (Pubkey * InterchainGasPaymasterType);
  hw_owner : option Pubkey;
  sent : u64;
  received : u64;
  sent_to : gmap u32 u64;
  received_from : gmap u32 u64;
  routers : gmap u32 H256
}.

#[export] Instance HelloWorldStorage_default : Default HelloWorldStorage :=
  MkHelloWorldStorage (uwrap 4 0) (uwrap 32 0) None None None (uwrap 8 0) (uwrap 8 0) ∅ ∅ ∅.

#[export] Instance HelloWorldStorage_size : SizedData HelloWorldStorage := λ self,
  (4 + 32 + (1 + 32) + (1 + 32 + 1 + 32) + (1 + 32) + 8 + 8
   + size (sent_to self) * (4 + 8) + size (received_from self) * (4 + 8)
   + size (routers self) * (4 + 32))%nat.

(** The setters of the fields that change *)
Definition with_owner (owner : option Pubkey) (s : HelloWorldStorage) : HelloWorldStorage :=
  MkHelloWorldStorage (local_domain s) (hw_mailbox s) (hw_ism s) (hw_igp s) owner (sent s)
    (received s) (sent_to s) (received_from s) (routers s).
Definition with_ism (ism : option Pubkey) (s : HelloWorldStorage) : HelloWorldStorage :=
  MkHelloWorldStorage (local_domain s) (hw_mailbox s) ism (hw_igp s) (hw_owner s) (sent s)
    (received s) (sent_to s) (received_from s) (routers s).
Definition with_sent (n : u64) (to : gmap u32 u64) (s : HelloWorldStorage) : HelloWorldStorage :=
  MkHelloWorldStorage (local_domain s) (hw_mailbox s) (hw_ism s) (hw_igp s) (hw_owner s) n
    (received s) to (received_from s) (routers s).
Definition with_received (n : u64) (from : gmap u32 u64) (s : HelloWorldStorage) :
    HelloWorldStorage :=
  MkHelloWorldStorage (local_domain s) (hw_mailbox s) (hw_ism s) (hw_igp s) (hw_owner s) (sent s)
    n (sent_to s) from (routers s).
Definition with_routers (rs : gmap u32 H256) (s : HelloWorldStorage) : HelloWorldStorage :=
  MkHelloWorldStorage (local_domain s) (hw_mailbox s) (hw_ism s) (hw_igp s) (hw_owner s) (sent s)
    (received s) (sent_to s) (received_from s) rs.

#[export] Instance HelloWorldStorage_access : AccessControl HelloWorldStorage := {
  ac_owner := hw_owner;
  set_owner self new_owner := Ok (with_owner new_owner self)
}.

#[export] Instance HelloWorldStorage_router : HyperlaneRouter HelloWorldStorage := {
  router self origin := routers self !! origin;
  enroll_remote_router self config :=
    r ← or_panic (config_router config);
    Ok (with_routers (<[router_domain config := r]> (routers self)) self)
}.

#[export] Instance HelloWorldStorage_client : HyperlaneConnectionClient HelloWorldStorage := {
  mailbox := hw_mailbox;
  interchain_gas_paymaster := hw_igp;
  interchain_security_module := hw_ism
}.

(** ** [instruction.rs] *)

Record Init := MkInit {
  init_local_domain : u32;
  init_mailbox : Pubkey;
  init_ism : option Pubkey;
  init_igp : option (Pubkey * InterchainGasPaymasterType);
  init_owner : option Pubkey
}.

(** The message, a [String], as its bytes. *)
Record HelloWorldMessage := MkHelloWorldMessage {
  hello_destination : u32;
  hello_message : bytes
}.

Inductive HelloWorldInstruction :=
  | InitIxn (init : Init)
  | SendHelloWorld (hello_world : HelloWorldMessage)
  | SetInterchainSecurityModule (ism : option Pubkey)
  | EnrollRemoteRouters (configs : list RemoteRouterConfig).

(** [program_storage_pda_seeds!] of [processor.rs], the form without a bump seed *)
Definition program_storage_pda_seeds : list bytes :=
  bstr <$> ["hello_world"; "-"; "handle"; "-"; "storage"]%string.

(** Instruction builders, over [Pubkey::try_find_program_address]; [?] turns an I/O error of
    Borsh into [BorshIoError]. *)
Section instructions.
Context `{Solana, BorshSerialize HelloWorldInstruction}.
Context (try_find_program_address : list bytes -> Pubkey -> option (Pubkey * u8)).

(** [init_instruction] *)
Definition init_instruction (program_id payer : Pubkey) (init : Init) :
    outcome ProgramError SolanaInstruction :=
  '(program_storage_account, _) ←
    ok_or (try_find_program_address program_storage_pda_seeds program_id) InvalidSeeds;
  data ← borsh_err (serialize (InitIxn init));
  Ok (MkInstruction program_id
        [AccountMeta_new_readonly system_program_id false; AccountMeta_new_readonly payer true;
         AccountMeta_new program_storage_account false] data).

(** [enroll_remote_routers_instruction] *)
Definition enroll_remote_routers_instruction (program_id owner : Pubkey)
    (configs : list RemoteRouterConfig) : outcome ProgramError SolanaInstruction :=
  '(program_storage_account, _) ←
    ok_or (try_find_program_address program_storage_pda_seeds program_id) InvalidSeeds;
  data ← borsh_err (serialize (EnrollRemoteRouters configs));
  Ok (MkInstruction program_id
        [AccountMeta_new_readonly system_program_id false;
         AccountMeta_new program_storage_account false; AccountMeta_new owner true] data).

(** [set_interchain_security_module_instruction] *)
Definition set_interchain_security_module_instruction (program_id owner : Pubkey)
    (ism : option Pubkey) : outcome ProgramError SolanaInstruction :=
  '(program_storage_account, _) ←
    ok_or (try_find_program_address program_storage_pda_seeds program_id) InvalidSeeds;
  data ← borsh_err (serialize (SetInterchainSecurityModule ism));
  Ok (MkInstruction program_id
        [AccountMeta_new program_storage_account false; AccountMeta_new owner true] data).
End instructions.

(** ** [processor.rs] *)

Definition HANDLE_GAS_AMOUNT : u64 := uwrap 8 50000.

(** [counters.entry(k).and_modify(|c| *c += 1).or_insert(1)] *)
Definition count `{OverflowChecks} (k : u32) (counters : gmap u32 u64) :
    outcome ProgramError (gmap u32 u64) :=
  match counters !! k with
  | Some c => c ← arith 8 (uval c + 1); Ok (<[k := c]> counters)
  | None => Ok (<[k := uwrap 8 1]> counters)
  end.

(** [counters.entry(k).or_insert(0)] *)
Definition init_counter (k : u32) (counters : gmap u32 u64) : gmap u32 u64 :=
  match counters !! k with
  | Some _ => counters
  | None => <[k := uwrap 8 0]> counters
  end.

Section processor.
Context `{Solana, OverflowChecks}.
Context `{BorshSerialize bool, BorshDeserialize bool}.
Context `{BorshSerialize HelloWorldStorage, BorshDeserialize HelloWorldStorage}.

(** [HelloWorldStorageAccount::fetch(&mut &storage_info.data.borrow()[..])?.into_inner()] *)
Definition fetch_storage (storage_info : AccountInfo) : prog HelloWorldStorage :=
  d ← data_of storage_info;
  lift (AccountData.fetch (T := HelloWorldStorage) d).

(** The check of the key of the storage account, then its fetch. *)
Definition verify_and_fetch_storage (program_id : Pubkey) (storage_info : AccountInfo) :
    prog HelloWorldStorage :=
  let '(storage_pda_key, _) := find_program_address program_storage_pda_seeds program_id in
  require (bool_decide (key storage_info = storage_pda_key)) InvalidArgument;;
  fetch_storage storage_info.

(** [init] *)
Definition init (program_id : Pubkey) (accounts_iter : list AccountInfo) (init : Init) :
    prog unit :=
  (* Account 0: System program. *)
  '(system_program_info, accounts_iter) ← next_account_info accounts_iter;
  require (bool_decide (key system_program_info = system_program_id)) InvalidArgument;;
  (* Account 1: Payer. *)
  '(payer_info, accounts_iter) ← next_account_info accounts_iter;
  require (is_signer payer_info) MissingRequiredSignature;;
  (* Account 2: Storage PDA. *)
  '(storage_info, _) ← next_account_info accounts_iter;
  let '(storage_pda_key, storage_pda_bump_seed) :=
    find_program_address program_storage_pda_seeds program_id in
  require (bool_decide (key storage_info = storage_pda_key)) InvalidArgument;;
  let storage := MkHelloWorldStorage (init_local_domain init) (init_mailbox init)
    (init_ism init) (init_igp init) (init_owner init) (uwrap 8 0) (uwrap 8 0) ∅ ∅ ∅ in
  rent ← lift Rent_get;
  create_pda_account payer_info rent (AccountData.size storage) program_id system_program_info
    storage_info (with_bump program_storage_pda_seeds storage_pda_bump_seed);;
  AccountData.store storage storage_info false.

(** The accounts of the gas payment of [send_hello_world], in the order [PayForGas] expects. *)
Definition hello_igp_payment_accounts (storage : HelloWorldStorage)
    (system_program_info payer_info unique_message_account_info : AccountInfo)
    (accounts_iter : list AccountInfo) :
    prog (option (list AccountMeta * list AccountInfo)) :=
  match interchain_gas_paymaster storage with
  | None => mret None
  | Some (igp_program_id, igp_account_type) =>
      (* Account 9: The IGP program *)
      '(igp_program_account_info, accounts_iter) ← next_account_info accounts_iter;
      require (bool_decide (key igp_program_account_info = igp_program_id)) InvalidArgument;;
      (* Account 10: The IGP program data. *)
      '(igp_program_data_account_info, accounts_iter) ← next_account_info accounts_iter;
      (* Account 11: The gas payment PDA. *)
      '(igp_payment_pda_account_info, accounts_iter) ← next_account_info accounts_iter;
      (* Account 12: The configured IGP account. *)
      '(configured_igp_account_info, accounts_iter) ← next_account_info accounts_iter;
      require (bool_decide (key configured_igp_account_info = paymaster_key igp_account_type))
        InvalidArgument;;
      let metas :=
        [AccountMeta_new_readonly system_program_id false;
         AccountMeta_new (key payer_info) true;
         AccountMeta_new (key igp_program_data_account_info) false;
         AccountMeta_new_readonly (key unique_message_account_info) true;
         AccountMeta_new (key igp_payment_pda_account_info) false] in
      let infos :=
        [system_program_info; payer_info; igp_program_data_account_info;
         unique_message_account_info; igp_payment_pda_account_info] in
      match igp_account_type with
      | IgpType _ =>
          mret (Some (metas ++ [AccountMeta_new (key configured_igp_account_info) false],
                      infos ++ [configured_igp_account_info]))
      | OverheadIgpType _ =>
          (* Account 13: The inner IGP account. *)
          '(inner_igp_account_info, _) ← next_account_info accounts_iter;
          mret (Some
            (metas ++ [AccountMeta_new (key inner_igp_account_info) false;
                       AccountMeta_new_readonly (key configured_igp_account_info) false],
             infos ++ [inner_igp_account_info; configured_igp_account_info]))
      end
  end.

Context `{BorshSerialize Mailbox.Instruction, BorshSerialize Igp.Instruction}.
Context `{TryFromSlice H256}.

(** [send_hello_world] *)
Definition send_hello_world (program_id : Pubkey) (accounts_iter : list AccountInfo)
    (hello_world : HelloWorldMessage) : prog unit :=
  (* Account 0: Program storage. *)
  '(storage_info, accounts_iter) ← next_account_info accounts_iter;
  storage ← verify_and_fetch_storage program_id storage_info;
  (* Account 1: Mailbox program. *)
  '(_, accounts_iter) ← next_account_info accounts_iter;
  (* Account 2: Outbox PDA. *)
  '(mailbox_outbox_info, accounts_iter) ← next_account_info accounts_iter;
  (* Account 3: Dispatch authority. *)
  '(dispatch_authority_info, accounts_iter) ← next_account_info accounts_iter;
  let '(expected_dispatch_authority_key, expected_dispatch_authority_bump) :=
    find_program_address mailbox_message_dispatch_authority_pda_seeds program_id in
  require (bool_decide (key dispatch_authority_info = expected_dispatch_authority_key))
    InvalidArgument;;
  (* Account 4: System program. *)
  '(system_program_info, accounts_iter) ← next_account_info accounts_iter;
  (* Account 5: SPL Noop program. *)
  '(spl_noop_info, accounts_iter) ← next_account_info accounts_iter;
  (* Account 6: Payer. *)
  '(payer_info, accounts_iter) ← next_account_info accounts_iter;
  (* Account 7: Unique message account. *)
  '(unique_message_account_info, accounts_iter) ← next_account_info accounts_iter;
  (* Account 8: Dispatched message PDA. *)
  '(dispatched_message_info, accounts_iter) ← next_account_info accounts_iter;
  let dispatch_account_metas :=
    [AccountMeta_new (key mailbox_outbox_info) false;
     AccountMeta_new_readonly (key dispatch_authority_info) true;
     AccountMeta_new_readonly (key system_program_info) false;
     AccountMeta_new_readonly (key spl_noop_info) false;
     AccountMeta_new (key payer_info) true;
     AccountMeta_new_readonly (key unique_message_account_info) true;
     AccountMeta_new (key dispatched_message_info) false] in
  let dispatch_account_infos :=
    [mailbox_outbox_info; dispatch_authority_info; system_program_info; spl_noop_info;
     payer_info; unique_message_account_info; dispatched_message_info] in
  igp_payment_accounts ← hello_igp_payment_accounts storage system_program_info payer_info
    unique_message_account_info accounts_iter;
  let dispatch_authority_seeds :=
    with_bump mailbox_message_dispatch_authority_pda_seeds expected_dispatch_authority_bump in
  match igp_payment_accounts with
  | Some (igp_payment_account_metas, igp_payment_account_infos) =>
      (* Dispatch the message and pay for gas. *)
      router_dispatch_with_gas storage program_id dispatch_authority_seeds
        (hello_destination hello_world) (hello_message hello_world) HANDLE_GAS_AMOUNT
        dispatch_account_metas dispatch_account_infos igp_payment_account_metas
        igp_payment_account_infos;;
      mret tt
  | None =>
      (* Dispatch the message. *)
      dispatch storage program_id dispatch_authority_seeds (hello_destination hello_world)
        (hello_message hello_world) dispatch_account_metas dispatch_account_infos;;
      mret tt
  end;;
  total ← lift (arith 8 (uval (sent storage) + 1));
  to ← lift (count (hello_destination hello_world) (sent_to storage));
  AccountData.store (with_sent total to storage) storage_info false.

(** [handle]; the log of a message panics unless it is UTF-8. *)
Definition handle (program_id : Pubkey) (accounts_iter : list AccountInfo)
    (handle : HandleInstruction) : prog unit :=
  (* Account 0: Process authority specific to this program. *)
  '(process_authority, accounts_iter) ← next_account_info accounts_iter;
  (* Account 1: Storage PDA account. *)
  '(storage_info, _) ← next_account_info accounts_iter;
  storage ← fetch_storage storage_info;
  (* Verify the process authority *)
  let '(expected_process_authority_key, _) :=
    find_program_address (mailbox_process_authority_pda_seeds program_id) (hw_mailbox storage) in
  require (bool_decide (key process_authority = expected_process_authority_key))
    InvalidArgument;;
  require (is_signer process_authority) MissingRequiredSignature;;
  (* Increment counters *)
  total ← lift (arith 8 (uval (received storage) + 1));
  from ← lift (count (handle_origin handle) (received_from storage));
  AccountData.store (with_received total from storage) storage_info false;;
  if utf8_valid (handle_message handle) then mret tt else panic.

(** [set_interchain_security_module] *)
Definition process_set_interchain_security_module (program_id : Pubkey)
    (accounts_iter : list AccountInfo) (ism : option Pubkey) : prog unit :=
  (* Account 0: Storage PDA account. *)
  '(storage_info, accounts_iter) ← next_account_info accounts_iter;
  storage ← verify_and_fetch_storage program_id storage_info;
  (* Account 1: Owner. *)
  '(owner_info, _) ← next_account_info accounts_iter;
  lift (ensure_owner_signer storage owner_info);;
  AccountData.store (with_ism ism storage) storage_info false.

(** [get_interchain_security_module] *)
Definition get_interchain_security_module `{BorshSerialize (option Pubkey)}
    (program_id : Pubkey) (accounts_iter : list AccountInfo) : prog unit :=
  (* Account 0: Storage PDA account. *)
  '(storage_info, _) ← next_account_info accounts_iter;
  storage ← verify_and_fetch_storage program_id storage_info;
  ism ← lift (borsh_err (serialize (hw_ism storage)));
  set_return_data ism.

(** [set_account_meta_return_data] *)
Definition set_account_meta_return_data
    `{BorshSerialize (SimulationReturnData (list SerializableAccountMeta))}
    (program_id : Pubkey) : prog unit :=
  let '(storage_pda_key, _) := find_program_address program_storage_pda_seeds program_id in
  let account_metas := [SerializableAccountMeta_from (AccountMeta_new storage_pda_key false)] in
  bytes ← lift (borsh_err (serialize (SimulationReturnData_new account_metas)));
  set_return_data bytes.

(** The loop of [enroll_remote_routers] over the counters. *)
Definition init_counters (configs : list RemoteRouterConfig) (storage : HelloWorldStorage) :
    HelloWorldStorage :=
  foldl (λ s c,
    with_received (received s) (init_counter (router_domain c) (received_from s))
      (with_sent (sent s) (init_counter (router_domain c) (sent_to s)) s)) storage configs.

(** [enroll_remote_routers] *)
Definition process_enroll_remote_routers (program_id : Pubkey)
    (accounts_iter : list AccountInfo) (configs : list RemoteRouterConfig) : prog unit :=
  (* Account 0: System program. *)
  '(system_program_info, accounts_iter) ← next_account_info accounts_iter;
  require (bool_decide (key system_program_info = system_program_id)) InvalidArgument;;
  (* Account 1: Storage PDA account. *)
  '(storage_info, accounts_iter) ← next_account_info accounts_iter;
  storage ← verify_and_fetch_storage program_id storage_info;
  (* Account 2: Owner. *)
  '(owner_info, _) ← next_account_info accounts_iter;
  lift (ensure_owner_signer storage owner_info);;
  let storage := init_counters configs storage in
  storage ← lift (enroll_remote_routers_only_owner storage owner_info configs);
  rent ← lift Rent_get;
  AccountData.store_with_rent_exempt_realloc storage storage_info rent owner_info.

(** [process_instruction] *)
Definition process_instruction `{BorshSerialize (option Pubkey)}
    `{BorshSerialize (SimulationReturnData (list SerializableAccountMeta))}
    `{TryFromSlice HandleInstruction, TryFromSlice HelloWorldInstruction}
    (program_id : Pubkey) (accounts : list AccountInfo) (instruction_data : bytes) :
    prog unit :=
  match Recipient.decode instruction_data with
  | Panic => panic
  | Ok InterchainSecurityModule => get_interchain_security_module program_id accounts
  | Ok InterchainSecurityModuleAccountMetas => set_account_meta_return_data program_id
  | Ok (Handle instruction) => handle program_id accounts instruction
  | Ok (HandleAccountMetas _) => set_account_meta_return_data program_id
  | Err _ =>
      ixn ← lift (map_err (λ _, InvalidInstructionData)
        (try_from_slice (A := HelloWorldInstruction) instruction_data));
      match ixn with
      | InitIxn mailbox => init program_id accounts mailbox
      | SendHelloWorld hello_world => send_hello_world program_id accounts hello_world
      | SetInterchainSecurityModule ism =>
          process_set_interchain_security_module program_id accounts ism
      | EnrollRemoteRouters configs => process_enroll_remote_routers program_id accounts configs
      end
  end.
End processor.
