(* ===== verification/HelloWorldTheorems.v ===== *)
(** * The hello-world program counts what it sends and receives

    What each instruction does to the storage, the invariant of the counters over every
    instruction, and when the storage account has room for its contents. *)

From S2P Require Import Prelude.
From S2P Require Import Codec.
From S2P Require Import Keccak.
From S2P Require Import Sealevel.
From S2P Require Import AccountUtils.
From S2P Require Import Interfaces.
From S2P Require Import Mailbox.
From S2P Require Import Concrete.
From S2P Require Import Igp.
From S2P Require Import ConcreteIgp.
From S2P Require Import ConnectionClient.
From S2P Require Import TokenCorrect.
From S2P Require Import ConcreteToken.
From S2P Require Import HelloWorld.
From stdpp Require Import base gmap list numbers strings sets.
From Stdlib Require Import ZArith Lia.

#[local] Open Scope Z_scope.

(** ** Counters *)

(** The sum of the counters. *)
Definition total (m : gmap u32 u64) : Z := map_fold (λ _ (c : u64) acc, uval c + acc) 0 m.

Lemma total_empty : total ∅ = 0.
Proof. apply map_fold_empty. Qed.

Lemma total_insert k c m : m !! k = None -> total (<[k := c]> m) = uval c + total m.
Proof.
  intros Hk. unfold total. apply (map_fold_insert_L (λ _ (c : u64) acc, uval c + acc)); [|done].
  intros. lia.
Qed.

Lemma total_lookup k c m : m !! k = Some c -> total m = uval c + total (delete k m).
Proof.
  intros Hk. rewrite <- (total_insert k) by apply lookup_delete_eq. by rewrite insert_delete_id.
Qed.

(** One more for [k]. *)
Definition counted (k : u32) (m : gmap u32 u64) : gmap u32 u64 :=
  <[k := uwrap 8 (match m !! k with Some c => uval c + 1 | None => 1 end)]> m.

Lemma count_ok `{OverflowChecks} k m m' : count k m = Ok m' -> m' = counted k m.
Proof.
  unfold count, counted. destruct (m !! k) as [c|]; [|congruence]. intros Hc.
  apply bind_ok in Hc as (c' & Ha & Hc). apply arith_ok in Ha as ->. by injection Hc as <-.
Qed.

Lemma total_counted k m : total (counted k m) mod 2 ^ 64 = (total m + 1) mod 2 ^ 64.
Proof.
  unfold counted. destruct (m !! k) as [c|] eqn:Hk.
  - rewrite <- insert_delete_eq, total_insert by apply lookup_delete_eq.
    rewrite (total_lookup _ _ _ Hk), uval_uwrap. change (umax 8) with (2 ^ 64).
    rewrite Zplus_mod_idemp_l. f_equal. lia.
  - rewrite total_insert by done. change (uval (uwrap 8 1)) with 1. f_equal. lia.
Qed.

Lemma total_init_counter k m : total (init_counter k m) = total m.
Proof. unfold init_counter. destruct (m !! k) eqn:Hk; [done|]. by rewrite total_insert. Qed.

(** The two totals are the sums of the counters by domain, modulo the width of a total. *)
Definition agree (s : HelloWorldStorage) : Prop :=
  uval (sent s) = total (sent_to s) mod 2 ^ 64 /\
  uval (received s) = total (received_from s) mod 2 ^ 64.

Lemma plus_one_mod (x : u64) t :
  uval x = t mod 2 ^ 64 -> uval (uwrap 8 (uval x + 1)) = (t + 1) mod 2 ^ 64.
Proof.
  intros Hx. rewrite uval_uwrap, Hx. change (umax 8) with (2 ^ 64).
  by rewrite Zplus_mod_idemp_l.
Qed.

(** What sending to and receiving from a domain make of the storage. *)
Definition has_sent (destination : u32) (s : HelloWorldStorage) : HelloWorldStorage :=
  with_sent (uwrap 8 (uval (sent s) + 1)) (counted destination (sent_to s)) s.
Definition has_received (origin : u32) (s : HelloWorldStorage) : HelloWorldStorage :=
  with_received (uwrap 8 (uval (received s) + 1)) (counted origin (received_from s)) s.

Lemma agree_sent destination s : agree s -> agree (has_sent destination s).
Proof. intros [Hs Hr]. split; [|done]. cbn. by rewrite total_counted, (plus_one_mod _ _ Hs). Qed.

Lemma agree_received origin s : agree s -> agree (has_received origin s).
Proof. intros [Hs Hr]. split; [done|]. cbn. by rewrite total_counted, (plus_one_mod _ _ Hr). Qed.

Lemma agree_init_counters configs s : agree s -> agree (init_counters configs s).
Proof.
  revert s. induction configs as [|c configs IH]; intros s Hs; [done|].
  unfold init_counters. cbn [foldl]. apply IH. destruct Hs as [Hs Hr].
  split; cbn; by rewrite total_init_counter.
Qed.

(** Enrolling changes the routers only. *)
Lemma enroll_routers_ok configs s s' :
  enroll_remote_routers s configs = Ok s' -> exists rs, s' = with_routers rs s.
Proof.
  revert s. induction configs as [|c configs IH]; intros s He.
  - injection He as <-. exists (routers s). by destruct s.
  - apply bind_ok in He as (s1 & H1 & He). apply bind_ok in H1 as (r & _ & H1).
    injection H1 as <-. apply IH in He as [rs ->]. by exists rs.
Qed.

(** ** The storage account *)

Definition storage_key `{Solana} (program_id : Pubkey) : Pubkey :=
  fst (find_program_address program_storage_pda_seeds program_id).

Section hello.
Context `{SolanaLaws, OverflowChecks}.
Context `{BorshSerialize bool, BorshDeserialize bool, !BorshBool}.
Context `{BorshSerialize HelloWorldStorage, BorshDeserialize HelloWorldStorage}.
Context `{!BorshLaws HelloWorldStorage}.
Context `{BorshSerialize Mailbox.Instruction, BorshSerialize Igp.Instruction}.
Context `{TryFromSlice H256}.
Implicit Types w : world.

Definition storage_at w (k : Pubkey) (s : HelloWorldStorage) : Prop :=
  AccountData.fetch (fst (content w k)) = Ok s.

Lemma fetch_storage_ok si w r :
  fetch_storage si w = Ok r -> exists s, storage_at w (key si) s /\ r = (s, w).
Proof.
  intros Hf. unfold fetch_storage in Hf. prog_step Hf. apply lift_ok in Hf as (s & Hs & ->).
  by exists s.
Qed.

Lemma verify_storage_ok program_id si w r :
  verify_and_fetch_storage program_id si w = Ok r ->
  exists s, key si = storage_key program_id /\ storage_at w (key si) s /\ r = (s, w).
Proof.
  intros Hf. unfold verify_and_fetch_storage in Hf. unfold storage_key.
  destruct (find_program_address _ _) as [k b]. prog_step Hf.
  apply fetch_storage_ok in Hf as (s & Hs & ->). by exists s.
Qed.

(** The account [k] has the storage [s] in [w'], and nothing else has changed since [w]. *)
Definition stored_at w w' (k : Pubkey) (s : HelloWorldStorage) : Prop :=
  storage_at w' k s /\ frame w w' /\ forall k', k' <> k -> content w' k' = content w k'.

Lemma stored_at_content w w' k s b tail o :
  frame w w' -> serialize s = Ok b ->
  (forall k', content w' k' = if decide (k' = k) then (byte 1 :: b ++ tail, o) else content w k') ->
  stored_at w w' k s.
Proof.
  intros Hf Hs Hc. split; [|split; [done|]].
  - unfold storage_at. rewrite Hc, decide_True by done. by apply fetch_stored.
  - intros k' Hk. by rewrite Hc, decide_False.
Qed.

Lemma store_storage_ok s i w r :
  AccountData.store s i false w = Ok r ->
  exists w', r = (tt, w') /\ stored_at w w' (key i) s.
Proof.
  intros Hs. apply store_content in Hs as (_ & _ & w' & b & tail & -> & Hb & Hf & Hc).
  exists w'. split; [done|]. eapply stored_at_content; [done|done|].
  intros k. rewrite Hc. case_decide; [subst; done|done].
Qed.

Lemma store_realloc_storage_ok s i rent payer w r :
  AccountData.store_with_rent_exempt_realloc s i rent payer w = Ok r ->
  exists w', r = (tt, w') /\ stored_at w w' (key i) s.
Proof.
  intros Hs. apply store_with_rent_exempt_realloc_content in Hs
    as (_ & _ & w' & b & tail & -> & Hb & Hf & Hc).
  exists w'. split; [done|]. eapply stored_at_content; [done|done|].
  intros k. rewrite Hc. case_decide; [subst; done|done].
Qed.

(** ** Receiving *)

Lemma handle_ok program_id accts h w r :
  handle program_id accts h w = Ok r ->
  exists ai si rest s w', accts = ai :: si :: rest /\ r = (tt, w') /\
    storage_at w (key si) s /\ is_signer ai = true /\
    key ai = fst (find_program_address (mailbox_process_authority_pda_seeds program_id)
                    (hw_mailbox s)) /\
    utf8_valid (handle_message h) = true /\
    stored_at w w' (key si) (has_received (handle_origin h) s).
Proof.
  intros Hr. unfold handle in Hr. do 2 (prog_step Hr).
  apply st_bind_ok in Hr as (s & w1 & Hs & Hr). apply fetch_storage_ok in Hs as (s' & Hs & [= -> ->]).
  destruct (find_program_address _ _) as [pk pb] eqn:Hpk. do 4 (prog_step Hr).
  match goal with Ha : arith _ _ = Ok _ |- _ => apply arith_ok in Ha as -> end.
  match goal with Ha : count _ _ = Ok _ |- _ => apply count_ok in Ha as -> end.
  apply st_bind_ok in Hr as ([] & w1 & Hst & Hr).
  apply store_storage_ok in Hst as (w' & [= ->] & Hst).
  destruct (utf8_valid _) eqn:Hu; [|done]. injection Hr as <-.
  eexists _, _, _, s', w'. split_and!; try done; by rewrite Hpk.
Qed.

(** ** Sending *)

Lemma hello_igp_accounts_ok s sys pi ui l w p w' :
  hello_igp_payment_accounts s sys pi ui l w = Ok (p, w') ->
  w' = w /\ (is_Some p <-> is_Some (hw_igp s)).
Proof.
  intros Hi. unfold hello_igp_payment_accounts in Hi.
  change (interchain_gas_paymaster s) with (hw_igp s) in Hi.
  destruct (hw_igp s) as [[igp t]|].
  - do 6 (prog_step Hi). destruct t.
    + by injection Hi as <- <-.
    + prog_step Hi. by injection Hi as <- <-.
  - by injection Hi as <- <-.
Qed.

(** The mailbox, called for the message [body] to [destination] with the signature of the
    dispatch authority, left [w'] and returned an id. *)
Definition mailbox_called (program_id : Pubkey) (s : HelloWorldStorage) (destination : u32)
    (body : bytes) w w' : Prop :=
  exists recipient data metas infos returned (id : H256),
    routers s !! destination = Some recipient /\
    Mailbox.into_instruction_data (OutboxDispatchIxn
      (MkOutboxDispatch program_id destination recipient body)) = Ok data /\
    sol_invoke_signed (MkInstruction (hw_mailbox s) metas data) infos
      [with_bump mailbox_message_dispatch_authority_pda_seeds
         (snd (find_program_address mailbox_message_dispatch_authority_pda_seeds program_id))] w
      = Ok w' /\
    return_data w' = Some (hw_mailbox s, returned) /\ try_from_slice returned = Ok id.

Lemma send_hello_world_ok program_id accts h w r :
  send_hello_world program_id accts h w = Ok r ->
  exists si rest s w1 w2 w', accts = si :: rest /\ r = (tt, w') /\
    key si = storage_key program_id /\ storage_at w (key si) s /\
    mailbox_called program_id s (hello_destination h) (hello_message h) w w1 /\
    match hw_igp s with
    | None => w2 = w1
    | Some (igp, _) => exists metas data infos id,
        serialize (PayForGasIxn (MkPayForGas id (hello_destination h) HANDLE_GAS_AMOUNT)) = Ok data /\
        sol_invoke_signed (MkInstruction igp metas data) infos [] w1 = Ok w2
    end /\
    stored_at w2 w' (key si) (has_sent (hello_destination h) s).
Proof.
  intros Hr. unfold send_hello_world in Hr. prog_step Hr.
  apply st_bind_ok in Hr as (s & w1 & Hs & Hr).
  apply verify_storage_ok in Hs as (s' & Hk & Hs & [= -> ->]). do 3 (prog_step Hr).
  unfold mailbox_called.
  destruct (find_program_address mailbox_message_dispatch_authority_pda_seeds _) as [ak ab].
  do 6 (prog_step Hr). cbv zeta in Hr. apply st_bind_ok in Hr as (p & w1 & Hi & Hr).
  apply hello_igp_accounts_ok in Hi as [-> Hp].
  apply st_bind_ok in Hr as ([] & w2 & Hd & Hr). do 2 (prog_step Hr).
  match goal with Ha : arith _ _ = Ok _ |- _ => apply arith_ok in Ha as -> end.
  match goal with Ha : count _ _ = Ok _ |- _ => apply count_ok in Ha as -> end.
  apply store_storage_ok in Hr as (w' & -> & Hst). destruct p as [[metas infos]|].
  - apply st_bind_ok in Hd as (id & w3 & Hd & Hx). injection Hx as ->.
    unfold router_dispatch_with_gas in Hd. apply st_bind_ok in Hd as (id' & w1 & Hd & Hpay).
    apply dispatch_ok in Hd as (rec & data & w1' & ret & id2 & Hro & Hdata & Hinv & Hret & Hid & [= -> ->]).
    prog_step Hpay.
    match goal with Ho : ok_or _ _ = Ok ?x |- _ => destruct x as [igp0 t0] end.
    do 2 (prog_step Hpay). injection Hpay as <- <-.
    eexists _, _, s', w1', _, w'. split_and!; try done.
    + by eexists rec, data, _, _, ret, id2.
    + change (interchain_gas_paymaster s') with (hw_igp s') in *.
      destruct (hw_igp s') as [[igp t]|]; [|done].
      match goal with He : expect _ = Ok _ |- _ => rewrite expect_ok in He end.
      cbn [ok_or] in *. simplify_eq. by eexists _, _, _, id2.
  - apply st_bind_ok in Hd as (id & w3 & Hd & Hx). injection Hx as ->.
    apply dispatch_ok in Hd as (rec & data & w1' & ret & id2 & Hro & Hdata & Hinv & Hret & Hid & [= -> ->]).
    eexists _, _, s', w1', w1', w'. split_and!; try done.
    + by eexists rec, data, _, _, ret, id2.
    + destruct (hw_igp s'); [|done]. by destruct (proj2 Hp (ex_intro _ _ eq_refl)).
Qed.

(** ** The counters are right *)

(** What the program finds in its storage account agrees. *)
Definition counters_right (program_id : Pubkey) w : Prop :=
  forall s, storage_at w (storage_key program_id) s -> agree s.

Lemma stored_right program_id w w' k s :
  (k = storage_key program_id -> agree s) -> stored_at w w' k s ->
  counters_right program_id w -> counters_right program_id w'.
Proof.
  intros Hs (Hst & _ & Hk) Hw s' Hs'. destruct (decide (storage_key program_id = k)) as [<-|Hne].
  - assert (s' = s) as -> by (unfold storage_at in *; congruence). by apply Hs.
  - apply Hw. unfold storage_at in *. by rewrite Hk in Hs'.
Qed.

Lemma init_right program_id accts i w r :
  init program_id accts i w = Ok r -> counters_right program_id r.2.
Proof.
  intros Hr. unfold init in Hr. do 5 (prog_step Hr). unfold counters_right, storage_key.
  destruct (find_program_address _ _) as [k b]. do 2 (prog_step Hr). cbv zeta in Hr.
  apply st_bind_ok in Hr as ([] & w1 & _ & Hr).
  apply store_storage_ok in Hr as (w' & -> & Hst & _). cbn [fst snd]. intros s Hs.
  unfold storage_at in *. subst k. rewrite Hs in Hst. injection Hst as ->.
  split; cbn; by rewrite total_empty.
Qed.

Lemma set_ism_right program_id accts ism w r :
  process_set_interchain_security_module program_id accts ism w = Ok r ->
  counters_right program_id w -> counters_right program_id r.2.
Proof.
  intros Hr Hw. unfold process_set_interchain_security_module in Hr. prog_step Hr.
  apply st_bind_ok in Hr as (s & w1 & Hs & Hr).
  apply verify_storage_ok in Hs as (s' & Hk & Hs & [= -> ->]). do 2 (prog_step Hr).
  apply store_storage_ok in Hr as (w' & -> & Hst). eapply stored_right; [|done|done].
  intros _. rewrite Hk in Hs. apply (Hw _ Hs).
Qed.

Lemma enroll_right program_id accts configs w r :
  process_enroll_remote_routers program_id accts configs w = Ok r ->
  counters_right program_id w -> counters_right program_id r.2.
Proof.
  intros Hr Hw. unfold process_enroll_remote_routers in Hr. do 3 (prog_step Hr).
  apply st_bind_ok in Hr as (s & w1 & Hs & Hr).
  apply verify_storage_ok in Hs as (s' & Hk & Hs & [= -> ->]). do 4 (prog_step Hr).
  match goal with He : enroll_remote_routers_only_owner _ _ _ = Ok _ |- _ =>
    apply bind_ok in He as ([] & _ & He); apply enroll_routers_ok in He as [rs ->] end.
  apply store_realloc_storage_ok in Hr as (w' & -> & Hst). eapply stored_right; [|done|done].
  intros _. rewrite Hk in Hs. apply (agree_init_counters configs), (Hw _ Hs).
Qed.

(** C30. The counters stay right, whatever the instruction: when a call of the program succeeds, in
    the storage account the total of sent messages is still the sum of the counters by
    destination, and the total of received ones that of the counters by origin (modulo the
    width of a total, in a build without overflow checks). *)
Theorem hello_counters_right
    `{BorshSerialize (option Pubkey), TryFromSlice HandleInstruction}
    `{BorshSerialize (SimulationReturnData (list SerializableAccountMeta))}
    `{TryFromSlice HelloWorldInstruction}
    (program_id : Pubkey) (accts : list AccountInfo) (data : bytes) w w'
    (Hw : counters_right program_id w)
    (Hrun : process_instruction program_id accts data w = Ok (tt, w')) :
  counters_right program_id w'.
Proof.
  change w' with ((tt, w').2). revert Hrun. generalize (tt, w') as r. intros r Hr.
  unfold process_instruction in Hr. destruct (Recipient.decode data) as [[| |h|h]|e|]; [..|done].
  - unfold get_interchain_security_module in Hr. prog_step Hr.
    apply st_bind_ok in Hr as (s & w1 & Hs & Hr).
    apply verify_storage_ok in Hs as (s' & Hk & Hs & [= -> ->]). prog_step Hr.
    by injection Hr as <-.
  - unfold set_account_meta_return_data in Hr. destruct (find_program_address _ _).
    prog_step Hr. by injection Hr as <-.
  - apply handle_ok in Hr as (ai & si & rest & s & w1 & -> & -> & Hs & _ & _ & _ & Hst).
    eapply stored_right; [|done|done]. intros E. apply agree_received, Hw. by rewrite <- E.
  - unfold set_account_meta_return_data in Hr. destruct (find_program_address _ _).
    prog_step Hr. by injection Hr as <-.
  - prog_step Hr. match goal with Hi : map_err _ _ = Ok ?ixn |- _ => destruct ixn end.
    + by eapply init_right.
    + apply send_hello_world_ok in Hr as (si & rest & s & w1 & w2 & w3 & -> & -> & Hk & Hs & _ & _ & Hst).
      destruct Hst as [Hst _]. intros s' Hs'. cbn [fst snd] in Hs'. rewrite <- Hk in Hs'.
      assert (s' = has_sent (hello_destination hello_world) s) as ->
        by (unfold storage_at in *; congruence).
      apply agree_sent, Hw. by rewrite <- Hk.
    + by eapply set_ism_right.
    + by eapply enroll_right.
Qed.

(** ** Room for the storage *)

(** The length of the Borsh format: an option is a byte and its content, a map the number of
    its entries in four bytes and the entries. *)
Definition option_length {A} (n : nat) (o : option A) : nat :=
  match o with Some _ => (1 + n)%nat | None => 1%nat end.
Definition storage_length (s : HelloWorldStorage) : nat :=
  (4 + 32 + option_length 32 (hw_ism s) + option_length (32 + 1 + 32) (hw_igp s)
   + option_length 32 (hw_owner s) + 8 + 8 + (4 + size (sent_to s) * (4 + 8))
   + (4 + size (received_from s) * (4 + 8)) + (4 + size (routers s) * (4 + 32)))%nat.

Class StorageFormat := serialized_length (s : HelloWorldStorage) b :
  serialize s = Ok b -> length b = storage_length s.

(** An option is not used. *)
Definition some_unused (s : HelloWorldStorage) : Prop :=
  hw_ism s = None \/ hw_igp s = None \/ hw_owner s = None.

Lemma storage_fits s : (storage_length s <= sized s)%nat <-> some_unused s.
Proof.
  unfold storage_length, sized, HelloWorldStorage_size, some_unused.
  destruct (hw_ism s), (hw_igp s), (hw_owner s); cbn [option_length];
    (split; [intros Hl; try (exfalso; lia); auto|intros [|[|]]; try done; lia]).
Qed.

(** C39. An account of the size that the program asks for has room for the storage exactly when the
    security module, the gas paymaster or the owner is not set: the size leaves out the lengths
    of the three maps, and an option that is not set makes up for them. When all three are
    set, a new account is too small for what the program stores in it at once, and the
    initialisation always fails. *)
Theorem hello_storage_room `{!StorageFormat} (s : HelloWorldStorage) (b : bytes)
    (payer sys i : AccountInfo) (rent : Rent) (owner : Pubkey) (seeds : list bytes) w w1
    (Hb : serialize s = Ok b) (Hsize : Z.of_nat (AccountData.size s) < 2 ^ 64)
    (Hi : is_writable i = true /\ executable i = false /\ key i ∉ borrowed w)
    (Hc : create_pda_account payer rent (AccountData.size s) owner sys i seeds w = Ok (tt, w1)) :
  (exists w2, AccountData.store s i false w1 = Ok (tt, w2)) <-> some_unused s.
Proof.
  destruct Hi as (Hwr & Hex & Hbo). rewrite <- storage_fits, <- (serialized_length s b Hb).
  apply create_pda_account_content in Hc as (wa & [= <-] & Hf & Hc); [|done].
  specialize (Hc (key i)). rewrite decide_True in Hc by done. unfold AccountData.size in Hc.
  assert (Hin : forall d, AccountData.store_in_slice s (fst (content w1 (key i))) = Ok d ->
    (length b <= sized s)%nat).
  { intros d Hd. apply store_in_slice_ok in Hd as (b' & Hb' & Hl & _).
    assert (b' = b) as -> by congruence. rewrite Hc in Hl. cbn [fst] in Hl.
    rewrite length_replicate in Hl. lia. }
  split.
  - intros [w2 Hs]. apply store_ok in Hs as (_ & _ & _ & d & Hd & _). by eapply Hin.
  - intros Hl. unfold AccountData.store_in_slice in Hin.
    assert (Hser : AccountData.serialized s = Ok (byte 1 :: b))
      by (unfold AccountData.serialized; rewrite serialize_bool, Hb; done).
    eexists. apply store_ok. split_and!; [done|done|by destruct Hf as [_ ->]|].
    eexists. split; [|done]. unfold AccountData.store_in_slice. rewrite Hser, Hc.
    cbn [mbind outcome_bind fst]. rewrite decide_True; [done|].
    cbn [length]. rewrite length_replicate. lia.
Qed.
End hello.

(** ** The hello-world program at concrete inputs

    The Borsh format of its storage, and the theorems applied to a program that is initialised
    and receives a message. *)

Module HelloWorldModel.
Import BorshModel RuntimeModel TokenModel.

#[export] Instance Storage_ser : BorshSerialize HelloWorldStorage := λ s,
  to ← ser_map to_le (sent_to s);
  from ← ser_map to_le (received_from s);
  rs ← ser_map to_be (routers s);
  Ok (to_le (local_domain s) ++ to_be (hw_mailbox s) ++ ser_option (hw_ism s)
      ++ ser_igp (hw_igp s) ++ ser_option (hw_owner s) ++ to_le (sent s) ++ to_le (received s)
      ++ to ++ from ++ rs).

#[export] Instance Storage_de : BorshDeserialize HelloWorldStorage :=
  domain ← slice_read_exact 4; mailbox ← slice_read_exact 32; ism ← read_option;
  igp ← read_igp; owner ← read_option; sent ← slice_read_exact 8;
  received ← slice_read_exact 8; to ← read_map read_u64; from ← read_map read_u64;
  rs ← read_map read_h256;
  mret (MkHelloWorldStorage (from_le 4 domain) (from_be 32 mailbox) ism igp owner
          (from_le 8 sent) (from_le 8 received) to from rs).

#[export] Instance Storage_laws : BorshLaws HelloWorldStorage.
Proof.
  intros [d m ism igp o n1 n2 to from rs] b rest Hb. unfold serialize, Storage_ser in Hb.
  apply bind_ok in Hb as (st & Ht & Hb). apply bind_ok in Hb as (sf & Hf & Hb).
  apply bind_ok in Hb as (sr & Hr & Hb). apply (inj Ok) in Hb as <-.
  unfold deserialize, Storage_de.
  cbn [local_domain hw_mailbox hw_ism hw_igp hw_owner sent received sent_to received_from
    routers] in *. decode.
  rewrite (st_bind_eq _ _ _ _ _ (read_option_app ism _)).
  rewrite (st_bind_eq _ _ _ _ _ (read_igp_app igp _)).
  rewrite (st_bind_eq _ _ _ _ _ (read_option_app o _)). decode.
  rewrite (st_bind_eq _ _ _ _ _ (read_map_app _ _ token_read_u64_app to _ _ Ht)).
  rewrite (st_bind_eq _ _ _ _ _ (read_map_app _ _ token_read_u64_app from _ _ Hf)).
  rewrite (st_bind_eq _ _ _ _ _ (read_map_app _ _ read_h256_app rs _ _ Hr)).
  unfold mret, ST_ret. by autorewrite with hyp.
Qed.

Lemma ser_map_length {V} (ser : V -> bytes) n (m : gmap u32 V) b :
  (forall v, length (ser v) = n) -> ser_map ser m = Ok b ->
  length b = (4 + size m * (4 + n))%nat.
Proof.
  intros Hn Hb. unfold ser_map, ser_entries in Hb. case_decide as Hd; [|done]. clear Hd.
  apply (inj Ok) in Hb as <-. rewrite length_app, length_to_le.
  rewrite <- (length_map_to_list (M := gmap u32) m).
  assert (Hp : forall p, length (ser_pair ser p) = (4 + n)%nat).
  { intros [k v]. unfold ser_pair. by rewrite length_app, length_to_le, Hn. }
  induction (map_to_list m) as [|p l IH]; [done|].
  cbn [fmap list_fmap concat length]. rewrite length_app, Hp. lia.
Qed.

Lemma ser_option_length o : length (ser_option o) = option_length 32 o.
Proof. destruct o as [k|]; [|done]. cbn [ser_option length]. by rewrite length_to_be. Qed.

Lemma ser_igp_length o : length (ser_igp o) = option_length (32 + 1 + 32) o.
Proof.
  destruct o as [[p [k|k]]|]; [..|done]; cbn [ser_igp];
    by rewrite !length_app, !length_to_be.
Qed.

#[export] Instance Storage_format : StorageFormat.
Proof.
  intros s b Hb. unfold serialize, Storage_ser in Hb.
  apply bind_ok in Hb as (st & Ht & Hb). apply bind_ok in Hb as (sf & Hf & Hb).
  apply bind_ok in Hb as (sr & Hr & Hb). apply (inj Ok) in Hb as <-.
  apply (ser_map_length _ 8) in Ht; [|intros v; apply length_to_le].
  apply (ser_map_length _ 8) in Hf; [|intros v; apply length_to_le].
  apply (ser_map_length _ 32) in Hr; [|intros v; apply length_to_be].
  rewrite !length_app, !length_to_le, length_to_be, !ser_option_length, ser_igp_length.
  unfold storage_length. lia.
Qed.

#[export] Instance metas_ser :
    BorshSerialize (SimulationReturnData (list SerializableAccountMeta)) := λ d,
  Ok (concat ((λ m, to_be (sam_pubkey m)) <$> srd_return_data d) ++ [trailing_byte d]).

(** The instructions that the witnesses run. *)
#[export] Instance HelloWorldInstruction_try : TryFromSlice HelloWorldInstruction :=
  whole (tag ← slice_read_exact 1;
    if uval (from_le 1 tag) =? 2 then o ← read_option; mret (SetInterchainSecurityModule o)
    else throw InvalidData).

Definition pid : Pubkey := uwrap 32 77.
Definition mailbox_id : Pubkey := uwrap 32 88.
Definition payer : AccountInfo := MkAccountInfo (uwrap 32 5) true true false.
Definition system_info : AccountInfo := MkAccountInfo system_id false false true.
Definition storage_info : AccountInfo := MkAccountInfo (storage_key pid) false true false.
Definition authority_info : AccountInfo :=
  MkAccountInfo (fst (find_program_address (mailbox_process_authority_pda_seeds pid) mailbox_id))
    true false false.

Definition world0 : world :=
  MkWorld {[key payer := MkAccount (uwrap 8 100000) [] system_id]} ∅ None pid.
Definition config : Init :=
  MkInit (uwrap 4 9) mailbox_id None None (Some (key payer)).
Definition world1 : world :=
  after (init pid [system_info; payer; storage_info] config world0).

Lemma hello_init_runs : init pid [system_info; payer; storage_info] config world0 = Ok (tt, world1).
Proof.
  apply (after_ok (init pid [system_info; payer; storage_info] config)). by vm_compute.
Qed.

(** The instruction that delivers a message from the domain 3. *)
Definition delivery : bytes :=
  HANDLE_DISCRIMINATOR ++ to_le (uwrap 4 3 : u32) ++ to_be (uwrap 32 6 : H256)
    ++ to_le (uwrap 4 2 : u32) ++ bstr "hi".

Lemma delivery_runs :
  process_instruction pid [authority_info; storage_info] delivery world1 =
  Ok (tt, after (process_instruction pid [authority_info; storage_info] delivery world1)).
Proof.
  apply (after_ok (process_instruction pid [authority_info; storage_info] delivery)).
  by vm_compute.
Qed.

Lemma hello_counters_right_witness : exists w',
  counters_right pid world1 /\
  process_instruction pid [authority_info; storage_info] delivery world1 = Ok (tt, w') /\
  counters_right pid w'.
Proof.
  eexists. split; [exact (init_right pid _ _ _ _ hello_init_runs)|]. split; [exact delivery_runs|].
  exact (hello_counters_right pid _ _ _ _ (init_right pid _ _ _ _ hello_init_runs) delivery_runs).
Defined.

(** With every option set the store into the new account fails. *)
Definition full : HelloWorldStorage :=
  MkHelloWorldStorage (uwrap 4 9) mailbox_id (Some (uwrap 32 1))
    (Some (uwrap 32 2, IgpType (uwrap 32 3))) (Some (key payer)) (uwrap 8 0) (uwrap 8 0) ∅ ∅ ∅.

Definition rent : Rent := MkRent (λ n, uwrap 8 (10 * Z.of_nat n)) (λ _ _, true).
Definition created : world :=
  after (create_pda_account payer rent (AccountData.size full) pid system_info storage_info []
    world0).

Lemma create_full_runs :
  create_pda_account payer rent (AccountData.size full) pid system_info storage_info [] world0
  = Ok (tt, created).
Proof.
  apply (after_ok (create_pda_account payer rent (AccountData.size full) pid system_info
    storage_info [])). by vm_compute.
Qed.

Lemma hello_storage_room_witness :
  (exists w2, AccountData.store full storage_info false created = Ok (tt, w2))
  <-> some_unused full.
Proof.
  destruct (serialize full) as [b|e|] eqn:Hb; [|by vm_compute in Hb..].
  apply (hello_storage_room full b payer system_info storage_info rent pid [] world0 created);
    [exact Hb|by vm_compute| |exact create_full_runs].
  split_and!; [done|done|]. apply not_elem_of_empty.
Defined.
End HelloWorldModel.
