(* ===== verification/ApiServer.v ===== *)
(** * The API server ([agents/apiserver/src])

    [api/validity.rs] and [api/api_msgs.rs]: the answers to a builder of bundles, which asks for
    the metadata and the gas limit of messages before they are dispatched; [apiserver.rs]: the
    state that the handlers share and the routes. The modules with the names of the relayer's
    are its modules, and so are their models. The chains, the signer and the database that other
    tasks write are the class [ApiClients]; at every [await] the other tasks of the agent may
    run. The texts of errors are kept, logs are left out; what [body_json] refuses never reaches
    a handler. *)

From S2P Require Import Prelude.
From S2P Require Import Codec.
From S2P Require Import Keccak.
From S2P Require Import U256.
From S2P Require Import Accumulator.
From S2P Require Import Message.
From S2P Require Import Chain.
From S2P Require Import Relayer.
From S2P Require Import Database.
From S2P Require Import MatchingList.
From S2P Require Import GasPayment.
From S2P Require Import Aggregation.
From S2P Require Import Metadata.
From stdpp Require Import base gmap list numbers strings.
From Stdlib Require Import ZArith Lia.

#[local] Open Scope Z_scope.

(** ** [api_msgs.rs] *)

Record ValidityRequest := MkValidityRequest {
  request_domain : Domain.HyperlaneDomain;
  request_message : HyperlaneMessage
}.

Record ValidityResponse := MkValidityResponse {
  response_message : HyperlaneMessage;
  response_metadata : bytes;
  response_gas_limit : uint 32;
  response_error : option string
}.

Definition new_validity_response_error (error_msg : string) : ValidityResponse :=
  MkValidityResponse
    (MkHyperlaneMessage (uwrap 1 0) (uwrap 4 0) (uwrap 4 0) (uwrap 32 0) (uwrap 4 0) (uwrap 32 0)
       [])
    [] (uwrap 32 0) (Some error_msg).

(** [ValidityResponse::is_ok] *)
Definition response_is_ok (self : ValidityResponse) : bool :=
  bool_decide (response_error self = None).

(** [ValidityBatchRequest], [ValidityBatchResponse] and its [is_ok] *)
Definition ValidityBatchRequest : Type := list ValidityRequest.
Definition ValidityBatchResponse : Type := list ValidityResponse.
Definition batch_is_ok (self : ValidityBatchResponse) : bool := forallb response_is_ok self.

(** ** The state of the server *)

(** [ChainConf] of [hyperlane-base/src/settings/chains.rs], the part that is used *)
Record CoreContractAddresses := MkCoreContractAddresses {
  mailbox_address : H256;
  interchain_gas_paymaster_address : H256;
  validator_announce_address : H256;
  merkle_tree_hook : H256
}.
Record ChainConf := MkChainConf { addresses : CoreContractAddresses }.

(** The trees of the origins, by the id of the domain, each under its own lock. *)
Definition trees_of : Type := gmap u32 MerkleTreeBuilder.

Class ApiClients `{RocksDB, BigDecimal} := {
  outside : Type;
  report : Type;
  report_to_string : report -> string;
  (** [Arc<dyn Mailbox>] of a destination, with its provider *)
  mailbox : Type;
  delivered : mailbox -> H256 -> eff outside report bool;
  is_contract : mailbox -> H256 -> eff outside report bool;
  process_estimate_costs : mailbox -> HyperlaneMessage -> bytes ->
    eff outside report TxCostEstimate;
  (** [SingletonSignerHandle::sign_hash] *)
  sign_hash : H256 -> eff outside report Codec.Signature;
  message_db : outside -> rocks;
  (** [ethers::abi::encode] of fixed 32-byte words *)
  abi_encode : list H256 -> bytes;
  (** What the other tasks of the agent do while a task awaits. *)
  others : trees_of * outside -> trees_of * outside
}.

Section server.
Context `{ApiClients, U256Ops, Keccak256}.

(** [MessageContext]; the builder of metadata and the metrics are not used. *)
Record ApiContext := MkApiContext {
  destination_mailbox : mailbox;
  context_origin_db : Domain.HyperlaneDomain;
  context_gas_payment_enforcer : GasPaymentEnforcer;
  context_transaction_gas_limit : option (uint 32)
}.

(** [State]. A map by domain is a map by its id, which is what equality and hashes of domains
    compare; [prover_syncs] holds the handles of the trees, a database is its domain. *)
Record State := MkState {
  origin_chains : gmap u32 ChainConf;
  destination_chains : gmap u32 ChainConf;
  prover_syncs : gset u32;
  dbs : gmap u32 Domain.HyperlaneDomain;
  whitelist : MatchingList;
  blacklist : MatchingList;
  msg_ctxs : gmap (u32 * u32) ApiContext
}.

(** ** [apiserver.rs] *)

(** [APIServerSettings] and what is built from them, the parts that [from_settings] uses for the
    state; [chain_setup] is [None] for a chain without configuration, and there is a mailbox for
    every destination. *)
Record ApiSettings := MkApiSettings {
  settings_origins : list Domain.HyperlaneDomain;
  settings_destinations : list Domain.HyperlaneDomain;
  gas_payment_enforcement : list GasPaymentEnforcementConf;
  settings_whitelist : MatchingList;
  settings_blacklist : MatchingList;
  settings_gas_limit : option (uint 32);
  skip_transaction_gas_limit_for : gset u32;
  chain_setup : u32 -> option ChainConf;
  mailbox_of : u32 -> mailbox
}.

(** [chain_setup(..).unwrap()] for each domain. *)
Fixpoint chain_setups (settings : ApiSettings) (domains : list Domain.HyperlaneDomain) :
    option (gmap u32 ChainConf) :=
  match domains with
  | [] => Some ∅
  | d :: domains =>
      conf ← chain_setup settings (Domain.id d);
      confs ← chain_setups settings domains;
      Some (<[Domain.id d := conf]> confs)
  end.

Definition context_of (settings : ApiSettings) (origin destination : Domain.HyperlaneDomain) :
    ApiContext :=
  MkApiContext (mailbox_of settings (Domain.id destination)) origin
    (GasPaymentEnforcer_new (gas_payment_enforcement settings) origin)
    (if bool_decide (Domain.id destination ∈ skip_transaction_gas_limit_for settings) then None
     else settings_gas_limit settings).

(** [APIServer::from_settings]: the state that [run_tide_server] shares and the trees; [None] is
    a panic. *)
Definition from_settings (settings : ApiSettings) : option (State * trees_of) :=
  tree ← Builder.new;
  destinations ← chain_setups settings (settings_destinations settings);
  origins ← chain_setups settings (settings_origins settings);
  let ids := Domain.id <$> settings_origins settings in
  Some (MkState origins destinations (list_to_set ids)
          (list_to_map ((λ o, (Domain.id o, o)) <$> settings_origins settings))
          (settings_whitelist settings) (settings_blacklist settings)
          (list_to_map (d ← settings_destinations settings; o ← settings_origins settings;
             [((Domain.id o, Domain.id d), context_of settings o d)])),
        list_to_map ((λ i, (i, tree)) <$> ids)).

(** ** [validity.rs] *)

(** The copy of [format_metadata] of the aggregation builder *)
Definition format_aggregation_meta : list SubModuleMetadata -> nat -> option bytes :=
  Aggregation.format_metadata.

Definition merkle_token_layout : list MetadataToken.MetadataToken :=
  [MetadataToken.CheckpointMerkleTreeHook; MetadataToken.MessageMerkleLeafIndex;
   MetadataToken.MessageId; MetadataToken.MerkleProof; MetadataToken.CheckpointIndex;
   MetadataToken.Signatures].

Definition message_id_token_layout : list MetadataToken.MetadataToken :=
  [MetadataToken.CheckpointMerkleTreeHook; MetadataToken.CheckpointMerkleRoot;
   MetadataToken.CheckpointIndex; MetadataToken.Signatures].

(** The closure [build_token]; [None] is the panic of a proof that is not there. *)
Definition api_build_token (metadata : MultisigMetadata) (token : MetadataToken.MetadataToken) :
    option bytes :=
  let c := ms_checkpoint (quorum_checkpoint metadata) in
  match token with
  | MetadataToken.CheckpointMerkleRoot => Some (to_be (checkpoint_root (checkpoint c)))
  | MetadataToken.MessageMerkleLeafIndex => Some (to_be (merkle_leaf_index metadata))
  | MetadataToken.CheckpointIndex => Some (to_be (checkpoint_index (checkpoint c)))
  | MetadataToken.CheckpointMerkleTreeHook =>
      Some (to_be (merkle_tree_hook_address (checkpoint c)))
  | MetadataToken.MessageId => Some (to_be (checkpoint_message_id c))
  | MetadataToken.MerkleProof => p ← proof metadata; Some (abi_encode (path p))
  | MetadataToken.Signatures =>
      Some (concat (signature_bytes <$> ms_signatures (quorum_checkpoint metadata)))
  end.

(** [format_metadata] *)
Definition api_format_metadata (t : string) (metadata : MultisigMetadata) :
    outcome string bytes :=
  token_layout ← (if bool_decide (t = "merkle"%string) then Ok merkle_token_layout
                  else if bool_decide (t = "message_id"%string) then Ok message_id_token_layout
                  else Err "no supported token layout"%string);
  metas ← or_panic (mapM (api_build_token metadata) token_layout);
  Ok (concat metas).

(** A handler; [Err] is the [Err] of its [Result]. *)
Definition api (A : Type) : Type := eff (trees_of * outside) string A.

Definition refuse {A} (message : string) : api A := eff_lift (Err message).

(** [.await]: other tasks run. *)
Definition await : api unit := λ s, (others s, Ok tt).

(** A call of a client: the error is a value. *)
Definition call {A} (m : eff outside report A) : api (report + A) :=
  await;;
  (λ '(trees, w), let '(w, r) := eff_try m w in ((trees, w), r)) : api (report + A).

(** [.expect("TODO: panic message")] *)
Definition expect_call {A} (m : eff outside report A) : api A :=
  r ← call m;
  match r with inr a => mret a | inl _ => eff_lift Panic end.

(** A read of the database *)
Definition read_message_db {E A} (m : eff rocks E A) : api (E + A) := λ '(trees, w),
  ((trees, w), match snd (m (message_db w)) with
               | Ok a => Ok (inr a)
               | Err e => Ok (inl e)
               | Panic => Panic
               end).

(** [prover.write().await.ingest_message_id(..).await..expect(..)] *)
Definition ingest (domain : u32) (id : H256) : api unit :=
  await;;
  (λ '(trees, w),
    match b ← trees !! domain; Builder.ingest_message_id b id with
    | Some (b, Ok _) => ((<[domain := b]> trees, w), Ok tt)
    | Some (b, _) => ((<[domain := b]> trees, w), Panic)
    | None => ((trees, w), Panic)
    end) : api unit.

(** [prover.read().await] *)
Definition read_tree (domain : u32) : api MerkleTreeBuilder :=
  await;;
  (λ '(trees, w), ((trees, w), or_panic (trees !! domain))) : api MerkleTreeBuilder.

(** [HyperlaneSignerExt::sign], the error as its text *)
Definition sign (value : CheckpointWithMessageId) : api SignedCheckpointWithMessageId :=
  r ← call (sign_hash (signing_hash value));
  match r with
  | inr signature => mret (MkSignedType value signature)
  | inl e => refuse (report_to_string e)
  end.

(** The destinations of the map [destination_ctxs] of a request *)
Definition other_destinations (state : State) (domain : u32) : gset u32 :=
  dom (destination_chains state) ∖ {[domain]}.

(** Building [destination_ctxs] panics when a context is missing. *)
Definition contexts_complete (state : State) (domain : u32) : bool :=
  bool_decide (set_Forall (λ d, is_Some (msg_ctxs state !! (domain, d)))
    (other_destinations state domain)).

(** [destination_ctxs[&destination]] *)
Definition destination_ctx (state : State) (domain destination : u32) : option ApiContext :=
  if bool_decide (destination ∈ other_destinations state domain)
  then msg_ctxs state !! (domain, destination) else None.

(** The metadata of [check_validity]: the message id enters the tree, the checkpoint that the
    tree is at is signed, and the proof of its last leaf completes the metadata. *)
Definition make_metadata (state : State) (domain : u32) (db_domain : Domain.HyperlaneDomain)
    (message : HyperlaneMessage) : api bytes :=
  ingest domain (Message.id message);;
  tree ← read_tree domain;
  let tree := incremental tree in
  origin_conf ← eff_lift (or_panic (origin_chains state !! Domain.id db_domain));
  root ← eff_lift (or_panic (Incremental.root tree));
  index ← eff_lift (or_panic (Incremental.index tree));
  let c := MkCheckpoint (merkle_tree_hook (addresses origin_conf)) domain root index in
  let cm := MkCheckpointWithMessageId c (Message.id message) in
  signed_check ← sign cm;
  prover ← read_tree domain;
  proof ← eff_lift (expect (Builder.get_proof prover index index));
  let mcm := MkMultisigSignedCheckpoint cm [signature signed_check] in
  let meta1 := MkMultisigMetadata mcm index (Some proof) in
  meta1raw ← eff_lift (expect (api_format_metadata "merkle" meta1));
  eff_lift (or_panic (format_aggregation_meta [MkSubModuleMetadata 0 meta1raw] 1)).

(** The checks of the destination, and the response *)
Definition check_destination (ctx : ApiContext) (message : HyperlaneMessage) (metadata : bytes) :
    api ValidityResponse :=
  is_already_delivered ← expect_call (delivered (destination_mailbox ctx) (Message.id message));
  if is_already_delivered : bool then
    refuse "Message has already been delivered, marking as submitted."
  else
    contract ← expect_call (is_contract (destination_mailbox ctx) (recipient message));
    if negb contract then refuse "Dropping message because recipient is not a contract"
    else
      tx_cost_estimate ← expect_call
        (process_estimate_costs (destination_mailbox ctx) message metadata);
      await;;
      requirement ← read_message_db (message_meets_gas_payment_requirement
        (context_gas_payment_enforcer ctx) message tx_cost_estimate);
      match requirement with
      | inl _ => eff_lift Panic
      | inr None => refuse "Gas payment requirement not met yet"
      | inr (Some _) =>
          let gas_limit := estimate_gas_limit tx_cost_estimate in
          if match context_transaction_gas_limit ctx with
             | Some max_limit => uval max_limit <? uval gas_limit
             | None => false
             end
          then refuse "Message delivery estimated gas exceeds max gas limit"
          else mret (MkValidityResponse message metadata gas_limit None)
      end.

(** [check_validity] *)
Definition check_validity (validity_request : ValidityRequest) (state : State) :
    api ValidityResponse :=
  let domain := Domain.id (request_domain validity_request) in
  let message := request_message validity_request in
  if negb (bool_decide (domain ∈ prover_syncs state)) then refuse "Prover not found"
  else
    match dbs state !! domain with
    | None => refuse "Database not found"
    | Some db_domain =>
        if negb (contexts_complete state domain) then eff_lift Panic
        else if negb (msg_matches (whitelist state) message true) then
          refuse "Message not whitelisted, skipping"
        else if msg_matches (blacklist state) message false then
          refuse "Message blacklisted, skipping"
        else if bool_decide (destination message = Domain.id db_domain) then
          refuse "Message destined for self, skipping"
        else
          metadata ← make_metadata state domain db_domain message;
          ctx ← eff_lift (or_panic (destination_ctx state domain (destination message)));
          (* [PendingMessage::from_persisted_retries]: the count of retries is not used *)
          read_message_db (HyperlaneDB.retrieve_pending_message_retry_count_by_message_id
            (context_origin_db ctx) (Message.id message));;
          check_destination ctx message metadata
    end.

(** [check_validity_request]: the status and the body of the answer *)
Definition check_validity_request (req : ValidityRequest) (state : State) :
    eff (trees_of * outside) Empty_set (Z * ValidityResponse) :=
  r ← eff_try (check_validity req state);
  match r with
  | inr validity_resp => mret (200, validity_resp)
  | inl e => mret (404, new_validity_response_error e)
  end.

(** [batch_check_validity] *)
Fixpoint batch_check_validity (requests : ValidityBatchRequest) (state : State) :
    eff (trees_of * outside) Empty_set ValidityBatchResponse :=
  match requests with
  | [] => mret []
  | request :: requests =>
      r ← eff_try (check_validity request state);
      let validity_response :=
        match r with inr resp => resp | inl e => new_validity_response_error e end in
      responses ← batch_check_validity requests state;
      mret (validity_response :: responses)
  end.

(** [batch_check_validity_request] *)
Definition batch_check_validity_request (req : ValidityBatchRequest) (state : State) :
    eff (trees_of * outside) Empty_set (Z * ValidityBatchResponse) :=
  batch_response ← batch_check_validity req state;
  mret (200, batch_response).
End server.
