(* ===== verification/ApiServerTheorems.v ===== *)
(** * What the API server's answers promise

    A positive answer passed every check of the delivery and certifies the message; a request
    that passes the filters leaves its message in the tree of its origin, whatever the answer;
    the answers of a batch build on one another. *)

From S2P Require Import Prelude.
From S2P Require Import Codec.
From S2P Require Import Keccak.
From S2P Require Import Accumulator.
From S2P Require Import Message.
From S2P Require Import U256.
From S2P Require Import Chain.
From S2P Require Import MerkleSpec.
From S2P Require Import MerkleCorrect.
From S2P Require Import IncrementalCorrect.
From S2P Require Import Relayer.
From S2P Require Import RelayerCorrect.
From S2P Require Import Database.
From S2P Require Import MatchingList.
From S2P Require Import GasPayment.
From S2P Require Import Aggregation.
From S2P Require Import Metadata.
From S2P Require Import ApiServer.
From stdpp Require Import base gmap list numbers strings sets.
From Stdlib Require Import ZArith Lia.

#[local] Open Scope Z_scope.

(** ** What the API server's metadata says

    The tree that a request leaves, and what the metadata of a request certifies, while other
    tasks may add leaves to the same tree. *)

#[local] Opaque tree_root droot.

Lemma eff_lift_ok {S E A} (m : outcome E A) (s s' : S) a :
  eff_lift m s = (s', Ok a) -> s' = s /\ m = Ok a.
Proof. by intros [= -> ->]. Qed.

(** ** The metadata of one module *)

Definition aggregation_of (raw : bytes) : bytes :=
  to_be (uwrap 4 8 : u32) ++ to_be (uwrap 4 (Z.of_nat (8 + length raw)) : u32) ++ raw.

Lemma format_single raw :
  format_aggregation_meta [MkSubModuleMetadata 0 raw] 1 = Some (aggregation_of raw).
Proof.
  unfold format_aggregation_meta, Aggregation.format_metadata. cbn [format_loop sub_index sub_metadata].
  change (METADATA_RANGE_SIZE * 2 * 1)%nat with 8%nat.
  change (METADATA_RANGE_SIZE * 2 * 0)%nat with 0%nat.
  change (0 + METADATA_RANGE_SIZE * 2)%nat with 8%nat.
  unfold splice. rewrite decide_True by (rewrite length_app, length_replicate; lia).
  cbn [mbind option_bind]. rewrite take_0, (drop_app_exact 8) by apply length_replicate.
  rewrite length_app, length_replicate. unfold aggregation_of, encode_byte_index.
  cbn [app]. by rewrite <- app_assoc.
Qed.

Section api.
Context `{ApiClients, U256Ops, Keccak256, !ZeroHashes}.
Implicit Types st : trees_of * outside.

Lemma api_merkle_layout metadata p :
  proof metadata = Some p ->
  api_format_metadata "merkle" metadata =
  Ok (let c := ms_checkpoint (quorum_checkpoint metadata) in
      to_be (merkle_tree_hook_address (checkpoint c)) ++ to_be (merkle_leaf_index metadata) ++
      to_be (checkpoint_message_id c) ++ abi_encode (path p) ++
      to_be (checkpoint_index (checkpoint c)) ++
      concat (signature_bytes <$> ms_signatures (quorum_checkpoint metadata))).
Proof.
  intros Hp. unfold api_format_metadata. rewrite bool_decide_true by done.
  cbn [mbind outcome_bind]. unfold merkle_token_layout, mapM. cbn [api_build_token].
  rewrite Hp. cbn. by rewrite app_nil_r.
Qed.

(** ** The tree of a domain *)

(** The tree of [d] holds the leaves [l]. *)
Definition tree_is (d : u32) (l : list H256) st : Prop :=
  exists b, st.1 !! d = Some b /\ builder_ok b l.

(** While a task awaits, the others add to the tree of [d] leaves that [extra] allows. *)
Definition others_add (d : u32) (extra : list H256 -> Prop) : Prop :=
  forall l st, tree_is d l st -> exists k, extra k /\ tree_is d (l ++ k) (others st).

(** The signer signed [id] as the last leaf of [L]. *)
Definition attested (hook : H256) (domain : u32) (L : list H256) (id : H256)
    (sig : Codec.Signature) : Prop :=
  exists w w', sign_hash (signing_hash (MkCheckpointWithMessageId
    (MkCheckpoint hook domain (tree_root 32 L) (uwrap 4 (Z.of_nat (length L) - 1))) id)) w
  = (w', Ok sig).

(** Metadata that names the message [id] and shows [lf], which is the last leaf of [L], under a
    signed root. The security module of the destination hashes the id of its message along the
    path, so that it can accept the metadata when [lf] is [id]. *)
Definition certifies (hook : H256) (domain : u32) (L : list H256) (lf id : H256)
    (metadata : bytes) : Prop :=
  exists p sig,
    leaf p = lf /\ last L = Some lf /\ Z.of_nat (length L) - 1 < 2 ^ 32 /\
    index p = uwrap 8 (Z.of_nat (length L) - 1) /\
    length (path p) = TREE_DEPTH /\ MerkleTree.Proof_root p = Some (tree_root 32 L) /\
    attested hook domain L id sig /\
    metadata = aggregation_of (to_be hook ++ to_be (uwrap 4 (Z.of_nat (length L) - 1) : u32) ++
      to_be id ++ abi_encode (path p) ++
      to_be (uwrap 4 (Z.of_nat (length L) - 1) : u32) ++ signature_bytes sig).

Lemma small_Z n : (n < 2 ^ 32)%nat <-> Z.of_nat n < 2 ^ 32.
Proof. rewrite <- pow32_Z. apply Nat2Z.inj_lt. Qed.

Lemma builder_small b L : builder_ok b L -> Z.of_nat (length L) < 2 ^ 32.
Proof. intros [_ [_ Hl _ _]]. by apply small_Z. Qed.

Lemma builder_index b L :
  builder_ok b L -> L <> [] ->
  Incremental.root (incremental b) = Some (tree_root 32 L) /\
  Incremental.index (incremental b) = Some (uwrap 4 (Z.of_nat (length L) - 1)) /\
  0 < Z.of_nat (length L) < 2 ^ 32.
Proof.
  intros Hb Hne. pose proof (builder_small _ _ Hb) as Hs. destruct Hb as [_ Hi].
  pose proof (incr_root _ _ Hi) as Hr. destruct Hi as [Hc Hl _ _]. clear Hl.
  assert (Hlen : 0 < Z.of_nat (length L)) by (destruct L; [done|cbn [length]; lia]).
  split; [done|]. split; [|done]. unfold Incremental.index. rewrite Hc.
  rewrite (proj2 (Z.ltb_lt _ _)) by lia. rewrite (uval_uwrap_small 4); [done|].
  change (umax 4) with (2 ^ 32). lia.
Qed.

(** Ingestion appends, or panics on a full tree. *)
Lemma builder_ingest_inv b l id b' r :
  builder_ok b l -> Builder.ingest_message_id b id = Some (b', r) ->
  r = Ok tt /\ builder_ok b' (l ++ [id]).
Proof.
  intros Hb Hi. pose proof (builder_small _ _ Hb) as Hs.
  destruct (Z.lt_ge_cases (Z.of_nat (S (length l))) (2 ^ 32)) as [Hl|Hl].
  - destruct (builder_ingest_ok b l id Hb) as (b1 & Hi1 & Hb1); [by apply small_Z|].
    rewrite Hi in Hi1. by injection Hi1 as -> ->.
  - exfalso. destruct Hb as [Hp Hinc]. unfold Builder.ingest_message_id in Hi.
    destruct (prover_ingest_ok _ _ id Hp) as (p' & Hp' & _); [by apply small_Z|].
    rewrite Hp' in Hi. cbn [mbind option_bind] in Hi.
    rewrite (incr_ingest_full _ _ id Hinc) in Hi; [done|].
    apply Nat2Z.inj. rewrite Nat2Z.inj_sub by (apply Nat2Z.inj_le; rewrite pow32_Z; done).
    rewrite pow32_Z. lia.
Qed.

Lemma ingest_ok d l id st st' r :
  tree_is d l (others st) -> ingest d id st = (st', Ok r) -> tree_is d (l ++ [id]) st'.
Proof.
  intros (b & Hb & Hok) Hi. unfold ingest, mbind, eff_bind, await in Hi.
  destruct (others st) as [trees w]. cbn in Hb. rewrite Hb in Hi. cbn [option_bind] in Hi.
  destruct (Builder.ingest_message_id b id) as [[b' res]|] eqn:Hg; [|done].
  destruct (builder_ingest_inv _ _ _ _ _ Hok Hg) as [-> Hok'].
  injection Hi as <- _. exists b'. split; [apply lookup_insert_eq|done].
Qed.

Lemma read_tree_ok d l st st' b :
  tree_is d l (others st) -> read_tree d st = (st', Ok b) -> st' = others st /\ builder_ok b l.
Proof.
  intros (b0 & Hb & Hok) Hr. unfold read_tree, mbind, eff_bind, await in Hr.
  destruct (others st) as [trees w]. cbn in Hb. rewrite Hb in Hr. cbn in Hr.
  by injection Hr as <- <-.
Qed.

(** A call of a client keeps the trees, once the others have run. *)
Lemma call_trees {A} (m : eff outside report A) st st' r :
  call m st = (st', r) -> st'.1 = (others st).1.
Proof.
  unfold call, mbind, eff_bind, await. destruct (others st) as [trees w].
  destruct (eff_try m w) as [w' res]. by intros [= <- <-].
Qed.

Lemma sign_ok value st st' signed :
  sign value st = (st', Ok signed) ->
  st'.1 = (others st).1 /\ exists w w' sig,
    sign_hash (signing_hash value) w = (w', Ok sig) /\ signed = MkSignedType value sig.
Proof.
  intros Hs. unfold sign in Hs. apply eff_bind_ok in Hs as (st1 & r & Hc & Hs).
  pose proof (call_trees _ _ _ _ Hc) as Ht. destruct r as [e|sig]; [done|].
  injection Hs as <- <-. split; [done|].
  unfold call, mbind, eff_bind, await in Hc. destruct (others st) as [trees w].
  unfold eff_try in Hc. destruct (sign_hash (signing_hash value) w) as [w' [a|e|]] eqn:Hsig;
    [|done..]. injection Hc as _ <-. by exists w, w', a.
Qed.

Lemma tree_is_trees d l st st' : st'.1 = st.1 -> tree_is d l st -> tree_is d l st'.
Proof. intros E (b & Hb & Hok). exists b. by rewrite E. Qed.

Section extra.
Context (d : u32) (extra : list H256 -> Prop).
Context (Hothers : others_add d extra) (Happ : forall k k', extra k -> extra k' -> extra (k ++ k')).

(** The metadata certifies the tree as it was when it was read: the leaves of before and the
    message's, with those that the other tasks added around it. *)
Lemma make_metadata_ok state db_domain m l st st' metadata :
  tree_is d l st -> make_metadata state d db_domain m st = (st', Ok metadata) ->
  exists conf k0 k k' lf, extra k0 /\ extra k /\ extra k' /\
    origin_chains state !! Domain.id db_domain = Some conf /\
    last (Message.id m :: k) = Some lf /\
    certifies (merkle_tree_hook (addresses conf)) d (l ++ k0 ++ Message.id m :: k) lf
      (Message.id m) metadata /\
    tree_is d (l ++ k0 ++ Message.id m :: k ++ k') st'.
Proof.
  intros Ht Hm. unfold make_metadata in Hm.
  apply eff_bind_ok in Hm as (st1 & [] & Hi & Hm).
  destruct (Hothers _ _ Ht) as (k0 & Hk0 & Ht0). apply (ingest_ok _ _ _ _ _ _ Ht0) in Hi.
  apply eff_bind_ok in Hm as (st2 & b & Hr & Hm).
  destruct (Hothers _ _ Hi) as (k & Hk & Ht1).
  apply (read_tree_ok _ _ _ _ _ Ht1) in Hr as [-> Hb]. cbv zeta in Hm.
  apply eff_bind_ok in Hm as (st3 & conf & Hc & Hm). apply eff_lift_ok in Hc as [-> Hc].
  apply or_panic_ok in Hc.
  set (L := l ++ k0 ++ Message.id m :: k).
  assert (HL : ((l ++ k0) ++ [Message.id m]) ++ k = L) by (unfold L; by rewrite <- !app_assoc).
  rewrite HL in *. assert (Hne : L <> []) by (unfold L; by destruct l, k0).
  destruct (builder_index _ _ Hb Hne) as (Hroot & Hindex & Hlen).
  apply eff_bind_ok in Hm as (st4 & root & Hx & Hm). apply eff_lift_ok in Hx as [-> Hx]. rewrite Hroot in Hx.
  injection Hx as <-.
  apply eff_bind_ok in Hm as (st4 & index & Hx & Hm). apply eff_lift_ok in Hx as [-> Hx]. rewrite Hindex in Hx.
  injection Hx as <-.
  apply eff_bind_ok in Hm as (st5 & signed & Hs & Hm). apply sign_ok in Hs as (Et & w & w' & sig & Hsig & ->).
  destruct (Hothers _ _ Ht1) as (k1 & Hk1 & Ht2). apply (tree_is_trees _ _ _ _ Et) in Ht2.
  apply eff_bind_ok in Hm as (st6 & b2 & Hr & Hm).
  destruct (Hothers _ _ Ht2) as (k2 & Hk2 & Ht3).
  apply (read_tree_ok _ _ _ _ _ Ht3) in Hr as [-> Hb2].
  apply eff_bind_ok in Hm as (st7 & p & Hp & Hm). apply eff_lift_ok in Hp as [-> Hp]. rewrite expect_ok in Hp.
  set (idx := uwrap 4 (Z.of_nat (length L) - 1)) in *.
  assert (Hidx : uval idx = Z.of_nat (length L) - 1).
  { apply uval_uwrap_small. change (umax 4) with (2 ^ 32). lia. }
  destruct (builder_proof_ok _ _ idx idx Hb2) as (pf & Hpf & Hleaf & Hpi & Hpath & Hproot).
  { rewrite Hidx, !length_app. lia. }
  rewrite Hpf in Hp. injection Hp as <-.
  apply eff_bind_ok in Hm as (st8 & raw & Hraw & Hm). apply eff_lift_ok in Hraw as [-> Hraw].
  rewrite expect_ok in Hraw. rewrite (api_merkle_layout _ pf) in Hraw by done.
  apply (inj Ok) in Hraw as <-. rewrite format_single in Hm.
  apply eff_lift_ok in Hm as [-> Hm]. apply (inj Ok) in Hm as <-.
  assert (Hn : Z.to_nat (uval idx) = pred (length L)) by (rewrite Hidx; lia).
  assert (Hlast : last L = Some (leaf pf)).
  { rewrite last_lookup. rewrite Hn, <- app_assoc, lookup_app_l in Hleaf; [done|].
    destruct L; [done|]. cbn. lia. }
  exists conf, k0, k, (k1 ++ k2), (leaf pf).
  split_and!; [done|done|by apply Happ|done|by rewrite <- Hlast; unfold L; rewrite app_assoc, last_app_cons| |].
  - fold L. exists pf, sig. fold idx. rewrite <- Hidx. split_and!; try done.
    + rewrite Hidx. lia.
    + rewrite Hproot, Hn, <- app_assoc, take_app_le; [|destruct L; [done|cbn; lia]].
      rewrite take_ge; [done|]. destruct L; [done|cbn; lia].
    + by exists w, w'.
  - unfold L in Ht3. rewrite <- !app_assoc in Ht3. cbn in Ht3. done.
Qed.
End extra.
End api.

#[local] Opaque tree_root droot.

Section api.
Context `{ApiClients, U256Ops, Keccak256, !ZeroHashes}.
Implicit Types st : trees_of * outside.

(** ** Reading off a successful run *)

Lemma call_inv {A} (m : eff outside report A) st st' r :
  call m st = (st', Ok r) -> exists w w', match r with
    | inr a => m w = (w', Ok a)
    | inl e => m w = (w', Err e)
    end.
Proof.
  unfold call, mbind, eff_bind, await. destruct (others st) as [trees w]. unfold eff_try.
  destruct (m w) as [w' [a|e|]] eqn:Hm; intros Hc; try done; injection Hc as _ <-; eauto.
Qed.

Lemma expect_call_inv {A} (m : eff outside report A) st st' a :
  expect_call m st = (st', Ok a) -> exists w w', m w = (w', Ok a).
Proof.
  intros Hc. unfold expect_call in Hc. apply eff_bind_ok in Hc as (st1 & [e|x] & Hc & Hr); [done|].
  injection Hr as _ <-. by apply (call_inv m st st1 (inr x)).
Qed.

Lemma read_message_db_inv {E A} (m : eff rocks E A) st st' r :
  read_message_db m st = (st', Ok r) ->
  match r with
  | inr a => snd (m (message_db st.2)) = Ok a
  | inl e => snd (m (message_db st.2)) = Err e
  end.
Proof.
  unfold read_message_db. destruct st as [trees w]. cbn.
  destruct (snd (m (message_db w))); [|..]; intros Hr; try done; by injection Hr as _ <-.
Qed.

(** The filters that a request passes before its message enters the tree. *)
Definition accepted (state : State) (request : ValidityRequest) : bool :=
  let domain := Domain.id (request_domain request) in
  let message := request_message request in
  match dbs state !! domain with
  | Some db_domain =>
      bool_decide (domain ∈ prover_syncs state) && contexts_complete state domain &&
      msg_matches (whitelist state) message true &&
      negb (msg_matches (blacklist state) message false) &&
      negb (bool_decide (destination message = Domain.id db_domain))
  | None => false
  end.

(** A request goes on with the metadata exactly when it passes the filters. *)
Lemma check_validity_cases request state st :
  (accepted state request = true /\ exists db_domain,
    dbs state !! Domain.id (request_domain request) = Some db_domain /\
    check_validity request state st =
    (let domain := Domain.id (request_domain request) in
     let message := request_message request in
     metadata ← make_metadata state domain db_domain message;
     ctx ← eff_lift (or_panic (destination_ctx state domain (destination message)));
     read_message_db (HyperlaneDB.retrieve_pending_message_retry_count_by_message_id
       (context_origin_db ctx) (Message.id message));;
     check_destination ctx message metadata) st) \/
  (accepted state request = false /\ fst (check_validity request state st) = st /\
   forall resp, snd (check_validity request state st) <> Ok resp).
Proof.
  unfold accepted, check_validity. cbv zeta.
  destruct (dbs state !! _) as [db_domain|]; [|right; by case_match].
  case_bool_decide; cbn [negb andb]; [|by right].
  destruct (contexts_complete _ _); cbn [negb andb]; [|by right].
  destruct (msg_matches (whitelist state) _ _); cbn [negb andb]; [|by right].
  destruct (msg_matches (blacklist state) _ _); cbn [negb andb]; [by right|].
  case_bool_decide; cbn [negb andb]; [by right|left; eauto].
Qed.

Lemma accepted_destination state request db_domain :
  accepted state request = true ->
  dbs state !! Domain.id (request_domain request) = Some db_domain ->
  destination (request_message request) <> Domain.id db_domain.
Proof.
  unfold accepted. intros Ha Hdb He. rewrite Hdb, (bool_decide_true _ He), andb_false_r in Ha.
  done.
Qed.

(** What the checks of a destination found, for the answer [resp]. *)
Record deliverable (ctx : ApiContext) (m : HyperlaneMessage) (resp : ValidityResponse) : Prop := {
  not_delivered : exists w w',
    delivered (destination_mailbox ctx) (Message.id m) w = (w', Ok false);
  to_a_contract : exists w w', is_contract (destination_mailbox ctx) (recipient m) w = (w', Ok true);
  paid_for : exists w w' cost db limit,
    process_estimate_costs (destination_mailbox ctx) m (response_metadata resp) w = (w', Ok cost) /\
    snd (message_meets_gas_payment_requirement (context_gas_payment_enforcer ctx) m cost db)
      = Ok (Some limit) /\
    response_gas_limit resp = estimate_gas_limit cost;
  within_cap : forall max, context_transaction_gas_limit ctx = Some max ->
    uval (response_gas_limit resp) <= uval max
}.

Lemma check_destination_ok ctx m metadata st st' resp :
  check_destination ctx m metadata st = (st', Ok resp) ->
  response_message resp = m /\ response_metadata resp = metadata /\ response_error resp = None /\
  deliverable ctx m resp.
Proof.
  intros Hc. unfold check_destination in Hc.
  apply eff_bind_ok in Hc as (st1 & [|] & Hd & Hc); [done|].
  apply eff_bind_ok in Hc as (st2 & [|] & Hi & Hc); [|done]. cbn [negb] in Hc.
  apply eff_bind_ok in Hc as (st3 & cost & Hp & Hc).
  apply eff_bind_ok in Hc as (st4 & [] & _ & Hc).
  apply eff_bind_ok in Hc as (st5 & req & Hg & Hc). apply read_message_db_inv in Hg.
  destruct req as [e|[limit|]]; [done| |done]. cbv zeta in Hc.
  apply expect_call_inv in Hd, Hi. apply expect_call_inv in Hp as (w & w' & Hp).
  set (capped := match context_transaction_gas_limit ctx with Some _ => _ | None => _ end) in Hc.
  destruct capped eqn:Hcap; [done|]. injection Hc as _ <-.
  split_and!; [done..|]. split; [done|done| |].
  - by exists w, w', cost, (message_db st4.2), limit.
  - intros max Hmax. unfold capped in Hcap. rewrite Hmax in Hcap. cbn. lia.
Qed.

Lemma check_validity_ok request state st st' resp :
  check_validity request state st = (st', Ok resp) ->
  let d := Domain.id (request_domain request) in
  let m := request_message request in
  accepted state request = true /\ response_message resp = m /\ response_error resp = None /\
  exists db_domain ctx st1, dbs state !! d = Some db_domain /\
    destination_ctx state d (destination m) = Some ctx /\ deliverable ctx m resp /\
    make_metadata state d db_domain m st = (st1, Ok (response_metadata resp)).
Proof.
  intros Hok. cbv zeta. destruct (check_validity_cases request state st) as
    [(Hacc & db & Hdb & He)|(_ & _ & Hno)]; [|by rewrite Hok in Hno; destruct (Hno resp)].
  rewrite He in Hok. clear He. cbv zeta in Hok.
  apply eff_bind_ok in Hok as (st1 & metadata & Hm & Hok).
  apply eff_bind_ok in Hok as (st2 & ctx & Hctx & Hok). apply eff_lift_ok in Hctx as [-> Hctx].
  apply or_panic_ok in Hctx. apply eff_bind_ok in Hok as (st3 & r & _ & Hok).
  apply check_destination_ok in Hok as (Hmsg & <- & Herr & Hdel).
  split_and!; [done..|]. by exists db, ctx, st1.
Qed.

(** ** A positive answer *)

Lemma quiet_metadata_ok d (Hquiet : others_add d (λ k, k = [])) state db_domain conf m l st st'
    metadata :
  make_metadata state d db_domain m st = (st', Ok metadata) -> tree_is d l st ->
  origin_chains state !! Domain.id db_domain = Some conf ->
  certifies (merkle_tree_hook (addresses conf)) d (l ++ [Message.id m]) (Message.id m)
    (Message.id m) metadata.
Proof.
  intros Hm Ht Hconf. apply (make_metadata_ok d _ Hquiet) with (l := l) in Hm as
    (conf' & k0 & k & k' & lf & -> & -> & _ & Hconf' & [= <-] & Hcert & _);
    [|by intros ? ? -> ->|done].
  rewrite Hconf in Hconf'. by injection Hconf' as <-.
Qed.

Section extra.
Context (d : u32) (extra : list H256 -> Prop).
Context (Hothers : others_add d extra) (Happ : forall k k', extra k -> extra k' -> extra (k ++ k')).

(** C7. A positive answer to a request is for its message, which passed the filters and every
    check of its destination. Its metadata names this message, under a root that the server's
    validator signed: that of the tree as it was read, with the leaves [k] that other tasks have
    added between the message's own, which went in first, and the read. The leaf that it proves
    is the last of that tree. It is the message's own when [k] is empty, in particular when no
    other task adds to the tree, and then nothing but it follows the leaves of before; otherwise
    the metadata carries the proof of another task's leaf, with the id of this message, since the
    write lock is released before the tree is read. *)
Theorem validity_response_sound state request l st st' resp
    (Hd : Domain.id (request_domain request) = d) (Ht : tree_is d l st)
    (Hok : check_validity request state st = (st', Ok resp)) :
  let m := request_message request in
  accepted state request = true /\ response_message resp = m /\ response_error resp = None /\
  exists db_domain conf ctx, dbs state !! d = Some db_domain /\
    destination m <> Domain.id db_domain /\
    origin_chains state !! Domain.id db_domain = Some conf /\
    destination_ctx state d (destination m) = Some ctx /\ deliverable ctx m resp /\
    (exists k0 k lf, extra k0 /\ extra k /\
       match last k with Some other => lf = other | None => lf = Message.id m end /\
       certifies (merkle_tree_hook (addresses conf)) d (l ++ k0 ++ Message.id m :: k) lf
         (Message.id m) (response_metadata resp)) /\
    (others_add d (λ k, k = []) ->
     certifies (merkle_tree_hook (addresses conf)) d (l ++ [Message.id m]) (Message.id m)
       (Message.id m) (response_metadata resp)).
Proof.
  cbv zeta. apply check_validity_ok in Hok as (Hacc & Hmsg & Herr & db & ctx & st1 & Hdb & Hctx &
    Hdel & Hm). pose proof (accepted_destination _ _ _ Hacc Hdb) as Hne. rewrite Hd in *.
  pose proof Hm as Hq. apply (make_metadata_ok d extra Hothers Happ _ _ _ l) in Hm as
    (conf & k0 & k & k' & lf & Hk0 & Hk & _ & Hconf & Hlast & Hcert & _); [|done].
  split_and!; [done..|]. exists db, conf, ctx. split_and!; [done..| |].
  - exists k0, k, lf. split_and!; [done..| |done]. rewrite last_cons in Hlast.
    destruct (last k); congruence.
  - intros Hquiet. by apply (quiet_metadata_ok d Hquiet _ _ conf _ l) in Hq.
Qed.
End extra.

(** ** The tree of a domain that other tasks leave alone *)

Lemma preserves_lift {S E A} (P : S -> Prop) (m : outcome E A) : preserves P (eff_lift m).
Proof. by intros s. Qed.

Section quiet.
Context (d : u32) (Hquiet : others_add d (λ k, k = [])).

Lemma quiet_others l st : tree_is d l st -> tree_is d l (others st).
Proof. intros Ht. destruct (Hquiet l st Ht) as (k & -> & Ht'). by rewrite app_nil_r in Ht'. Qed.

Lemma keeps_await l : preserves (tree_is d l) await.
Proof. intros st. apply quiet_others. Qed.

Lemma keeps_call {A} (m : eff outside report A) l : preserves (tree_is d l) (call m).
Proof.
  intros st Ht. destruct (call m st) as [st' r] eqn:Hc. apply call_trees in Hc.
  by apply (tree_is_trees d l (others st)), quiet_others.
Qed.

Lemma keeps_expect_call {A} (m : eff outside report A) l : preserves (tree_is d l) (expect_call m).
Proof.
  apply preserves_bind; [apply keeps_call|].
  intros [e|a]; [apply preserves_lift|apply preserves_ret].
Qed.

Lemma keeps_read_db {E A} (m : eff rocks E A) l : preserves (tree_is d l) (read_message_db m).
Proof. by intros [trees w] Ht. Qed.

Lemma keeps_read_tree l d' : preserves (tree_is d l) (read_tree d').
Proof. apply preserves_bind; [apply keeps_await|]. by intros _ [trees w] Ht. Qed.

Lemma keeps_sign l value : preserves (tree_is d l) (sign value).
Proof.
  apply preserves_bind; [apply keeps_call|].
  intros [e|a]; [apply preserves_lift|apply preserves_ret].
Qed.

#[local] Hint Resolve preserves_lift preserves_ret keeps_await keeps_call keeps_expect_call
  keeps_read_db keeps_read_tree keeps_sign : keeps.
Ltac keeps := repeat (cbv zeta; first
  [ solve [auto with keeps] | apply preserves_bind | lazymatch goal with |- forall _, _ => intro end ]).

Lemma keeps_check_destination l ctx m metadata :
  preserves (tree_is d l) (check_destination ctx m metadata).
Proof.
  unfold check_destination, refuse. keeps. all: repeat (cbv zeta; case_match; keeps).
Qed.

Lemma keeps_ingest l d' id : d' <> d -> preserves (tree_is d l) (ingest d' id).
Proof.
  intros Hd. apply preserves_bind; [apply keeps_await|]. intros _ [trees w] (b & Hb & Hok). cbn in *.
  assert (Hins : forall b', tree_is d l (<[d' := b']> trees, w)).
  { intros b'. exists b. split; [|done]. cbn [fst]. etrans; [by apply lookup_insert_ne|done]. }
  destruct (trees !! d') as [b'|]; cbn [mbind option_bind].
  - destruct (Builder.ingest_message_id b' id) as [[b1 [| |]]|]; try apply Hins. by exists b.
  - by exists b.
Qed.

Lemma ingest_total l id st :
  tree_is d l st -> Z.of_nat (S (length l)) < 2 ^ 32 ->
  exists st', ingest d id st = (st', Ok tt) /\ tree_is d (l ++ [id]) st'.
Proof.
  intros Ht%quiet_others Hl. unfold ingest, mbind, eff_bind, await.
  destruct (others st) as [trees w]. destruct Ht as (b & Hb & Hok). cbn in Hb. rewrite Hb.
  cbn [option_bind].
  destruct (builder_ingest_ok b l id Hok) as (b' & -> & Hok'); [by apply small_Z|].
  eexists. split; [done|]. exists b'. split; [apply lookup_insert_eq|done].
Qed.

(** The rest of the metadata, once the message is in the tree *)
Lemma keeps_make_metadata l state d' db_domain m :
  d' <> d -> preserves (tree_is d l) (make_metadata state d' db_domain m).
Proof. intros Hd. apply preserves_bind; [by apply keeps_ingest|]. keeps. Qed.

#[local] Hint Resolve keeps_check_destination : keeps.

Lemma make_metadata_leaf l state db_domain m st :
  tree_is d l st -> Z.of_nat (S (length l)) < 2 ^ 32 ->
  tree_is d (l ++ [Message.id m]) (fst (make_metadata state d db_domain m st)).
Proof.
  intros Ht Hl. destruct (ingest_total l (Message.id m) st Ht Hl) as (st1 & Hi & Ht1).
  unfold make_metadata. rewrite (eff_bind_eq _ _ _ _ _ Hi). clear Hi.
  match goal with |- tree_is _ _ (fst (?rest _)) => enough (Hk : preserves (tree_is d (l ++ [Message.id m])) rest) by by apply Hk end.
  keeps.
Qed.

(** The leaf that a request leaves in the tree of [d] *)
Definition leaf_of (state : State) (request : ValidityRequest) : list H256 :=
  if bool_decide (Domain.id (request_domain request) = d) && accepted state request
  then [Message.id (request_message request)] else [].

Lemma check_validity_leaf state request l st :
  tree_is d l st -> Z.of_nat (S (length l)) < 2 ^ 32 ->
  tree_is d (l ++ leaf_of state request) (fst (check_validity request state st)).
Proof.
  intros Ht Hl. unfold leaf_of. destruct (check_validity_cases request state st) as
    [(-> & db & _ & ->)|(-> & -> & _)]; [|by rewrite andb_false_r, app_nil_r].
  cbv zeta. rewrite andb_true_r. case_bool_decide as Hd.
  - rewrite Hd. pose proof (make_metadata_leaf l state db (request_message request) st Ht Hl) as Hk.
    unfold mbind at 1, eff_bind at 1. destruct (make_metadata _ _ _ _ st) as [st1 [a|e|]];
      [|done..]. cbn [fst] in Hk. revert st1 Hk.
    match goal with |- forall s, _ -> tree_is _ _ (fst (?rest _)) =>
      enough (Hk : preserves (tree_is d (l ++ [Message.id (request_message request)])) rest)
        by apply Hk end.
    keeps.
  - rewrite app_nil_r. revert st Ht.
    match goal with |- forall s, _ -> tree_is _ _ (fst (?rest _)) =>
      enough (Hk : preserves (tree_is d l) rest) by apply Hk end.
    apply preserves_bind; [by apply keeps_make_metadata|]. keeps.
Qed.

(** C9. While no other task adds to the tree of its origin, whatever becomes of a request, its message is in the tree exactly when it passes the
    filters: it stays there when the signer fails, when the destination reports it delivered,
    not to a contract, unpaid or too costly, and when the handler panics. *)
Theorem request_leaves_leaf state request l st
    (Ht : tree_is d l st) (Hl : Z.of_nat (S (length l)) < 2 ^ 32)
    (Hd : Domain.id (request_domain request) = d) :
  let '(st', r) := check_validity request state st in
  tree_is d (l ++ if accepted state request then [Message.id (request_message request)] else [])
    st' /\
  (accepted state request = false -> st' = st /\ forall resp, r <> Ok resp).
Proof.
  pose proof (check_validity_leaf state request l st Ht Hl) as Hleaf. unfold leaf_of in Hleaf.
  rewrite (bool_decide_true _ Hd) in Hleaf. cbn [andb] in Hleaf.
  destruct (check_validity_cases request state st) as [(Ha & _)|(Ha & Hs & Hr)];
    destruct (check_validity request state st) as [st' r]; cbn [fst snd] in *;
    (split; [done|]); [by rewrite Ha|done].
Qed.

(** ** The answers of a batch *)

Definition leaves_of (state : State) (requests : ValidityBatchRequest) : list H256 :=
  concat (leaf_of state <$> requests).

(** A certificate for the message of a request, which is the last of the leaves [L] in the
    tree. *)
Definition answers (state : State) (request : ValidityRequest) (L : list H256)
    (resp : ValidityResponse) : Prop :=
  response_message resp = request_message request /\
  exists db_domain conf ctx, dbs state !! d = Some db_domain /\
    origin_chains state !! Domain.id db_domain = Some conf /\
    destination_ctx state d (destination (request_message request)) = Some ctx /\
    deliverable ctx (request_message request) resp /\
    certifies (merkle_tree_hook (addresses conf)) d L (Message.id (request_message request))
      (Message.id (request_message request)) (response_metadata resp).

Lemma quiet_sound state request l st st' resp :
  Domain.id (request_domain request) = d -> tree_is d l st ->
  check_validity request state st = (st', Ok resp) ->
  answers state request (l ++ leaf_of state request) resp.
Proof.
  intros Hd Ht (Hacc & Hmsg & _ & db & ctx & st1 & Hdb & Hctx & Hdel & Hm)%check_validity_ok.
  unfold leaf_of. rewrite Hacc, (bool_decide_true _ Hd). cbn [andb]. rewrite Hd in *.
  pose proof Hm as Hq. apply (make_metadata_ok d _ Hquiet) with (l := l) in Hm as
    (conf & _ & _ & _ & _ & _ & _ & _ & Hconf & _); [|by intros ? ? -> ->|done].
  split; [done|]. exists db, conf, ctx. do 4 (split; [done|]). by eapply quiet_metadata_ok.
Qed.

(** The answer to one request of a batch *)
Definition answer_of (r : string + ValidityResponse) : ValidityResponse :=
  match r with inr resp => resp | inl e => new_validity_response_error e end.

Lemma batch_cons request requests state st :
  batch_check_validity (request :: requests) state st =
  (r ← eff_try (check_validity request state);
   responses ← batch_check_validity requests state;
   mret (answer_of r :: responses)) st.
Proof. done. Qed.

Lemma leaf_of_length state request : (length (leaf_of state request) <= 1)%nat.
Proof. unfold leaf_of. case_match; cbn; lia. Qed.

Lemma answer_ok state request l st st' r :
  Domain.id (request_domain request) = d -> tree_is d l st ->
  eff_try (E' := Empty_set) (check_validity request state) st = (st', Ok r) ->
  response_is_ok (answer_of r) = true ->
  answers state request (l ++ leaf_of state request) (answer_of r).
Proof.
  intros Hd Ht Hr Hok. unfold eff_try in Hr.
  destruct (check_validity request state st) as [st1 [a|e|]] eqn:Hc; [|..|done];
    injection Hr as <- <-; [|done]. by apply (quiet_sound state request l st st1).
Qed.

(** What a batch of requests ends with, from the leaves [l] *)
Definition batch_right (state : State) (requests : ValidityBatchRequest) (l : list H256)
    (o : (trees_of * outside) * outcome Empty_set ValidityBatchResponse) : Prop :=
  let '(st', r) := o in
  r <> Panic -> tree_is d (l ++ leaves_of state requests) st' /\
  exists responses, r = Ok responses /\ length responses = length requests /\
    forall i request resp, requests !! i = Some request -> responses !! i = Some resp ->
      Domain.id (request_domain request) = d -> response_is_ok resp = true ->
      answers state request (l ++ leaves_of state (take (S i) requests)) resp.

Lemma batch_right_cons state request requests l st r :
  (Domain.id (request_domain request) = d -> response_is_ok (answer_of r) = true ->
   answers state request (l ++ leaf_of state request) (answer_of r)) ->
  batch_right state requests (l ++ leaf_of state request) (batch_check_validity requests state st) ->
  batch_right state (request :: requests) l
    ((responses ← batch_check_validity requests state; mret (answer_of r :: responses)) st).
Proof.
  intros Hr IH. unfold mbind, eff_bind. destruct (batch_check_validity requests state st)
    as [st' [rs|[]|]]; [|done]. intros _.
  destruct IH as (Ht & rs' & [= <-] & Hn & Hi); [done|].
  unfold leaves_of in *. cbn [fmap list_fmap concat]. rewrite app_assoc. split; [done|].
  eexists. split; [done|]. split; [cbn; by rewrite Hn|]. intros [|i] req resp Hq Hp Hdom Hok.
  - injection Hq as <-. injection Hp as <-. rewrite firstn_cons, take_0.
    cbn [fmap list_fmap concat]. rewrite app_nil_r. by apply Hr.
  - rewrite firstn_cons. cbn [fmap list_fmap concat]. rewrite app_assoc. by apply (Hi i).
Qed.

Lemma batch_right_all state requests l st :
  tree_is d l st -> Z.of_nat (length l + length requests) < 2 ^ 32 ->
  batch_right state requests l (batch_check_validity requests state st).
Proof.
  revert l st. induction requests as [|request requests IH]; intros l st Ht Hl.
  { intros _. unfold leaves_of. cbn [fmap list_fmap concat]. rewrite app_nil_r.
    split; [done|]. exists []. by split_and!; [..|intros [|i]]. }
  cbn [length] in Hl. pose proof (check_validity_leaf state request l st Ht ltac:(lia)) as Hleaf.
  pose proof (leaf_of_length state request) as Hlen.
  specialize (IH (l ++ leaf_of state request)). rewrite length_app in IH.
  rewrite batch_cons. pose proof (answer_ok state request l st) as Hans.
  unfold mbind at 1, eff_bind at 1. unfold eff_try in *.
  destruct (check_validity request state st) as [st1 [a|e|]]; cbn [fst] in Hleaf; [| |done];
    (apply batch_right_cons; [intros Hd Hok; by eapply Hans|apply IH; [done|lia]]).
Qed.

End quiet.

(** C8. The answers of a batch are those of its requests, in order, while no other task adds to the
    tree of the origin (a request that is served at the same time and the processor of insertions
    do, and then C7 says what remains). With the [i]-th request's message in the tree of [d], a
    positive answer to it certifies the leaves of before, those of the requests before it and,
    last, its own: the bundle that the answers are for dispatches them in this order. *)
Theorem batch_answers (d : u32) (Hquiet : others_add d (λ k, k = [])) state requests l st
    (Ht : tree_is d l st) (Hl : Z.of_nat (length l + length requests) < 2 ^ 32) :
  let '(st', r) := batch_check_validity requests state st in
  r <> Panic -> tree_is d (l ++ leaves_of d state requests) st' /\
  exists responses, r = Ok responses /\ length responses = length requests /\
    forall i request resp, requests !! i = Some request -> responses !! i = Some resp ->
      Domain.id (request_domain request) = d -> response_is_ok resp = true ->
      answers d state request (l ++ leaves_of d state (take (S i) requests)) resp.
Proof. exact (batch_right_all d Hquiet state requests l st Ht Hl). Qed.
End api.
