(* ===== verification/ApiServerAgent.v ===== *)
(** * The API server within its agent

    The metadata is completed whenever the tree has room and the signer signs, whatever other
    tasks add to the tree, and a request to a destination that is not configured ends in a panic
    behind its leaf; the layouts are the relayer's; the state that the server starts with; and the tree that the processor of the
    same agent feeds as well. *)

From S2P Require Import Prelude.
From S2P Require Import Codec.
From S2P Require Import Keccak.
From S2P Require Import U256.
From S2P Require Import Accumulator.
From S2P Require Import Message.
From S2P Require Import Chain.
From S2P Require Import MerkleSpec.
From S2P Require Import MerkleCorrect.
From S2P Require Import IncrementalCorrect.
From S2P Require Import Relayer.
From S2P Require Import RelayerCorrect.
From S2P Require Import Database.
From S2P Require Import MatchingList.
From S2P Require Import GasPayment.
From S2P Require Import CheckpointStorage.
From S2P Require Import CheckpointQuorum.
From S2P Require Import Aggregation.
From S2P Require Import Metadata.
From S2P Require Import ApiServer.
From S2P Require Import ApiServerTheorems.
From stdpp Require Import base gmap list numbers strings sets.
From Stdlib Require Import ZArith Lia.

#[local] Open Scope Z_scope.
#[local] Opaque tree_root droot.

(** ** The layouts *)

Section layouts.
Context `{StorageIO, RocksDB, BigDecimal, !ApiClients, !Clients}.

Context (Hencode : forall l, Metadata.abi_encode l = ApiServer.abi_encode l).

Lemma build_token_same md token w :
  build_token md token w =
    (w, match api_build_token md token with Some b => Ok b | None => Panic end).
Proof.
  destruct token; try done. unfold build_token, api_build_token.
  destruct (proof md) as [p|]; [|done]. cbn [or_panic mbind option_bind].
  by rewrite <- (Hencode (path p)).
Qed.

Lemma format_tokens_same md layout w :
  format_tokens md layout w =
    (w, match mapM (api_build_token md) layout with Some bs => Ok (concat bs) | None => Panic end).
Proof.
  induction layout as [|token layout IH]; [done|]. cbn [format_tokens mapM].
  unfold mbind at 1, eff_bind at 1. rewrite build_token_same.
  destruct (api_build_token md token) as [b|]; [|done]. cbn [mbind option_bind].
  unfold mbind at 1, eff_bind at 1. rewrite IH.
  by destruct (mapM (api_build_token md) layout).
Qed.

(** C28. The server's layouts give the bytes that the relayer's builders give, and panic as they do
    on a proof that is not there. *)
Theorem api_metadata_is_relayers md w :
  format_tokens md merkle_root_layout w =
    (w, match api_format_metadata "merkle" md with Ok b => Ok b | _ => Panic end) /\
  format_tokens md message_id_layout w =
    (w, match api_format_metadata "message_id" md with Ok b => Ok b | _ => Panic end).
Proof.
  rewrite !format_tokens_same. unfold api_format_metadata.
  change merkle_token_layout with merkle_root_layout.
  change message_id_token_layout with message_id_layout. split.
  - rewrite bool_decide_true by done. cbn [mbind outcome_bind].
    by destruct (mapM (api_build_token md) merkle_root_layout).
  - rewrite bool_decide_false, bool_decide_true by done. cbn [mbind outcome_bind].
    by destruct (mapM (api_build_token md) message_id_layout).
Qed.
End layouts.

Section api.
Context `{ApiClients, U256Ops, Keccak256, !ZeroHashes}.
Implicit Types st : trees_of * outside.

Lemma lift_some_bind {S E A B} (a : A) (f : A -> eff S E B) s :
  (eff_lift (or_panic (Some a)) ≫= f) s = f a s.
Proof. done. Qed.

Lemma lift_expect_bind {S E E' A B} (a : A) (f : A -> eff S E B) s :
  (eff_lift (expect (Ok (E := E') a)) ≫= f) s = f a s.
Proof. done. Qed.

Section extra.
Context (d : u32) (extra : list H256 -> Prop) (Hothers : others_add d extra).

Lemma read_tree_total L st :
  tree_is d L st -> exists b k, read_tree d st = (others st, Ok b) /\ builder_ok b (L ++ k) /\
    tree_is d (L ++ k) (others st).
Proof.
  intros Ht. destruct (Hothers _ _ Ht) as (k & _ & Hk). pose proof Hk as (b & Hb & Hok).
  exists b, k. split; [|done]. unfold read_tree, mbind, eff_bind, await.
  destruct (others st) as [trees w]. cbn in Hb. by rewrite Hb.
Qed.

(** The signer signs, or its error is the error of the request. *)
Definition signer_failed {A} (r : outcome string A) : Prop :=
  exists h w w' e, sign_hash h w = (w', Err e) /\ r = Err (report_to_string e).

Lemma sign_total L value st :
  (forall h w, snd (sign_hash h w) <> Panic) -> tree_is d L st ->
  exists st' r, sign value st = (st', r) /\
    (signer_failed r \/
     exists sig k, r = Ok (MkSignedType value sig) /\ tree_is d (L ++ k) st').
Proof.
  intros Hsigner Ht. destruct (Hothers _ _ Ht) as (k & _ & Hk).
  unfold sign, call, mbind, eff_bind, await, eff_try.
  destruct (others st) as [trees w]. pose proof (Hsigner (signing_hash value) w) as Hr.
  destruct (sign_hash (signing_hash value) w) as [w' [sig|e|]] eqn:Hs; cbn in Hr; [..|done].
  - eexists _, _. split; [done|]. right. by exists sig, k.
  - eexists _, _. split; [done|]. left. by exists (signing_hash value), w, w', e.
Qed.

Lemma ingest_room l id st :
  tree_is d l st -> (forall k, extra k -> Z.of_nat (S (length (l ++ k))) < 2 ^ 32) ->
  exists st' L, ingest d id st = (st', Ok tt) /\ L <> [] /\ tree_is d L st'.
Proof.
  intros Ht Hl. destruct (Hothers _ _ Ht) as (k & Hk & b & Hb & Hok).
  unfold ingest, mbind, eff_bind, await.
  destruct (others st) as [trees w]. cbn in Hb. rewrite Hb. cbn [option_bind].
  destruct (builder_ingest_ok b (l ++ k) id Hok) as (b' & -> & Hok'); [by apply small_Z, Hl|].
  eexists _, ((l ++ k) ++ [id]). split; [done|]. split; [by destruct l, k|].
  exists b'. split; [apply lookup_insert_eq|done].
Qed.

(** With room in the tree and a hook in the configuration, the metadata is complete, whatever
    the other tasks add, unless the signer fails. *)
Lemma make_metadata_total l state db_domain conf m st :
  (forall h w, snd (sign_hash h w) <> Panic) ->
  tree_is d l st -> (forall k, extra k -> Z.of_nat (S (length (l ++ k))) < 2 ^ 32) ->
  origin_chains state !! Domain.id db_domain = Some conf ->
  exists st' r, make_metadata state d db_domain m st = (st', r) /\
    (signer_failed r \/ exists metadata, r = Ok metadata).
Proof.
  intros Hsigner Ht Hl Hconf.
  destruct (ingest_room l (Message.id m) st Ht Hl) as (st1 & L0 & Hi & Hne0 & Ht1).
  unfold make_metadata. rewrite (eff_bind_eq _ _ _ _ _ Hi). clear Hi.
  destruct (read_tree_total L0 st1 Ht1) as (b & k & Hr & Hb & Ht2).
  rewrite (eff_bind_eq _ _ _ _ _ Hr). set (L := L0 ++ k) in *.
  assert (Hne : L <> []) by (unfold L; by destruct L0).
  cbv zeta. destruct (builder_index b L Hb Hne) as (Hroot & Hindex & Hlen).
  rewrite Hconf, Hroot, Hindex, !lift_some_bind. cbv zeta.
  set (idx := uwrap 4 (Z.of_nat (length L) - 1)).
  assert (Hidx : uval idx = Z.of_nat (length L) - 1).
  { apply uval_uwrap_small. change (umax 4) with (2 ^ 32). lia. }
  match goal with |- context [sign ?v] => destruct (sign_total L v (others st1) Hsigner Ht2) as
    (st2 & r & Hs & [(h & w & w' & e & He & ->)|(sig & k' & -> & Ht3)]) end;
    unfold mbind at 1, eff_bind at 1; rewrite Hs; clear Hs.
  { eexists _, _. split; [done|]. left. by exists h, w, w', e. }
  destruct (read_tree_total _ st2 Ht3) as (b2 & k2 & Hr2 & Hb2 & _).
  rewrite (eff_bind_eq _ _ _ _ _ Hr2).
  destruct (builder_proof_ok _ _ idx idx Hb2) as (pf & Hpf & _);
    [rewrite Hidx, !length_app; lia|].
  rewrite Hpf, lift_expect_bind, (api_merkle_layout _ pf), lift_expect_bind, format_single by done.
  eexists _, _. split; [done|]. right. by eexists.
Qed.
End extra.

(** A request that passes the filters, for a destination that the server has no context for,
    panics, and not before its message is in the tree of its origin, while no other task adds to
    this tree and the signer signs. *)
Theorem unknown_destination_panics d (Hquiet : others_add d (λ k, k = []))
    (Hsigner : forall h w, exists w' sig, sign_hash h w = (w', Ok sig)) state request l st db_domain conf
    (Hd : Domain.id (request_domain request) = d) (Ht : tree_is d l st)
    (Hl : Z.of_nat (S (length l)) < 2 ^ 32) (Hacc : accepted state request = true)
    (Hdb : dbs state !! d = Some db_domain)
    (Hconf : origin_chains state !! Domain.id db_domain = Some conf)
    (Hctx : destination_ctx state d (destination (request_message request)) = None) :
  exists st', check_validity request state st = (st', Panic) /\
    tree_is d (l ++ [Message.id (request_message request)]) st'.
Proof.
  destruct (check_validity_cases request state st) as [(_ & db & Hdb' & ->)|(Hno & _)];
    [|congruence]. rewrite Hd in *. rewrite Hdb in Hdb'. injection Hdb' as <-. cbv zeta.
  pose proof (make_metadata_leaf d Hquiet l state db_domain (request_message request) st Ht Hl)
    as Hleaf.
  destruct (make_metadata_total d _ Hquiet l state db_domain conf (request_message request) st)
    as (st1 & r & Hm & [(h & w & w' & e & He & _)|[metadata ->]]); [|done| |done|..].
  - intros h w. by destruct (Hsigner h w) as (w' & sig & ->).
  - intros k ->. by rewrite app_nil_r.
  - destruct (Hsigner h w) as (w1 & sig & Hs). congruence.
  - rewrite Hm in Hleaf. rewrite (eff_bind_eq _ _ _ _ _ Hm), Hctx. by exists st1.
Qed.

Lemma within_gas_cap (cap : option (uint 32)) (g : uint 32) :
  (forall max, cap = Some max -> uval g <= uval max) ->
  match cap with Some max_limit => uval max_limit <? uval g | None => false end = false.
Proof. intros Hc. destruct cap as [max|]; [|done]. specialize (Hc max eq_refl). lia. Qed.

Lemma expect_call_total {A} (m : eff outside report A) a st :
  (forall w, exists w', m w = (w', Ok a)) -> exists st', expect_call m st = (st', Ok a).
Proof.
  intros Hm. unfold expect_call, call, mbind, eff_bind, await, eff_try.
  destruct (others st) as [trees w]. destruct (Hm w) as [w' ->]. by eexists.
Qed.

Lemma read_message_db_total {E A} (m : eff rocks E A) st :
  snd (m (message_db st.2)) <> Panic -> exists r, read_message_db m st = (st, Ok r).
Proof.
  destruct st as [trees w]. unfold read_message_db. cbn.
  destruct (snd (m (message_db w))); [eauto..|done].
Qed.

(** What the destination and the database say of a message that can be delivered, at every
    state of theirs *)
Record answerable (ctx : ApiContext) (m : HyperlaneMessage) (cost : TxCostEstimate)
    (limit : uint 32) : Prop := {
  can_read_retries : forall w, snd (HyperlaneDB.retrieve_pending_message_retry_count_by_message_id
    (context_origin_db ctx) (Message.id m) (message_db w)) <> Panic;
  is_new : forall w, exists w',
    delivered (destination_mailbox ctx) (Message.id m) w = (w', Ok false);
  has_contract : forall w, exists w',
    is_contract (destination_mailbox ctx) (recipient m) w = (w', Ok true);
  has_cost : forall metadata w, exists w',
    process_estimate_costs (destination_mailbox ctx) m metadata w = (w', Ok cost);
  is_paid : forall w, snd (message_meets_gas_payment_requirement (context_gas_payment_enforcer ctx)
    m cost (message_db w)) = Ok (Some limit);
  fits_cap : forall max, context_transaction_gas_limit ctx = Some max ->
    uval (estimate_gas_limit cost) <= uval max
}.

Lemma destination_answers ctx m cost limit metadata st :
  answerable ctx m cost limit -> exists st', check_destination ctx m metadata st =
    (st', Ok (MkValidityResponse m metadata (estimate_gas_limit cost) None)).
Proof.
  intros Hans. unfold check_destination.
  destruct (expect_call_total _ _ st (is_new _ _ _ _ Hans)) as [st2 Hr2].
  rewrite (eff_bind_eq _ _ _ _ _ Hr2).
  destruct (expect_call_total _ _ st2 (has_contract _ _ _ _ Hans)) as [st3 Hr3].
  rewrite (eff_bind_eq _ _ _ _ _ Hr3). cbn [negb].
  destruct (expect_call_total _ _ st3 (has_cost _ _ _ _ Hans metadata)) as [st4 Hr4].
  rewrite (eff_bind_eq _ _ _ _ _ Hr4). unfold mbind at 1, eff_bind at 1, await.
  unfold mbind at 1, eff_bind at 1, read_message_db. destruct (others st4) as [trees w].
  rewrite (is_paid _ _ _ _ Hans). cbv zeta. rewrite (within_gas_cap _ _ (fits_cap _ _ _ _ Hans)).
  by eexists.
Qed.

Lemma answered_when_answerable d extra (Hothers : others_add d extra) state request l st
    db_domain conf ctx cost limit :
  (forall h w, snd (sign_hash h w) <> Panic) ->
  Domain.id (request_domain request) = d -> tree_is d l st ->
  (forall k, extra k -> Z.of_nat (S (length (l ++ k))) < 2 ^ 32) ->
  accepted state request = true ->
  dbs state !! d = Some db_domain -> origin_chains state !! Domain.id db_domain = Some conf ->
  destination_ctx state d (destination (request_message request)) = Some ctx ->
  answerable ctx (request_message request) cost limit ->
  exists st' r, check_validity request state st = (st', r) /\
    (signer_failed r \/ exists metadata, r =
       Ok (MkValidityResponse (request_message request) metadata (estimate_gas_limit cost) None)).
Proof.
  intros Hsigner Hd Ht Hl Hacc Hdb Hconf Hctx Hans.
  destruct (check_validity_cases request state st) as [(_ & db & Hdb' & ->)|(Hno & _)];
    [|congruence]. rewrite Hd in *. rewrite Hdb in Hdb'. injection Hdb' as <-. cbv zeta.
  destruct (make_metadata_total d extra Hothers l state db_domain conf (request_message request)
    st Hsigner Ht Hl Hconf) as (st1 & r & Hm & [(h & w & w' & e & He & ->)|[metadata ->]]).
  { unfold mbind at 1, eff_bind at 1. rewrite Hm. eexists _, _. split; [done|].
    left. by exists h, w, w', e. }
  rewrite (eff_bind_eq _ _ _ _ _ Hm), Hctx.
  match goal with |- context [mbind ?f (eff_lift (or_panic (Some ctx))) st1] =>
    change (mbind f (eff_lift (or_panic (Some ctx))) st1) with (f ctx st1) end. cbv beta.
  destruct (read_message_db_total _ st1 (can_read_retries _ _ _ _ Hans _)) as [n Hn].
  rewrite (eff_bind_eq _ _ _ _ _ Hn).
  destruct (destination_answers _ _ _ _ metadata st1 Hans) as [st2 ->].
  eexists _, _. split; [done|]. right. by eexists.
Qed.

(** C31. A request that passes the filters is answered with metadata and the estimated gas when its
    message can be delivered, that is, the destination reports it new, to a contract and within
    the limit, and it is paid for: whatever other tasks add to the tree of its origin while it is
    served, as long as the tree has room for its message behind what they add before it goes in
    ([extra] bounds what they add between two steps). The only other answer is the error of the
    agent's signer, as its text, when the signer fails ([sign_hash] returns, with a signature or
    an error; it may not panic). *)
Theorem deliverable_is_answered d (extra : list H256 -> Prop) (Hothers : others_add d extra)
    (Hsigner : forall h w, snd (sign_hash h w) <> Panic)
    state request l st db_domain conf ctx cost limit
    (Hd : Domain.id (request_domain request) = d) (Ht : tree_is d l st)
    (Hl : forall k, extra k -> Z.of_nat (S (length (l ++ k))) < 2 ^ 32)
    (Hacc : accepted state request = true)
    (Hdb : dbs state !! d = Some db_domain)
    (Hconf : origin_chains state !! Domain.id db_domain = Some conf)
    (Hctx : destination_ctx state d (destination (request_message request)) = Some ctx)
    (Hans : answerable ctx (request_message request) cost limit) :
  exists st' r, check_validity request state st = (st', r) /\
    ((exists metadata, r = Ok (MkValidityResponse (request_message request) metadata
        (estimate_gas_limit cost) None)) \/
     exists h w w' e, sign_hash h w = (w', Err e) /\ r = Err (report_to_string e)).
Proof.
  destruct (answered_when_answerable d extra Hothers state request l st db_domain conf ctx cost
    limit) as (st' & r & He & Hr); [done..|]. exists st', r. split; [done|].
  by destruct Hr; [right|left].
Qed.

(** ** The processor of the same agent *)

(** C20. The agent also runs the processor of insertions on the tree that requests add to. When no
    other task has added to it while the request was served, the
    chain has inserted the message of a request as the leaf it was certified at, and the
    processor comes to this leaf, it adds the message a second time: the tree is then no prefix
    of the chain's, which has each message once, and never will be. *)
Theorem processor_ingests_again d (Hquiet : others_add d (λ k, k = [])) {DbError} (db : u32 -> outcome DbError (option MerkleTreeInsertion))
    state request l st insertion
    (Hd : Domain.id (request_domain request) = d) (Ht : tree_is d l st)
    (Hl : Z.of_nat (S (S (length l))) < 2 ^ 32) (Hacc : accepted state request = true)
    (Hindexed : db (uwrap 4 (Z.of_nat (length l))) = Ok (Some insertion))
    (Hid : message_id insertion = Message.id (request_message request)) :
  let id := Message.id (request_message request) in
  exists b b', (fst (check_validity request state st)).1 !! d = Some b /\
    tick db (uwrap 4 (Z.of_nat (length l))) b =
      Some ((uwrap 4 (Z.of_nat (S (length l))), b'), Ok tt) /\
    builder_ok b' (l ++ [id; id]) /\
    forall chain k, NoDup chain -> chain <> (l ++ [id; id]) ++ k.
Proof.
  cbv zeta. pose proof (check_validity_leaf d Hquiet state request l st Ht ltac:(lia)) as Hleaf.
  unfold leaf_of in Hleaf. rewrite Hacc, (bool_decide_true _ Hd) in Hleaf. cbn [andb] in Hleaf.
  destruct Hleaf as (b & Hb & Hok). set (id := Message.id (request_message request)) in *.
  destruct (builder_ingest_ok b (l ++ [id]) id Hok) as (b' & Hi & Hok').
  { apply small_Z. rewrite length_app. cbn [length]. lia. }
  rewrite <- app_assoc in Hok'. exists b, b'. split_and!; [done| |done|].
  - unfold tick, next_unprocessed_leaf. rewrite Hindexed, Hid. fold id. rewrite Hi.
    cbn [mbind option_bind]. do 3 f_equal. rewrite uval_uwrap_small; [f_equal; lia|].
    change (umax 4) with (2 ^ 32). lia.
  - intros chain k Hnd ->. rewrite <- app_assoc in Hnd. cbn in Hnd.
    apply NoDup_app in Hnd as (_ & _ & Hnd). apply NoDup_cons in Hnd as [Hni _].
    apply Hni, elem_of_cons. by left.
Qed.
(** ** The state that the server starts with *)

Lemma list_to_map_is_Some {K A} `{Countable K} (l : list (K * A)) i :
  is_Some (list_to_map (M := gmap K A) l !! i) <-> i ∈ l.*1.
Proof.
  rewrite <- not_eq_None_Some, <- not_elem_of_list_to_map. destruct (decide (i ∈ l.*1)); tauto.
Qed.

Lemma chain_setups_ok settings domains confs :
  chain_setups settings domains = Some confs ->
  (forall i, is_Some (confs !! i) <-> i ∈ Domain.id <$> domains) /\
  forall i conf, confs !! i = Some conf -> chain_setup settings i = Some conf.
Proof.
  revert confs. induction domains as [|d domains IH]; intros confs Hs; cbn in Hs.
  { injection Hs as <-. split; intros i; cbn.
    - rewrite lookup_empty. split; [by intros []|by intros ?%not_elem_of_nil].
    - by rewrite lookup_empty. }
  destruct (chain_setup settings (Domain.id d)) as [conf|] eqn:Hc; [|done]. cbn in Hs.
  destruct (chain_setups settings domains) as [m|]; [|done]. injection Hs as <-.
  destruct (IH m eq_refl) as [Hdom Hval]. split; intros i.
  - rewrite fmap_cons, elem_of_cons, lookup_insert_is_Some'. rewrite Hdom. naive_solver.
  - intros c. destruct (decide (i = Domain.id d)) as [->|Hne].
    + rewrite lookup_insert_eq. congruence.
    + rewrite lookup_insert_ne by done. apply Hval.
Qed.

Definition contexts_from (settings : ApiSettings) : list ((u32 * u32) * ApiContext) :=
  d ← settings_destinations settings; o ← settings_origins settings;
  [((Domain.id o, Domain.id d), context_of settings o d)].

Lemma contexts_from_elem settings i e ctx :
  ((i, e), ctx) ∈ contexts_from settings <-> exists o d,
    o ∈ settings_origins settings /\ d ∈ settings_destinations settings /\
    i = Domain.id o /\ e = Domain.id d /\ ctx = context_of settings o d.
Proof.
  unfold contexts_from. rewrite list_elem_of_bind. split.
  - intros (d & Hc & Hd). apply list_elem_of_bind in Hc as (o & Hc & Ho).
    apply list_elem_of_singleton in Hc as [= -> -> ->]. by exists o, d.
  - intros (o & d & Ho & Hd & -> & -> & ->). exists d. split; [|done].
    apply list_elem_of_bind. exists o. split; [by apply list_elem_of_singleton|done].
Qed.

Lemma contexts_from_dom settings i e :
  is_Some (list_to_map (M := gmap (u32 * u32) ApiContext) (contexts_from settings) !! (i, e)) <->
  i ∈ Domain.id <$> settings_origins settings /\ e ∈ Domain.id <$> settings_destinations settings.
Proof.
  rewrite list_to_map_is_Some, list_elem_of_fmap. split.
  - intros ([[i' e'] ctx] & [= <- <-] & (o & d & Ho & Hd & -> & -> & _)%contexts_from_elem).
    split; by apply list_elem_of_fmap_2.
  - intros [(o & -> & Ho)%list_elem_of_fmap (d & -> & Hd)%list_elem_of_fmap].
    eexists (_, context_of settings o d). split; [done|]. apply contexts_from_elem. by exists o, d.
Qed.

(** C29. The server starts with an empty tree, a database and a configuration for each origin, and
    no request for it panics over its contexts: those of the other destinations, made for this
    pair of chains. *)
Theorem server_starts_complete settings state trees w o
    (Hs : from_settings settings = Some (state, trees)) (Ho : o ∈ settings_origins settings) :
  let d := Domain.id o in
  d ∈ prover_syncs state /\ tree_is d [] (trees, w) /\
  (exists o', dbs state !! d = Some o' /\ Domain.id o' = d) /\
  (exists conf, origin_chains state !! d = Some conf /\ chain_setup settings d = Some conf) /\
  contexts_complete state d = true /\
  forall e,
    (is_Some (destination_ctx state d e) <->
      e <> d /\ e ∈ Domain.id <$> settings_destinations settings) /\
    forall ctx, destination_ctx state d e = Some ctx -> exists o' destination,
      Domain.id o' = d /\ Domain.id destination = e /\ ctx = context_of settings o' destination.
Proof.
  unfold from_settings in Hs. destruct builder_new_ok as (b & Hb & Hok). rewrite Hb in Hs.
  cbn [mbind option_bind] in Hs.
  destruct (chain_setups settings (settings_destinations settings)) as [ds|] eqn:Hds; [|done].
  cbn [mbind option_bind] in Hs.
  destruct (chain_setups settings (settings_origins settings)) as [os|] eqn:Hos; [|done].
  injection Hs as <- <-.
  apply chain_setups_ok in Hds as [Hds _]. apply chain_setups_ok in Hos as [Hos Hosv].
  cbv zeta. assert (Hd : Domain.id o ∈ Domain.id <$> settings_origins settings).
  { by apply list_elem_of_fmap_2. }
  split_and!.
  - by apply elem_of_list_to_set.
  - exists b. split; [|done]. cbn [fst].
    destruct (proj2 (list_to_map_is_Some ((λ i, (i, b)) <$> (Domain.id <$> settings_origins settings))
      (Domain.id o))) as [b' Hb'].
    { rewrite <- list_fmap_compose. cbn. by rewrite list_fmap_id. }
    etrans; [exact Hb'|]. by apply elem_of_list_to_map_2, list_elem_of_fmap in Hb' as (i & [= _ ->] & _).
  - cbn [dbs]. destruct (proj2 (list_to_map_is_Some ((λ o, (Domain.id o, o)) <$>
      settings_origins settings) (Domain.id o))) as [o' Ho'].
    { by rewrite <- list_fmap_compose. }
    exists o'. split; [done|].
    by apply elem_of_list_to_map_2, list_elem_of_fmap in Ho' as (i & [= -> ->] & _).
  - cbn [origin_chains]. apply Hos in Hd as [conf Hconf]. exists conf. eauto.
  - apply bool_decide_eq_true. intros e He. cbn [msg_ctxs]. apply contexts_from_dom.
    split; [done|]. apply Hds, elem_of_dom. unfold other_destinations in He. cbn in He. set_solver.
  - intros e. unfold destination_ctx, other_destinations. cbn [msg_ctxs destination_chains].
    case_bool_decide as He; split.
    + apply elem_of_difference in He as [He%elem_of_dom%Hds Hne%not_elem_of_singleton].
      etrans; [apply contexts_from_dom|]. by split.
    + intros ctx (o' & d' & Ho' & Hd' & -> & -> & ->)%elem_of_list_to_map_2%contexts_from_elem.
      by exists o', d'.
    + split; [by intros []|]. intros [Hne Hin]. destruct He.
      apply elem_of_difference. split; [by apply elem_of_dom, Hds|set_solver].
    + done.
Qed.

End api.
