(* ===== verification/ApiServerScenario.v ===== *)
(** * The API server at concrete inputs

    A server for one origin and one destination, built from settings, whose requests are
    answered: the theorems on answers applied to it. *)

From S2P Require Import Prelude.
From S2P Require Import Codec.
From S2P Require Import Keccak.
From S2P Require Import U256.
From S2P Require Import Accumulator.
From S2P Require Import Message.
From S2P Require Import Chain.
From S2P Require Import MerkleSpec.
From S2P Require Import MerkleCorrect.
From S2P Require Import IncrementalCorrect.
From S2P Require Import Relayer.
From S2P Require Import RelayerCorrect.
From S2P Require Import Database.
From S2P Require Import DatabaseTheorems.
From S2P Require Import Sealevel.
From S2P Require Import AccountUtils.
From S2P Require Import Multisig.
From S2P Require Import MessageIdIsm.
From S2P Require Import Concrete.
From S2P Require Import ConcreteIsm.
From S2P Require Import CheckpointStorage.
From S2P Require Import CheckpointQuorum.
From S2P Require Import ConcreteStorage.
From S2P Require Import MatchingList.
From S2P Require Import GasPayment.
From S2P Require Import GasPaymentTheorems.
From S2P Require Import Aggregation.
From S2P Require Import Metadata.
From S2P Require Import MetadataTheorems.
From S2P Require Import ApiServer.
From S2P Require Import ApiServerTheorems.
From S2P Require Import ApiServerAgent.
From stdpp Require Import base gmap list numbers strings.
From Stdlib Require Import ZArith Lia.

#[local] Open Scope Z_scope.
#[local] Opaque tree_root droot.

Module ApiServerModel.
Import DatabaseModel GasPaymentModel.
#[export] Existing Instance keccak_concrete.
#[export] Existing Instance zero_hashes_concrete.
#[export] Existing Instance U256Model.ops.

(** Clients that answer at once, and an empty database. *)
#[export] Instance api_clients : ApiClients := {|
  outside := unit;
  report := unit;
  report_to_string _ := "report"%string;
  mailbox := unit;
  delivered _ id w := (w, Ok (bool_decide (id = uwrap 32 0)));
  is_contract _ _ w := (w, Ok true);
  process_estimate_costs _ _ _ w :=
    (w, Ok (MkTxCostEstimate (uwrap 32 50) (MkFixedPointNumber (2 : @decimal integers)) None));
  sign_hash h w := (w, Ok (MkSignature (MkU256 h) (MkU256 h) (uwrap 8 27)));
  message_db _ := ∅ : @rocks memory;
  abi_encode l := concat (to_be <$> l);
  others st := st
|}.

Definition destination_domain : Domain.HyperlaneDomain := Domain.Known Domain.Optimism.

Definition settings : ApiSettings :=
  MkApiSettings [origin] [origin; destination_domain] [MkGasPaymentEnforcementConf PolicyNone None]
    None None (Some (uwrap 32 100)) ∅
    (λ i, Some (MkChainConf (MkCoreContractAddresses (uwrap 32 1) (uwrap 32 2) (uwrap 32 3) (uwrap 32 4))))
    (λ _, tt).

Definition state : State :=
  default (MkState ∅ ∅ ∅ ∅ None None ∅) (fst <$> from_settings settings).
Definition start : trees_of * outside := (default ∅ (snd <$> from_settings settings), tt).
Definition request (n : Z) : ValidityRequest := MkValidityRequest origin (message n).
Definition d : u32 := Domain.id origin.

Definition context : ApiContext := context_of settings origin destination_domain.
Definition cost : TxCostEstimate :=
  MkTxCostEstimate (uwrap 32 50) (MkFixedPointNumber (2 : @decimal integers)) None.
Definition conf : ChainConf := default (MkChainConf (MkCoreContractAddresses H256_zero H256_zero
  H256_zero H256_zero)) (chain_setup settings d).

Lemma quiet : others_add d (λ k, k = []).
Proof. intros l st Ht. exists []. split; [done|]. by rewrite app_nil_r. Qed.

Lemma signer : forall h w, exists w' sig, sign_hash h w = (w', Ok sig).
Proof. intros h w. by eexists _, _. Qed.

Lemma start_tree : tree_is d [] start.
Proof.
  destruct builder_new_ok as (b & Hb & Hok). exists b. split; [|done].
  unfold start, from_settings. rewrite Hb. reflexivity.
Qed.

Definition panics {E A} (r : outcome E A) : bool := match r with Panic => true | _ => false end.
Definition is_limit {E} (n : Z) (r : outcome E (option (uint 32))) : bool :=
  match r with Ok (Some limit) => uval limit =? n | _ => false end.

Lemma panics_inv {E A} (r : outcome E A) : panics r = false -> r <> Panic.
Proof. by destruct r. Qed.

Lemma is_limit_inv {E} n (r : outcome E (option (uint 32))) :
  is_limit (uval n) r = true -> r = Ok (Some n).
Proof. destruct r as [[limit|]| |]; cbn; try done. intros He%Z.eqb_eq%uval_inj. by rewrite He. Qed.

Lemma small_answerable n :
  n = 1 \/ n = 2 -> answerable context (message n) cost (uwrap 32 50).
Proof.
  intros Hn. split.
  - intros w. apply panics_inv. destruct Hn as [-> | ->]; vm_compute; reflexivity.
  - intros w. exists w. unfold delivered, api_clients. rewrite bool_decide_false; [done|].
    intros He. apply (f_equal uval) in He. destruct Hn as [-> | ->]; vm_compute in He; done.
  - intros w. by exists w.
  - intros b w. by exists w.
  - intros w. apply is_limit_inv. destruct Hn as [-> | ->]; vm_compute; reflexivity.
  - intros max Hmax. injection Hmax as <-. apply Z.leb_le. vm_compute. reflexivity.
Qed.

Lemma answered n l st :
  n = 1 \/ n = 2 -> tree_is d l st -> (length l < 10)%nat -> exists st' metadata,
  check_validity (request n) state st =
    (st', Ok (MkValidityResponse (message n) metadata (uwrap 32 50) None)).
Proof.
  intros Hn Ht Hl. destruct (answered_when_answerable d _ quiet state (request n) l st origin conf
    context cost (uwrap 32 50)) as (st' & r & Hr & [Hf|[metadata ->]]);
    [discriminate|done|done|..].
  - intros k ->. rewrite app_nil_r. lia.
  - destruct Hn as [-> | ->]; vm_compute; reflexivity.
  - reflexivity.
  - reflexivity.
  - destruct Hn as [-> | ->]; reflexivity.
  - by apply small_answerable.
  - destruct Hf as (h & w & w' & e & He & _). destruct (signer h w) as (w1 & sig & Hs). congruence.
  - by exists st', metadata.
Qed.

Definition stray : ValidityRequest :=
  MkValidityRequest origin
    (MkHyperlaneMessage (uwrap 1 3) (uwrap 4 1) (uwrap 4 1) (uwrap 32 5) (uwrap 4 99) (uwrap 32 6) []).
Definition indexed : u32 -> outcome unit (option MerkleTreeInsertion) := λ _,
  Ok (Some (MkMerkleTreeInsertion (uwrap 4 0) (Message.id (message 1)))).

Lemma batch_ok_cons r rs st st1 st2 a bs :
  check_validity r state st = (st1, Ok a) -> batch_check_validity rs state st1 = (st2, Ok bs) ->
  batch_check_validity (r :: rs) state st = (st2, Ok (a :: bs)).
Proof.
  intros Ha Hb. rewrite batch_cons. unfold mbind, eff_bind, eff_try. by rewrite Ha, Hb.
Qed.

Lemma leaf_of_small n :
  n = 1 \/ n = 2 -> leaf_of d state (request n) = [Message.id (message n)].
Proof.
  intros Hn. unfold leaf_of. rewrite bool_decide_true by done.
  assert (Ha : accepted state (request n) = true) by (destruct Hn as [-> | ->]; by vm_compute).
  by rewrite Ha.
Qed.
End ApiServerModel.

Section witnesses.
Import DatabaseModel GasPaymentModel ApiServerModel.

Lemma validity_response_sound_witness :
  exists st' resp, check_validity (request 1) state start = (st', Ok resp) /\
    response_error resp = None /\ exists conf,
    certifies (merkle_tree_hook (addresses conf)) d [Message.id (message 1)]
      (Message.id (message 1)) (Message.id (message 1)) (response_metadata resp).
Proof.
  destruct (answered 1 [] start (or_introl eq_refl) start_tree) as (st' & md & He); [cbn; lia|].
  eexists st', _. split; [exact He|].
  destruct (validity_response_sound d (λ k, k = []) quiet (λ k k' Hk Hk', f_equal2 app Hk Hk')
    state (request 1) [] start st' _ eq_refl start_tree He) as
    (_ & _ & Herr & db & conf & ctx & _ & _ & _ & _ & _ & _ & Hc).
  split; [exact Herr|]. exists conf. exact (Hc quiet).
Defined.

Lemma request_leaves_leaf_witness :
  tree_is d [] start /\ accepted state (request 1) = true /\
  tree_is d [Message.id (message 1)] (fst (check_validity (request 1) state start)).
Proof.
  assert (Ha : accepted state (request 1) = true) by (vm_compute; reflexivity).
  split; [exact start_tree|]. split; [exact Ha|].
  pose proof (request_leaves_leaf d quiet state (request 1) [] start start_tree
    ltac:(cbn; lia) eq_refl) as Hl.
  rewrite Ha in Hl. destruct (check_validity (request 1) state start). exact (proj1 Hl).
Defined.

Lemma deliverable_is_answered_witness :
  exists st' metadata, check_validity (request 1) state start =
    (st', Ok (MkValidityResponse (message 1) metadata (uwrap 32 50) None)).
Proof.
  destruct (deliverable_is_answered d (λ k, k = []) quiet ltac:(discriminate) state (request 1) []
    start origin conf context cost (uwrap 32 50)) as (st' & r & Hr & [[metadata ->]|Hf]);
    [reflexivity|exact start_tree| |vm_compute; reflexivity|reflexivity..| | |].
  - intros k ->. cbn. lia.
  - apply small_answerable. left. reflexivity.
  - exists st', metadata. exact Hr.
  - destruct Hf as (h & w & w' & e & He & _). destruct (signer h w) as (w1 & sig & Hs). congruence.
Defined.
(** Two requests of a bundle *)
Lemma batch_answers_witness :
  exists st' resp1 resp2,
    batch_check_validity [request 1; request 2] state start = (st', Ok [resp1; resp2]) /\
    tree_is d [Message.id (message 1); Message.id (message 2)] st' /\
    answers d state (request 2) [Message.id (message 1); Message.id (message 2)] resp2.
Proof.
  destruct (answered 1 [] start (or_introl eq_refl) start_tree) as (st1 & md1 & Hr1); [cbn; lia|].
  assert (Ht1 : tree_is d [Message.id (message 1)] st1).
  { pose proof (check_validity_leaf d quiet state (request 1) [] start start_tree ltac:(cbn; lia))
      as Ht. rewrite Hr1, leaf_of_small in Ht; [exact Ht|left; reflexivity]. }
  destruct (answered 2 _ st1 (or_intror eq_refl) Ht1) as (st2 & md2 & Hr2); [cbn; lia|].
  pose proof (batch_ok_cons _ [request 2] start st1 st2 _ _ Hr1
    (batch_ok_cons _ [] st1 st2 st2 _ _ Hr2 eq_refl)) as Hrun.
  pose proof (batch_answers d quiet state [request 1; request 2] [] start start_tree
    ltac:(cbn; lia)) as Hb.
  rewrite Hrun in Hb. destruct Hb as (Ht & responses & Hrs & _ & Hi); [discriminate|].
  apply (inj Ok) in Hrs. subst responses.
  assert (Hboth : leaves_of d state [request 1; request 2] =
    [Message.id (message 1); Message.id (message 2)]).
  { unfold leaves_of. cbn [fmap list_fmap concat]. rewrite !leaf_of_small; auto. }
  rewrite Hboth in Ht. exists st2. eexists _, _. split; [exact Hrun|]. split; [exact Ht|].
  specialize (Hi 1%nat _ _ eq_refl eq_refl eq_refl eq_refl).
  unfold take in Hi. rewrite Hboth in Hi. exact Hi.
Defined.

(** A message to a chain that is no destination of the server *)
Lemma unknown_destination_panics_witness :
  exists st', check_validity stray state start = (st', Panic) /\
    tree_is d [Message.id (request_message stray)] st'.
Proof.
  apply (unknown_destination_panics d quiet signer state stray [] start origin conf);
    [reflexivity|exact start_tree|cbn; lia|vm_compute; reflexivity|reflexivity..].
Defined.

Lemma processor_ingests_again_witness :
  exists b b', (fst (check_validity (request 1) state start)).1 !! d = Some b /\
    tick (DbError := unit) indexed (uwrap 4 0) b = Some ((uwrap 4 1, b'), Ok tt) /\
    builder_ok b' [Message.id (message 1); Message.id (message 1)].
Proof.
  destruct (processor_ingests_again d quiet (DbError := unit) indexed state (request 1) [] start
    (MkMerkleTreeInsertion (uwrap 4 0) (Message.id (message 1))) eq_refl start_tree
    ltac:(cbn; lia) ltac:(vm_compute; reflexivity) eq_refl eq_refl) as (b & b' & Hb & Ht & Hok & _).
  exists b, b'. split; [exact Hb|]. split; [exact Ht|exact Hok].
Defined.

Lemma server_starts_complete_witness :
  exists trees, from_settings settings = Some (state, trees) /\ tree_is d [] (trees, tt) /\
    contexts_complete state d = true.
Proof.
  destruct (from_settings settings) as [[s trees]|] eqn:Hs.
  - assert (Hstate : state = s) by (unfold state; rewrite Hs; reflexivity).
    exists trees. rewrite Hstate. split; [reflexivity|].
    destruct (server_starts_complete settings s trees tt origin Hs) as (_ & Ht & _ & _ & Hc & _);
      [left|]. split; [exact Ht|exact Hc].
  - exfalso. unfold from_settings in Hs. destruct builder_new_ok as (b & Hb & _).
    rewrite Hb in Hs. discriminate.
Defined.
End witnesses.

(** The metadata of a message in both agents *)
Section layouts.
Import BorshModel RuntimeModel IsmModel StorageModel DatabaseModel MetadataModel.

Definition multisig_metadata : MultisigMetadata :=
  MkMultisigMetadata
    (MkMultisigSignedCheckpoint (value MetadataModel.signed) [signature MetadataModel.signed])
    (uwrap 4 0) (Some (MkProof (uwrap 32 7) (uwrap 8 0) [uwrap 32 8])).

Definition is_formatted {E} (r : outcome E bytes) : bool :=
  match r with Ok _ => true | _ => false end.

Lemma api_metadata_is_relayers_witness :
  exists b, format_tokens multisig_metadata merkle_root_layout MetadataModel.world
      = (MetadataModel.world, Ok b) /\
    @api_format_metadata _ _ ApiServerModel.api_clients "merkle" multisig_metadata = Ok b.
Proof.
  pose proof (@api_metadata_is_relayers _ _ _ ApiServerModel.api_clients _ (λ l, eq_refl)
    multisig_metadata MetadataModel.world) as [Hm _].
  assert (Hf : is_formatted (@api_format_metadata _ _ ApiServerModel.api_clients "merkle"
    multisig_metadata) = true) by (vm_compute; reflexivity).
  destruct (@api_format_metadata _ _ ApiServerModel.api_clients "merkle" multisig_metadata)
    as [b|e|]; [|discriminate..].
  exists b. split; [exact Hm|reflexivity].
Defined.
End layouts.
