(* ===== verification/SealevelClient.v ===== *)
(** * The agents' client of a Sealevel chain ([chains/hyperlane-sealevel/src])

    [utils.rs] and [provider.rs]; [mailbox.rs], with the indexer of dispatched messages;
    [merkle_tree_hook.rs]; [interchain_security_module.rs]; [multisig_ism.rs];
    [interchain_gas.rs], with the indexer of gas payments; [validator_announce.rs]. The RPC
    client of [solana_client], the keys and transactions of [solana_sdk] and the texts in base64
    and base58 are the class [SolanaClient]; its state is the node that is talked to, which
    moves on with every call. The programs the client talks to are the ones of this library:
    their seeds, instructions and accounts are shared. *)

From S2P Require Import Prelude.
From S2P Require Import Codec.
From S2P Require Import Keccak.
From S2P Require Import U256.
From S2P Require Import Accumulator.
From S2P Require Import Message.
From S2P Require Import Chain.
From S2P Require Import MatchingList.
From S2P Require Import GasPayment.
From S2P Require Import Metadata.
From S2P Require Import Sealevel.
From S2P Require Import AccountUtils.
From S2P Require Import Interfaces.
From S2P Require Import Multisig.
From S2P Require Import MessageIdIsm.
From S2P Require Import Igp.
From S2P Require Import ValidatorAnnounce.
From S2P Require Import Mailbox.
From stdpp Require Import base gmap list numbers strings.
From Stdlib Require Import ZArith Lia.

#[local] Open Scope Z_scope.

(** ** [solana_client] and [solana_sdk] *)

Inductive CommitmentConfig := Processed | Confirmed | Finalized.

(** A filter of [getProgramAccounts]: base64 text to be found at an offset of the data. *)
Record Memcmp := MkMemcmp { filter_offset : nat; filter_bytes : string }.
Record UiDataSliceConfig := MkUiDataSliceConfig { slice_offset : nat; slice_length : nat }.

(** [RpcProgramAccountsConfig]; how the node encodes its answer is left out. *)
Record RpcProgramAccountsConfig := MkRpcProgramAccountsConfig {
  filters : option (list Memcmp);
  data_slice : option UiDataSliceConfig;
  config_commitment : option CommitmentConfig
}.

Class SolanaClient := {
  Node : Type;
  ClientError : Type;
  TransactionError : Type;
  Keypair : Type;
  (** [Signer::pubkey] *)
  pubkey : Keypair -> Pubkey;
  Transaction : Type;
  (** [Transaction::new_unsigned(Message::new_with_blockhash(..))] *)
  new_unsigned_with_blockhash : list SolanaInstruction -> option Pubkey -> H256 -> Transaction;
  new_signed_with_payer :
    list SolanaInstruction -> option Pubkey -> list Keypair -> H256 -> Transaction;
  set_compute_unit_limit : u32 -> SolanaInstruction;
  base64_encode : bytes -> string;
  base64_decode : string -> option bytes;
  (** [Pubkey::from_str] *)
  pubkey_from_str : string -> option Pubkey;
  (** the RPC client *)
  get_latest_blockhash_with_commitment : CommitmentConfig -> eff Node ClientError (H256 * u64);
  get_account_with_commitment : Pubkey -> CommitmentConfig -> eff Node ClientError (option account);
  get_rpc_account : Pubkey -> eff Node ClientError account;
  get_multiple_accounts_with_commitment :
    list Pubkey -> CommitmentConfig -> eff Node ClientError (list (option account));
  get_program_accounts_with_config :
    Pubkey -> RpcProgramAccountsConfig -> eff Node ClientError (list (Pubkey * account));
  (** the error and the return data (in base64) of the simulated transaction *)
  simulate_transaction :
    Transaction -> eff Node ClientError (option TransactionError * option string);
  send_and_confirm_transaction : Transaction -> eff Node ClientError H512;
  confirm_transaction_with_commitment : H512 -> CommitmentConfig -> eff Node ClientError bool;
  get_block_height : eff Node ClientError u64;
  get_rpc_balance : Pubkey -> eff Node ClientError u64
}.

(** [error.rs] *)
Inductive HyperlaneSealevelError `{SolanaClient} :=
  | ParsePubkeyError
  | HyperlaneClientError (e : ClientError).

(** [ChainCommunicationError]; [ChainCommunicationError::from_other] boxes the first four. *)
Inductive ChainCommunicationError `{SolanaClient} :=
  | FromClient (e : ClientError)
  | FromProgram (e : ProgramError)
  | FromIo (e : io_error)
  | FromOther
  | FromOtherStr (text : string)
  | FromSealevel (e : HyperlaneSealevelError)
  | ContractErrorStr (text : string)
  | FromProtocol (e : HyperlaneProtocolError)
  | StrOrIntParseError
  | SignerUnavailable.

Record ContractLocator := MkContractLocator {
  locator_domain : Domain.HyperlaneDomain;
  locator_address : H256
}.

(** [u64::try_into::<u32>()] *)
Definition try_u32 (n : u64) : option u32 :=
  if uval n <=? u32_MAX then Some (uwrap 4 n) else None.

(** The numbers of a [RangeInclusive<u32>]. *)
Definition range_inclusive (from to : u32) : list u32 :=
  uwrap 4 <$> seqZ from (uval to - uval from + 1).

Section client.
Context `{Solana, SolanaClient, Keccak256}.
(** [Pubkey::try_find_program_address] *)
Context (try_find_program_address : list bytes -> Pubkey -> option (Pubkey * u8)).

Definition client : Type -> Type := eff Node ChainCommunicationError.

(** A call of the RPC client, with [.map_err(ChainCommunicationError::from_other)]. *)
Definition rpc {A} (m : eff Node ClientError A) : client A := eff_map_err FromClient m.

Definition or_fail {A} (o : option A) (e : ChainCommunicationError) : client A :=
  eff_lift (ok_or o e).

Definition unwrap {A} (o : option A) : client A := eff_lift (or_panic o).

Definition from_other_str {A} (text : string) (o : option A) : client A :=
  or_fail o (FromOtherStr text).

Definition from_program {A} (m : outcome ProgramError A) : client A :=
  eff_lift (map_err FromProgram m).

(** [HyperlaneSealevelError] on the way to a [ChainCommunicationError]. *)
Definition sealevel_rpc {A} (m : eff Node ClientError A) : client A :=
  eff_map_err (λ e, FromSealevel (HyperlaneClientError e)) m.

Definition from_outcome {A} (m : outcome ChainCommunicationError A) : client A := eff_lift m.

(** The error of a call as a value. *)
Definition attempt {E A} (m : eff Node E A) : client (E + A) := eff_try m.

(** [Pubkey::new], which panics on any other length. *)
Definition Pubkey_new (b : bytes) : client Pubkey :=
  unwrap (if decide (length b = 32%nat) then Some (from_be 32 b) else None).

(** ** [utils.rs] *)

(** [simulate_instruction]; whether the simulated transaction failed is not looked at. *)
Definition simulate_instruction {T} `{TryFromSlice T} (payer : Keypair)
    (instruction : SolanaInstruction) : client (option T) :=
  '(recent_blockhash, _) ← rpc (get_latest_blockhash_with_commitment Finalized);
  '(_, return_data) ← rpc (simulate_transaction
    (new_unsigned_with_blockhash [instruction] (Some (pubkey payer)) recent_blockhash));
  match return_data with
  | Some return_data =>
      b ← or_fail (base64_decode return_data) FromOther;
      decoded_data ← from_outcome (map_err FromIo (try_from_slice b));
      mret (Some decoded_data)
  | None => mret None
  end.

Context `{TryFromSlice (SimulationReturnData (list SerializableAccountMeta))}.

(** [get_account_metas] *)
Definition get_account_metas (payer : Keypair) (instruction : SolanaInstruction) :
    client (list AccountMeta) :=
  d ← simulate_instruction (T := SimulationReturnData (list SerializableAccountMeta)) payer
        instruction;
  mret (match d with Some metas => AccountMeta_from <$> srd_return_data metas | None => [] end).

(** [get_finalized_block_number] *)
Definition get_finalized_block_number : client u32 :=
  height ← rpc get_block_height;
  unwrap (try_u32 height).

(** ** [provider.rs] *)

Record SealevelProvider := MkSealevelProvider { provider_domain : Domain.HyperlaneDomain }.

(** [SealevelProvider::get_balance] *)
Definition get_balance (address : string) : client Codec.U256 :=
  pubkey ← or_fail (pubkey_from_str address) (FromSealevel ParsePubkeyError);
  balance ← sealevel_rpc (get_rpc_balance pubkey);
  mret (MkU256 (uwrap 32 (uval balance))).

(** ** [mailbox.rs] *)

Definition SYSTEM_PROGRAM : string := "11111111111111111111111111111111".
Definition SPL_NOOP : string := "noopb9bkMVfRPU8AsbpTUg8AQkHtKwMYZiFUjNRtMmV".
Definition PROCESS_COMPUTE_UNITS : u32 := uwrap 4 1400000.

Record SealevelMailbox := MkSealevelMailbox {
  mb_program_id : Pubkey;
  mb_inbox : Pubkey * u8;
  mb_outbox : Pubkey * u8;
  mb_provider : SealevelProvider;
  mb_payer : option Keypair
}.

(** [SealevelMailbox::new] *)
Definition SealevelMailbox_new (locator : ContractLocator) (payer : option Keypair) :
    SealevelMailbox :=
  let program_id := locator_address locator in
  MkSealevelMailbox program_id (find_program_address mailbox_inbox_pda_seeds program_id)
    (find_program_address mailbox_outbox_pda_seeds program_id)
    (MkSealevelProvider (locator_domain locator)) payer.

(** [.as_ref().ok_or_else(|| ChainCommunicationError::SignerUnavailable)?] *)
Definition signer (payer : option Keypair) : client Keypair :=
  or_fail payer SignerUnavailable.

Section mailbox.
Context `{BorshSerialize Mailbox.Instruction, TryFromSlice (SimulationReturnData Pubkey)}.
Context `{BorshSerialize VerifyInstruction, BorshSerialize HandleInstruction}.
Context `{BorshSerialize bool, BorshDeserialize bool}.
Context `{BorshDeserialize Inbox, BorshDeserialize Outbox}.
Context `{BigDecimal} (FixedPointNumber_zero : FixedPointNumber).
Variable self : SealevelMailbox.

(** [get_account_metas_with_instruction_bytes] *)
Definition get_account_metas_with_instruction_bytes (program_id : Pubkey)
    (instruction_data : bytes) (account_metas_pda_seeds : list bytes) :
    client (list AccountMeta) :=
  let '(account_metas_pda_key, _) := find_program_address account_metas_pda_seeds program_id in
  payer ← signer (mb_payer self);
  get_account_metas payer
    (MkInstruction program_id [AccountMeta_new account_metas_pda_key false] instruction_data).

(** [get_ism_getter_account_metas] *)
Definition get_ism_getter_account_metas (recipient_program_id : Pubkey) :
    client (list AccountMeta) :=
  data ← from_program (Recipient.encode InterchainSecurityModuleAccountMetas);
  get_account_metas_with_instruction_bytes recipient_program_id data
    INTERCHAIN_SECURITY_MODULE_ACCOUNT_METAS_PDA_SEEDS.

(** [get_ism_verify_account_metas] *)
Definition get_ism_verify_account_metas (ism : Pubkey) (metadata message : bytes) :
    client (list AccountMeta) :=
  data ← from_program (Ism.encode (VerifyAccountMetas (MkVerifyInstruction metadata message)));
  get_account_metas_with_instruction_bytes ism data VERIFY_ACCOUNT_METAS_PDA_SEEDS.

(** [get_handle_account_metas] *)
Definition get_handle_account_metas (message : HyperlaneMessage) : client (list AccountMeta) :=
  data ← from_program (Recipient.encode (HandleAccountMetas
    (MkHandleInstruction (origin message) (sender message) (body message))));
  get_account_metas_with_instruction_bytes (recipient message) data
    HANDLE_ACCOUNT_METAS_PDA_SEEDS.

(** [SealevelMailbox::get_recipient_ism]; [Instruction::new_with_borsh] unwraps *)
Definition client_recipient_ism (recipient_program_id : Pubkey)
    (ism_getter_account_metas : list AccountMeta) : client Pubkey :=
  let accounts :=
    [AccountMeta_new_readonly (fst (mb_inbox self)) false;
     AccountMeta_new_readonly recipient_program_id false] ++ ism_getter_account_metas in
  data ← from_outcome (expect (serialize (InboxGetRecipientIsm recipient_program_id)));
  payer ← signer (mb_payer self);
  ism ← simulate_instruction (T := SimulationReturnData Pubkey) payer
          (MkInstruction (mb_program_id self) accounts data);
  ism ← from_other_str "No return data from InboxGetRecipientIsm instruction" ism;
  mret (srd_return_data ism).

(** [Mailbox::delivered] *)
Definition delivered (id : H256) : client bool :=
  let '(processed_message_account_key, _) :=
    find_program_address (mailbox_processed_message_pda_seeds id) (mb_program_id self) in
  account ← rpc (get_account_with_commitment processed_message_account_key Finalized);
  mret (bool_decide (is_Some account)).

(** [Mailbox::default_ism] *)
Definition client_default_ism : client H256 :=
  inbox_account ← rpc (get_rpc_account (fst (mb_inbox self)));
  inbox ← from_program (AccountData.fetch (T := Inbox) (acc_data inbox_account));
  mret (default_ism inbox).

(** [Mailbox::recipient_ism] *)
Definition recipient_ism (recipient : H256) : client H256 :=
  ism_getter_account_metas ← get_ism_getter_account_metas recipient;
  client_recipient_ism recipient ism_getter_account_metas.

(** [Mailbox::process], up to the instruction for the mailbox *)
Definition process_ixn (payer : Keypair) (message : HyperlaneMessage) (metadata : bytes) :
    client SolanaInstruction :=
  let encoded_message := to_vec message in
  '(process_authority_key, _) ←
    from_other_str "Could not find program address for process authority"
      (try_find_program_address (mailbox_process_authority_pda_seeds (recipient message))
         (mb_program_id self));
  '(processed_message_account_key, _) ←
    from_other_str "Could not find program address for processed message account"
      (try_find_program_address (mailbox_processed_message_pda_seeds (id message))
         (mb_program_id self));
  ism_getter_account_metas ← get_ism_getter_account_metas (recipient message);
  ism ← client_recipient_ism (recipient message) ism_getter_account_metas;
  ixn_data ← from_program
    (into_instruction_data (InboxProcessIxn (MkInboxProcess metadata encoded_message)));
  system_program ← unwrap (pubkey_from_str SYSTEM_PROGRAM);
  spl_noop ← unwrap (pubkey_from_str SPL_NOOP);
  let accounts :=
    [AccountMeta_new_readonly (pubkey payer) true;
     AccountMeta_new_readonly system_program false;
     AccountMeta_new (fst (mb_inbox self)) false;
     AccountMeta_new_readonly process_authority_key false;
     AccountMeta_new processed_message_account_key false]
    ++ ism_getter_account_metas
    ++ [AccountMeta_new_readonly spl_noop false; AccountMeta_new_readonly ism false] in
  ism_verify_account_metas ← get_ism_verify_account_metas ism metadata encoded_message;
  let accounts := accounts ++ ism_verify_account_metas
    ++ [AccountMeta_new_readonly (recipient message) false] in
  handle_account_metas ← get_handle_account_metas message;
  mret (MkInstruction (mb_program_id self) (accounts ++ handle_account_metas) ixn_data).

(** [Mailbox::process]: the instruction is sent with a limit of its compute units. *)
Definition client_process (message : HyperlaneMessage) (metadata : bytes)
    (_tx_gas_limit : option Codec.U256) : client TxOutcome :=
  payer ← signer (mb_payer self);
  inbox_instruction ← process_ixn payer message metadata;
  let instructions := [set_compute_unit_limit PROCESS_COMPUTE_UNITS; inbox_instruction] in
  '(recent_blockhash, _) ← rpc (get_latest_blockhash_with_commitment Processed);
  let txn := new_signed_with_payer instructions (Some (pubkey payer)) [payer] recent_blockhash in
  signature ← rpc (send_and_confirm_transaction txn);
  confirmed ← attempt (confirm_transaction_with_commitment signature Processed);
  let executed := match confirmed with inr value => value | inl _ => false end in
  gas_price ← or_fail (FixedPointNumber_try_from (uwrap 32 0)) FromOther;
  mret (MkTxOutcome signature executed (uwrap 32 0) gas_price).

(** [Mailbox::process_estimate_costs] *)
Definition process_estimate_costs (_message : HyperlaneMessage) (_metadata : bytes) :
    client TxCostEstimate :=
  mret (MkTxCostEstimate (uwrap 32 0) FixedPointNumber_zero None).

(** ** [merkle_tree_hook.rs] *)

(** [MerkleTreeHook::tree]; the lag is asserted to be absent. *)
Definition tree (lag : option u64) : client IncrementalMerkle :=
  unwrap (match lag with None => Some tt | Some _ => None end);;
  outbox_account ← rpc (get_account_with_commitment (fst (mb_outbox self)) Finalized);
  outbox_account ← from_other_str "Could not find account data" outbox_account;
  outbox ← from_program (AccountData.fetch (T := Outbox) (acc_data outbox_account));
  mret (outbox_tree outbox).

(** [MerkleTreeHook::latest_checkpoint] *)
Definition latest_checkpoint (lag : option u64) : client Checkpoint :=
  unwrap (match lag with None => Some tt | Some _ => None end);;
  tree ← tree lag;
  root ← unwrap (Incremental.root tree);
  count ← or_fail (try_u32 (count tree)) FromOther;
  index ← or_fail (if uval count =? 0 then None else Some (uwrap 4 (uval count - 1)))
            (ContractErrorStr "Outbox is empty, cannot compute checkpoint");
  mret (MkCheckpoint (mb_program_id self) (Domain.id (provider_domain (mb_provider self))) root
          index).

(** [MerkleTreeHook::count], which is [Mailbox::count] too *)
Definition client_count (_maybe_lag : option u64) : client u32 :=
  tree ← tree _maybe_lag;
  or_fail (try_u32 (count tree)) FromOther.
End mailbox.

(** ** The indexers: program accounts found by their first bytes *)

(** The loop over the accounts found: the first whose address is derived from the key stored
    in it, with what the error says of a key without an address. *)
Fixpoint find_valid_pda (seeds : Pubkey -> list bytes) (program_id : Pubkey) (no_address : string)
    (accounts : list (Pubkey * account)) : client (option Pubkey) :=
  match accounts with
  | [] => mret None
  | (pubkey, account) :: accounts =>
      unique_pubkey ← Pubkey_new (acc_data account);
      '(expected_pubkey, _) ←
        from_other_str no_address (try_find_program_address (seeds unique_pubkey) program_id);
      if decide (expected_pubkey = pubkey) then mret (Some pubkey)
      else find_valid_pda seeds program_id no_address accounts
  end.

(** The query for the accounts of a program that start with the given bytes, after the flag;
    of their data, only the 32 bytes of the unique key are asked for. *)
Definition unique_key_query (prefix : bytes) (unique_offset : nat) : RpcProgramAccountsConfig :=
  MkRpcProgramAccountsConfig (Some [MkMemcmp 1 (base64_encode prefix)])
    (Some (MkUiDataSliceConfig unique_offset 32)) (Some Finalized).

Section mailbox_indexer.
Context `{BorshSerialize bool, BorshDeserialize bool, BorshDeserialize Outbox}.

(** [SealevelMailboxIndexer]: its program id is the one of the mailbox. *)
Record SealevelMailboxIndexer := MkSealevelMailboxIndexer {
  indexer_mailbox : SealevelMailbox;
  indexer_program_id : Pubkey
}.

Definition SealevelMailboxIndexer_new (locator : ContractLocator) : SealevelMailboxIndexer :=
  MkSealevelMailboxIndexer (SealevelMailbox_new locator None) (locator_address locator).

Variable self : SealevelMailboxIndexer.

(** [get_message_with_nonce] *)
Definition get_message_with_nonce (nonce : u32) : client (HyperlaneMessage * LogMeta) :=
  let program_id := mb_program_id (indexer_mailbox self) in
  let target_message_account_bytes := DISPATCHED_MESSAGE_DISCRIMINATOR ++ to_le nonce in
  accounts ← rpc (get_program_accounts_with_config program_id
    (unique_key_query target_message_account_bytes (1 + 8 + 4 + 8)));
  valid ← find_valid_pda mailbox_dispatched_message_pda_seeds program_id
    "Could not find program address for unique_message_pubkey" accounts;
  valid_message_storage_pda_pubkey ←
    from_other_str "Could not find valid message storage PDA pubkey" valid;
  account ← rpc (get_account_with_commitment valid_message_storage_pda_pubkey Finalized);
  account ← from_other_str "Could not find account data" account;
  dispatched_message_account ←
    from_program (AccountData.fetch (T := DispatchedMessage) (acc_data account));
  hyperlane_message ← from_outcome (map_err FromProtocol
    (eval_st read_from (dm_encoded_message dispatched_message_account)));
  mret (hyperlane_message,
        MkLogMeta program_id (dm_slot dispatched_message_account) (uwrap 32 0) (uwrap 64 0)
          (uwrap 8 0) (MkU256 (uwrap 32 0))).

Fixpoint fetch_messages (range : list u32) : client (list (HyperlaneMessage * LogMeta)) :=
  match range with
  | [] => mret []
  | nonce :: range =>
      message ← get_message_with_nonce nonce;
      messages ← fetch_messages range;
      mret (message :: messages)
  end.

(** [Indexer<HyperlaneMessage>::fetch_logs] *)
Definition fetch_message_logs (from to : u32) : client (list (HyperlaneMessage * LogMeta)) :=
  fetch_messages (range_inclusive from to).

(** [SequenceIndexer<HyperlaneMessage>::sequence_and_tip] *)
Definition message_sequence_and_tip : client (option u32 * u32) :=
  tip ← get_finalized_block_number;
  count ← client_count (indexer_mailbox self) None;
  mret (Some count, tip).

(** [SequenceIndexer<H256>::sequence_and_tip] *)
Definition delivery_sequence_and_tip : client (option u32 * u32) :=
  tip ← get_finalized_block_number;
  mret (Some (uwrap 4 1), tip).

(** [message_to_merkle_tree_insertion] *)
Definition message_to_merkle_tree_insertion (message : HyperlaneMessage) : MerkleTreeInsertion :=
  MkMerkleTreeInsertion (nonce message) (id message).

(** [Indexer<MerkleTreeInsertion>::fetch_logs]; [sequence_and_tip] is the one of messages *)
Definition fetch_insertion_logs (from to : u32) : client (list (MerkleTreeInsertion * LogMeta)) :=
  messages ← fetch_message_logs from to;
  mret ((λ '(m, meta), (message_to_merkle_tree_insertion m, meta)) <$> messages).
End mailbox_indexer.

(** ** [interchain_security_module.rs] *)

Record SealevelIsm := MkSealevelIsm {
  ism_payer : option Keypair;
  ism_program_id : Pubkey
}.

(** [ModuleType::from_u32], derived from the order of the variants *)
Definition ModuleType_from_u32 (n : u32) : option ModuleType :=
  [Unused; Routing; Aggregation; LegacyMultisig; MerkleRootMultisig; MessageIdMultisig;
   Metadata.Null; CcipRead] !! Z.to_nat n.

(** [InterchainSecurityModule::module_type] *)
Definition ism_module_type `{TryFromSlice (SimulationReturnData u32)} `{BorshSerialize VerifyInstruction}
    (self : SealevelIsm) : client ModuleType :=
  data ← from_program (Ism.encode Type_);
  payer ← signer (ism_payer self);
  module ← simulate_instruction (T := SimulationReturnData u32) payer
    (MkInstruction (ism_program_id self) [] data);
  module ← from_other_str "No return data was returned from the ISM" module;
  mret (default Unused (ModuleType_from_u32 (srd_return_data module))).

(** [InterchainSecurityModule::dry_run_verify] *)
Definition ism_dry_run_verify (_self : SealevelIsm) (_message : HyperlaneMessage)
    (_metadata : bytes) : client (option Codec.U256) :=
  mret (Some (MkU256 (uwrap 32 0))).

(** ** [multisig_ism.rs] *)

Record SealevelMultisigIsm := MkSealevelMultisigIsm {
  mi_payer : option Keypair;
  mi_program_id : Pubkey;
  mi_domain : Domain.HyperlaneDomain
}.

(** [get_validators_and_threshold_account_metas] *)
Definition client_vat_account_metas (self : SealevelMultisigIsm) (message_bytes : bytes) :
    client (list AccountMeta) :=
  '(account_metas_pda_key, _) ←
    from_other_str "Could not find program address for domain data"
      (try_find_program_address VALIDATORS_AND_THRESHOLD_ACCOUNT_METAS_PDA_SEEDS
         (mi_program_id self));
  data ← from_program
    (MultisigIsmInstruction_encode (ValidatorsAndThresholdAccountMetas message_bytes));
  payer ← signer (mi_payer self);
  get_account_metas payer (MkInstruction (mi_program_id self)
    [AccountMeta_new_readonly account_metas_pda_key false] data).

(** [MultisigIsm::validators_and_threshold] *)
Definition client_validators_and_threshold
    `{TryFromSlice (SimulationReturnData ValidatorsAndThreshold)} (self : SealevelMultisigIsm)
    (message : HyperlaneMessage) : client (list H256 * u8) :=
  let message_bytes := to_vec message in
  account_metas ← client_vat_account_metas self message_bytes;
  data ← from_program (MultisigIsmInstruction_encode (ValidatorsAndThresholdIxn message_bytes));
  payer ← signer (mi_payer self);
  set ← simulate_instruction (T := SimulationReturnData ValidatorsAndThreshold) payer
    (MkInstruction (mi_program_id self) account_metas data);
  set ← from_other_str "No return data was returned from the multisig ism" set;
  mret (H256_from_H160 <$> validators (srd_return_data set), threshold (srd_return_data set)).

(** ** [interchain_gas.rs] *)

(** The offset of the unique key: the flag, the discriminator and the fields before it. *)
Definition UNIQUE_GAS_PAYMENT_PUBKEY_OFFSET : nat := 1 + 8 + 8 + 32 + 4 + 32 + 8 + 8.

Record SealevelInterchainGasPaymaster := MkSealevelInterchainGasPaymaster {
  igp_program_id : Pubkey;
  data_pda_pubkey : Pubkey;
  igp_domain : Domain.HyperlaneDomain;
  igp_account : H256
}.

(** [determine_igp_program_id] *)
Definition determine_igp_program_id (igp_account_pubkey : H256) : client Pubkey :=
  account ← rpc (get_account_with_commitment igp_account_pubkey Finalized);
  account ← from_other_str "Could not find IGP account for pubkey" account;
  mret (acc_owner account).

(** [SealevelInterchainGasPaymaster::new] *)
Definition SealevelInterchainGasPaymaster_new (igp_account_locator : ContractLocator) :
    client SealevelInterchainGasPaymaster :=
  program_id ← determine_igp_program_id (locator_address igp_account_locator);
  let '(data_pda_pubkey, _) := find_program_address igp_program_data_pda_seeds program_id in
  mret (MkSealevelInterchainGasPaymaster program_id data_pda_pubkey
          (locator_domain igp_account_locator) (locator_address igp_account_locator)).

Record SealevelGasPayment := MkSealevelGasPayment {
  sgp_payment : InterchainGasPayment;
  sgp_log_meta : LogMeta;
  igp_account_pubkey : H256
}.

Section igp.
Context `{BorshSerialize bool, BorshDeserialize bool}.
Context `{BorshDeserialize GasPaymentData, BorshDeserialize ProgramData}.
Variable self : SealevelInterchainGasPaymaster.

(** [get_payment_with_sequence] *)
Definition get_payment_with_sequence (sequence_number : u64) : client SealevelGasPayment :=
  let payment_bytes := GAS_PAYMENT_DISCRIMINATOR ++ to_le sequence_number in
  accounts ← rpc (get_program_accounts_with_config (igp_program_id self)
    (unique_key_query payment_bytes UNIQUE_GAS_PAYMENT_PUBKEY_OFFSET));
  valid ← find_valid_pda igp_gas_payment_pda_seeds (igp_program_id self)
    "Could not find program address for unique_gas_payment_pubkey" accounts;
  valid_payment_pda_pubkey ← from_other_str "Could not find valid gas payment PDA pubkey" valid;
  account ← rpc (get_account_with_commitment valid_payment_pda_pubkey Finalized);
  account ← from_other_str "Could not find account data" account;
  gas_payment_account ←
    from_program (AccountData.fetch (T := DiscriminatorPrefixed GasPaymentData) (acc_data account));
  let data := prefixed_data gas_payment_account in
  mret (MkSealevelGasPayment
    (MkInterchainGasPayment (payment_message_id data) (payment_destination_domain data)
       (MkU256 (uwrap 32 (payment data))) (MkU256 (uwrap 32 (payment_gas_amount data))))
    (MkLogMeta (igp_program_id self) (payment_slot data) (uwrap 32 0) (uwrap 64 0) (uwrap 8 0)
       (MkU256 (uwrap 32 sequence_number)))
    (payment_igp data)).

Fixpoint fetch_payments (range : list u32) : client (list (InterchainGasPayment * LogMeta)) :=
  match range with
  | [] => mret []
  | nonce :: range =>
      found ← attempt (E := ChainCommunicationError) (get_payment_with_sequence (uwrap 8 nonce));
      payments ← fetch_payments range;
      mret (match found with
            | inr p => if decide (igp_account self = igp_account_pubkey p)
                       then (sgp_payment p, sgp_log_meta p) :: payments else payments
            | inl _ => payments
            end)
  end.

(** [Indexer<InterchainGasPayment>::fetch_logs] *)
Definition fetch_payment_logs (from to : u32) : client (list (InterchainGasPayment * LogMeta)) :=
  fetch_payments (range_inclusive from to).

(** [SequenceIndexer<InterchainGasPayment>::sequence_and_tip] *)
Definition payment_sequence_and_tip : client (option u32 * u32) :=
  program_data_account ← rpc (get_account_with_commitment (data_pda_pubkey self) Finalized);
  program_data_account ← from_other_str "Could not find account data" program_data_account;
  program_data ← from_program
    (AccountData.fetch (T := DiscriminatorPrefixed ProgramData) (acc_data program_data_account));
  payment_count ← or_fail (try_u32 (payment_count (prefixed_data program_data)))
                     StrOrIntParseError;
  tip ← get_finalized_block_number;
  mret (Some payment_count, tip).
End igp.

(** ** [validator_announce.rs] *)

Record SealevelValidatorAnnounce := MkSealevelValidatorAnnounce {
  sva_program_id : Pubkey;
  sva_domain : Domain.HyperlaneDomain
}.

(** [H160::from_slice(&v.as_bytes()[12..])] *)
Definition validator_h160 (v : H256) : H160 := from_be 20 (drop 12 (to_be v)).

Section announce.
Context `{BorshSerialize bool, BorshDeserialize bool, BorshDeserialize ValidatorStorageLocations}.

(** The locations in the account of a validator; none if it does not exist or does not parse.
    A panic of the decoder stays one. *)
Definition account_locations (account : option account) : client (list bytes) :=
  match account with
  | None => mret []
  | Some account =>
      match AccountData.fetch (T := ValidatorStorageLocations) (acc_data account) with
      | Ok v => mret (storage_locations v)
      | Err _ => mret []
      | Panic => from_outcome Panic
      end
  end.

Fixpoint accounts_locations (accounts : list (option account)) : client (list (list bytes)) :=
  match accounts with
  | [] => mret []
  | account :: accounts =>
      l ← account_locations account;
      ls ← accounts_locations accounts;
      mret (l :: ls)
  end.

(** [ValidatorAnnounce::get_announced_storage_locations] *)
Definition get_announced_storage_locations (self : SealevelValidatorAnnounce)
    (validators : list H256) : client (list (list bytes)) :=
  let account_pubkeys :=
    (λ v, fst (find_program_address
                 (validator_storage_locations_pda_seeds (validator_h160 v))
                 (sva_program_id self))) <$> validators in
  accounts ← rpc (get_multiple_accounts_with_commitment account_pubkeys Finalized);
  accounts_locations accounts.

(** [announce_tokens_needed] and [announce], which announces nothing *)
Definition client_announce_tokens_needed (_self : SealevelValidatorAnnounce) : client (option Codec.U256) :=
  mret (Some (MkU256 (uwrap 32 0))).

Definition client_announce `{BigDecimal} (_self : SealevelValidatorAnnounce) : client TxOutcome :=
  gas_price ← or_fail (FixedPointNumber_try_from (uwrap 32 0)) FromOther;
  mret (MkTxOutcome (uwrap 64 0) false (uwrap 32 0) gas_price).
End announce.
End client.
