(* ===== verification/SealevelClientTheorems.v ===== *)
(** * Properties of the agents' client of a Sealevel chain

    What a node answers about the accounts of its finalised state ([NodeLaws]); the messages the
    mailbox program stores, one per nonce, and the indexer that finds them; checkpoints,
    deliveries and gas payments as the client reports them; the account list of [process] as the
    mailbox program takes it apart; and a node at concrete inputs. *)

From S2P Require Import Prelude.
From S2P Require Import Codec.
From S2P Require Import Keccak.
From S2P Require Import Accumulator.
From S2P Require Import Message.
From S2P Require Import U256.
From S2P Require Import Chain.
From S2P Require Import MerkleSpec.
From S2P Require Import MerkleCorrect.
From S2P Require Import IncrementalCorrect.
From S2P Require Import RelayerCorrect.
From S2P Require Import Sealevel.
From S2P Require Import AccountUtils.
From S2P Require Import Interfaces.
From S2P Require Import Igp.
From S2P Require Import Mailbox.
From S2P Require Import Concrete.
From S2P Require Import MailboxCorrect.
From S2P Require Import MailboxTheorems.
From S2P Require Import AccountTheorems.
From S2P Require Import SealevelClient.
From stdpp Require Import base gmap list numbers strings sets.
From Stdlib Require Import ZArith Lia.

#[local] Open Scope Z_scope.

(** ** What a node answers *)

Section node.
Context `{Solana, SolanaClient}.

(** Time passes, and the call answers as [Q] says or fails. *)
Definition answers {A} (later : Node -> Node -> Prop) (m : eff Node ClientError A) (n : Node)
    (Q : A -> Prop) : Prop :=
  exists n', later n n' /\ ((exists a, m n = (n', Ok a) /\ Q a) \/ exists e, m n = (n', Err e)).

(** The data passes the filters. *)
Definition matches (config : RpcProgramAccountsConfig) (data : bytes) : Prop :=
  forall l f, filters config = Some l -> f ∈ l ->
    exists b, base64_decode (filter_bytes f) = Some b /\
      slice data (filter_offset f) (filter_offset f + length b) = Some b.

Definition sliced (config : RpcProgramAccountsConfig) (a : account) : account :=
  MkAccount (acc_lamports a)
    (match data_slice config with
     | Some s => take (slice_length s) (drop (slice_offset s) (acc_data a))
     | None => acc_data a
     end) (acc_owner a).

(** The documented answers of a node, by the finalised state it knows. *)
Class NodeLaws := {
  finalized : Node -> world;
  later : Node -> Node -> Prop;
  later_preorder :: PreOrder later;
  base64 b : base64_decode (base64_encode b) = Some b;
  account_answer k n :
    answers later (get_account_with_commitment k Finalized) n (λ a,
      a = accounts (finalized n) !! k);
  program_accounts_answer p config n :
    config_commitment config = Some Finalized ->
    answers later (get_program_accounts_with_config p config) n (λ l, forall k a,
      (k, a) ∈ l <-> exists acc, accounts (finalized n) !! k = Some acc /\ acc_owner acc = p /\
        matches config (acc_data acc) /\ a = sliced config acc);
  multiple_accounts_answer ks n :
    answers later (get_multiple_accounts_with_commitment ks Finalized) n (λ l,
      l = (λ k, accounts (finalized n) !! k) <$> ks)
}.
End node.

Section gives.
Context `{Solana, SolanaClient, !NodeLaws}.

(** Run from [n], an operation of the client ends as [P] says, unless a call of the RPC client
    fails, whose error it returns. *)
Definition gives {A} (m : client A) (n : Node) (P : outcome ChainCommunicationError A -> Prop) :
    Prop :=
  exists n' r, m n = (n', r) /\ later n n' /\ (P r \/ exists e, r = Err (FromClient e)).

Lemma gives_rpc {A B} (m : eff Node ClientError A) (f : A -> client B) n Q P :
  answers later m n Q -> (forall n1 a, later n n1 -> Q a -> gives (f a) n1 P) ->
  gives (rpc m ≫= f) n P.
Proof.
  intros (n1 & Hn1 & [(a & Hm & Ha)|(e & Hm)]) Hf; unfold gives, mbind, eff_bind, rpc,
    eff_map_err; rewrite Hm; cbn [map_err].
  - destruct (Hf n1 a Hn1 Ha) as (n' & r & -> & Hn' & Hr). exists n', r.
    split; [done|]. split; [by etrans|done].
  - exists n1, (Err (FromClient e)). split; [done|]. split; [done|]. right. by exists e.
Qed.

(** A step that only computes. *)
Lemma gives_pure {A B} (m : client A) (f : A -> client B) n a P :
  m n = (n, Ok a) -> gives (f a) n P -> gives (m ≫= f) n P.
Proof. intros Hm. unfold gives, mbind, eff_bind. by rewrite Hm. Qed.

Lemma gives_stop {A B} (m : client A) (f : A -> client B) n e P :
  m n = (n, Err e) -> P (Err e) -> gives (m ≫= f) n P.
Proof.
  intros Hm HP. exists n, (Err e). unfold mbind, eff_bind. rewrite Hm. by repeat split; try left.
Qed.

Lemma gives_bind {A B} (m : client A) (f : A -> client B) n Q P :
  gives m n (λ r, exists a, r = Ok a /\ Q a) ->
  (forall n1 a, later n n1 -> Q a -> gives (f a) n1 P) -> gives (m ≫= f) n P.
Proof.
  intros (n1 & r & Hm & Hn1 & Hr) Hf. unfold gives, mbind, eff_bind. rewrite Hm.
  destruct Hr as [(a & -> & Ha)|(e & ->)].
  - destruct (Hf n1 a Hn1 Ha) as (n' & r' & -> & Hn' & Hr'). exists n', r'.
    split; [done|]. split; [by etrans|done].
  - exists n1, (Err (FromClient e)). split; [done|]. split; [done|]. right. by exists e.
Qed.

Lemma gives_mono {A} (m : client A) n (P Q : outcome ChainCommunicationError A -> Prop) :
  gives m n P -> (forall r, P r -> Q r) -> gives m n Q.
Proof.
  intros (n' & r & Hm & Hn & [Hr|He]) HPQ; exists n', r; split; [done| |done|];
    split; [done|left; by apply HPQ|done|by right].
Qed.

Lemma gives_ret {A} (a : A) n P : P (Ok a) -> gives (mret a) n P.
Proof. intros HP. exists n, (Ok a). by repeat split; try left. Qed.

Lemma lookup_content w k d o :
  o <> system_program_id -> content w k = (d, o) ->
  exists a, accounts w !! k = Some a /\ acc_data a = d /\ acc_owner a = o.
Proof.
  unfold content, get_account. destruct (accounts w !! k) as [a|]; cbn.
  - intros _ [= <- <-]. by exists a.
  - by intros Ho [= _ <-].
Qed.

Lemma content_lookup w k a :
  accounts w !! k = Some a -> content w k = (acc_data a, acc_owner a).
Proof. unfold content, get_account. by intros ->. Qed.
End gives.

(** ** The messages in the accounts of the mailbox *)

Section stored.
Context `{Solana}.
Variable program_id : Pubkey.

(** The account [k] of the program looks like a message. *)
Definition tagged (w : world) (k : Pubkey) (data : bytes) : Prop :=
  content w k = (data, program_id) /\ slice data 1 9 = Some DISPATCHED_MESSAGE_DISCRIMINATOR.

(** It is the account of a message with the nonce [n], at the address derived from the key
    [u] it stores. *)
Definition message_account (w : world) (k u : Pubkey) (n : u32) : Prop :=
  exists data, tagged w k data /\ slice data 9 13 = Some (to_le n) /\
    slice data 21 53 = Some (to_be u) /\
    fst (find_program_address (mailbox_dispatched_message_pda_seeds u) program_id) = k.

(** Every message has its own nonce, below the count of the outbox. *)
Record messages_ok (w : world) (count : Z) : Prop := {
  mo_whole k data : tagged w k data -> (53 <= length data)%nat;
  mo_below k u n : message_account w k u n -> uval n < count;
  mo_once k u k' u' n : message_account w k u n -> message_account w k' u' n -> k = k'
}.

(** The state of the mailbox program when it holds no message, in particular when it is new. *)
Lemma messages_ok_none w :
  (forall k data, ~ tagged w k data) -> messages_ok w 0.
Proof.
  intros Hn. split.
  - intros k data Ht. by destruct (Hn k data).
  - intros k u n (data & Ht & _). by destruct (Hn k data).
  - intros k u k' u' n (data & Ht & _). by destruct (Hn k data).
Qed.

(** The bytes of a message account. *)
Lemma dispatched_slices nonce slot u e b :
  serialize (DispatchedMessage_new nonce slot u e) = Ok b ->
  let data := byte 1 :: b in
  slice data 1 9 = Some DISPATCHED_MESSAGE_DISCRIMINATOR /\
  slice data 9 13 = Some (to_le nonce) /\ slice data 21 53 = Some (to_be u) /\
  (53 <= length data)%nat.
Proof.
  intros Hb. apply (inj Ok) in Hb as <-. cbv zeta.
  cbn [DispatchedMessage_new dm_nonce dm_slot dm_unique_message_pubkey dm_encoded_message].
  change (byte 1 :: ?l) with ([byte 1] ++ l). split_and!; try (by slices).
  rewrite !length_app, !length_to_le, length_to_be.
  change (length DISPATCHED_MESSAGE_DISCRIMINATOR) with 8%nat. cbn. lia.
Qed.
End stored.

(** A range of bytes, in two parts. *)
Lemma slice_parts {A} (l p q : list A) a n m :
  length p = n -> length q = m ->
  slice l a (a + (n + m)) = Some (p ++ q) <->
  slice l a (a + n) = Some p /\ slice l (a + n) (a + n + m) = Some q.
Proof.
  intros Hp Hq. destruct (decide (a + (n + m) <= length l)%nat) as [Hl|Hl].
  - rewrite !slice_in by lia. rewrite <- (drop_drop l n a).
    replace (a + (n + m) - a)%nat with (n + m)%nat by lia.
    replace (a + n - a)%nat with n by lia. replace (a + n + m - (a + n))%nat with m by lia.
    rewrite <- (take_drop n (drop a l)) at 1.
    assert (Hn : length (take n (drop a l)) = n) by (rewrite length_take, length_drop; lia).
    rewrite take_app_ge by lia. rewrite Hn. replace (n + m - n)%nat with m by lia. split.
    + intros Heq. apply (inj Some), app_inj_1 in Heq as [-> ->]; [done|lia].
    + intros [Hx Hy]. apply (inj Some) in Hx as ->. by apply (inj Some) in Hy as ->.
  - rewrite slice_out by lia. split; [done|]. intros [_ Hy].
    by rewrite slice_out in Hy by lia.
Qed.

Section indexer.
Context `{SolanaLaws, SolanaClient, Keccak256, !NodeLaws}.
Context `{BorshSerialize bool, BorshDeserialize bool, !BorshBool}.
Context (try_find_program_address : list bytes -> Pubkey -> option (Pubkey * u8)).
(** Where no bump gives an address, [find_program_address] panics. *)
Context (try_finds : forall seeds p,
  try_find_program_address seeds p = Some (find_program_address seeds p)).

(** What the query of the indexer finds: the accounts of messages with the nonce. *)
Lemma query_matches (nonce : u32) off data :
  matches (unique_key_query (DISPATCHED_MESSAGE_DISCRIMINATOR ++ to_le nonce) off) data <->
  slice data 1 9 = Some DISPATCHED_MESSAGE_DISCRIMINATOR /\ slice data 9 13 = Some (to_le nonce).
Proof.
  assert (Hl : length (DISPATCHED_MESSAGE_DISCRIMINATOR ++ to_le nonce) = (8 + 4)%nat)
    by (rewrite length_app, length_to_le; done).
  unfold matches, unique_key_query. cbn [filters]. split.
  - intros Hm. destruct (Hm _ _ eq_refl (list_elem_of_here _ _)) as (b & Hb & Hs).
    cbn [filter_bytes filter_offset] in *. rewrite base64 in Hb. apply (inj Some) in Hb as <-.
    rewrite Hl in Hs. apply slice_parts in Hs; [exact Hs|done|apply length_to_le].
  - intros Hs l f [= <-] Hf. apply list_elem_of_singleton in Hf as ->.
    exists (DISPATCHED_MESSAGE_DISCRIMINATOR ++ to_le nonce). cbn [filter_bytes filter_offset].
    split; [apply base64|]. rewrite Hl. apply slice_parts; [done|apply length_to_le|exact Hs].
Qed.

Lemma from_other_str_some {A B} text (a : A) (f : A -> client B) n :
  (from_other_str text (Some a) ≫= f) n = f a n.
Proof. done. Qed.

Lemma unwrap_some {A B} (a : A) (f : A -> client B) n : (unwrap (Some a) ≫= f) n = f a n.
Proof. done. Qed.

Lemma from_outcome_ok {A B} (a : A) (f : A -> client B) n : (from_outcome (Ok a) ≫= f) n = f a n.
Proof. done. Qed.

Lemma from_program_ok {A B} (a : A) (f : A -> client B) n : (from_program (Ok a) ≫= f) n = f a n.
Proof. done. Qed.

(** The loop over the accounts found: the account whose address fits. *)
Lemma find_valid_pda_finds seeds program_id text (l : list (Pubkey * account)) k n :
  (forall k' a, (k', a) ∈ l -> length (acc_data a) = 32%nat) ->
  (forall k' a, (k', a) ∈ l ->
    fst (find_program_address (seeds (from_be 32 (acc_data a))) program_id) = k' -> k' = k) ->
  (exists a, (k, a) ∈ l /\
    fst (find_program_address (seeds (from_be 32 (acc_data a))) program_id) = k) ->
  find_valid_pda try_find_program_address seeds program_id text l n = (n, Ok (Some k)).
Proof.
  induction l as [|[k' a] l IH]; intros Hlen Hone (a0 & Hin & Hk); [by apply elem_of_nil in Hin|].
  cbn [find_valid_pda]. unfold Pubkey_new.
  rewrite decide_True by (by eapply Hlen, list_elem_of_here).
  rewrite unwrap_some, try_finds.
  destruct (find_program_address (seeds (from_be 32 (acc_data a))) program_id) as [ek b] eqn:He.
  rewrite from_other_str_some. case_decide as Hd.
  - rewrite <- (Hone k' a (list_elem_of_here _ _)); [done|]. by rewrite He.
  - apply IH.
    + intros k2 a2 Hk2. by eapply Hlen, list_elem_of_further.
    + intros k2 a2 Hk2. by eapply Hone, list_elem_of_further.
    + exists a0. split; [|done]. apply elem_of_cons in Hin as [[= <- <-]|Hin]; [|done].
      rewrite He in Hk. done.
Qed.

Lemma dispatched_message_fetch nonce slot u e b :
  serialize (DispatchedMessage_new nonce slot u e) = Ok b ->
  AccountData.fetch (byte 1 :: b) = Ok (DispatchedMessage_new nonce slot u e).
Proof.
  intros Hb. apply (inj Ok) in Hb as <-. unfold AccountData.fetch, AccountData.fetch_data.
  change (byte 1) with (byte (Z.b2z true)). rewrite deserialize_bool.
  cbn [mbind outcome_bind borsh_err map_err].
  unfold deserialize, DispatchedMessage_deserialize.
  cbn [DispatchedMessage_new dm_nonce dm_slot dm_unique_message_pubkey dm_encoded_message].
  rewrite slice_read_exact_app by done. rewrite bool_decide_true by done.
  rewrite require_true_bind by done.
  repeat rewrite slice_read_exact_app by (autorewrite with hyp; reflexivity).
  by autorewrite with hyp.
Qed.

(** The account of a message, as it is stored. *)
Definition stores (program_id : Pubkey) (w : world) (k u : Pubkey) (slot : u64)
    (m : HyperlaneMessage) : Prop :=
  exists b, serialize (DispatchedMessage_new (nonce m) slot u (to_vec m)) = Ok b /\
    content w k = (byte 1 :: b, program_id) /\
    fst (find_program_address (mailbox_dispatched_message_pda_seeds u) program_id) = k.

Lemma stores_message_account program_id w k u slot m :
  stores program_id w k u slot m -> message_account program_id w k u (nonce m).
Proof.
  intros (b & Hb & Hc & Hk). destruct (dispatched_slices _ _ _ _ _ Hb) as (S1 & S2 & S3 & _).
  by exists (byte 1 :: b).
Qed.

(** What [outbox_dispatch] does to the messages of the mailbox. *)
Lemma dispatch_messages `{OverflowChecks}
    `{BorshSerialize Inbox, BorshDeserialize Inbox, !BorshLaws Inbox}
    `{BorshSerialize Outbox, BorshDeserialize Outbox, !BorshLaws Outbox}
    program_id accts dispatch w w' o oi ids :
  executing w = program_id -> program_id <> system_program_id ->
  head accts = Some oi -> outbox_at program_id w (key oi) o -> incr_ok (outbox_tree o) ids ->
  messages_ok program_id w (Z.of_nat (length ids)) ->
  outbox_dispatch program_id accts dispatch w = Ok (tt, w') ->
  (forall data, ~ tagged program_id w' (key oi) data) ->
  messages_ok program_id w' (Z.of_nat (S (length ids))) /\
  (forall k data, k <> key oi -> tagged program_id w k data -> content w' k = content w k) /\
  exists di u slot, Clock_get_slot = Ok slot /\
    uval (nonce (dispatched o dispatch)) = Z.of_nat (length ids) /\
    stores program_id w' di u slot (dispatched o dispatch).
Proof.
  intros Hex Hsys Hhd Ho Hids Hok Hd Hout.
  destruct (outbox_dispatch_ok _ _ _ _ _ Hex Hsys Hd)
    as (oi' & si & sys & noop & payer & um & di & o' & tree & slot & bd & bo & tail & w2 &
        -> & [= <-] & Ho' & _ & _ & _ & _ & Hdi & Hnew & _ & Hcnt & _ & Hbd & Hcd & _ & Hco &
        _ & Hslot & Hother & _).
  cbn in Hhd. injection Hhd as ->.
  assert (Hoo : o' = o) by (destruct Ho as (_ & Hf & _), Ho' as (_ & Hf' & _); congruence).
  subst o'. pose proof (ok_count _ _ Hids) as Hc.
  assert (Hn : uval (nonce (dispatched o dispatch)) = Z.of_nat (length ids)).
  { change (nonce (dispatched o dispatch)) with (uwrap 4 (count (outbox_tree o))).
    rewrite uval_uwrap_small; [done|]. pose proof (uval_range (count (outbox_tree o))).
    unfold u32_MAX in Hcnt. change (umax 4) with (2 ^ 32). lia. }
  assert (Hst : stores program_id w' (key di) (key um) slot (dispatched o dispatch))
    by (by exists bd).
  split; [|split; [|by exists (key di), (key um), slot]]; swap 1 2.
  { intros k data Hk [Hkc _]. apply Hother; [|done]. intros ->.
    rewrite Hnew in Hkc. injection Hkc as _ Hp. by symmetry in Hp. }
  destruct (dispatched_slices _ _ _ _ _ Hbd) as (_ & S2 & _ & Hlen).
  assert (Hold : forall k data, k <> key di -> tagged program_id w' k data ->
    tagged program_id w k data).
  { intros k data Hk [Hkc Ht]. split; [|done].
    destruct (decide (k = key oi)) as [->|Hne]; [by destruct (Hout data)|].
    by rewrite <- Hother. }
  assert (Hkeep : forall k u n, k <> key di -> message_account program_id w' k u n ->
    message_account program_id w k u n).
  { intros k u n Hk (data & Ht & Hm). exists data. split; [by apply Hold|done]. }
  assert (Hown : forall u n, message_account program_id w' (key di) u n ->
    uval n = Z.of_nat (length ids)).
  { intros u n (data & [Hkc _] & Hm & _). rewrite Hcd in Hkc. injection Hkc as <-.
    rewrite S2 in Hm. apply (inj Some), to_le_inj in Hm as <-. done. }
  destruct Hok as [Hwhole Hbelow Honce]. split.
  - intros k data Ht. destruct (decide (k = key di)) as [->|Hk].
    + destruct Ht as [Hkc _]. rewrite Hcd in Hkc. by injection Hkc as <-.
    + by eapply Hwhole, Hold.
  - intros k u n Hm. destruct (decide (k = key di)) as [->|Hk].
    + rewrite (Hown _ _ Hm). lia.
    + pose proof (Hbelow _ _ _ (Hkeep _ _ _ Hk Hm)). lia.
  - intros k u k' u' n Hm Hm'.
    destruct (decide (k = key di)) as [->|Hk], (decide (k' = key di)) as [->|Hk']; [done|..].
    + pose proof (Hbelow _ _ _ (Hkeep _ _ _ Hk' Hm')). rewrite (Hown _ _ Hm) in *. lia.
    + pose proof (Hbelow _ _ _ (Hkeep _ _ _ Hk Hm)). rewrite (Hown _ _ Hm') in *. lia.
    + by eapply Honce; apply Hkeep.
Qed.

(** What the query answers leads the loop to the account of the message. *)
Lemma query_finds_pda program_id w c k u slot m text l n :
  program_id <> system_program_id ->
  messages_ok program_id w c -> stores program_id w k u slot m ->
  (forall k' a, (k', a) ∈ l <-> exists acc, accounts w !! k' = Some acc /\
    acc_owner acc = program_id /\
    matches (unique_key_query (DISPATCHED_MESSAGE_DISCRIMINATOR ++ to_le (nonce m)) 21)
      (acc_data acc) /\
    a = sliced (unique_key_query (DISPATCHED_MESSAGE_DISCRIMINATOR ++ to_le (nonce m)) 21) acc) ->
  find_valid_pda try_find_program_address mailbox_dispatched_message_pda_seeds program_id text l n
    = (n, Ok (Some k)).
Proof.
  intros Hsys [Hwhole _ Honce] Hst Hl.
  pose proof (stores_message_account _ _ _ _ _ _ Hst) as Hma.
  assert (Hent : forall k' a, (k', a) ∈ l -> exists data, tagged program_id w k' data /\
    slice data 9 13 = Some (to_le (nonce m)) /\ slice data 21 53 = Some (acc_data a) /\
    length (acc_data a) = 32%nat).
  { intros k' a Hin. apply Hl in Hin as (acc & Hacc & Ho & Hm & ->).
    apply query_matches in Hm as [Hm1 Hm2]. apply content_lookup in Hacc. rewrite Ho in Hacc.
    assert (Ht : tagged program_id w k' (acc_data acc)) by done.
    exists (acc_data acc). split_and!; [done|done| |].
    - rewrite slice_in by (try lia; by eapply Hwhole). done.
    - cbn. rewrite length_take, length_drop. pose proof (Hwhole _ _ Ht). lia. }
  apply find_valid_pda_finds.
  - intros k' a Hin. by destruct (Hent k' a Hin) as (_ & _ & _ & _ & Hlen).
  - intros k' a Hin Hk'. destruct (Hent k' a Hin) as (data & Ht & Hs1 & Hs2 & Hlen).
    apply (Honce k' (from_be 32 (acc_data a)) k u (nonce m)); [|done].
    exists data. split_and!; [done|done| |done]. by rewrite to_be_from_be.
  - destruct Hma as (data & [Hkc Ht] & Hs1 & Hs2 & Hk).
    destruct (lookup_content _ _ _ _ Hsys Hkc) as (a & Ha & Had & Hao).
    eexists. split; [apply Hl; exists a; split_and!; [done|done| |done]|].
    + rewrite Had. by apply query_matches.
    + cbn [sliced acc_data unique_key_query data_slice slice_length slice_offset].
      rewrite Had. rewrite slice_in in Hs2 by (try lia; by eapply Hwhole).
      apply (inj Some) in Hs2. change (take 32 (drop 21 data) = to_be u) in Hs2.
      by rewrite Hs2, from_be_to_be.
Qed.

(** The indexer finds a stored message, if from now on the node keeps to the states in which
    the message is there and the only one with its nonce. *)
Lemma get_message_finds `{BorshDeserialize Outbox} (self : SealevelMailboxIndexer) k u slot m n :
  let program_id := mb_program_id (indexer_mailbox self) in
  program_id <> system_program_id ->
  (exists c, messages_ok program_id (finalized n) c) ->
  (forall n', later n n' -> stores program_id (finalized n') k u slot m) ->
  gives (get_message_with_nonce try_find_program_address self (nonce m)) n (λ r,
    r = Ok (m, MkLogMeta program_id slot (uwrap 32 0) (uwrap 64 0) (uwrap 8 0)
                 (MkU256 (uwrap 32 0)))).
Proof.
  intros program_id Hsys [c Hok] Hn. unfold get_message_with_nonce. fold program_id.
  eapply gives_rpc; [by apply program_accounts_answer|]. intros n1 l Hn1 Hl. cbv beta in Hl.
  eapply gives_pure; [by eapply query_finds_pda; [..|apply Hn|exact Hl]|].
  eapply gives_pure; [done|].
  eapply gives_rpc; [apply account_answer|]. intros n2 o Hn2 ->.
  destruct (Hn n1 Hn1) as (b & Hb & Hkc & _).
  destruct (lookup_content _ _ _ _ Hsys Hkc) as (a & -> & Had & _).
  eapply gives_pure; [done|]. eapply gives_pure.
  { unfold from_program, eff_lift. rewrite Had, (dispatched_message_fetch _ _ _ _ _ Hb). done. }
  cbn [DispatchedMessage_new dm_encoded_message dm_slot]. eapply gives_pure.
  { unfold from_outcome, eff_lift, eval_st. by rewrite HyperlaneMessage_read. }
  by apply gives_ret.
Qed.
End indexer.

(** ** The history of a mailbox *)

Section history.
Context `{SolanaLaws, SolanaClient, Keccak256, !ZeroHashes, OverflowChecks, !NodeLaws}.
Context `{BorshSerialize bool, BorshDeserialize bool, !BorshBool}.
Context `{BorshSerialize Inbox, BorshDeserialize Inbox, !BorshLaws Inbox}.
Context `{BorshSerialize Outbox, BorshDeserialize Outbox, !BorshLaws Outbox}.
Variable program_id : Pubkey.

Definition outbox_key : Pubkey :=
  fst (find_program_address mailbox_outbox_pda_seeds program_id).

(** The world, with the messages dispatched so far. *)
Definition history := (world * list HyperlaneMessage)%type.

(** A new mailbox has an empty outbox and no account that looks like a message. *)
Definition new_mailbox (w : world) : Prop :=
  (exists o, outbox_at program_id w outbox_key o /\ outbox_tree o = Incremental.default) /\
  forall k data, ~ tagged program_id w k data.

(** A dispatch, after which the outbox still does not look like a message; or whatever leaves
    the outbox and the message accounts as they are. *)
Inductive step : history -> history -> Prop :=
  | step_dispatch w ms w' o oi accts dispatch :
      executing w = program_id -> head accts = Some oi -> key oi = outbox_key ->
      outbox_at program_id w outbox_key o ->
      outbox_dispatch program_id accts dispatch w = Ok (tt, w') ->
      (forall data, ~ tagged program_id w' outbox_key data) ->
      step (w, ms) (w', ms ++ [dispatched o dispatch])
  | step_other w ms w' :
      content w' outbox_key = content w outbox_key -> outbox_key ∉ borrowed w' ->
      (forall k data, tagged program_id w' k data <-> tagged program_id w k data) ->
      step (w, ms) (w', ms).

(** The invariant: the outbox commits to the messages, each of which is in an account of its
    own, under its position as its nonce. *)
Record mailbox_ok (h : history) : Prop := {
  ok_outbox : exists o, outbox_at program_id (fst h) outbox_key o /\
                        incr_ok (outbox_tree o) (id <$> snd h);
  ok_untagged data : ~ tagged program_id (fst h) outbox_key data;
  ok_messages : messages_ok program_id (fst h) (Z.of_nat (length (snd h)));
  ok_stored i m : snd h !! i = Some m ->
    uval (nonce m) = Z.of_nat i /\ exists k u slot, stores program_id (fst h) k u slot m
}.

Lemma new_mailbox_ok w : new_mailbox w -> mailbox_ok (w, []).
Proof.
  intros [(o & Ho & Ht) Hn]. split; cbn [fst snd].
  - exists o. split; [done|]. rewrite Ht. apply incr_ok_default.
  - apply Hn.
  - by apply messages_ok_none.
  - intros i m Hi. by rewrite lookup_nil in Hi.
Qed.

Lemma stores_same w w' k u slot m :
  content w' k = content w k -> stores program_id w k u slot m -> stores program_id w' k u slot m.
Proof. intros Hc (b & Hb & Hk & Hu). exists b. by rewrite Hc. Qed.

Lemma stores_tagged w k u slot m :
  stores program_id w k u slot m -> exists data, tagged program_id w k data.
Proof. intros (data & Ht & _)%stores_message_account. by exists data. Qed.

(** Everything that happens keeps what is stored. *)
Lemma step_keeps h h' k u slot m :
  program_id <> system_program_id -> mailbox_ok h -> step h h' ->
  stores program_id (fst h) k u slot m -> stores program_id (fst h') k u slot m.
Proof.
  intros Hsys [(o & Ho & Hids) Hun Hok _] Hstep Hst.
  pose proof (stores_tagged _ _ _ _ _ Hst) as [data Ht].
  apply stores_same with (fst h); [|done].
  inversion Hstep as [w ms w' o' oi accts d Hex Hhd Hoi Ho' Hd Hun' Eh Eh'|w ms w' Hc Hb Hs Eh Eh'];
    subst h h'; cbn [fst snd] in *.
  - rewrite <- Hoi in *.
    assert (o' = o) as -> by (destruct Ho as (_ & Hf & _), Ho' as (_ & Hf' & _); congruence).
    rewrite <- (length_fmap id ms) in Hok.
    destruct (dispatch_messages program_id accts d w w' o oi (id <$> ms) Hex Hsys Hhd Ho Hids Hok
      Hd Hun') as (_ & Hkeep & _).
    apply (Hkeep k data); [|done]. intros ->. by destruct (Hun data).
  - destruct (proj2 (Hs k data) Ht) as [Hk' _]. destruct Ht as [Hk _]. congruence.
Qed.

Lemma history_dispatch_ok w ms w' o oi accts d :
  program_id <> system_program_id -> mailbox_ok (w, ms) -> executing w = program_id ->
  head accts = Some oi -> key oi = outbox_key -> outbox_at program_id w outbox_key o ->
  outbox_dispatch program_id accts d w = Ok (tt, w') ->
  (forall data, ~ tagged program_id w' outbox_key data) ->
  mailbox_ok (w', ms ++ [dispatched o d]).
Proof.
  intros Hsys Hok0 Hex Hhd Hoi Ho' Hd Hun'.
  pose proof (λ k u slot m, step_keeps _ _ k u slot m Hsys Hok0
    (step_dispatch w ms w' o oi accts d Hex Hhd Hoi Ho' Hd Hun')) as Hkeep.
  destruct Hok0 as [(o' & Ho & Hids) Hun Hok Hsto]. cbn [fst snd] in *. rewrite <- Hoi in *.
  assert (o' = o) as -> by (destruct Ho as (_ & Hf & _), Ho' as (_ & Hf' & _); congruence).
  rewrite <- (length_fmap id ms) in Hok.
  destruct (dispatch_messages program_id accts d w w' o oi (id <$> ms) Hex Hsys Hhd Ho Hids Hok
    Hd Hun') as (Hok' & _ & di & u & slot & _ & Hn & Hst).
  rewrite length_fmap in Hok', Hn.
  destruct (dispatch_committed program_id accts d w w' o oi (id <$> ms) Hex Hsys Hhd Ho Hids Hd)
    as (si & um & di' & tree & slot' & b & Hcm). cbv zeta in Hcm.
  destruct Hcm as (_ & _ & _ & _ & _ & _ & _ & _ & _ & _ & Hob & Hinc & _).
  rewrite length_fmap in Hinc. split; cbn [fst snd].
  - rewrite <- Hoi. eexists. split; [exact Hob|]. rewrite fmap_app. cbn [outbox_tree with_tree].
    unfold dispatched. rewrite (ok_count _ _ Hids), length_fmap. exact Hinc.
  - by rewrite <- Hoi.
  - rewrite length_app. cbn [length]. by rewrite Nat.add_1_r.
  - intros i m Hi. apply lookup_app_Some in Hi as [Hi|[Hge Hi]].
    + destruct (Hsto i m Hi) as [Hnm (k & u2 & slot2 & Hst2)].
      split; [done|]. exists k, u2, slot2. by apply Hkeep.
    + apply list_lookup_singleton_Some in Hi as [Hi <-]. split; [rewrite Hn; f_equal; lia|].
      by exists di, u, slot.
Qed.

Lemma step_ok h h' :
  program_id <> system_program_id -> step h h' -> mailbox_ok h -> mailbox_ok h'.
Proof.
  intros Hsys Hstep Hok0.
  pose proof (λ k u slot m, step_keeps h h' k u slot m Hsys Hok0 Hstep) as Hkeep.
  destruct Hstep as [w ms w' o oi accts d Hex Hhd Hoi Ho Hd Hun|w ms w' Hc Hb Hs];
    [by eapply history_dispatch_ok|].
  destruct Hok0 as [(o & Ho & Hids) Hun Hok Hsto]. cbn [fst snd] in *. split; cbn [fst snd].
  - exists o. split; [|done]. destruct Ho as (_ & Hf & Hk & Hown). split_and!; congruence.
  - intros data Ht. apply Hs in Ht. by destruct (Hun data).
  - destruct Hok as [Hwhole Hbelow Honce].
    assert (Hma : forall k u n, message_account program_id w' k u n ->
      message_account program_id w k u n).
    { intros k u n (data & Ht & Hm). exists data. by rewrite <- Hs. }
    split; [intros k data Ht; eapply Hwhole, Hs, Ht|intros k u n Hm; by eapply Hbelow, Hma|].
    intros k u k' u' n Hm Hm'. by eapply Honce; apply Hma.
  - intros i m Hi. destruct (Hsto i m Hi) as [Hnm (k & u & slot & Hst)].
    split; [done|]. exists k, u, slot. by apply Hkeep.
Qed.

Lemma steps_ok h h' :
  program_id <> system_program_id -> rtc step h h' -> mailbox_ok h -> mailbox_ok h'.
Proof. intros Hsys Hs. induction Hs as [|x y z Hxy _ IH]; [done|]. intros Hok. by eapply IH, step_ok. Qed.

Lemma steps_keep h h' k u slot m :
  program_id <> system_program_id -> mailbox_ok h -> rtc step h h' ->
  stores program_id (fst h) k u slot m -> stores program_id (fst h') k u slot m.
Proof.
  intros Hsys Hok Hs. revert Hok. induction Hs as [|x y z Hxy _ IH]; [done|]. intros Hok Hst.
  eapply IH; [by eapply step_ok|by eapply step_keeps].
Qed.

(** The node knows a state the mailbox can reach from the start, with the messages [ms], and
    later knows states that follow it. *)
Definition knows (n : Node) (ms : list HyperlaneMessage) : Prop :=
  (exists w0, new_mailbox w0 /\ rtc step (w0, []) (finalized n, ms)) /\
  forall n', later n n' -> exists ms', rtc step (finalized n, ms) (finalized n', ms').

Lemma knows_ok n ms : program_id <> system_program_id -> knows n ms -> mailbox_ok (finalized n, ms).
Proof. intros Hsys [(w0 & Hw & Hs) _]. by eapply steps_ok, new_mailbox_ok. Qed.

Lemma knows_later n ms n' :
  program_id <> system_program_id -> knows n ms -> later n n' -> exists ms', mailbox_ok (finalized n', ms').
Proof.
  intros Hsys Hk Hn. destruct (proj2 Hk n' Hn) as [ms' Hs]. exists ms'.
  eapply steps_ok; [done|exact Hs|by apply knows_ok].
Qed.

Lemma knows_stores n ms i m :
  program_id <> system_program_id -> knows n ms -> ms !! i = Some m ->
  uval (nonce m) = Z.of_nat i /\
  exists k u slot, forall n', later n n' -> stores program_id (finalized n') k u slot m.
Proof.
  intros Hsys Hk Hi. pose proof (knows_ok _ _ Hsys Hk) as Hok.
  destruct (ok_stored _ Hok i m Hi) as [Hn (k & u & slot & Hst)].
  split; [done|]. exists k, u, slot. intros n' Hn'. destruct (proj2 Hk n' Hn') as [ms' Hs].
  by apply (steps_keep _ _ _ _ _ _ Hsys Hok Hs).
Qed.

Context (try_find_program_address : list bytes -> Pubkey -> option (Pubkey * u8)).
Context (try_finds : forall seeds p,
  try_find_program_address seeds p = Some (find_program_address seeds p)).

Lemma fetch_messages_finds (self : SealevelMailboxIndexer) range mm n :
  mb_program_id (indexer_mailbox self) = program_id -> program_id <> system_program_id ->
  (forall n', later n n' -> exists ms, mailbox_ok (finalized n', ms)) ->
  Forall2 (λ x m, x = nonce m /\ exists k u slot, forall n', later n n' ->
    stores program_id (finalized n') k u slot m) range mm ->
  gives (fetch_messages try_find_program_address self range) n (λ r,
    exists logs, r = Ok logs /\ fst <$> logs = mm).
Proof.
  intros Hp Hsys Hok Hall. revert n mm Hok Hall. induction range as [|x range IH]; intros n mm Hok Hall.
  - apply Forall2_nil_inv_l in Hall as ->. apply gives_ret. by exists [].
  - apply Forall2_cons_inv_l in Hall as (m & mm' & [-> (k & u & slot & Hst)] & Hall & ->).
    cbn [fetch_messages]. destruct (Hok n (reflexivity n)) as [ms Hn].
    eapply (gives_bind _ _ _ (λ a, fst a = m)).
    { eapply gives_mono.
      - eapply (get_message_finds _ try_finds self k u slot m n); rewrite Hp; [done| |done].
        eexists. exact (ok_messages _ Hn).
      - intros r ->. eexists. split; [done|]. done. }
    intros n1 a Hn1 Ha. eapply gives_bind; [apply IH|].
    + intros n' Hn'. apply Hok. by etrans.
    + eapply Forall2_impl; [exact Hall|]. intros y m' [-> (k' & u' & slot' & Hst')].
      split; [done|]. exists k', u', slot'. intros n' Hn'. apply Hst'. by etrans.
    + intros n2 logs _ <-. apply gives_ret. eexists. split; [done|]. by rewrite fmap_cons, Ha.
Qed.

Lemma range_messages n ms from to :
  program_id <> system_program_id -> knows n ms -> uval to < Z.of_nat (length ms) ->
  Forall2 (λ x m, x = nonce m /\ exists k u slot, forall n', later n n' ->
    stores program_id (finalized n') k u slot m)
    (range_inclusive from to) (take (Z.to_nat (uval to - uval from + 1)) (drop (Z.to_nat from) ms)).
Proof.
  intros Hsys Hk Hto. pose proof (uval_range from). pose proof (uval_range to).
  unfold range_inclusive. apply Forall2_same_length_lookup_2.
  { rewrite length_fmap, length_seqZ, length_take, length_drop. lia. }
  intros i x m Hx Hm. apply list_lookup_fmap_Some in Hx as (y & -> & Hy).
  apply lookup_seqZ in Hy as [-> Hi]. rewrite lookup_take_Some in Hm. destruct Hm as [Hm Hlt].
  rewrite lookup_drop in Hm. destruct (knows_stores _ _ _ _ Hsys Hk Hm) as [Hn Hst].
  split; [|done]. apply uint_eq. rewrite Hn, uval_uwrap_small; lia.
Qed.

Lemma tree_gives locator payer n ms :
  locator_address locator = program_id -> program_id <> system_program_id -> knows n ms ->
  gives (tree (SealevelMailbox_new locator payer) None) n (λ r,
    exists t, r = Ok t /\ incr_ok t (id <$> ms)).
Proof.
  intros Hp Hsys Hk. unfold tree. eapply gives_pure; [done|].
  eapply gives_rpc; [apply account_answer|]. intros n1 a Hn1 ->.
  cbn [SealevelMailbox_new mb_outbox]. rewrite Hp. fold outbox_key.
  destruct (ok_outbox _ (knows_ok _ _ Hsys Hk)) as (o & (_ & Hf & _ & Ho) & Hids).
  destruct (lookup_content (finalized n) outbox_key _ _ Hsys
    (eq_trans (surjective_pairing _) (f_equal (pair _) Ho))) as (a & -> & Had & _).
  eapply gives_pure; [done|]. eapply gives_pure.
  { unfold from_program, eff_lift. by rewrite Had, Hf. }
  apply gives_ret. by exists (outbox_tree o).
Qed.

Lemma ok_small_Z t ids : incr_ok t ids -> Z.of_nat (length ids) < 2 ^ 32.
Proof. intros Hids. rewrite <- pow32_Z. apply Nat2Z.inj_lt, (ok_small _ _ Hids). Qed.

Lemma try_u32_count t ids : incr_ok t ids -> try_u32 (count t) = Some (uwrap 4 (Z.of_nat (length ids))).
Proof.
  intros Hids. unfold try_u32. rewrite (ok_count _ _ Hids).
  pose proof (ok_small_Z _ _ Hids).
  rewrite (proj2 (Z.leb_le _ _)); [done|]. unfold u32_MAX. lia.
Qed.

(** From a new mailbox on, whatever is dispatched, the outbox commits to the messages in their
    order, and every message lies whole in an account of its own, at the address derived from
    its unique key, with its position as its nonce; no two message accounts share a nonce. *)
Theorem history_well_formed (w0 w : world) (ms : list HyperlaneMessage)
    (Hsys : program_id <> system_program_id) (Hfresh : new_mailbox w0)
    (Hs : rtc step (w0, []) (w, ms)) :
  (exists o, outbox_at program_id w outbox_key o /\ incr_ok (outbox_tree o) (id <$> ms) /\
             Incremental.root (outbox_tree o) = Some (tree_root 32 (id <$> ms))) /\
  (forall i m, ms !! i = Some m ->
     uval (nonce m) = Z.of_nat i /\
     exists k u slot, stores program_id w k u slot m /\
       forall k' u', message_account program_id w k' u' (nonce m) -> k' = k) /\
  (forall k u n, message_account program_id w k u n -> uval n < Z.of_nat (length ms)).
Proof.
  pose proof (steps_ok _ _ Hsys Hs (new_mailbox_ok _ Hfresh)) as [(o & Ho & Hids) _ Hok Hsto].
  cbn [fst snd] in *. split_and!.
  - exists o. split_and!; [done|done|by apply incr_root].
  - intros i m Hi. destruct (Hsto i m Hi) as [Hn (k & u & slot & Hst)].
    split; [done|]. exists k, u, slot. split; [done|]. intros k' u' Hma.
    eapply (mo_once _ _ _ Hok); [exact Hma|]. by eapply stores_message_account.
  - apply (mo_below _ _ _ Hok).
Qed.

(** C17. The agents see what was dispatched. Let a node, which answers as documented about the finalised
    state it knows ([NodeLaws]), know a mailbox that was new once, where the messages [ms] have
    been dispatched since and everything else has left the outbox and the message accounts alone,
    and let it go on in this way from call to call ([knows]). Then the indexer returns for a
    range of nonces below their number exactly these messages in their order, and the merkle
    tree hook's indexer exactly their ids at their positions; a call of the node that fails is
    the only way not to get them. *)
Theorem indexer_returns_history (locator : ContractLocator) (n : Node)
    (ms : list HyperlaneMessage) (from to : u32)
    (Hp : locator_address locator = program_id) (Hsys : program_id <> system_program_id)
    (Hk : knows n ms) (Hto : uval to < Z.of_nat (length ms)) :
  let indexer := SealevelMailboxIndexer_new locator in
  let expected := take (Z.to_nat (uval to - uval from + 1)) (drop (Z.to_nat from) ms) in
  gives (fetch_message_logs try_find_program_address indexer from to) n (λ r,
    exists logs, r = Ok logs /\ fst <$> logs = expected) /\
  gives (fetch_insertion_logs try_find_program_address indexer from to) n (λ r,
    exists logs, r = Ok logs /\
      fst <$> logs = (λ m, MkMerkleTreeInsertion (nonce m) (id m)) <$> expected).
Proof.
  intros indexer expected.
  assert (Hlogs : gives (fetch_message_logs try_find_program_address indexer from to) n (λ r,
    exists logs, r = Ok logs /\ fst <$> logs = expected)).
  { apply fetch_messages_finds; [done|done| |by apply range_messages].
    intros n' Hn'. by eapply knows_later. }
  split; [done|]. unfold fetch_insertion_logs. eapply gives_bind; [exact Hlogs|].
  intros n1 logs _ <-. apply gives_ret. eexists. split; [done|].
  rewrite <- !list_fmap_compose. apply list_fmap_ext. by intros _ [m meta] _.
Qed.

(** The checkpoint the agents read is the one of what was dispatched: the root of the tree of
    the ids of all messages and the position of the last one, under the address of the mailbox
    and the domain of the chain; an error while there is no message. The count is the number
    of messages. A call of the node that fails is the only other outcome; a lag, which the
    chain has no point-in-time queries for, is a panic. *)
Theorem checkpoint_of_history (locator : ContractLocator) (payer : option Keypair) (n : Node)
    (ms : list HyperlaneMessage) (lag : u64)
    (Hp : locator_address locator = program_id) (Hsys : program_id <> system_program_id)
    (Hk : knows n ms) :
  let self := SealevelMailbox_new locator payer in
  gives (latest_checkpoint self None) n (λ r,
    r = match ms with
        | [] => Err (ContractErrorStr "Outbox is empty, cannot compute checkpoint")
        | _ => Ok (MkCheckpoint program_id (Domain.id (locator_domain locator))
                     (tree_root 32 (id <$> ms)) (uwrap 4 (Z.of_nat (length ms) - 1)))
        end) /\
  gives (client_count self None) n (λ r, r = Ok (uwrap 4 (Z.of_nat (length ms)))) /\
  latest_checkpoint self (Some lag) n = (n, Panic) /\ client_count self (Some lag) n = (n, Panic).
Proof.
  intros self. pose proof (tree_gives locator payer n ms Hp Hsys Hk) as Ht. fold self in Ht.
  split; [|split; [|done]].
  - unfold latest_checkpoint. eapply gives_pure; [done|]. eapply gives_bind; [exact Ht|].
    intros n1 t _ Hids. rewrite (incr_root _ _ Hids). eapply gives_pure; [done|].
    rewrite (try_u32_count _ _ Hids), length_fmap. eapply gives_pure; [done|].
    pose proof (ok_small_Z _ _ Hids) as Hs. rewrite length_fmap in Hs.
    rewrite uval_uwrap_small by (change (umax 4) with (2 ^ 32); lia).
    destruct ms as [|m ms]; [by eapply gives_stop|].
    rewrite (proj2 (Z.eqb_neq _ _)) by (cbn [length]; lia). eapply gives_pure; [done|].
    apply gives_ret. unfold self. cbn [SealevelMailbox_new mb_program_id mb_provider provider_domain].
    by rewrite Hp.
  - unfold client_count. eapply gives_bind; [exact Ht|]. intros n1 t _ Hids.
    rewrite (try_u32_count _ _ Hids), length_fmap. exists n1, (Ok (uwrap 4 (Z.of_nat (length ms)))).
    by split_and!; [done|reflexivity|left].
Qed.
End history.

(** ** Deliveries *)

Section deliveries.
Context `{SolanaLaws, SolanaClient, Keccak256, OverflowChecks, !NodeLaws}.
Context `{BorshSerialize bool, BorshDeserialize bool, !BorshBool}.
Context `{BorshSerialize Inbox, BorshDeserialize Inbox, !BorshLaws Inbox}.
Context `{BorshSerialize Outbox, BorshDeserialize Outbox, !BorshLaws Outbox}.
Context `{BorshSerialize ProcessedMessage}.
Context `{BorshSerialize VerifyInstruction, BorshSerialize HandleInstruction}.
Context `{TryFromSlice (option Pubkey)}.
Variable debug_H256 : H256 -> bytes.

Lemma delivered_answer (self : SealevelMailbox) i n :
  gives (delivered self i) n (λ r, r = Ok (bool_decide (is_Some (accounts (finalized n) !!
    fst (find_program_address (mailbox_processed_message_pda_seeds i) (mb_program_id self)))))).
Proof.
  unfold delivered. destruct (find_program_address _ _) as [k b].
  eapply gives_rpc; [apply account_answer|]. intros n1 a _ ->. by apply gives_ret.
Qed.

(** When a delivery is reported. A message [inbox_process] delivered (to a recipient other
    than the mailbox) is reported as delivered while the account this left is there, and no
    message is whose account does not exist; a call of the node that fails is the only other
    outcome. But an account that only holds lamports, which anyone can send to the address,
    counts as a delivery too, although [inbox_process] takes the message for not delivered. *)
Theorem delivered_spec (self : SealevelMailbox) (accts : list AccountInfo) (p : InboxProcess)
    (m : HyperlaneMessage) (w w' : world) (n : Node)
    (Hex : executing w = mb_program_id self) (Hsys : mb_program_id self <> system_program_id)
    (Hm : HyperlaneMessage_from (process_message p) = Some m)
    (Hrec : recipient m <> mb_program_id self)
    (Hp : inbox_process debug_H256 (mb_program_id self) accts p w = Ok (tt, w')) :
  let k := processed_message_key (mb_program_id self) m in
  let reports b := gives (delivered self (id m)) n (λ r, r = Ok b) in
  (content (finalized n) k = content w' k -> reports true) /\
  (accounts (finalized n) !! k = None -> reports false) /\
  (forall lamports info,
     accounts (finalized n) !! k = Some (MkAccount lamports [] system_program_id) ->
     key info = k -> k ∉ borrowed (finalized n) ->
     reports true /\
     verify_account_uninitialized info (finalized n) = Ok (tt, finalized n)).
Proof.
  intros k reports.
  assert (Hgives : reports (bool_decide (is_Some (accounts (finalized n) !! k))))
    by apply delivered_answer.
  destruct (inbox_process_ok _ _ _ _ _ _ Hex Hsys Hp)
    as (v & w1 & w2 & bi & bp & tail & slot & Hv & [= <-] & _ & Hkp & _).
  pose proof (vd_message _ _ _ _ _ Hv) as Hmsg. apply HyperlaneMessage_decoders in Hmsg.
  rewrite Hm in Hmsg. injection Hmsg as ->. specialize (Hkp Hrec).
  assert (Hk : k = key (vp_processed_message_account_info v)).
  { unfold k, processed_message_key. by rewrite (vd_processed_key _ _ _ _ _ Hv). }
  split_and!.
  - intros Hc. rewrite <- Hk in Hkp. rewrite Hkp in Hc.
    destruct (lookup_content _ _ _ _ Hsys Hc) as (a & Ha & _). by rewrite Ha in Hgives.
  - intros Hn. by rewrite Hn in Hgives.
  - intros lamports info Ha Hi Hb. rewrite Ha in Hgives. split; [done|].
    apply verify_account_uninitialized_ok. rewrite Hi. split_and!; [done| |done].
    by rewrite (content_lookup _ _ _ Ha).
Qed.
End deliveries.

(** ** Gas payments *)

Section payments.
Context `{Solana, SolanaClient, Keccak256}.
Context `{BorshSerialize bool, BorshDeserialize bool}.
Context `{BorshDeserialize GasPaymentData}.
Context (try_find_program_address : list bytes -> Pubkey -> option (Pubkey * u8)).

(** The payments that were found, for the account that is asked about. *)
Definition relevant (self : SealevelInterchainGasPaymaster)
    (found : list (ChainCommunicationError + SealevelGasPayment)) :
    list (InterchainGasPayment * LogMeta) :=
  omap (λ r, match r with
             | inr p => if decide (igp_account self = igp_account_pubkey p)
                        then Some (sgp_payment p, sgp_log_meta p) else None
             | inl _ => None
             end) found.

(** The lookups of the sequence numbers of a range, one after the other. *)
Inductive looked_up (self : SealevelInterchainGasPaymaster) :
    list u32 -> Node -> list (ChainCommunicationError + SealevelGasPayment) -> Node -> Prop :=
  | looked_none n : looked_up self [] n [] n
  | looked_found x range n n1 p found n' :
      get_payment_with_sequence try_find_program_address self (uwrap 8 (uval x)) n = (n1, Ok p) ->
      looked_up self range n1 found n' -> looked_up self (x :: range) n (inr p :: found) n'
  | looked_failed x range n n1 e found n' :
      get_payment_with_sequence try_find_program_address self (uwrap 8 (uval x)) n = (n1, Err e) ->
      looked_up self range n1 found n' -> looked_up self (x :: range) n (inl e :: found) n'.

(** The indexer of gas payments never reports an error. Unless a lookup panics, fetching a
    range is a success, whose logs are the payments found for the account of the paymaster in
    their order; a lookup that failed, be it for an error of the node, leaves no trace, so
    that a payment of the range can be missing from a successful answer. *)
Theorem payment_logs_never_fail (self : SealevelInterchainGasPaymaster) (from to : u32) (n : Node) :
  (exists n', fetch_payment_logs try_find_program_address self from to n = (n', Panic)) \/
  exists found n', looked_up self (range_inclusive from to) n found n' /\
    fetch_payment_logs try_find_program_address self from to n = (n', Ok (relevant self found)).
Proof.
  unfold fetch_payment_logs. generalize (range_inclusive from to). intros range. revert n.
  induction range as [|x range IH]; intros n.
  { right. exists [], n. split; [constructor|done]. }
  cbn [fetch_payments]. unfold attempt, eff_try.
  destruct (get_payment_with_sequence try_find_program_address self (uwrap 8 (uval x)) n)
    as [n1 r] eqn:Hg.
  unfold mbind, eff_bind. rewrite Hg. destruct r as [p|e|].
  - destruct (IH n1) as [(n' & ->)|(found & n' & Hf & ->)]; [left; by exists n'|right].
    exists (inr p :: found), n'. split; [by econstructor|].
    cbn [relevant omap list_omap]. by case_decide.
  - destruct (IH n1) as [(n' & ->)|(found & n' & Hf & ->)]; [left; by exists n'|right].
    exists (inl e :: found), n'. split; [by econstructor|done].
  - left. by exists n1.
Qed.
End payments.

(** ** The account list of [process] *)

Section acceptance.
Context `{SolanaLaws, SolanaClient, Keccak256, OverflowChecks}.
Context `{BorshSerialize bool, BorshDeserialize bool, !BorshBool}.
Context `{BorshSerialize Inbox, BorshDeserialize Inbox, !BorshLaws Inbox}.
Context `{BorshSerialize Outbox, BorshDeserialize Outbox, !BorshLaws Outbox}.
Context `{BorshSerialize ProcessedMessage}.
Context `{BorshSerialize VerifyInstruction, BorshSerialize HandleInstruction}.
Context `{TryFromSlice (option Pubkey), BorshSerialize Mailbox.Instruction}.
Context `{TryFromSlice (SimulationReturnData Pubkey)}.
Context `{TryFromSlice (SimulationReturnData (list SerializableAccountMeta))}.
Context (try_find_program_address : list bytes -> Pubkey -> option (Pubkey * u8)).
Context (try_finds : forall seeds p,
  try_find_program_address seeds p = Some (find_program_address seeds p)).
(** The two addresses the client writes in base58. *)
Context (system_text : pubkey_from_str SYSTEM_PROGRAM = Some system_program_id).
Context (noop_text : pubkey_from_str SPL_NOOP = Some spl_noop_id).

Lemma accounts_until_app marker pre i post :
  Forall (λ j, key j <> marker) pre -> key i = marker ->
  accounts_until marker (pre ++ i :: post) = Ok (pre, i :: post).
Proof.
  intros Hpre Hi. induction Hpre as [|j pre Hj _ IH]; cbn [app accounts_until].
  - by rewrite decide_True.
  - rewrite decide_False by done. by rewrite IH.
Qed.

(** What the client asks the node for, and the accounts it sends. *)
Record process_answers (self : SealevelMailbox) (m : HyperlaneMessage) (metadata : bytes)
    (n : Node) (G V Hd : list AccountMeta) (ism : Pubkey) : Prop := {
  pa_getter : exists n1, get_ism_getter_account_metas self (recipient m) n = (n1, Ok G);
  pa_ism : exists n1 n2, client_recipient_ism self (recipient m) G n1 = (n2, Ok ism);
  pa_verify : exists n1 n2, get_ism_verify_account_metas self ism metadata (to_vec m) n1 =
                            (n2, Ok V);
  pa_handle : exists n1 n2, get_handle_account_metas self m n1 = (n2, Ok Hd)
}.

Lemma process_ixn_ok (self : SealevelMailbox) payer m metadata n n' ix :
  let p := mb_program_id self in
  let authority := fst (find_program_address (mailbox_process_authority_pda_seeds (recipient m)) p) in
  process_ixn try_find_program_address self payer m metadata n = (n', Ok ix) ->
  exists G V Hd ism, process_answers self m metadata n G V Hd ism /\
    ix_program_id ix = p /\
    into_instruction_data (InboxProcessIxn (MkInboxProcess metadata (to_vec m))) = Ok (ix_data ix) /\
    meta_pubkey <$> ix_accounts ix =
      [pubkey payer; system_program_id; fst (mb_inbox self); authority; processed_message_key p m]
      ++ (meta_pubkey <$> G) ++ [spl_noop_id; ism] ++ (meta_pubkey <$> V) ++ [recipient m]
      ++ (meta_pubkey <$> Hd).
Proof.
  intros p authority Hr. unfold process_ixn in Hr. fold p in Hr.
  rewrite !try_finds in Hr. unfold authority, processed_message_key.
  destruct (find_program_address (mailbox_process_authority_pda_seeds _) _) as [ak ab].
  rewrite from_other_str_some in Hr.
  destruct (find_program_address (mailbox_processed_message_pda_seeds _) _) as [pk pb].
  rewrite from_other_str_some in Hr.
  apply eff_bind_ok in Hr as (n1 & G & HG & Hr). apply eff_bind_ok in Hr as (n2 & ism & Hi & Hr).
  apply eff_bind_ok in Hr as (n3 & data & Hdata & Hr).
  rewrite system_text, unwrap_some, noop_text, unwrap_some in Hr.
  apply eff_bind_ok in Hr as (n4 & V & HV & Hr). apply eff_bind_ok in Hr as (n5 & Hd & HH & Hr).
  injection Hr as <- <-. exists G, V, Hd, ism. cbn [ix_program_id ix_data ix_accounts]. split_and!.
  - split; eauto.
  - done.
  - unfold from_program, eff_lift in Hdata. injection Hdata as _ Hdata. by apply map_err_inv in Hdata.
  - by rewrite !fmap_cons, !fmap_app, <- !app_assoc.
Qed.

Lemma Inbox_refmut_run program_id ii i w :
  inbox_at program_id w (key ii) i ->
  Inbox_verify_account_and_fetch_inner_with_data_refmut program_id ii w =
    Ok (i, set_borrowed w ({[key ii]} ∪ borrowed w)).
Proof.
  intros (Hb & Hf & Hk & Ho). unfold Inbox_verify_account_and_fetch_inner_with_data_refmut.
  prog_run (proj2 (hold_data_mut_ok ii w _) (conj Hb eq_refl)).
  set (wb := set_borrowed w _). rewrite Hf. prog_run (lift_Ok _ _ wb (eq_refl (Ok i))).
  unfold inbox_checks. rewrite Hk. unfold mbind, ST_bind, lift, owner_of, require, lift, require_or.
  rewrite bool_decide_true by done.
  change (acc_owner (get_account wb (key ii))) with (snd (content w (key ii))).
  by rewrite Ho, bool_decide_true.
Qed.

(** The next account, and a check that [H] shows to pass. *)
#[local] Ltac prog_next :=
  lazymatch goal with
  | |- context [mbind _ (next_account_info (?i :: ?l)) ?w] => prog_run (@next_cons i l w)
  end.
#[local] Ltac prog_require H :=
  lazymatch goal with
  | |- context [mbind _ (require _ ?e) ?w] => prog_run (@require_true _ _ _ e w H)
  end.

(** The program takes the accounts apart as they were put together. *)
Lemma verify_parses program_id m metadata w i w1 w2 data ism pi si ii ai ki gi ni mi vi ri hi :
  program_id <> system_program_id -> version m = VERSION ->
  is_signer pi = true -> key si = system_program_id ->
  inbox_at program_id w (key ii) i -> inbox_local_domain i = destination m ->
  key ai = fst (find_program_address (mailbox_process_authority_pda_seeds (recipient m)) program_id) ->
  key ki = processed_message_key program_id m ->
  content w (key ki) = ([], system_program_id) -> key ki ∉ borrowed w ->
  Forall (λ j, key j <> spl_noop_id) gi -> key ni = spl_noop_id -> executable ni = true ->
  key mi = ism -> Forall (λ j, key j <> recipient m) vi -> key ri = recipient m ->
  executable ri = true ->
  get_recipient_ism (recipient m) gi (meta_of <$> gi) (default_ism i)
    (set_borrowed w ({[key ii]} ∪ borrowed w)) = Ok (ism, w1) ->
  Ism.encode (Verify (MkVerifyInstruction metadata (to_vec m))) = Ok data ->
  sol_invoke_signed (MkInstruction ism (meta_of <$> vi) data) vi [] w1 = Ok w2 ->
  exists v, inbox_process_verify program_id
      (pi :: si :: ii :: ai :: ki :: gi ++ ni :: mi :: vi ++ ri :: hi)
      (MkInboxProcess metadata (to_vec m)) w = Ok (v, w2) /\
    vp_message v = m /\ vp_inbox v = i /\ vp_recipient_infos v = ai :: hi /\
    vp_recipient_account_metas v = MkAccountMeta (key ai) true false :: (meta_of <$> hi).
Proof.
  intros Hsys Hver Hpi Hsi Hia Hdom Hai Hki Hnew Hkb Hgi Hni Hnx Hmi Hvi Hri Hrx
    Hism Henc Hinv.
  assert (Ho' : content w (key ii) = (fst (content w (key ii)), program_id))
    by (destruct Hia as (_ & _ & _ & <-); apply surjective_pairing).
  unfold inbox_process_verify. cbn [process_message process_metadata].
  unfold eval_st. rewrite HyperlaneMessage_read. cbn [map_err].
  prog_run (lift_Ok _ _ w (eq_refl (Ok m))).
  prog_require (bool_decide_eq_true_2 _ Hver).
  prog_next.
  prog_require Hpi.
  prog_next.
  prog_require (bool_decide_eq_true_2 _ Hsi).
  prog_next.
  set (wb := set_borrowed w ({[key ii]} ∪ borrowed w)) in *.
  assert (Hin : Inbox_verify_account_and_fetch_inner_with_data_refmut program_id ii w = Ok (i, wb))
    by (by apply Inbox_refmut_run).
  assert (Hun : map_err_st (λ _, ProgramError_from MessageAlreadyProcessed)
    (verify_account_uninitialized ki) wb = Ok (tt, wb)).
  { apply map_err_st_ok, verify_account_uninitialized_ok. unfold wb.
    rewrite content_set_borrowed. split_and!; [|done|done]. cbn [set_borrowed borrowed].
    intros [Hx|Hx]%elem_of_union; [|done]. apply elem_of_singleton in Hx.
    rewrite Hx, Ho' in Hnew. cbn in Hnew. congruence. }
  prog_run Hin. prog_require (bool_decide_eq_true_2 _ Hdom).
  prog_next.
  destruct (find_program_address (mailbox_process_authority_pda_seeds _) _) as [ak ab].
  prog_require (bool_decide_eq_true_2 _ Hai).
  prog_next. unfold processed_message_key in Hki.
  destruct (find_program_address (mailbox_processed_message_pda_seeds _) _) as [pk pb].
  prog_require (bool_decide_eq_true_2 _ Hki).
  prog_run Hun. prog_run (lift_Ok _ _ wb (accounts_until_app spl_noop_id gi ni
    (mi :: vi ++ ri :: hi) Hgi Hni)).
  prog_run Hism. prog_next.
  prog_require (bool_decide_eq_true_2 _ Hni).
  prog_require Hnx.
  prog_next.
  prog_require (bool_decide_eq_true_2 _ (eq_sym Hmi)).
  prog_run (lift_Ok _ _ w1 (accounts_until_app (recipient m) vi ri hi Hvi Hri)).
  prog_next.
  prog_require (bool_decide_eq_true_2 _ (eq_sym Hri)).
  prog_require Hrx.
  prog_run (lift_Ok _ _ w1 Henc).
  assert (Hcall : invoke (MkInstruction ism (meta_of <$> vi) data) vi w1 = Ok (tt, w2))
    by (apply invoke_ok; by exists w2).
  prog_run Hcall. eexists. split; [reflexivity|]. done.
Qed.

(** The mailbox program accepts what the relayer sends. When the client has put together the
    instruction for a message, its accounts are the ones the node named for the getter of the
    security module, for that module's verification and for the recipient, around the
    canonical ones; and provided the first do not contain the SPL noop program nor the second
    the recipient, [inbox_process] takes them apart again: in every world with an inbox for the
    destination of the message in which the message is new, the security module is the one the
    client was told and it accepts the metadata, the verification succeeds, and what is left to
    do is to deliver this message with exactly the recipient's accounts. *)
Theorem client_process_accepted (locator : ContractLocator) (signing : option Keypair)
    (payer : Keypair) (m : HyperlaneMessage) (metadata : bytes) (n n' : Node)
    (ix : SolanaInstruction) (infos : list AccountInfo) :
  let self := SealevelMailbox_new locator signing in
  let program_id := locator_address locator in
  let inbox_key := fst (find_program_address mailbox_inbox_pda_seeds program_id) in
  program_id <> system_program_id -> version m = VERSION ->
  process_ixn try_find_program_address self payer m metadata n = (n', Ok ix) ->
  key <$> infos = meta_pubkey <$> ix_accounts ix ->
  (forall i, i ∈ infos -> key i = pubkey payer -> is_signer i = true) ->
  (forall i, i ∈ infos -> key i = spl_noop_id \/ key i = recipient m -> executable i = true) ->
  exists G V Hd ism, process_answers self m metadata n G V Hd ism /\
    ix_program_id ix = program_id /\
    into_instruction_data (InboxProcessIxn (MkInboxProcess metadata (to_vec m))) = Ok (ix_data ix) /\
    (spl_noop_id ∉ meta_pubkey <$> G -> recipient m ∉ meta_pubkey <$> V ->
     exists gi vi hi ai, key <$> gi = meta_pubkey <$> G /\ key <$> vi = meta_pubkey <$> V /\
       key <$> hi = meta_pubkey <$> Hd /\
       forall w i w1 w2 data,
         inbox_at program_id w inbox_key i -> inbox_local_domain i = destination m ->
         content w (processed_message_key program_id m) = ([], system_program_id) ->
         processed_message_key program_id m ∉ borrowed w ->
         get_recipient_ism (recipient m) gi (meta_of <$> gi) (default_ism i)
           (set_borrowed w ({[inbox_key]} ∪ borrowed w)) = Ok (ism, w1) ->
         Ism.encode (Verify (MkVerifyInstruction metadata (to_vec m))) = Ok data ->
         sol_invoke_signed (MkInstruction ism (meta_of <$> vi) data) vi [] w1 = Ok w2 ->
         exists v, inbox_process_verify program_id infos (MkInboxProcess metadata (to_vec m)) w =
             Ok (v, w2) /\
           vp_message v = m /\ vp_inbox v = i /\ vp_recipient_infos v = ai :: hi /\
           vp_recipient_account_metas v = MkAccountMeta (key ai) true false :: (meta_of <$> hi)).
Proof.
  intros self program_id inbox_key Hsys Hver Hrun Hkeys Hsig Hexe.
  destruct (process_ixn_ok _ _ _ _ _ _ _ Hrun) as (G & V & Hd & ism & Hpa & Hix & Hdata & Hacc).
  exists G, V, Hd, ism. split_and!; [done|done|done|]. intros HG HV. rewrite Hacc in Hkeys.
  change (mb_program_id self) with program_id in *. change (fst (mb_inbox self)) with inbox_key in *.
  apply fmap_app_inv in Hkeys as (l5 & l & E5 & Hkeys & ->). symmetry in E5, Hkeys.
  apply fmap_app_inv in Hkeys as (gi & l1 & Egi & Hkeys & ->). symmetry in Hkeys.
  apply fmap_app_inv in Hkeys as (l2 & l3 & E2 & Hkeys & ->). symmetry in E2, Hkeys.
  apply fmap_app_inv in Hkeys as (vi & l4 & Evi & Hkeys & ->). symmetry in Hkeys.
  apply fmap_app_inv in Hkeys as (lr & hi & Er & Ehi & ->). symmetry in Er.
  destruct l5 as [|pi [|si [|ii [|ai [|ki [|]]]]]]; try done. injection E5 as Epi Esi Eii Eai Eki.
  destruct l2 as [|ni [|mi [|]]]; try done. injection E2 as Eni Emi.
  destruct lr as [|ri [|]]; try done. injection Er as Eri.
  exists gi, vi, hi, ai. split_and!; [done|done|done|].
  intros w i w1 w2 data Hin Hdom Hnew Hkb Hism Henc Hinv. rewrite <- Eki in Hnew, Hkb.
  rewrite <- Eii in Hin, Hism. cbn [app] in *.
  assert (Hout : forall (p : Pubkey) (l : list AccountInfo) (k : list AccountMeta),
    p ∉ meta_pubkey <$> k -> meta_pubkey <$> k = key <$> l -> Forall (λ j, key j <> p) l).
  { intros p l k Hp Hl. rewrite Hl in Hp. apply Forall_forall. intros j Hj Hjp. apply Hp.
    apply list_elem_of_fmap. by exists j. }
  apply (verify_parses program_id m metadata w i w1 w2 data ism); try done.
  - apply Hsig; [set_solver|done].
  - by eapply Hout.
  - apply Hexe; [set_solver|by left].
  - by eapply Hout.
  - apply Hexe; [set_solver|by right].
Qed.
End acceptance.

(** ** The client of a Sealevel chain at concrete inputs

    A node that knows the accounts of a world of the mailbox scenario, and the theorems of
    this file applied to it. *)

(** The node is a world that does not move on and knows exactly its accounts; of the programs
    whose instructions are simulated, only the mailbox returns data, the module [ism]. *)

Module ClientModel.
Import BorshModel RuntimeModel Scenario.
#[local] Existing Instance keccak_concrete.

Definition text_of (b : bytes) : string :=
  String.string_of_list_ascii ((λ x : u8, Ascii.ascii_of_nat (Z.to_nat x)) <$> b).

Lemma bytes_of_text b : bstr (text_of b) = b.
Proof.
  induction b as [|x b IH]; [done|].
  unfold bstr, text_of in *. cbn [fmap list_fmap String.string_of_list_ascii String.list_ascii_of_string] in *.
  rewrite IH. f_equal. pose proof (uval_range x) as Hx. change (umax 1) with 256 in Hx.
  rewrite Ascii.nat_ascii_embedding by lia. rewrite Z2Nat.id by lia. apply uwrap_uval.
Qed.

Definition is_match (config : RpcProgramAccountsConfig) (data : bytes) : bool :=
  match filters config with
  | None => true
  | Some l => forallb (λ f, bool_decide (slice data (filter_offset f)
      (filter_offset f + length (bstr (filter_bytes f))) = Some (bstr (filter_bytes f)))) l
  end.

Definition program_accounts (w : world) (p : Pubkey) (config : RpcProgramAccountsConfig) :
    list (Pubkey * account) :=
  (λ '(k, a), (k, sliced config a)) <$>
  filter (λ x : Pubkey * account, is_match config (acc_data x.2) && bool_decide (acc_owner x.2 = p))
    (map_to_list (accounts w)).

Definition no_data : bytes := [].

#[export] Instance solana_client : SolanaClient := {
  Node := world;
  ClientError := Empty_set;
  TransactionError := Empty_set;
  Keypair := Pubkey;
  pubkey k := k;
  Transaction := list SolanaInstruction;
  new_unsigned_with_blockhash ixs _ _ := ixs;
  new_signed_with_payer ixs _ _ _ := ixs;
  set_compute_unit_limit n := MkInstruction (uwrap 32 2) [] (to_le n);
  base64_encode := text_of;
  base64_decode s := Some (bstr s);
  pubkey_from_str s :=
    Some (if bool_decide (s = SPL_NOOP) then noop_id else system_id);
  get_latest_blockhash_with_commitment _ := λ n, (n, Ok (uwrap 32 6, uwrap 8 7));
  get_account_with_commitment k _ := λ n, (n, Ok (accounts n !! k));
  get_rpc_account k := λ n, (n, Ok (acct n k));
  get_multiple_accounts_with_commitment ks _ := λ n, (n, Ok ((λ k, accounts n !! k) <$> ks));
  get_program_accounts_with_config p config := λ n, (n, Ok (program_accounts n p config));
  simulate_transaction ixs := λ n, (n, Ok (None,
    match ixs with
    | [ix] => if bool_decide (ix_program_id ix = pid)
              then Some (text_of (to_be Scenario.ism ++ [byte 255])) else None
    | _ => None
    end));
  send_and_confirm_transaction _ := λ n, (n, Ok (uwrap 64 8));
  confirm_transaction_with_commitment _ _ := λ n, (n, Ok true);
  get_block_height := λ n, (n, Ok (uwrap 8 9));
  get_rpc_balance k := λ n, (n, Ok (acc_lamports (acct n k)))
}.

Lemma is_match_ok config data : matches config data <-> is_match config data = true.
Proof.
  unfold matches, is_match. destruct (filters config) as [l|]; [|by split].
  rewrite forallb_forall. split.
  - intros Hm f Hf. apply list_elem_of_In in Hf. destruct (Hm l f eq_refl Hf) as (b & [= <-] & Hb).
    by apply bool_decide_eq_true_2.
  - intros Hm l' f [= <-] Hf. apply list_elem_of_In in Hf. eexists. split; [reflexivity|].
    by apply (bool_decide_eq_true_1 _ (Hm f Hf)).
Qed.

#[export] Instance node_laws : NodeLaws.
Proof.
  refine {| finalized := λ n : Node, (n : world); later := eq |}.
  - intros b. exact (f_equal Some (bytes_of_text b)).
  - intros k n. exists n. split; [done|]. left. by eexists.
  - intros p config n _. exists n. split; [done|]. left. eexists. split; [reflexivity|].
    intros k a. unfold program_accounts. rewrite list_elem_of_fmap. split.
    + intros ([k' acc] & [= -> ->] & Hin). apply list_elem_of_filter in Hin as [Hm Hin].
      apply elem_of_map_to_list in Hin. apply Is_true_true, andb_prop in Hm as [Hm Ho].
      exists acc. split_and!; [done|by apply bool_decide_eq_true_1 in Ho|by apply is_match_ok|done].
    + intros (acc & Hacc & Ho & Hm & ->). exists (k, acc). split; [done|].
      apply list_elem_of_filter. split; [|by apply elem_of_map_to_list].
      apply Is_true_true, andb_true_intro. split; [by apply is_match_ok|by apply bool_decide_eq_true_2].
  - intros ks n. exists n. split; [done|]. left. by eexists.
Defined.
End ClientModel.

Section witnesses.
Import BorshModel RuntimeModel Scenario ClientModel.
#[local] Existing Instance keccak_concrete.
#[local] Existing Instance zero_hashes_concrete.

Definition world2 : world := after (outbox_dispatch pid dispatch_accounts dispatch world1).

Definition node_of (w : world) : @Node solana_client := w.
Definition node2 := node_of world2.

Definition locator : ContractLocator := MkContractLocator (Domain.Known Domain.Test1) pid.

Definition sent : HyperlaneMessage :=
  MkHyperlaneMessage VERSION (uwrap 4 (count Incremental.default)) (uwrap 4 7)
    (dispatch_sender dispatch) (destination_domain dispatch) (dispatch_recipient dispatch)
    (message_body dispatch).

Definition find : list bytes -> Pubkey -> option (Pubkey * u8) := λ seeds p,
  Some (find_program_address seeds p).

Lemma nothing_tagged w :
  forallb (λ '(k, a), negb (bool_decide (slice (acc_data a) 1 9 =
    Some DISPATCHED_MESSAGE_DISCRIMINATOR))) (map_to_list (accounts w)) = true ->
  forall k data, ~ tagged pid w k data.
Proof.
  intros Hall k data [Hc Hs]. destruct (lookup_content _ _ _ _ not_system Hc) as (a & Ha & <- & _).
  apply elem_of_map_to_list in Ha. apply list_elem_of_In in Ha.
  rewrite forallb_forall in Hall. specialize (Hall _ Ha). cbn in Hall.
  by rewrite bool_decide_eq_true_2 in Hall.
Qed.

Lemma fresh_world1 : new_mailbox pid world1.
Proof.
  split.
  - destruct initialized as (ib & ob & _ & Ho). eexists. split; [exact Ho|done].
  - apply nothing_tagged. vm_compute. reflexivity.
Qed.

Lemma outbox_untagged data : ~ tagged pid world2 (outbox_key pid) data.
Proof.
  intros [Hc Hs]. apply (f_equal fst) in Hc. cbn [fst] in Hc. subst data.
  assert (Hb : bool_decide (slice (fst (content world2 (outbox_key pid))) 1 9 =
    Some DISPATCHED_MESSAGE_DISCRIMINATOR) = false) by (vm_compute; reflexivity).
  exact (bool_decide_eq_false_1 _ Hb Hs).
Qed.

Lemma executing1 : executing world1 = pid.
Proof.
  assert (Hb : bool_decide (executing world1 = pid) = true) by (vm_compute; reflexivity).
  exact (bool_decide_eq_true_1 _ Hb).
Qed.

Lemma dispatch_step : rtc (step pid) (world1, []) (world2, [sent]).
Proof.
  destruct initialized as (ib & ob & _ & Ho). apply rtc_once.
  pose proof (step_dispatch pid world1 [] world2 _ outbox_info dispatch_accounts dispatch
    executing1 eq_refl eq_refl Ho dispatch_runs outbox_untagged) as Hs.
  exact Hs.
Qed.

Lemma knows_world2 : knows pid node2 [sent].
Proof.
  split.
  - exists world1. split; [exact fresh_world1|exact dispatch_step].
  - intros n' <-. exists [sent]. apply rtc_refl.
Qed.

(** The node never fails. *)
Lemma gives_certain {A} (m : client A) n P : gives m n P -> exists n' r, m n = (n', r) /\ P r.
Proof. intros (n' & r & Hm & _ & [Hr|([] & _)]). by exists n', r. Qed.

Lemma history_well_formed_witness :
  exists k u slot, stores pid world2 k u slot sent /\
    forall k' u', message_account pid world2 k' u' (nonce sent) -> k' = k.
Proof.
  destruct (history_well_formed pid world1 world2 [sent] not_system fresh_world1 dispatch_step)
    as (_ & Hm & _).
  exact (proj2 (Hm 0%nat sent eq_refl)).
Defined.

Lemma indexer_returns_history_witness :
  exists n' logs, fetch_message_logs find (SealevelMailboxIndexer_new locator) (uwrap 4 0)
    (uwrap 4 0) node2 = (n', Ok logs) /\ fst <$> logs = [sent].
Proof.
  destruct (indexer_returns_history pid find (λ _ _, eq_refl) locator node2 [sent]
    (uwrap 4 0) (uwrap 4 0) eq_refl not_system knows_world2 ltac:(vm_compute; reflexivity)) as [Hg _].
  destruct (gives_certain _ _ _ Hg) as (n' & r & Hm & logs & -> & Hl). exists n', logs. split; [exact Hm|exact Hl].
Defined.

Lemma checkpoint_of_history_witness :
  exists n' c, latest_checkpoint (SealevelMailbox_new locator None) None node2 = (n', Ok c) /\
    checkpoint_root c = tree_root 32 [id sent] /\ checkpoint_index c = uwrap 4 0.
Proof.
  destruct (checkpoint_of_history pid locator None node2 [sent] (uwrap 8 1) eq_refl
    not_system knows_world2) as [Hg _].
  destruct (gives_certain _ _ _ Hg) as (n' & r & Hm & ->). eexists n', _.
  split; [exact Hm|]. split; reflexivity.
Defined.

Lemma delivered_spec_witness :
  exists n' w', inbox_process debug pid process_accounts process world1 = Ok (tt, w') /\
    delivered (SealevelMailbox_new locator None) (id message) (node_of w') = (n', Ok true).
Proof.
  generalize process_runs. generalize (after (inbox_process debug pid process_accounts process world1)).
  intros w' Hp.
  destruct (delivered_spec debug (SealevelMailbox_new locator None) process_accounts process message
    world1 w' (node_of w') executing1 not_system message_decodes recipient_not_mailbox Hp) as [Hg _].
  destruct (gives_certain _ _ _ (Hg eq_refl)) as (n' & r & Hm & ->).
  exists n', w'. split; [exact Hp|exact Hm].
Defined.
End witnesses.
