(* ===== verification/RpcProviders.v ===== *)
(** * RPC providers that retry and fall back

    [chains/hyperlane-ethereum/src/rpc_clients]: mod.rs, what to do with a response; retrying.rs,
    a provider that asks again after growing waits; fallback.rs, which asks several providers in
    turn, over [hyperlane-core/src/rpc_clients/fallback.rs], their priorities, which all clones
    of the provider share. The nodes, the clock and what other tasks do to the priorities while
    one waits are the class [RpcNodes]; logs are left out. *)

From S2P Require Import Prelude.
From S2P Require Import Codec.
From S2P Require Import Chain.
From S2P Require Import Sealevel.
From S2P Require Import PendingOperation.
From S2P Require Import CheckpointStorage.
From S2P Require Import Metadata.
From stdpp Require Import base list numbers strings.
From Stdlib Require Import ZArith Lia Ascii.

#[local] Open Scope Z_scope.

(** ** Errors of a client *)

(** [HttpClientError] of the crate [ethers], over the errors that it wraps: of the connection,
    of JSON, and what a node says with its error *)
Inductive HttpClientError (reqwest_error serde_error json : Type) :=
  | ReqwestError (e : reqwest_error)
  | SerdeJson (err : serde_error) (text : string)
  | JsonRpcError (code : Z) (message : string) (data : option json).
Arguments ReqwestError {_ _ _}.
Arguments SerdeJson {_ _ _}.
Arguments JsonRpcError {_ _ _}.

(** ** [rpc_clients/mod.rs] *)

Inductive CategorizedResponse (R Error : Type) :=
  | IsOk (r : R)
  | RetryableErr (e : Error)
  | RateLimitErr (e : Error)
  | NonRetryableErr (e : Error).
Arguments IsOk {_ _}.
Arguments RetryableErr {_ _}.
Arguments RateLimitErr {_ _}.
Arguments NonRetryableErr {_ _}.

Definition METHODS_TO_NOT_RETRY : list string := ["eth_estimateGas"%string].
Definition METHOD_TO_NOT_RETRY_WHEN_NOT_SUPPORTED : list string := ["eth_feeHistory"%string].
Definition METHODS_TO_NOT_RETRY_ON_REVERT : list string :=
  ["eth_call"; "eth_sendTransaction"; "eth_sendRawTransaction"]%string.
Definition METHODS_TO_NOT_RETRY_ON_NONCE_ERROR : list string :=
  ["eth_sendRawTransaction"; "eth_sendTransaction"]%string.
Definition METHODS_TO_NOT_RETRY_ON_ALREADY_KNOWN : list string :=
  ["eth_sendRawTransaction"; "eth_sendTransaction"]%string.
Definition METHODS_TO_NOT_RETRY_ON_UNDERPRICED : list string :=
  ["eth_sendRawTransaction"; "eth_sendTransaction"]%string.
Definition METHODS_TO_NOT_RETRY_ON_INSUFFICIENT_FUNDS : list string :=
  ["eth_sendRawTransaction"; "eth_sendTransaction"]%string.

(** [msg.replace('_', " ")] *)
Fixpoint underscores_to_spaces (s : string) : string :=
  match s with
  | EmptyString => EmptyString
  | String c s => String (if bool_decide (c = "_"%char) then " "%char else c) (underscores_to_spaces s)
  end.

(** What makes the error of a node one of the rate limit, and one not to retry *)
Definition is_rate_limit (code : Z) (msg : string) : bool :=
  (code =? 429) || contains "429" msg || contains "rate limit" msg ||
  contains "too many requests" msg.

Definition is_not_retryable (method msg : string) : bool :=
  let in_list methods := bool_decide (method ∈ methods) in
  in_list METHODS_TO_NOT_RETRY
  || in_list METHOD_TO_NOT_RETRY_WHEN_NOT_SUPPORTED
     && (contains "support" msg || contains "invalid type" msg || contains "does not exist" msg
         || contains "not available" msg)
  || in_list METHODS_TO_NOT_RETRY_ON_REVERT && contains "revert" msg
  || in_list METHODS_TO_NOT_RETRY_ON_ALREADY_KNOWN && contains "known" msg
  || in_list METHODS_TO_NOT_RETRY_ON_NONCE_ERROR && contains "nonce" msg
  || in_list METHODS_TO_NOT_RETRY_ON_UNDERPRICED && contains "underpriced" msg
  || in_list METHODS_TO_NOT_RETRY_ON_INSUFFICIENT_FUNDS
     && (contains "insufficient funds" msg || contains "insufficient balance" msg).

Section categorize.
Context {reqwest_error serde_error json R : Type}.
Let error := HttpClientError reqwest_error serde_error json.

(** [categorize_client_response]; the response is a result. *)
Definition categorize_client_response (method : string) (resp : error + R) :
    CategorizedResponse R error :=
  match resp with
  | inr res => IsOk res
  | inl (ReqwestError e) => RetryableErr (ReqwestError e)
  | inl (SerdeJson err text) =>
      if contains "429" text then RateLimitErr (SerdeJson err text)
      else RetryableErr (SerdeJson err text)
  | inl (JsonRpcError code message data) =>
      let msg := underscores_to_spaces (to_ascii_lowercase message) in
      if is_rate_limit code msg then RateLimitErr (JsonRpcError code message data)
      else if is_not_retryable method msg then NonRetryableErr (JsonRpcError code message data)
      else RetryableErr (JsonRpcError code message data)
  end.
End categorize.

(** ** [retrying.rs] *)

Definition from_millis (ms : Z) : Duration := ms * 10 ^ 6.

Record RetryingProvider := MkRetryingProvider { max_requests : u32; base_retry_ms : u64 }.

(** [RetryingProvider::new], the inner provider left out *)
Definition RetryingProvider_new (max_requests : option u32) (base_retry_ms : option u64) :
    RetryingProvider :=
  MkRetryingProvider (default (uwrap 4 6) max_requests) (default (uwrap 8 50) base_retry_ms).

(** [set_max_requests] and [set_base_retry_ms]; [None] is a failed assertion. *)
Definition set_max_requests (max_requests : u32) (self : RetryingProvider) :
    option RetryingProvider :=
  if 1 <=? uval max_requests then Some (MkRetryingProvider max_requests (base_retry_ms self))
  else None.
Definition set_base_retry_ms (base_retry_ms : u64) (self : RetryingProvider) :
    option RetryingProvider :=
  if 1 <=? uval base_retry_ms then Some (MkRetryingProvider (max_requests self) base_retry_ms)
  else None.

Inductive HandleMethod (R PE : Type) :=
  | Accept (r : R)
  | Halt (e : PE)
  | Retry (e : PE)
  | RateLimitedRetry (e : PE).
Arguments Accept {_ _}.
Arguments Halt {_ _}.
Arguments Retry {_ _}.
Arguments RateLimitedRetry {_ _}.

Inductive RetryingProviderError (PE : Type) := JsonRpcClientError (e : PE) | MaxRequests (e : PE).
Arguments JsonRpcClientError {_}.
Arguments MaxRequests {_}.

Section retrying.
Context `{OverflowChecks} {net R PE : Type}.
(** A request of the inner provider with the method and the parameters, and sleeping *)
Context (inner_request : eff net PE R) (sleep : Duration -> net -> net).
Context (self : RetryingProvider) (matcher : PE + R -> u32 -> u64 -> HandleMethod R PE).

(** The loop of [request_with_retry], from the attempt [i]; it panics beyond the fuel. *)
Fixpoint retry_loop (fuel : nat) (i : u32) : eff net (RetryingProviderError PE) R :=
  match fuel with
  | O => eff_lift Panic
  | S fuel =>
      exponent ← eff_lift (arith 4 (uval i - 1));
      power ← eff_lift (arith 8 (2 ^ uval exponent));
      backoff_ms ← eff_lift (arith 8 (uval (base_retry_ms self) * uval power));
      let again (last_err : PE) (rate_limited : bool) :=
        i ← eff_lift (arith 4 (uval i + 1));
        if uval i <=? uval (max_requests self) then
          let backoff_ms :=
            if rate_limited then Z.max (uval backoff_ms) (20 * 1000) else uval backoff_ms in
          (λ w, (sleep (from_millis backoff_ms) w, Ok tt));;
          retry_loop fuel i
        else eff_lift (Err (MaxRequests last_err)) in
      res ← eff_try inner_request;
      match matcher res i backoff_ms with
      | Accept v => mret v
      | Halt e => eff_lift (Err (JsonRpcClientError e))
      | Retry e => again e false
      | RateLimitedRetry e => again e true
      end
  end.

(** [request_with_retry] *)
Definition request_with_retry (fuel : nat) : eff net (RetryingProviderError PE) R :=
  retry_loop fuel (uwrap 4 1).
End retrying.

(** [JsonRpcClient::request] of the [RetryingProvider], over a request of the inner one *)
Definition retrying_request `{OverflowChecks} {net R reqwest_error serde_error json : Type}
    (inner_request : eff net (HttpClientError reqwest_error serde_error json) R)
    (sleep : Duration -> net -> net) (self : RetryingProvider) (method : string) (fuel : nat) :=
  request_with_retry inner_request sleep self (λ res _ _,
    match categorize_client_response method res with
    | IsOk res => Accept res
    | RetryableErr e => Retry e
    | RateLimitErr e => RateLimitedRetry e
    | NonRetryableErr e => Halt e
    end) fuel.

(** ** [hyperlane-core/src/rpc_clients/fallback.rs] *)

Definition MAX_BLOCK_TIME : Duration := from_secs (2 * 60).

Record PrioritizedProviderInner := MkPrioritizedProviderInner {
  provider_index : usize;
  last_block_height : u64 * Instant
}.

(** What another task does to the shared priorities *)
Inductive PriorityOp :=
  | Deprioritized (priority : PrioritizedProviderInner)
  | SeenBlock (provider_index : usize) (seen : u64 * Instant).

Definition deprioritize (priority : PrioritizedProviderInner)
    (priorities : list PrioritizedProviderInner) : list PrioritizedProviderInner :=
  List.filter (λ p, bool_decide (provider_index p <> provider_index priority)) priorities
  ++ [priority].

Definition see_block (i : usize) (seen : u64 * Instant)
    (priorities : list PrioritizedProviderInner) : list PrioritizedProviderInner :=
  match list_find (λ p, provider_index p = i) priorities with
  | Some (position, _) => <[position := MkPrioritizedProviderInner i seen]> priorities
  | None => priorities
  end.

Definition apply_op (op : PriorityOp) : list PrioritizedProviderInner ->
    list PrioritizedProviderInner :=
  match op with
  | Deprioritized priority => deprioritize priority
  | SeenBlock i seen => see_block i seen
  end.

Class RpcNodes := {
  net : Type;
  json : Type;
  reqwest_error : Type;
  serde_error : Type;
  (** a provider, its requests and its [BlockNumberGetter] *)
  provider : Type;
  request : provider -> string -> json -> eff net (HttpClientError reqwest_error serde_error json) json;
  get_block_number : provider -> eff net unit u64;
  instant_now : net -> net * Instant;
  sleep : Duration -> net -> net;
  (** what other tasks do to the priorities while this one waits, in order *)
  others : net -> net * list PriorityOp
}.

Section fallback.
Context `{RpcNodes}.

(** The shared priorities and the outside world *)
Definition shared : Type := list PrioritizedProviderInner * net.

(** [PrioritizedProviderInner::new] for each provider, as [FallbackProviderBuilder::build] does *)
Fixpoint initial_priorities (indices : list nat) (w : net) :
    net * list PrioritizedProviderInner :=
  match indices with
  | [] => (w, [])
  | i :: indices =>
      let '(w, t) := instant_now w in
      let '(w, priorities) := initial_priorities indices w in
      (w, MkPrioritizedProviderInner (uwrap 8 (Z.of_nat i)) (uwrap 8 0, t) :: priorities)
  end.

(** [FallbackProvider], without its shared part *)
Record FallbackProvider := MkFallbackProvider {
  providers : list provider;
  max_block_time : Duration
}.

(** [FallbackProviderBuilder] *)
Definition build (providers : list provider) (max_block_time : Duration) (w : net) :
    FallbackProvider * shared :=
  let '(w, priorities) := initial_priorities (seq 0 (length providers)) w in
  (MkFallbackProvider providers max_block_time, (priorities, w)).

Section operations.
Context {E : Type}.

Definition wait : eff shared E unit := λ '(priorities, w),
  let '(w, ops) := others w in
  ((foldl (λ priorities op, apply_op op priorities) priorities ops, w), Ok tt).

Definition on_net {A} (m : eff net E A) : eff shared E A := λ '(priorities, w),
  let '(w, r) := m w in ((priorities, w), r).

Definition now : eff shared E Instant := on_net (λ w, let '(w, t) := instant_now w in (w, Ok t)).

(** [deprioritize_provider] *)
Definition deprioritize_provider (priority : PrioritizedProviderInner) : eff shared E unit :=
  wait;;
  (λ '(priorities, w), ((deprioritize priority priorities, w), Ok tt)) : eff shared E unit.

(** [update_last_seen_block]; the clock is read when the provider is found. *)
Definition update_last_seen_block (i : usize) (current_block_height : u64) : eff shared E unit :=
  wait;;
  (λ '(priorities, w),
    match list_find (λ p, provider_index p = i) priorities with
    | Some _ =>
        let '(w, t) := instant_now w in
        ((see_block i (current_block_height, t) priorities, w), Ok tt)
    | None => ((priorities, w), Ok tt)
    end) : eff shared E unit.

(** [take_priorities_snapshot] *)
Definition take_priorities_snapshot : eff shared E (list PrioritizedProviderInner) :=
  wait;;
  (λ '(priorities, w), ((priorities, w), Ok priorities)) :
    eff shared E (list PrioritizedProviderInner).

(** [handle_stalled_provider]; [duration_since] is zero for an instant that is later. *)
Definition handle_stalled_provider (self : FallbackProvider)
    (priority : PrioritizedProviderInner) (p : provider) : eff shared E unit :=
  t ← now;
  if Z.max 0 (t - snd (last_block_height priority)) <=? max_block_time self then mret tt
  else
    wait;;
    height ← on_net (eff_try (get_block_number p));
    let current_block_height :=
      match height with inr h => h | inl _ => fst (last_block_height priority) end in
    if uval current_block_height <=? uval (fst (last_block_height priority))
    then deprioritize_provider priority
    else update_last_seen_block (provider_index priority) current_block_height.
End operations.

(** ** [fallback.rs] of [hyperlane-ethereum] *)

Definition ClientError : Type := HttpClientError reqwest_error serde_error json.

(** The errors of a request; [OutOfRounds] is for rounds beyond the fuel, which the code does
    not know. *)
Inductive RequestError :=
  | OutOfRounds
  | ProviderFailed (e : ClientError)
  | FromValue (e : serde_error)
  | AllProvidersFailed (errors : list ClientError).

Section request.
(** [serde_json::from_value] of the result *)
Context {R : Type} (from_value : json -> outcome serde_error R).
Context (self : FallbackProvider) (method : string) (params : json).

(** The [for] loop over a snapshot: the result, or the errors so far *)
Fixpoint try_providers (snapshot : list PrioritizedProviderInner) (errors : list ClientError) :
    eff shared RequestError (list ClientError + R) :=
  match snapshot with
  | [] => mret (inl errors)
  | priority :: snapshot =>
      p ← eff_lift (or_panic (providers self !! Z.to_nat (uval (provider_index priority))));
      wait;;
      resp ← on_net (eff_try (request p method params));
      handle_stalled_provider self priority p;;
      match categorize_client_response method resp with
      | IsOk v => r ← eff_lift (map_err FromValue (from_value v)); mret (inr r)
      | RetryableErr e | RateLimitErr e => try_providers snapshot (errors ++ [e])
      | NonRetryableErr e => eff_lift (Err (ProviderFailed e))
      end
  end.

(** The [while] loop *)
Fixpoint request_loop (fuel : nat) (errors : list ClientError) : eff shared RequestError R :=
  if (length errors <=? 3)%nat then
    match fuel with
    | O => eff_lift (Err OutOfRounds)
    | S fuel =>
        (if bool_decide (errors = []) then mret tt
         else wait;; on_net (λ w, (sleep (from_millis 100) w, Ok tt)));;
        snapshot ← take_priorities_snapshot;
        r ← try_providers snapshot errors;
        match r with
        | inr r => mret r
        | inl errors => request_loop fuel errors
        end
    end
  else eff_lift (Err (AllProvidersFailed errors)).

(** [EthereumFallbackProvider::request], the parameters as JSON *)
Definition fallback_request (fuel : nat) : eff shared RequestError R := request_loop fuel [].
End request.
End fallback.
