(* ===== verification/RpcProvidersTheorems.v ===== *)
(** * What the RPC providers promise

    The retrying provider asks a bounded number of times, with the waits that it is documented
    to make; the shared priorities name every provider once, whatever tasks do to them at the
    same time; a request of the fallback provider ends, and fails for good only when every
    provider has failed. *)

From S2P Require Import Prelude.
From S2P Require Import Codec.
From S2P Require Import Chain.
From S2P Require Import Sealevel.
From S2P Require Import PendingOperation.
From S2P Require Import CheckpointStorage.
From S2P Require Import Metadata.
From S2P Require Import RpcProviders.
From stdpp Require Import base list numbers strings.
From Stdlib Require Import ZArith Lia.

#[local] Open Scope Z_scope.

(** ** Retrying *)

Section retrying.
Context `{OverflowChecks} {net R PE : Type}.
Context (inner_request : eff net PE R) (sleep : Duration -> net -> net).
Context (self : RetryingProvider) (matcher : PE + R -> u32 -> u64 -> HandleMethod R PE).
Context (Hinner : forall w, snd (inner_request w) <> Panic).

(** The wait after the attempt [i] *)
Definition backoff (i : Z) : Z := uval (base_retry_ms self) * 2 ^ (i - 1).
Definition waited (limited : bool) (i : Z) : Duration :=
  from_millis (if limited then Z.max (backoff i) 20000 else backoff i).

(** The response to an attempt, and what the matcher makes of it *)
Definition responded (i : Z) (w w' : net) (h : HandleMethod R PE) : Prop :=
  exists res, eff_try (E' := PE) inner_request w = (w', Ok res) /\
    matcher res (uwrap 4 i) (uwrap 8 (backoff i)) = h.

(** Attempts that were retried, with the waits after them, from the attempt [i] to [i'] *)
Inductive retried : Z -> net -> Z -> net -> Prop :=
  | retried_none i w : retried i w i w
  | retried_more i w w1 e limited i' w' :
      responded i w w1 (if limited : bool then RateLimitedRetry e else Retry e) ->
      i + 1 <= uval (max_requests self) ->
      retried (i + 1) (sleep (waited limited i) w1) i' w' -> retried i w i' w'.

Definition attempts : Z := Z.max 1 (uval (max_requests self)).

Lemma inner_responds w : exists w' res, eff_try (E' := PE) inner_request w = (w', Ok res).
Proof.
  specialize (Hinner w). unfold eff_try. destruct (inner_request w) as [w' [a|e|]]; [eauto|eauto|done].
Qed.

Lemma backoff_fits i :
  1 <= uval (base_retry_ms self) -> uval (base_retry_ms self) * 2 ^ (attempts - 1) < 2 ^ 64 ->
  1 <= i <= attempts ->
  i <= 64 /\ 0 <= 2 ^ (i - 1) < 2 ^ 64 /\ 0 <= backoff i < 2 ^ 64.
Proof.
  intros Hb Hf Hi. assert (Hp : 0 < 2 ^ (i - 1)) by (apply Z.pow_pos_nonneg; lia).
  assert (Hm : 2 ^ (i - 1) <= 2 ^ (attempts - 1)) by (apply Z.pow_le_mono_r; lia).
  unfold backoff. assert (Hlt : 2 ^ (i - 1) < 2 ^ 64) by nia.
  split; [|split; [lia|nia]]. apply Z.pow_lt_mono_r_iff in Hlt; lia.
Qed.

Lemma retry_loop_spec fuel i w :
  1 <= uval (base_retry_ms self) -> uval (base_retry_ms self) * 2 ^ (attempts - 1) < 2 ^ 64 ->
  1 <= i <= attempts -> attempts - i < Z.of_nat fuel ->
  exists i' w1 w2 h, retried i w i' w1 /\ i <= i' <= attempts /\ responded i' w1 w2 h /\
    retry_loop inner_request sleep self matcher fuel (uwrap 4 i) w =
    (w2, match h with
         | Accept v => Ok v
         | Halt e => Err (JsonRpcClientError e)
         | Retry e | RateLimitedRetry e => Err (MaxRequests e)
         end) /\
    match h with Retry _ | RateLimitedRetry _ => i' = attempts | _ => True end.
Proof.
  intros Hb Hf. revert i w. induction fuel as [|fuel IH]; intros i w Hi Hfuel; [lia|].
  destruct (backoff_fits i Hb Hf Hi) as (Hi64 & Hpow & Hback).
  assert (Hui : uval (uwrap 4 i : u32) = i).
  { apply uval_uwrap_small. change (umax 4) with (2 ^ 32). lia. }
  cbn [retry_loop]. rewrite Hui.
  rewrite (arith_fits 4 (i - 1)), (arith_fits 4 (i + 1)) by (change (umax 4) with (2 ^ 32); lia).
  rewrite eff_lift_Ok_bind, (uval_uwrap_small 4 (i - 1)) by (change (umax 4) with (2 ^ 32); lia).
  rewrite (arith_fits 8 (2 ^ (i - 1))) by (change (umax 8) with (2 ^ 64); lia).
  rewrite eff_lift_Ok_bind, (uval_uwrap_small 8 (2 ^ (i - 1)))
    by (change (umax 8) with (2 ^ 64); lia).
  fold (backoff i). rewrite (arith_fits 8 (backoff i)) by (change (umax 8) with (2 ^ 64); lia).
  rewrite eff_lift_Ok_bind.
  destruct (inner_responds w) as (w1 & res & Hres).
  assert (Hgo : eff_try (E' := RetryingProviderError PE) inner_request w = (w1, Ok res)).
  { unfold eff_try in *. destruct (inner_request w) as [w' [a|e|]]; [..|done];
      by injection Hres as -> ->. }
  rewrite (eff_bind_eq _ _ _ _ _ Hgo). clear Hgo.
  assert (Hr : responded i w w1 (matcher res (uwrap 4 i) (uwrap 8 (backoff i)))) by (by exists res).
  assert (Hlast : forall e (limited : bool),
    matcher res (uwrap 4 i) (uwrap 8 (backoff i)) =
      (if limited then RateLimitedRetry e else Retry e) ->
    exists i' w1' w2 h, retried i w i' w1' /\ i <= i' <= attempts /\ responded i' w1' w2 h /\
      (eff_lift (Ok (uwrap 4 (i + 1))) ≫= λ i0 : u32,
        if uval i0 <=? uval (max_requests self) then
          (λ w0 : net, (sleep (waited limited i) w0, Ok tt)) ≫= λ _ : (),
            retry_loop inner_request sleep self matcher fuel i0
        else eff_lift (Err (MaxRequests e))) w1 =
      (w2, match h with
           | Accept v => Ok v
           | Halt e => Err (JsonRpcClientError e)
           | Retry e | RateLimitedRetry e => Err (MaxRequests e)
           end) /\
      match h with Retry _ | RateLimitedRetry _ => i' = attempts | _ => True end).
  { intros e limited He. rewrite He in Hr. rewrite eff_lift_Ok_bind.
    rewrite (uval_uwrap_small 4) by (change (umax 4) with (2 ^ 32); lia).
    destruct (Z.leb_spec (i + 1) (uval (max_requests self))) as [Hle|Hgt].
    - destruct (IH (i + 1) (sleep (waited limited i) w1)) as (i' & w1' & w2 & h & H1 & H2 & H3);
        [unfold attempts; lia|lia|]. exists i', w1', w2, h.
      split; [by eapply retried_more|]. split; [lia|]. done.
    - exists i, w, w1, (if limited then RateLimitedRetry e else Retry e).
      split; [constructor|]. split; [lia|]. split; [done|]. unfold attempts in *.
      destruct limited; (split; [done|lia]). }
  destruct (matcher res (uwrap 4 i) (uwrap 8 (backoff i))) as [v|e|e|e] eqn:Hm.
  - exists i, w, w1, (Accept v). split; [constructor|]. split; [lia|]. by split.
  - exists i, w, w1, (Halt e). split; [constructor|]. split; [lia|]. by split.
  - specialize (Hlast e false eq_refl). unfold waited in Hlast.
    by rewrite (uval_uwrap_small 8 (backoff i)) by (change (umax 8) with (2 ^ 64); lia).
  - specialize (Hlast e true eq_refl). unfold waited in Hlast.
    by rewrite (uval_uwrap_small 8 (backoff i)) by (change (umax 8) with (2 ^ 64); lia).
Qed.

(** A request of the retrying provider ends: with the first response that is accepted or is an
    error not to retry, or, when there is none among as many attempts as it is configured for
    (one at least), with the last error. Every attempt before was to be retried, and the wait
    after the [i]-th is [2 ^ (i - 1)] times the base, 20 seconds at least after a rate limit;
    with a base that does not overflow no wait does. *)
Theorem retry_spec (fuel : nat) (w : net)
    (Hbase : 1 <= uval (base_retry_ms self))
    (Hfits : uval (base_retry_ms self) * 2 ^ (attempts - 1) < 2 ^ 64)
    (Hfuel : attempts <= Z.of_nat fuel) :
  exists i w1 w2 h, retried 1 w i w1 /\ 1 <= i <= attempts /\ responded i w1 w2 h /\
    request_with_retry inner_request sleep self matcher fuel w =
    (w2, match h with
         | Accept v => Ok v
         | Halt e => Err (JsonRpcClientError e)
         | Retry e | RateLimitedRetry e => Err (MaxRequests e)
         end) /\
    match h with Retry _ | RateLimitedRetry _ => i = attempts | _ => True end.
Proof. apply retry_loop_spec; [done|done|unfold attempts; lia|lia]. Qed.
End retrying.

(** ** The shared priorities *)

Definition place (p : PrioritizedProviderInner) : nat := Z.to_nat (uval (provider_index p)).

(** The priorities name each of [n] providers once. *)
Definition covers (n : nat) (priorities : list PrioritizedProviderInner) : Prop :=
  place <$> priorities ≡ₚ seq 0 n.

Lemma covers_alt n ps :
  covers n ps <-> NoDup (place <$> ps) /\ forall i, i ∈ place <$> ps <-> (i < n)%nat.
Proof.
  unfold covers. split.
  - intros Hp. split; [rewrite Hp; apply NoDup_seq|]. intros i. rewrite Hp, elem_of_seq. lia.
  - intros [Hn Hi]. apply NoDup_Permutation; [done|apply NoDup_seq|].
    intros i. rewrite Hi, elem_of_seq. lia.
Qed.

Lemma covers_length n ps : covers n ps -> length ps = n.
Proof. intros Hp%Permutation_length. by rewrite length_fmap, length_seq in Hp. Qed.

Lemma place_inj p q : place p = place q <-> provider_index p = provider_index q.
Proof.
  unfold place. split; [|by intros ->]. intros He. apply uval_inj.
  pose proof (uval_range (provider_index p)). pose proof (uval_range (provider_index q)). lia.
Qed.

Lemma deprioritize_covers n p ps :
  (place p < n)%nat -> covers n ps -> covers n (deprioritize p ps).
Proof.
  rewrite !covers_alt. intros Hp [Hn Hi]. unfold deprioritize.
  assert (Hf : forall i, i ∈ place <$> List.filter (λ q, bool_decide (provider_index q <>
      provider_index p)) ps <-> i ∈ place <$> ps /\ i <> place p).
  { intros i. rewrite !list_elem_of_fmap. setoid_rewrite list_elem_of_In.
    setoid_rewrite filter_In. setoid_rewrite bool_decide_eq_true. split.
    - intros (q & -> & Hq & Hne). split; [eauto|]. by rewrite place_inj.
    - intros [(q & -> & Hq) Hne]. exists q. rewrite place_inj in Hne. done. }
  rewrite fmap_app. split.
  - apply NoDup_app. split; [|split].
    + clear Hi Hf. induction ps as [|q ps IH]; [constructor|]. apply NoDup_cons in Hn as [Hq Hn].
      cbn [List.filter]. case_match; [|by apply IH]. cbn. apply NoDup_cons. split; [|by apply IH].
      intros (r & Hr & Hin)%list_elem_of_fmap. apply Hq. apply list_elem_of_fmap. exists r.
      split; [done|]. apply list_elem_of_In, filter_In in Hin as [Hin _]. by apply list_elem_of_In.
    + intros i [_ Hne]%Hf Hin. cbn in Hin. by apply list_elem_of_singleton in Hin.
    + apply NoDup_singleton.
  - intros i. rewrite elem_of_app, Hf. cbn. rewrite list_elem_of_singleton, Hi.
    destruct (decide (i = place p)) as [->|]; naive_solver.
Qed.

Lemma see_block_places i seen ps : place <$> see_block i seen ps = place <$> ps.
Proof.
  unfold see_block. destruct (list_find _ ps) as [[k q]|] eqn:Hf; [|done].
  apply list_find_Some in Hf as (Hk & Hq & _). rewrite list_fmap_insert. apply list_insert_id.
  rewrite list_lookup_fmap, Hk. cbn. unfold place. cbn. by rewrite Hq.
Qed.

Lemma see_block_covers n i seen ps : covers n ps -> covers n (see_block i seen ps).
Proof. unfold covers. by rewrite see_block_places. Qed.

Section fallback.
Context `{RpcNodes}.
Context (self : FallbackProvider).
Local Abbreviation n := (length (providers self)).

(** Other tasks deprioritize providers of the list only, as they took them from a snapshot. *)
Definition op_valid (op : PriorityOp) : Prop :=
  match op with Deprioritized p => (place p < n)%nat | SeenBlock _ _ => True end.
Context (Hothers : forall w, Forall op_valid (snd (others w))).

Definition complete (s : shared) : Prop := covers n s.1.

Lemma apply_ops_covers ops ps :
  Forall op_valid ops -> covers n ps ->
  covers n (foldl (λ ps op, apply_op op ps) ps ops).
Proof.
  revert ps. induction ops as [|op ops IH]; intros ps Hops Hps; [done|].
  apply Forall_cons in Hops as [Hop Hops]. apply IH; [done|].
  destruct op; [by apply deprioritize_covers|by apply see_block_covers].
Qed.

Lemma keeps_wait {E} : preserves (E := E) complete wait.
Proof.
  intros [ps w] Hs. unfold wait. pose proof (Hothers w) as Hops.
  destruct (others w) as [w' ops]. by apply apply_ops_covers.
Qed.

Lemma keeps_on_net {E A} (m : eff net E A) : preserves complete (on_net m).
Proof. intros [ps w] Hs. unfold on_net. by destruct (m w). Qed.

Lemma keeps_lift {E A} (m : outcome E A) : preserves complete (eff_lift m).
Proof. by intros s. Qed.

Lemma keeps_snapshot {E} : preserves (E := E) complete take_priorities_snapshot.
Proof. apply preserves_bind; [apply keeps_wait|]. by intros _ [ps w] Hs. Qed.

Lemma keeps_stalled {E} priority p :
  (place priority < n)%nat -> preserves (E := E) complete (handle_stalled_provider self priority p).
Proof.
  intros Hp. apply preserves_bind; [apply keeps_on_net|]. intros t. case_match;
    [apply preserves_ret|].
  apply preserves_bind; [apply keeps_wait|]. intros _.
  apply preserves_bind; [apply keeps_on_net|]. intros height. cbv zeta. case_match.
  - apply preserves_bind; [apply keeps_wait|]. intros _ [ps w] Hs. by apply deprioritize_covers.
  - apply preserves_bind; [apply keeps_wait|]. intros _ [ps w] Hs.
    destruct (list_find _ ps) as [[k q]|]; [|done]. destruct (instant_now w) as [w' t'].
    by apply see_block_covers.
Qed.

(** A snapshot names every provider of the list. *)
Lemma snapshot_complete {E} s s' snapshot :
  complete s -> take_priorities_snapshot (E := E) s = (s', Ok snapshot) -> covers n snapshot.
Proof.
  intros Hs He. unfold take_priorities_snapshot in He.
  apply eff_bind_ok in He as ([ps w] & [] & Hw & He). injection He as _ <-.
  pose proof (keeps_wait (E := E) s Hs) as Hk. by rewrite Hw in Hk.
Qed.

Section requests.
Context {R : Type} (from_value : json -> outcome serde_error R) (method : string) (params : json).

Lemma keeps_try_providers snapshot errors :
  Forall (λ p, (place p < n)%nat) snapshot ->
  preserves complete (try_providers from_value self method params snapshot errors).
Proof.
  revert errors. induction snapshot as [|priority snapshot IH]; intros errors Hsn;
    [apply preserves_ret|]. apply Forall_cons in Hsn as [Hp Hsn]. cbn [try_providers].
  apply preserves_bind; [apply keeps_lift|]. intros p.
  apply preserves_bind; [apply keeps_wait|]. intros _.
  apply preserves_bind; [apply keeps_on_net|]. intros resp.
  apply preserves_bind; [by apply keeps_stalled|]. intros _.
  case_match; [|by apply IH..|apply keeps_lift].
  apply preserves_bind; [apply keeps_lift|]. intros r'. apply preserves_ret.
Qed.

Lemma covers_places k ps : covers k ps -> Forall (λ p, (place p < k)%nat) ps.
Proof.
  intros [_ Hi]%covers_alt. apply Forall_forall. intros p Hp.
  by apply Hi, list_elem_of_fmap_2.
Qed.

Lemma keeps_request fuel errors :
  preserves complete (request_loop from_value self method params fuel errors).
Proof.
  revert errors. induction fuel as [|fuel IH]; intros errors; cbn [request_loop];
    (case_match; [|apply keeps_lift]); [apply keeps_lift|].
  apply preserves_bind.
  { case_match; [apply preserves_ret|]. apply preserves_bind; [apply keeps_wait|].
    intros _. apply keeps_on_net. }
  intros _ s Hs. unfold mbind, eff_bind at 1.
  pose proof (keeps_snapshot (E := RequestError) s Hs) as Hk.
  destruct (take_priorities_snapshot s) as [s1 [snapshot|e|]] eqn:Hsn; [|done..].
  pose proof (snapshot_complete _ _ _ Hs Hsn) as Hc.
  revert Hk. cbn [fst]. revert s1 Hsn. intros s1 _ Hk. revert s1 Hk.
  match goal with |- forall s, _ -> complete (fst (?m _)) =>
    enough (Hm : preserves complete m) by apply Hm end.
  apply preserves_bind; [by apply keeps_try_providers, covers_places|].
  intros [errors'|r]; [apply IH|apply preserves_ret].
Qed.

(** *** The end of a request *)

Context (Hrequest : forall p w, snd (request p method params w) <> Panic).
Context (Hheight : forall p w, snd (get_block_number p w) <> Panic).
Context (Hvalue : forall v, from_value v <> Panic).

(** A response of a provider of the list *)
Definition responds (p : provider) (resp : ClientError + json) : Prop :=
  p ∈ providers self /\
  exists w w', eff_try (E' := RequestError) (request p method params) w = (w', Ok resp).

(** The provider at [i] has answered with an error to retry. *)
Definition gave_up (i : nat) : Prop :=
  exists p e, providers self !! i = Some p /\ responds p (inl e) /\
    (categorize_client_response (R := json) method (inl e) = RetryableErr e \/
     categorize_client_response (R := json) method (inl e) = RateLimitErr e).

Definition fair_result (r : outcome RequestError R) : Prop :=
  match r with
  | Ok r => exists p v, responds p (inr v) /\ from_value v = Ok r
  | Err (ProviderFailed e) => exists p, responds p (inl e) /\
      categorize_client_response (R := json) method (inl e) = NonRetryableErr e
  | Err (FromValue e) => exists p v, responds p (inr v) /\ from_value v = Err e
  | Err (AllProvidersFailed errors) =>
      (4 <= length errors <= 3 + n)%nat /\ forall i, (i < n)%nat -> gave_up i
  | Err OutOfRounds | Panic => False
  end.

Lemma wait_ok {E} s : exists s', wait (E := E) s = (s', Ok tt).
Proof. destruct s as [ps w]. unfold wait. destruct (others w). eauto. Qed.

Lemma on_net_try {E E' A} (m : eff net E A) s :
  (forall w, snd (m w) <> Panic) ->
  exists s' r, on_net (eff_try (E' := E') m) s = (s', Ok r) /\
    exists w w', eff_try (E' := E') m w = (w', Ok r).
Proof.
  intros Hm. destruct s as [ps w]. unfold on_net. specialize (Hm w).
  destruct (eff_try m w) as [w' r] eqn:Hr. unfold eff_try in Hr.
  destruct (m w) as [w1 [a|e|]] eqn:Hw; [..|done]; injection Hr as <- <-;
    (eexists _, _; split; [done|]); exists w, w1; unfold eff_try; by rewrite Hw.
Qed.

Lemma now_ok {E} s : exists s' t, now (E := E) s = (s', Ok t).
Proof. destruct s as [ps w]. unfold now, on_net. destruct (instant_now w). eauto. Qed.

Lemma stalled_ok {E} priority p s :
  exists s', handle_stalled_provider (E := E) self priority p s = (s', Ok tt).
Proof.
  unfold handle_stalled_provider. destruct (now_ok (E := E) s) as (s0 & t & Hnow).
  rewrite (eff_bind_eq _ _ _ _ _ Hnow).
  case_match; [by eexists|]. destruct (wait_ok (E := E) s0) as [s1 Hw].
  rewrite (eff_bind_eq _ _ _ _ _ Hw).
  destruct (on_net_try (E' := E) (get_block_number p) s1 (Hheight p)) as (s2 & r & Hr & _).
  rewrite (eff_bind_eq _ _ _ _ _ Hr). cbv zeta. case_match.
  - unfold deprioritize_provider. destruct (wait_ok (E := E) s2) as [[ps3 w3] Hw3].
    rewrite (eff_bind_eq _ _ _ _ _ Hw3). by eexists.
  - unfold update_last_seen_block. destruct (wait_ok (E := E) s2) as [[ps3 w3] Hw3].
    rewrite (eff_bind_eq _ _ _ _ _ Hw3).
    destruct (list_find _ ps3) as [[k q]|]; [|by eexists]. destruct (instant_now w3). by eexists.
Qed.

Lemma categorized (resp : ClientError + json) :
  match categorize_client_response method resp with
  | IsOk v => resp = inr v
  | RetryableErr e | RateLimitErr e | NonRetryableErr e => resp = inl e
  end.
Proof.
  destruct resp as [[e|err text|code message data]|v]; unfold categorize_client_response;
    cbv zeta; [done| | |done].
  - by destruct (contains _ _).
  - destruct (is_rate_limit _ _); [done|]. by destruct (is_not_retryable _ _).
Qed.

Lemma try_providers_spec snapshot errors s :
  Forall (λ p, (place p < n)%nat) snapshot ->
  exists s' r, try_providers from_value self method params snapshot errors s = (s', r) /\
    match r with
    | Ok (inl errors') => length errors' = (length errors + length snapshot)%nat /\
        Forall (λ p, gave_up (place p)) snapshot
    | Ok (inr r) => fair_result (Ok r)
    | Err (AllProvidersFailed _) => False
    | Err e => fair_result (Err e)
    | Panic => False
    end.
Proof.
  revert errors s. induction snapshot as [|priority snapshot IH]; intros errors s Hsn.
  { eexists _, _. split; [done|]. cbn. split; [lia|constructor]. }
  apply Forall_cons in Hsn as [Hp Hsn]. cbn [try_providers].
  destruct (lookup_lt_is_Some_2 (providers self) (place priority) Hp) as [p Hlook].
  unfold place in Hlook. rewrite Hlook. unfold mbind at 1, eff_bind at 1. cbn [eff_lift or_panic].
  destruct (wait_ok (E := RequestError) s) as [s1 Hw]. rewrite (eff_bind_eq _ _ _ _ _ Hw).
  destruct (on_net_try (E' := RequestError) (request p method params) s1 (Hrequest p))
    as (s2 & resp & Hr & Hresp). rewrite (eff_bind_eq _ _ _ _ _ Hr).
  destruct (stalled_ok (E := RequestError) priority p s2) as [s3 Hst].
  rewrite (eff_bind_eq _ _ _ _ _ Hst).
  assert (Hresponds : responds p resp).
  { split; [by eapply list_elem_of_lookup_2|done]. }
  pose proof (categorized resp) as Hcat.
  assert (Hnext : forall e, resp = inl e ->
    (categorize_client_response (R := json) method (inl e) = RetryableErr e \/
     categorize_client_response (R := json) method (inl e) = RateLimitErr e) ->
    exists s' r, try_providers from_value self method params snapshot (errors ++ [e]) s3 = (s', r) /\
    match r with
    | Ok (inl errors') => length errors' = (length errors + S (length snapshot))%nat /\
        Forall (λ p, gave_up (place p)) (priority :: snapshot)
    | Ok (inr r) => fair_result (Ok r)
    | Err (AllProvidersFailed _) => False
    | Err e => fair_result (Err e)
    | Panic => False
    end).
  { intros e -> He. destruct (IH (errors ++ [e]) s3 Hsn) as (s' & r & Ht & Hspec).
    exists s', r. split; [done|]. destruct r as [[errors'|r]|[]|]; try done.
    destruct Hspec as [Hlen Hall]. rewrite length_app in Hlen. cbn in Hlen. split; [lia|].
    constructor; [|done]. by exists p, e. }
  destruct (categorize_client_response method resp) as [v|e|e|e] eqn:Hc.
  - subst resp. destruct (from_value v) as [r|e|] eqn:Hv; [..|by destruct (Hvalue v)].
    + eexists _, _. split; [reflexivity|]. cbn. eauto.
    + eexists _, _. split; [reflexivity|]. cbn. eauto.
  - rewrite Hcat in Hc. apply Hnext; eauto.
  - rewrite Hcat in Hc. apply Hnext; eauto.
  - eexists _, _. split; [done|]. cbn. exists p. subst resp. done.
Qed.

Lemma request_loop_spec fuel errors s :
  (0 < n)%nat -> complete s -> (4 <= fuel + length errors)%nat -> (length errors <= 3 + n)%nat ->
  (errors <> [] -> forall i, (i < n)%nat -> gave_up i) ->
  fair_result (snd (request_loop from_value self method params fuel errors s)).
Proof.
  intros Hn. revert errors s. induction fuel as [|fuel IH]; intros errors s Hs Hfuel Hlen Hall;
    cbn [request_loop]; (destruct (Nat.leb_spec (length errors) 3);
      [|split; [lia|]; intros i Hi; apply Hall; [by intros ->; cbn in *; lia|done]]); [lia|].
  set (pause := (if bool_decide (errors = []) then mret tt else _) : eff shared RequestError unit).
  assert (Hpause : exists s1, pause s = (s1, Ok tt) /\ complete s1).
  { unfold pause. case_bool_decide; [by exists s|].
    pose proof (keeps_wait (E := RequestError) s Hs) as Hk.
    destruct (wait_ok (E := RequestError) s) as [[ps w] Hw]. rewrite Hw in Hk.
    rewrite (eff_bind_eq _ _ _ _ _ Hw). by eexists. }
  destruct Hpause as (s1 & Hp & Hs1). rewrite (eff_bind_eq _ _ _ _ _ Hp). clear Hp pause.
  assert (Hsnap : exists s2 snapshot, take_priorities_snapshot (E := RequestError) s1
      = (s2, Ok snapshot)).
  { unfold take_priorities_snapshot. destruct (wait_ok (E := RequestError) s1) as [[ps w] Hw].
    rewrite (eff_bind_eq _ _ _ _ _ Hw). by eexists _, _. }
  destruct Hsnap as (s2 & snapshot & Hsn). rewrite (eff_bind_eq _ _ _ _ _ Hsn).
  pose proof (snapshot_complete _ _ _ Hs1 Hsn) as Hc.
  pose proof (keeps_snapshot (E := RequestError) s1 Hs1) as Hs2. rewrite Hsn in Hs2.
  pose proof (covers_places _ _ Hc) as Hplaces.
  pose proof (keeps_try_providers snapshot errors Hplaces s2 Hs2) as Hs3.
  destruct (try_providers_spec snapshot errors s2 Hplaces) as (s3 & r & Ht & Hspec).
  rewrite Ht in Hs3. unfold mbind, eff_bind. rewrite Ht.
  destruct r as [[errors'|r]|e|]; [|done| |done].
  - destruct Hspec as [Hlen' Hgave]. rewrite (covers_length _ _ Hc) in Hlen'.
    apply IH; [done|lia|lia|]. intros _ i Hi.
    apply covers_alt in Hc as [_ Hin]. apply Hin in Hi. apply list_elem_of_fmap in Hi as (p & -> & Hp).
    rewrite Forall_forall in Hgave. by apply Hgave.
  - by destruct e.
Qed.

(** A request ends within four rounds, whatever the nodes answer and whatever other tasks do to
    the priorities: with the first response that is not to be retried, or, after four failures
    at least, when every provider has failed. So a provider that answers is enough, unless
    another one returns an error not to retry. *)
Theorem fallback_ends (fuel : nat) (s : shared)
    (Hproviders : (0 < n)%nat) (Hs : complete s) (Hfuel : (4 <= fuel)%nat) :
  fair_result (snd (fallback_request from_value self method params fuel s)).
Proof. apply request_loop_spec; [done|done|cbn; lia|cbn; lia|done]. Qed.
End requests.
End fallback.

Section build.
Context `{RpcNodes}.

Lemma initial_places indices w :
  Forall (λ i, Z.of_nat i < 2 ^ 64) indices ->
  place <$> snd (initial_priorities indices w) = indices.
Proof.
  revert w. induction indices as [|i indices IH]; intros w Hi; [done|].
  apply Forall_cons in Hi as [Hi Hall]. cbn [initial_priorities].
  destruct (instant_now w) as [w1 t]. specialize (IH w1 Hall).
  destruct (initial_priorities indices w1) as [w2 ps]. cbn in *. rewrite IH. f_equal.
  unfold place. cbn [provider_index]. rewrite uval_uwrap_small; [lia|].
  change (umax 8) with (2 ^ 64). lia.
Qed.

(** The priorities of a new provider name each of its providers once, and still do after any
    request, however it ends and whatever other requests do in between, so that no request asks
    a provider that is not there or forgets one for good. *)
Theorem priorities_stay_complete (ps : list provider) (max : Duration) (w : net)
    (Hsmall : Z.of_nat (length ps) < 2 ^ 64)
    (Hothers : forall w, Forall (op_valid (MkFallbackProvider ps max)) (snd (others w))) :
  let '(self, s) := build ps max w in
  complete self s /\
  forall {R} (from_value : json -> outcome serde_error R) method params fuel s,
    complete self s -> complete self (fst (fallback_request from_value self method params fuel s)).
Proof.
  unfold build. destruct (initial_priorities (seq 0 (length ps)) w) as [w' priorities] eqn:Hi.
  split.
  - unfold complete, covers. cbn [fst providers].
    pose proof (initial_places (seq 0 (length ps)) w) as Hp. rewrite Hi in Hp. cbn [snd] in Hp.
    rewrite Hp; [done|]. apply Forall_forall. intros i Hin%elem_of_seq. lia.
  - intros R from_value method params fuel s Hs. by apply keeps_request.
Qed.

(** Without providers a request never ends: no number of rounds is enough. *)
Theorem no_providers_never_ends {R} (from_value : json -> outcome serde_error R) self method params
    (fuel : nat) (s : shared)
    (Hempty : providers self = []) (Hothers : forall w, Forall (op_valid self) (snd (others w)))
    (Hs : complete self s) :
  snd (fallback_request from_value self method params fuel s) = Err OutOfRounds.
Proof.
  unfold fallback_request. revert s Hs. induction fuel as [|fuel IH]; intros s Hs; [done|].
  cbn [request_loop length Nat.leb]. rewrite bool_decide_true by done.
  unfold mbind at 1, eff_bind at 1. cbn [mret eff_ret].
  pose proof (keeps_snapshot self Hothers (E := RequestError) s Hs) as Hk.
  destruct (take_priorities_snapshot s) as [s1 r] eqn:Hsn.
  assert (exists snapshot, r = Ok snapshot) as [snapshot ->].
  { unfold take_priorities_snapshot in Hsn.
    destruct (wait_ok (E := RequestError) s) as [[ps w] Hw].
    rewrite (eff_bind_eq _ _ _ _ _ Hw) in Hsn. injection Hsn as _ <-. eauto. }
  rewrite (eff_bind_eq _ _ _ _ _ Hsn).
  pose proof (snapshot_complete self Hothers s s1 snapshot Hs Hsn) as Hc.
  apply covers_length in Hc. rewrite Hempty in Hc. destruct snapshot; [|done].
  unfold mbind at 1, eff_bind at 1. cbn [try_providers mret eff_ret]. by apply IH.
Qed.
End build.

(** ** At concrete inputs *)

Module RpcModel.
(** A node that never answers, one that is limited and one that answers; time passes as nodes
    are asked. *)
#[export] Instance nodes : RpcNodes := {|
  net := Z; json := Z; reqwest_error := unit; serde_error := unit; provider := nat;
  request p _ _ w := (w + from_secs 100,
    match p with
    | O => Err (ReqwestError tt)
    | 1%nat => Err (JsonRpcError 429 "slow down"%string None)
    | _ => Ok 7
    end);
  get_block_number _ w := (w, Err tt);
  RpcProviders.instant_now w := (w, w);
  sleep d w := w + d;
  others w := (w, [])
|}.

Definition self : FallbackProvider := MkFallbackProvider [0; 1; 2]%nat MAX_BLOCK_TIME.
Definition start : shared := snd (build [0; 1; 2]%nat MAX_BLOCK_TIME 0).
Definition value (v : Z) : outcome unit Z := Ok v.

Lemma others_keep_valid w : Forall (op_valid self) (snd (others w)).
Proof. constructor. Qed.

Lemma start_complete : complete self start.
Proof. vm_compute. reflexivity. Qed.

(** A node that fails twice and then answers, by the number of requests *)
#[export] Instance checks : OverflowChecks := true.
Definition flaky : eff nat unit Z := λ w, (S w, if (w <? 2)%nat then Err tt else Ok 7).
Definition retrying : RetryingProvider := RetryingProvider_new None None.
Definition always_retry (r : unit + Z) (i : u32) (ms : u64) : HandleMethod Z unit :=
  match r with inr v => Accept v | inl e => Retry e end.
End RpcModel.

Section witnesses.
Import RpcModel.

Lemma retry_spec_witness :
  request_with_retry flaky (λ _ w, w) retrying always_retry 6 0%nat = (3%nat, Ok 7) /\
  exists i w1, retried flaky (λ _ w, w) retrying always_retry 1 0%nat i w1 /\ 1 <= i <= 6 /\
    responded flaky retrying always_retry i w1 3%nat (Accept 7).
Proof.
  split; [reflexivity|].
  destruct (retry_spec flaky (λ _ w, w) retrying always_retry
    ltac:(intros [|[|w]]; discriminate) 6 0%nat) as (i & w1 & w2 & h & Hr & Hi & Hh & He & _);
    [apply Z.leb_le; reflexivity|apply Z.ltb_lt; reflexivity|apply Z.leb_le; reflexivity|].
  exists i, w1. split; [exact Hr|]. split; [exact Hi|].
  change (request_with_retry flaky (λ _ w, w) retrying always_retry 6 0%nat) with
    ((3%nat, Ok 7) : nat * outcome (RetryingProviderError unit) Z) in He.
  destruct h as [v|e|e|e]; [|discriminate..]. injection He as <- <-. exact Hh.
Defined.

Lemma fallback_ends_witness :
  snd (fallback_request value self "eth_call" 0 4 start) = Ok 7 /\
  exists p v, responds self "eth_call" 0 p (inr v) /\ value v = Ok 7.
Proof.
  assert (He : snd (fallback_request value self "eth_call" 0 4 start) = Ok 7)
    by (vm_compute; reflexivity).
  split; [exact He|].
  pose proof (fallback_ends self others_keep_valid value "eth_call" 0
    ltac:(intros [|[|p]] w; discriminate) ltac:(intros p w; discriminate)
    ltac:(intros v; discriminate) 4 start ltac:(cbn; lia) start_complete ltac:(lia)) as Hf.
  rewrite He in Hf. exact Hf.
Defined.

Lemma priorities_stay_complete_witness :
  complete self start /\
  complete self (fst (fallback_request value self "eth_call" 0 4 start)).
Proof.
  destruct (priorities_stay_complete (providers self) MAX_BLOCK_TIME 0 ltac:(cbn; lia) others_keep_valid)
    as [Hs Hkeep].
  split; [exact Hs|]. apply Hkeep. exact Hs.
Defined.

Lemma no_providers_never_ends_witness :
  snd (fallback_request value (MkFallbackProvider [] MAX_BLOCK_TIME) "eth_call" 0 9 ([], 0)) =
  Err OutOfRounds.
Proof.
  apply no_providers_never_ends; [reflexivity|intros w; constructor|].
  vm_compute. constructor.
Defined.
End witnesses.
